(* ===== verification/_CoqProject ===== *)
-Q . S2P
Prelude.v
Text.v
ThirdParty.v
RelayStorage.v
RelaySyncV2.v
RelayV2Log.v
RelayV2Push.v
RelayV2Pull.v
RelayPairing.v
RelayDevices.v
RelayJoin.v
RelaySyncV1.v
RelayV1Facts.v
RelayRate.v
RelayAuth.v
Relay.v
RelayInv.v
RelayAccess.v
Aad.v
Envelope.v
CoreDemo.v
Keyring.v
DbWire.v
KeyDemo.v
SyncWire.v
CoreError.v
EpochGuard.v
Recovery.v
EnvelopeOps.v
Totp.v
DomainTags.v
Lockout.v
KeySlots.v
LocalDb.v
ContentGuard.v
ContentFacts.v
Registry.v
VaultKeys.v
Entries.v
EntriesFacts.v
EntriesDemo.v
DomainOps.v
DomainFacts.v
SyncModels.v
SyncOutbox.v
SyncApply.v
SyncEngine.v
SyncFacts.v
SyncDeliver.v
SyncAcks.v
SyncDemo.v
Custody.v
Activation.v
Sweep.v
VaultLife.v
VaultDemo.v
Backup.v
Restore.v
Policy.v
AuditLog.v
AuditVerify.v
AuditFacts.v
AuditFiles.v
AuditRun.v
AuditLife.v
AuditDemo.v
ServiceGrants.v
StepUp.v
ServiceAccess.v
ServiceFacts.v
ServiceDemo.v
Session.v
SessionFacts.v
TotpOps.v
SiteAccess.v
ExternalAllow.v
DaemonVault.v
Browser.v
BrowserFacts.v
BrowserDemo.v
