(* ===== verification/Prelude.v ===== *)
(** * SentinelPass: a verification library

    SentinelPass is a password manager.  A vault lives on each device; paired
    devices exchange encrypted mutations through a relay server that never
    holds keys; a daemon on the device serves the browser extension, local tools
    and services over a sealed socket; and every security event goes to a
    chained log.  This
    library models, from the Rust sources,

    - the relay ([sentinelpass-relay/src/]): storage, configuration, request
      authentication, rate limiting, the sync protocols v1 and v2, pairing,
      device registration and revocation, migration claims, the cleanup task
      and the router that puts them together;
    - the cryptographic core ([sentinelpass-core/src/crypto/]): contexts bound
      as associated data, authenticated envelopes, key derivation, the key
      hierarchy with password rotation, and the durable key-material columns;
    - the vault ([sentinelpass-core/src/vault/], [database/], [registry/],
      [domain.rs], [lockout.rs], [totp.rs]): the files and tables it keeps, its
      guards against rollback and tampering, key slots and recovery keys,
      entries with their equality index and domain index, one-time codes,
      custody objects ([sentinelpass-protocol/src/custody.rs]), the sweep that
      converts legacy columns, the pass that verifies every sealed column and
      activates the format, portable backups and their restore, the unlock lockout and the rotation
      policy;
    - the sync client ([sentinelpass-core/src/sync/]): wire schema, payloads,
      outbox, engine, conflict rules and configuration;
    - the audit log ([audit.rs]): records, chain, rotation and verification;
    - service access at the daemon ([daemon/service_grants.rs],
      [daemon/enrollment.rs], [daemon/exe_policy.rs], [daemon/ipc/stepup.rs] and
      the handlers of [daemon/ipc/server.rs] that use them);
    - the socket of the daemon ([sentinelpass-protocol/src/]: framing, session,
      connection, client) and the requests of browsers and local tools
      ([daemon/vault_state.rs], [daemon/capabilities.rs],
      [daemon/site_permissions.rs], [external_secret_access.rs],
      [vault/totp_ops.rs] and their handlers in [daemon/ipc/server.rs]).

    ** How the code is represented

    Definitions keep the names of the source and are executable.  A fallible
    function returns [result E A] (Rust's [Result]), with the error values of
    the code; the text a library adds to an error is left out.  Integers are
    [Z], and the width is written out wherever a cast, a wrap or a saturation
    can be observed ([u64_as_i64], [i64_wrap], [u32_saturating_mul]).  Byte
    strings are lists of bytes, Rust strings are [string]s of their UTF-8
    bytes.  Time, fresh UUIDs, salts, nonces and keys are arguments.

    A relay handler is a program of the monad [Tx] (file [RelayStorage]) over a
    connection to the record of tables [DB]: [query] and [execute] are the
    statements, [throw] is [return Err], [commit] publishes the pending tables,
    and [run_tx] drops them on an error, as dropping a rusqlite transaction
    does; [run_auto] is the autocommit mode the v1 handlers run in.  The local
    database of a vault has the same shape (file [LocalDb]), with savepoints.
    A file beside the database is its bytes or [None]; a write that may fail
    fails by argument, at the points where the code can be cut short.  The
    audit directory is a finite map from names to bytes, and what the code can
    only do by panicking is a value of its own.  The daemon is a record of its
    memory and its grant file; where a handler waits for another process, it is
    two steps, and other requests may run between them.

    Code outside the repository (file [ThirdParty], and beside its only user)
    is a class of operations, with the documented facts the repository relies
    on in a separate class of laws: UUID text, Base64, hex, serde_json, bincode,
    SHA-256, HMAC and HKDF, Argon2, Ed25519, AES-GCM, URL parsing, gpg.  A
    theorem shows the laws it needs in its statement.  The module [Concrete]
    and the files whose names end in [Demo] give every class an executable
    instance that satisfies its laws, and the witnesses of the theorems run on
    them.  A hash is never assumed injective: where an attacker could exploit a
    collision, the conclusion names the colliding inputs.

    ** Files

    Shared: [Prelude] (bytes, machine integers, [result], automation
    [result_inv], [propify], [case_hyp], lemmas on sorted and paged lists),
    [Text] (Rust's [str]), [ThirdParty].

    Relay:
    - [RelayStorage]: [error.rs], [config.rs], the schema of [storage/mod.rs],
      [Tx]; the classes [Uncommitting] and [Preserves], which let a proof about
      a handler follow its structure ([preserving]).
    - [RelaySyncV2], [RelayV2Log], [RelayV2Push], [RelayV2Pull]:
      [handlers/sync_v2.rs].  [RelayV2Log] has the log invariant [log_inv] (the
      log of an object is a chain of versions, a vault's sequence strictly rises,
      the object table is the head of the log) and the effect of one pushed
      mutation as the relation [push_effect].
    - [RelayPairing], [RelayDevices], [RelayJoin]: [handlers/pairing.rs],
      [handlers/pairing_v2.rs], [pairing_security.rs], [handlers/devices.rs],
      [migration_claim].
    - [RelaySyncV1], [RelayV1Facts]: [handlers/sync.rs].
    - [RelayRate]: [rate_limit.rs], on IEEE doubles.
    - [RelayAuth], [Relay], [RelayInv], [RelayAccess]: [auth.rs], [server.rs],
      [cleanup.rs], [app_state.rs], [main.rs].  [Relay.handle] is a request through its
      middleware to its handler, [relay_step] a request or a cleanup under a
      clock that does not go back, [reachable] the states that follow.

    Keys and documents:
    - [Aad], [Envelope]: [crypto/aad.rs], [crypto/envelope.rs].
    - [Keyring], [DbWire]: [crypto/kdf.rs], [crypto/keyring.rs],
      [crypto/dbwire.rs].
    - [CoreError]: the error types of [lib.rs].
    - [EnvelopeOps]: [vault/envelope_ops.rs], [crypto/cipher.rs].

    Vault:
    - [EpochGuard]: [vault/epoch_guard.rs].  [Recovery]: [vault/recovery.rs].
      [KeySlots]: the registry of [vault/slot_ops.rs].
    - [VaultKeys], [VaultLife]: the commands on keys of [vault/mod.rs] and
      [vault/slot_ops.rs]; [healthy] is the invariant of a vault on disk and
      [vstep] a command that may be cut short.
    - [LocalDb], [ContentGuard], [ContentFacts]: the tables of
      [database/schema.rs] and the receipts of [vault/content_guard.rs] every
      change of content runs under.
    - [Registry], [Entries], [EntriesFacts]: [registry/mod.rs] and the entries
      of [vault/mod.rs] and [database/repository.rs].
    - [DomainTags], [DomainOps], [DomainFacts]: [domain.rs],
      [vault/domain_ops.rs].
    - [Totp], [TotpOps]: [totp.rs], [vault/totp_ops.rs].  [Lockout]: [lockout.rs] and the gate of
      [vault/mod.rs].  [Policy]: [registry/policy.rs].
    - [Custody]: the register of [vault/custody_ops.rs], with its identities.
      [Activation]: [vault/activation_ops.rs].  [Sweep]: [vault/migration_ops.rs].
      [Backup], [Restore]: [vault/backup_ops.rs]; [Restore.open_manager] is the
      whole of opening, with the passes of the files above and the index sweep of
      [vault/registry_ops.rs].

    Sync client:
    - [SyncWire], [SyncModels]: [sync/v2.rs], [sync/models.rs],
      [sync/crypto.rs], [sync/conflict.rs], [sync/config.rs].
    - [SyncOutbox]: [sync/change_tracker.rs], [sync/outbox.rs].
    - [SyncApply], [SyncEngine]: [sync/engine.rs], [vault/sync_ops.rs]; the
      transport is a parameter that may answer anything.
    - [SyncFacts], [SyncDeliver], [SyncAcks]: what the page transaction, the
      delivery of an edit and the acknowledgements guarantee.

    Audit log:
    - [AuditLog], [AuditVerify]: [audit.rs], writing, verifying and the tail scan.
    - [AuditFiles], [AuditRun]: the rotation and the text of the files.
    - [AuditFacts]: [chain], the specification of a linked run of records, with
      soundness and completeness of the verification; [AuditLife]: a run of the
      log with crashes.

    Service access:
    - [ServiceGrants], [StepUp], [ServiceAccess]: the grant store, the approvals
      and the handlers.
    - [ServiceFacts]: a run of the daemon as [daemon_step] over the trace of what
      it did, and the invariant [Good] that explains every grant by the trace.

    Socket, browsers and local tools:
    - [Session], [SessionFacts]: frames, handshake, counters and the loop of the
      daemon over a byte stream, between two honest ends and against a peer that
      controls the stream.
    - [SiteAccess], [ExternalAllow]: the stores of capabilities, site
      permissions and tool grants, with their decisions.
    - [DaemonVault]: the vault as the daemon holds it, its lookups and writes.
    - [Browser], [BrowserFacts]: the requests; [Reads] is the class of operations
      that leave the vault as it is, [belongs] says which entry a host may get,
      and [idle_run] is a run of requests and ticks of the auto-lock task.

    Demos and witnesses: [RelaySyncV2.RelayDemo], [CoreDemo], [KeyDemo], [VaultDemo],
    [EntriesDemo], [SyncDemo], [AuditDemo], [ServiceDemo], [BrowserDemo].

    ** What is proved

    Relay sync.  A retried push returns its first response and changes nothing
    (C1); one mutation implements compare-and-swap on the
    head of its object's log (C2); a failed push leaves
    the tables as they were (C4).  Pulling to the end
    delivers exactly the rows after the cursor, in order
    (C3), and what one device pushes another pulls
    unchanged (C5).

    The relay as a whole.  Every reachable state satisfies the invariant of
    log, epochs, devices and counters (C6); logs only grow,
    epochs and sequences only rise, revocations and device keys stay
    (C7).  A request changes the content of a vault only
    when its signature authenticated it as an unrevoked device of that vault
    (C8); a request with a past timestamp is not accepted twice
    (C9); a revoked device stays out
    ([RelayAccess.revoked_stays_out]).
    Registration into a vault with devices spends a proof
    ([RelayJoin.register_spends_proof]); a v2 pairing run joins (C40).

    The vault.  Adding, reading, updating and deleting entries implement a
    finite map (C10); a domain lookup returns exactly the
    entries whose domain matches (C23).  A change of content that is
    cut short anywhere leaves the old or the new content, both verified
    (C32); an older database put in its place is refused, for its
    content as far as its primary keys are keys (C33) and for
    its keys (C34),
    and an edited key-slot table is detected (C35).
    Every run of key commands that does not revoke the password slot leaves a
    vault its password opens, unless it is locked out (C36), and
    its recovery key sets a new password (C37); recovery keys are read back as displayed
    (C38) and a typing error is refused
    ([Recovery.recovery_key_typo]).  An accepted provisioning URI that was stored yields
    its codes ([TotpOps.totp_enrolled]).  A custody object changes only in steps of one
    revision against the reference it replaces, and a removed one stays removed
    (C25); a vault is marked as converted exactly when every
    sealed column of it opens under its own identity, and then every entry
    reads (C27).  The sweep that precedes it converts rows so
    that they read as they did and leaves the others, unreadable ones included,
    as they were; when it refuses
    none, the vault passes that verification (C26).  A backup that was reported as created is read back as the
    database it was made of, and a failed one leaves nothing behind
    (C28); an altered one is refused, or a collision or forgery is
    named (C29).  A restore that fails or is cut short leaves
    what a reader of the path saw before, or the checked copy with the replaced
    file preserved; a file that could not be read may lose its write-ahead log
    (C30); the backup of a healthy vault restores onto any
    place, and the vault opens as it was, without its devices
    (C31).  Further theorems say that guessing a master
    password takes the sum of the lockout waits ([Lockout.Vault.guesses_take_time]) and
    that envelopes round trip ([Envelope.envelope_roundtrip]).

    The sync client.  A pull never overwrites an edit that was not pushed
    (C11); each mutation of a page is applied whole, kept
    for later or refused, and the cursor passes no other
    (C12); an edit arrives at the other device as it was made
    (C13); a row leaves the outbox only under an
    acknowledgement of a mutation that was sent for it, of its version unless it
    was edited since (C14); a pull ends against any relay (C39).

    The audit log.  Two verified logs that share a record agree on the records
    before it, or a collision is named (C15); after any run
    with rotations and crashes the log accepts the next record, has lost none
    but the oldest and verifies, unless a crash fell just before a newline or
    inside a character (C16); the scan of the last 64
    KiB finds what a scan of the file would ([AuditVerify.tail_scan_exact]).

    Service access.  A secret is released only for a grant the owner's password
    approved, that is neither revoked nor expired, to the holder of its token
    and under its executable policy (C17); an approval is
    accepted once, for its operation, connection and minute
    (C18).

    Socket, browsers and local tools.  What one end of a session accepts is a
    subsequence of what the other sealed, or the cipher was forged
    (C19); over an undisturbed stream every request is handled
    once, in order, and answered (C20).  A credential is filled
    only for the native host, into a page whose address is secure or permitted,
    from an entry that belongs to its host (C21); a tool reads
    within its grants (C22) and writes under a grant
    ([BrowserFacts.external_write_gated]); an idle vault closes
    (C24).

    Where the code does not do what it means to, a lemma says what it does:
    [future_dated_replay] and [freshness_exact] ([RelayAccess]),
    [claim_opens_origin] and [fetch_guesses_unlimited] ([RelayJoin]),
    [full_pull_truncates] ([RelayV1Facts]), [envelope_cap_mismatch]
    ([Envelope]), [revoked_password_slot_opens] and [two_lost_follows_refuse]
    ([VaultLife]), [unpad_wraps], [late_edit_leaves_outbox] and
    [high_water_lost] ([SyncAcks]), [broken_text_restarts] and [broken_text_blocks] ([AuditFacts]),
    [cut_at_newline] and [short_digest_panics] ([AuditDemo]),
    [throttle_never_lifts] ([ServiceFacts]), [write_truncates] and
    [empty_unreadable] ([SessionFacts]), [readd_stays_synced] and
    [code_ignores_tombstone] ([TotpOps]), [totp_scan_ignores_username]
    ([BrowserFacts]), [tool_overwrites_login] ([BrowserDemo]),
    [empty_column_refused] ([Activation]),
    [fresh_restore_leaves_directory] and [unread_vault_loses_log] ([Restore]).

    ** Fuel

    Loops without a structural argument take fuel, and the fuel they are given
    is enough: [SyncEngine.pull_loop] gets one unit for every value the cursor
    can still take below 2^64, and each page that continues raises the cursor
    (C39); [RelayV2Pull.pull_all] and [RelayV1Facts.v1_pull_all]
    are clients written for the paging theorems, which prove that one unit more
    than there are pending rows is enough; [Prelude.strip_any],
    [SyncEngine.chunks], [ServiceAccess.split_ws] and [Session.serve] get the
    length of their input (and one more) and remove at least one element per
    unit.

    ** Not modelled

    The HTTP server and client, SQL text, tracing, file modes and paths, and the
    command lines.  Rekeying of vaults and the migrations of older schemas;
    biometric and device slots; the client half of pairing; password health,
    strength and generation; import, export and KeePass; the custody
    broker, service credentials and SSH keys; the daemon's start-up and maintenance mode; the
    user interfaces, the browser host, the mobile bridge and operating-system
    code.  They are either glue around operations modelled
    here or formats read through third-party crates. *)

From Stdlib Require Import ZArith Lia Strings.Byte.
From stdpp Require Import base list option strings numbers gmap sorting.

Open Scope Z_scope.

(** ** Byte strings

    Rust's [Vec<u8>]/[&[u8]] is a list of bytes; Rust's [String]/[&str] is a
    Rocq [string] of its UTF-8 bytes, so [String.length] is [str::len]. *)

Abbreviation bytes := (list Byte.byte).

Definition byte_of_Z (z : Z) : Byte.byte :=
  match Byte.of_N (Z.to_N (z mod 256)) with
  | Some b => b
  | None => Byte.x00
  end.

#[global] Instance byte_eq_dec : EqDecision Byte.byte := Byte.byte_eq_dec.

Definition Z_of_byte (b : Byte.byte) : Z := Z.of_N (Byte.to_N b).

(** [str::as_bytes]. *)
Definition as_bytes (s : string) : bytes := String.list_byte_of_string s.

(** [<[u8]>::starts_with]. *)
Fixpoint starts_with (p b : bytes) : bool :=
  match p, b with
  | [], _ => true
  | x :: p, y :: b => Byte.eqb x y && starts_with p b
  | _ :: _, [] => false
  end.

(** Big-endian bytes of the low [n] bytes of [z]: [to_be_bytes] of an integer
    of [8 * n] bits (two's complement for a negative [z]). *)
Fixpoint to_be_bytes (n : nat) (z : Z) : bytes :=
  match n with
  | O => []
  | S n => byte_of_Z (z / 256 ^ Z.of_nat n) :: to_be_bytes n z
  end.

(** [str::trim] on UTF-8 text: the encodings of the [White_Space] characters,
    stripped from the front and from the back. *)
Definition whitespace : list bytes :=
  List.map (List.map byte_of_Z)
    ([[9]; [10]; [11]; [12]; [13]; [32]; [0xC2; 0x85]; [0xC2; 0xA0]; [0xE1; 0x9A; 0x80];
      [0xE2; 0x80; 0xA8]; [0xE2; 0x80; 0xA9]; [0xE2; 0x80; 0xAF]; [0xE2; 0x81; 0x9F];
      [0xE3; 0x80; 0x80]] ++ List.map (fun i => [0xE2; 0x80; 0x80 + Z.of_nat i]) (seq 0 11)).

Fixpoint strip_any (fuel : nat) (ws : list bytes) (b : bytes) : bytes :=
  match fuel with
  | O => b
  | S fuel =>
    match List.find (fun w => starts_with w b) ws with
    | Some w => strip_any fuel ws (drop (length w) b)
    | None => b
    end
  end.

Definition trim (s : string) : string :=
  let b := as_bytes s in
  let b := strip_any (length b) whitespace b in
  let b := reverse (strip_any (length b) (List.map reverse whitespace) (reverse b)) in
  String.string_of_list_byte b.

(** ** Machine integers *)

Definition in_u64 (x : Z) : Prop := 0 <= x < 2 ^ 64.
Definition in_i64 (x : Z) : Prop := - 2 ^ 63 <= x < 2 ^ 63.

(** The [as] casts between [u64] and [i64]. *)
Definition u64_as_i64 (x : Z) : Z := if x <? 2 ^ 63 then x else x - 2 ^ 64.
Definition i64_as_u64 (x : Z) : Z := if x <? 0 then x + 2 ^ 64 else x.
Definition i64_wrap (z : Z) : Z := (z + 2 ^ 63) mod 2 ^ 64 - 2 ^ 63.

(** [u64::saturating_mul]. *)
Definition u64_saturating_mul (x y : Z) : Z := Z.min (x * y) (2 ^ 64 - 1).
(** [u32::saturating_mul]. *)
Definition u32_saturating_mul (x y : Z) : Z := Z.min (x * y) (2 ^ 32 - 1).

(** ** Fallible computations: Rust's [Result<A, E>] *)

Inductive result (E A : Type) : Type :=
| Ok (a : A)
| Err (e : E).
Arguments Ok {E A} _.
Arguments Err {E A} _.

#[global] Instance result_ret {E} : MRet (result E) := fun A a => Ok a.
#[global] Instance result_bind {E} : MBind (result E) := fun A B f r =>
  match r with Ok a => f a | Err e => Err e end.

(** [Option::ok_or]. *)
Definition ok_or {E A} (o : option A) (e : E) : result E A :=
  match o with Some a => Ok a | None => Err e end.

(** An early [return Err(e)] guarded by a condition. *)
Definition err_if {E} (b : bool) (e : E) : result E unit :=
  if b then Err e else Ok tt.

Definition is_ok {E A} (r : result E A) : bool :=
  match r with Ok _ => true | Err _ => false end.

(** ** Automation *)

Create HintDb sp.

(** Split a boolean/option/match scrutinee found in the hypotheses. *)
Ltac case_hyp :=
  match goal with
  | H : context [ match ?x with _ => _ end ] |- _ =>
    lazymatch x with
    | context [ match _ with _ => _ end ] => fail
    | _ => destruct x eqn:?
    end
  end.

(** ... or in the goal. *)
Ltac case_goal :=
  match goal with
  | |- context [ match ?x with _ => _ end ] =>
    lazymatch x with
    | context [ match _ with _ => _ end ] => fail
    | _ => destruct x eqn:?
    end
  end.

(** Boolean tests of the code as propositions. *)
Ltac propify :=
  repeat match goal with
  | H : (_ && _) = true |- _ => apply andb_true_iff in H as [? ?]
  | H : (_ || _) = false |- _ => apply orb_false_iff in H as [? ?]
  | H : negb _ = true |- _ => apply negb_true_iff in H
  | H : negb _ = false |- _ => apply negb_false_iff in H
  | H : bool_decide _ = true |- _ => apply bool_decide_eq_true_1 in H
  | H : bool_decide _ = false |- _ => apply bool_decide_eq_false_1 in H
  | H : (_ =? _) = true |- _ => apply Z.eqb_eq in H
  | H : (_ =? _) = false |- _ => apply Z.eqb_neq in H
  | H : (_ <? _) = true |- _ => apply Z.ltb_lt in H
  | H : (_ <? _) = false |- _ => apply Z.ltb_ge in H
  | H : (_ <=? _) = true |- _ => apply Z.leb_le in H
  | H : (_ <=? _) = false |- _ => apply Z.leb_gt in H
  end.

(** ** Lemmas on bytes and integers *)

Lemma Z_of_byte_range b : 0 <= Z_of_byte b < 256.
Proof.
  unfold Z_of_byte. pose proof (Byte.to_N_bounded b). lia.
Qed.

Lemma Z_of_byte_of_Z z : Z_of_byte (byte_of_Z z) = z mod 256.
Proof.
  unfold Z_of_byte, byte_of_Z.
  pose proof (Z.mod_pos_bound z 256 ltac:(lia)) as Hb.
  destruct (Byte.of_N (Z.to_N (z mod 256))) as [b|] eqn:E.
  - apply Byte.to_of_N_iff in E. rewrite E. lia.
  - apply Byte.of_N_None_iff in E. lia.
Qed.

Lemma byte_of_Z_inj x y : byte_of_Z x = byte_of_Z y -> x mod 256 = y mod 256.
Proof. intros H. by rewrite <- !Z_of_byte_of_Z, H. Qed.

Lemma to_be_bytes_length n z : length (to_be_bytes n z) = n.
Proof. induction n; simpl; auto. Qed.

(** [to_be_bytes] determines the integer modulo its width. *)
Lemma to_be_bytes_inj n x y :
  to_be_bytes n x = to_be_bytes n y ->
  x mod 256 ^ Z.of_nat n = y mod 256 ^ Z.of_nat n.
Proof.
  revert x y. induction n as [|n IH]; intros x y; simpl.
  - intros _. by rewrite !Z.mod_1_r.
  - intros [= H1%byte_of_Z_inj H2%IH].
    rewrite Nat2Z.inj_succ, Z.pow_succ_r, Z.mul_comm by lia.
    assert (0 < 256 ^ Z.of_nat n) by (apply Z.pow_pos_nonneg; lia).
    rewrite !Z.rem_mul_r by lia. congruence.
Qed.

Lemma u64_as_i64_as_u64 x : in_u64 x -> i64_as_u64 (u64_as_i64 x) = x.
Proof.
  unfold in_u64, i64_as_u64, u64_as_i64. intros.
  destruct (x <? 2 ^ 63) eqn:E; propify; case_goal; propify; lia.
Qed.

Lemma i64_as_u64_range x : in_i64 x -> in_u64 (i64_as_u64 x).
Proof. unfold in_u64, in_i64, i64_as_u64. intros. case_goal; propify; lia. Qed.

Lemma u64_as_i64_range x : in_u64 x -> in_i64 (u64_as_i64 x).
Proof. unfold in_u64, in_i64, u64_as_i64. intros. case_goal; propify; lia. Qed.

#[export] Hint Resolve u64_as_i64_as_u64 i64_as_u64_range u64_as_i64_range : sp.

Lemma app_inj_length {A} (a b c d : list A) :
  length a = length c -> a ++ b = c ++ d -> a = c /\ b = d.
Proof. intros Hl H. by apply app_inj_1 in H. Qed.

(** ** Results *)

Lemma result_bind_ok {E A B} (r : result E A) (f : A -> result E B) b :
  (r ≫= f) = Ok b -> exists a, r = Ok a /\ f a = Ok b.
Proof. destruct r; simpl; [eauto|done]. Qed.

Lemma err_if_ok {E} b (e : E) u : err_if b e = Ok u -> b = false.
Proof. by destruct b. Qed.

Lemma ok_or_ok {E A} (o : option A) (e : E) a : ok_or o e = Ok a -> o = Some a.
Proof. destruct o; naive_solver. Qed.

(** Run a successful chain of [?]s backwards into its premises. *)
Ltac result_inv :=
  repeat match goal with
  | H : (_ ≫= _) = Ok _ |- _ => apply result_bind_ok in H as (? & ? & H)
  | H : mret _ = Ok _ |- _ => injection H as H
  | H : Ok _ = Ok _ |- _ => injection H as H
  | H : Err _ = Ok _ |- _ => discriminate H
  | H : Ok _ = Err _ |- _ => discriminate H
  | H : err_if _ _ = Ok _ |- _ => apply err_if_ok in H
  | H : ok_or _ _ = Ok _ |- _ => apply ok_or_ok in H
  end.

(** ** Sorted lists *)

Lemma find_app {A} (f : A -> bool) l1 l2 :
  List.find f (l1 ++ l2) = match List.find f l1 with Some x => Some x | None => List.find f l2 end.
Proof. induction l1 as [|x l IH]; simpl; [done|]. by destruct (f x). Qed.

(** Snoc onto a strongly sorted list. *)
Lemma StronglySorted_snoc {A} (R : A -> A -> Prop) l x :
  StronglySorted R l -> Forall (fun y => R y x) l -> StronglySorted R (l ++ [x]).
Proof.
  induction 1 as [|y l Hl IH Hy]; intros Hf; simpl; [repeat constructor|].
  inversion_clear Hf. constructor; [auto|]. apply Forall_app; auto.
Qed.

(** Sorting an already strictly sorted list is the identity. *)
Lemma merge_sort_sorted_id {A} (R : relation A) `{!RelDecision R, !AntiSymm (=) R, !Transitive R, !Total R} l :
  StronglySorted R l -> merge_sort R l = l.
Proof.
  intros Hs. apply (StronglySorted_unique R).
  - apply StronglySorted_merge_sort; apply _.
  - done.
  - apply merge_sort_Permutation.
Qed.

(** ** Filters that keep everything or nothing *)

Lemma filter_all {A} (P : A -> Prop) `{forall x, Decision (P x)} l :
  Forall P l -> filter P l = l.
Proof. induction 1; [done|]. rewrite filter_cons_True by done. by f_equal. Qed.

Lemma filter_none {A} (P : A -> Prop) `{forall x, Decision (P x)} l :
  Forall (fun x => ~ P x) l -> filter P l = [].
Proof. induction 1; [done|]. by rewrite filter_cons_False. Qed.

Lemma StronglySorted_filter' {A} (R : A -> A -> Prop) (P : A -> Prop) `{forall x, Decision (P x)} l :
  StronglySorted R l -> StronglySorted R (filter P l).
Proof.
  induction 1 as [|x l Hs IH Hf]; [constructor|]. rewrite filter_cons. case_decide; [|done].
  constructor; [done|]. apply Forall_forall. intros y [_ Hy]%list_elem_of_filter.
  rewrite Forall_forall in Hf. by apply Hf.
Qed.

(** ** Rows ordered by a strictly increasing key *)

Section Keyed.
Context {A : Type} (f : A -> Z).

Lemma filter_fmap_sorted (P : A -> Prop) `{forall x, Decision (P x)} l :
  StronglySorted Z.lt (f <$> l) -> StronglySorted Z.lt (f <$> filter P l).
Proof.
  induction l as [|r l IH]; simpl; intros Hs; [constructor|].
  apply StronglySorted_inv in Hs as [Hs Hf]. rewrite filter_cons. case_decide; [|auto].
  simpl. constructor; [auto|]. apply Forall_fmap, Forall_forall.
  intros x [_ Hx]%list_elem_of_filter. rewrite Forall_fmap, Forall_forall in Hf. by apply Hf.
Qed.

(** Moving a cursor to the last row of a page drops exactly the page. *)
Lemma filter_after_last (rows : list A) n r :
  StronglySorted Z.lt (f <$> rows) ->
  last (take n rows) = Some r ->
  filter (fun x => f r < f x) rows = drop n rows.
Proof.
  intros Hs Hl. rewrite <- (take_drop n rows) at 1. rewrite filter_app.
  rewrite <- (take_drop n rows), fmap_app in Hs.
  assert (Forall (fun x => f x <= f r) (take n rows)) as Hle.
  { apply last_Some in Hl as (l & Hl). rewrite Hl in Hs |- *. clear Hl.
    apply Forall_app. split; [|by constructor]. rewrite fmap_app, <- app_assoc in Hs.
    induction l as [|x l IH]; [constructor|]. apply StronglySorted_inv in Hs as [Hs Hf].
    constructor; [|by apply IH]. rewrite !Forall_app in Hf. destruct Hf as (_ & Hf & _).
    inversion_clear Hf. lia. }
  assert (Forall (fun x => f r < f x) (drop n rows)) as Hgt.
  { apply last_Some in Hl as (l & Hl). rewrite Hl in Hs. clear Hl Hle.
    rewrite fmap_app, <- app_assoc in Hs. induction l as [|x l IH].
    - apply StronglySorted_inv in Hs as [_ Hf]. by rewrite Forall_fmap in Hf.
    - apply StronglySorted_inv in Hs as [Hs _]. by apply IH. }
  rewrite filter_none, filter_all; [done..|].
  eapply Forall_impl; [exact Hle|]. simpl. lia.
Qed.

(** Sorting by a key that is injective on the list sorts strictly. *)
Lemma StronglySorted_key_strict l :
  StronglySorted (fun a b => f a <= f b) l -> NoDup l ->
  (forall x y, x ∈ l -> y ∈ l -> f x = f y -> x = y) ->
  StronglySorted Z.lt (f <$> l).
Proof.
  induction 1 as [|x l Hs IH Hf]; intros Hnd Hinj; simpl; [constructor|].
  apply NoDup_cons in Hnd as [Hx Hnd]. constructor.
  - apply IH; [done|]. intros a b Ha Hb. apply Hinj; by right.
  - apply Forall_fmap, Forall_forall. intros y Hy. rewrite Forall_forall in Hf.
    specialize (Hf y Hy). simpl. assert (f x <> f y); [|lia].
    intros E. apply Hx. by rewrite (Hinj x y (list_elem_of_here _ _) (list_elem_of_further _ _ _ Hy) E).
Qed.
End Keyed.
