(* ===== verification/Text.v ===== *)
(** * Rust text: [str] and integer text

    What the sources use of [str] and [char]: prefixes, splitting, lines, ASCII
    case, and the text of integers with its parser.  A [string] holds the UTF-8
    bytes of a Rust string, so the ASCII functions act byte by byte. *)

From S2P Require Import Prelude.
From Stdlib Require Import ZArith Lia Strings.String Strings.Ascii Strings.Byte DecimalString DecimalZ DecimalPos.
From stdpp Require Import base list option strings numbers.
Open Scope Z_scope.

(** ** Splitting *)

(** [str::strip_prefix]. *)
Fixpoint strip_prefix (p s : string) : option string :=
  match p, s with
  | EmptyString, _ => Some s
  | String a p, String b s => if Ascii.eqb a b then strip_prefix p s else None
  | String _ _, EmptyString => None
  end.

Fixpoint split_once (c : ascii) (s : string) : option (string * string) :=
  match s with
  | EmptyString => None
  | String a s =>
    if Ascii.eqb a c then Some (EmptyString, s)
    else '(x, y) ← split_once c s; Some (String a x, y)
  end.

(** [str::split_once] with a string pattern. *)
Fixpoint split_once_str (p s : string) : option (string * string) :=
  match strip_prefix p s with
  | Some y => Some (EmptyString, y)
  | None =>
    match s with
    | EmptyString => None
    | String a s => '(x, y) ← split_once_str p s; Some (String a x, y)
    end
  end.

(** [str::splitn]. *)
Fixpoint splitn (n : nat) (c : ascii) (s : string) : list string :=
  match n with
  | O => []
  | S n =>
    match n with
    | O => [s]
    | S _ => match split_once c s with
             | Some (a, b) => a :: splitn n c b
             | None => [s]
             end
    end
  end.

(** [str::split] on a character: one piece more than separators. *)
Fixpoint split_char (c : ascii) (s : string) : list string :=
  match s with
  | EmptyString => [EmptyString]
  | String a s =>
    if Ascii.eqb a c then EmptyString :: split_char c s
    else match split_char c s with
         | [] => [String a EmptyString]
         | l :: ls => String a l :: ls
         end
  end.

Definition NL : ascii := "010"%char.
Definition CR : ascii := "013"%char.

(** [str::lines]: the pieces that end in a newline lose it, and a carriage
    return before it; text after the last newline is a line of its own. *)
Fixpoint split_inclusive (s : string) : list string :=
  match s with
  | EmptyString => []
  | String a s =>
    if Ascii.eqb a NL then String a EmptyString :: split_inclusive s
    else match split_inclusive s with
         | [] => [String a EmptyString]
         | l :: ls => String a l :: ls
         end
  end.

Fixpoint strip_last (c : ascii) (s : string) : option string :=
  match s with
  | EmptyString => None
  | String a EmptyString => if Ascii.eqb a c then Some EmptyString else None
  | String a s => String a <$> strip_last c s
  end.

Definition line_of (l : string) : string :=
  match strip_last NL l with
  | None => l
  | Some l => default l (strip_last CR l)
  end.

Definition lines (s : string) : list string := line_of <$> split_inclusive s.

(** ** ASCII case *)

Definition code (a : ascii) : Z := Z.of_N (N_of_ascii a).
Definition of_code (z : Z) : ascii := ascii_of_N (Z.to_N z).

Definition in_range (lo hi : Z) (a : ascii) : bool := (lo <=? code a) && (code a <=? hi).

Definition is_ascii_uppercase : ascii -> bool := in_range 65 90.
Definition is_ascii_lowercase : ascii -> bool := in_range 97 122.
Definition is_ascii_digit : ascii -> bool := in_range 48 57.
Definition is_ascii_alphanumeric (a : ascii) : bool :=
  is_ascii_uppercase a || is_ascii_lowercase a || is_ascii_digit a.
Definition is_ascii_hexdigit (a : ascii) : bool :=
  is_ascii_digit a || in_range 65 70 a || in_range 97 102 a.

Definition lower_char (a : ascii) : ascii := if is_ascii_uppercase a then of_code (code a + 32) else a.
Definition upper_char (a : ascii) : ascii := if is_ascii_lowercase a then of_code (code a - 32) else a.

Fixpoint string_map (f : ascii -> ascii) (s : string) : string :=
  match s with
  | EmptyString => EmptyString
  | String a s => String (f a) (string_map f s)
  end.

Fixpoint string_filter (p : ascii -> bool) (s : string) : string :=
  match s with
  | EmptyString => EmptyString
  | String a s => if p a then String a (string_filter p s) else string_filter p s
  end.

(** [s.chars().all(p)] for an ASCII predicate. *)
Fixpoint all_chars (p : ascii -> bool) (s : string) : bool :=
  match s with
  | EmptyString => true
  | String a s => p a && all_chars p s
  end.

Definition to_ascii_lowercase : string -> string := string_map lower_char.
Definition to_ascii_uppercase : string -> string := string_map upper_char.
Definition eq_ignore_ascii_case (a b : string) : bool :=
  String.eqb (to_ascii_lowercase a) (to_ascii_lowercase b).

Definition is_empty (s : string) : bool := String.eqb s "".

(** ** Integer text *)

Fixpoint parse_digits (s : string) (acc : Z) : option Z :=
  match s with
  | EmptyString => Some acc
  | String a s =>
    let d := Z.of_N (N_of_ascii a) - 48 in
    if (0 <=? d) && (d <=? 9) then parse_digits s (acc * 10 + d) else None
  end.

(** [str::parse::<i64>]: an optional sign, at least one digit, in range. *)
Definition parse_i64 (s : string) : option Z :=
  let '(neg, digits) :=
    match s with
    | String a r => if Ascii.eqb a "-"%char then (true, r) else if Ascii.eqb a "+"%char then (false, r) else (false, s)
    | EmptyString => (false, s)
    end in
  if String.eqb digits "" then None
  else
    v ← parse_digits digits 0;
    let v := if neg : bool then - v else v in
    if (- 2 ^ 63 <=? v) && (v <? 2 ^ 63) then Some v else None.

(** [str::parse] of an unsigned integer of [w] bits: [+] is a sign, [-] is
    not a digit. *)
Definition parse_unsigned (w : Z) (s : string) : option Z :=
  let digits :=
    match s with
    | String a r => if Ascii.eqb a "+"%char then r else s
    | EmptyString => s
    end in
  if String.eqb digits "" then None
  else v ← parse_digits digits 0; if v <? 2 ^ w then Some v else None.

(** [{}] of an [i64]. *)
Definition i64_display (z : Z) : string := NilZero.string_of_int (Z.to_int z).

(** [{b:02x}] of every byte, concatenated. *)
Definition hex_digit (i : Z) : ascii := if i <? 10 then of_code (48 + i) else of_code (87 + i).
Fixpoint hex (b : bytes) : string :=
  match b with
  | [] => EmptyString
  | x :: b => String (hex_digit (Z_of_byte x / 16)) (String (hex_digit (Z_of_byte x mod 16)) (hex b))
  end.

(** ** Lemmas: lines *)

Lemma all_chars_impl (p q : ascii -> bool) s :
  (forall a, p a = true -> q a = true) -> all_chars p s = true -> all_chars q s = true.
Proof.
  intros Hi. induction s as [|a s IH]; simpl; [done|]. intros Hs. propify. rewrite Hi by done. by apply IH.
Qed.

Lemma all_chars_app p s t : all_chars p (s +:+ t) = all_chars p s && all_chars p t.
Proof. induction s as [|a s IH]; [done|]. simpl. by rewrite IH, andb_assoc. Qed.

Lemma split_inclusive_line l s :
  all_chars (fun a => negb (Ascii.eqb a NL)) l = true ->
  split_inclusive (l +:+ String NL s) = (l +:+ String NL EmptyString) :: split_inclusive s.
Proof.
  induction l as [|a l IH]; intros Hl; [done|]. cbn [all_chars] in Hl. apply andb_true_iff in Hl as [H Hl].
  apply negb_true_iff in H. simpl. rewrite H. by rewrite IH.
Qed.

Lemma strip_last_app c l : strip_last c (l +:+ String c EmptyString) = Some l.
Proof.
  induction l as [|a l IH]; simpl; [by rewrite Ascii.eqb_refl|]. rewrite IH. by destruct l.
Qed.

Lemma strip_last_none c l : all_chars (fun a => negb (Ascii.eqb a c)) l = true -> strip_last c l = None.
Proof.
  induction l as [|a l IH]; [done|]. intros Hl. cbn [all_chars] in Hl. apply andb_true_iff in Hl as [H Hl].
  apply negb_true_iff in H. cbn [strip_last]. rewrite IH by done. destruct l; simpl; by rewrite ?H.
Qed.

(** Printable ASCII without the space. *)
Definition graphic : ascii -> bool := in_range 33 126.

(** A property of every character, by computation. *)
Lemma ascii_cases (p : ascii -> bool) :
  forallb (fun n => p (ascii_of_nat n)) (seq 0 256) = true -> forall a, p a = true.
Proof.
  intros H a. rewrite forallb_forall in H. rewrite <- (ascii_nat_embedding a). apply H, in_seq.
  pose proof (nat_ascii_bounded a). lia.
Qed.

Ltac by_chars := apply (ascii_cases (fun a => _)); vm_compute; reflexivity.

Lemma implb_intro (p q : ascii -> bool) : (forall a, implb (p a) (q a) = true) -> forall a, p a = true -> q a = true.
Proof. intros H a Hp. specialize (H a). by rewrite Hp in H. Qed.

Lemma graphic_not_nl a : graphic a = true -> negb (Ascii.eqb a NL) = true.
Proof. revert a. apply implb_intro. by_chars. Qed.
Lemma graphic_not_cr a : graphic a = true -> negb (Ascii.eqb a CR) = true.
Proof. revert a. apply implb_intro. by_chars. Qed.

(** A printable line followed by a newline is read back as it is. *)
Lemma lines_line l s :
  all_chars graphic l = true -> lines (l +:+ String NL s) = l :: lines s.
Proof.
  intros Hl. unfold lines. rewrite split_inclusive_line by eauto using all_chars_impl, graphic_not_nl.
  simpl. f_equal. unfold line_of. rewrite strip_last_app, strip_last_none; [done|].
  eauto using all_chars_impl, graphic_not_cr.
Qed.

(** ** Lemmas: trimming *)

Definition graphic_byte (b : Byte.byte) : bool := (33 <=? Z_of_byte b) && (Z_of_byte b <=? 126).

Lemma strip_any_graphic fuel ws b :
  forallb (fun w => match w with x :: _ => negb (graphic_byte x) | [] => false end) ws = true ->
  match b with x :: _ => graphic_byte x = true | [] => True end ->
  strip_any fuel ws b = b.
Proof.
  intros Hw Hb. destruct fuel as [|fuel]; [done|]. simpl.
  destruct (List.find _ ws) as [w|] eqn:E; [|done]. exfalso.
  apply List.find_some in E as [Hin Hs]. rewrite forallb_forall in Hw. specialize (Hw w Hin).
  destruct w as [|x w]; [done|]. destruct b as [|y b]; [done|]. simpl in Hs. propify.
  match goal with H : Byte.eqb _ _ = true |- _ => apply Byte.byte_dec_bl in H as -> end. congruence.
Qed.

Lemma as_bytes_graphic s : all_chars graphic s = true -> forallb graphic_byte (as_bytes s) = true.
Proof.
  induction s as [|a s IH]; [done|]. intros Hs. cbn [all_chars] in Hs. apply andb_true_iff in Hs as [Ha Hs].
  change (as_bytes (String a s)) with (byte_of_ascii a :: as_bytes s). simpl. rewrite IH by done.
  rewrite andb_true_r. revert a Ha. apply implb_intro. by_chars.
Qed.

Lemma trim_graphic s : all_chars graphic s = true -> trim s = s.
Proof.
  intros Hs%as_bytes_graphic. unfold trim. rewrite forallb_forall in Hs.
  assert (strip_any (length (as_bytes s)) whitespace (as_bytes s) = as_bytes s) as ->.
  { apply strip_any_graphic; [vm_compute; reflexivity|]. destruct (as_bytes s) as [|x r]; [exact I|]. apply Hs. by left. }
  rewrite strip_any_graphic; [|vm_compute; reflexivity|].
  - rewrite reverse_involutive. apply String.string_of_list_byte_of_string.
  - destruct (reverse (as_bytes s)) as [|x r] eqn:E; [exact I|]. apply Hs.
    apply list_elem_of_In, elem_of_reverse. rewrite E. constructor.
Qed.

(** ** Lemmas: integers *)

Lemma parse_i64_range s z : parse_i64 s = Some z -> in_i64 z.
Proof.
  unfold parse_i64, in_i64.
  destruct (match s with String a r => _ | EmptyString => _ end) as [neg digits].
  destruct (String.eqb digits ""); [done|].
  destruct (parse_digits digits 0) as [v|]; simpl; [|done].
  destruct neg; case_goal; intros [= <-]; propify; lia.
Qed.

Lemma parse_digits_nonneg s acc v : 0 <= acc -> parse_digits s acc = Some v -> acc <= v.
Proof.
  revert acc. induction s as [|a s IH]; simpl; intros acc Ha H; [by simplify_eq|].
  case_match eqn:E; [|done]. propify. apply IH in H; lia.
Qed.

Lemma parse_unsigned_range w s z : parse_unsigned w s = Some z -> 0 <= z < 2 ^ w.
Proof.
  unfold parse_unsigned. destruct (String.eqb _ ""); [done|].
  destruct (parse_digits _ 0) as [v|] eqn:E; simpl; [|done]. apply parse_digits_nonneg in E; [|lia].
  case_goal; intros [= <-]. propify. lia.
Qed.

Lemma parse_digits_acc l acc :
  parse_digits (NilEmpty.string_of_uint l) (Z.pos acc) = Some (Z.pos (Pos.of_uint_acc l acc)).
Proof.
  revert acc. induction l; intros acc; [done|..]; cbn [NilEmpty.string_of_uint parse_digits Pos.of_uint_acc];
    cbn -[Z.add Z.mul Pos.of_uint_acc Pos.add Pos.mul]; rewrite <- IHl; f_equal; lia.
Qed.

Lemma parse_digits_uint l : parse_digits (NilEmpty.string_of_uint l) 0 = Some (Z.of_N (Pos.of_uint l)).
Proof.
  induction l; [done| exact IHl |..]; cbn [NilEmpty.string_of_uint parse_digits Pos.of_uint];
    cbn -[parse_digits]; apply parse_digits_acc.
Qed.

Lemma string_of_uint_graphic l : all_chars graphic (NilEmpty.string_of_uint l) = true.
Proof. induction l; [done|..]; exact IHl. Qed.

(** Text of a nonzero magnitude: a digit first, and it parses back. *)
Lemma pos_text p :
  exists a s, NilZero.string_of_uint (Pos.to_uint p) = String a s /\ is_ascii_digit a = true /\
    parse_digits (String a s) 0 = Some (Z.pos p) /\ all_chars graphic (String a s) = true.
Proof.
  pose proof (DecimalPos.Unsigned.to_uint_nonnil p) as Hn.
  pose proof (parse_digits_uint (Pos.to_uint p)) as Hp.
  pose proof (string_of_uint_graphic (Pos.to_uint p)) as Hg.
  rewrite DecimalPos.Unsigned.of_to in Hp.
  destruct (Pos.to_uint p); [done|..]; do 2 eexists; (split; [reflexivity|]); done.
Qed.

Lemma i64_display_graphic z : all_chars graphic (i64_display z) = true.
Proof.
  unfold i64_display. destruct z as [|p|p]; [done|..]; simpl;
    destruct (pos_text p) as (a & s & -> & _ & _ & Hg); exact Hg.
Qed.

Lemma digit_not_sign a : is_ascii_digit a = true -> negb (Ascii.eqb a "-"%char) && negb (Ascii.eqb a "+"%char) = true.
Proof. revert a. apply implb_intro. by_chars. Qed.

(** The decimal text of an [i64] parses back. *)
Lemma parse_i64_display z : in_i64 z -> parse_i64 (i64_display z) = Some z.
Proof.
  unfold i64_display, in_i64. intros Hz. destruct z as [|p|p]; [done|..]; simpl;
    destruct (pos_text p) as (a & s & -> & Hd & Hp & _).
  - apply digit_not_sign in Hd. propify. unfold parse_i64. rewrite H, H0. rewrite Hp.
    simpl. case_goal; [done|]. propify. lia.
  - unfold parse_i64. change (Ascii.eqb "-" "-") with true. cbv iota beta. rewrite Hp. simpl.
    case_goal; [done|]. propify. lia.
Qed.

(** ** Lemmas: hexadecimal text *)

Lemma hex_length b : String.length (hex b) = (2 * length b)%nat.
Proof. induction b as [|x b IH]; [done|]. simpl. rewrite IH. lia. Qed.

Lemma hex_digit_ok i : 0 <= i < 16 ->
  is_ascii_hexdigit (hex_digit i) && graphic (hex_digit i) && Ascii.eqb (lower_char (hex_digit i)) (hex_digit i) &&
  (if i <? 10 then code (hex_digit i) - 48 =? i else code (hex_digit i) - 87 =? i) = true.
Proof.
  intros Hi. assert (forallb (fun n => let i := Z.of_nat n in
    is_ascii_hexdigit (hex_digit i) && graphic (hex_digit i) && Ascii.eqb (lower_char (hex_digit i)) (hex_digit i) &&
    (if i <? 10 then code (hex_digit i) - 48 =? i else code (hex_digit i) - 87 =? i)) (seq 0 16) = true) as H
    by (vm_compute; reflexivity).
  rewrite forallb_forall in H. specialize (H (Z.to_nat i)). rewrite in_seq in H.
  cbv zeta in H. rewrite Z2Nat.id in H by lia. apply H. lia.
Qed.

Lemma nibbles x : 0 <= Z_of_byte x / 16 < 16 /\ 0 <= Z_of_byte x mod 16 < 16.
Proof. pose proof (Z_of_byte_range x). Z.to_euclidean_division_equations. lia. Qed.

(** Hexadecimal text is printable, made of hexadecimal digits and in lower
    case. *)
Lemma hex_text b :
  all_chars graphic (hex b) = true /\ all_chars is_ascii_hexdigit (hex b) = true /\
  to_ascii_lowercase (hex b) = hex b.
Proof.
  induction b as [|x b (IH1 & IH2 & IH3)]; [done|]. destruct (nibbles x) as [H1%hex_digit_ok H2%hex_digit_ok].
  propify. unfold to_ascii_lowercase in *. cbn [hex all_chars string_map].
  repeat match goal with H : Ascii.eqb _ _ = true |- _ => apply Ascii.eqb_eq in H as -> end.
  repeat match goal with H : _ = true |- _ => rewrite H; clear H end. by rewrite IH3.
Qed.

Lemma hex_digit_inj i j : 0 <= i < 16 -> 0 <= j < 16 -> hex_digit i = hex_digit j -> i = j.
Proof.
  intros Hi Hj E. pose proof (hex_digit_ok i Hi) as H1. pose proof (hex_digit_ok j Hj) as H2.
  rewrite <- E in H2. pose proof (hex_digit_ok j Hj) as H3. propify.
  destruct (i <? 10) eqn:?, (j <? 10) eqn:?; propify; lia.
Qed.

Lemma hex_inj a b : hex a = hex b -> a = b.
Proof.
  revert b. induction a as [|x a IH]; intros [|y b] E; [done..|]. cbn [hex] in E. injection E as E1 E2 E3.
  destruct (nibbles x), (nibbles y). apply hex_digit_inj in E1, E2; [|done..]. f_equal; [|auto].
  assert (Z_of_byte x = Z_of_byte y) as E by (Z.to_euclidean_division_equations; lia).
  unfold Z_of_byte in E. apply N2Z.inj, (f_equal Byte.of_N) in E. rewrite !Byte.of_to_N in E. congruence.
Qed.

(** ** UTF-8: [String::from_utf8] *)

Definition between (lo hi : Z) (b : Byte.byte) : bool := (lo <=? Z_of_byte b) && (Z_of_byte b <=? hi).

(** The byte sequences of the Unicode scalar values. *)
Fixpoint utf8 (b : bytes) : bool :=
  match b with
  | [] => true
  | x :: r1 =>
    if between 0 0x7F x then utf8 r1 else
    match r1 with
    | [] => false
    | y :: r2 =>
      if between 0xC2 0xDF x then between 0x80 0xBF y && utf8 r2 else
      match r2 with
      | [] => false
      | z :: r3 =>
        let second := if between 0xE0 0xE0 x then between 0xA0 0xBF y
                      else if between 0xED 0xED x then between 0x80 0x9F y
                      else between 0x80 0xBF y in
        if between 0xE0 0xEF x then second && between 0x80 0xBF z && utf8 r3 else
        match r3 with
        | [] => false
        | w :: r4 =>
          let second := if between 0xF0 0xF0 x then between 0x90 0xBF y
                        else if between 0xF4 0xF4 x then between 0x80 0x8F y
                        else between 0x80 0xBF y in
          between 0xF0 0xF4 x && second && between 0x80 0xBF z && between 0x80 0xBF w && utf8 r4
        end
      end
    end
  end.

Definition from_utf8 (b : bytes) : option string :=
  if utf8 b then Some (string_of_list_byte b) else None.

Lemma from_utf8_as_bytes s : utf8 (as_bytes s) = true -> from_utf8 (as_bytes s) = Some s.
Proof. intros E. unfold from_utf8. rewrite E. f_equal. apply string_of_list_byte_of_string. Qed.

Lemma from_utf8_inj a b s : from_utf8 a = Some s -> from_utf8 b = Some s -> a = b.
Proof.
  unfold from_utf8. destruct (utf8 a), (utf8 b); try discriminate. intros [= <-] [= E].
  apply (f_equal list_byte_of_string) in E. by rewrite !list_byte_of_string_of_list_byte in E.
Qed.
