(* ===== verification/ThirdParty.v ===== *)
(** * Code the repository calls but does not contain

    Every third-party crate is a class of operations, and the facts of its
    documentation that the repository relies on are a separate class of laws,
    so a theorem shows in its statement which of them it needs.  The module
    [Concrete] gives each interface executable instances that satisfy the
    laws; they are used by the witnesses and model no code. *)

From S2P Require Import Prelude.
From Stdlib Require Import ZArith Lia Strings.Byte Strings.Ascii Strings.String DecimalString DecimalN Wf_nat.
From stdpp Require Import base list option strings numbers gmap countable.
Open Scope Z_scope.

(** ** The [uuid] crate: a UUID is a 128-bit number *)

Definition Uuid : Type := dsig (fun n : N => (n < 2 ^ 128)%N).

#[global] Instance Uuid_eq_dec : EqDecision Uuid.
Proof. apply _. Defined.
#[global] Instance Uuid_countable : Countable Uuid.
Proof. apply _. Defined.

Lemma from_u128_bound (n : N) : (n mod 2 ^ 128 < 2 ^ 128)%N.
Proof. by apply N.mod_lt. Qed.

(** [Uuid::from_u128]. *)
Definition from_u128 (n : N) : Uuid := dexist (n mod 2 ^ 128)%N (from_u128_bound n).

(** [Uuid::as_u128], [Uuid::is_nil], [Uuid::as_bytes] (network order). *)
Definition as_u128 (u : Uuid) : N := proj1_sig u.
Definition is_nil (u : Uuid) : bool := (as_u128 u =? 0)%N.
Definition uuid_as_bytes (u : Uuid) : bytes := to_be_bytes 16 (Z.of_N (as_u128 u)).

Lemma as_u128_bound u : (as_u128 u < 2 ^ 128)%N.
Proof. exact (proj2_dsig u). Qed.

Lemma as_u128_inj u v : as_u128 u = as_u128 v -> u = v.
Proof. intros H. by apply dsig_eq. Qed.

Lemma uuid_as_bytes_length u : length (uuid_as_bytes u) = 16%nat.
Proof. apply to_be_bytes_length. Qed.

Lemma uuid_as_bytes_inj u v : uuid_as_bytes u = uuid_as_bytes v -> u = v.
Proof.
  intros H%to_be_bytes_inj. apply as_u128_inj.
  pose proof (as_u128_bound u). pose proof (as_u128_bound v).
  change (256 ^ Z.of_nat 16) with (Z.of_N (2 ^ 128)) in H.
  rewrite !Z.mod_small in H by lia. lia.
Qed.

(** [Uuid::to_string] and [Uuid::parse_str]: the text form parses back. *)
Class UuidText := {
  uuid_to_string : Uuid -> string;
  uuid_parse_str : string -> option Uuid;
}.
Class UuidTextLaws `{UuidText} : Prop :=
  uuid_parse_to_string : forall u, uuid_parse_str (uuid_to_string u) = Some u.

#[global] Instance uuid_to_string_inj `{UuidTextLaws} : Inj (=) (=) uuid_to_string.
Proof.
  intros u v E. apply (f_equal uuid_parse_str) in E.
  rewrite !uuid_parse_to_string in E. congruence.
Qed.

(** ** Base64: [base64::engine::general_purpose::STANDARD] in the relay,
    [data_encoding::BASE64] in the core; both are the padded standard
    alphabet of RFC 4648. *)

Class Base64 := {
  b64_encode : bytes -> string;
  b64_decode : string -> option bytes;
}.
Class Base64Laws `{Base64} : Prop := {
  b64_decode_encode : forall b, b64_decode (b64_encode b) = Some b;
  b64_encode_length : forall b,
    Z.of_nat (String.length (b64_encode b)) = (Z.of_nat (length b) + 2) / 3 * 4;
}.

(** [base64::engine::general_purpose::URL_SAFE_NO_PAD]: only decoded. *)
Class Base64Url := { b64url_decode : string -> option bytes }.

(** ** Serde with [serde_json]: text of a value and back *)

Class SerdeJson (A : Type) := {
  to_json : A -> string;
  from_json : string -> option A;
}.
Class SerdeJsonLaws (A : Type) `{SerdeJson A} : Prop :=
  from_to_json : forall a : A, from_json (to_json a) = Some a.

(** ** [sha2::Sha256] and [hex::encode] *)

Class Sha256 := {
  sha256 : bytes -> bytes;
  hex_encode : bytes -> string;
}.
Class Sha256Laws `{Sha256} : Prop := {
  sha256_length : forall b, length (sha256 b) = 32%nat;
  hex_encode_inj : forall a b, hex_encode a = hex_encode b -> a = b;
}.

(** [hex::decode]. *)
Class HexDecode := hex_decode : string -> option bytes.
Class HexDecodeLaws `{Sha256, HexDecode} : Prop :=
  hex_decode_encode : forall b, hex_decode (hex_encode b) = Some b.

(** Two different inputs with one output. *)
Definition collision (f : bytes -> bytes) (a b : bytes) : Prop := a <> b /\ f a = f b.
Lemma collision_sym f a b : collision f a b -> collision f b a.
Proof. intros [Hn E]. split; congruence. Qed.

(** ** [argon2]: salted password hashes in PHC string form.  The salt is the
    randomness of [SaltString::generate]. *)

Class Argon2 := {
  argon2_hash_password : string -> bytes -> option string;  (* salt, password *)
  phc_parse : string -> bool;                               (* PasswordHash::new(..).is_ok() *)
  argon2_verify_password : bytes -> string -> bool;         (* password, PHC string *)
}.
Class Argon2Laws `{Argon2} : Prop := {
  argon2_verify_hash : forall salt pw h,
    argon2_hash_password salt pw = Some h ->
    phc_parse h = true /\ argon2_verify_password pw h = true;
  argon2_hash_prefix : forall salt pw h,
    argon2_hash_password salt pw = Some h -> String.prefix "$argon2" h = true;
}.

(** ** [ed25519_dalek] *)

Class Ed25519 := {
  verifying_key_ok : bytes -> bool;                  (* VerifyingKey::from_bytes(..).is_ok() *)
  ed25519_verify : bytes -> bytes -> bytes -> bool;  (* key, message, signature *)
}.

(** ** [aes_gcm]: AES-256-GCM with a 96-bit nonce; the sealed message carries
    its 16-byte tag at the end.  GCM is deterministic for a given key, nonce
    and associated data, and opens exactly what it sealed. *)

Class Aead := {
  gcm_encrypt : bytes -> bytes -> bytes -> bytes -> option bytes;  (* key, nonce, aad, message *)
  gcm_decrypt : bytes -> bytes -> bytes -> bytes -> option bytes;
}.
Class AeadLaws `{Aead} : Prop := {
  gcm_decrypt_encrypt : forall k n a m c, gcm_encrypt k n a m = Some c -> gcm_decrypt k n a c = Some m;
  gcm_encrypt_length : forall k n a m c, gcm_encrypt k n a m = Some c -> length c = (length m + 16)%nat;
  gcm_encrypt_decrypt : forall k n a m c, gcm_decrypt k n a c = Some m -> gcm_encrypt k n a m = Some c;
}.

(** ** [argon2] as a key derivation function: [Params::new] may refuse its
    arguments, and the output has the requested length. *)

Class Argon2id := {
  argon2_params_ok : Z -> Z -> Z -> Z -> bool;                        (* m, t, p, output length *)
  argon2id_into : bytes -> bytes -> Z -> Z -> Z -> Z -> option bytes; (* password, salt, m, t, p, length *)
}.
Class Argon2idLaws `{Argon2id} : Prop :=
  argon2id_length : forall pw salt m t p len out,
    argon2id_into pw salt m t p len = Some out -> Z.of_nat (length out) = len.

(** ** HMAC-SHA256 ([hmac]) and HKDF-SHA256 ([hkdf]) *)

Class Hmac := {
  hmac_sha256 : bytes -> bytes -> bytes;               (* key, message *)
  hkdf_expand : bytes -> bytes -> Z -> option bytes;   (* key material, info, length *)
}.

(** ** Serde documents: [serde_json::to_vec] and [serde_json::from_slice] of a
    struct, and the legacy [bincode] decoder (size-limited, fixint, no
    trailing bytes). *)

Class SerdeBytes (A : Type) := {
  to_vec : A -> bytes;
  from_slice : bytes -> option A;
}.
Class SerdeBytesLaws (A : Type) `{SerdeBytes A} : Prop :=
  from_slice_to_vec : forall a : A, from_slice (to_vec a) = Some a.

Class Bincode (A : Type) := bincode_deserialize : bytes -> option A.

(** [bincode::serialize], which the decoder reads back for values of the
    type's shape ([wf]: the lengths of fixed-size arrays). *)
Class BincodeSer (A : Type) := bincode_serialize : A -> bytes.
Class BincodeLaws (A : Type) `{Bincode A, BincodeSer A} (wf : A -> Prop) : Prop :=
  bincode_deserialize_serialize : forall a : A, wf a -> bincode_deserialize (bincode_serialize a) = Some a.

(** ** Concrete instances *)

Module Concrete.

(** UUID text: the decimal digits of the number. *)
Definition dec_to_string (u : Uuid) : string :=
  NilEmpty.string_of_uint (N.to_uint (as_u128 u)).
Definition dec_parse_str (s : string) : option Uuid :=
  from_u128 ∘ N.of_uint <$> NilEmpty.uint_of_string s.

#[export] Instance uuid_text : UuidText := {|
  uuid_to_string := dec_to_string;
  uuid_parse_str := dec_parse_str;
|}.

#[export] Instance uuid_text_laws : UuidTextLaws.
Proof.
  intros u. cbn. unfold dec_parse_str, dec_to_string.
  rewrite NilEmpty.usu. cbn. f_equal. apply as_u128_inj.
  rewrite DecimalN.Unsigned.of_to. cbn.
  apply N.mod_small, as_u128_bound.
Qed.

(** Base64 with the standard alphabet and padding. *)
Definition b64_alphabet : list Ascii.ascii := String.list_ascii_of_string
  "ABCDEFGHIJKLMNOPQRSTUVWXYZabcdefghijklmnopqrstuvwxyz0123456789+/".

Definition b64_char (i : Z) : Ascii.ascii := nth (Z.to_nat i) b64_alphabet "A"%char.

Fixpoint index_of (c : Ascii.ascii) (l : list Ascii.ascii) (i : Z) : option Z :=
  match l with
  | [] => None
  | x :: l => if Ascii.eqb x c then Some i else index_of c l (i + 1)
  end.

Definition b64_val (c : Ascii.ascii) : option Z := index_of c b64_alphabet 0.

Fixpoint enc (b : bytes) : string :=
  match b with
  | [] => ""
  | [x] =>
    let n := Z_of_byte x * 65536 in
    String (b64_char (n / 262144)) (String (b64_char (n / 4096 mod 64)) "==")
  | [x; y] =>
    let n := Z_of_byte x * 65536 + Z_of_byte y * 256 in
    String (b64_char (n / 262144)) (String (b64_char (n / 4096 mod 64))
      (String (b64_char (n / 64 mod 64)) "="))
  | x :: y :: z :: b =>
    let n := Z_of_byte x * 65536 + Z_of_byte y * 256 + Z_of_byte z in
    String (b64_char (n / 262144)) (String (b64_char (n / 4096 mod 64))
      (String (b64_char (n / 64 mod 64)) (String (b64_char (n mod 64)) (enc b))))
  end.

Fixpoint dec (s : string) : option bytes :=
  match s with
  | EmptyString => Some []
  | String c1 (String c2 (String c3 (String c4 s))) =>
    v1 ← b64_val c1; v2 ← b64_val c2;
    match b64_val c3, b64_val c4, s with
    | Some v3, Some v4, _ =>
      let n := v1 * 262144 + v2 * 4096 + v3 * 64 + v4 in
      rest ← dec s;
      Some (byte_of_Z (n / 65536) :: byte_of_Z (n / 256) :: byte_of_Z n :: rest)
    | Some v3, None, EmptyString =>
      if Ascii.eqb c4 "="%char then
        let n := v1 * 262144 + v2 * 4096 + v3 * 64 in
        Some [byte_of_Z (n / 65536); byte_of_Z (n / 256)]
      else None
    | None, None, EmptyString =>
      if Ascii.eqb c3 "="%char && Ascii.eqb c4 "="%char then
        let n := v1 * 262144 + v2 * 4096 in Some [byte_of_Z (n / 65536)]
      else None
    | _, _, _ => None
    end
  | _ => None
  end.

Lemma b64_val_char i : 0 <= i < 64 -> b64_val (b64_char i) = Some i.
Proof.
  intros Hi.
  assert (forallb (fun k => bool_decide (b64_val (b64_char (Z.of_nat k)) = Some (Z.of_nat k)))
            (seq 0 64) = true) as H by (vm_compute; reflexivity).
  rewrite forallb_forall in H. specialize (H (Z.to_nat i)).
  rewrite in_seq in H. specialize (H ltac:(lia)).
  apply bool_decide_eq_true_1 in H. by rewrite Z2Nat.id in H by lia.
Qed.

Lemma b64_val_pad : b64_val "="%char = None.
Proof. reflexivity. Qed.

Lemma byte_of_Z_eq z b : z mod 256 = Z_of_byte b -> byte_of_Z z = b.
Proof.
  intros H. unfold byte_of_Z. rewrite H. unfold Z_of_byte.
  rewrite N2Z.id. by rewrite Byte.of_to_N.
Qed.

Ltac sextet := rewrite b64_val_char by (split; [apply Z.div_pos || apply Z.mod_pos_bound; lia
  | first [apply Z.div_lt_upper_bound; lia | apply Z.mod_pos_bound; lia]]).
Ltac octet := apply byte_of_Z_eq; Z.to_euclidean_division_equations; lia.

Lemma dec_enc b : dec (enc b) = Some b.
Proof.
  induction b as [b IH] using (induction_ltof1 _ (@length _)); unfold ltof in IH.
  destruct b as [|x [|y [|z b]]]; [done|..];
    pose proof (Z_of_byte_range x); try pose proof (Z_of_byte_range y);
    try pose proof (Z_of_byte_range z).
  - cbn [enc dec]. do 2 sextet. cbn. do 2 f_equal. octet.
  - cbn [enc dec]. do 3 sextet. cbn. f_equal. f_equal; [octet|]. f_equal. octet.
  - cbn [enc dec]. do 4 sextet. cbn. rewrite IH by (simpl; lia). cbn.
    f_equal. f_equal; [octet|]. f_equal; [octet|]. f_equal. octet.
Qed.

Lemma enc_length b : Z.of_nat (String.length (enc b)) = (Z.of_nat (length b) + 2) / 3 * 4.
Proof.
  induction b as [b IH] using (induction_ltof1 _ (@length _)); unfold ltof in IH.
  destruct b as [|x [|y [|z b]]]; [done..|].
  cbn [enc String.length length]. rewrite !Nat2Z.inj_succ, IH by (simpl; lia).
  Z.to_euclidean_division_equations; lia.
Qed.

#[export] Instance base64 : Base64 := {| b64_encode := enc; b64_decode := dec |}.
#[export] Instance base64_laws : Base64Laws.
Proof. split; [exact dec_enc | exact enc_length]. Qed.
#[export] Instance base64_url : Base64Url := {| b64url_decode := dec |}.

(** A 32-byte checksum in the place of SHA-256, and hexadecimal text. *)
Definition checksum (b : bytes) : bytes :=
  mjoin (repeat (to_be_bytes 4 (foldl (fun acc x => Z.land (acc * 257 + Z_of_byte x + 1) 0xFFFFFFFF) 0 b)) 8).

Lemma checksum_length b : length (checksum b) = 32%nat.
Proof. reflexivity. Qed.

Definition hex_digit (i : Z) : Ascii.ascii :=
  nth (Z.to_nat i) (String.list_ascii_of_string "0123456789abcdef") "0"%char.

Fixpoint hex (b : bytes) : string :=
  match b with
  | [] => ""
  | x :: b => String (hex_digit (Z_of_byte x / 16)) (String (hex_digit (Z_of_byte x mod 16)) (hex b))
  end.

Lemma demo_hex_digit_inj i j :
  0 <= i < 16 -> 0 <= j < 16 -> hex_digit i = hex_digit j -> i = j.
Proof.
  intros Hi Hj E.
  assert (forallb (fun a => forallb (fun b => bool_decide (hex_digit (Z.of_nat a) = hex_digit (Z.of_nat b) -> a = b))
            (seq 0 16)) (seq 0 16) = true) as H by (vm_compute; reflexivity).
  rewrite forallb_forall in H. specialize (H (Z.to_nat i)).
  rewrite in_seq, forallb_forall in H. specialize (H ltac:(lia) (Z.to_nat j)).
  rewrite in_seq in H. specialize (H ltac:(lia)).
  apply bool_decide_eq_true_1 in H. rewrite !Z2Nat.id in H by lia. specialize (H E). lia.
Qed.

Lemma demo_hex_inj a b : hex a = hex b -> a = b.
Proof.
  revert b. induction a as [|x a IH]; intros [|y b]; [done..|].
  intros [= E1 E2 E3]. f_equal; [|auto].
  pose proof (Z_of_byte_range x). pose proof (Z_of_byte_range y).
  apply demo_hex_digit_inj in E1; [|Z.to_euclidean_division_equations; lia..].
  apply demo_hex_digit_inj in E2; [|Z.to_euclidean_division_equations; lia..].
  assert (Z_of_byte x = Z_of_byte y) as E by (Z.to_euclidean_division_equations; lia).
  unfold Z_of_byte in E. apply N2Z.inj in E.
  apply (f_equal Byte.of_N) in E. rewrite !Byte.of_to_N in E. congruence.
Qed.

#[export] Instance sha256_inst : Sha256 := {| sha256 := checksum; hex_encode := hex |}.
#[export] Instance sha256_laws : Sha256Laws.
Proof. split; [exact checksum_length | exact demo_hex_inj]. Qed.

Definition hex_val (a : Ascii.ascii) : option Z :=
  index_of a (List.map (fun i => hex_digit (Z.of_nat i)) (seq 0 16)) 0.
Fixpoint unhex (s : string) : option bytes :=
  match s with
  | EmptyString => Some []
  | String a (String b s) =>
    x ← hex_val a; y ← hex_val b; r ← unhex s; Some (byte_of_Z (16 * x + y) :: r)
  | _ => None
  end.

Lemma hex_val_digit i : 0 <= i < 16 -> hex_val (hex_digit i) = Some i.
Proof.
  intros Hi. rewrite <- (Z2Nat.id i) by lia.
  assert (forallb (fun n => bool_decide (hex_val (hex_digit (Z.of_nat n)) = Some (Z.of_nat n))) (seq 0 16) = true) as F by done.
  rewrite forallb_forall in F. specialize (F (Z.to_nat i)). rewrite bool_decide_eq_true in F. apply F, in_seq. lia.
Qed.

#[export] Instance hex_decode_inst : HexDecode := unhex.
#[export] Instance hex_decode_laws : HexDecodeLaws.
Proof.
  intros b. unfold hex_decode, hex_decode_inst. cbn [hex_encode sha256_inst].
  induction b as [|x b IH]; [done|]. cbn [hex unhex].
  rewrite !hex_val_digit by (pose proof (Z_of_byte_range x); Z.to_euclidean_division_equations; lia). cbn.
  rewrite IH. cbn. do 2 f_equal. rewrite <- (Z.div_mod (Z_of_byte x) 16) by lia.
  unfold byte_of_Z. rewrite Z.mod_small by apply Z_of_byte_range. unfold Z_of_byte. rewrite N2Z.id, Byte.of_to_N. done.
Qed.

(** Argon2: the password in hexadecimal behind the PHC prefix. *)
#[export] Instance argon2 : Argon2 := {|
  argon2_hash_password := fun _ pw => Some ("$argon2" +:+ hex pw);
  phc_parse := fun _ => true;
  argon2_verify_password := fun pw h => String.eqb h ("$argon2" +:+ hex pw);
|}.
#[export] Instance argon2_laws : Argon2Laws.
Proof.
  split; cbn; intros ??? [= <-].
  - split; [done|]. by rewrite String.eqb_refl.
  - by destruct (hex pw).
Qed.

(** Signatures: the signature repeats the first key byte 64 times. *)
#[export] Instance ed25519 : Ed25519 := {|
  verifying_key_ok := fun _ => true;
  ed25519_verify := fun k _ s => bool_decide (s = repeat (default Byte.x00 (head k)) 64);
|}.

(** An authenticated cipher that does not hide its message: the message and a
    checksum of everything. *)
Definition mac16 (k n a m : bytes) : bytes := take 16 (drop 16 (checksum (k ++ n ++ a ++ m))).

#[export] Instance aead : Aead := {|
  gcm_encrypt k n a m := Some (m ++ mac16 k n a m);
  gcm_decrypt k n a c :=
    let m := take (length c - 16) c in
    if decide (drop (length c - 16) c = mac16 k n a m) then Some m else None;
|}.

#[local] Arguments mac16 : simpl never.

Lemma mac16_length k n a m : length (mac16 k n a m) = 16%nat.
Proof. unfold mac16. by rewrite length_take, length_drop, checksum_length. Qed.

#[export] Instance aead_laws : AeadLaws.
Proof.
  split; cbn; intros k n a m c.
  - intros [= <-]. rewrite length_app, mac16_length, Nat.add_sub, take_app_length, drop_app_length.
    by rewrite decide_True.
  - intros [= <-]. by rewrite length_app, mac16_length.
  - case_decide as E; [|done]. intros [= <-]. by rewrite <- E, take_drop.
Qed.

(** Key derivation: a checksum of every input, repeated to the length. *)
#[export] Instance argon2id : Argon2id := {|
  argon2_params_ok _ _ _ _ := true;
  argon2id_into pw salt m t p len :=
    if len <? 0 then None
    else Some (take (Z.to_nat len) (mjoin (repeat (checksum (salt ++ pw)) (Z.to_nat len))))
|}.

Lemma mjoin_repeat_length (b : bytes) n : length (mjoin (repeat b n)) = (n * length b)%nat.
Proof. induction n as [|n IH]; [done|]. simpl. by rewrite length_app, IH. Qed.

#[local] Arguments checksum : simpl never.

#[export] Instance argon2id_laws : Argon2idLaws.
Proof.
  intros pw salt m t p len out. cbn. destruct (len <? 0) eqn:E; [done|]. propify. intros [= <-].
  rewrite length_take, mjoin_repeat_length. rewrite checksum_length. lia.
Qed.

Definition mac32 (k m : bytes) : bytes := checksum (k ++ m).
#[export] Instance hmac : Hmac := {|
  hmac_sha256 := mac32;
  hkdf_expand k info len := Some (mac32 k info);
|}.

End Concrete.
