(* ===== verification/RelayStorage.v ===== *)
(** * The relay's storage: configuration, errors, tables and transactions

    Models [sentinelpass-relay/src/{error,config,app_state}.rs] and the schema
    of [storage/mod.rs].  A SQLite table is a finite map from its primary key
    to its row, except [sync_mutations_v2] and [mutation_results], which are
    lists in insertion order because their order is observable.  The
    connection of a handler holds the working state of an open transaction
    beside the last committed state: [commit] copies one to the other and a
    handler that returns without committing leaves the committed one. *)

From S2P Require Import Prelude ThirdParty.
From Stdlib Require Import ZArith Lia.
From stdpp Require Import base list option strings numbers gmap.
Open Scope Z_scope.

(** ** Errors ([error.rs]).  A message is kept without the text a library
    adds to it. *)

Inductive RelayError : Type :=
| Gone (m : string)
| Database (m : string)
| Auth (m : string)
| NotFound (m : string)
| Conflict (m : string)
| RateLimited
| PayloadTooLarge
| BadRequest (m : string)
| Internal (m : string).

#[global] Instance RelayError_eq_dec : EqDecision RelayError.
Proof. solve_decision. Defined.

(** The HTTP status of an error ([IntoResponse]). *)
Definition status_code (e : RelayError) : Z :=
  match e with
  | Gone _ => 410
  | Database _ => 500
  | Auth _ => 401
  | NotFound _ => 404
  | Conflict _ => 409
  | RateLimited => 429
  | PayloadTooLarge => 413
  | BadRequest _ => 400
  | Internal _ => 500
  end.

(** ** Configuration ([config.rs]) *)

Record RelayConfig := {
  listen_addr : string;
  storage_path : string;
  max_entries_per_vault : Z;
  max_payload_size : Z;
  rate_limit_per_minute : Z;
  pairing_ttl_secs : Z;
  max_active_pairings : Z;
  pairing_fetch_attempt_limit : Z;
  pairing_fetch_backoff_base_secs : Z;
  pairing_fetch_backoff_max_secs : Z;
  tombstone_retention_days : Z;
  nonce_window_secs : Z;
  allow_v1 : bool;
  trusted_proxies : list string;
  mutation_result_ttl_secs : Z;
  max_mutation_results_per_device : Z;
}.

Definition default_mutation_result_ttl_secs : Z := 7 * 24 * 3600.
Definition default_max_mutation_results_per_device : Z := 4096.

(** [RelayConfig::default]. *)
Definition default_config : RelayConfig := {|
  listen_addr := "127.0.0.1:8743";
  storage_path := "relay.db";
  max_entries_per_vault := 10000;
  max_payload_size := 65536;
  rate_limit_per_minute := 60;
  pairing_ttl_secs := 300;
  max_active_pairings := 5;
  pairing_fetch_attempt_limit := 5;
  pairing_fetch_backoff_base_secs := 5;
  pairing_fetch_backoff_max_secs := 300;
  tombstone_retention_days := 90;
  nonce_window_secs := 300;
  allow_v1 := false;
  trusted_proxies := [];
  mutation_result_ttl_secs := default_mutation_result_ttl_secs;
  max_mutation_results_per_device := default_max_mutation_results_per_device;
|}.

(** [RelayConfig::validate]; [parse_addr] is [str::parse::<SocketAddr>]. *)
Definition validate (parse_addr : string -> bool) (c : RelayConfig) : result string unit :=
  _ ← err_if (negb (parse_addr (listen_addr c))) "Invalid relay listen address";
  _ ← err_if (String.eqb (storage_path c) "") "Relay storage_path must not be empty";
  _ ← err_if (max_entries_per_vault c =? 0) "Relay max_entries_per_vault must be greater than zero";
  _ ← err_if (max_payload_size c =? 0) "Relay max_payload_size must be greater than zero";
  _ ← err_if (rate_limit_per_minute c =? 0) "Relay rate_limit_per_minute must be greater than zero";
  _ ← err_if (pairing_ttl_secs c =? 0) "Relay pairing_ttl_secs must be greater than zero";
  _ ← err_if (max_active_pairings c =? 0) "Relay max_active_pairings must be greater than zero";
  _ ← err_if (pairing_fetch_attempt_limit c =? 0) "Relay pairing_fetch_attempt_limit must be greater than zero";
  _ ← err_if (pairing_fetch_backoff_base_secs c =? 0) "Relay pairing_fetch_backoff_base_secs must be greater than zero";
  _ ← err_if (pairing_fetch_backoff_max_secs c <? pairing_fetch_backoff_base_secs c)
        "Relay pairing_fetch_backoff_max_secs must be greater than or equal to pairing_fetch_backoff_base_secs";
  _ ← err_if (tombstone_retention_days c =? 0) "Relay tombstone_retention_days must be greater than zero";
  _ ← err_if (nonce_window_secs c <=? 0) "Relay nonce_window_secs must be greater than zero";
  _ ← err_if (mutation_result_ttl_secs c =? 0) "Relay mutation_result_ttl_secs must be greater than zero";
  _ ← err_if (max_mutation_results_per_device c =? 0) "Relay max_mutation_results_per_device must be greater than zero";
  Ok tt.

(** ** Tables ([storage/mod.rs], [initialize_schema]) *)

Record VaultRow := { v_created_at : Z; v_entry_count : Z }.

Record DeviceRow := {
  d_vault_id : string;
  d_device_name : string;
  d_device_type : string;
  d_public_key : bytes;
  d_registered_at : Z;
  d_revoked : bool;
  d_revoked_at : option Z;
}.

Record SyncEntryRow := {
  se_entry_type : string;
  se_sync_version : Z;
  se_modified_at : Z;
  se_encrypted_payload : bytes;
  se_is_tombstone : bool;
  se_origin_device_id : string;
  se_server_sequence : Z;
  se_received_at : Z;
}.

(** [pairing_bootstraps] keeps its rowid: the handler updates by rowid. *)
Record BootstrapRow := {
  pb_rowid : Z;
  pb_pairing_token : string;
  pb_vault_id : string;
  pb_encrypted_bootstrap : bytes;
  pb_pairing_salt : bytes;
  pb_expires_at : Z;
  pb_consumed : bool;
}.

Record ProofRow := {
  rp_pairing_token_hash : string;
  rp_vault_id : string;
  rp_expires_at : Z;
  rp_consumed : bool;
}.

Record BootstrapV2Row := {
  b2_vault_id : string;
  b2_secret_hash : string;
  b2_encrypted_bootstrap : bytes;
  b2_registration_proof : bytes;
  b2_expires_at : Z;
  b2_consumed : bool;
  b2_received_at : Z;
}.

Record AttemptRow := {
  fa_attempts : Z;
  fa_first_attempt_at : Z;
  fa_last_attempt_at : Z;
  fa_blocked_until : Z;
}.

Record NonceRow := { n_device_id : string; n_seen_at : Z }.

Record EntryV2Row := {
  e2_entry_type : string;
  e2_current_version : Z;
  e2_key_epoch : Z;
  e2_is_tombstone : bool;
  e2_metadata_mac : string;
  e2_encrypted_payload : bytes;
  e2_origin_device_id : string;
  e2_server_sequence : Z;
  e2_received_at : Z;
}.

Record MutationRow := {
  mu_vault_id : string;
  mu_server_sequence : Z;
  mu_mutation_id : string;
  mu_object_id : string;
  mu_entry_type : string;
  mu_expected_version : Z;
  mu_resulting_version : Z;
  mu_key_epoch : Z;
  mu_origin_device_id : string;
  mu_is_tombstone : bool;
  mu_metadata_mac : string;
  mu_encrypted_payload : bytes;
  mu_received_at : Z;
}.

Record ResultRow := {
  mr_mutation_id : string;
  mr_vault_id : string;
  mr_device_id : string;
  mr_object_id : string;
  mr_outcome : string;
  mr_rejection_reason : option string;
  mr_resulting_version : option Z;
  mr_server_sequence : option Z;
  mr_created_at : Z;
}.

Record ClaimRow := { mc_new_vault_id : string; mc_claimed_by : string; mc_claimed_at : Z }.

Record EpochRow := { ve_key_epoch : Z; ve_updated_at : Z }.

Record DB := {
  vaults : gmap string VaultRow;
  devices : gmap string DeviceRow;
  sync_entries : gmap (string * string) SyncEntryRow;       (* (sync_id, vault_id) *)
  sequence_counters : gmap string Z;
  device_sequences : gmap string Z;
  pairing_bootstraps : list BootstrapRow;                   (* in rowid order *)
  pairing_registration_proofs : gmap string ProofRow;       (* proof_hash *)
  pairing_bootstraps_v2 : gmap string BootstrapV2Row;       (* bootstrap_id *)
  pairing_fetch_attempts : gmap string AttemptRow;          (* token_hash *)
  seen_nonces : gmap string NonceRow;
  sync_entries_v2 : gmap (string * string) EntryV2Row;      (* (vault_id, object_id) *)
  sync_mutations_v2 : list MutationRow;                     (* in insertion order *)
  mutation_results : list ResultRow;                        (* in insertion order *)
  migration_claims : gmap string ClaimRow;                  (* origin_vault_id *)
  vault_epochs : gmap string EpochRow;
}.

(** The database [initialize_schema] creates. *)
Definition empty_db : DB := {|
  vaults := ∅; devices := ∅; sync_entries := ∅; sequence_counters := ∅;
  device_sequences := ∅; pairing_bootstraps := []; pairing_registration_proofs := ∅;
  pairing_bootstraps_v2 := ∅; pairing_fetch_attempts := ∅; seen_nonces := ∅;
  sync_entries_v2 := ∅; sync_mutations_v2 := []; mutation_results := [];
  migration_claims := ∅; vault_epochs := ∅;
|}.

(** ** Connections and transactions *)

Record Conn := { committed : DB; working : DB }.

Definition Tx (A : Type) : Type := Conn -> result RelayError A * Conn.

#[global] Instance Tx_ret : MRet Tx := fun A a c => (Ok a, c).
#[global] Instance Tx_bind : MBind Tx := fun A B f m c =>
  match m c with
  | (Ok a, c') => f a c'
  | (Err e, c') => (Err e, c')
  end.

(** A read of the working state. *)
Definition query {A} (f : DB -> A) : Tx A := fun c => (Ok (f (working c)), c).
(** A statement that writes the working state. *)
Definition execute (f : DB -> DB) : Tx unit := fun c =>
  (Ok tt, {| committed := committed c; working := f (working c) |}).
Definition throw {A} (e : RelayError) : Tx A := fun c => (Err e, c).
Definition lift {A} (r : result RelayError A) : Tx A := fun c => (r, c).
(** [query_row] of a row that must exist. *)
Definition query_row {A} (f : DB -> option A) (e : RelayError) : Tx A := fun c =>
  (ok_or (f (working c)) e, c).
Definition throw_if (b : bool) (e : RelayError) : Tx unit := lift (err_if b e).
(** [tx.commit()]. *)
Definition commit : Tx unit := fun c =>
  (Ok tt, {| committed := working c; working := working c |}).

(** A handler that opens a transaction: what it does not commit is rolled
    back when the transaction is dropped. *)
Definition run_tx {A} (m : Tx A) (db : DB) : result RelayError A * DB :=
  let (r, c) := m {| committed := db; working := db |} in (r, committed c).

(** A handler on the bare connection (autocommit): every statement is durable
    when it returns. *)
Definition run_auto {A} (m : Tx A) (db : DB) : result RelayError A * DB :=
  let (r, c) := m {| committed := db; working := db |} in (r, working c).

(** [SELECT vault_id FROM devices WHERE device_id = ?1]. *)
Definition device_vault (device : string) (db : DB) : option string :=
  d_vault_id <$> devices db !! device.

(** ** Reasoning about transactions *)

(** [hoare P m Q]: from a connection in [P], [m] ends with a result and a
    connection in [Q]. *)
Definition hoare {A} (P : Conn -> Prop) (m : Tx A) (Q : result RelayError A -> Conn -> Prop) : Prop :=
  forall c, P c -> Q (m c).1 (m c).2.

Lemma hoare_bind {A B} P (m : Tx A) (k : A -> Tx B) R Q :
  hoare P m R ->
  (forall a, hoare (R (Ok a)) (k a) Q) ->
  (forall e c, R (Err e) c -> Q (Err e) c) ->
  hoare P (m ≫= k) Q.
Proof.
  intros Hm Hk He c Hc. specialize (Hm c Hc). unfold mbind, Tx_bind.
  destruct (m c) as [[a|e] c']; simpl in *; [by apply Hk | by apply He].
Qed.

Lemma hoare_conseq {A} (P P' : Conn -> Prop) (m : Tx A) (Q Q' : result RelayError A -> Conn -> Prop) :
  hoare P' m Q' -> (forall c, P c -> P' c) -> (forall r c, Q' r c -> Q r c) -> hoare P m Q.
Proof. intros H H1 H2 c Hc. apply H2, H, H1, Hc. Qed.

(** A successful bind ran both halves. *)
Lemma bind_ok {A B} (m : Tx A) (k : A -> Tx B) c b c' :
  (m ≫= k) c = (Ok b, c') -> exists a c1, m c = (Ok a, c1) /\ k a c1 = (Ok b, c').
Proof.
  unfold mbind, Tx_bind. destruct (m c) as [[a|e] c1]; [eauto|done].
Qed.

Lemma query_ok {A} (f : DB -> A) c a c' :
  query f c = (Ok a, c') -> a = f (working c) /\ c' = c.
Proof. by intros [= <- <-]. Qed.
Lemma execute_ok f c u c' :
  execute f c = (Ok u, c') -> c' = {| committed := committed c; working := f (working c) |}.
Proof. by intros [= _ <-]. Qed.
Lemma lift_ok {A} (r : result RelayError A) c a c' :
  lift r c = (Ok a, c') -> r = Ok a /\ c' = c.
Proof. by intros [= <- <-]. Qed.
Lemma query_row_ok {A} (f : DB -> option A) e c a c' :
  query_row f e c = (Ok a, c') -> f (working c) = Some a /\ c' = c.
Proof. unfold query_row. destruct (f (working c)); naive_solver. Qed.
Lemma throw_if_ok b e c u c' :
  throw_if b e c = (Ok u, c') -> b = false /\ c' = c.
Proof. unfold throw_if, lift. destruct b; naive_solver. Qed.
Lemma commit_ok c u c' :
  commit c = (Ok u, c') -> c' = {| committed := working c; working := working c |}.
Proof. by intros [= _ <-]. Qed.

(** Decompose a successful run of a handler statement by statement. *)
Ltac tx_inv :=
  repeat match goal with
  | H : (_ ≫= _) _ = (Ok _, _) |- _ => apply bind_ok in H as (? & ? & ? & H)
  | H : query _ _ = (Ok _, _) |- _ => apply query_ok in H as [? ?]; subst
  | H : execute _ _ = (Ok _, _) |- _ => apply execute_ok in H; subst
  | H : lift _ _ = (Ok _, _) |- _ => apply lift_ok in H as [? ?]; subst
  | H : query_row _ _ _ = (Ok _, _) |- _ => apply query_row_ok in H as [? ?]; subst
  | H : throw_if _ _ _ = (Ok _, _) |- _ => apply throw_if_ok in H as [? ?]; subst
  | H : commit _ = (Ok _, _) |- _ => apply commit_ok in H; subst
  | H : throw _ _ = (Ok _, _) |- _ => discriminate H
  | H : mret _ _ = (Ok _, _) |- _ => injection H as ? ?; subst
  end.

(** Reduce the projections a statement reads, so that nested updates of the
    database stay one record. *)
Ltac db_red H := cbn [committed working vaults devices sync_entries sequence_counters device_sequences
  pairing_bootstraps pairing_registration_proofs pairing_bootstraps_v2 pairing_fetch_attempts seen_nonces
  sync_entries_v2 sync_mutations_v2 mutation_results migration_claims vault_epochs] in H.

(** One statement of a successful run, with the state reduced. *)
Ltac tx_step H :=
  let x := fresh in let c := fresh in let E := fresh in
  apply bind_ok in H as (x & c & E & H);
  first [ apply query_ok in E as [? ?]; subst x c
        | apply execute_ok in E; subst c
        | apply throw_if_ok in E as [? ?]; subst c
        | apply lift_ok in E as [? ?]; subst c
        | apply query_row_ok in E as [? ?]; subst c
        | apply commit_ok in E; subst c ];
  db_red H.

(** A computation that never commits. *)
Class Uncommitting {A} (m : Tx A) : Prop :=
  uncommitting c : committed (m c).2 = committed c.

#[global] Instance uncommitting_ret {A} (a : A) : Uncommitting (mret a : Tx A).
Proof. done. Qed.
#[global] Instance uncommitting_bind {A B} (m : Tx A) (k : A -> Tx B) :
  Uncommitting m -> (forall a, Uncommitting (k a)) -> Uncommitting (m ≫= k).
Proof.
  intros Hm Hk c. specialize (Hm c). unfold mbind, Tx_bind.
  destruct (m c) as [[a|e] c1]; simpl in *; [|done]. by rewrite (Hk a c1), Hm.
Qed.
#[global] Instance uncommitting_query {A} (f : DB -> A) : Uncommitting (query f).
Proof. done. Qed.
#[global] Instance uncommitting_execute f : Uncommitting (execute f).
Proof. done. Qed.
#[global] Instance uncommitting_throw {A} e : Uncommitting (throw e : Tx A).
Proof. done. Qed.
#[global] Instance uncommitting_lift {A} (r : result RelayError A) : Uncommitting (lift r).
Proof. done. Qed.
#[global] Instance uncommitting_query_row {A} (f : DB -> option A) e : Uncommitting (query_row f e).
Proof. done. Qed.
#[global] Instance uncommitting_throw_if b e : Uncommitting (throw_if b e).
Proof. done. Qed.

(** Solve [Uncommitting] of a handler body: instances, and a case split on
    every branch of the code. *)
Ltac uncommitting :=
  repeat match goal with
  | |- Uncommitting (match ?x with _ => _ end) => destruct x
  | |- Uncommitting (_ ≫= _) => apply uncommitting_bind; [|intros ?]
  | |- Uncommitting _ => apply _
  end.

(** A body that does not commit, followed by a commit and a pure answer, is
    atomic: it fails without a trace, or every write of it is durable. *)
Lemma run_tx_atomic {A B} (m : Tx A) (k : A -> B) db :
  Uncommitting m ->
  run_tx (a ← m; _ ← commit; mret (k a)) db =
    match m {| committed := db; working := db |} with
    | (Ok a, c) => (Ok (k a), working c)
    | (Err e, _) => (Err e, db)
    end.
Proof.
  intros Hm. unfold run_tx, mbind, Tx_bind.
  specialize (Hm {| committed := db; working := db |}).
  destruct (m _) as [[a|e] c]; simpl in *; congruence.
Qed.

(** ** Two-state properties

    [Preserves R m]: from a connection whose committed and working states are
    both related to an earlier database by [R], [m] ends in such a connection,
    whatever its result. *)

Class Preserves (R : DB -> DB -> Prop) {A} (m : Tx A) : Prop :=
  preserves db0 c : R db0 (committed c) -> R db0 (working c) ->
    R db0 (committed (m c).2) /\ R db0 (working (m c).2).

Section Preserves.
Context (R : DB -> DB -> Prop) `{!PreOrder R}.

#[global] Instance preserves_ret {A} (a : A) : Preserves R (mret a : Tx A).
Proof. by intros ???. Qed.
#[global] Instance preserves_bind {A B} (m : Tx A) (k : A -> Tx B) :
  Preserves R m -> (forall a, Preserves R (k a)) -> Preserves R (m ≫= k).
Proof.
  intros Hm Hk db0 c Hc Hw. destruct (Hm db0 c Hc Hw) as [Hc1 Hw1]. unfold mbind, Tx_bind.
  destruct (m c) as [[a|e] c1]; simpl in *; [by apply Hk|done].
Qed.
#[global] Instance preserves_query {A} (f : DB -> A) : Preserves R (query f).
Proof. by intros ???. Qed.
#[global] Instance preserves_throw {A} e : Preserves R (throw e : Tx A).
Proof. by intros ???. Qed.
#[global] Instance preserves_lift {A} (r : result RelayError A) : Preserves R (lift r).
Proof. by intros ???. Qed.
#[global] Instance preserves_query_row {A} (f : DB -> option A) e : Preserves R (query_row f e).
Proof. by intros ???. Qed.
#[global] Instance preserves_throw_if b e : Preserves R (throw_if b e).
Proof. by intros ???. Qed.
#[global] Instance preserves_commit : Preserves R commit.
Proof. by intros ???. Qed.
Lemma preserves_execute f : (forall db, R db (f db)) -> Preserves R (execute f).
Proof. intros Hf db0 c Hc Hw. simpl. split; [done|]. by etrans. Qed.

Lemma run_tx_preserves {A} (m : Tx A) db r db' :
  Preserves R m -> run_tx m db = (r, db') -> R db db'.
Proof.
  intros Hm. unfold run_tx. specialize (Hm db {| committed := db; working := db |}).
  destruct (m _) as [r' c]. simpl in Hm. destruct Hm; [done..|]. by intros [= <- <-].
Qed.
Lemma run_auto_preserves {A} (m : Tx A) db r db' :
  Preserves R m -> run_auto m db = (r, db') -> R db db'.
Proof.
  intros Hm. unfold run_auto. specialize (Hm db {| committed := db; working := db |}).
  destruct (m _) as [r' c]. simpl in Hm. destruct Hm; [done..|]. by intros [= <- <-].
Qed.
End Preserves.

(** Split a handler body into its statements; the goals left are its writes. *)
Ltac preserving :=
  repeat match goal with
  | |- Preserves _ (match ?x with _ => _ end) => destruct x
  | |- Preserves _ (_ ≫= _) => apply preserves_bind; [|intros ?]
  | |- Preserves _ (execute _) => apply preserves_execute; [apply _|intros ?]
  | |- Preserves _ _ => apply _
  end.
