(* ===== verification/RelaySyncV2.v ===== *)
(** * Relay: sync protocol v2 ([handlers/sync_v2.rs])

    The transactional, idempotent push with a compare-and-swap guard per
    object, and the paginated pull over the append-only mutation log. *)

From S2P Require Import Prelude ThirdParty RelayStorage.
From Stdlib Require Import ZArith Lia Strings.String Strings.Ascii DecimalString DecimalZ.
From stdpp Require Import base list option strings numbers gmap sorting.
Open Scope Z_scope.

Definition MAX_MUTATIONS_PER_PUSH : Z := 500.
Definition MAX_VERSION_STEP : Z := 10000.
Definition MAX_EPOCH_JUMP : Z := 100000.

(** ** Wire types *)

Record MutationV2 := {
  mutation_id : Uuid;
  vault_id : Uuid;
  object_id : Uuid;
  entry_type : string;
  expected_version : Z;       (* u64 *)
  resulting_version : Z;      (* u64 *)
  key_epoch : Z;              (* i64 *)
  origin_device_id : Uuid;
  is_tombstone : bool;
  encrypted_payload : string; (* base64 *)
  metadata_mac : string;      (* base64, 32 bytes *)
}.

Record PushRequestV2 := {
  device_sequence : Z;        (* u64 *)
  mutations : list MutationV2;
}.

Inductive RejectionReason :=
| VersionConflict (current_version : Z)   (* u64 *)
| StaleEpoch (vault_epoch : Z)            (* i64 *)
| Malformed.

Inductive MutationOutcome :=
| Applied (resulting_version server_sequence : Z)
| Rejected (reason : RejectionReason).

Record MutationResult := {
  res_mutation_id : Uuid;
  res_object_id : Uuid;
  res_outcome : MutationOutcome;
}.

Record PushResponseV2 := {
  server_cursor : Z;
  results : list MutationResult;
}.

Record PullRequestV2 := {
  since : Z;                  (* i64 *)
  limit : option Z;           (* u32 *)
}.

Record MutationLogEntry := {
  log_server_sequence : Z;
  log_mutation : MutationV2;
}.

Record PullResponseV2 := {
  entries : list MutationLogEntry;
  cursor : Z;
  has_more : bool;
}.

#[global] Instance RejectionReason_eq_dec : EqDecision RejectionReason.
Proof. solve_decision. Defined.
#[global] Instance MutationOutcome_eq_dec : EqDecision MutationOutcome.
Proof. solve_decision. Defined.

Section SyncV2.
Context `{UuidText, Base64, SerdeJson RejectionReason}.

(** [validate_shape]. *)
Definition validate_shape (m : MutationV2) : result RelayError unit :=
  _ ← err_if (is_nil (vault_id m) || is_nil (object_id m) || is_nil (mutation_id m))
        (BadRequest "mutation ids must not be nil");
  _ ← err_if (negb (String.eqb (entry_type m) "credential" || String.eqb (entry_type m) "ssh_key"
                    || String.eqb (entry_type m) "totp_secret"))
        (BadRequest "Unknown entry_type");
  _ ← err_if (resulting_version m =? 0) (BadRequest "resulting_version must be at least 1");
  _ ← err_if ((resulting_version m <=? expected_version m)
              || (MAX_VERSION_STEP <? resulting_version m - expected_version m))
        (BadRequest "resulting_version must exceed expected_version by a sane step");
  _ ← err_if (key_epoch m <? 1) (BadRequest "key_epoch must be a positive epoch");
  _ ← ok_or (b64_decode (encrypted_payload m)) (BadRequest "Invalid payload");
  mac ← ok_or (b64_decode (metadata_mac m)) (BadRequest "Invalid metadata_mac");
  err_if (negb (Z.of_nat (length mac) =? 32))
    (BadRequest "metadata_mac must decode to exactly 32 bytes").

Definition reason_to_outcome (reason : RejectionReason) : MutationOutcome :=
  Rejected
    match reason with
    | VersionConflict current_version => VersionConflict current_version
    | StaleEpoch vault_epoch => StaleEpoch vault_epoch
    | Malformed => Malformed
    end.

(** The key of a [mutation_results] row. *)
Definition result_key_is (mid device vault : string) (r : ResultRow) : bool :=
  String.eqb (mr_mutation_id r) mid && String.eqb (mr_device_id r) device
  && String.eqb (mr_vault_id r) vault.

(** [record_result]: insert, or nothing when the key exists. *)
Definition record_result (vault device : string) (m : MutationV2) (outcome : MutationOutcome)
    (now : Z) : Tx unit :=
  let mid := uuid_to_string (mutation_id m) in
  let '(outcome_str, reason, resulting, seq) :=
    match outcome with
    | Applied rv seq => ("applied", None, Some (u64_as_i64 rv), Some seq)
    | Rejected reason => ("rejected", Some (to_json reason), None, None)
    end in
  let row := {|
    mr_mutation_id := mid; mr_vault_id := vault; mr_device_id := device;
    mr_object_id := uuid_to_string (object_id m); mr_outcome := outcome_str;
    mr_rejection_reason := reason; mr_resulting_version := resulting;
    mr_server_sequence := seq; mr_created_at := now |} in
  execute (fun db =>
    if existsb (result_key_is mid device vault) (mutation_results db) then db
    else {| db with mutation_results := mutation_results db ++ [row] |}).

Definition parse_rejection_reason (json : string) : option RejectionReason := from_json json.

(** The outcome a stored row replays. *)
Definition stored_outcome (r : ResultRow) : MutationOutcome :=
  if String.eqb (mr_outcome r) "applied" then
    Applied (i64_as_u64 (default 0 (mr_resulting_version r))) (default 0 (mr_server_sequence r))
  else
    Rejected (default Malformed (mr_rejection_reason r ≫= parse_rejection_reason)).

(** [SELECT ... FROM mutation_results WHERE mutation_id AND device_id AND vault_id]. *)
Definition stored_result (mid device vault : string) (db : DB) : option ResultRow :=
  find (result_key_is mid device vault) (mutation_results db).

Definition result_of (m : MutationV2) (o : MutationOutcome) : MutationResult :=
  {| res_mutation_id := mutation_id m; res_object_id := object_id m; res_outcome := o |}.

(** The [INSERT INTO sync_mutations_v2]: the primary key is
    [(vault_id, server_sequence)]. *)
Definition insert_mutation (row : MutationRow) : Tx unit :=
  taken ← query (fun db => existsb (fun r => String.eqb (mu_vault_id r) (mu_vault_id row)
                           && (mu_server_sequence r =? mu_server_sequence row)) (sync_mutations_v2 db));
  _ ← throw_if taken (Database "UNIQUE constraint failed: sync_mutations_v2");
  execute (fun db => {| db with sync_mutations_v2 := sync_mutations_v2 db ++ [row] |}).

(** The apply branch of the push loop: next server sequence, log row, object
    state, durable result. *)
Definition apply_mutation (vault device : string) (now : Z) (m : MutationV2) : Tx MutationResult :=
  let obj := uuid_to_string (object_id m) in
  let origin := uuid_to_string (origin_device_id m) in
  _ ← execute (fun db => {| db with sequence_counters := alter (fun s => s + 1) vault (sequence_counters db) |});
  server_seq ← query_row (fun db => sequence_counters db !! vault) (Database "no sequence counter");
  payload ← lift (ok_or (b64_decode (encrypted_payload m)) (BadRequest "Invalid payload"));
  _ ← insert_mutation {|
    mu_vault_id := vault; mu_server_sequence := server_seq;
    mu_mutation_id := uuid_to_string (mutation_id m); mu_object_id := obj;
    mu_entry_type := entry_type m;
    mu_expected_version := u64_as_i64 (expected_version m);
    mu_resulting_version := u64_as_i64 (resulting_version m);
    mu_key_epoch := key_epoch m; mu_origin_device_id := origin;
    mu_is_tombstone := is_tombstone m; mu_metadata_mac := metadata_mac m;
    mu_encrypted_payload := payload; mu_received_at := now |};
  _ ← execute (fun db => {| db with sync_entries_v2 := <[(vault, obj) := {|
    e2_entry_type := entry_type m; e2_current_version := u64_as_i64 (resulting_version m);
    e2_key_epoch := key_epoch m; e2_is_tombstone := is_tombstone m;
    e2_metadata_mac := metadata_mac m; e2_encrypted_payload := payload;
    e2_origin_device_id := origin; e2_server_sequence := server_seq;
    e2_received_at := now |}]> (sync_entries_v2 db) |});
  let outcome := Applied (resulting_version m) server_seq in
  _ ← record_result vault device m outcome now;
  mret (result_of m outcome).

(** One iteration of the push loop; the loop carries [vault_epoch] and
    [epoch_changed]. *)
Definition push_one (vault : string) (device_id : Uuid) (now : Z) (m : MutationV2)
    (st : Z * bool) : Tx (MutationResult * (Z * bool)) :=
  let device := uuid_to_string device_id in
  let (vault_epoch, epoch_changed) := st in
  _ ← lift (validate_shape m);
  _ ← throw_if (negb (String.eqb (uuid_to_string (vault_id m)) vault))
        (BadRequest "mutation vault_id must match the authenticated device's vault");
  _ ← throw_if (negb (bool_decide (origin_device_id m = device_id)))
        (BadRequest "origin_device_id must match authenticated device");
  stored ← query (stored_result (uuid_to_string (mutation_id m)) device vault);
  match stored with
  | Some r => mret (result_of m (stored_outcome r), st)
  | None =>
    if key_epoch m <? vault_epoch then
      let o := reason_to_outcome (StaleEpoch vault_epoch) in
      _ ← record_result vault device m o now;
      mret (result_of m o, st)
    else
      st ← (if vault_epoch <? key_epoch m then
              _ ← throw_if (MAX_EPOCH_JUMP <? key_epoch m - vault_epoch)
                    (BadRequest "key_epoch advance exceeds the maximum jump");
              mret (key_epoch m, true)
            else mret (vault_epoch, epoch_changed));
      current ← query (fun db => e2_current_version <$>
                         sync_entries_v2 db !! (vault, uuid_to_string (object_id m)));
      let applies := match current with
                     | None => expected_version m =? 0
                     | Some v => i64_as_u64 v =? expected_version m
                     end in
      if negb applies then
        let o := reason_to_outcome (VersionConflict (i64_as_u64 (default 0 current))) in
        _ ← record_result vault device m o now;
        mret (result_of m o, st)
      else
        r ← apply_mutation vault device now m;
        mret (r, st)
  end.

Fixpoint push_loop (vault : string) (device_id : Uuid) (now : Z) (ms : list MutationV2)
    (st : Z * bool) : Tx (list MutationResult * (Z * bool)) :=
  match ms with
  | [] => mret ([], st)
  | m :: ms =>
    '(r, st) ← push_one vault device_id now m st;
    '(rs, st) ← push_loop vault device_id now ms st;
    mret (r :: rs, st)
  end.

(** [vault_epoch]: the stored high-water, 0 when the vault has none. *)
Definition stored_epoch (vault : string) (db : DB) : Z :=
  default 0 (ve_key_epoch <$> vault_epochs db !! vault).

(** The statements of [push_v2] before the commit. *)
Definition push_body (device_id : option Uuid) (now : Z) (req : PushRequestV2) : Tx PushResponseV2 :=
  device_id ← lift (ok_or device_id (Auth "No device ID"));
  _ ← throw_if (MAX_MUTATIONS_PER_PUSH <? Z.of_nat (length (mutations req)))
        (BadRequest "Too many mutations per push");
  let device := uuid_to_string device_id in
  vault ← query_row (device_vault device) (NotFound "Device not found");
  vault_epoch ← query (stored_epoch vault);
  '(rs, (vault_epoch, epoch_changed)) ← push_loop vault device_id now (mutations req) (vault_epoch, false);
  _ ← (if epoch_changed : bool then
         execute (fun db => {| db with vault_epochs :=
           <[vault := {| ve_key_epoch := vault_epoch; ve_updated_at := now |}]> (vault_epochs db) |})
       else mret tt);
  _ ← execute (fun db => {| db with device_sequences :=
        <[device := match device_sequences db !! device with
                    | Some last => Z.max last (u64_as_i64 (device_sequence req))
                    | None => u64_as_i64 (device_sequence req)
                    end]> (device_sequences db) |});
  server_cursor ← query_row (fun db => sequence_counters db !! vault) (Database "no sequence counter");
  mret {| server_cursor := server_cursor; results := rs |}.

(** [push_v2]. *)
Definition push_v2 (device_id : option Uuid) (now : Z) (req : PushRequestV2) (db : DB)
    : result RelayError PushResponseV2 * DB :=
  run_tx (resp ← push_body device_id now req; _ ← commit; mret resp) db.

(** ** Pull *)

Definition seq_le (a b : MutationRow) : Prop := mu_server_sequence a <= mu_server_sequence b.
#[global] Instance seq_le_dec : RelDecision seq_le.
Proof. intros a b. unfold seq_le. apply _. Defined.

(** The [SELECT ... ORDER BY server_sequence ASC LIMIT ?3]. *)
Definition select_log (vault : string) (since lim : Z) (db : DB) : list MutationRow :=
  take (Z.to_nat lim) (merge_sort seq_le
    (filter (fun r => mu_vault_id r = vault /\ since < mu_server_sequence r) (sync_mutations_v2 db))).

(** A row of the page; the three ids are parsed back from text. *)
Definition log_entry_of_row (vault : string) (r : MutationRow) : result RelayError MutationLogEntry :=
  mid ← ok_or (uuid_parse_str (mu_mutation_id r)) (Database "invalid mutation_id");
  vid ← ok_or (uuid_parse_str vault) (Database "invalid vault_id");
  oid ← ok_or (uuid_parse_str (mu_object_id r)) (Database "invalid object_id");
  origin ← ok_or (uuid_parse_str (mu_origin_device_id r)) (Database "invalid origin_device_id");
  Ok {| log_server_sequence := mu_server_sequence r;
        log_mutation := {|
          mutation_id := mid; vault_id := vid; object_id := oid;
          entry_type := mu_entry_type r;
          expected_version := i64_as_u64 (mu_expected_version r);
          resulting_version := i64_as_u64 (mu_resulting_version r);
          key_epoch := mu_key_epoch r; origin_device_id := origin;
          is_tombstone := mu_is_tombstone r;
          encrypted_payload := b64_encode (mu_encrypted_payload r);
          metadata_mac := mu_metadata_mac r |} |}.

(** The loop over the rows: stop with [has_more] at row [limit + 1]. *)
Fixpoint page (vault : string) (lim : Z) (rows : list MutationRow) (acc : list MutationLogEntry)
    : result RelayError (list MutationLogEntry * bool) :=
  match rows with
  | [] => Ok (acc, false)
  | r :: rows =>
    if Z.of_nat (length acc) =? lim then Ok (acc, true)
    else e ← log_entry_of_row vault r; page vault lim rows (acc ++ [e])
  end.

Definition page_limit (req : PullRequestV2) : Z := Z.min 2000 (Z.max 1 (default 500 (limit req))).

(** [pull_v2]: it only reads. *)
Definition pull_v2 (device_id : option Uuid) (req : PullRequestV2) (db : DB)
    : result RelayError PullResponseV2 :=
  device_id ← ok_or device_id (Auth "No device ID");
  vault ← ok_or (device_vault (uuid_to_string device_id) db) (NotFound "Device not found");
  let lim := page_limit req in
  '(es, more) ← page vault lim (select_log vault (since req) (lim + 1) db) [];
  Ok {| entries := es;
        cursor := default (since req) (log_server_sequence <$> last es);
        has_more := more |}.

End SyncV2.

#[global] Arguments record_result : simpl never.

(** ** A small concrete deployment

    Two devices of one vault and a few mutations, over the concrete instances of
    [ThirdParty.Concrete]; the witnesses of the relay theorems evaluate the
    handlers on it. *)

Module RelayDemo.
Export Concrete.

(** Rejection reasons as a tag and a decimal number. *)
Definition int_text (z : Z) : string := NilEmpty.string_of_int (Z.to_int z).
Definition int_parse (s : string) : option Z := Z.of_int <$> NilEmpty.int_of_string s.

Lemma int_parse_text z : int_parse (int_text z) = Some z.
Proof. unfold int_parse, int_text. rewrite NilEmpty.isi. cbn. by rewrite DecimalZ.of_to. Qed.

#[export] Instance rejection_json : SerdeJson RejectionReason := {|
  to_json r := match r with
    | VersionConflict v => String "c"%char (int_text v)
    | StaleEpoch e => String "e"%char (int_text e)
    | Malformed => "m"%string
    end;
  from_json s := match s with
    | String c s =>
      if Ascii.eqb c "c"%char then VersionConflict <$> int_parse s
      else if Ascii.eqb c "e"%char then StaleEpoch <$> int_parse s
      else if Ascii.eqb c "m"%char then Some Malformed else None
    | EmptyString => None
    end |}.

#[export] Instance rejection_json_laws : SerdeJsonLaws RejectionReason.
Proof. intros [v|e|]; cbn; by rewrite ?int_parse_text. Qed.

Definition demo_vault : Uuid := from_u128 11.
Definition demo_device1 : Uuid := from_u128 21.
Definition demo_device2 : Uuid := from_u128 22.
Definition demo_object : Uuid := from_u128 31.
Definition demo_key : bytes := repeat Byte.x07 32.

Definition demo_device_row : DeviceRow := {|
  d_vault_id := uuid_to_string demo_vault; d_device_name := "laptop"; d_device_type := "desktop";
  d_public_key := demo_key; d_registered_at := 1; d_revoked := false; d_revoked_at := None |}.

(** A vault with two registered devices and nothing synced. *)
Definition demo_db : DB := {| empty_db with
  vaults := {[uuid_to_string demo_vault := {| v_created_at := 1; v_entry_count := 0 |}]};
  devices := <[uuid_to_string demo_device1 := demo_device_row]>
             {[uuid_to_string demo_device2 := demo_device_row]};
  sequence_counters := {[uuid_to_string demo_vault := 0]};
  device_sequences := <[uuid_to_string demo_device1 := 0]> {[uuid_to_string demo_device2 := 0]} |}.

Definition demo_mutation (mid : N) (device : Uuid) (expected resulting : Z) : MutationV2 := {|
  mutation_id := from_u128 mid; vault_id := demo_vault; object_id := demo_object;
  entry_type := "credential"; expected_version := expected; resulting_version := resulting;
  key_epoch := 1; origin_device_id := device; is_tombstone := false;
  encrypted_payload := "AAEC"; metadata_mac := b64_encode (repeat Byte.x2a 32) |}.

Definition demo_push1 : PushRequestV2 :=
  {| device_sequence := 1; mutations := [demo_mutation 41 demo_device1 0 1] |}.
Definition demo_push2 : PushRequestV2 :=
  {| device_sequence := 1; mutations := [demo_mutation 42 demo_device2 0 1] |}.

(** The state after the first device pushed. *)
Definition demo_db1 : DB := (push_v2 (Some demo_device1) 100 demo_push1 demo_db).2.

(** Discharge a concrete hypothesis by evaluation. *)
Ltac demo := vm_compute; first [reflexivity | done | intuition discriminate].
End RelayDemo.
