(* ===== verification/RelayV2Log.v ===== *)
(** * Relay: the v2 mutation log and its invariants

    The effect of one iteration of the push loop as a relation on databases,
    with a constructor per branch of the code, and the invariant of the log
    every branch preserves: sequences increase, every object's rows form a
    version chain from 0, the object table is the last row of the chain and
    epochs never go back. *)

From S2P Require Import Prelude ThirdParty RelayStorage RelaySyncV2.
From Stdlib Require Import ZArith Lia.
From stdpp Require Import base list option strings numbers gmap sorting.
Open Scope Z_scope.

(** ** Views of the log *)

Definition vault_log (v : string) (db : DB) : list MutationRow :=
  filter (fun r => mu_vault_id r = v) (sync_mutations_v2 db).

Definition object_log (v o : string) (db : DB) : list MutationRow :=
  filter (fun r => mu_object_id r = o) (vault_log v db).

(** Each row starts from the version the one before it produced. *)
Fixpoint version_chain (prev : Z) (rows : list MutationRow) : Prop :=
  match rows with
  | [] => True
  | r :: rows =>
    i64_as_u64 (mu_expected_version r) = prev /\
    prev < i64_as_u64 (mu_resulting_version r) /\
    version_chain (i64_as_u64 (mu_resulting_version r)) rows
  end.

(** The version an object has after its rows. *)
Definition head_version (rows : list MutationRow) : Z :=
  default 0 ((fun r => i64_as_u64 (mu_resulting_version r)) <$> last rows).

(** The object state a log row leaves. *)
Definition entry_of_row (r : MutationRow) : EntryV2Row := {|
  e2_entry_type := mu_entry_type r;
  e2_current_version := mu_resulting_version r;
  e2_key_epoch := mu_key_epoch r;
  e2_is_tombstone := mu_is_tombstone r;
  e2_metadata_mac := mu_metadata_mac r;
  e2_encrypted_payload := mu_encrypted_payload r;
  e2_origin_device_id := mu_origin_device_id r;
  e2_server_sequence := mu_server_sequence r;
  e2_received_at := mu_received_at r;
|}.

Section Effects.
Context `{UuidText, Base64, SerdeJson RejectionReason}.

(** ** The effect of one push iteration *)

Definition result_row (vault device : string) (m : MutationV2) (o : MutationOutcome) (now : Z)
    : ResultRow := {|
  mr_mutation_id := uuid_to_string (mutation_id m);
  mr_vault_id := vault; mr_device_id := device;
  mr_object_id := uuid_to_string (object_id m);
  mr_outcome := match o with Applied _ _ => "applied" | Rejected _ => "rejected" end;
  mr_rejection_reason := match o with Applied _ _ => None | Rejected r => Some (to_json r) end;
  mr_resulting_version := match o with Applied rv _ => Some (u64_as_i64 rv) | Rejected _ => None end;
  mr_server_sequence := match o with Applied _ s => Some s | Rejected _ => None end;
  mr_created_at := now |}.

Definition with_result (row : ResultRow) (db : DB) : DB :=
  {| db with mutation_results := mutation_results db ++ [row] |}.

Definition log_row (vault : string) (m : MutationV2) (payload : bytes) (seq now : Z) : MutationRow := {|
  mu_vault_id := vault; mu_server_sequence := seq;
  mu_mutation_id := uuid_to_string (mutation_id m);
  mu_object_id := uuid_to_string (object_id m);
  mu_entry_type := entry_type m;
  mu_expected_version := u64_as_i64 (expected_version m);
  mu_resulting_version := u64_as_i64 (resulting_version m);
  mu_key_epoch := key_epoch m;
  mu_origin_device_id := uuid_to_string (origin_device_id m);
  mu_is_tombstone := is_tombstone m; mu_metadata_mac := metadata_mac m;
  mu_encrypted_payload := payload; mu_received_at := now |}.

Definition with_applied (vault : string) (row : MutationRow) (seq : Z) (db : DB) : DB :=
  {| db with
     sequence_counters := <[vault := seq]> (sequence_counters db);
     sync_mutations_v2 := sync_mutations_v2 db ++ [row];
     sync_entries_v2 := <[(vault, mu_object_id row) := entry_of_row row]> (sync_entries_v2 db) |}.

(** The version the object table holds for the mutation's object. *)
Definition current_version (vault : string) (m : MutationV2) (db : DB) : option Z :=
  e2_current_version <$> sync_entries_v2 db !! (vault, uuid_to_string (object_id m)).

Definition cas_holds (vault : string) (m : MutationV2) (db : DB) : Prop :=
  match current_version vault m db with
  | None => expected_version m = 0
  | Some v => i64_as_u64 v = expected_version m
  end.

Inductive push_effect (vault device : string) (now : Z) (m : MutationV2) (ep : Z) (ch : bool) (db : DB)
    : MutationOutcome -> Z * bool -> DB -> Prop :=
| effect_replay r :
    stored_result (uuid_to_string (mutation_id m)) device vault db = Some r ->
    push_effect vault device now m ep ch db (stored_outcome r) (ep, ch) db
| effect_stale :
    stored_result (uuid_to_string (mutation_id m)) device vault db = None ->
    key_epoch m < ep ->
    let o := Rejected (StaleEpoch ep) in
    push_effect vault device now m ep ch db o (ep, ch)
      (with_result (result_row vault device m o now) db)
| effect_conflict :
    stored_result (uuid_to_string (mutation_id m)) device vault db = None ->
    ep <= key_epoch m <= ep + MAX_EPOCH_JUMP ->
    ~ cas_holds vault m db ->
    let o := Rejected (VersionConflict (i64_as_u64 (default 0 (current_version vault m db)))) in
    push_effect vault device now m ep ch db o (key_epoch m, (ep <? key_epoch m) || ch)
      (with_result (result_row vault device m o now) db)
| effect_apply seq payload :
    stored_result (uuid_to_string (mutation_id m)) device vault db = None ->
    ep <= key_epoch m <= ep + MAX_EPOCH_JUMP ->
    cas_holds vault m db ->
    sequence_counters db !! vault = Some seq ->
    b64_decode (encrypted_payload m) = Some payload ->
    Forall (fun r => ~ (mu_vault_id r = vault /\ mu_server_sequence r = seq + 1)) (sync_mutations_v2 db) ->
    let o := Applied (resulting_version m) (seq + 1) in
    push_effect vault device now m ep ch db o (key_epoch m, (ep <? key_epoch m) || ch)
      (with_result (result_row vault device m o now)
         (with_applied vault (log_row vault m payload (seq + 1) now) (seq + 1) db)).

(** What [validate_shape] and the two identity checks establish. *)
Record push_accepts (vault : string) (device_id : Uuid) (m : MutationV2) : Prop := {
  pa_shape : validate_shape m = Ok tt;
  pa_vault : uuid_to_string (vault_id m) = vault;
  pa_origin : origin_device_id m = device_id;
}.

Lemma validate_shape_facts m :
  validate_shape m = Ok tt ->
  is_nil (vault_id m) = false /\ is_nil (object_id m) = false /\ is_nil (mutation_id m) = false /\
  entry_type m ∈ ["credential"; "ssh_key"; "totp_secret"] /\
  expected_version m < resulting_version m <= expected_version m + MAX_VERSION_STEP /\
  1 <= key_epoch m /\
  is_Some (b64_decode (encrypted_payload m)) /\
  exists mac, b64_decode (metadata_mac m) = Some mac /\ length mac = 32%nat.
Proof.
  unfold validate_shape. intros Hv. result_inv. propify.
  repeat match goal with H : context [String.eqb] |- _ => revert H end.
  rewrite !orb_true_iff, !String.eqb_eq. intros He.
  split_and!; try done; try lia.
  - destruct He as [[He|He]|He]; rewrite He; set_solver.
  - eexists; split; [done|lia].
Qed.

Lemma stored_None_existsb mid device vault db :
  stored_result mid device vault db = None ->
  existsb (result_key_is mid device vault) (mutation_results db) = false.
Proof.
  unfold stored_result. induction (mutation_results db) as [|r l IH]; simpl; [done|].
  destruct (result_key_is _ _ _ r); simpl; [done|auto].
Qed.

Lemma record_result_ok vault device m o now c u c' :
  stored_result (uuid_to_string (mutation_id m)) device vault (working c) = None ->
  record_result vault device m o now c = (Ok u, c') ->
  c' = {| committed := committed c; working := with_result (result_row vault device m o now) (working c) |}.
Proof.
  intros Hs%stored_None_existsb. unfold record_result.
  destruct o; intros Hr; tx_inv; rewrite Hs; reflexivity.
Qed.

Lemma apply_mutation_ok vault device now m c r c' :
  stored_result (uuid_to_string (mutation_id m)) device vault (working c) = None ->
  apply_mutation vault device now m c = (Ok r, c') ->
  exists seq payload,
    sequence_counters (working c) !! vault = Some seq /\
    b64_decode (encrypted_payload m) = Some payload /\
    Forall (fun r => ~ (mu_vault_id r = vault /\ mu_server_sequence r = seq + 1))
      (sync_mutations_v2 (working c)) /\
    r = result_of m (Applied (resulting_version m) (seq + 1)) /\
    c' = {| committed := committed c; working :=
      with_result (result_row vault device m (Applied (resulting_version m) (seq + 1)) now)
        (with_applied vault (log_row vault m payload (seq + 1) now) (seq + 1) (working c)) |}.
Proof.
  intros Hs Ha. unfold apply_mutation, insert_mutation in Ha. tx_inv.
  simpl in *. rewrite lookup_alter_eq in *.
  destruct (sequence_counters (working c) !! vault) as [seq|] eqn:Eseq; simplify_eq/=.
  result_inv. exists seq; eexists; split_and!; try done.
  - apply Forall_forall. intros row Hrow [Hv Hsq].
    match goal with H : existsb _ _ = false |- _ =>
      rewrite <- not_true_iff_false, existsb_exists in H; apply H end.
    exists row. split; [by apply list_elem_of_In|].
    rewrite Hv, String.eqb_refl. simpl. lia.
  - match goal with H : record_result _ _ _ _ _ _ = _ |- _ => apply record_result_ok in H as -> end; [|done].
    simpl. do 2 f_equal. unfold with_applied. simpl. f_equal.
    apply map_eq. intros k. destruct (decide (k = vault)) as [->|].
    + by rewrite lookup_alter_eq, lookup_insert_eq, Eseq.
    + by rewrite lookup_alter_ne, lookup_insert_ne.
Qed.

(** Every successful iteration is one of the four branches. *)
Lemma push_one_ok vault device_id now m ep ch c r st c' :
  push_one vault device_id now m (ep, ch) c = (Ok (r, st), c') ->
  push_accepts vault device_id m /\
  committed c' = committed c /\
  exists o, r = result_of m o /\
    push_effect vault (uuid_to_string device_id) now m ep ch (working c) o st (working c').
Proof.
  unfold push_one. intros Hp. tx_inv.
  match goal with H : validate_shape m = Ok ?u |- _ => destruct u end.
  propify. match goal with H : String.eqb _ _ = true |- _ => apply String.eqb_eq in H end.
  split; [by constructor|].
  destruct (stored_result _ _ _ (working c)) as [row|] eqn:Es.
  { tx_inv. split; [done|]. eexists; split; [done|]. by apply effect_replay. }
  destruct (key_epoch m <? ep) eqn:Eep; propify.
  { tx_inv. match goal with H : record_result _ _ _ _ _ _ = _ |- _ => apply record_result_ok in H as -> end; [|done].
    split; [done|]. eexists; split; [done|]. by apply effect_stale. }
  apply bind_ok in Hp as (st1 & c1 & Hst & Hp).
  assert (c1 = c /\ st1 = (key_epoch m, (ep <? key_epoch m) || ch) /\
          ep <= key_epoch m <= ep + MAX_EPOCH_JUMP) as (-> & -> & Hep).
  { destruct (ep <? key_epoch m) eqn:E; tx_inv; propify; [split_and!; try done; lia|].
    assert (ep = key_epoch m) as -> by lia. unfold MAX_EPOCH_JUMP. split_and!; done || lia. }
  tx_inv. cbv zeta in Hp.
  match type of Hp with context [negb ?a] => destruct a eqn:Ea end; simpl in Hp; tx_inv.
  - match goal with H : apply_mutation _ _ _ _ _ = _ |- _ =>
      apply apply_mutation_ok in H as (seq & payload & ? & ? & ? & -> & ->) end; [|done].
    split; [done|]. eexists; split; [done|]. apply effect_apply; try done.
    unfold cas_holds, current_version. case_goal; simplify_eq/=; propify; done.
  - match goal with H : record_result _ _ _ _ _ _ = _ |- _ => apply record_result_ok in H as -> end; [|done].
    split; [done|]. eexists; split; [done|]. apply effect_conflict; try done.
    unfold cas_holds, current_version. case_goal; simplify_eq/=; propify; done.
Qed.

(** ** The invariant *)

(** The fields of a mutation are values of their Rust types. *)
Record mutation_wf (m : MutationV2) : Prop := {
  wf_expected : in_u64 (expected_version m);
  wf_resulting : in_u64 (resulting_version m);
  wf_epoch : in_i64 (key_epoch m);
}.

(** A log row records an accepted mutation. *)
Definition row_ok (r : MutationRow) : Prop :=
  exists m payload,
    mutation_wf m /\ validate_shape m = Ok tt /\
    b64_decode (encrypted_payload m) = Some payload /\
    r = log_row (uuid_to_string (vault_id m)) m payload (mu_server_sequence r) (mu_received_at r).

Record log_inv (db : DB) : Prop := {
  li_counter : forall v s, sequence_counters db !! v = Some s -> 0 <= s;
  li_bound : forall r, r ∈ sync_mutations_v2 db ->
    exists s, sequence_counters db !! mu_vault_id r = Some s /\ 0 < mu_server_sequence r <= s;
  li_rows : forall r, r ∈ sync_mutations_v2 db -> row_ok r;
  li_sorted : forall v, StronglySorted Z.lt (mu_server_sequence <$> vault_log v db);
  li_chain : forall v o, version_chain 0 (object_log v o db);
  li_entry : forall v o, sync_entries_v2 db !! (v, o) = entry_of_row <$> last (object_log v o db);
}.

(** Epochs along a vault's log never decrease and stay under the high-water. *)
Definition epoch_inv (v : string) (e : Z) (db : DB) : Prop :=
  StronglySorted Z.le (mu_key_epoch <$> vault_log v db) /\
  Forall (fun r => mu_key_epoch r <= e) (vault_log v db).

Lemma version_chain_snoc prev rows r :
  version_chain prev rows ->
  i64_as_u64 (mu_expected_version r) =
    default prev ((fun r => i64_as_u64 (mu_resulting_version r)) <$> last rows) ->
  i64_as_u64 (mu_expected_version r) < i64_as_u64 (mu_resulting_version r) ->
  version_chain prev (rows ++ [r]).
Proof.
  revert prev. induction rows as [|x rows IH]; intros prev; simpl.
  - intros _ -> ?. auto.
  - fold (last (x :: rows)). intros (? & ? & Hc) He Hl. split_and!; try done. apply IH; try done.
    rewrite last_cons in He. by destruct (last rows).
Qed.

(** Along a chain every row starts at or above the chain's start and below
    the version it produces. *)
Lemma version_chain_lower prev rows r :
  version_chain prev rows -> r ∈ rows ->
  prev <= i64_as_u64 (mu_expected_version r) < i64_as_u64 (mu_resulting_version r).
Proof.
  revert prev. induction rows as [|x rows IH]; intros prev; [set_solver|].
  intros (? & ? & Hc) [->|Hr]%elem_of_cons; [lia|].
  specialize (IH _ Hc Hr). lia.
Qed.

(** ... and ends at or below the version the object has now. *)
Lemma version_chain_upper prev rows r :
  version_chain prev rows -> r ∈ rows ->
  i64_as_u64 (mu_resulting_version r) <= head_version rows.
Proof.
  unfold head_version. revert prev r. induction rows as [|x rows IH]; intros prev r; [set_solver|].
  intros (? & ? & Hc) Hr. destruct rows as [|y rows].
  - apply list_elem_of_singleton in Hr as ->. simpl. lia.
  - change (last (x :: y :: rows)) with (last (y :: rows)).
    apply elem_of_cons in Hr as [Hr|Hr]; [subst r|by eapply IH].
    assert (y ∈ y :: rows) as Hy by apply list_elem_of_here.
    pose proof (IH _ _ Hc Hy). pose proof (version_chain_lower _ _ _ Hc Hy). lia.
Qed.

Lemma vault_log_applied v vault row seq db :
  mu_vault_id row = vault ->
  vault_log v (with_applied vault row seq db) =
    if decide (v = vault) then vault_log v db ++ [row] else vault_log v db.
Proof.
  intros Hrow. unfold vault_log. simpl. rewrite filter_app, filter_cons, filter_nil.
  repeat case_decide; try congruence. by rewrite app_nil_r.
Qed.

Lemma object_log_applied v o vault row seq db :
  mu_vault_id row = vault ->
  object_log v o (with_applied vault row seq db) =
    if decide (v = vault /\ o = mu_object_id row) then object_log v o db ++ [row] else object_log v o db.
Proof.
  intros Hrow. unfold object_log. rewrite vault_log_applied by done.
  repeat case_decide; try naive_solver; rewrite filter_app, filter_cons, filter_nil;
    case_decide; try naive_solver. by rewrite app_nil_r.
Qed.

Lemma log_inv_with_result row db : log_inv db -> log_inv (with_result row db).
Proof. by intros []; constructor. Qed.

Lemma epoch_inv_mono v e e' db : epoch_inv v e db -> e <= e' -> epoch_inv v e' db.
Proof.
  intros [? Hf] He. split; [done|]. eapply Forall_impl; [exact Hf|]. simpl. lia.
Qed.

Lemma in_vault_log r v db :
  r ∈ vault_log v db <-> mu_vault_id r = v /\ r ∈ sync_mutations_v2 db.
Proof. unfold vault_log. by rewrite list_elem_of_filter. Qed.

Lemma in_object_log r v o db :
  r ∈ object_log v o db <-> mu_object_id r = o /\ mu_vault_id r = v /\ r ∈ sync_mutations_v2 db.
Proof. unfold object_log. by rewrite list_elem_of_filter, in_vault_log. Qed.

(** The compare-and-swap guard reads the head of the object's chain. *)
Lemma cas_holds_head vault m db :
  log_inv db ->
  cas_holds vault m db <->
  expected_version m = head_version (object_log vault (uuid_to_string (object_id m)) db).
Proof.
  intros Hi. unfold cas_holds, current_version, head_version. rewrite (li_entry _ Hi).
  destruct (last _); simpl; naive_solver.
Qed.

Lemma log_inv_applied vault m payload seq now db :
  log_inv db -> mutation_wf m -> validate_shape m = Ok tt ->
  uuid_to_string (vault_id m) = vault ->
  cas_holds vault m db -> sequence_counters db !! vault = Some seq ->
  b64_decode (encrypted_payload m) = Some payload ->
  log_inv (with_applied vault (log_row vault m payload (seq + 1) now) (seq + 1) db).
Proof.
  intros Hi Hwf Hshape Hv Hcas%cas_holds_head Hseq Hpay; [|done].
  pose proof (li_counter _ Hi _ _ Hseq) as Hseq0.
  pose proof (validate_shape_facts _ Hshape) as (_ & _ & _ & _ & Hver & _).
  assert (forall r, r ∈ sync_mutations_v2 db -> mu_vault_id r = vault -> mu_server_sequence r <= seq) as Hle.
  { intros r Hr Hrv. destruct (li_bound _ Hi _ Hr) as (s & Hs & ?). rewrite Hrv in Hs. simplify_eq. lia. }
  constructor.
  - intros v s. simpl. rewrite lookup_insert. case_decide; [intros [= <-]; lia|apply (li_counter _ Hi)].
  - intros r. simpl. rewrite elem_of_app, list_elem_of_singleton. intros [Hr| ->].
    + destruct (li_bound _ Hi _ Hr) as (s & Hs & ?). rewrite lookup_insert. case_decide; subst.
      * eexists; split; [done|]. specialize (Hle _ Hr ltac:(congruence)). lia.
      * eauto.
    + rewrite lookup_insert_eq. eexists; split; [done|]. simpl. lia.
  - intros r. simpl. rewrite elem_of_app, list_elem_of_singleton. intros [Hr| ->].
    + by apply (li_rows _ Hi).
    + exists m, payload. subst vault. done.
  - intros v. rewrite vault_log_applied by done. case_decide; [subst v|apply (li_sorted _ Hi)].
    rewrite fmap_app. apply StronglySorted_snoc; [apply (li_sorted _ Hi)|].
    apply Forall_fmap, Forall_forall. intros r [? Hr]%in_vault_log. simpl.
    specialize (Hle _ Hr ltac:(congruence)). lia.
  - intros v o. rewrite object_log_applied by done. case_decide as Hd; [|apply (li_chain _ Hi)].
    destruct Hd as [-> ->]. apply version_chain_snoc; [apply (li_chain _ Hi)|..]; simpl;
      rewrite !u64_as_i64_as_u64 by apply Hwf; [exact Hcas|lia].
  - intros v o. rewrite object_log_applied by done. simpl. rewrite lookup_insert.
    repeat case_decide; simplify_eq/=; try naive_solver.
    + by rewrite last_snoc.
    + apply (li_entry _ Hi).
Qed.

Lemma epoch_inv_applied v vault row seq e db :
  epoch_inv v e db -> mu_vault_id row = vault -> e <= mu_key_epoch row -> v = vault ->
  epoch_inv v (mu_key_epoch row) (with_applied vault row seq db).
Proof.
  intros [Hs Hf] Hrow He ->. unfold epoch_inv. rewrite vault_log_applied, decide_True by done.
  rewrite fmap_app. split.
  - apply StronglySorted_snoc; [done|]. apply Forall_fmap.
    eapply Forall_impl; [exact Hf|]. simpl. lia.
  - apply Forall_app. split; [|by constructor]. eapply Forall_impl; [exact Hf|]. simpl. lia.
Qed.

(** What a push iteration leaves alone. *)
Record same_frame (vault : string) (db db' : DB) : Prop := {
  sf_devices : devices db' = devices db;
  sf_vaults : vaults db' = vaults db;
  sf_epochs : vault_epochs db' = vault_epochs db;
  sf_counters : forall v, v <> vault -> sequence_counters db' !! v = sequence_counters db !! v;
  sf_log : forall v, v <> vault -> vault_log v db' = vault_log v db;
}.

(** Every branch preserves the invariant, moves the epoch forward and stays
    inside its vault. *)
Lemma push_effect_inv vault device_id now m ep ch db o st db' :
  push_effect vault (uuid_to_string device_id) now m ep ch db o st db' ->
  push_accepts vault device_id m -> mutation_wf m ->
  log_inv db -> epoch_inv vault ep db ->
  log_inv db' /\ epoch_inv vault st.1 db' /\ ep <= st.1 /\ same_frame vault db db'.
Proof.
  intros Heff [Hsh Hv Hor] Hwf Hi He.
  destruct Heff as [r Hr|Hr Hlt o|Hr Hep Hc o|seq payload Hr Hep Hc Hseq Hpay Hfresh o]; simpl.
  - split_and!; [done..|lia|by constructor].
  - split_and!; [by apply log_inv_with_result|done|lia|by constructor].
  - split_and!; [by apply log_inv_with_result| |lia|by constructor].
    change (epoch_inv vault (key_epoch m) db). eapply epoch_inv_mono; [done|lia].
  - split_and!; [|exact (epoch_inv_applied vault vault (log_row vault m payload (seq + 1) now) _ ep db He eq_refl ltac:(simpl; lia) eq_refl)|lia|].
    + apply log_inv_with_result. by apply log_inv_applied.
    + constructor; try done; simpl.
      * intros v Hne. by rewrite lookup_insert_ne.
      * intros v Hne. pose proof (vault_log_applied v vault (log_row vault m payload (seq + 1) now)
          (seq + 1) db eq_refl) as Hl. by rewrite decide_False in Hl.
Qed.

(** The invariant of a database without v2 history. *)
Lemma log_inv_no_history db :
  sync_mutations_v2 db = [] -> sync_entries_v2 db = ∅ ->
  (forall v s, sequence_counters db !! v = Some s -> 0 <= s) -> log_inv db.
Proof.
  intros Hl He Hc.
  assert (forall v, vault_log v db = []) as Hv by (intros; unfold vault_log; by rewrite Hl).
  assert (forall v o, object_log v o db = []) as Ho by (intros; unfold object_log; by rewrite Hv).
  constructor; try done; intros; rewrite ?Hl, ?Hv, ?Ho, ?He in *; try set_solver; constructor.
Qed.

End Effects.
