(* ===== verification/RelayV2Push.v ===== *)
(** * Relay: correctness of the v2 push

    Lifts the per-iteration effects of [RelayV2Log] to whole requests:
    atomicity, one result per mutation, the exact outcome of every branch,
    lost-update freedom and idempotent retries. *)

From S2P Require Import Prelude ThirdParty RelayStorage RelaySyncV2 RelayV2Log.
From Stdlib Require Import ZArith Lia.
From stdpp Require Import base list option strings numbers gmap sorting.
Import RelayDemo.
Open Scope Z_scope.

Section Push.
Context `{UuidText, Base64, SerdeJson RejectionReason}.

Implicit Types (db : DB) (m : MutationV2).

(** ** The loop *)

Inductive push_effects (vault : string) (device_id : Uuid) (now : Z)
    : list MutationV2 -> Z * bool -> DB -> list MutationResult -> Z * bool -> DB -> Prop :=
| effects_nil st db : push_effects vault device_id now [] st db [] st db
| effects_cons m ms ep ch db o st db1 rs st' db' :
    push_accepts vault device_id m ->
    push_effect vault (uuid_to_string device_id) now m ep ch db o st db1 ->
    push_effects vault device_id now ms st db1 rs st' db' ->
    push_effects vault device_id now (m :: ms) (ep, ch) db (result_of m o :: rs) st' db'.

Lemma record_result_run vault device m o now c :
  stored_result (uuid_to_string (mutation_id m)) device vault (working c) = None ->
  record_result vault device m o now c =
    (Ok tt, {| committed := committed c; working := with_result (result_row vault device m o now) (working c) |}).
Proof.
  intros Hs%stored_None_existsb. unfold record_result.
  destruct o; unfold execute; by rewrite Hs.
Qed.

(** The converse of [push_one_ok]: an accepted mutation takes its branch. *)
Lemma push_one_run vault device_id now m ep ch c o st db' :
  push_accepts vault device_id m ->
  push_effect vault (uuid_to_string device_id) now m ep ch (working c) o st db' ->
  push_one vault device_id now m (ep, ch) c =
    (Ok (result_of m o, st), {| committed := committed c; working := db' |}).
Proof.
  intros [Hsh Hv Ho] Heff. destruct c as [cc cw]. unfold push_one. simpl in Heff.
  unfold mbind at 1, Tx_bind at 1, lift. rewrite Hsh.
  unfold mbind at 1, Tx_bind at 1, throw_if, lift. rewrite Hv, String.eqb_refl. simpl.
  unfold mbind at 1, Tx_bind at 1, throw_if, lift. rewrite bool_decide_true by done. simpl.
  unfold mbind at 1, Tx_bind at 1, query. simpl.
  destruct Heff as [r Hr|Hr Hlt o|Hr Hep Hc o|seq payload Hr Hep Hc Hseq Hpay Hfresh o]; rewrite Hr; [done|..].
  { rewrite (proj2 (Z.ltb_lt _ _)) by done. unfold mbind, Tx_bind.
    by rewrite record_result_run. }
  all: rewrite (proj2 (Z.ltb_ge _ _)) by lia.
  all: match goal with |- (?s ≫= ?k) ?c = _ =>
    assert (s c = (Ok (key_epoch m, (ep <? key_epoch m) || ch), c)) as Hst
      by (destruct (ep <? key_epoch m) eqn:E; propify;
          [unfold mbind, Tx_bind, throw_if, lift; by rewrite (proj2 (Z.ltb_ge _ _)) by lia
          |assert (ep = key_epoch m) as -> by lia; done]);
    unfold mbind at 1, Tx_bind at 1; rewrite Hst; clear Hst end.
  all: unfold mbind at 1, Tx_bind at 1, query; simpl; fold (current_version vault m cw).
  - assert ((match current_version vault m cw with Some v => i64_as_u64 v =? expected_version m
             | None => expected_version m =? 0 end) = false) as ->.
    { unfold cas_holds in Hc. destruct (current_version _ _ _); by apply Z.eqb_neq. }
    unfold mbind, Tx_bind. cbn [negb]. by rewrite record_result_run.
  - assert ((match current_version vault m cw with Some v => i64_as_u64 v =? expected_version m
             | None => expected_version m =? 0 end) = true) as ->.
    { unfold cas_holds in Hc. destruct (current_version _ _ _); by apply Z.eqb_eq. }
    unfold apply_mutation, insert_mutation, mbind, Tx_bind, execute, query_row, query, throw_if, lift; simpl.
    rewrite lookup_alter_eq, Hseq; simpl. rewrite Hpay; simpl.
    match goal with |- context [err_if ?b _] => assert (b = false) as -> end.
    { apply not_true_iff_false. rewrite existsb_exists. intros (r & Hin%list_elem_of_In & Hr').
      propify. rewrite Forall_forall in Hfresh. apply (Hfresh r Hin).
      match goal with H : String.eqb _ _ = true |- _ => apply String.eqb_eq in H end. done. }
    simpl. rewrite (stored_None_existsb _ _ _ _ Hr). unfold mret, Tx_ret, with_result. do 3 f_equal.
    unfold with_applied. simpl. f_equal. f_equal. apply map_eq. intros k.
    destruct (decide (k = vault)) as [->|].
    + by rewrite lookup_alter_eq, lookup_insert_eq, Hseq.
    + by rewrite lookup_alter_ne, lookup_insert_ne.
Qed.

Lemma push_loop_ok vault device_id now ms st c rs st' c' :
  push_loop vault device_id now ms st c = (Ok (rs, st'), c') ->
  committed c' = committed c /\
  push_effects vault device_id now ms st (working c) rs st' (working c').
Proof.
  revert st c rs st' c'. induction ms as [|m ms IH]; intros [ep ch] c rs st' c' Hl; simpl in Hl.
  - tx_inv. split; [done|constructor].
  - apply bind_ok in Hl as ([r st1] & c1 & Hone & Hl).
    apply bind_ok in Hl as ([rs1 st2] & c2 & Hrest & Hl).
    apply push_one_ok in Hone as (Ha & Hc1 & o & -> & Heff).
    apply IH in Hrest as [Hc2 Heffs]. tx_inv. split; [congruence|]. by econstructor.
Qed.

Lemma push_loop_run vault device_id now ms st c rs st' db' :
  push_effects vault device_id now ms st (working c) rs st' db' ->
  push_loop vault device_id now ms st c =
    (Ok (rs, st'), {| committed := committed c; working := db' |}).
Proof.
  destruct c as [cc cw]. simpl. intros Heff. revert cc.
  induction Heff as [|m ms ep ch db o st db1 rs st' db' Ha Heff Heffs IH]; intros cc; [done|].
  cbn [push_loop]. unfold mbind, Tx_bind.
  erewrite (push_one_run vault device_id now m ep ch {| committed := cc; working := db |}) by eauto.
  simpl. by rewrite IH.
Qed.

#[global] Instance push_one_uncommitting vault device_id now m st :
  Uncommitting (push_one vault device_id now m st).
Proof.
  destruct st. unfold push_one, record_result, apply_mutation, insert_mutation. uncommitting.
  all: try destruct (reason_to_outcome _); uncommitting.
Qed.

#[global] Instance push_loop_uncommitting vault device_id now ms st :
  Uncommitting (push_loop vault device_id now ms st).
Proof.
  revert st. induction ms as [|m ms IH]; intros st; simpl; [apply _|].
  apply uncommitting_bind; [apply _|intros [r st1]].
  apply uncommitting_bind; [apply IH|intros [rs st2]; apply _].
Qed.

#[global] Instance push_body_uncommitting device_id now req : Uncommitting (push_body device_id now req).
Proof. unfold push_body. uncommitting. Qed.

(** ** Whole requests *)

(** The two statements after the loop. *)
Definition finish_push (vault device : string) (now seq : Z) (st : Z * bool) (db : DB) : DB :=
  {| db with
     vault_epochs := (if st.2 then <[vault := {| ve_key_epoch := st.1; ve_updated_at := now |}]> (vault_epochs db)
                      else vault_epochs db);
     device_sequences := <[device := match device_sequences db !! device with
                                     | Some last => Z.max last (u64_as_i64 seq)
                                     | None => u64_as_i64 seq
                                     end]> (device_sequences db) |}.

Lemma push_v2_ok device_id now req db resp db' :
  push_v2 device_id now req db = (Ok resp, db') ->
  exists d vault st dbl,
    device_id = Some d /\
    Z.of_nat (length (mutations req)) <= MAX_MUTATIONS_PER_PUSH /\
    device_vault (uuid_to_string d) db = Some vault /\
    push_effects vault d now (mutations req) (stored_epoch vault db, false) db (results resp) st dbl /\
    sequence_counters dbl !! vault = Some (server_cursor resp) /\
    db' = finish_push vault (uuid_to_string d) now (device_sequence req) st dbl.
Proof.
  unfold push_v2. rewrite (run_tx_atomic _ (fun r => r)) by apply _.
  destruct (push_body _ _ _ _) as [[r|e] c] eqn:Hb; [|done]. intros [= <- <-].
  unfold push_body in Hb.
  apply bind_ok in Hb as (d & c1 & Hd & Hb). apply lift_ok in Hd as [Hd ->]. result_inv.
  apply bind_ok in Hb as ([] & c1 & Hn & Hb). apply throw_if_ok in Hn as [Hn ->].
  apply bind_ok in Hb as (vault & c1 & Hv & Hb). apply query_row_ok in Hv as [Hv ->].
  apply bind_ok in Hb as (ep & c1 & He & Hb). apply query_ok in He as [-> ->].
  apply bind_ok in Hb as ([rs [ep' ch]] & c1 & Hl & Hb). apply push_loop_ok in Hl as [_ Hl].
  exists d, vault, (ep', ch), (working c1). propify.
  assert (exists c2, c2 = {| committed := committed c1; working := {| (working c1) with
     vault_epochs := (if ch then <[vault := {| ve_key_epoch := ep'; ve_updated_at := now |}]> (vault_epochs (working c1))
                      else vault_epochs (working c1)) |} |} /\
     (if ch then execute (fun db => {| db with vault_epochs :=
           <[vault := {| ve_key_epoch := ep'; ve_updated_at := now |}]> (vault_epochs db) |})
       else mret tt) c1 = (Ok tt, c2)) as (c2 & -> & Hc2).
  { destruct c1 as [cc []], ch; eexists; split; try done. }
  unfold mbind at 1, Tx_bind at 1 in Hb. rewrite Hc2 in Hb. clear Hc2. tx_inv. done.
Qed.

Lemma push_v2_run d vault now req db rs st dbl cur :
  Z.of_nat (length (mutations req)) <= MAX_MUTATIONS_PER_PUSH ->
  device_vault (uuid_to_string d) db = Some vault ->
  push_effects vault d now (mutations req) (stored_epoch vault db, false) db rs st dbl ->
  sequence_counters dbl !! vault = Some cur ->
  push_v2 (Some d) now req db =
    (Ok {| server_cursor := cur; results := rs |},
     finish_push vault (uuid_to_string d) now (device_sequence req) st dbl).
Proof.
  intros Hn Hv Heff Hcur. unfold push_v2. rewrite (run_tx_atomic _ (fun r => r)) by apply _.
  unfold push_body, mbind, Tx_bind, throw_if, lift, query_row, query. simpl.
  rewrite (proj2 (Z.ltb_ge _ _)) by done. simpl. rewrite Hv. simpl.
  rewrite (push_loop_run _ _ _ _ _ {| committed := db; working := db |} _ _ _ Heff).
  destruct st as [ep ch]. destruct ch; simpl; rewrite Hcur; [done|].
  by destruct dbl.
Qed.

(** The invariant along the loop. *)
Lemma push_effects_inv vault device_id now ms st db rs st' db' :
  push_effects vault device_id now ms st db rs st' db' ->
  Forall mutation_wf ms -> log_inv db -> epoch_inv vault st.1 db ->
  log_inv db' /\ epoch_inv vault st'.1 db' /\ st.1 <= st'.1 /\ same_frame vault db db'.
Proof.
  induction 1 as [|m ms ep ch db o st db1 rs st' db' Ha Heff Heffs IH]; intros Hwf Hi He; simpl in *.
  - split_and!; [done..|lia|by constructor].
  - inversion_clear Hwf. eapply push_effect_inv in Heff as (Hi1 & He1 & Hle1 & Hf1); [|done..].
    destruct IH as (Hi2 & He2 & Hle2 & Hf2); [done..|]. split_and!; [done..|lia|].
    destruct Hf1, Hf2. constructor; try congruence.
    + intros v Hv. rewrite sf_counters0, sf_counters; done.
    + intros v Hv. rewrite sf_log0, sf_log; done.
Qed.

Lemma push_effects_results vault device_id now ms st db rs st' db' :
  push_effects vault device_id now ms st db rs st' db' ->
  (fun r => (res_mutation_id r, res_object_id r)) <$> rs =
  (fun m => (mutation_id m, object_id m)) <$> ms.
Proof. induction 1 as [|m ms ep ch db o st db1 rs st' db' ??? IH]; [done|]. by rewrite !fmap_cons, IH. Qed.

Lemma push_effects_devices vault device_id now ms st db rs st' db' :
  push_effects vault device_id now ms st db rs st' db' -> devices db' = devices db.
Proof.
  induction 1 as [|m ms ep ch db o st db1 rs st' db' Ha Heff Heffs IH]; [done|].
  rewrite IH. by destruct Heff.
Qed.

Lemma push_effects_single vault device_id now m ep ch db rs st db' :
  push_effects vault device_id now [m] (ep, ch) db rs st db' ->
  push_accepts vault device_id m /\ exists o, rs = [result_of m o] /\
    push_effect vault (uuid_to_string device_id) now m ep ch db o st db'.
Proof.
  intros Heffs. remember [m] as ms eqn:Ems. remember (ep, ch) as st0 eqn:Est.
  destruct Heffs as [|m' ms ep' ch' db o st db1 rs st' db' Ha Heff Heffs]; [done|].
  injection Ems as -> ->. injection Est as -> ->. inversion Heffs; subst. eauto.
Qed.

(** ** Durable results *)


Lemma stored_result_mono vault device_id now m ep ch db o st db' mid dev v r :
  push_effect vault device_id now m ep ch db o st db' ->
  stored_result mid dev v db = Some r -> stored_result mid dev v db' = Some r.
Proof.
  unfold stored_result. intros Heff Hr.
  destruct Heff; simpl; rewrite ?find_app, ?Hr; done.
Qed.

Lemma stored_results_mono vault device_id now ms st db rs st' db' mid dev v r :
  push_effects vault device_id now ms st db rs st' db' ->
  stored_result mid dev v db = Some r -> stored_result mid dev v db' = Some r.
Proof. induction 1; eauto using stored_result_mono. Qed.

Lemma result_key_is_refl vault device m o now :
  result_key_is (uuid_to_string (mutation_id m)) device vault (result_row vault device m o now) = true.
Proof. unfold result_key_is. simpl. by rewrite !String.eqb_refl. Qed.

(** The stored row of an outcome replays that outcome. *)
Lemma stored_outcome_row `{!SerdeJsonLaws RejectionReason} vault device m o now :
  (forall rv s, o = Applied rv s -> in_u64 rv) ->
  stored_outcome (result_row vault device m o now) = o.
Proof.
  intros Hrv. unfold stored_outcome. destruct o as [rv s|r]; simpl.
  - by rewrite u64_as_i64_as_u64 by eauto.
  - unfold parse_rejection_reason. by rewrite from_to_json.
Qed.

(** After an iteration its outcome is on record. *)
Lemma push_effect_recorded `{!SerdeJsonLaws RejectionReason} vault device now m ep ch db o st db' :
  push_effect vault device now m ep ch db o st db' -> mutation_wf m ->
  exists r, stored_result (uuid_to_string (mutation_id m)) device vault db' = Some r /\ stored_outcome r = o.
Proof.
  intros Heff Hwf. destruct Heff as [r Hr|Hr ? o|Hr ?? o|seq payload Hr ???? Hf o]; [by eauto|..];
    unfold stored_result in *; simpl; rewrite find_app, Hr; simpl;
    rewrite result_key_is_refl; (eexists; split; [done|]);
    apply stored_outcome_row; intros ?? [= <-]; apply Hwf.
Qed.

(** Once every mutation is on record, the loop replays without a write. *)
Lemma push_effects_replay `{!SerdeJsonLaws RejectionReason} vault d now now' ms st db rs st' db' dbf stf :
  push_effects vault d now ms st db rs st' db' -> Forall mutation_wf ms ->
  (forall mid r, stored_result mid (uuid_to_string d) vault db' = Some r ->
     stored_result mid (uuid_to_string d) vault dbf = Some r) ->
  push_effects vault d now' ms stf dbf rs stf dbf.
Proof.
  intros Heffs Hwf Hf. revert Hwf stf.
  induction Heffs as [|m ms ep ch db o st db1 rs st' db' Ha Heff Heffs IH]; intros Hwf [ep' ch']; [constructor|].
  inversion_clear Hwf.
  destruct (push_effect_recorded _ _ _ _ _ _ _ _ _ _ Heff) as (r & Hr & <-); [done|].
  econstructor; [done|constructor|by apply IH].
  eapply Hf, stored_results_mono; done.
Qed.

(** ** Claims *)

(** C1. Retrying a push: after a push succeeded, sending the same request
    again at any later time returns the identical response (every mutation's
    original result and the same cursor) and changes nothing in the
    database. *)
Theorem push_v2_retry_identical `{!SerdeJsonLaws RejectionReason} device_id now now' req db resp db' :
  Forall mutation_wf (mutations req) ->
  push_v2 device_id now req db = (Ok resp, db') ->
  push_v2 device_id now' req db' = (Ok resp, db').
Proof.
  intros Hwf (d & vault & [ep ch] & dbl & -> & Hn & Hv & Heffs & Hcur & ->)%push_v2_ok.
  destruct resp as [cur rs]. simpl in *.
  set (dbf := finish_push _ _ _ _ _ _).
  assert (devices dbl = devices db) as Hdev.
  { by eapply push_effects_devices. }
  rewrite (push_v2_run d vault now' req dbf rs (stored_epoch vault dbf, false) dbf cur); try done.
  - f_equal. subst dbf. unfold finish_push. simpl. f_equal.
    rewrite lookup_insert_eq. apply map_eq. intros k. rewrite !lookup_insert.
    case_decide; [|done]. destruct (device_sequences dbl !! _); f_equal; lia.
  - unfold device_vault, dbf, finish_push in *. simpl. by rewrite Hdev.
  - eapply push_effects_replay; [exact Heffs|done|]. done.
Qed.

(** C4. A push is atomic: a request that fails, whatever mutation of it was
    refused, leaves the database exactly as it was. *)
Theorem push_v2_error_rolls_back device_id now req db e db' :
  push_v2 device_id now req db = (Err e, db') -> db' = db.
Proof.
  unfold push_v2. rewrite (run_tx_atomic _ (fun r => r)) by apply _.
  destruct (push_body _ _ _ _) as [[r|e'] c]; naive_solver.
Qed.

(** A successful push answers every mutation, in request order. *)
Theorem push_v2_results_in_order device_id now req db resp db' :
  push_v2 device_id now req db = (Ok resp, db') ->
  (fun r => (res_mutation_id r, res_object_id r)) <$> results resp =
  (fun m => (mutation_id m, object_id m)) <$> mutations req.
Proof.
  intros (d & vault & st & dbl & _ & _ & _ & Heffs & _)%push_v2_ok.
  by eapply push_effects_results.
Qed.

(** ** Compare-and-swap *)

(** A row of the vault's log never sits above its counter. *)
Lemma log_inv_fresh db v seq :
  log_inv db -> sequence_counters db !! v = Some seq ->
  Forall (fun r => ~ (mu_vault_id r = v /\ mu_server_sequence r = seq + 1)) (sync_mutations_v2 db).
Proof.
  intros Hi Hs. apply Forall_forall. intros r Hr [<- Hseq].
  destruct (li_bound _ Hi _ Hr) as (s & Hs' & ?). simplify_eq. lia.
Qed.

Lemma version_conflict_head v m db :
  log_inv db ->
  i64_as_u64 (default 0 (current_version v m db)) =
  head_version (object_log v (uuid_to_string (object_id m)) db).
Proof.
  intros Hi. unfold current_version, head_version. rewrite (li_entry _ Hi).
  by destruct (last _).
Qed.

(** Only the apply branch grows the log. *)
Lemma push_effect_appends v device now m ep ch db o st db' :
  push_effect v device now m ep ch db o st db' ->
  sync_mutations_v2 db' <> sync_mutations_v2 db ->
  exists seq payload,
    object_log v (uuid_to_string (object_id m)) db' =
    object_log v (uuid_to_string (object_id m)) db ++ [log_row v m payload (seq + 1) now].
Proof.
  intros Heff Hne. destruct Heff as [| | |seq payload]; [done..|]. exists seq, payload.
  etrans; [exact (object_log_applied v (uuid_to_string (object_id m)) v
    (log_row v m payload (seq + 1) now) (seq + 1) db eq_refl)|]. by rewrite decide_True.
Qed.

Definition cas_outcome (m : MutationV2) (head seq : Z) : MutationOutcome :=
  if decide (expected_version m = head) then Applied (resulting_version m) (seq + 1)
  else Rejected (VersionConflict head).

(** The branch an accepted, new, current-epoch mutation takes. *)
Lemma new_mutation_effect v d now m ep ch seq db :
  log_inv db -> push_accepts v d m ->
  stored_result (uuid_to_string (mutation_id m)) (uuid_to_string d) v db = None ->
  ep <= key_epoch m <= ep + MAX_EPOCH_JUMP -> sequence_counters db !! v = Some seq ->
  let o := uuid_to_string (object_id m) in
  let head := head_version (object_log v o db) in
  exists db',
    push_effect v (uuid_to_string d) now m ep ch db (cas_outcome m head seq)
      (key_epoch m, (ep <? key_epoch m) || ch) db' /\
    sequence_counters db' !! v = Some (if decide (expected_version m = head) then seq + 1 else seq) /\
    (expected_version m <> head -> sync_mutations_v2 db' = sync_mutations_v2 db) /\
    (expected_version m = head -> exists payload,
       b64_decode (encrypted_payload m) = Some payload /\
       object_log v o db' = object_log v o db ++ [log_row v m payload (seq + 1) now]).
Proof.
  intros Hi Ha Hnew Hep Hseq o head. unfold cas_outcome. case_decide as Hcas.
  - pose proof (validate_shape_facts _ (pa_shape _ _ _ Ha)) as (_ & _ & _ & _ & _ & _ & [payload Hpay] & _).
    eexists. split_and!.
    + eapply effect_apply; try done; [by apply cas_holds_head|by apply log_inv_fresh].
    + simpl. by rewrite lookup_insert_eq.
    + done.
    + intros _. exists payload. split; [done|]. etrans; [exact (object_log_applied v o v (log_row v m payload (seq + 1) now) (seq + 1) db eq_refl)|].
      by rewrite decide_True.
  - eexists. split_and!.
    + pose proof (effect_conflict v (uuid_to_string d) now m ep ch db Hnew Hep) as Hc.
      rewrite version_conflict_head in Hc by done. apply Hc. by rewrite cas_holds_head.
    + done.
    + done.
    + done.
Qed.

(** C2. Compare-and-swap: in a state of the invariant, pushing one accepted
    mutation that has no stored result and whose epoch is current succeeds; it
    is applied, and appended to its object's history, exactly when its expected
    version is the version at the head of that history, and is otherwise
    rejected with that head version and leaves the log alone. *)
Theorem push_v2_compare_and_swap d v now ds m seq db :
  log_inv db -> device_vault (uuid_to_string d) db = Some v -> push_accepts v d m ->
  stored_result (uuid_to_string (mutation_id m)) (uuid_to_string d) v db = None ->
  stored_epoch v db <= key_epoch m <= stored_epoch v db + MAX_EPOCH_JUMP ->
  sequence_counters db !! v = Some seq ->
  let o := uuid_to_string (object_id m) in
  let head := head_version (object_log v o db) in
  exists db' cur,
    push_v2 (Some d) now {| device_sequence := ds; mutations := [m] |} db =
      (Ok {| server_cursor := cur; results := [result_of m (cas_outcome m head seq)] |}, db') /\
    (expected_version m <> head -> cur = seq /\ sync_mutations_v2 db' = sync_mutations_v2 db) /\
    (expected_version m = head -> cur = seq + 1 /\ exists payload,
       b64_decode (encrypted_payload m) = Some payload /\
       object_log v o db' = object_log v o db ++ [log_row v m payload (seq + 1) now]).
Proof.
  intros Hi Hv Ha Hnew Hep Hseq o head.
  destruct (new_mutation_effect v d now m (stored_epoch v db) false seq db) as (db1 & Heff & Hcur & Hrej & Happ); try done.
  eexists _, _. split; [eapply push_v2_run; [done|done| |exact Hcur]|].
  - econstructor; [done|exact Heff|constructor].
  - split; intros He.
    + rewrite decide_False by done. auto.
    + rewrite decide_True by done. auto.
Qed.

(** No lost update: when two devices of a vault edit the same object from
    the same version and the first push is applied, the second is refused with
    the version the first one produced, and the log keeps the first edit
    untouched. *)
Theorem push_v2_no_lost_update d1 d2 v now1 now2 ds1 ds2 m1 m2 db r1 db1 :
  log_inv db -> mutation_wf m1 -> epoch_inv v (stored_epoch v db) db ->
  device_vault (uuid_to_string d1) db = Some v ->
  push_v2 (Some d1) now1 {| device_sequence := ds1; mutations := [m1] |} db = (Ok r1, db1) ->
  sync_mutations_v2 db1 <> sync_mutations_v2 db ->
  device_vault (uuid_to_string d2) db1 = Some v -> push_accepts v d2 m2 ->
  object_id m2 = object_id m1 -> expected_version m2 = expected_version m1 ->
  stored_result (uuid_to_string (mutation_id m2)) (uuid_to_string d2) v db1 = None ->
  stored_epoch v db1 <= key_epoch m2 <= stored_epoch v db1 + MAX_EPOCH_JUMP ->
  exists r2 db2,
    push_v2 (Some d2) now2 {| device_sequence := ds2; mutations := [m2] |} db1 = (Ok r2, db2) /\
    results r2 = [result_of m2 (Rejected (VersionConflict (resulting_version m1)))] /\
    sync_mutations_v2 db2 = sync_mutations_v2 db1.
Proof.
  intros Hi Hwf He Hv1 Hp1 Hnew1 Hv2 Ha2 Hobj Hexp Hs2 Hep2.
  apply push_v2_ok in Hp1 as (d & v' & st & dbl & [= <-] & _ & Hv' & Heffs & Hcur & ->). simplify_eq.
  apply push_effects_single in Heffs as (Ha1 & o & Ho & Heff).
  pose proof (push_effect_inv _ _ _ _ _ _ _ _ _ _ Heff Ha1 Hwf Hi He) as (Hi1 & _ & _ & _).
  assert (log_inv (finish_push v (uuid_to_string d1) now1 ds1 st dbl)) as Hi1' by (by destruct Hi1; constructor).
  destruct (new_mutation_effect v d2 now2 m2 (stored_epoch v (finish_push v (uuid_to_string d1) now1 ds1 st dbl)) false
    (server_cursor r1) (finish_push v (uuid_to_string d1) now1 ds1 st dbl)) as (db2 & Heff2 & Hcur2 & Hrej & _); try done.
  set (db1 := finish_push _ _ _ _ _ _) in *.
  assert (head_version (object_log v (uuid_to_string (object_id m2)) db1) = resulting_version m1) as Hhead.
  { destruct (push_effect_appends _ _ _ _ _ _ _ _ _ _ Heff Hnew1) as (seq & payload & Hlog).
    unfold head_version. change (object_log v ?o db1) with (object_log v o dbl).
    rewrite Hobj, Hlog, last_snoc. apply u64_as_i64_as_u64, Hwf. }
  pose proof (validate_shape_facts _ (pa_shape _ _ _ Ha1)) as (_ & _ & _ & _ & Hlt & _).
  rewrite Hhead in *. unfold cas_outcome in Heff2. rewrite decide_False in Heff2 by lia. rewrite decide_False in Hcur2 by lia.
  eexists _, _. split; [eapply push_v2_run; [done|done| |exact Hcur2]|].
  - econstructor; [done|exact Heff2|constructor].
  - split; [done|]. apply Hrej. lia.
Qed.

End Push.

(** ** Witnesses *)

Lemma demo_mutation_wf mid d e r : in_u64 e -> in_u64 r -> mutation_wf (demo_mutation mid d e r).
Proof. intros. by constructor. Qed.

Lemma demo_log_inv : log_inv demo_db.
Proof.
  apply log_inv_no_history; [done..|]. intros v s. simpl.
  rewrite lookup_singleton. case_decide; naive_solver lia.
Qed.

Lemma push_v2_retry_identical_witness :
  exists resp, push_v2 (Some demo_device1) 100 demo_push1 demo_db = (Ok resp, demo_db1) /\
    push_v2 (Some demo_device1) 5000 demo_push1 demo_db1 = (Ok resp, demo_db1).
Proof.
  eexists. split; [vm_compute; reflexivity|].
  apply (push_v2_retry_identical (Some demo_device1) 100 5000 demo_push1 demo_db).
  - repeat constructor; vm_compute; try discriminate; done.
  - vm_compute. reflexivity.
Defined.

Lemma push_v2_error_rolls_back_witness :
  exists e, push_v2 (Some demo_device2) 100 demo_push1 demo_db = (Err e, demo_db).
Proof.
  destruct (push_v2 (Some demo_device2) 100 demo_push1 demo_db) as [[r|e] db'] eqn:E.
  - exfalso. revert E. vm_compute. discriminate.
  - exists e. f_equal. exact (push_v2_error_rolls_back _ _ _ _ _ _ E).
Defined.

Lemma push_v2_results_in_order_witness :
  exists resp, push_v2 (Some demo_device1) 100 demo_push1 demo_db = (Ok resp, demo_db1) /\
    (fun r => (res_mutation_id r, res_object_id r)) <$> results resp =
    [(from_u128 41, demo_object)].
Proof.
  eexists. split; [vm_compute; reflexivity|].
  refine (push_v2_results_in_order (Some demo_device1) 100 demo_push1 demo_db _ demo_db1 _).
  vm_compute. reflexivity.
Defined.

Lemma demo_accepts1 :
  push_accepts (uuid_to_string demo_vault) demo_device1 (demo_mutation 41 demo_device1 0 1).
Proof. constructor; [vm_compute; reflexivity|reflexivity..]. Qed.
Lemma demo_accepts2 :
  push_accepts (uuid_to_string demo_vault) demo_device2 (demo_mutation 42 demo_device2 0 1).
Proof. constructor; [vm_compute; reflexivity|reflexivity..]. Qed.

Lemma push_v2_compare_and_swap_witness :
  exists db' cur,
    push_v2 (Some demo_device1) 100 demo_push1 demo_db =
      (Ok {| server_cursor := cur; results := [result_of (demo_mutation 41 demo_device1 0 1) (Applied 1 1)] |}, db').
Proof.
  edestruct (push_v2_compare_and_swap demo_device1 (uuid_to_string demo_vault) 100 1
    (demo_mutation 41 demo_device1 0 1) 0 demo_db) as (db' & cur & Hp & _ & _).
  - exact demo_log_inv.
  - vm_compute. reflexivity.
  - exact demo_accepts1.
  - vm_compute. reflexivity.
  - vm_compute. intuition discriminate.
  - vm_compute. reflexivity.
  - exists db', cur. exact Hp.
Defined.

Lemma push_v2_no_lost_update_witness :
  exists r2 db2,
    push_v2 (Some demo_device2) 200 demo_push2 demo_db1 = (Ok r2, db2) /\
    results r2 = [result_of (demo_mutation 42 demo_device2 0 1) (Rejected (VersionConflict 1))] /\
    sync_mutations_v2 db2 = sync_mutations_v2 demo_db1.
Proof.
  eapply (push_v2_no_lost_update demo_device1 demo_device2 (uuid_to_string demo_vault) 100 200 1 1
    (demo_mutation 41 demo_device1 0 1) (demo_mutation 42 demo_device2 0 1) demo_db _ demo_db1).
  - exact demo_log_inv.
  - by apply demo_mutation_wf.
  - split; vm_compute; constructor.
  - vm_compute. reflexivity.
  - vm_compute. reflexivity.
  - vm_compute. discriminate.
  - vm_compute. reflexivity.
  - exact demo_accepts2.
  - reflexivity.
  - reflexivity.
  - vm_compute. reflexivity.
  - vm_compute. intuition discriminate.
Defined.
