(* ===== verification/RelayV2Pull.v ===== *)
(** * Relay: correctness of the v2 pull

    A page is the next rows of the vault's log after the cursor, in order;
    following the cursor while [has_more] holds delivers every row once; and a
    pushed mutation comes back out as it went in. *)

From S2P Require Import Prelude ThirdParty RelayStorage RelaySyncV2 RelayV2Log RelayV2Push.
From Stdlib Require Import ZArith Lia.
From stdpp Require Import base list option strings numbers gmap sorting.
Import RelayDemo.
Open Scope Z_scope.

Section Pull.
Context `{UuidText, Base64, SerdeJson RejectionReason}.

(** The rows of a vault the cursor has not reached. *)
Definition pending (v : string) (since : Z) (db : DB) : list MutationRow :=
  filter (fun r => since < mu_server_sequence r) (vault_log v db).

(** Sorting rows that are already in strictly increasing order. *)
Lemma merge_sort_rows l :
  StronglySorted Z.lt (mu_server_sequence <$> l) -> merge_sort seq_le l = l.
Proof.
  intros Hs.
  assert (StronglySorted seq_le l /\ forall x y, x ∈ l -> y ∈ l ->
            mu_server_sequence x = mu_server_sequence y -> x = y) as [Hle Hinj].
  { induction l as [|r l IH]; simpl in *; [split; [constructor|set_solver]|].
    apply StronglySorted_inv in Hs as [Hs Hf]. destruct (IH Hs) as [IH1 IH2].
    rewrite Forall_fmap, Forall_forall in Hf. split.
    - constructor; [done|]. apply Forall_forall. intros x Hx. specialize (Hf x Hx). unfold seq_le. simpl in Hf. lia.
    - intros x y [->|Hx]%elem_of_cons [->|Hy]%elem_of_cons Heq; auto.
      + specialize (Hf y Hy). simpl in Hf. lia.
      + specialize (Hf x Hx). simpl in Hf. lia. }
  assert (Transitive seq_le) by (intros ???; unfold seq_le; lia).
  assert (Total seq_le) by (intros ??; unfold seq_le; lia).
  apply (StronglySorted_unique_strong seq_le).
  - intros x y Hx Hy ??. rewrite merge_sort_Permutation in Hx. apply Hinj; [done..|]. unfold seq_le in *. lia.
  - by apply StronglySorted_merge_sort.
  - done.
  - apply merge_sort_Permutation.
Qed.

Lemma select_log_pending v since lim db :
  log_inv db -> select_log v since lim db = take (Z.to_nat lim) (pending v since db).
Proof.
  intros Hi. unfold select_log, pending, vault_log.
  rewrite list_filter_filter. rewrite merge_sort_rows.
  - f_equal. apply list_filter_iff. naive_solver.
  - rewrite (list_filter_iff _ (fun r => since < mu_server_sequence r /\ mu_vault_id r = v)) by naive_solver.
    rewrite <- list_filter_filter. apply filter_fmap_sorted, (li_sorted _ Hi).
Qed.

(** ** Rows back to mutations *)

Lemma log_entry_of_log_row `{!UuidTextLaws} m payload seq now :
  mutation_wf m ->
  log_entry_of_row (uuid_to_string (vault_id m)) (log_row (uuid_to_string (vault_id m)) m payload seq now) =
  Ok {| log_server_sequence := seq;
        log_mutation := {| m with encrypted_payload := b64_encode payload |} |}.
Proof.
  intros [He Hr _]. unfold log_entry_of_row. simpl. rewrite !uuid_parse_to_string. simpl.
  by rewrite !u64_as_i64_as_u64.
Qed.

Lemma row_ok_entry `{!UuidTextLaws} r :
  row_ok r -> exists e, log_entry_of_row (mu_vault_id r) r = Ok e /\ log_server_sequence e = mu_server_sequence r.
Proof.
  intros (m & payload & Hwf & _ & _ & Hr).
  assert (mu_vault_id r = uuid_to_string (vault_id m)) as -> by (by rewrite Hr).
  eexists. split; [rewrite Hr at 1; by apply log_entry_of_log_row|done].
Qed.

Lemma pending_entries `{!UuidTextLaws} v since db :
  log_inv db -> Forall (fun r => exists e, log_entry_of_row v r = Ok e /\
                          log_server_sequence e = mu_server_sequence r) (pending v since db).
Proof.
  intros Hi. apply Forall_forall. intros r [_ [<- Hr]%in_vault_log]%list_elem_of_filter.
  by apply row_ok_entry, (li_rows _ Hi).
Qed.

(** ** One page *)

Lemma page_spec v lim rows acc :
  Forall (fun r => exists e, log_entry_of_row v r = Ok e /\ log_server_sequence e = mu_server_sequence r) rows ->
  Z.of_nat (length acc) <= lim ->
  exists es, page v lim rows acc = Ok (acc ++ es, bool_decide (lim < Z.of_nat (length acc + length rows))) /\
    Forall2 (fun r e => log_entry_of_row v r = Ok e /\ log_server_sequence e = mu_server_sequence r)
      (take (Z.to_nat lim - length acc) rows) es.
Proof.
  intros Hrows. revert acc. induction Hrows as [|r rows (e & He & Hs) Hrows IH]; intros acc Hacc; cbn [page].
  - exists []. rewrite app_nil_r, bool_decide_false by (simpl; lia). split; [done|]. rewrite take_nil. constructor.
  - destruct (Z.eqb_spec (Z.of_nat (length acc)) lim) as [E|E].
    + exists []. rewrite app_nil_r, bool_decide_true by (simpl; lia).
      replace (Z.to_nat lim - length acc)%nat with 0%nat by lia. split; [done|constructor].
    + rewrite He. cbn. destruct (IH (acc ++ [e])) as (es & Hp & Hf).
      { rewrite length_app. simpl. lia. }
      exists (e :: es). rewrite Hp, <- app_assoc. split.
      * do 3 f_equal. apply bool_decide_ext. rewrite length_app. simpl. lia.
      * replace (Z.to_nat lim - length acc)%nat with (S (Z.to_nat lim - length (acc ++ [e]))).
        { simpl. by constructor. }
        rewrite length_app. simpl. lia.
Qed.

Lemma page_limit_range req : 1 <= page_limit req <= 2000.
Proof. unfold page_limit. lia. Qed.

Definition entry_matches (v : string) (r : MutationRow) (e : MutationLogEntry) : Prop :=
  log_entry_of_row v r = Ok e /\ log_server_sequence e = mu_server_sequence r.

Lemma pull_v2_run `{!UuidTextLaws} d v req db :
  log_inv db -> device_vault (uuid_to_string d) db = Some v ->
  let rows := pending v (since req) db in
  let lim := Z.to_nat (page_limit req) in
  exists es, pull_v2 (Some d) req db =
    Ok {| entries := es;
          cursor := default (since req) (mu_server_sequence <$> last (take lim rows));
          has_more := bool_decide (lim < length rows)%nat |} /\
    Forall2 (entry_matches v) (take lim rows) es.
Proof.
  intros Hi Hv rows lim. unfold pull_v2. simpl. rewrite Hv. simpl.
  pose proof (page_limit_range req) as Hlim.
  rewrite select_log_pending by done. fold rows.
  destruct (page_spec v (page_limit req) (take (Z.to_nat (page_limit req + 1)) rows) []) as (es & Hp & Hf).
  { apply Forall_take, pending_entries, Hi. }
  { simpl. lia. }
  simpl in Hf. rewrite Nat.sub_0_r, take_take, Nat.min_l in Hf by lia. fold lim in Hf.
  rewrite Hp. simpl. exists es. split; [|done]. do 2 f_equal.
  - assert (log_server_sequence <$> last es = mu_server_sequence <$> last (take lim rows)) as ->; [|done].
    clear -Hf. induction Hf as [|r e rs es [_ He] Hf IH]; [done|].
    rewrite !last_cons. destruct (last rs), (last es); simpl in *; congruence.
  - apply bool_decide_ext. rewrite length_take. lia.
Qed.

(** ** Following the cursor *)

(** The client's loop: pull from the returned cursor while [has_more]. *)
Fixpoint pull_all (fuel : nat) (d : Uuid) (lim : option Z) (since : Z) (db : DB)
    : option (list MutationLogEntry) :=
  match fuel with
  | O => None
  | S fuel =>
    match pull_v2 (Some d) {| since := since; limit := lim |} db with
    | Err _ => None
    | Ok resp =>
      if has_more resp then (fun es => entries resp ++ es) <$> pull_all fuel d lim (cursor resp) db
      else Some (entries resp)
    end
  end.

Lemma pending_after_page v since db n r :
  log_inv db -> last (take n (pending v since db)) = Some r ->
  pending v (mu_server_sequence r) db = drop n (pending v since db).
Proof.
  intros Hi Hl.
  assert (StronglySorted Z.lt (mu_server_sequence <$> pending v since db)) as Hs
    by apply filter_fmap_sorted, (li_sorted _ Hi).
  rewrite <- (filter_after_last mu_server_sequence _ _ _ Hs Hl). unfold pending. rewrite list_filter_filter.
  apply list_filter_iff. intros x.
  assert (since < mu_server_sequence r).
  { assert (r ∈ pending v since db) as Hr.
    { rewrite <- (take_drop n (pending v since db)). apply elem_of_app. left.
      apply last_Some in Hl as (l & ->). set_solver. }
    by apply list_elem_of_filter in Hr as [? _]. }
  naive_solver lia.
Qed.

(** C3. Pagination is complete: from any cursor, a registered device that
    follows the returned cursors receives, in order, exactly one entry for
    every row of its vault's log after the cursor, in finitely many pages
    (one more than the number of pending rows is enough), whatever page size
    it asks for. *)
Theorem pull_v2_pages_complete `{!UuidTextLaws} d v lim since db fuel :
  log_inv db -> device_vault (uuid_to_string d) db = Some v ->
  (length (pending v since db) < fuel)%nat ->
  exists es, pull_all fuel d lim since db = Some es /\ Forall2 (entry_matches v) (pending v since db) es.
Proof.
  intros Hi Hv. revert since. induction fuel as [|fuel IH]; intros since Hfuel; [lia|].
  destruct (pull_v2_run d v {| since := since; limit := lim |} db Hi Hv) as (es & Hp & Hf).
  cbn [pull_all]. rewrite Hp. cbn -[page_limit]. clear Hp.
  pose proof (page_limit_range {| since := since; limit := lim |}) as Hlim.
  set (n := Z.to_nat (page_limit _)) in *. simpl in Hf.
  case_bool_decide as Hmore.
  - destruct (last (take n (pending v since db))) as [r|] eqn:El.
    2:{ apply last_None in El. apply (f_equal length) in El. rewrite length_take in El. simpl in El. lia. }
    simpl. destruct (IH (mu_server_sequence r)) as (es' & -> & Hf').
    { rewrite (pending_after_page _ since _ n) by done. rewrite length_drop. lia. }
    exists (es ++ es'). split; [done|]. rewrite (pending_after_page _ since _ n) in Hf' by done.
    rewrite <- (take_drop n (pending v since db)). by apply Forall2_app.
  - exists es. split; [done|]. by rewrite take_ge in Hf by lia.
Qed.

(** C5. End-to-end delivery: after a device's push appended a mutation,
    another device of the vault that pulls from the cursor before it receives
    exactly that mutation, field by field, its payload re-encoded from the
    bytes the sender's encoding denotes. *)
Theorem push_v2_then_pull_v2 `{!UuidTextLaws} d1 d2 v now ds m db resp db1 seq lim :
  log_inv db -> mutation_wf m -> epoch_inv v (stored_epoch v db) db ->
  device_vault (uuid_to_string d1) db = Some v -> device_vault (uuid_to_string d2) db = Some v ->
  sequence_counters db !! v = Some seq ->
  push_v2 (Some d1) now {| device_sequence := ds; mutations := [m] |} db = (Ok resp, db1) ->
  sync_mutations_v2 db1 <> sync_mutations_v2 db ->
  exists payload, b64_decode (encrypted_payload m) = Some payload /\
    pull_v2 (Some d2) {| since := seq; limit := lim |} db1 =
      Ok {| entries := [{| log_server_sequence := seq + 1;
                           log_mutation := {| m with encrypted_payload := b64_encode payload |} |}];
            cursor := seq + 1; has_more := false |}.
Proof.
  intros Hi Hwf He Hv1 Hv2 Hseq Hp Hne.
  apply push_v2_ok in Hp as (d & v' & st & dbl & [= <-] & _ & Hv' & Heffs & _ & ->). simplify_eq.
  apply push_effects_single in Heffs as (Ha & o & _ & Heff).
  pose proof (push_effect_inv _ _ _ _ _ _ _ _ _ _ Heff Ha Hwf Hi He) as (Hi1 & _ & _ & Hfr).
  destruct Heff as [| | |seq' payload Hnew Hep Hcas Hs Hpay Hfresh o]; [done..|]. simplify_eq.
  pose proof (pa_vault _ _ _ Ha) as Hvm.
  exists payload. split; [done|].
  set (db1 := finish_push _ _ _ _ _ _).
  assert (log_inv db1) as Hi1' by (by destruct Hi1; constructor).
  assert (pending v seq db1 = [log_row v m payload (seq + 1) now]) as Hpend.
  { unfold pending. change (vault_log v db1) with (vault_log v
      (with_applied v (log_row v m payload (seq + 1) now) (seq + 1) db)).
    rewrite vault_log_applied, decide_True, filter_app by done.
    rewrite filter_none.
    - rewrite filter_cons, decide_True by (simpl; lia). done.
    - apply Forall_forall. intros r [Hrv Hr]%in_vault_log.
      destruct (li_bound _ Hi _ Hr) as (s & Hs' & ?). rewrite Hrv in Hs'. simplify_eq. lia. }
  destruct (pull_v2_run d2 v {| since := seq; limit := lim |} db1) as (es & Hp & Hf); [done| |].
  { unfold device_vault in *. by rewrite <- (sf_devices _ _ _ Hfr) in Hv2. }
  rewrite Hp. simpl in Hp, Hf |- *. rewrite Hpend in *. clear Hp.
  pose proof (page_limit_range {| since := seq; limit := lim |}).
  rewrite take_ge in * by (simpl; lia).
  apply Forall2_cons_inv_l in Hf as (e & es' & [Hen _] & Hnil & ->).
  apply Forall2_nil_inv_l in Hnil as ->. subst v.
  rewrite log_entry_of_log_row in Hen by done. injection Hen as <-.
  rewrite bool_decide_false by (simpl; lia). done.
Qed.

End Pull.

(** ** Witnesses *)

Lemma demo_log_inv1 : log_inv demo_db1.
Proof.
  assert (exists resp, push_v2 (Some demo_device1) 100 demo_push1 demo_db = (Ok resp, demo_db1)) as (resp & Hp)
    by (eexists; vm_compute; reflexivity).
  apply push_v2_ok in Hp as (d & v & st & dbl & _ & _ & _ & Heffs & _ & ->).
  apply push_effects_inv in Heffs as ([] & _); [by constructor| |exact demo_log_inv|].
  - constructor; [by apply demo_mutation_wf|constructor].
  - split; constructor.
Qed.

Lemma pull_v2_pages_complete_witness :
  length (pending (uuid_to_string demo_vault) 0 demo_db1) = 1%nat /\
  exists es, pull_all 5 demo_device2 (Some 1) 0 demo_db1 = Some es /\
    Forall2 (entry_matches (uuid_to_string demo_vault)) (pending (uuid_to_string demo_vault) 0 demo_db1) es.
Proof.
  split; [vm_compute; reflexivity|].
  apply (pull_v2_pages_complete demo_device2 (uuid_to_string demo_vault) (Some 1) 0 demo_db1 5).
  - exact demo_log_inv1.
  - vm_compute. reflexivity.
  - vm_compute. lia.
Defined.

Lemma push_v2_then_pull_v2_witness :
  exists payload, b64_decode (encrypted_payload (demo_mutation 41 demo_device1 0 1)) = Some payload /\
    pull_v2 (Some demo_device2) {| since := 0; limit := None |} demo_db1 =
      Ok {| entries := [{| log_server_sequence := 1;
              log_mutation := {| (demo_mutation 41 demo_device1 0 1) with encrypted_payload := b64_encode payload |} |}];
            cursor := 1; has_more := false |}.
Proof.
  eapply (push_v2_then_pull_v2 demo_device1 demo_device2 (uuid_to_string demo_vault) 100 1
    (demo_mutation 41 demo_device1 0 1) demo_db _ demo_db1 0 None).
  - exact demo_log_inv.
  - by apply demo_mutation_wf.
  - split; vm_compute; constructor.
  - vm_compute. reflexivity.
  - vm_compute. reflexivity.
  - vm_compute. reflexivity.
  - vm_compute. reflexivity.
  - vm_compute. discriminate.
Defined.
