(* ===== verification/RelayPairing.v ===== *)
(** * Relay: pairing bootstraps

    Models [pairing_security.rs] (token and proof hashing), the v1 handlers of
    [handlers/pairing.rs] and the v2 handlers of [handlers/pairing_v2.rs]: the
    attempt limiter with exponential backoff, one-use bootstraps and the
    registration proofs they stage.  Random salts are arguments. *)

From S2P Require Import Prelude ThirdParty RelayStorage.
From Stdlib Require Import ZArith Lia.
From stdpp Require Import base list option strings numbers gmap.
Open Scope Z_scope.

Definition MAX_PAIRING_TOKEN_LEN : Z := 256.
Definition REGISTRATION_PROOF_LEN : Z := 32.
Definition MAX_BOOTSTRAP_SIZE : Z := 65536.
Definition SECRET_LEN : Z := 32.

Record UploadBootstrapRequest := {
  ub_pairing_token : string;
  ub_encrypted_bootstrap : string;
  ub_pairing_salt : string;
  ub_registration_proof : string;
}.

Record BootstrapResponse := {
  br_encrypted_bootstrap : string;
  br_pairing_salt : string;
}.

Record PairingSecret := { ps_id : string; ps_raw : string }.

Record UploadBootstrapV2Request := {
  u2_secret : string;
  u2_encrypted_bootstrap : string;
  u2_registration_proof : string;
}.

Record RetrieveBootstrapV2Response := {
  r2_encrypted_bootstrap : string;
  r2_registration_proof : string;
}.

Section Pairing.
Context `{UuidText, Base64, Base64Url, Sha256, Argon2}.

(** ** [pairing_security.rs] *)

Definition validate_pairing_token (token : string) : result RelayError unit :=
  err_if (String.eqb token "" || (MAX_PAIRING_TOKEN_LEN <? Z.of_nat (String.length token)))
    (BadRequest "Invalid pairing token length").

Definition hash_pairing_token (salt token : string) : result RelayError string :=
  _ ← validate_pairing_token token;
  ok_or (argon2_hash_password salt (as_bytes token)) (Internal "Failed to hash pairing token").

Definition hash_bytes_hex (b : bytes) : string := hex_encode (sha256 b).

Definition verify_pairing_token (token stored : string) : result RelayError bool :=
  _ ← validate_pairing_token token;
  if String.prefix "$argon2" stored then
    _ ← err_if (negb (phc_parse stored)) (Database "Malformed stored pairing hash");
    Ok (argon2_verify_password (as_bytes token) stored)
  else Ok (String.eqb (hash_bytes_hex (as_bytes token)) stored).

Definition is_legacy_pairing_hash (stored : string) : bool := negb (String.prefix "$argon2" stored).

Definition hash_registration_proof_b64 (proof_b64 : string) : result RelayError string :=
  proof ← ok_or (b64_decode proof_b64) (BadRequest "Invalid registration proof");
  _ ← err_if (negb (Z.of_nat (length proof) =? REGISTRATION_PROOF_LEN))
        (BadRequest "Registration proof must be 32 bytes");
  Ok (hash_bytes_hex proof).

(** [verify_pairing_token(..).unwrap_or(false)]. *)
Definition token_matches (token stored : string) : bool :=
  match verify_pairing_token token stored with Ok b => b | Err _ => false end.

(** ** The attempt limiter both versions share *)

(** The length of a block after [attempts_after] attempts. *)
Definition backoff_secs (cfg : RelayConfig) (attempts_after : Z) : Z :=
  let attempt_limit := Z.max (pairing_fetch_attempt_limit cfg) 1 in
  let overflow := Z.max (attempts_after - attempt_limit - 1) 0 mod 2 ^ 32 in
  let multiplier := Z.shiftl 1 (Z.min overflow 16) in
  let base := Z.max (pairing_fetch_backoff_base_secs cfg) 1 in
  let max := Z.max (pairing_fetch_backoff_max_secs cfg) base in
  Z.min (u64_saturating_mul base multiplier) max.

(** Refuse while blocked; count the attempt; block, and commit the block, once
    the limit is passed. *)
Definition count_attempt (cfg : RelayConfig) (now : Z) (lookup : string) : Tx unit :=
  st ← query (fun db => pairing_fetch_attempts db !! lookup);
  _ ← throw_if (match st with Some a => now <? fa_blocked_until a | None => false end) RateLimited;
  let attempts_after := match st with Some a => fa_attempts a + 1 | None => 1 end in
  _ ← execute (fun db => {| db with pairing_fetch_attempts :=
        <[lookup := match pairing_fetch_attempts db !! lookup with
                    | Some a => {| a with fa_attempts := attempts_after; fa_last_attempt_at := now |}
                    | None => {| fa_attempts := attempts_after; fa_first_attempt_at := now;
                                 fa_last_attempt_at := now; fa_blocked_until := 0 |}
                    end]> (pairing_fetch_attempts db) |});
  if Z.max (pairing_fetch_attempt_limit cfg) 1 <? attempts_after then
    _ ← execute (fun db => {| db with pairing_fetch_attempts :=
          alter (fun a => {| a with fa_blocked_until := now + u64_as_i64 (backoff_secs cfg attempts_after) |})
            lookup (pairing_fetch_attempts db) |});
    _ ← commit;
    throw RateLimited
  else mret tt.

(** [INSERT INTO pairing_registration_proofs]: [proof_hash] is the key. *)
Definition insert_proof (proof_hash : string) (row : ProofRow) : Tx unit :=
  taken ← query (fun db => bool_decide (is_Some (pairing_registration_proofs db !! proof_hash)));
  _ ← throw_if taken (Database "UNIQUE constraint failed: pairing_registration_proofs");
  execute (fun db => {| db with pairing_registration_proofs :=
    <[proof_hash := row]> (pairing_registration_proofs db) |}).

(** ** Pairing v1 ([handlers/pairing.rs]) *)

Definition active_bootstrap (now : Z) (b : BootstrapRow) : bool :=
  (now <? pb_expires_at b) && negb (pb_consumed b).

(** A rowid above every rowid of the table. *)
Definition next_rowid (l : list BootstrapRow) : Z := 1 + foldr (fun b => Z.max (pb_rowid b)) 0 l.

Definition insert_bootstrap (token vault : string) (encrypted salt : bytes) (expires_at : Z) : Tx unit :=
  taken ← query (fun db => existsb (fun b => String.eqb (pb_pairing_token b) token) (pairing_bootstraps db));
  _ ← throw_if taken (Database "UNIQUE constraint failed: pairing_bootstraps");
  execute (fun db => {| db with pairing_bootstraps := pairing_bootstraps db ++ [{|
    pb_rowid := next_rowid (pairing_bootstraps db); pb_pairing_token := token; pb_vault_id := vault;
    pb_encrypted_bootstrap := encrypted; pb_pairing_salt := salt; pb_expires_at := expires_at;
    pb_consumed := false |}] |}).

(** [upload_bootstrap]; the response carries [expires_at]. *)
Definition upload_bootstrap (cfg : RelayConfig) (argon_salt : string) (device_id : option Uuid) (now : Z)
    (req : UploadBootstrapRequest) (db : DB) : result RelayError Z * DB :=
  run_tx (
    uploader ← lift (ok_or device_id (Auth "No device ID"));
    encrypted ← lift (ok_or (b64_decode (ub_encrypted_bootstrap req)) (BadRequest "Invalid bootstrap"));
    salt ← lift (ok_or (b64_decode (ub_pairing_salt req)) (BadRequest "Invalid salt"));
    token_hash ← lift (hash_pairing_token argon_salt (ub_pairing_token req));
    proof_hash ← lift (hash_registration_proof_b64 (ub_registration_proof req));
    let expires_at := now + u64_as_i64 (pairing_ttl_secs cfg) in
    vault ← query_row (device_vault (uuid_to_string uploader)) (Auth "Unknown device");
    active ← query (fun db => Z.of_nat (length (List.filter (active_bootstrap now) (pairing_bootstraps db))));
    _ ← throw_if (max_active_pairings cfg <=? active) (Conflict "Too many active pairings");
    _ ← insert_bootstrap token_hash vault encrypted salt expires_at;
    _ ← insert_proof proof_hash {| rp_pairing_token_hash := token_hash; rp_vault_id := vault;
                                   rp_expires_at := expires_at; rp_consumed := false |};
    _ ← commit;
    mret expires_at) db.

(** [UPDATE pairing_bootstraps SET .. WHERE rowid = ?]. *)
Definition update_bootstrap (rowid : Z) (f : BootstrapRow -> BootstrapRow) (db : DB) : DB :=
  {| db with pairing_bootstraps :=
       (fun b => if pb_rowid b =? rowid then f b else b) <$> pairing_bootstraps db |}.

(** The in-place upgrade of a legacy hash: nothing when hashing fails. *)
Definition upgrade_legacy (argon_salt token : string) (row : BootstrapRow) : Tx unit :=
  if is_legacy_pairing_hash (pb_pairing_token row) then
    match hash_pairing_token argon_salt token with
    | Ok upgraded =>
      taken ← query (fun db => existsb (fun b => String.eqb (pb_pairing_token b) upgraded
                                 && negb (pb_rowid b =? pb_rowid row)) (pairing_bootstraps db));
      _ ← throw_if taken (Database "UNIQUE constraint failed: pairing_bootstraps");
      execute (update_bootstrap (pb_rowid row) (fun b => {| b with pb_pairing_token := upgraded |}))
    | Err _ => mret tt
    end
  else mret tt.

(** [DELETE FROM pairing_fetch_attempts WHERE token_hash = ?]. *)
Definition clear_attempts (lookup : string) : Tx unit :=
  execute (fun db => {| db with pairing_fetch_attempts := delete lookup (pairing_fetch_attempts db) |}).

(** [fetch_bootstrap]. *)
Definition fetch_bootstrap (cfg : RelayConfig) (argon_salt : string) (now : Z) (token : string) (db : DB)
    : result RelayError BootstrapResponse * DB :=
  let lookup := hash_bytes_hex (as_bytes token) in
  run_tx (
    _ ← count_attempt cfg now lookup;
    candidates ← query (fun db => List.filter (active_bootstrap now) (pairing_bootstraps db));
    match List.find (fun b => token_matches token (pb_pairing_token b)) candidates with
    | None =>
      _ ← commit;
      throw (NotFound "Pairing token not found or expired")
    | Some row =>
      _ ← upgrade_legacy argon_salt token row;
      _ ← execute (update_bootstrap (pb_rowid row) (fun b => {| b with pb_consumed := true |}));
      _ ← clear_attempts lookup;
      _ ← commit;
      mret {| br_encrypted_bootstrap := b64_encode (pb_encrypted_bootstrap row);
              br_pairing_salt := b64_encode (pb_pairing_salt row) |}
    end) db.

(** ** Pairing v2 ([handlers/pairing_v2.rs]) *)

Definition parse_secret (encoded : string) : result RelayError PairingSecret :=
  b ← ok_or (b64url_decode (trim encoded)) (BadRequest "invalid pairing secret encoding");
  _ ← err_if (negb (Z.of_nat (length b) =? SECRET_LEN)) (BadRequest "pairing secret must be 32 bytes");
  Ok {| ps_id := hex_encode (take 16 (sha256 b)); ps_raw := trim encoded |}.

Definition active_v2 (now : Z) (b : BootstrapV2Row) : Prop := now < b2_expires_at b /\ b2_consumed b = false.
#[global] Instance active_v2_dec now b : Decision (active_v2 now b).
Proof. unfold active_v2. apply _. Defined.

(** The upsert of [upload_bootstrap_v2]: a consumed row is never replaced. *)
Definition upsert_v2 (id : string) (row : BootstrapV2Row) : Tx unit :=
  old ← query (fun db => pairing_bootstraps_v2 db !! id);
  match old with
  | None => execute (fun db => {| db with pairing_bootstraps_v2 := <[id := row]> (pairing_bootstraps_v2 db) |})
  | Some o =>
    _ ← throw_if (b2_consumed o) (Conflict "pairing bootstrap already consumed");
    execute (fun db => {| db with pairing_bootstraps_v2 := <[id := {| o with
      b2_secret_hash := b2_secret_hash row; b2_encrypted_bootstrap := b2_encrypted_bootstrap row;
      b2_registration_proof := b2_registration_proof row; b2_expires_at := b2_expires_at row;
      b2_received_at := b2_received_at row |}]> (pairing_bootstraps_v2 db) |})
  end.

(** [upload_bootstrap_v2]. *)
Definition upload_bootstrap_v2 (cfg : RelayConfig) (argon_salt : string) (device_id : option Uuid) (now : Z)
    (req : UploadBootstrapV2Request) (db : DB) : result RelayError Z * DB :=
  run_tx (
    uploader ← lift (ok_or device_id (Auth "No device ID"));
    secret ← lift (parse_secret (u2_secret req));
    encrypted ← lift (ok_or (b64_decode (u2_encrypted_bootstrap req)) (BadRequest "invalid bootstrap"));
    _ ← throw_if (MAX_BOOTSTRAP_SIZE <? Z.of_nat (length encrypted))
          (BadRequest "bootstrap exceeds the maximum size");
    proof ← lift (ok_or (b64_decode (u2_registration_proof req)) (BadRequest "invalid registration proof"));
    _ ← throw_if (negb (Z.of_nat (length proof) =? 32)) (BadRequest "registration proof must be 32 bytes");
    secret_hash ← lift (hash_pairing_token argon_salt (ps_raw secret));
    let expires_at := now + u64_as_i64 (pairing_ttl_secs cfg) in
    vault ← query_row (device_vault (uuid_to_string uploader)) (Auth "Unknown device");
    active ← query (fun db => Z.of_nat (size (filter (fun kv => active_v2 now kv.2) (pairing_bootstraps_v2 db))));
    _ ← throw_if (max_active_pairings cfg <=? active) (Conflict "Too many active pairings");
    _ ← upsert_v2 (ps_id secret) {|
      b2_vault_id := vault; b2_secret_hash := secret_hash; b2_encrypted_bootstrap := encrypted;
      b2_registration_proof := proof; b2_expires_at := expires_at; b2_consumed := false;
      b2_received_at := now |};
    _ ← commit;
    mret expires_at) db.

(** [SELECT ... WHERE bootstrap_id = ?1 AND expires_at > ?2 AND consumed = 0]. *)
Definition find_v2 (id : string) (now : Z) (db : DB) : option BootstrapV2Row :=
  row ← pairing_bootstraps_v2 db !! id;
  if decide (active_v2 now row) then Some row else None.

Definition not_found_v2 : RelayError := NotFound "pairing bootstrap not found or expired".

(** [retrieve_bootstrap_v2]. *)
Definition retrieve_bootstrap_v2 (cfg : RelayConfig) (argon_salt : string) (now : Z) (encoded : string) (db : DB)
    : result RelayError RetrieveBootstrapV2Response * DB :=
  run_tx (
    secret ← lift (parse_secret encoded);
    let lookup := hash_bytes_hex (as_bytes (ps_id secret)) in
    _ ← count_attempt cfg now lookup;
    found ← query (find_v2 (ps_id secret) now);
    match found with
    | None => _ ← commit; throw not_found_v2
    | Some row =>
      if negb (token_matches (ps_raw secret) (b2_secret_hash row)) then
        _ ← commit; throw not_found_v2
      else
        _ ← execute (fun db => {| db with pairing_bootstraps_v2 :=
              alter (fun b => {| b with b2_consumed := true |}) (ps_id secret) (pairing_bootstraps_v2 db) |});
        _ ← clear_attempts lookup;
        proof_hash ← lift (hash_registration_proof_b64 (b64_encode (b2_registration_proof row)));
        token_hash ← lift (hash_pairing_token argon_salt (ps_raw secret));
        _ ← insert_proof proof_hash {| rp_pairing_token_hash := token_hash; rp_vault_id := b2_vault_id row;
                                       rp_expires_at := now + 300; rp_consumed := false |};
        _ ← commit;
        mret {| r2_encrypted_bootstrap := b64_encode (b2_encrypted_bootstrap row);
                r2_registration_proof := b64_encode (b2_registration_proof row) |}
    end) db.

End Pairing.
