(* ===== verification/RelayDevices.v ===== *)
(** * Relay: devices and vault migration

    Models [handlers/devices.rs] (register, list, revoke) and the
    authoritative-device claim of [handlers/sync_v2.rs].  [Uuid::new_v4] is an
    argument of the claim. *)

From S2P Require Import Prelude ThirdParty RelayStorage RelayPairing.
From Stdlib Require Import ZArith Lia.
From stdpp Require Import base list option strings numbers gmap.
Open Scope Z_scope.

Record RegisterDeviceRequest := {
  rd_device_id : Uuid;
  rd_device_name : string;
  rd_device_type : string;
  rd_public_key : string;
  rd_vault_id : Uuid;
  rd_pairing_token : option string;
  rd_registration_proof : option string;
}.

Record DeviceInfo := {
  di_device_id : string;
  di_device_name : string;
  di_device_type : string;
  di_registered_at : Z;
  di_revoked : bool;
}.

Section Devices.
Context `{UuidText, Base64, Sha256, Argon2}.

(** [SELECT COUNT( * ) FROM devices WHERE vault_id = ?1]. *)
Definition device_count (vault : string) (db : DB) : Z :=
  Z.of_nat (size (filter (fun kv => d_vault_id kv.2 = vault) (devices db))).

(** A staged proof that can still be spent. *)
Definition proof_usable (vault : string) (now : Z) (p : ProofRow) : bool :=
  String.eqb (rp_vault_id p) vault && (now <? rp_expires_at p) && negb (rp_consumed p).

(** Joining a vault that has devices: find the staged proof, check the token
    bound to it and consume it. *)
Definition consume_proof (vault : string) (now : Z) (req : RegisterDeviceRequest) : Tx unit :=
  pairing_token ← lift (ok_or (rd_pairing_token req) (Auth "Pairing token required"));
  registration_proof ← lift (ok_or (rd_registration_proof req) (Auth "Registration proof required"));
  proof_hash ← lift (hash_registration_proof_b64 registration_proof);
  stored ← query (fun db =>
    match pairing_registration_proofs db !! proof_hash with
    | Some p => if proof_usable vault now p then [rp_pairing_token_hash p] else []
    | None => []
    end);
  match List.find (fun h => token_matches pairing_token h) stored with
  | Some _ =>
    execute (fun db => {| db with pairing_registration_proofs :=
      alter (fun p => {| p with rp_consumed := true |}) proof_hash (pairing_registration_proofs db) |})
  | None => throw (Auth "Missing or invalid pairing registration proof")
  end.

(** [INSERT OR IGNORE]. *)
Definition insert_or_ignore {V} (k : string) (v : V) (t : gmap string V) : gmap string V :=
  match t !! k with Some _ => t | None => <[k := v]> t end.

(** [register_device] after the key was decoded, up to the commit. *)
Definition register_body (now : Z) (req : RegisterDeviceRequest) : Tx unit :=
  public_key ← lift (ok_or (b64_decode (rd_public_key req)) (BadRequest "Invalid public key"));
  _ ← throw_if (negb (Z.of_nat (length public_key) =? 32)) (BadRequest "Public key must be 32 bytes");
  let vault := uuid_to_string (rd_vault_id req) in
  let device := uuid_to_string (rd_device_id req) in
  existing ← query (device_count vault);
  _ ← (if 0 <? existing then consume_proof vault now req else mret tt);
  _ ← execute (fun db => {| db with vaults :=
        insert_or_ignore vault {| v_created_at := now; v_entry_count := 0 |} (vaults db) |});
  _ ← execute (fun db => {| db with sequence_counters := insert_or_ignore vault 0 (sequence_counters db) |});
  _ ← throw_if (255 <? Z.of_nat (String.length (rd_device_name req)))
        (BadRequest "Device name must be 255 characters or fewer");
  _ ← execute (fun db => {| db with devices :=
        <[device := match devices db !! device with
                    | Some d => {| d with d_device_name := rd_device_name req |}
                    | None => {| d_vault_id := vault; d_device_name := rd_device_name req;
                                 d_device_type := rd_device_type req; d_public_key := public_key;
                                 d_registered_at := now; d_revoked := false; d_revoked_at := None |}
                    end]> (devices db) |});
  execute (fun db => {| db with device_sequences := insert_or_ignore device 0 (device_sequences db) |}).

Definition register_device (now : Z) (req : RegisterDeviceRequest) (db : DB) : result RelayError unit * DB :=
  run_tx (r ← register_body now req; _ ← commit; mret r) db.

(** [list_devices]: it only reads; SQL gives the rows in no particular order. *)
Definition list_devices (device_id : option Uuid) (db : DB) : result RelayError (list DeviceInfo) :=
  device_id ← ok_or device_id (Auth "No device ID");
  vault ← ok_or (device_vault (uuid_to_string device_id) db) (NotFound "Device not found");
  Ok ((fun kv => {| di_device_id := kv.1; di_device_name := d_device_name kv.2;
                    di_device_type := d_device_type kv.2; di_registered_at := d_registered_at kv.2;
                    di_revoked := d_revoked kv.2 |})
      <$> map_to_list (filter (fun kv => d_vault_id kv.2 = vault) (devices db))).

(** [revoke_device]; [target_id] is the path segment as text. *)
Definition revoke_device (requester : option Uuid) (target_id : string) (now : Z) (db : DB)
    : result RelayError unit * DB :=
  run_auto (
    requester ← lift (ok_or requester (Auth "No device ID"));
    requester_vault ← query_row (device_vault (uuid_to_string requester)) (NotFound "Requester device not found");
    target_vault ← query_row (device_vault target_id) (NotFound "Target device not found");
    _ ← throw_if (negb (String.eqb requester_vault target_vault))
          (Auth "Cannot revoke device from different vault");
    execute (fun db => {| db with devices :=
      alter (fun d => {| d with d_revoked := true; d_revoked_at := Some now |}) target_id (devices db) |})) db.

(** ** [migration_claim] *)

Definition already_claimed_msg (claimed_by : string) : RelayError :=
  Conflict ("origin vault already re-baselined by device " +:+ claimed_by
            +:+ "; re-onboard through that device's v2 pairing instead").

(** A plain [INSERT] into a table keyed by [k]. *)
Definition insert_new {V} (get : DB -> gmap string V) (set : gmap string V -> DB -> DB)
    (k : string) (v : V) (table : string) : Tx unit :=
  taken ← query (fun db => bool_decide (is_Some (get db !! k)));
  _ ← throw_if taken (Database ("UNIQUE constraint failed: " +:+ table));
  execute (fun db => set (<[k := v]> (get db)) db).

Definition claim_body (new_vault : Uuid) (device_id : option Uuid) (now : Z) (origin_vault_id : Uuid) : Tx Uuid :=
  device_id ← lift (ok_or device_id (Auth "No device ID"));
  let origin := uuid_to_string origin_vault_id in
  let fresh := uuid_to_string new_vault in
  let device := uuid_to_string device_id in
  claimed ← query (fun db => mc_claimed_by <$> migration_claims db !! origin);
  _ ← (match claimed with Some by_ => throw (already_claimed_msg by_) | None => mret tt end);
  claimant_vault ← query_row (device_vault device) (NotFound "Device not found");
  _ ← throw_if (negb (String.eqb claimant_vault origin))
        (BadRequest "claimant device does not belong to the origin vault");
  existing ← query (fun db => migration_claims db !! origin);
  _ ← (match existing with
       | Some c => throw (already_claimed_msg (mc_claimed_by c))
       | None => execute (fun db => {| db with migration_claims :=
                   <[origin := {| mc_new_vault_id := fresh; mc_claimed_by := device;
                                  mc_claimed_at := now |}]> (migration_claims db) |})
       end);
  _ ← insert_new vaults (fun t db => {| db with vaults := t |}) fresh
        {| v_created_at := now; v_entry_count := 0 |} "vaults";
  _ ← insert_new sequence_counters (fun t db => {| db with sequence_counters := t |}) fresh 0 "sequence_counters";
  _ ← execute (fun db => {| db with vault_epochs :=
        insert_or_ignore fresh {| ve_key_epoch := 1; ve_updated_at := now |} (vault_epochs db) |});
  _ ← execute (fun db => {| db with devices :=
        alter (fun d => {| d with d_vault_id := fresh |}) device (devices db) |});
  mret new_vault.

(** [migration_claim]. *)
Definition migration_claim (new_vault : Uuid) (device_id : option Uuid) (now : Z) (origin_vault_id : Uuid) (db : DB)
    : result RelayError Uuid * DB :=
  run_tx (r ← claim_body new_vault device_id now origin_vault_id; _ ← commit; mret r) db.

End Devices.
