(* ===== verification/RelayJoin.v ===== *)
(** * Relay: correctness of pairing, registration and migration

    A registration proof admits one device, a v2 bootstrap is handed out once,
    the attempt limiter blocks for a bounded time, and an authoritative claim
    is granted once per origin vault; and the whole join, upload, retrieve and
    register, goes through. *)

From S2P Require Import Prelude ThirdParty RelayStorage RelayPairing RelayDevices RelaySyncV2.
From Stdlib Require Import ZArith Lia.
From stdpp Require Import base list option strings numbers gmap.
Import RelayDemo.
Open Scope Z_scope.

(** A transaction that returns committed what its last [commit] saw. *)
Lemma run_tx_ok {A} (m : Tx A) db a db' :
  run_tx m db = (Ok a, db') ->
  exists c, m {| committed := db; working := db |} = (Ok a, c) /\ committed c = db'.
Proof. unfold run_tx. destruct (m _) as [r c]. intros [= -> <-]. eauto. Qed.

Section Join.
Context `{UuidText, Base64, Base64Url, Sha256, Argon2}.

(** ** Registration *)

Definition registered (now : Z) (req : RegisterDeviceRequest) (key : bytes) (db : DB) : DB :=
  let vault := uuid_to_string (rd_vault_id req) in
  let device := uuid_to_string (rd_device_id req) in
  {| db with
     vaults := insert_or_ignore vault {| v_created_at := now; v_entry_count := 0 |} (vaults db);
     sequence_counters := insert_or_ignore vault 0 (sequence_counters db);
     devices := <[device := match devices db !! device with
                    | Some d => {| d with d_device_name := rd_device_name req |}
                    | None => {| d_vault_id := vault; d_device_name := rd_device_name req;
                                 d_device_type := rd_device_type req; d_public_key := key;
                                 d_registered_at := now; d_revoked := false; d_revoked_at := None |}
                    end]> (devices db);
     device_sequences := insert_or_ignore device 0 (device_sequences db) |}.

Definition spend_proof (ph : string) (db : DB) : DB :=
  {| db with pairing_registration_proofs :=
       alter (fun p => {| p with rp_consumed := true |}) ph (pairing_registration_proofs db) |}.

(** The proof a registration presents is staged, usable, bound to the token
    it presents. *)
Record proof_valid (vault : string) (now : Z) (req : RegisterDeviceRequest) (db : DB) (ph : string) : Prop := {
  pv_hash : exists proof, rd_registration_proof req = Some proof /\ hash_registration_proof_b64 proof = Ok ph;
  pv_row : exists token p, rd_pairing_token req = Some token /\ pairing_registration_proofs db !! ph = Some p /\
    rp_vault_id p = vault /\ now < rp_expires_at p /\ rp_consumed p = false /\
    token_matches token (rp_pairing_token_hash p) = true;
}.

Lemma proof_usable_spec vault now p :
  proof_usable vault now p = true <-> rp_vault_id p = vault /\ now < rp_expires_at p /\ rp_consumed p = false.
Proof.
  unfold proof_usable. rewrite !andb_true_iff, String.eqb_eq, Z.ltb_lt, negb_true_iff. tauto.
Qed.

Lemma consume_proof_ok vault now req c u c' :
  consume_proof vault now req c = (Ok u, c') ->
  exists ph, proof_valid vault now req (working c) ph /\
    c' = {| committed := committed c; working := spend_proof ph (working c) |}.
Proof.
  unfold consume_proof. intros Hc. tx_inv. result_inv.
  match goal with E : hash_registration_proof_b64 _ = Ok ?ph |- _ => exists ph; rename E into Eh; set (h := ph) in * end.
  destruct (pairing_registration_proofs (working c) !! h) as [p|] eqn:Ep; [|done].
  destruct (proof_usable vault now p) eqn:Eu; [|done]. simpl in Hc.
  destruct (token_matches _ (rp_pairing_token_hash p)) eqn:Et; [|done]. tx_inv. split; [|done].
  apply proof_usable_spec in Eu as (? & ? & ?). constructor; [eauto|]. do 2 eexists. split_and!; done.
Qed.

Lemma consume_proof_run vault now req c ph :
  proof_valid vault now req (working c) ph ->
  consume_proof vault now req c = (Ok tt, {| committed := committed c; working := spend_proof ph (working c) |}).
Proof.
  intros [(proof & Epr & Eh) (token & p & Etk & Ep & Hv & He & Hc & Hm)].
  unfold consume_proof, mbind, Tx_bind, lift, query. rewrite Etk, Epr. simpl. rewrite Eh, Ep.
  rewrite (proj2 (proof_usable_spec vault now p)) by done. simpl. by rewrite Hm.
Qed.

(** A registration succeeded exactly like this. *)
Lemma register_ok now req db u db' :
  register_device now req db = (Ok u, db') ->
  exists key db0, b64_decode (rd_public_key req) = Some key /\ length key = 32%nat /\
    (db0 = db /\ device_count (uuid_to_string (rd_vault_id req)) db = 0 \/
     exists ph, 0 < device_count (uuid_to_string (rd_vault_id req)) db /\
       proof_valid (uuid_to_string (rd_vault_id req)) now req db ph /\ db0 = spend_proof ph db) /\
    db' = registered now req key db0.
Proof.
  intros (c & Hm & <-)%run_tx_ok. unfold register_body in Hm.
  apply bind_ok in Hm as (u0 & c0 & Hm & Hc). apply bind_ok in Hc as (u1 & c1 & Hc & Hr). apply commit_ok in Hc as ->. injection Hr as <- <-.
  apply bind_ok in Hm as (key & c1 & Hk & Hm). apply lift_ok in Hk as [Hk ->]. result_inv.
  apply bind_ok in Hm as (u3 & c1 & Hl & Hm). apply throw_if_ok in Hl as [Hl ->]. cbv zeta in Hm.
  apply bind_ok in Hm as (n & c1 & Hn & Hm). apply query_ok in Hn as [-> ->].
  apply bind_ok in Hm as (u2 & c1 & Hp & Hm). propify. exists key, (working c1).
  split; [done|]. split; [lia|]. split.
  - simpl in Hp. destruct (0 <? _) eqn:E; propify.
    + right. apply consume_proof_ok in Hp as (ph & Hv & ->). exists ph. done.
    + left. tx_inv. split; [done|]. unfold device_count in *. lia.
  - tx_inv. simpl. reflexivity.
Qed.

Lemma register_run now req db db0 key :
  b64_decode (rd_public_key req) = Some key -> length key = 32%nat ->
  Z.of_nat (String.length (rd_device_name req)) <= 255 ->
  (db0 = db /\ device_count (uuid_to_string (rd_vault_id req)) db = 0 \/
   exists ph, 0 < device_count (uuid_to_string (rd_vault_id req)) db /\
     proof_valid (uuid_to_string (rd_vault_id req)) now req db ph /\ db0 = spend_proof ph db) ->
  register_device now req db = (Ok tt, registered now req key db0).
Proof.
  intros Hk Hlen Hname Hp. unfold register_device, run_tx, register_body, mbind, Tx_bind, lift, throw_if, query, execute.
  simpl. rewrite Hk. simpl. unfold lift. rewrite Hlen. simpl.
  assert ((255 <? Z.of_nat (String.length (rd_device_name req))) = false) as Hn by (apply Z.ltb_ge; lia).
  destruct Hp as [[-> Hz]|(ph & Hpos & Hv & ->)].
  - rewrite Hz. simpl. rewrite Hn. done.
  - rewrite (proj2 (Z.ltb_lt _ _)) by done.
    rewrite (consume_proof_run _ _ _ {| committed := db; working := db |} ph) by done. simpl. rewrite Hn. done.
Qed.

Lemma register_err now req db e db' : register_device now req db = (Err e, db') -> db' = db.
Proof.
  unfold register_device. rewrite (run_tx_atomic _ (fun r => r)).
  - destruct (register_body _ _ _) as [[r|e'] c]; naive_solver.
  - unfold register_body, consume_proof. uncommitting.
Qed.

(** A vault that has devices admits a new registration only against a
    staged, unexpired, unspent proof bound to the presented token; the
    registration spends it, and no later registration, of any device, at any
    time, gets in with the same proof. *)
Theorem register_spends_proof now req db u db' :
  register_device now req db = (Ok u, db') ->
  0 < device_count (uuid_to_string (rd_vault_id req)) db ->
  exists ph, proof_valid (uuid_to_string (rd_vault_id req)) now req db ph /\
    forall now' req', rd_registration_proof req' = rd_registration_proof req ->
      0 < device_count (uuid_to_string (rd_vault_id req')) db' ->
      exists e, register_device now' req' db' = (Err e, db').
Proof.
  intros (key & db0 & Hk & Hlen & [[-> Hz]|(ph & _ & Hv & ->)] & ->)%register_ok Hpos; [lia|].
  exists ph. split; [done|]. intros now' req' Hsame Hpos'.
  set (db' := registered _ _ _ _) in *.
  destruct (register_device now' req' db') as [[u'|e] db''] eqn:E; [exfalso|].
  - apply register_ok in E as (key' & db1 & _ & _ & [[-> Hz]|(ph' & _ & Hv' & ->)] & _); [lia|].
    destruct Hv as [(proof & Epr & Eh) (token & p & _ & Ep & _)].
    destruct Hv' as [(proof' & Epr' & Eh') (token' & p' & _ & Ep' & _ & _ & Hun & _)].
    rewrite Hsame, Epr in Epr'. injection Epr' as <-. rewrite Eh in Eh'. injection Eh' as <-.
    simpl in Ep'. rewrite lookup_alter_eq, Ep in Ep'. injection Ep' as <-. done.
  - exists e. by apply register_err in E as ->.
Qed.

(** Registering never rebinds a known device: whatever request succeeds,
    every device that was there keeps its vault, key, type, registration time
    and revocation; only a device's display name can change. *)
Theorem register_keeps_identity now req db r db' id d :
  register_device now req db = (r, db') -> devices db !! id = Some d ->
  exists name, devices db' !! id = Some {| d with d_device_name := name |}.
Proof.
  intros Hr Hd. destruct r as [u|e].
  - apply register_ok in Hr as (key & db0 & _ & _ & Hp & ->).
    assert (devices db0 = devices db) as E by (destruct Hp as [[-> _]|(? & _ & _ & ->)]; done).
    simpl. rewrite E, lookup_insert. case_decide; subst; [rewrite Hd; eauto|].
    exists (d_device_name d). rewrite Hd. by destruct d.
  - apply register_err in Hr as ->. exists (d_device_name d). rewrite Hd. by destruct d.
Qed.

(** ** The attempt limiter *)

Definition attempt_lookup (secret : PairingSecret) : string := hash_bytes_hex (as_bytes (ps_id secret)).

Definition counted (now : Z) (old : option AttemptRow) : AttemptRow :=
  match old with
  | Some a => {| a with fa_attempts := fa_attempts a + 1; fa_last_attempt_at := now |}
  | None => {| fa_attempts := 1; fa_first_attempt_at := now; fa_last_attempt_at := now; fa_blocked_until := 0 |}
  end.

Definition with_attempt (k : string) (a : AttemptRow) (db : DB) : DB :=
  {| db with pairing_fetch_attempts := <[k := a]> (pairing_fetch_attempts db) |}.

(** The three ways an attempt goes. *)
Lemma count_attempt_run cfg now k c :
  let old := pairing_fetch_attempts (working c) !! k in
  let a := counted now old in
  count_attempt cfg now k c =
    if match old with Some o => now <? fa_blocked_until o | None => false end then (Err RateLimited, c)
    else if Z.max (pairing_fetch_attempt_limit cfg) 1 <? fa_attempts a then
      let db' := with_attempt k {| a with fa_blocked_until := now + u64_as_i64 (backoff_secs cfg (fa_attempts a)) |} (working c) in
      (Err RateLimited, {| committed := db'; working := db' |})
    else (Ok tt, {| committed := committed c; working := with_attempt k a (working c) |}).
Proof.
  destruct c as [cc db]. unfold count_attempt, mbind, Tx_bind, query, throw_if, lift, execute, throw, commit. simpl.
  destruct (pairing_fetch_attempts db !! k) as [o|] eqn:Eo; simpl.
  - destruct (now <? fa_blocked_until o); simpl; [done|].
    destruct (_ <? _); simpl; unfold with_attempt; simpl; [|done].
    do 2 f_equal; (f_equal; apply map_eq; intros j; rewrite lookup_alter, !lookup_insert; repeat case_decide; simplify_eq; done).
  - destruct (_ <? _); simpl; unfold with_attempt; simpl; [|done].
    do 2 f_equal; (f_equal; apply map_eq; intros j; rewrite lookup_alter, !lookup_insert; repeat case_decide; simplify_eq; done).
Qed.

Lemma backoff_bounds cfg n :
  pairing_fetch_backoff_base_secs cfg < 2 ^ 64 ->
  let base := Z.max (pairing_fetch_backoff_base_secs cfg) 1 in
  base <= backoff_secs cfg n <= Z.max (pairing_fetch_backoff_max_secs cfg) base.
Proof.
  intros Hb base. unfold backoff_secs, u64_saturating_mul. fold base.
  rewrite Z.shiftl_mul_pow2.
  2:{ apply Z.min_glb; [apply Z.mod_pos_bound; lia|lia]. }
  assert (1 <= 2 ^ Z.min (Z.max (n - Z.max (pairing_fetch_attempt_limit cfg) 1 - 1) 0 mod 2 ^ 32) 16).
  { apply (Z.pow_le_mono_r 2 0); [lia|]. apply Z.min_glb; [apply Z.mod_pos_bound; lia|lia]. }
  nia.
Qed.

Lemma retrieve_limited cfg salt now encoded secret db e c :
  parse_secret encoded = Ok secret ->
  count_attempt cfg now (attempt_lookup secret) {| committed := db; working := db |} = (Err e, c) ->
  retrieve_bootstrap_v2 cfg salt now encoded db = (Err e, committed c).
Proof.
  intros Hs Hc. unfold retrieve_bootstrap_v2, run_tx, mbind at 1, Tx_bind at 1, lift. rewrite Hs.
  fold (attempt_lookup secret). unfold mbind at 1, Tx_bind at 1. by rewrite Hc.
Qed.

(** Once a secret has used up its attempts, every further retrieve is
    answered with a rate limit: the attempt is recorded, retrieval is blocked
    for at least the base and at most the maximum backoff, and nothing
    changes until the block has run out. *)
Theorem retrieve_v2_backoff cfg salt now encoded secret db a :
  pairing_fetch_backoff_base_secs cfg < 2 ^ 63 -> pairing_fetch_backoff_max_secs cfg < 2 ^ 63 ->
  parse_secret encoded = Ok secret ->
  pairing_fetch_attempts db !! attempt_lookup secret = Some a ->
  Z.max (pairing_fetch_attempt_limit cfg) 1 <= fa_attempts a -> fa_blocked_until a <= now ->
  let base := Z.max (pairing_fetch_backoff_base_secs cfg) 1 in
  exists db' a', retrieve_bootstrap_v2 cfg salt now encoded db = (Err RateLimited, db') /\
    pairing_fetch_attempts db' !! attempt_lookup secret = Some a' /\
    fa_attempts a' = fa_attempts a + 1 /\
    now + base <= fa_blocked_until a' <= now + Z.max (pairing_fetch_backoff_max_secs cfg) base /\
    forall salt' now', now' < fa_blocked_until a' ->
      retrieve_bootstrap_v2 cfg salt' now' encoded db' = (Err RateLimited, db').
Proof.
  intros Hb Hm Hs Ha Hn Hbl base.
  set (a' := {| a with fa_attempts := fa_attempts a + 1; fa_last_attempt_at := now;
                       fa_blocked_until := now + u64_as_i64 (backoff_secs cfg (fa_attempts a + 1)) |}).
  exists (with_attempt (attempt_lookup secret) a' db), a'.
  pose proof (backoff_bounds cfg (fa_attempts a + 1) ltac:(lia)) as Hbk. cbv zeta in Hbk. fold base in Hbk.
  assert (u64_as_i64 (backoff_secs cfg (fa_attempts a + 1)) = backoff_secs cfg (fa_attempts a + 1)) as Eu.
  { unfold u64_as_i64. case_goal; propify; lia. }
  split_and!.
  - rewrite (retrieve_limited _ _ _ _ secret _ RateLimited
      (let db' := with_attempt (attempt_lookup secret) a' db in {| committed := db'; working := db' |})); [done..|].
    rewrite count_attempt_run. simpl. rewrite Ha. simpl.
    rewrite (proj2 (Z.ltb_ge _ _)) by lia. rewrite (proj2 (Z.ltb_lt _ _)) by lia. done.
  - simpl. by rewrite lookup_insert_eq.
  - done.
  - simpl. rewrite Eu. lia.
  - simpl. rewrite Eu. lia.
  - intros salt' now' Hlt. set (db' := with_attempt _ _ _).
    rewrite (retrieve_limited _ _ _ _ secret _ RateLimited {| committed := db'; working := db' |}); [done..|].
    rewrite count_attempt_run. simpl. rewrite lookup_insert_eq. by rewrite (proj2 (Z.ltb_lt _ _)) by done.
Qed.

(** ** One-use bootstraps *)

Lemma count_attempt_ok cfg now k c u c' :
  count_attempt cfg now k c = (Ok u, c') ->
  c' = {| committed := committed c; working := with_attempt k (counted now (pairing_fetch_attempts (working c) !! k)) (working c) |}.
Proof. rewrite count_attempt_run. cbv zeta. repeat case_goal; by intros [= _ <-]. Qed.

Definition consume_v2 (id : string) (db : DB) : DB :=
  {| db with pairing_bootstraps_v2 := alter (fun b => {| b with b2_consumed := true |}) id (pairing_bootstraps_v2 db) |}.

Lemma find_v2_Some id now db row :
  find_v2 id now db = Some row <-> pairing_bootstraps_v2 db !! id = Some row /\ active_v2 now row.
Proof.
  unfold find_v2. destruct (pairing_bootstraps_v2 db !! id) as [r|]; simpl; [|naive_solver].
  case_decide; naive_solver.
Qed.

(** A successful retrieve: the secret matched an active bootstrap, which is
    consumed, and its registration proof is staged. *)
Lemma retrieve_ok cfg salt now encoded db resp db' :
  retrieve_bootstrap_v2 cfg salt now encoded db = (Ok resp, db') ->
  exists secret row ph th,
    parse_secret encoded = Ok secret /\
    pairing_bootstraps_v2 db !! ps_id secret = Some row /\ active_v2 now row /\
    token_matches (ps_raw secret) (b2_secret_hash row) = true /\
    hash_registration_proof_b64 (b64_encode (b2_registration_proof row)) = Ok ph /\
    hash_pairing_token salt (ps_raw secret) = Ok th /\
    pairing_registration_proofs db !! ph = None /\
    resp = {| r2_encrypted_bootstrap := b64_encode (b2_encrypted_bootstrap row);
              r2_registration_proof := b64_encode (b2_registration_proof row) |} /\
    db' = {| db with
      pairing_bootstraps_v2 := alter (fun b => {| b with b2_consumed := true |}) (ps_id secret) (pairing_bootstraps_v2 db);
      pairing_fetch_attempts := delete (attempt_lookup secret) (pairing_fetch_attempts db);
      pairing_registration_proofs := <[ph := {| rp_pairing_token_hash := th; rp_vault_id := b2_vault_id row;
        rp_expires_at := now + 300; rp_consumed := false |}]> (pairing_registration_proofs db) |}.
Proof.
  intros (c & Hm & <-)%run_tx_ok.
  apply bind_ok in Hm as (secret & c1 & Hs & Hm). apply lift_ok in Hs as [Hs ->]. cbv zeta in Hm.
  apply bind_ok in Hm as (u & c1 & Hc & Hm). apply count_attempt_ok in Hc as ->.
  apply bind_ok in Hm as (found & c1 & Hf & Hm). apply query_ok in Hf as [-> ->].
  destruct (find_v2 _ _ _) as [row|] eqn:Ef; [|tx_inv].
  apply find_v2_Some in Ef as [Er Hact]. simpl in Er.
  destruct (token_matches _ _) eqn:Et; simpl in Hm; [|tx_inv].
  unfold insert_proof, clear_attempts in Hm. tx_inv. propify. simpl in *.
  do 4 eexists. split_and!; try done.
  - by apply eq_None_not_Some.
  - f_equal. by rewrite delete_insert_eq.
Qed.

Lemma retrieve_run cfg salt now encoded secret row th db :
  parse_secret encoded = Ok secret -> pairing_bootstraps_v2 db !! ps_id secret = Some row -> active_v2 now row ->
  pairing_fetch_attempts db !! attempt_lookup secret = None ->
  token_matches (ps_raw secret) (b2_secret_hash row) = true ->
  hash_registration_proof_b64 (b64_encode (b2_registration_proof row)) = Ok (hash_bytes_hex (b2_registration_proof row)) ->
  hash_pairing_token salt (ps_raw secret) = Ok th ->
  pairing_registration_proofs db !! hash_bytes_hex (b2_registration_proof row) = None ->
  exists db', retrieve_bootstrap_v2 cfg salt now encoded db =
    (Ok {| r2_encrypted_bootstrap := b64_encode (b2_encrypted_bootstrap row);
           r2_registration_proof := b64_encode (b2_registration_proof row) |}, db').
Proof.
  intros Hs Hr Hact Ha Ht Hph Hth Hfresh. eexists.
  unfold retrieve_bootstrap_v2, run_tx, mbind at 1, Tx_bind at 1, lift. rewrite Hs.
  fold (attempt_lookup secret). unfold mbind at 1, Tx_bind at 1. rewrite count_attempt_run. simpl.
  rewrite Ha. simpl. rewrite (proj2 (Z.ltb_ge _ _)) by lia.
  unfold mbind, Tx_bind, query at 1. simpl.
  rewrite (proj2 (find_v2_Some (ps_id secret) now (with_attempt _ _ db) row)) by done.
  rewrite Ht. simpl. unfold insert_proof, clear_attempts, execute, lift, query, throw_if, mbind, Tx_bind. simpl.
  rewrite Hph, Hth. simpl. rewrite bool_decide_false by (rewrite Hfresh; by apply is_Some_None).
  reflexivity.
Qed.

(** An upload leaves the database alone or stores one unconsumed bootstrap in
    the place of none or of an unconsumed one. *)
Lemma upload_v2_effect cfg salt device_id now req db r db' :
  upload_bootstrap_v2 cfg salt device_id now req db = (r, db') ->
  (db' = db /\ is_ok r = false) \/
  exists d vault secret th encrypted proof row,
    is_ok r = true /\ device_id = Some d /\ device_vault (uuid_to_string d) db = Some vault /\
    parse_secret (u2_secret req) = Ok secret /\ hash_pairing_token salt (ps_raw secret) = Ok th /\
    b64_decode (u2_encrypted_bootstrap req) = Some encrypted /\
    b64_decode (u2_registration_proof req) = Some proof /\ length proof = 32%nat /\
    (forall o, pairing_bootstraps_v2 db !! ps_id secret = Some o -> b2_consumed o = false) /\
    row = {| b2_vault_id := default vault (b2_vault_id <$> pairing_bootstraps_v2 db !! ps_id secret);
             b2_secret_hash := th; b2_encrypted_bootstrap := encrypted; b2_registration_proof := proof;
             b2_expires_at := now + u64_as_i64 (pairing_ttl_secs cfg); b2_consumed := false;
             b2_received_at := now |} /\
    db' = {| db with pairing_bootstraps_v2 := <[ps_id secret := row]> (pairing_bootstraps_v2 db) |}.
Proof.
  unfold upload_bootstrap_v2, run_tx, mbind, Tx_bind, lift, query_row, query, throw_if, throw_if, commit.
  destruct device_id as [d|]; simpl; [|intros [= <- <-]; by left].
  destruct (parse_secret (u2_secret req)) as [secret|]; simpl; [|intros [= <- <-]; by left].
  destruct (b64_decode (u2_encrypted_bootstrap req)) as [encrypted|]; simpl; [|intros [= <- <-]; by left].
  unfold lift. destruct (err_if _ _); simpl; [|intros [= <- <-]; by left].
  destruct (b64_decode (u2_registration_proof req)) as [proof|]; simpl; [|intros [= <- <-]; by left].
  destruct (Z.of_nat (length proof) =? 32) eqn:El; simpl; [|intros [= <- <-]; by left]. propify.
  destruct (hash_pairing_token salt (ps_raw secret)) as [th|] eqn:Eth; simpl; [|intros [= <- <-]; by left].
  destruct (device_vault (uuid_to_string d) db) as [vault|] eqn:Ev; simpl; [|intros [= <- <-]; by left].
  destruct (err_if _ _); simpl; [|intros [= <- <-]; by left].
  unfold upsert_v2, mbind, Tx_bind, query, throw_if, lift, execute. simpl.
  destruct (pairing_bootstraps_v2 db !! ps_id secret) as [o|] eqn:Eo; simpl.
  - destruct (b2_consumed o) eqn:Ec; simpl; [intros [= <- <-]; by left|]. intros [= <- <-]. right.
    exists d, vault, secret, th, encrypted, proof. eexists. split_and!; try done; [lia|naive_solver|].
    by rewrite Eo.
  - intros [= <- <-]. right. exists d, vault, secret, th, encrypted, proof. eexists. split_and!; try done; [lia|naive_solver|].
    by rewrite Eo.
Qed.

Definition v2_consumed (id : string) (db : DB) : Prop :=
  exists row, pairing_bootstraps_v2 db !! id = Some row /\ b2_consumed row = true.

(** The public steps of pairing and registration. *)
Inductive pairing_step : DB -> DB -> Prop :=
| step_upload_v2 cfg salt d now req db : pairing_step db (upload_bootstrap_v2 cfg salt d now req db).2
| step_retrieve_v2 cfg salt now enc db : pairing_step db (retrieve_bootstrap_v2 cfg salt now enc db).2
| step_upload_v1 cfg salt d now req db : pairing_step db (upload_bootstrap cfg salt d now req db).2
| step_fetch_v1 cfg salt now token db : pairing_step db (fetch_bootstrap cfg salt now token db).2
| step_register now req db : pairing_step db (register_device now req db).2.

Definition keeps_v2 (id : string) (db db' : DB) : Prop := v2_consumed id db -> v2_consumed id db'.
#[local] Instance keeps_v2_preorder id : PreOrder (keeps_v2 id).
Proof. split; unfold keeps_v2; [by intros ??|naive_solver]. Qed.

Lemma pairing_step_consumed id db db' : pairing_step db db' -> v2_consumed id db -> v2_consumed id db'.
Proof.
  intros Hstep Hc. revert Hc.
  destruct Hstep as [cfg salt d now req db|cfg salt now enc db|cfg salt d now req db|cfg salt now token db|now req db].
  - destruct (upload_bootstrap_v2 _ _ _ _ _ _) as [r db'] eqn:E.
    apply upload_v2_effect in E as [[-> _]|(? & ? & secret & ? & ? & ? & row & _ & _ & _ & _ & _ & _ & _ & _ & Hun & _ & ->)]; [done|].
    intros (o & Ho & Hco). destruct (decide (id = ps_id secret)) as [->|Hne].
    + by rewrite (Hun _ Ho) in Hco.
    + exists o. simpl. by rewrite lookup_insert_ne.
  - destruct (retrieve_bootstrap_v2 _ _ _ _ _) as [r db'] eqn:E.
    apply (run_tx_preserves (keeps_v2 id)) in E; [done..|].
    unfold insert_proof, count_attempt, clear_attempts. preserving; try (by intros ?).
    intros (o & Ho & Hco). unfold v2_consumed. simpl.
    match goal with |- context [alter _ ?i _] => destruct (decide (id = i)) as [->|Hne] end.
    + rewrite lookup_alter_eq, Ho. simpl. eauto.
    + rewrite lookup_alter_ne by done. eauto.
  - destruct (upload_bootstrap _ _ _ _ _ _) as [r db'] eqn:E.
    apply (run_tx_preserves (keeps_v2 id)) in E; [done..|].
    unfold insert_proof, insert_bootstrap. preserving; by intros ?.
  - destruct (fetch_bootstrap _ _ _ _ _) as [r db'] eqn:E.
    apply (run_tx_preserves (keeps_v2 id)) in E; [done..|].
    unfold count_attempt, upgrade_legacy, clear_attempts. preserving; by intros ?.
  - destruct (register_device _ _ _) as [[u|e] db'] eqn:E.
    + apply register_ok in E as (? & db0 & _ & _ & Hp & ->). by destruct Hp as [[-> _]|(? & _ & _ & ->)].
    + by apply register_err in E as ->.
Qed.

(** A v2 bootstrap is handed out once: after a successful retrieve no
    retrieve of the same secret succeeds, whatever uploads, retrieves, v1
    pairings and registrations happen in between (until the hourly cleanup
    drops the consumed row). *)
Theorem retrieve_v2_one_use cfg salt now encoded secret db resp db1 db2 cfg' salt' now' encoded' secret' :
  parse_secret encoded = Ok secret -> parse_secret encoded' = Ok secret' -> ps_id secret' = ps_id secret ->
  retrieve_bootstrap_v2 cfg salt now encoded db = (Ok resp, db1) ->
  rtc pairing_step db1 db2 ->
  is_ok (retrieve_bootstrap_v2 cfg' salt' now' encoded' db2).1 = false.
Proof.
  intros Hs Hs' Hid (s & row & ph & th & Hs1 & Hr & _ & _ & _ & _ & _ & _ & ->)%retrieve_ok Hsteps.
  rewrite Hs in Hs1. injection Hs1 as <-.
  assert (v2_consumed (ps_id secret) db2) as (row2 & Hr2 & Hc2).
  { match type of Hsteps with rtc _ ?a _ => assert (v2_consumed (ps_id secret) a) as Hc end.
    { eexists. simpl. rewrite lookup_alter_eq, Hr. done. }
    clear -Hsteps Hc. induction Hsteps; eauto using pairing_step_consumed. }
  destruct (retrieve_bootstrap_v2 cfg' salt' now' encoded' db2) as [[resp'|e] db3] eqn:E; [|done].
  apply retrieve_ok in E as (s & row' & _ & _ & Hs1 & Hr' & [_ Hun] & _).
  rewrite Hs' in Hs1. injection Hs1 as <-. congruence.
Qed.

(** ** The whole join *)

Lemma token_matches_hash `{!Argon2Laws} salt token th :
  hash_pairing_token salt token = Ok th -> token_matches token th = true.
Proof.
  unfold hash_pairing_token, token_matches, verify_pairing_token.
  destruct (validate_pairing_token token) as [u|e]; [|done]. intros Hh. result_inv. cbn [mbind result_bind].
  match goal with E : argon2_hash_password _ _ = Some _ |- _ =>
    pose proof (argon2_hash_prefix _ _ _ E) as ->; destruct (argon2_verify_hash _ _ _ E) as [-> ->] end.
  done.
Qed.

Lemma hash_proof_encode `{!Base64Laws} proof :
  length proof = 32%nat -> hash_registration_proof_b64 (b64_encode proof) = Ok (hash_bytes_hex proof).
Proof.
  intros Hl. unfold hash_registration_proof_b64. rewrite b64_decode_encode. simpl. by rewrite Hl.
Qed.

Lemma device_count_pos d v db : device_vault d db = Some v -> 0 < device_count v db.
Proof.
  unfold device_vault, device_count. intros Hd. apply fmap_Some in Hd as (row & Hd & ->).
  enough (size (filter (fun kv => d_vault_id kv.2 = d_vault_id row) (devices db)) <> 0%nat) by lia.
  apply map_size_non_empty_iff. intros E.
  pose proof (map_lookup_filter_Some_2 (fun kv => d_vault_id kv.2 = d_vault_id row) (devices db) d row Hd eq_refl) as Hf.
  by rewrite E, lookup_empty in Hf.
Qed.

(** C40. Joining a vault: when a device of the vault uploads a bootstrap under
    a new secret, whoever knows the secret retrieves exactly the uploaded
    bytes within the time to live, and a device that then presents the secret
    and the retrieved proof within five minutes is registered in that vault,
    with its own key and not revoked. *)
Theorem pairing_v2_join `{!Base64Laws, !Argon2Laws} cfg d v salt0 salt1 t0 t1 t2 up secret th db
    encrypted proof req key :
  parse_secret (u2_secret up) = Ok secret ->
  device_vault (uuid_to_string d) db = Some v -> pairing_bootstraps_v2 db !! ps_id secret = None ->
  b64_decode (u2_encrypted_bootstrap up) = Some encrypted ->
  b64_decode (u2_registration_proof up) = Some proof ->
  is_ok (upload_bootstrap_v2 cfg salt0 (Some d) t0 up db).1 = true ->
  t1 < t0 + u64_as_i64 (pairing_ttl_secs cfg) ->
  pairing_fetch_attempts db !! attempt_lookup secret = None ->
  pairing_registration_proofs db !! hash_bytes_hex proof = None ->
  hash_pairing_token salt1 (ps_raw secret) = Ok th ->
  t2 < t1 + 300 ->
  uuid_to_string (rd_vault_id req) = v -> rd_pairing_token req = Some (ps_raw secret) ->
  rd_registration_proof req = Some (b64_encode proof) ->
  b64_decode (rd_public_key req) = Some key -> length key = 32%nat ->
  Z.of_nat (String.length (rd_device_name req)) <= 255 ->
  devices db !! uuid_to_string (rd_device_id req) = None ->
  let db1 := (upload_bootstrap_v2 cfg salt0 (Some d) t0 up db).2 in
  let db2 := (retrieve_bootstrap_v2 cfg salt1 t1 (u2_secret up) db1).2 in
  (retrieve_bootstrap_v2 cfg salt1 t1 (u2_secret up) db1).1 =
    Ok {| r2_encrypted_bootstrap := b64_encode encrypted; r2_registration_proof := b64_encode proof |} /\
  exists row, register_device t2 req db2 = (Ok tt, registered t2 req key (spend_proof (hash_bytes_hex proof) db2)) /\
    devices (register_device t2 req db2).2 !! uuid_to_string (rd_device_id req) = Some row /\
    d_vault_id row = v /\ d_public_key row = key /\ d_revoked row = false.
Proof.
  intros Hs Hv Hnone Henc Hpr Hok Ht1 Hatt Hph Hth Ht2 Hrv Hrt Hrp Hkey Hlen Hname Hnew.
  destruct (upload_bootstrap_v2 cfg salt0 (Some d) t0 up db) as [r db1] eqn:Eu. simpl in Hok. intros db1' db2.
  simpl in db1'. subst db1'.
  apply upload_v2_effect in Eu as [[_ Hno]|(d' & v' & s & th0 & enc' & proof' & row & _ & [= <-] & Ev & Es & Eth0 & Ee & Ep & Hpl & _ & Erow & Edb)];
    [by rewrite Hok in Hno|].
  rewrite Hv in Ev. injection Ev as <-. rewrite Hs in Es. injection Es as <-.
  rewrite Henc in Ee. injection Ee as <-. rewrite Hpr in Ep. injection Ep as <-. rewrite Hnone in Erow. simpl in Erow.
  assert (pairing_bootstraps_v2 db1 !! ps_id secret = Some row) as Hrow by (rewrite Edb; simpl; by rewrite lookup_insert_eq).
  pose proof (hash_proof_encode proof Hpl) as Hhp.
  destruct (retrieve_run cfg salt1 t1 (u2_secret up) secret row th db1) as (db2' & Hret);
    [done..|by subst|by subst|subst row; simpl; by eapply token_matches_hash|by subst row|done|by subst|].
  assert (db2 = db2') as -> by (unfold db2; by rewrite Hret). rewrite Hret.
  apply retrieve_ok in Hret as (s & row' & ph & th' & Hs' & Hr' & _ & _ & Hp' & Hth' & _ & _ & Edb2).
  rewrite Hs in Hs'. injection Hs' as <-. rewrite Hrow in Hr'. injection Hr' as <-.
  rewrite Hth in Hth'. injection Hth' as <-. subst row. simpl in Hp'. rewrite Hhp in Hp'. injection Hp' as <-.
  split; [done|].
  assert (devices db2' = devices db) as Hdev by (rewrite Edb2; simpl; by rewrite Edb).
  rewrite (register_run t2 req db2' (spend_proof (hash_bytes_hex proof) db2') key); try done.
  - eexists. split; [done|]. simpl. rewrite Hdev, Hnew, lookup_insert_eq. done.
  - right. exists (hash_bytes_hex proof). rewrite Hrv. split_and!; [|constructor|done].
    + apply (device_count_pos (uuid_to_string d)). unfold device_vault. by rewrite Hdev.
    + by exists (b64_encode proof).
    + exists (ps_raw secret). eexists. rewrite Edb2. simpl. rewrite lookup_insert_eq.
      split_and!; try done. simpl. by eapply token_matches_hash.
Qed.

(** ** The authoritative claim *)

Definition claimed (new_vault : string) (device : string) (now : Z) (origin : string) (db : DB) : DB :=
  {| db with
     migration_claims := <[origin := {| mc_new_vault_id := new_vault; mc_claimed_by := device; mc_claimed_at := now |}]> (migration_claims db);
     vaults := <[new_vault := {| v_created_at := now; v_entry_count := 0 |}]> (vaults db);
     sequence_counters := <[new_vault := 0]> (sequence_counters db);
     vault_epochs := insert_or_ignore new_vault {| ve_key_epoch := 1; ve_updated_at := now |} (vault_epochs db);
     devices := alter (fun d => {| d with d_vault_id := new_vault |}) device (devices db) |}.

Lemma claim_ok new_vault device_id now origin db r db' :
  migration_claim new_vault device_id now origin db = (Ok r, db') ->
  exists d, device_id = Some d /\ r = new_vault /\
    device_vault (uuid_to_string d) db = Some (uuid_to_string origin) /\
    migration_claims db !! uuid_to_string origin = None /\
    vaults db !! uuid_to_string new_vault = None /\
    sequence_counters db !! uuid_to_string new_vault = None /\
    db' = claimed (uuid_to_string new_vault) (uuid_to_string d) now (uuid_to_string origin) db.
Proof.
  unfold migration_claim. rewrite (run_tx_atomic _ (fun r => r)).
  2:{ unfold claim_body, insert_new. uncommitting. }
  destruct (claim_body _ _ _ _ _) as [[r'|e] c] eqn:Hb; [|done]. intros [= <- <-].
  unfold claim_body in Hb. apply bind_ok in Hb as (d & c1 & Hd & Hb). apply lift_ok in Hd as [Hd ->]. result_inv.
  exists d. split; [done|]. cbv zeta in Hb.
  apply bind_ok in Hb as (cl & c1 & Hcl & Hb). apply query_ok in Hcl as [-> ->].
  apply bind_ok in Hb as (u & c1 & Hn & Hb). simpl in Hn.
  destruct (migration_claims db !! uuid_to_string origin) as [cr|] eqn:Ec; simpl in Hn; [tx_inv|].
  injection Hn as _ <-.
  apply bind_ok in Hb as (cv & c1 & Hcv & Hb). apply query_row_ok in Hcv as [Hcv ->]. simpl in Hcv.
  apply bind_ok in Hb as (u1 & c1 & Hg & Hb). apply throw_if_ok in Hg as [Hg ->].
  apply bind_ok in Hb as (ex & c1 & Hex & Hb). apply query_ok in Hex as [-> ->]. simpl in Hb. rewrite Ec in Hb.
  tx_step Hb. unfold insert_new in Hb.
  apply bind_ok in Hb as (u2 & c2 & Hi & Hb). do 2 tx_step Hi. apply execute_ok in Hi. db_red Hi. subst c2.
  apply bind_ok in Hb as (u3 & c3 & Hi & Hb). do 2 tx_step Hi. apply execute_ok in Hi. db_red Hi. subst c3.
  do 2 tx_step Hb. injection Hb as <- <-. propify. apply String.eqb_eq in Hg. subst cv. simpl in *.
  split_and!; try done; by apply eq_None_not_Some.
Qed.

Lemma claim_run new_vault d now origin db :
  device_vault (uuid_to_string d) db = Some (uuid_to_string origin) ->
  migration_claims db !! uuid_to_string origin = None ->
  vaults db !! uuid_to_string new_vault = None -> sequence_counters db !! uuid_to_string new_vault = None ->
  migration_claim new_vault (Some d) now origin db =
    (Ok new_vault, claimed (uuid_to_string new_vault) (uuid_to_string d) now (uuid_to_string origin) db).
Proof.
  intros Hv Hc Hnv Hns. unfold migration_claim, run_tx, claim_body, insert_new, mbind, Tx_bind, lift, query, query_row.
  simpl. rewrite Hc. simpl. rewrite Hv. simpl. unfold throw_if, lift. rewrite String.eqb_refl. simpl. rewrite Hc. simpl.
  rewrite Hnv, bool_decide_false by (by apply is_Some_None). simpl.
  rewrite Hns, bool_decide_false by (by apply is_Some_None). done.
Qed.

Lemma claim_err new_vault device_id now origin db e db' :
  migration_claim new_vault device_id now origin db = (Err e, db') -> db' = db.
Proof.
  unfold migration_claim. rewrite (run_tx_atomic _ (fun r => r)).
  2:{ unfold claim_body, insert_new. uncommitting. }
  destruct (claim_body _ _ _ _ _) as [[r'|e'] c] eqn:Hb; naive_solver.
Qed.

(** Only a device of the origin vault is granted the claim; the grant
    moves that device to the fresh vault, with an empty history; and once an
    origin has been claimed every later claim of it, by any device, is refused
    with a conflict that names the claimant and changes nothing. *)
Theorem migration_claim_once new_vault d now origin db r db' :
  migration_claim new_vault (Some d) now origin db = (Ok r, db') ->
  device_vault (uuid_to_string d) db = Some (uuid_to_string origin) /\
  device_vault (uuid_to_string d) db' = Some (uuid_to_string new_vault) /\
  sequence_counters db' !! uuid_to_string new_vault = Some 0 /\
  forall new_vault' d' now',
    migration_claim new_vault' (Some d') now' origin db' =
      (Err (already_claimed_msg (uuid_to_string d)), db').
Proof.
  intros (d0 & [= <-] & -> & Hv & Hcl & Hnv & Hns & ->)%claim_ok. split_and!; [done|..].
  - unfold device_vault in *. simpl. apply fmap_Some in Hv as (row & Hr & _).
    rewrite lookup_alter_eq, Hr. done.
  - simpl. by rewrite lookup_insert_eq.
  - intros new_vault' d' now'. unfold migration_claim, run_tx, claim_body, mbind, Tx_bind, lift, query. simpl.
    rewrite lookup_insert_eq. done.
Qed.

(** A claim by the only device of a vault leaves the vault open: with no
    device left in it, any registration into it with a well-formed key succeeds
    without a pairing token or a proof. *)
Theorem claim_opens_origin new_vault d now origin db r db' vr now' req key :
  migration_claim new_vault (Some d) now origin db = (Ok r, db') ->
  vaults db !! uuid_to_string origin = Some vr -> device_count (uuid_to_string origin) db = 1 ->
  rd_vault_id req = origin -> rd_pairing_token req = None -> rd_registration_proof req = None ->
  b64_decode (rd_public_key req) = Some key -> length key = 32%nat ->
  Z.of_nat (String.length (rd_device_name req)) <= 255 ->
  register_device now' req db' = (Ok tt, registered now' req key db').
Proof.
  intros (d0 & [= <-] & -> & Hv & Hcl & Hnv & Hns & ->)%claim_ok Hvr Hcount Hrv _ _ Hkey Hlen Hname.
  apply register_run; [done..|]. left. split; [done|]. rewrite Hrv.
  assert (uuid_to_string new_vault <> uuid_to_string origin) as Hne by (intros E; rewrite E in Hnv; congruence).
  unfold device_vault in Hv. apply fmap_Some in Hv as (row & Hr & Hrow).
  unfold device_count in *. simpl.
  assert (filter (fun kv => d_vault_id kv.2 = uuid_to_string origin)
    (alter (fun d => {| d with d_vault_id := uuid_to_string new_vault |}) (uuid_to_string d) (devices db)) = ∅) as ->; [|done].
  apply map_empty_filter_2. intros id row' Hid Horig. simpl in Horig.
  destruct (decide (id = uuid_to_string d)) as [->|Hid'].
  { rewrite lookup_alter_eq, Hr in Hid. injection Hid as <-. simpl in Horig. done. }
  rewrite lookup_alter_ne in Hid by done.
  set (f := filter (fun kv : string * DeviceRow => d_vault_id kv.2 = uuid_to_string origin) (devices db)) in Hcount.
  assert (f !! id = Some row') as H1' by (by apply map_lookup_filter_Some_2).
  assert (f !! uuid_to_string d = Some row) as H2' by (by apply map_lookup_filter_Some_2).
  assert (size f = 1%nat) as Hsz by (unfold f in *; lia).
  pose proof (map_size_delete (uuid_to_string d) f) as Hdel. rewrite H2', Hsz in Hdel. simpl in Hdel.
  apply map_size_empty_inv in Hdel.
  assert (delete (uuid_to_string d) f !! id = Some row') as Hin by (by rewrite lookup_delete_ne).
  by rewrite Hdel, lookup_empty in Hin.
Qed.

(** ** Guessing v1 pairing codes *)

(** A sequence of fetches at given times. *)
Fixpoint fetch_all (cfg : RelayConfig) (salt : string) (guesses : list (Z * string)) (db : DB)
    : list (result RelayError BootstrapResponse) :=
  match guesses with
  | [] => []
  | (now, token) :: guesses =>
    let (r, db) := fetch_bootstrap cfg salt now token db in r :: fetch_all cfg salt guesses db
  end.

Definition guess_lookup (token : string) : string := hash_bytes_hex (as_bytes token).

Definition same_attempt (k : string) (db db' : DB) : Prop :=
  pairing_fetch_attempts db' !! k = pairing_fetch_attempts db !! k.
#[local] Instance same_attempt_preorder k : PreOrder (same_attempt k).
Proof. split; unfold same_attempt; [by intros ?|congruence]. Qed.

Lemma fetch_other_attempt cfg salt now token db k :
  k <> guess_lookup token -> same_attempt k db (fetch_bootstrap cfg salt now token db).2.
Proof.
  intros Hk. destruct (fetch_bootstrap cfg salt now token db) as [r db'] eqn:E.
  apply (run_tx_preserves (same_attempt k)) in E; [done..|].
  unfold count_attempt, upgrade_legacy, clear_attempts. preserving; unfold same_attempt; simpl; fold (guess_lookup token).
  all: by rewrite ?lookup_insert_ne, ?lookup_alter_ne, ?lookup_delete_ne by done.
Qed.

Lemma fetch_fresh_not_limited cfg salt now token db :
  pairing_fetch_attempts db !! guess_lookup token = None ->
  (fetch_bootstrap cfg salt now token db).1 <> Err RateLimited.
Proof.
  intros Ha. unfold fetch_bootstrap. fold (guess_lookup token).
  unfold run_tx, mbind at 1, Tx_bind at 1. rewrite count_attempt_run. simpl. rewrite Ha. simpl.
  rewrite (proj2 (Z.ltb_ge _ _)) by lia.
  unfold mbind at 1, Tx_bind at 1, query. cbv beta iota.
  destruct (List.find _ _) as [row|]; [|done].
  unfold upgrade_legacy, clear_attempts, mbind, Tx_bind, execute, commit, query, throw_if, lift.
  repeat (case_goal; simplify_eq/=; try done).
  all: match goal with E : err_if ?b _ = Err _ |- _ => destruct b; simplify_eq/=; done end.
Qed.

(** The v1 attempt limiter does not slow a search of the code space: any
    number of guesses at distinct codes is answered without a single rate
    limit, because an attempt is counted against the guessed code. *)
Theorem fetch_guesses_unlimited cfg salt guesses db :
  NoDup (guess_lookup ∘ snd <$> guesses) ->
  (forall now token, (now, token) ∈ guesses -> pairing_fetch_attempts db !! guess_lookup token = None) ->
  Forall (fun r => r <> Err RateLimited) (fetch_all cfg salt guesses db).
Proof.
  revert db. induction guesses as [|[now token] guesses IH]; intros db Hnd Hnone; simpl; [constructor|].
  apply NoDup_cons in Hnd as [Hnot Hnd]. simpl in Hnot.
  pose proof (fetch_fresh_not_limited cfg salt now token db (Hnone now token (list_elem_of_here _ _))) as Hr.
  pose proof (fun k => fetch_other_attempt cfg salt now token db k) as Hother.
  destruct (fetch_bootstrap cfg salt now token db) as [r db']. simpl in *. constructor; [done|].
  apply IH; [done|]. intros now' token' Hin. rewrite Hother.
  - by eapply Hnone, list_elem_of_further.
  - intros E. apply Hnot. rewrite <- E. apply (list_elem_of_fmap_2 (guess_lookup ∘ snd) guesses (now', token') Hin).
Qed.

End Join.

(** ** Witnesses *)

Definition demo_secret_text : string := b64_encode (repeat Byte.x05 32).
Definition demo_proof : bytes := repeat Byte.x09 32.
Definition demo_upload : UploadBootstrapV2Request := {|
  u2_secret := demo_secret_text; u2_encrypted_bootstrap := "AAEC";
  u2_registration_proof := b64_encode demo_proof |}.
Definition demo_secret : PairingSecret := {|
  ps_id := hex_encode (take 16 (sha256 (repeat Byte.x05 32))); ps_raw := demo_secret_text |}.
Definition demo_device3 : Uuid := from_u128 23.
Definition demo_register : RegisterDeviceRequest := {|
  rd_device_id := demo_device3; rd_device_name := "phone"; rd_device_type := "mobile";
  rd_public_key := b64_encode demo_key; rd_vault_id := demo_vault;
  rd_pairing_token := Some demo_secret_text; rd_registration_proof := Some (b64_encode demo_proof) |}.

Definition demo_uploaded : DB := (upload_bootstrap_v2 default_config "s" (Some demo_device1) 100 demo_upload demo_db).2.
Definition demo_retrieved : DB := (retrieve_bootstrap_v2 default_config "t" 110 demo_secret_text demo_uploaded).2.
Definition demo_joined : DB := (register_device 120 demo_register demo_retrieved).2.

Lemma demo_parse : parse_secret demo_secret_text = Ok demo_secret.
Proof. vm_compute. reflexivity. Qed.

Lemma pairing_v2_join_witness :
  exists row, devices demo_joined !! uuid_to_string demo_device3 = Some row /\
    d_vault_id row = uuid_to_string demo_vault /\ d_public_key row = demo_key /\ d_revoked row = false.
Proof.
  destruct (pairing_v2_join default_config demo_device1 (uuid_to_string demo_vault) "s" "t" 100 110 120
    demo_upload demo_secret ("$argon2" +:+ hex (as_bytes demo_secret_text)) demo_db
    [Byte.x00; Byte.x01; Byte.x02] demo_proof demo_register demo_key)
    as (_ & row & _ & Hrow).
  - exact demo_parse.
  - vm_compute. reflexivity.
  - vm_compute. reflexivity.
  - vm_compute. reflexivity.
  - vm_compute. reflexivity.
  - vm_compute. reflexivity.
  - vm_compute. reflexivity.
  - vm_compute. reflexivity.
  - vm_compute. reflexivity.
  - vm_compute. reflexivity.
  - lia.
  - reflexivity.
  - reflexivity.
  - reflexivity.
  - vm_compute. reflexivity.
  - reflexivity.
  - vm_compute. discriminate.
  - vm_compute. reflexivity.
  - exists row. exact Hrow.
Defined.

Lemma register_spends_proof_witness :
  exists ph, proof_valid (uuid_to_string demo_vault) 120 demo_register demo_retrieved ph /\
    forall now' req', rd_registration_proof req' = rd_registration_proof demo_register ->
      0 < device_count (uuid_to_string (rd_vault_id req')) demo_joined ->
      exists e, register_device now' req' demo_joined = (Err e, demo_joined).
Proof.
  apply (register_spends_proof 120 demo_register demo_retrieved tt demo_joined).
  - vm_compute. reflexivity.
  - vm_compute. reflexivity.
Defined.

Lemma register_keeps_identity_witness :
  exists name, devices demo_joined !! uuid_to_string demo_device1 =
    Some {| demo_device_row with d_device_name := name |}.
Proof.
  apply (register_keeps_identity 120 demo_register demo_retrieved (Ok tt) demo_joined (uuid_to_string demo_device1) demo_device_row).
  - vm_compute. reflexivity.
  - vm_compute. reflexivity.
Defined.

Lemma retrieve_v2_one_use_witness :
  is_ok (retrieve_bootstrap_v2 default_config "u" 130 demo_secret_text demo_joined).1 = false.
Proof.
  eapply (retrieve_v2_one_use default_config "t" 110 demo_secret_text demo_secret demo_uploaded _ demo_retrieved demo_joined
    default_config "u" 130 demo_secret_text demo_secret).
  - exact demo_parse.
  - exact demo_parse.
  - reflexivity.
  - vm_compute. reflexivity.
  - apply rtc_once. exact (step_register 120 demo_register demo_retrieved).
Defined.

Lemma retrieve_v2_backoff_witness :
  let a := {| fa_attempts := 5; fa_first_attempt_at := 1; fa_last_attempt_at := 9; fa_blocked_until := 0 |} in
  exists db' a', retrieve_bootstrap_v2 default_config "t" 10 demo_secret_text
      (with_attempt (attempt_lookup demo_secret) a demo_db) = (Err RateLimited, db') /\
    pairing_fetch_attempts db' !! attempt_lookup demo_secret = Some a' /\
    15 <= fa_blocked_until a' <= 310.
Proof.
  intros a.
  destruct (retrieve_v2_backoff default_config "t" 10 demo_secret_text demo_secret
    (with_attempt (attempt_lookup demo_secret) a demo_db) a) as (db' & a' & Hr & Ha & _ & Hb & _).
  - reflexivity.
  - reflexivity.
  - exact demo_parse.
  - vm_compute. reflexivity.
  - vm_compute. discriminate.
  - vm_compute. discriminate.
  - exists db', a'. split; [exact Hr|]. split; [exact Ha|exact Hb].
Defined.

(** A vault with a single device. *)
Definition demo_solo : DB := {| demo_db with devices := {[uuid_to_string demo_device1 := demo_device_row]} |}.
Definition demo_claimed : DB :=
  claimed (uuid_to_string (from_u128 12)) (uuid_to_string demo_device1) 200 (uuid_to_string demo_vault) demo_solo.
Lemma demo_claim :
  migration_claim (from_u128 12) (Some demo_device1) 200 demo_vault demo_solo = (Ok (from_u128 12), demo_claimed).
Proof. apply claim_run; vm_compute; reflexivity. Qed.
Definition demo_intruder : RegisterDeviceRequest := {|
  rd_device_id := demo_device3; rd_device_name := "intruder"; rd_device_type := "desktop";
  rd_public_key := b64_encode demo_key; rd_vault_id := demo_vault;
  rd_pairing_token := None; rd_registration_proof := None |}.

Lemma migration_claim_once_witness :
  migration_claim (from_u128 13) (Some demo_device2) 300 demo_vault demo_claimed =
    (Err (already_claimed_msg (uuid_to_string demo_device1)), demo_claimed).
Proof.
  destruct (migration_claim_once (from_u128 12) demo_device1 200 demo_vault demo_solo (from_u128 12) demo_claimed)
    as (_ & _ & _ & Hagain).
  - exact demo_claim.
  - apply Hagain.
Defined.

Lemma claim_opens_origin_witness :
  register_device 300 demo_intruder demo_claimed = (Ok tt, registered 300 demo_intruder demo_key demo_claimed).
Proof.
  eapply (claim_opens_origin (from_u128 12) demo_device1 200 demo_vault demo_solo _ demo_claimed
    {| v_created_at := 1; v_entry_count := 0 |} 300 demo_intruder demo_key).
  - exact demo_claim.
  - vm_compute. reflexivity.
  - vm_compute. reflexivity.
  - reflexivity.
  - reflexivity.
  - reflexivity.
  - vm_compute. reflexivity.
  - reflexivity.
  - vm_compute. discriminate.
Defined.

Definition demo_guesses : list (Z * string) := [(1, "000000"); (1, "000001"); (1, "000002")].

Lemma fetch_guesses_unlimited_witness :
  Forall (fun r => r <> Err RateLimited) (fetch_all default_config "s" demo_guesses demo_db).
Proof.
  apply (fetch_guesses_unlimited default_config "s" demo_guesses demo_db).
  - apply (bool_decide_unpack _). vm_compute. exact I.
  - intros now token _. reflexivity.
Defined.
