(* ===== verification/RelaySyncV1.v ===== *)
(** * Relay: sync protocol v1 ([handlers/sync.rs])

    Last-writer-wins push and cursor pull over one row per entry.  The
    handlers run on the bare connection: every statement is durable as soon
    as it has run, so a request that fails half-way keeps its first half. *)

From S2P Require Import Prelude ThirdParty RelayStorage.
From Stdlib Require Import ZArith Lia.
From stdpp Require Import base list option strings numbers gmap sorting.
Open Scope Z_scope.

Record SyncEntryBlob := {
  sb_sync_id : Uuid;
  sb_entry_type : string;
  sb_sync_version : Z;        (* u64 *)
  sb_modified_at : Z;         (* i64 *)
  sb_encrypted_payload : string;
  sb_is_tombstone : bool;
  sb_origin_device_id : Uuid;
}.

Record PushRequest := { pr_device_sequence : Z; pr_entries : list SyncEntryBlob }.
Record PushResponse := { ps_accepted : Z; ps_rejected : Z; ps_server_sequence : Z }.
Record PullRequest := { pl_since_sequence : Z; pl_limit : option Z }.

Record PullEntry := {
  pe_sync_id : string;
  pe_entry_type : string;
  pe_sync_version : Z;
  pe_modified_at : Z;
  pe_encrypted_payload : string;
  pe_is_tombstone : bool;
  pe_origin_device_id : string;
}.

Record PullResponse := {
  pp_entries : list PullEntry;
  pp_server_sequence : Z;
  pp_has_more : bool;
}.

Record StatusResponse := { st_vault_id : string; st_entry_count : Z; st_server_sequence : Z }.

Definition MAX_ENTRY_PAYLOAD_SIZE : Z := 1048576.

Section SyncV1.
Context `{UuidText, Base64}.

(** Whether the stored row keeps an entry out: a lower version, or the same
    version not modified later. *)
Definition v1_rejects (entry : SyncEntryBlob) (existing : option SyncEntryRow) : bool :=
  match existing with
  | None => false
  | Some row =>
    let version := u64_as_i64 (sb_sync_version entry) in
    if version <=? se_sync_version row then
      ((version =? se_sync_version row) && (sb_modified_at entry <=? se_modified_at row))
      || (version <? se_sync_version row)
    else false
  end.

(** One iteration of the push loop over [(accepted, rejected)]. *)
Definition v1_push_one (device_id : Uuid) (vault : string) (now : Z) (entry : SyncEntryBlob)
    (counts : Z * Z) : Tx (Z * Z) :=
  let (accepted, rejected) := counts in
  _ ← throw_if (negb (bool_decide (sb_origin_device_id entry = device_id)))
        (BadRequest "origin_device_id must match authenticated device");
  _ ← throw_if (negb (String.eqb (sb_entry_type entry) "credential" || String.eqb (sb_entry_type entry) "ssh_key"
                      || String.eqb (sb_entry_type entry) "totp_secret"))
        (BadRequest "Unknown entry_type");
  payload ← lift (ok_or (b64_decode (sb_encrypted_payload entry)) (BadRequest "Invalid payload"));
  _ ← throw_if (MAX_ENTRY_PAYLOAD_SIZE <? Z.of_nat (length payload))
        (BadRequest "Entry payload exceeds maximum size");
  let key := (uuid_to_string (sb_sync_id entry), vault) in
  existing ← query (fun db => sync_entries db !! key);
  if v1_rejects entry existing then mret (accepted, rejected + 1)
  else
    _ ← execute (fun db => {| db with sequence_counters := alter (fun s => s + 1) vault (sequence_counters db) |});
    server_seq ← query_row (fun db => sequence_counters db !! vault) (Database "no sequence counter");
    _ ← execute (fun db => {| db with sync_entries := <[key := {|
          se_entry_type := sb_entry_type entry; se_sync_version := u64_as_i64 (sb_sync_version entry);
          se_modified_at := sb_modified_at entry; se_encrypted_payload := payload;
          se_is_tombstone := sb_is_tombstone entry;
          se_origin_device_id := uuid_to_string (sb_origin_device_id entry);
          se_server_sequence := server_seq; se_received_at := now |}]> (sync_entries db) |});
    mret (accepted + 1, rejected).

Fixpoint v1_push_loop (device_id : Uuid) (vault : string) (now : Z) (es : list SyncEntryBlob)
    (counts : Z * Z) : Tx (Z * Z) :=
  match es with
  | [] => mret counts
  | e :: es => counts ← v1_push_one device_id vault now e counts; v1_push_loop device_id vault now es counts
  end.

(** [push]. *)
Definition push (device_id : option Uuid) (now : Z) (req : PushRequest) (db : DB)
    : result RelayError PushResponse * DB :=
  run_auto (
    device_id ← lift (ok_or device_id (Auth "No device ID"));
    let device := uuid_to_string device_id in
    vault ← query_row (device_vault device) (NotFound "Device not found");
    last_seq ← query (fun db => default 0 (device_sequences db !! device));
    _ ← throw_if (u64_as_i64 (pr_device_sequence req) <=? last_seq) (Conflict "Device sequence not increasing");
    _ ← throw_if (1000 <? Z.of_nat (length (pr_entries req))) (BadRequest "Too many entries per push (max 1000)");
    '(accepted, rejected) ← v1_push_loop device_id vault now (pr_entries req) (0, 0);
    _ ← execute (fun db => {| db with device_sequences :=
          alter (fun _ => u64_as_i64 (pr_device_sequence req)) device (device_sequences db) |});
    server_seq ← query_row (fun db => sequence_counters db !! vault) (Database "no sequence counter");
    mret {| ps_accepted := accepted; ps_rejected := rejected; ps_server_sequence := i64_as_u64 server_seq |}) db.

(** [full_push]: a push with sequence 1. *)
Definition full_push (device_id : option Uuid) (now : Z) (es : list SyncEntryBlob) (db : DB)
    : result RelayError PushResponse * DB :=
  push device_id now {| pr_device_sequence := 1; pr_entries := es |} db.

(** ** Pull *)

Definition v1_seq_le (a b : string * SyncEntryRow) : Prop := se_server_sequence a.2 <= se_server_sequence b.2.
#[global] Instance v1_seq_le_dec : RelDecision v1_seq_le.
Proof. intros a b. unfold v1_seq_le. apply _. Defined.

(** The rows of a vault, by [sync_id]. *)
Definition v1_rows (vault : string) (db : DB) : list (string * SyncEntryRow) :=
  omap (fun kr => if String.eqb kr.1.2 vault then Some (kr.1.1, kr.2) else None)
    (map_to_list (sync_entries db)).

(** The [SELECT ... ORDER BY server_sequence ASC LIMIT ?3]. *)
Definition v1_select (vault : string) (since lim : Z) (db : DB) : list (string * SyncEntryRow) :=
  take (Z.to_nat lim) (merge_sort v1_seq_le
    (filter (fun r => since < se_server_sequence r.2) (v1_rows vault db))).

Definition pull_entry (r : string * SyncEntryRow) : PullEntry := {|
  pe_sync_id := r.1; pe_entry_type := se_entry_type r.2;
  pe_sync_version := i64_as_u64 (se_sync_version r.2); pe_modified_at := se_modified_at r.2;
  pe_encrypted_payload := b64_encode (se_encrypted_payload r.2);
  pe_is_tombstone := se_is_tombstone r.2; pe_origin_device_id := se_origin_device_id r.2 |}.

Definition v1_limit (req : PullRequest) : Z := Z.min (default 1000 (pl_limit req)) 10000.

(** [pull]: it only reads. *)
Definition pull (device_id : option Uuid) (req : PullRequest) (db : DB) : result RelayError PullResponse :=
  device_id ← ok_or device_id (Auth "No device ID");
  vault ← ok_or (device_vault (uuid_to_string device_id) db) (NotFound "Device not found");
  let lim := v1_limit req in
  let rows := v1_select vault (u64_as_i64 (pl_since_sequence req)) (lim + 1) db in
  let has_more := lim <? Z.of_nat (length rows) in
  let rows := take (Z.to_nat lim) rows in
  Ok {| pp_entries := pull_entry <$> rows;
        pp_server_sequence := default (pl_since_sequence req)
          ((fun r => i64_as_u64 (se_server_sequence r.2)) <$> last rows);
        pp_has_more := has_more |}.

(** [full_pull]. *)
Definition full_pull (device_id : option Uuid) (db : DB) : result RelayError (list PullEntry) :=
  response ← pull device_id {| pl_since_sequence := 0; pl_limit := Some 100000 |} db;
  Ok (pp_entries response).

(** [status]. *)
Definition status (device_id : option Uuid) (db : DB) : result RelayError StatusResponse :=
  device_id ← ok_or device_id (Auth "No device ID");
  vault ← ok_or (device_vault (uuid_to_string device_id) db) (NotFound "Device not found");
  Ok {| st_vault_id := vault;
        st_entry_count := Z.of_nat (length (List.filter (fun r => negb (se_is_tombstone r.2)) (v1_rows vault db)));
        st_server_sequence := default 0 (sequence_counters db !! vault) |}.

End SyncV1.
