(* ===== verification/RelayV1Facts.v ===== *)
(** * Relay: correctness of the v1 sync handlers

    Last-writer-wins on the pair (version, modification time), the sequence
    invariant the v1 cursor relies on, and complete pagination. *)

From S2P Require Import Prelude ThirdParty RelayStorage RelaySyncV1 RelaySyncV2.
From Stdlib Require Import ZArith Lia.
From stdpp Require Import base list option strings numbers gmap sorting.
Import RelayDemo.
Open Scope Z_scope.

(** The order of last-writer-wins. *)
Definition lww_le (a b : Z * Z) : Prop := a.1 < b.1 \/ (a.1 = b.1 /\ a.2 <= b.2).

#[global] Instance lww_le_preorder : PreOrder lww_le.
Proof.
  split; [intros [x y]; right; simpl; lia|].
  intros [a b] [c d] [e f]. unfold lww_le. simpl. lia.
Qed.

Definition stamp (row : SyncEntryRow) : Z * Z := (se_sync_version row, se_modified_at row).
Definition blob_stamp (e : SyncEntryBlob) : Z * Z := (u64_as_i64 (sb_sync_version e), sb_modified_at e).

(** The v1 rows of a vault carry distinct sequences up to its counter. *)
Record v1_inv (db : DB) : Prop := {
  v1_bound : forall s v row, sync_entries db !! (s, v) = Some row ->
    exists c, sequence_counters db !! v = Some c /\ 0 < se_server_sequence row <= c;
  v1_distinct : forall s s' v row row', sync_entries db !! (s, v) = Some row ->
    sync_entries db !! (s', v) = Some row' -> se_server_sequence row = se_server_sequence row' -> s = s';
}.

Section V1.
Context `{UuidText, Base64}.

Definition blob_key (vault : string) (e : SyncEntryBlob) : string * string := (uuid_to_string (sb_sync_id e), vault).

Definition v1_row (e : SyncEntryBlob) (payload : bytes) (seq now : Z) : SyncEntryRow := {|
  se_entry_type := sb_entry_type e; se_sync_version := u64_as_i64 (sb_sync_version e);
  se_modified_at := sb_modified_at e; se_encrypted_payload := payload;
  se_is_tombstone := sb_is_tombstone e; se_origin_device_id := uuid_to_string (sb_origin_device_id e);
  se_server_sequence := seq; se_received_at := now |}.

Definition v1_put (vault : string) (e : SyncEntryBlob) (payload : bytes) (seq now : Z) (db : DB) : DB :=
  {| db with sequence_counters := <[vault := seq]> (sequence_counters db);
             sync_entries := <[blob_key vault e := v1_row e payload seq now]> (sync_entries db) |}.

(** The effect of the accepted entries of a push, in order. *)
Inductive v1_writes (vault : string) (now : Z) : DB -> DB -> Prop :=
| v1_writes_refl db : v1_writes vault now db db
| v1_writes_put e payload seq db db' :
    sequence_counters db !! vault = Some seq ->
    v1_rejects e (sync_entries db !! blob_key vault e) = false ->
    b64_decode (sb_encrypted_payload e) = Some payload ->
    v1_writes vault now (v1_put vault e payload (seq + 1) now db) db' ->
    v1_writes vault now db db'.

Lemma v1_writes_trans vault now db1 db2 db3 :
  v1_writes vault now db1 db2 -> v1_writes vault now db2 db3 -> v1_writes vault now db1 db3.
Proof. induction 1; intros; [done|]. econstructor; eauto. Qed.

(** Whether an iteration fails, skips or stores its entry, the database moves
    by writes; and on success the stored row dominates the entry. *)
Lemma v1_push_one_effect d vault now e counts c :
  let (r, c') := v1_push_one d vault now e counts c in
  v1_writes vault now (working c) (working c') /\
  (is_ok r = true -> exists row, sync_entries (working c') !! blob_key vault e = Some row /\
     lww_le (blob_stamp e) (stamp row)).
Proof.
  destruct counts as [acc rej], c as [cc db].
  unfold v1_push_one, mbind, Tx_bind, throw_if, lift, query, query_row, execute. simpl.
  destruct (err_if _ _) as [u|]; simpl; [|split; [constructor|done]].
  destruct (err_if _ _) as [u'|]; simpl; [|split; [constructor|done]].
  destruct (b64_decode _) as [payload|] eqn:Ep; simpl; [|split; [constructor|done]].
  destruct (err_if _ _) as [u''|]; simpl; [|split; [constructor|done]].
  fold (blob_key vault e). destruct (v1_rejects e (sync_entries db !! blob_key vault e)) eqn:Er; simpl.
  - split; [constructor|]. intros _. unfold v1_rejects in Er.
    destruct (sync_entries db !! blob_key vault e) as [row|]; [|done]. exists row. split; [done|].
    unfold lww_le, blob_stamp, stamp. simpl. destruct (_ <=? _) eqn:E1; [|done].
    apply orb_true_iff in Er as [Er|Er]; propify; lia.
  - rewrite lookup_alter_eq. destruct (sequence_counters db !! vault) as [seq|] eqn:Es; simpl.
    + split.
      * eapply v1_writes_put; [done..|].
        match goal with |- v1_writes _ _ ?a ?b => replace b with a; [constructor|] end.
        unfold v1_put. f_equal. apply map_eq. intros k. rewrite lookup_insert, lookup_alter.
        case_decide; subst; [by rewrite Es|done].
      * intros _. unfold blob_key. rewrite lookup_insert_eq. eexists. split; [done|]. done.
    + split; [|done]. match goal with |- v1_writes _ _ ?a ?b => replace b with a; [constructor|] end.
      destruct db; simpl in *. f_equal. apply map_eq. intros k. rewrite lookup_alter.
      case_decide; subst; [by rewrite Es|done].
Qed.

Definition row_dominates (vault : string) (e : SyncEntryBlob) (db : DB) : Prop :=
  exists row, sync_entries db !! blob_key vault e = Some row /\ lww_le (blob_stamp e) (stamp row).

(** Along writes a row is only replaced by one that dominates it. *)
Lemma v1_writes_lww vault now db db' k row :
  v1_writes vault now db db' -> sync_entries db !! k = Some row ->
  exists row', sync_entries db' !! k = Some row' /\ lww_le (stamp row) (stamp row').
Proof.
  intros Hw. revert row. induction Hw as [|e payload seq db db' Hs Hr Hp Hw IH]; intros row Hk; [by exists row|].
  destruct (decide (k = blob_key vault e)) as [->|Hne].
  - destruct (IH (v1_row e payload (seq + 1) now)) as (row' & Hk' & Hle).
    { simpl. by rewrite lookup_insert_eq. }
    exists row'. split; [done|]. etrans; [|exact Hle]. rewrite Hk in Hr. unfold v1_rejects in Hr.
    unfold lww_le, stamp, v1_row. simpl. destruct (_ <=? _) eqn:E; [|propify; lia].
    apply orb_false_iff in Hr as [Hr1 Hr2]. apply andb_false_iff in Hr1 as [Hr1|Hr1]; propify; lia.
  - apply IH. simpl. by rewrite lookup_insert_ne.
Qed.

Lemma v1_writes_dominates vault now db db' e :
  v1_writes vault now db db' -> row_dominates vault e db -> row_dominates vault e db'.
Proof.
  intros Hw (row & Hk & Hle). destruct (v1_writes_lww _ _ _ _ _ _ Hw Hk) as (row' & Hk' & Hle').
  exists row'. split; [done|]. by etrans.
Qed.

Lemma v1_push_loop_effect d vault now es counts c :
  let (r, c') := v1_push_loop d vault now es counts c in
  v1_writes vault now (working c) (working c') /\
  (is_ok r = true -> Forall (fun e => row_dominates vault e (working c')) es).
Proof.
  revert counts c. induction es as [|e es IH]; intros counts c; cbn [v1_push_loop].
  { split; [constructor|]. constructor. }
  unfold mbind, Tx_bind. pose proof (v1_push_one_effect d vault now e counts c) as Hone.
  destruct (v1_push_one d vault now e counts c) as [[counts'|err] c1]; [|naive_solver].
  specialize (IH counts' c1). destruct (v1_push_loop d vault now es counts' c1) as [r c2].
  destruct Hone as [Hw1 Hd1], IH as [Hw2 Hd2]. split; [by eapply v1_writes_trans|].
  intros Hok. constructor; [|by apply Hd2].
  eapply v1_writes_dominates; [exact Hw2|]. by apply Hd1.
Qed.

(** A whole push: the writes, then the device sequence. *)
Lemma push_effect_v1 device_id now req db r db' :
  push device_id now req db = (r, db') ->
  (db' = db /\ is_ok r = false) \/
  exists d vault db1 seqs, device_id = Some d /\ device_vault (uuid_to_string d) db = Some vault /\
    v1_writes vault now db db1 /\ db' = {| db1 with device_sequences := seqs |} /\
    (is_ok r = true -> Forall (fun e => row_dominates vault e db') (pr_entries req)).
Proof.
  unfold push, run_auto. destruct device_id as [d|]; [|intros [= <- <-]; by left].
  unfold mbind, Tx_bind, lift, query_row, query, throw_if. simpl.
  destruct (device_vault (uuid_to_string d) db) as [vault|] eqn:Hv; simpl; [|intros [= <- <-]; by left].
  unfold lift. destruct (err_if _ _); simpl; [|intros [= <- <-]; by left].
  destruct (err_if _ _); simpl; [|intros [= <- <-]; by left].
  pose proof (v1_push_loop_effect d vault now (pr_entries req) (0, 0) {| committed := db; working := db |}) as Hl.
  destruct (v1_push_loop _ _ _ _ _ _) as [[[acc rej]|e] c1]; simpl in *; destruct Hl as [Hw Hd].
  - specialize (Hd eq_refl). unfold execute. simpl. intros Hr. right. exists d, vault, (working c1).
    destruct (ok_or _ _); injection Hr as <- <-; eexists; split_and!; done.
  - intros [= <- <-]. right. exists d, vault, (working c1), (device_sequences (working c1)).
    split_and!; try done. by destruct (working c1).
Qed.

Lemma v1_inv_put vault e payload seq now db :
  v1_inv db -> sequence_counters db !! vault = Some seq -> 0 <= seq ->
  v1_inv (v1_put vault e payload (seq + 1) now db).
Proof.
  intros Hi Hs H0'. constructor.
  - intros s v row. simpl. rewrite !lookup_insert. unfold blob_key.
    case_decide as Hk; [injection Hk as <- <-; intros [= <-]; rewrite decide_True by done; eexists; split; [done|]; simpl; lia|].
    intros Hrow. destruct (v1_bound _ Hi _ _ _ Hrow) as (c & Hc & ?). case_decide; subst; [|eauto].
    simplify_eq. eexists; split; [done|]. lia.
  - intros s s' v row row'. simpl. unfold blob_key. rewrite !lookup_insert.
    assert (forall s v row, vault = v -> sync_entries db !! (s, v) = Some row -> se_server_sequence row <= seq) as Hle.
    { intros ??? <- Hrow. destruct (v1_bound _ Hi _ _ _ Hrow) as (c & Hc & ?). simplify_eq. lia. }
    repeat case_decide; simplify_eq/=.
    + intros. congruence.
    + intros [= <-] Hrow' Hseq. specialize (Hle _ _ _ eq_refl Hrow'). simpl in Hseq. lia.
    + intros Hrow [= <-] Hseq. specialize (Hle _ _ _ eq_refl Hrow). simpl in Hseq. lia.
    + apply (v1_distinct _ Hi).
Qed.

Lemma v1_writes_inv vault now db db' :
  v1_writes vault now db db' -> v1_inv db ->
  (forall v s, sequence_counters db !! v = Some s -> 0 <= s) -> v1_inv db'.
Proof.
  induction 1 as [|e payload seq db db' Hs Hr Hp Hw IH]; intros Hi Hc; [done|].
  pose proof (Hc _ _ Hs). apply IH; [by apply v1_inv_put|].
  intros v s. simpl. rewrite lookup_insert. case_decide; [intros [= <-]; lia|apply Hc].
Qed.

(** What writes leave alone, and that counters only grow. *)
Record v1_frame (vault : string) (db db' : DB) : Prop := {
  vf_rest : exists se sc, db' = {| db with sync_entries := se; sequence_counters := sc |};
  vf_counter : forall v s, sequence_counters db !! v = Some s ->
    exists s', sequence_counters db' !! v = Some s' /\ s <= s';
  vf_counter_new : forall v, sequence_counters db !! v = None -> sequence_counters db' !! v = None;
  vf_other : forall s v, v <> vault -> sync_entries db' !! (s, v) = sync_entries db !! (s, v);
}.

Lemma v1_writes_frame vault now db db' : v1_writes vault now db db' -> v1_frame vault db db'.
Proof.
  induction 1 as [db|e payload seq db db' Hs Hr Hp Hw [Hrest Hc Hn Ho]].
  { constructor; [destruct db; eexists _, _; reflexivity| |done|done]. intros v s ?. exists s. split; [done|lia]. }
  constructor.
  - destruct Hrest as (se & sc & ->). by exists se, sc.
  - intros v s Hv. destruct (decide (v = vault)) as [->|Hne].
    + destruct (Hc vault (seq + 1)) as (s' & Hs' & ?); [simpl; by rewrite lookup_insert_eq|].
      simplify_eq. exists s'. split; [done|lia].
    + apply Hc. simpl. by rewrite lookup_insert_ne.
  - intros v Hv. apply Hn. simpl. rewrite lookup_insert_ne; [done|congruence].
  - intros s v Hv. rewrite Ho by done. simpl. rewrite lookup_insert_ne; [done|].
    unfold blob_key. congruence.
Qed.

(** ** Pull *)

(** The rows of a vault after the cursor, oldest first. *)
Definition v1_pending (vault : string) (since : Z) (db : DB) : list (string * SyncEntryRow) :=
  merge_sort v1_seq_le (filter (fun r => since < se_server_sequence r.2) (v1_rows vault db)).

Definition row_seq (r : string * SyncEntryRow) : Z := se_server_sequence r.2.

Lemma elem_of_v1_rows vault db s row :
  (s, row) ∈ v1_rows vault db <-> sync_entries db !! (s, vault) = Some row.
Proof.
  unfold v1_rows. rewrite list_elem_of_omap. split.
  - intros ([[s' v'] row'] & Hin%elem_of_map_to_list & Hk). simpl in Hk.
    destruct (String.eqb_spec v' vault); simplify_eq. done.
  - intros Hrow. exists ((s, vault), row). split; [by apply elem_of_map_to_list|]. simpl. by rewrite String.eqb_refl.
Qed.

Lemma NoDup_v1_rows vault db : NoDup (v1_rows vault db).
Proof.
  unfold v1_rows. pose proof (NoDup_map_to_list (sync_entries db)) as Hnd.
  induction (map_to_list (sync_entries db)) as [|[[s v] row] l IH]; simpl; [constructor|].
  apply NoDup_cons in Hnd as [Hx Hnd]. simpl. destruct (String.eqb_spec v vault); [|by apply IH].
  apply NoDup_cons. split; [|by apply IH]. subst v.
  rewrite list_elem_of_omap. intros ([[s' v'] row'] & Hin & Hk). simpl in Hk.
  destruct (String.eqb_spec v' vault); simplify_eq. done.
Qed.

#[local] Instance v1_seq_le_trans : Transitive v1_seq_le.
Proof. intros ???. unfold v1_seq_le. lia. Qed.
#[local] Instance v1_seq_le_total : Total v1_seq_le.
Proof. intros ??. unfold v1_seq_le. lia. Qed.

Lemma elem_of_v1_pending vault since db r :
  r ∈ v1_pending vault since db <-> since < row_seq r /\ r ∈ v1_rows vault db.
Proof. unfold v1_pending. by rewrite merge_sort_Permutation, list_elem_of_filter. Qed.

Lemma row_seq_inj vault db x y :
  v1_inv db -> x ∈ v1_rows vault db -> y ∈ v1_rows vault db -> row_seq x = row_seq y -> x = y.
Proof.
  destruct x as [s row], y as [s' row']. intros Hi Hx%elem_of_v1_rows Hy%elem_of_v1_rows Hseq.
  pose proof (v1_distinct _ Hi _ _ _ _ _ Hx Hy Hseq) as ->. congruence.
Qed.

Lemma v1_pending_sorted vault since db :
  v1_inv db -> StronglySorted Z.lt (row_seq <$> v1_pending vault since db).
Proof.
  intros Hi. apply StronglySorted_key_strict.
  - apply (StronglySorted_merge_sort v1_seq_le _).
  - unfold v1_pending. rewrite merge_sort_Permutation. apply NoDup_filter, NoDup_v1_rows.
  - intros x y [_ Hx]%elem_of_v1_pending [_ Hy]%elem_of_v1_pending. by eapply row_seq_inj.
Qed.

(** Advancing the cursor filters the pending rows. *)
Lemma v1_pending_advance vault since since' db :
  v1_inv db -> since <= since' ->
  v1_pending vault since' db = filter (fun r => since' < row_seq r) (v1_pending vault since db).
Proof.
  intros Hi Hle. apply (StronglySorted_unique_strong v1_seq_le).
  - intros x y [_ Hx]%elem_of_v1_pending [_ [_ Hy]%elem_of_v1_pending]%list_elem_of_filter ??.
    eapply row_seq_inj; [done..|]. unfold v1_seq_le, row_seq in *. lia.
  - apply (StronglySorted_merge_sort v1_seq_le _).
  - apply StronglySorted_filter', (StronglySorted_merge_sort v1_seq_le _).
  - unfold v1_pending. rewrite !merge_sort_Permutation, list_filter_filter.
    apply reflexive_eq, list_filter_iff. intros x. unfold row_seq. lia.
Qed.

(** The client's loop over v1 pages. *)
Fixpoint v1_pull_all (fuel : nat) (d : Uuid) (lim : option Z) (since : Z) (db : DB) : option (list PullEntry) :=
  match fuel with
  | O => None
  | S fuel =>
    match pull (Some d) {| pl_since_sequence := since; pl_limit := lim |} db with
    | Err _ => None
    | Ok resp =>
      if pp_has_more resp then (fun es => pp_entries resp ++ es) <$> v1_pull_all fuel d lim (pp_server_sequence resp) db
      else Some (pp_entries resp)
    end
  end.

Lemma pull_run d vault since lim db :
  device_vault (uuid_to_string d) db = Some vault -> 0 <= v1_limit {| pl_since_sequence := since; pl_limit := lim |} ->
  let n := Z.to_nat (v1_limit {| pl_since_sequence := since; pl_limit := lim |}) in
  let rows := v1_pending vault (u64_as_i64 since) db in
  pull (Some d) {| pl_since_sequence := since; pl_limit := lim |} db =
    Ok {| pp_entries := pull_entry <$> take n rows;
          pp_server_sequence := default since ((fun r => i64_as_u64 (row_seq r)) <$> last (take n rows));
          pp_has_more := bool_decide (n < length rows)%nat |}.
Proof.
  intros Hv Hlim n rows. unfold pull. simpl. rewrite Hv. simpl. f_equal.
  unfold v1_select. fold (v1_pending vault (u64_as_i64 since) db). fold rows.
  set (l := v1_limit _) in *. rewrite take_take, Nat.min_l by lia. fold n. f_equal.
  rewrite length_take. case_bool_decide; [apply Z.ltb_lt|apply Z.ltb_ge]; lia.
Qed.

(** v1 pages are complete: whatever the page size (at least one), a
    device that follows the returned cursors receives every row of its vault
    after the cursor, once, in sequence order. *)
Theorem v1_pull_pages_complete d v lim since db fuel c :
  v1_inv db -> device_vault (uuid_to_string d) db = Some v ->
  sequence_counters db !! v = Some c -> c < 2 ^ 63 ->
  (forall l, lim = Some l -> 1 <= l) -> 0 <= since < 2 ^ 63 ->
  (length (v1_pending v since db) < fuel)%nat ->
  v1_pull_all fuel d lim since db = Some (pull_entry <$> v1_pending v since db).
Proof.
  intros Hi Hv Hc Hc63 Hlim. revert since. induction fuel as [|fuel IH]; intros since Hs Hfuel; [lia|].
  assert (1 <= v1_limit {| pl_since_sequence := since; pl_limit := lim |}) as Hl.
  { unfold v1_limit. simpl. destruct lim as [l|]; simpl; [|lia]. specialize (Hlim l eq_refl). lia. }
  cbn [v1_pull_all]. rewrite (pull_run d v) by (done || lia). cbn -[v1_limit].
  set (n := Z.to_nat (v1_limit _)). assert (u64_as_i64 since = since) as Eu.
  { unfold u64_as_i64. case_goal; propify; lia. }
  rewrite Eu. case_bool_decide as Hmore.
  - destruct (last (take n (v1_pending v since db))) as [r|] eqn:El.
    2:{ apply last_None in El. apply (f_equal length) in El. rewrite length_take in El. simpl in El. lia. }
    assert (r ∈ v1_pending v since db) as [Hr1 Hr2]%elem_of_v1_pending.
    { rewrite <- (take_drop n (v1_pending v since db)). apply elem_of_app. left.
      apply last_Some in El as (l & ->). set_solver. }
    destruct r as [s row]. apply elem_of_v1_rows in Hr2.
    destruct (v1_bound _ Hi _ _ _ Hr2) as (c' & Hc' & Hrow). simplify_eq.
    assert (v1_pending v (row_seq (s, row)) db = drop n (v1_pending v since db)) as Hdrop.
    { rewrite (v1_pending_advance _ since) by (done || lia).
      apply (filter_after_last row_seq); [by apply v1_pending_sorted|done]. }
    simpl. unfold row_seq in *. simpl in *.
    assert (i64_as_u64 (se_server_sequence row) = se_server_sequence row) as Ei.
    { unfold i64_as_u64. case_goal; propify; lia. }
    rewrite Ei, IH; [|lia|rewrite Hdrop, length_drop; lia].
    simpl. f_equal. rewrite Hdrop, <- fmap_app, take_drop. done.
  - by rewrite take_ge by lia.
Qed.

(** Last writer wins: after any v1 push, successful or not, every stored
    entry still has a stamp (version, then modification time) at least the one
    it had; and after a successful push every pushed entry is stored or
    dominated by what is stored. *)
Theorem v1_push_lww device_id now req db r db' :
  push device_id now req db = (r, db') ->
  (forall k row, sync_entries db !! k = Some row ->
     exists row', sync_entries db' !! k = Some row' /\ lww_le (stamp row) (stamp row')) /\
  (is_ok r = true -> exists d v, device_id = Some d /\ device_vault (uuid_to_string d) db = Some v /\
     Forall (fun e => row_dominates v e db') (pr_entries req)).
Proof.
  intros [[-> ->]|(d & v & db1 & seqs & -> & Hv & Hw & -> & Hd)]%push_effect_v1.
  - split; [|done]. intros k row Hk. by exists row.
  - split; [|intros Hok; exists d, v; by auto]. intros k row Hk. simpl. by eapply v1_writes_lww.
Qed.

(** [full_pull] answers with at most the 10,000 oldest rows of the vault
    and no marker that rows are missing. *)
Theorem full_pull_truncates d v db :
  v1_inv db -> device_vault (uuid_to_string d) db = Some v ->
  full_pull (Some d) db = Ok (pull_entry <$> take (Z.to_nat 10000) (v1_pending v 0 db)) /\
  length (v1_pending v 0 db) = length (v1_rows v db).
Proof.
  intros Hi Hv. split.
  - unfold full_pull. rewrite (pull_run d v) by done. cbn [mbind result_bind pp_entries].
    by change (u64_as_i64 0) with 0.
  - unfold v1_pending. rewrite merge_sort_Permutation, filter_all; [done|].
    apply Forall_forall. intros [s row] Hr%elem_of_v1_rows.
    destruct (v1_bound _ Hi _ _ _ Hr) as (c & _ & ?). simpl. lia.
Qed.

End V1.

(** ** Witnesses *)

Definition demo_blob (id : N) (version : Z) (payload : string) : SyncEntryBlob := {|
  sb_sync_id := from_u128 id; sb_entry_type := "credential"; sb_sync_version := version;
  sb_modified_at := 5; sb_encrypted_payload := payload; sb_is_tombstone := false;
  sb_origin_device_id := demo_device1 |}.

(** Two entries pushed by the first device. *)
Definition demo_v1_push : PushRequest :=
  {| pr_device_sequence := 1; pr_entries := [demo_blob 61 1 "AAEC"; demo_blob 62 1 "AAEC"] |}.
Definition demo_v1_db : DB := (push (Some demo_device1) 100 demo_v1_push demo_db).2.

Lemma v1_inv_empty db : sync_entries db = ∅ -> v1_inv db.
Proof. intros E. constructor; intros *; rewrite E, lookup_empty; done. Qed.

Lemma demo_v1_inv : v1_inv demo_v1_db.
Proof.
  assert (push (Some demo_device1) 100 demo_v1_push demo_db =
    ((push (Some demo_device1) 100 demo_v1_push demo_db).1, demo_v1_db)) as Hp
    by (unfold demo_v1_db; by destruct (push _ _ _ _)).
  apply push_effect_v1 in Hp as [[-> _]|(d & v & db1 & seqs & _ & _ & Hw & -> & _)].
  - by apply v1_inv_empty.
  - assert (v1_inv db1) as Hi.
    { eapply v1_writes_inv; [exact Hw|by apply v1_inv_empty|].
      intros v' s. simpl. rewrite lookup_singleton. case_decide; naive_solver lia. }
    by destruct Hi; constructor.
Qed.

Lemma v1_pull_pages_complete_witness :
  v1_pull_all 4 demo_device2 (Some 1) 0 demo_v1_db =
    Some (pull_entry <$> v1_pending (uuid_to_string demo_vault) 0 demo_v1_db) /\
  length (v1_pending (uuid_to_string demo_vault) 0 demo_v1_db) = 2%nat.
Proof.
  split; [|vm_compute; reflexivity].
  apply (v1_pull_pages_complete demo_device2 (uuid_to_string demo_vault) (Some 1) 0 demo_v1_db 4 2).
  - exact demo_v1_inv.
  - vm_compute. reflexivity.
  - vm_compute. reflexivity.
  - lia.
  - intros l [= <-]. lia.
  - lia.
  - vm_compute. lia.
Defined.

Lemma v1_push_lww_witness :
  exists d v, Some demo_device1 = Some d /\ device_vault (uuid_to_string d) demo_db = Some v /\
     Forall (fun e => row_dominates v e demo_v1_db) (pr_entries demo_v1_push).
Proof.
  refine (proj2 (v1_push_lww (Some demo_device1) 100 demo_v1_push demo_db
    (Ok {| ps_accepted := 2; ps_rejected := 0; ps_server_sequence := 2 |}) demo_v1_db _) _).
  - vm_compute. reflexivity.
  - reflexivity.
Defined.

Lemma full_pull_truncates_witness :
  full_pull (Some demo_device2) demo_v1_db =
    Ok (pull_entry <$> take (Z.to_nat 10000) (v1_pending (uuid_to_string demo_vault) 0 demo_v1_db)) /\
  length (v1_pending (uuid_to_string demo_vault) 0 demo_v1_db) =
    length (v1_rows (uuid_to_string demo_vault) demo_v1_db).
Proof.
  apply (full_pull_truncates demo_device2 (uuid_to_string demo_vault) demo_v1_db).
  - exact demo_v1_inv.
  - vm_compute. reflexivity.
Defined.

(** A v1 push is not atomic: a request whose second entry is malformed is
    answered with an error, yet its first entry stays stored. *)
Theorem v1_push_error_keeps_prefix :
  let req := {| pr_device_sequence := 1; pr_entries := [demo_blob 61 1 "AAEC"; demo_blob 62 1 "?"] |} in
  exists e db', push (Some demo_device1) 100 req demo_db = (Err e, db') /\
    size (sync_entries demo_db) = 0%nat /\ size (sync_entries db') = 1%nat.
Proof. eexists _, _. split; [vm_compute; reflexivity|]. split; vm_compute; reflexivity. Qed.
