(* ===== verification/RelayRate.v ===== *)
(** * Relay: the rate limiter ([rate_limit.rs])

    A token bucket per minute and fixed hourly and daily windows per key.  An
    [Instant] is a number of nanoseconds; the token bucket computes in IEEE
    binary64, as [f64] does, through the Standard Library's [SpecFloat]. *)

From S2P Require Import Prelude.
From Stdlib Require Import ZArith Lia Floats.SpecFloat.
From stdpp Require Import base list option strings numbers gmap.
Open Scope Z_scope.

(** ** [f64] *)

Definition f64 : Type := spec_float.
Definition f64_add : f64 -> f64 -> f64 := SFadd 53 1024.
Definition f64_sub : f64 -> f64 -> f64 := SFsub 53 1024.
Definition f64_mul : f64 -> f64 -> f64 := SFmul 53 1024.
Definition f64_div : f64 -> f64 -> f64 := SFdiv 53 1024.
(** [as f64] of an unsigned integer. *)
Definition f64_of (z : Z) : f64 := binary_normalize 53 1024 z 0 false.
(** [f64::min]: the other operand when one is NaN. *)
Definition f64_min (x y : f64) : f64 :=
  match x, y with
  | S754_nan, _ => y
  | _, S754_nan => x
  | _, _ => if SFltb y x then y else x
  end.
(** [>=]. *)
Definition f64_ge (x y : f64) : bool := SFleb y x.

(** [Instant::duration_since] (saturating) and [Duration::as_secs_f64]. *)
Definition duration_since (now earlier : Z) : Z := Z.max 0 (now - earlier).
Definition as_secs_f64 (nanos : Z) : f64 :=
  f64_add (f64_of (nanos / 1000000000)) (f64_div (f64_of (nanos mod 1000000000)) (f64_of 1000000000)).
Definition from_secs (s : Z) : Z := s * 1000000000.

(** ** State *)

Record TokenBucket := { tokens : f64; last_refill : Z }.
Record HourlyBucket := { h_count : Z; h_window_start : Z }.
Record DailyBucket := { dl_count : Z; dl_window_start : Z }.

Record RateLimiter := {
  buckets : gmap string TokenBucket;
  max_tokens : Z;
  refill_rate : f64;
  hourly_buckets : gmap string HourlyBucket;
  hourly_limit : Z;
  daily_buckets : gmap string DailyBucket;
  daily_limit : Z;
}.

(** [RateLimiter::new]. *)
Definition new_limiter (requests_per_minute : Z) : RateLimiter := {|
  buckets := ∅;
  max_tokens := requests_per_minute;
  refill_rate := f64_div (f64_of requests_per_minute) (f64_of 60);
  hourly_buckets := ∅;
  hourly_limit := u32_saturating_mul requests_per_minute 10;
  daily_buckets := ∅;
  daily_limit := u32_saturating_mul requests_per_minute 100;
|}.

(** ** Operations: the verdict and the new state *)

Definition check_minute_limit (key : string) (now : Z) (l : RateLimiter) : bool * RateLimiter :=
  let b := default {| tokens := f64_of (max_tokens l); last_refill := now |} (buckets l !! key) in
  let elapsed := as_secs_f64 (duration_since now (last_refill b)) in
  let refilled := f64_min (f64_add (tokens b) (f64_mul elapsed (refill_rate l))) (f64_of (max_tokens l)) in
  let ok := f64_ge refilled (f64_of 1) in
  let tokens' := if ok then f64_sub refilled (f64_of 1) else refilled in
  (ok, {| l with buckets := <[key := {| tokens := tokens'; last_refill := now |}]> (buckets l) |}).

(** One fixed window of length [window] over [(count, window_start)]. *)
Definition window_take (window lim now : Z) (b : option (Z * Z)) : bool * (Z * Z) :=
  let '(count, start) := default (0, now) b in
  let '(count, start) := if from_secs window <=? duration_since now start then (0, now) else (count, start) in
  if count <? lim then (true, (count + 1, start)) else (false, (count, start)).

Definition check_hourly_limit (key : string) (now : Z) (l : RateLimiter) : bool * RateLimiter :=
  let '(ok, (c, s)) := window_take 3600 (hourly_limit l) now
    ((fun b => (h_count b, h_window_start b)) <$> hourly_buckets l !! key) in
  (ok, {| l with hourly_buckets := <[key := {| h_count := c; h_window_start := s |}]> (hourly_buckets l) |}).

Definition check_daily_limit (key : string) (now : Z) (l : RateLimiter) : bool * RateLimiter :=
  let '(ok, (c, s)) := window_take 86400 (daily_limit l) now
    ((fun b => (dl_count b, dl_window_start b)) <$> daily_buckets l !! key) in
  (ok, {| l with daily_buckets := <[key := {| dl_count := c; dl_window_start := s |}]> (daily_buckets l) |}).

(** [RateLimiter::check]. *)
Definition check (key : string) (now : Z) (l : RateLimiter) : bool * RateLimiter :=
  let (ok, l) := check_minute_limit key now l in
  if negb ok then (false, l)
  else
    let (ok, l) := check_hourly_limit key now l in
    if negb ok then (false, l)
    else check_daily_limit key now l.

(** A sequence of checks of arbitrary keys; the verdicts in order. *)
Fixpoint run_checks (calls : list (string * Z)) (l : RateLimiter) : list bool * RateLimiter :=
  match calls with
  | [] => ([], l)
  | (k, t) :: calls =>
    let (ok, l) := check k t l in
    let (oks, l) := run_checks calls l in
    (ok :: oks, l)
  end.

(** The calls for [key] that were granted. *)
Definition granted (key : string) (calls : list (string * Z)) (l : RateLimiter) : Z :=
  Z.of_nat (length (filter (fun co => co.1.1 = key /\ co.2 = true) (zip calls (run_checks calls l).1))).

(** ** Windows *)

Section Window.
Variables (window lim t0 : Z).
Hypothesis (Hlim : 0 <= lim).

(** What a bucket can still grant to calls in [[t0, t0 + window)]: a window
    that started before [t0] may end inside the interval once. *)
Definition room (b : option (Z * Z)) : Z :=
  match b with
  | None => lim
  | Some (c, s) => if t0 <=? s then lim - c else 2 * lim - c
  end.

Definition bucket_ok (b : option (Z * Z)) : Prop :=
  match b with None => True | Some (c, _) => 0 <= c <= lim end.

Lemma window_take_ok now b :
  bucket_ok b -> bucket_ok (Some (window_take window lim now b).2).
Proof.
  intros Hb. unfold window_take.
  destruct b as [[c s]|]; simpl in *; repeat case_goal; simplify_eq/=; propify; lia.
Qed.

Lemma room_range b : bucket_ok b -> 0 <= room b <= 2 * lim.
Proof. destruct b as [[c s]|]; simpl; [case_goal|]; lia. Qed.

(** A granted call uses room and a refused one gives none back. *)
Lemma window_take_room now b :
  bucket_ok b -> t0 <= now < t0 + from_secs window ->
  room (Some (window_take window lim now b).2) + (if (window_take window lim now b).1 then 1 else 0) <= room b.
Proof.
  intros Hb Hnow. unfold window_take, duration_since.
  destruct b as [[c s]|]; simpl in *; repeat case_goal; simplify_eq/=; propify; lia.
Qed.
End Window.

(** ** The limiter *)

#[local] Opaque window_take.

Definition hourly_of (k : string) (l : RateLimiter) : option (Z * Z) :=
  (fun b => (h_count b, h_window_start b)) <$> hourly_buckets l !! k.
Definition daily_of (k : string) (l : RateLimiter) : option (Z * Z) :=
  (fun b => (dl_count b, dl_window_start b)) <$> daily_buckets l !! k.

(** How one check moves the windows of every key: not at all for another key
    or after a refusal upstream, else by one [window_take]. *)
Lemma check_windows k0 now l k :
  let (ok, l') := check k0 now l in
  hourly_limit l' = hourly_limit l /\ daily_limit l' = daily_limit l /\
  (hourly_of k l' = hourly_of k l /\ (k = k0 -> ok = false) \/
   k = k0 /\ exists b, window_take 3600 (hourly_limit l) now (hourly_of k l) = (b, default (0, 0) (hourly_of k l'))
     /\ is_Some (hourly_of k l') /\ (ok = true -> b = true)) /\
  (daily_of k l' = daily_of k l /\ (k = k0 -> ok = false) \/
   k = k0 /\ window_take 86400 (daily_limit l) now (daily_of k l) = (ok, default (0, 0) (daily_of k l'))
     /\ is_Some (daily_of k l')).
Proof.
  unfold check, check_minute_limit. cbv zeta.
  match goal with |- context [f64_ge ?a ?b] => generalize (f64_ge a b) end.
  match goal with |- context [if _ then f64_sub ?a ?b else ?a] => generalize (f64_sub a b), a end.
  intros x y [|]; cbv beta iota delta [negb]; [|split_and!; [done..|by left|by left]].
  unfold check_hourly_limit, check_daily_limit, hourly_of, daily_of. cbn -[window_take].
  destruct (window_take 3600 (hourly_limit l) now _) as [okh [c s]] eqn:Eh.
  destruct okh; cbn -[window_take].
  - destruct (window_take 86400 (daily_limit l) now _) as [okd [c' s']] eqn:Ed; cbn -[window_take].
    destruct (decide (k = k0)) as [->|Hk].
    + rewrite !lookup_insert_eq. cbn -[window_take].
      split_and!; [done..| |]; right; (split; [done|]); [exists true|]; split_and!; eauto.
    + rewrite !lookup_insert_ne by done. split_and!; [done..| |]; left; done.
  - destruct (decide (k = k0)) as [->|Hk].
    + rewrite !lookup_insert_eq. cbn -[window_take].
      split_and!; [done..| |left; done]; right; (split; [done|]); exists false; split_and!; eauto.
    + rewrite !lookup_insert_ne by done. split_and!; [done..| |]; left; done.
Qed.

Definition limiter_ok (l : RateLimiter) : Prop :=
  0 <= hourly_limit l /\ 0 <= daily_limit l /\
  forall k, bucket_ok (hourly_limit l) (hourly_of k l) /\ bucket_ok (daily_limit l) (daily_of k l).

Lemma check_ok k t l : limiter_ok l -> limiter_ok (check k t l).2.
Proof.
  intros (Hh & Hd & Hb). unfold limiter_ok.
  pose proof (check_windows k t l) as Hw. destruct (check k t l) as [ok l'] eqn:E. simpl.
  destruct (Hw k) as (Eh & Ed & _). rewrite Eh, Ed. split_and!; try done.
  intros k'. destruct (Hb k') as [Hb1 Hb2]. destruct (Hw k') as (_ & _ & Hhk & Hdk). split.
  - destruct Hhk as [[-> _]|(-> & b & Hb' & [x Hx] & _)]; [done|].
    pose proof (window_take_ok 3600 _ Hh t _ Hb1) as Hok. rewrite Hb', Hx in Hok. by rewrite Hx.
  - destruct Hdk as [[-> _]|(-> & Hb' & [x Hx])]; [done|].
    pose proof (window_take_ok 86400 _ Hd t _ Hb2) as Hok. rewrite Hb', Hx in Hok. by rewrite Hx.
Qed.

Lemma run_checks_ok calls l : limiter_ok l -> limiter_ok (run_checks calls l).2 /\
  hourly_limit (run_checks calls l).2 = hourly_limit l /\ daily_limit (run_checks calls l).2 = daily_limit l.
Proof.
  revert l. induction calls as [|[k t] calls IH]; intros l Hl; simpl; [done|].
  pose proof (check_ok k t l Hl) as Hl'. pose proof (check_windows k t l k) as Hw.
  destruct (check k t l) as [ok l']. simpl in Hl'. destruct (IH l' Hl') as (H1 & H2 & H3).
  destruct Hw as (Eh & Ed & _). destruct (run_checks calls l') as [oks l'']. simpl in *.
  split_and!; [done|congruence|congruence].
Qed.

Lemma new_limiter_ok rpm : 0 <= rpm -> limiter_ok (new_limiter rpm).
Proof.
  intros. unfold limiter_ok, hourly_of, daily_of, u32_saturating_mul. simpl.
  unfold u32_saturating_mul. split_and!; [lia..|]. intros. rewrite !lookup_empty. done.
Qed.

Definition calls_within (key : string) (t0 secs : Z) (calls : list (string * Z)) : Prop :=
  Forall (fun c => c.1 = key -> t0 <= c.2 < t0 + from_secs secs) calls.

Lemma granted_cons key k t calls l :
  granted key ((k, t) :: calls) l =
  (if decide (k = key /\ (check k t l).1 = true) then 1 else 0) + granted key calls (check k t l).2.
Proof.
  unfold granted. cbn [run_checks]. destruct (check k t l) as [ok l'].
  destruct (run_checks calls l') as [oks l''] eqn:E. simpl. rewrite filter_cons, ?E. simpl.
  repeat case_decide; try naive_solver; simpl; lia.
Qed.

(** The grants of a key fit the room of its hourly window. *)
Lemma hourly_room key t0 calls l :
  limiter_ok l -> calls_within key t0 3600 calls ->
  granted key calls l <= room (hourly_limit l) t0 (hourly_of key l).
Proof.
  intros Hl Hc. revert l Hl. induction Hc as [|[k t] calls Ht Hc IH]; intros l Hl.
  { destruct Hl as (Hh & _ & Hb). pose proof (room_range _ t0 Hh _ (proj1 (Hb key))). unfold granted. simpl. lia. }
  rewrite granted_cons. pose proof (check_ok k t l Hl) as Hl'.
  pose proof (check_windows k t l key) as Hw. specialize (IH _ Hl').
  destruct Hl as (Hh & _ & Hb). destruct (Hb key) as [Hb1 _].
  destruct (check k t l) as [ok l']. simpl in *. destruct Hw as (Eh & _ & Hhk & _). rewrite Eh in IH.
  destruct Hhk as [[Eq Hno]|(-> & b & Hb' & [x Hx] & Hok)]; [rewrite Eq in IH|].
  - case_decide as Hd; [|lia]. destruct Hd as [-> ->]. by specialize (Hno eq_refl).
  - pose proof (window_take_room 3600 _ t0 Hh t _ Hb1 (Ht eq_refl)) as Hr.
    rewrite Hb', Hx in Hr. rewrite Hx in IH. simpl in *. case_decide as Hd.
    + destruct Hd as [_ Hd]. rewrite (Hok Hd) in Hr. lia.
    + destruct b; lia.
Qed.

Lemma daily_room key t0 calls l :
  limiter_ok l -> calls_within key t0 86400 calls ->
  granted key calls l <= room (daily_limit l) t0 (daily_of key l).
Proof.
  intros Hl Hc. revert l Hl. induction Hc as [|[k t] calls Ht Hc IH]; intros l Hl.
  { destruct Hl as (_ & Hh & Hb). pose proof (room_range _ t0 Hh _ (proj2 (Hb key))). unfold granted. simpl. lia. }
  rewrite granted_cons. pose proof (check_ok k t l Hl) as Hl'.
  pose proof (check_windows k t l key) as Hw. specialize (IH _ Hl').
  destruct Hl as (_ & Hh & Hb). destruct (Hb key) as [_ Hb1].
  destruct (check k t l) as [ok l']. simpl in *. destruct Hw as (_ & Eh & _ & Hhk). rewrite Eh in IH.
  destruct Hhk as [[Eq Hno]|(-> & Hb' & [x Hx])]; [rewrite Eq in IH|].
  - case_decide as Hd; [|lia]. destruct Hd as [-> ->]. by specialize (Hno eq_refl).
  - pose proof (window_take_room 86400 _ t0 Hh t _ Hb1 (Ht eq_refl)) as Hr.
    rewrite Hb', Hx in Hr. rewrite Hx in IH. simpl in *. case_decide as Hd.
    + destruct Hd as [_ Hd]. rewrite Hd in Hr. lia.
    + destruct ok; lia.
Qed.

(** Whatever was asked before and however the calls of other keys are
    interleaved, the limiter grants a key at most twice its hourly limit over
    any span of an hour, and at most twice its daily limit over any span of a
    day. *)
Theorem check_windows_bounded rpm prior calls key t0 :
  0 <= rpm ->
  let l := (run_checks prior (new_limiter rpm)).2 in
  (calls_within key t0 3600 calls -> granted key calls l <= 2 * u32_saturating_mul rpm 10) /\
  (calls_within key t0 86400 calls -> granted key calls l <= 2 * u32_saturating_mul rpm 100).
Proof.
  intros Hrpm l.
  destruct (run_checks_ok prior (new_limiter rpm) (new_limiter_ok rpm Hrpm)) as (Hl & Eh & Ed). fold l in Hl, Eh, Ed.
  destruct Hl as (Hh & Hd & Hb). split; intros Hc.
  - etrans; [apply (hourly_room key t0); [done|exact Hc]|]. rewrite Eh.
    etrans; [apply room_range; [by rewrite Eh in Hh|rewrite <- Eh; apply Hb]|]. done.
  - etrans; [apply (daily_room key t0); [done|exact Hc]|]. rewrite Ed.
    etrans; [apply room_range; [by rewrite Ed in Hd|rewrite <- Ed; apply Hb]|]. done.
Qed.

(** Calls of one key a minute apart. *)
Definition every_minute (n : nat) (from : Z) : list (string * Z) :=
  (fun i => ("k", from_secs (from + 60 * Z.of_nat i))) <$> seq 0 n.

Lemma every_minute_within n from :
  (n <= 60)%nat -> calls_within "k" (from_secs from) 3600 (every_minute n from).
Proof.
  intros Hn. apply Forall_fmap, Forall_forall. intros i Hi%elem_of_seq _. simpl. unfold from_secs. lia.
Qed.

Lemma check_windows_bounded_witness :
  granted "k" (every_minute 20 3000) (run_checks [("k", 0)] (new_limiter 1)).2 <= 20.
Proof.
  refine (proj1 (check_windows_bounded 1 [("k", 0)] (every_minute 20 3000) "k" (from_secs 3000) _) _).
  - lia.
  - apply every_minute_within. lia.
Defined.

(** The hourly window is fixed, not sliding: with a limit of 10 an hour a
    key is granted 19 requests within one hour. *)
Theorem hourly_window_is_not_sliding :
  hourly_limit (new_limiter 1) = 10 /\
  calls_within "k" (from_secs 3000) 3600 (every_minute 20 3000) /\
  granted "k" (every_minute 20 3000) (run_checks [("k", 0)] (new_limiter 1)).2 = 19.
Proof.
  split; [reflexivity|]. split; [|vm_compute; reflexivity].
  apply every_minute_within. lia.
Qed.
