(* ===== verification/RelayAuth.v ===== *)
(** * Relay: request authentication ([auth.rs]) and the routing middlewares
    ([server.rs])

    The Ed25519 header check, the nonce store and the per-device rate limit
    in front of the authenticated routes; the client identity of the public
    limit and the v1 retirement gate.  The clock is read more than once per
    request, so every read is an argument. *)

From S2P Require Import Prelude ThirdParty RelayStorage RelayPairing RelayRate.
From Stdlib Require Import ZArith Lia Strings.String Strings.Ascii DecimalString.
From stdpp Require Import base list option strings numbers gmap.
From S2P Require Import Text.
Open Scope Z_scope.

(** ** Freshness: [(now - timestamp).abs() > window.max(1)], with the
    two's-complement wrap of a release build. *)


Definition expired (now timestamp window : Z) : bool :=
  Z.max window 1 <? i64_wrap (Z.abs (i64_wrap (now - timestamp))).

(** ** Requests *)

Record HttpRequest := {
  method : string;
  path : string;
  authorization : option string;
  body : bytes;
}.

Definition newline : string := String (ascii_of_nat 10) EmptyString.

(** The database and the in-memory limiter. *)
Record RelayState := { storage : DB; rate_limiter : RateLimiter }.

Section Auth.
Context `{UuidText, Base64, Sha256, Ed25519}.

(** The text a device signs. *)
Definition auth_message (method path : string) (timestamp : Z) (nonce : string) (body : bytes) : string :=
  method +:+ newline +:+ path +:+ newline +:+ i64_display timestamp +:+ newline +:+ nonce
    +:+ newline +:+ hash_bytes_hex body.

(** [verify_auth]. *)
Definition verify_auth (header : string) (method path : string) (body : bytes) (db : DB)
    (nonce_window_secs now : Z) : result RelayError (Uuid * Z * string) :=
  stripped ← ok_or (strip_prefix "SentinelPass-Ed25519 " header) (Auth "Invalid auth scheme");
  match splitn 4 ":"%char stripped with
  | [p0; p1; p2; p3] =>
    device_id ← ok_or (uuid_parse_str p0) (Auth "Invalid device ID");
    timestamp ← ok_or (parse_i64 p1) (Auth "Invalid timestamp");
    let nonce := p2 in
    sig_bytes ← ok_or (b64_decode p3) (Auth "Invalid signature encoding");
    _ ← err_if (expired now timestamp nonce_window_secs) (Auth "Request expired");
    row ← ok_or (devices db !! uuid_to_string device_id) (Auth "Unknown device");
    _ ← err_if (d_revoked row) (Auth "Device revoked");
    let message := auth_message method path timestamp nonce body in
    _ ← err_if (negb (Z.of_nat (length (d_public_key row)) =? 32)) (Auth "Invalid public key");
    _ ← err_if (negb (verifying_key_ok (d_public_key row))) (Auth "Invalid public key");
    _ ← err_if (negb (Z.of_nat (length sig_bytes) =? 64)) (Auth "Invalid signature length");
    _ ← err_if (negb (ed25519_verify (d_public_key row) (as_bytes message) sig_bytes))
          (Auth "Signature verification failed");
    Ok (device_id, timestamp, nonce)
  | _ => Err (Auth "Invalid auth format")
  end.

(** The nonce block of [auth_middleware], in autocommit mode. *)
Definition consume_nonce (nonce : string) (device_id : Uuid) (now nonce_window_secs : Z) (db : DB)
    : result RelayError unit * DB :=
  run_auto (
    seen ← query (fun db => bool_decide (is_Some (seen_nonces db !! nonce)));
    _ ← throw_if seen (Auth "Nonce reused");
    _ ← execute (fun db => {| db with seen_nonces :=
          <[nonce := {| n_device_id := uuid_to_string device_id; n_seen_at := now |}]> (seen_nonces db) |});
    execute (fun db => {| db with seen_nonces :=
      filter (fun kv => ~ n_seen_at kv.2 < now - nonce_window_secs) (seen_nonces db) |})) db.

(** [auth_middleware] up to [next.run]: the device the request acts for.
    [now1] is the clock of [verify_auth], [now2] that of the nonce block and
    [instant] the limiter's. *)
Definition auth_middleware (cfg : RelayConfig) (now1 now2 instant : Z) (req : HttpRequest) (st : RelayState)
    : result RelayError Uuid * RelayState :=
  match authorization req with
  | None => (Err (Auth "Missing Authorization header"), st)
  | Some header =>
    if max_payload_size cfg <? Z.of_nat (length (body req)) then (Err (BadRequest "Failed to read body"), st)
    else
      match verify_auth header (method req) (path req) (body req) (storage st) (nonce_window_secs cfg) now1 with
      | Err e => (Err e, st)
      | Ok (device_id, _, nonce) =>
        match consume_nonce nonce device_id now2 (nonce_window_secs cfg) (storage st) with
        | (Err e, db) => (Err e, {| st with storage := db |})
        | (Ok _, db) =>
          let (ok, l) := check ("auth:" +:+ uuid_to_string device_id) instant (rate_limiter st) in
          (if ok then Ok device_id else Err RateLimited, {| storage := db; rate_limiter := l |})
        end
      end
  end.

End Auth.

(** ** [server.rs] *)

(** [effective_client_ip]. *)
Definition effective_client_ip (peer_ip : string) (xff : option string) (trusted : list string) : string :=
  if existsb (fun p => String.eqb p peer_ip) trusted then
    default peer_ip
      (v ← xff;
       let s := trim (default v (fst <$> split_once ","%char v)) in
       if String.eqb s "" then None else Some s)
  else peer_ip.

(** [public_rate_limit_middleware] up to [next.run]. *)
Definition public_rate_limit (cfg : RelayConfig) (instant : Z) (path peer_ip : string) (xff : option string)
    (l : RateLimiter) : result RelayError unit * RateLimiter :=
  if String.eqb path "/health" then (Ok tt, l)
  else
    let client_ip := effective_client_ip peer_ip xff (trusted_proxies cfg) in
    let (ok, l) := check ("public:" +:+ path +:+ ":" +:+ client_ip) instant l in
    (if ok then Ok tt else Err RateLimited, l).

(** [v1_retirement_middleware]. *)
Definition v1_retirement (cfg : RelayConfig) : result RelayError unit :=
  err_if (negb (allow_v1 cfg)) (Gone "sync protocol v1 is retired (ADR-006)").

(** ** Lemmas *)

(** Outside one timestamp, the wrapped freshness test is the exact one. *)
Lemma expired_exact now ts window :
  0 <= now < 2 ^ 62 -> in_i64 ts -> window < 2 ^ 62 -> now - ts <> 2 ^ 63 ->
  expired now ts window = (Z.max window 1 <? Z.abs (now - ts)).
Proof.
  unfold in_i64, expired, i64_wrap. intros Hn Ht Hw Hne.
  destruct (Z_lt_dec (now - ts) (2 ^ 63)).
  - rewrite (Z.mod_small (now - ts + 2 ^ 63)) by lia.
    rewrite (Z.mod_small (_ + 2 ^ 63)) by lia. f_equal. lia.
  - replace ((now - ts + 2 ^ 63) mod 2 ^ 64) with (now - ts + 2 ^ 63 - 2 ^ 64).
    2:{ apply (Z.mod_unique _ _ 1); lia. }
    rewrite (Z.mod_small (_ + 2 ^ 63)) by lia.
    transitivity true; [|symmetry]; apply Z.ltb_lt; lia.
Qed.

Lemma expired_window now ts window :
  0 <= now < 2 ^ 62 -> in_i64 ts -> window < 2 ^ 62 -> 1 <= window -> window < now - ts < 2 ^ 63 ->
  expired now ts window = true.
Proof. intros. rewrite expired_exact by (done || lia). apply Z.ltb_lt. lia. Qed.

(** The pieces of an authorization header put together again. *)
Lemma strip_prefix_Some p s r : strip_prefix p s = Some r -> s = p +:+ r.
Proof.
  revert s. induction p as [|a p IH]; intros s; simpl; [by intros [= ->]|].
  destruct s as [|b s]; [done|]. destruct (Ascii.eqb_spec a b) as [->|]; [|done]. intros E. by rewrite (IH _ E).
Qed.

Lemma split_once_Some c s x y : split_once c s = Some (x, y) -> s = x +:+ String c y.
Proof.
  revert x. induction s as [|a s IH]; intros x; simpl; [done|].
  destruct (Ascii.eqb_spec a c) as [->|]; [by intros [= <- <-]|].
  destruct (split_once c s) as [[x' y']|]; [|done]. intros [= <- <-]. by rewrite (IH x').
Qed.

Lemma splitn_4 c s p0 p1 p2 p3 :
  splitn 4 c s = [p0; p1; p2; p3] -> s = p0 +:+ String c (p1 +:+ String c (p2 +:+ String c p3)).
Proof.
  simpl. destruct (split_once c s) as [[a s1]|] eqn:E1; [|done].
  destruct (split_once c s1) as [[b s2]|] eqn:E2; [|done].
  destruct (split_once c s2) as [[d s3]|] eqn:E3; [|done]. intros [= <- <- <- <-].
  apply split_once_Some in E1, E2, E3. by subst.
Qed.

Section AuthFacts.
Context `{UuidText, Base64, Sha256, Ed25519}.

(** What an accepted header establishes. *)
Record authentic (header method path : string) (body : bytes) (db : DB) (window now : Z)
    (device_id : Uuid) (ts : Z) (nonce : string) : Prop := {
  au_fresh : expired now ts window = false;
  au_ts : in_i64 ts;
  au_device : exists row sig, devices db !! uuid_to_string device_id = Some row /\
    d_revoked row = false /\ length (d_public_key row) = 32%nat /\
    verifying_key_ok (d_public_key row) = true /\ length sig = 64%nat /\
    ed25519_verify (d_public_key row) (as_bytes (auth_message method path ts nonce body)) sig = true;
}.

Lemma verify_auth_ok header method path body db window now device_id ts nonce :
  verify_auth header method path body db window now = Ok (device_id, ts, nonce) ->
  authentic header method path body db window now device_id ts nonce /\
  exists stripped p0 p1 p3, strip_prefix "SentinelPass-Ed25519 " header = Some stripped /\
    splitn 4 ":"%char stripped = [p0; p1; nonce; p3] /\ parse_i64 p1 = Some ts.
Proof.
  unfold verify_auth. intros Hv. apply result_bind_ok in Hv as (stripped & Hs & Hv). result_inv.
  destruct (splitn 4 ":"%char stripped) as [|p0 [|p1 [|p2 [|p3 [|]]]]] eqn:Esp; try done.
  apply result_bind_ok in Hv as (dev & Hdev & Hv). apply result_bind_ok in Hv as (t & Ht & Hv). cbv zeta in Hv.
  result_inv. simplify_eq. propify. split; [|naive_solver].
  constructor; [done|by eapply parse_i64_range|].
  do 2 eexists. split_and!; try done; lia.
Qed.

(** What the text of an accepted header is made of. *)
Lemma verify_auth_signed header method path body db window now device_id ts nonce :
  verify_auth header method path body db window now = Ok (device_id, ts, nonce) ->
  exists id time sig_text sig row,
    header = "SentinelPass-Ed25519 " +:+ id +:+ ":" +:+ time +:+ ":" +:+ nonce +:+ ":" +:+ sig_text /\
    uuid_parse_str id = Some device_id /\ parse_i64 time = Some ts /\ b64_decode sig_text = Some sig /\
    expired now ts window = false /\ devices db !! uuid_to_string device_id = Some row /\
    d_revoked row = false /\ length sig = 64%nat /\
    ed25519_verify (d_public_key row) (as_bytes (auth_message method path ts nonce body)) sig = true.
Proof.
  unfold verify_auth. intros Hv. apply result_bind_ok in Hv as (stripped & Hs & Hv). result_inv.
  destruct (splitn 4 ":"%char stripped) as [|p0 [|p1 [|p2 [|p3 [|]]]]] eqn:Esp; try done.
  apply result_bind_ok in Hv as (dev & Hdev & Hv). apply result_bind_ok in Hv as (t & Ht & Hv). cbv zeta in Hv.
  result_inv. simplify_eq. propify.
  apply strip_prefix_Some in Hs as ->. apply splitn_4 in Esp as ->.
  do 5 eexists. split_and!; first [done|lia].
Qed.

(** The header fixes the timestamp and the nonce. *)
Lemma verify_auth_header header m1 m2 p1 p2 b1 b2 db1 db2 w n1 n2 d1 d2 t1 t2 x1 x2 :
  verify_auth header m1 p1 b1 db1 w n1 = Ok (d1, t1, x1) ->
  verify_auth header m2 p2 b2 db2 w n2 = Ok (d2, t2, x2) -> t1 = t2 /\ x1 = x2.
Proof.
  intros (_ & s & a & b & c & Hs & Hsp & Ht)%verify_auth_ok (_ & s' & a' & b' & c' & Hs' & Hsp' & Ht')%verify_auth_ok.
  simplify_eq. rewrite Hsp in Hsp'. simplify_eq. done.
Qed.

Lemma consume_nonce_ok nonce d now w db u db' :
  consume_nonce nonce d now w db = (Ok u, db') ->
  seen_nonces db !! nonce = None /\
  db' = {| db with seen_nonces := filter (fun kv => ~ n_seen_at kv.2 < now - w)
    (<[nonce := {| n_device_id := uuid_to_string d; n_seen_at := now |}]> (seen_nonces db)) |}.
Proof.
  unfold consume_nonce, run_auto. intros Hc.
  match type of Hc with (let (_, _) := ?m in _) = _ => destruct m as [r c] eqn:Em end.
  injection Hc as -> <-. tx_inv. propify. split; [|done]. by apply eq_None_not_Some.
Qed.

Lemma consume_nonce_err nonce d now w db e db' :
  consume_nonce nonce d now w db = (Err e, db') -> db' = db /\ is_Some (seen_nonces db !! nonce).
Proof.
  unfold consume_nonce, run_auto, mbind, Tx_bind, query, throw_if, lift, execute. simpl.
  case_bool_decide; simpl; intros [= <- <-]; done.
Qed.

(** Every answer of the middleware leaves the tables other than
    [seen_nonces] alone. *)
Lemma auth_middleware_frame cfg n1 n2 i req st r st' :
  auth_middleware cfg n1 n2 i req st = (r, st') ->
  exists nonces, storage st' = {| (storage st) with seen_nonces := nonces |}.
Proof.
  unfold auth_middleware.
  assert (forall db, exists nonces, db = {| db with seen_nonces := nonces |}) as Hid
    by (intros []; eexists; reflexivity).
  destruct (authorization req); [|intros [= <- <-]; apply Hid].
  case_goal; [intros [= <- <-]; apply Hid|].
  destruct (verify_auth _ _ _ _ _ _ _) as [[[d t] n]|e]; [|intros [= <- <-]; apply Hid].
  destruct (consume_nonce _ _ _ _ _) as [[u|e] db] eqn:Ec.
  - apply consume_nonce_ok in Ec as [_ ->]. destruct (check _ _ _). intros [= <- <-]. by eexists.
  - apply consume_nonce_err in Ec as [-> _]. intros [= <- <-]. apply Hid.
Qed.

Lemma auth_middleware_ok cfg n1 n2 i req st d st' :
  auth_middleware cfg n1 n2 i req st = (Ok d, st') ->
  exists header ts nonce,
    authorization req = Some header /\
    verify_auth header (method req) (path req) (body req) (storage st) (nonce_window_secs cfg) n1 = Ok (d, ts, nonce) /\
    Z.of_nat (length (body req)) <= max_payload_size cfg /\
    consume_nonce nonce d n2 (nonce_window_secs cfg) (storage st) = (Ok tt, storage st').
Proof.
  unfold auth_middleware. destruct (authorization req) as [header|]; [|done].
  case_goal; [done|]. destruct (verify_auth _ _ _ _ _ _ _) as [[[d' t] n]|e] eqn:Ev; [|done].
  destruct (consume_nonce _ _ _ _ _) as [[[]|e] db] eqn:Ec; [|done].
  destruct (check _ _ _) as [[] l]; [|done]. intros [= <- <-]. propify. exists header, t, n. done.
Qed.

End AuthFacts.
