(* ===== verification/Relay.v ===== *)
(** * The relay as a whole ([server.rs], [main.rs], [cleanup.rs])

    The router: which middleware guards which route, and the handler behind
    it; the running system as a step relation of timed requests and hourly
    cleanups.  A [Call] carries its deserialised body beside the raw request
    that was signed; an [Env] carries what the process reads from its
    surroundings while it serves the request (clock readings, randomness, the
    peer address). *)

From S2P Require Import Prelude ThirdParty RelayStorage RelaySyncV2 RelayPairing RelayDevices.
From S2P Require Import RelaySyncV1 RelayRate RelayAuth.
From Stdlib Require Import ZArith Lia.
From stdpp Require Import base list option strings numbers gmap.
Open Scope Z_scope.

(** ** The hourly cleanup ([cleanup.rs]) *)

(** [run_cleanup]'s parameters. *)
Record CleanupParams := {
  cp_tombstone_retention_days : Z;               (* u64 *)
  cp_nonce_window_secs : Z;
  cp_pairing_fetch_attempt_retention_secs : Z;
  cp_mutation_result_ttl_secs : Z;
  cp_max_mutation_results_per_device : Z;        (* usize *)
}.

(** [ROW_NUMBER() OVER (PARTITION BY device_id ORDER BY created_at DESC, rowid
    DESC)] of the row at position [i]: one more than the rows of the device
    that are newer, or as new and inserted later. *)
Definition row_number (rows : list ResultRow) (i : nat) (r : ResultRow) : Z :=
  1 + Z.of_nat (length (filter (fun js =>
        mr_device_id js.2 = mr_device_id r /\
        (mr_created_at r < mr_created_at js.2 \/ (mr_created_at js.2 = mr_created_at r /\ (i < js.1)%nat)))
      (imap pair rows))).

(** The per-device cap: keep the rows numbered up to [n]. *)
Definition cap_results (n : Z) (rows : list ResultRow) : list ResultRow :=
  snd <$> filter (fun js => row_number rows js.1 js.2 <= n) (imap pair rows).

(** The statements of [run_cleanup], in order. *)
Definition prune_nonces (cutoff : Z) (db : DB) : DB :=
  {| db with seen_nonces := filter (fun kv => ~ n_seen_at kv.2 < cutoff) (seen_nonces db) |}.
Definition prune_results (cutoff : Z) (db : DB) : DB :=
  {| db with mutation_results := filter (fun r => ~ mr_created_at r < cutoff) (mutation_results db) |}.
Definition evict_results (n : Z) (db : DB) : DB :=
  {| db with mutation_results := cap_results n (mutation_results db) |}.
Definition prune_bootstraps (now : Z) (db : DB) : DB :=
  {| db with pairing_bootstraps :=
       filter (fun b => ~ (pb_expires_at b < now \/ pb_consumed b = true)) (pairing_bootstraps db) |}.
Definition prune_bootstraps_v2 (now : Z) (db : DB) : DB :=
  {| db with pairing_bootstraps_v2 :=
       filter (fun kv => ~ (b2_expires_at kv.2 < now \/ b2_consumed kv.2 = true)) (pairing_bootstraps_v2 db) |}.
Definition prune_proofs (now : Z) (db : DB) : DB :=
  {| db with pairing_registration_proofs :=
       filter (fun kv => ~ (rp_expires_at kv.2 < now \/ rp_consumed kv.2 = true)) (pairing_registration_proofs db) |}.
Definition prune_attempts (now cutoff : Z) (db : DB) : DB :=
  {| db with pairing_fetch_attempts :=
       filter (fun kv => ~ ((fa_blocked_until kv.2 <= now /\ fa_last_attempt_at kv.2 < cutoff)
                            \/ fa_last_attempt_at kv.2 < cutoff)) (pairing_fetch_attempts db) |}.
Definition prune_tombstones (cutoff : Z) (db : DB) : DB :=
  {| db with sync_entries :=
       filter (fun kv => ~ (se_is_tombstone kv.2 = true /\ se_received_at kv.2 < cutoff)) (sync_entries db) |}.

(** [run_cleanup], in autocommit mode: the statements one after the other. *)
Definition run_cleanup (p : CleanupParams) (now : Z) (db : DB) : DB :=
  let db := prune_nonces (now - Z.max (cp_nonce_window_secs p) 1) db in
  let db := prune_results (now - Z.max (cp_mutation_result_ttl_secs p) 1) db in
  let db := evict_results (cp_max_mutation_results_per_device p) db in
  let db := prune_bootstraps now db in
  let db := prune_bootstraps_v2 now db in
  let db := prune_proofs now db in
  let db := prune_attempts now (now - Z.max (cp_pairing_fetch_attempt_retention_secs p) 60) db in
  prune_tombstones (now - u64_as_i64 (cp_tombstone_retention_days p) * 86400) db.

(** ** The router *)

Inductive Call :=
(* v1, authenticated *)
| UploadBootstrap (req : UploadBootstrapRequest)
| Push (req : PushRequest)
| Pull (req : PullRequest)
| FullPush (entries : list SyncEntryBlob)
| FullPull
(* v1, public *)
| RegisterV1 (req : RegisterDeviceRequest)
| FetchBootstrap (token : string)
(* authenticated *)
| UploadBootstrapV2 (req : UploadBootstrapV2Request)
| ListDevices
| RevokeDevice (target : string)
| Status
| PushV2 (req : PushRequestV2)
| PullV2 (req : PullRequestV2)
| MigrationClaim (origin_vault_id : Uuid)
(* public *)
| RegisterV2 (req : RegisterDeviceRequest)
| RetrieveBootstrapV2 (secret : string)
| Health.

Inductive Response :=
| RUploaded (expires_at : Z)
| RPush (r : PushResponse)
| RPull (r : PullResponse)
| REntries (es : list PullEntry)
| RRegistered
| RBootstrap (r : BootstrapResponse)
| RDevices (ds : list DeviceInfo)
| RRevoked
| RStatus (r : StatusResponse)
| RPushV2 (r : PushResponseV2)
| RPullV2 (r : PullResponseV2)
| RClaim (new_vault_id : Uuid)
| RBootstrapV2 (r : RetrieveBootstrapV2Response)
| RHealth.

(** The four routers of [build_router]. *)
Inductive Access := V1Authenticated | V1Public | Authenticated | Public.

Definition access (c : Call) : Access :=
  match c with
  | UploadBootstrap _ | Push _ | Pull _ | FullPush _ | FullPull => V1Authenticated
  | RegisterV1 _ | FetchBootstrap _ => V1Public
  | UploadBootstrapV2 _ | ListDevices | RevokeDevice _ | Status | PushV2 _ | PullV2 _ | MigrationClaim _ => Authenticated
  | RegisterV2 _ | RetrieveBootstrapV2 _ | Health => Public
  end.

Record Env := {
  env_auth_now : Z;        (* clock of [verify_auth] *)
  env_nonce_now : Z;       (* clock of the nonce block *)
  env_now : Z;             (* clock of the handler *)
  env_instant : Z;         (* monotonic clock of the limiter *)
  env_salt : string;       (* [SaltString::generate] *)
  env_uuid : Uuid;         (* [Uuid::new_v4] *)
  env_peer_ip : string;
  env_xff : option string;
}.

Definition rmap {A B} (f : A -> B) (r : result RelayError A) : result RelayError B :=
  match r with Ok a => Ok (f a) | Err e => Err e end.

(** The answer of a handler that may write, and of one that only reads. *)
Definition writes {A} (f : A -> Response) (rd : result RelayError A * DB) : result RelayError Response * DB :=
  (rmap f rd.1, rd.2).
Definition reads {A} (f : A -> Response) (r : result RelayError A) (db : DB) : result RelayError Response * DB :=
  (rmap f r, db).

Section Relay.
Context `{UuidText, Base64, Base64Url, Sha256, Argon2, Ed25519, SerdeJson RejectionReason}.

(** The handler of a route; [device] is the extension [auth_middleware] set. *)
Definition run_call (cfg : RelayConfig) (env : Env) (device : option Uuid) (call : Call) (db : DB)
    : result RelayError Response * DB :=
  let now := env_now env in
  let salt := env_salt env in
  match call with
  | UploadBootstrap req => writes RUploaded (upload_bootstrap cfg salt device now req db)
  | Push req => writes RPush (push device now req db)
  | Pull req => reads RPull (pull device req db) db
  | FullPush es => writes RPush (full_push device now es db)
  | FullPull => reads REntries (full_pull device db) db
  | RegisterV1 req => writes (fun _ => RRegistered) (register_device now req db)
  | FetchBootstrap token => writes RBootstrap (fetch_bootstrap cfg salt now token db)
  | UploadBootstrapV2 req => writes RUploaded (upload_bootstrap_v2 cfg salt device now req db)
  | ListDevices => reads RDevices (list_devices device db) db
  | RevokeDevice target => writes (fun _ => RRevoked) (revoke_device device target now db)
  | Status => reads RStatus (status device db) db
  | PushV2 req => writes RPushV2 (push_v2 device now req db)
  | PullV2 req => reads RPullV2 (pull_v2 device req db) db
  | MigrationClaim origin => writes RClaim (migration_claim (env_uuid env) device now origin db)
  | RegisterV2 req => writes (fun _ => RRegistered) (register_device now req db)
  | RetrieveBootstrapV2 secret => writes RBootstrapV2 (retrieve_bootstrap_v2 cfg salt now secret db)
  | Health => (Ok RHealth, db)
  end.

Definition with_storage {A} (st : RelayState) (rd : result RelayError A * DB) : result RelayError A * RelayState :=
  (rd.1, {| st with storage := rd.2 |}).

(** Behind [auth_middleware]. *)
Definition handle_authenticated (cfg : RelayConfig) (env : Env) (req : HttpRequest) (call : Call) (st : RelayState)
    : result RelayError Response * RelayState :=
  match auth_middleware cfg (env_auth_now env) (env_nonce_now env) (env_instant env) req st with
  | (Err e, st) => (Err e, st)
  | (Ok d, st) => with_storage st (run_call cfg env (Some d) call (storage st))
  end.

(** Behind [public_rate_limit_middleware]. *)
Definition handle_public (cfg : RelayConfig) (env : Env) (req : HttpRequest) (call : Call) (st : RelayState)
    : result RelayError Response * RelayState :=
  match public_rate_limit cfg (env_instant env) (path req) (env_peer_ip env) (env_xff env) (rate_limiter st) with
  | (Err e, l) => (Err e, {| st with rate_limiter := l |})
  | (Ok _, l) =>
    with_storage {| st with rate_limiter := l |} (run_call cfg env None call (storage st))
  end.

(** [build_router]: the retirement gate is outermost on the v1 routes. *)
Definition handle (cfg : RelayConfig) (env : Env) (req : HttpRequest) (call : Call) (st : RelayState)
    : result RelayError Response * RelayState :=
  match access call with
  | V1Authenticated =>
    match v1_retirement cfg with
    | Err e => (Err e, st)
    | Ok _ => handle_authenticated cfg env req call st
    end
  | V1Public =>
    match v1_retirement cfg with
    | Err e => (Err e, st)
    | Ok _ => handle_public cfg env req call st
    end
  | Authenticated => handle_authenticated cfg env req call st
  | Public => handle_public cfg env req call st
  end.

(** The parameters [main] passes to [spawn_cleanup_task]. *)
Definition cleanup_params (cfg : RelayConfig) : CleanupParams := {|
  cp_tombstone_retention_days := tombstone_retention_days cfg;
  cp_nonce_window_secs := nonce_window_secs cfg;
  cp_pairing_fetch_attempt_retention_secs :=
    u64_as_i64 ((pairing_ttl_secs cfg + pairing_fetch_backoff_max_secs cfg) mod 2 ^ 64);
  cp_mutation_result_ttl_secs := u64_as_i64 (mutation_result_ttl_secs cfg);
  cp_max_mutation_results_per_device := max_mutation_results_per_device cfg;
|}.

(** The state [main] starts from. *)
Definition initial_state (cfg : RelayConfig) : RelayState :=
  {| storage := empty_db; rate_limiter := new_limiter (rate_limit_per_minute cfg) |}.

(** A request's integers are values of their Rust types. *)
Definition call_wf (call : Call) : Prop :=
  match call with
  | PushV2 req => Forall (fun m => in_u64 (expected_version m) /\ in_u64 (resulting_version m)
                                   /\ in_i64 (key_epoch m)) (mutations req)
  | _ => True
  end.

(** The running relay: a state and the latest time on its clock, which does
    not run backwards. *)
Inductive relay_step (cfg : RelayConfig) : Z * RelayState -> Z * RelayState -> Prop :=
| step_request t st env req call :
    t <= env_auth_now env -> env_auth_now env <= env_nonce_now env -> env_nonce_now env <= env_now env ->
    call_wf call ->
    relay_step cfg (t, st) (env_now env, (handle cfg env req call st).2)
| step_cleanup t st now :
    t <= now ->
    relay_step cfg (t, st) (now, {| st with storage := run_cleanup (cleanup_params cfg) now (storage st) |}).

Definition relay_steps (cfg : RelayConfig) : Z * RelayState -> Z * RelayState -> Prop := rtc (relay_step cfg).

Definition reachable (cfg : RelayConfig) (ts : Z * RelayState) : Prop :=
  relay_steps cfg (0, initial_state cfg) ts.

End Relay.
