(* ===== verification/RelayInv.v ===== *)
(** * Relay: invariants of the running system

    Every step of the relay preserves the invariant of the stored state and
    only moves it forward: the mutation log is append-only, counters and
    epochs never go back, a device never changes its key and a revoked one
    stays revoked, claims are final.  Each handler is shown to do so, and rule
    induction lifts it to every reachable state. *)

From S2P Require Import Prelude ThirdParty RelayStorage RelaySyncV2 RelayV2Log RelayV2Push RelayPairing.
From S2P Require Import RelayDevices RelayJoin RelaySyncV1 RelayV1Facts RelayRate RelayAuth Relay.
From Stdlib Require Import ZArith Lia.
From stdpp Require Import base list option strings numbers gmap sorting.
Import RelayDemo.
Open Scope Z_scope.

(** ** The invariant and the order of states *)

Definition device_ok (db : DB) (row : DeviceRow) : Prop :=
  is_Some (vaults db !! d_vault_id row) /\ is_Some (sequence_counters db !! d_vault_id row) /\
  length (d_public_key row) = 32%nat.

(** A device keeps its key and never leaves revocation. *)
Definition device_le (a b : DeviceRow) : Prop :=
  d_public_key b = d_public_key a /\ d_device_type b = d_device_type a /\
  d_registered_at b = d_registered_at a /\ (d_revoked a = true -> d_revoked b = true).

#[global] Instance device_le_preorder : PreOrder device_le.
Proof. split; unfold device_le; [by intros ?|]. intros ??? (?&?&?&?) (?&?&?&?). split_and!; [congruence..|auto]. Qed.

Record evolves (db db' : DB) : Prop := {
  ev_log : sync_mutations_v2 db `prefix_of` sync_mutations_v2 db';
  ev_counter : forall v s, sequence_counters db !! v = Some s ->
    exists s', sequence_counters db' !! v = Some s' /\ s <= s';
  ev_epoch : forall v, stored_epoch v db <= stored_epoch v db';
  ev_device : forall d row, devices db !! d = Some row ->
    exists row', devices db' !! d = Some row' /\ device_le row row';
  ev_claim : migration_claims db ⊆ migration_claims db';
}.

#[global] Instance evolves_preorder : PreOrder evolves.
Proof.
  split.
  - intros db. constructor; try done.
    + intros v s ?. exists s. split; [done|lia].
    + intros d row ?. by exists row.
  - intros a b c [l1 c1 e1 d1 m1] [l2 c2 e2 d2 m2]. constructor.
    + by etrans.
    + intros v s Hs. destruct (c1 _ _ Hs) as (s1 & Hs1 & ?). destruct (c2 _ _ Hs1) as (s2 & ? & ?).
      exists s2. split; [done|lia].
    + intros v. etrans; [apply e1|apply e2].
    + intros d row Hd. destruct (d1 _ _ Hd) as (r1 & Hr1 & ?). destruct (d2 _ _ Hr1) as (r2 & ? & ?).
      exists r2. split; [done|]. by etrans.
    + by etrans.
Qed.

(** Handlers that touch none of the synchronised state. *)
Record core_frame (db db' : DB) : Prop := {
  cf_vaults : vaults db' = vaults db;
  cf_devices : devices db' = devices db;
  cf_counters : sequence_counters db' = sequence_counters db;
  cf_entries2 : sync_entries_v2 db' = sync_entries_v2 db;
  cf_log : sync_mutations_v2 db' = sync_mutations_v2 db;
  cf_claims : migration_claims db' = migration_claims db;
  cf_epochs : vault_epochs db' = vault_epochs db;
  cf_entries : sync_entries db' ⊆ sync_entries db;
}.

#[global] Instance core_frame_preorder : PreOrder core_frame.
Proof.
  split; [by constructor|]. intros a b c [] []. constructor; try congruence. by etrans.
Qed.

Section Invariants.
Context `{UuidText, Base64, Base64Url, Sha256, Argon2, Ed25519, SerdeJson RejectionReason}.

Record relay_inv (db : DB) : Prop := {
  ri_log : log_inv db;
  ri_epoch : forall v, epoch_inv v (stored_epoch v db) db;
  ri_v1 : v1_inv db;
  ri_device : forall d row, devices db !! d = Some row -> device_ok db row;
}.

Definition sound (db db' : DB) : Prop := relay_inv db -> relay_inv db' /\ evolves db db'.

#[global] Instance sound_preorder : PreOrder sound.
Proof.
  split; unfold sound; [by intros ? ?; split|].
  intros a b c Hab Hbc Ha. destruct (Hab Ha) as [Hb ?]. destruct (Hbc Hb) as [Hc ?]. split; [done|]. by etrans.
Qed.

(** The v1 invariant survives growing counters and dropped rows. *)
Lemma v1_inv_mono db db' :
  v1_inv db -> sync_entries db' ⊆ sync_entries db ->
  (forall v s, sequence_counters db !! v = Some s -> exists s', sequence_counters db' !! v = Some s' /\ s <= s') ->
  v1_inv db'.
Proof.
  intros Hi Hsub Hc. constructor.
  - intros s v row Hrow. pose proof (lookup_weaken _ _ _ _ Hrow Hsub) as Hrow'.
    destruct (v1_bound _ Hi _ _ _ Hrow') as (c & Hcv & ?). destruct (Hc _ _ Hcv) as (c' & ? & ?).
    exists c'. split; [done|lia].
  - intros s s' v row row' Hrow Hrow'.
    apply (v1_distinct _ Hi s s' v); by eapply lookup_weaken.
Qed.

Lemma core_frame_sound db db' : core_frame db db' -> sound db db'.
Proof.
  intros [Fv Fd Fc Fe Fl Fm Fp Fs] [Hl He Hv1 Hd]. split; constructor.
  - destruct Hl as [L1 L2 L3 L4 L5 L6]. unfold vault_log, object_log in *.
    constructor; unfold object_log, vault_log; by rewrite ?Fc, ?Fl, ?Fe.
  - intros v. specialize (He v). unfold epoch_inv, vault_log, stored_epoch in *. by rewrite Fl, Fp.
  - eapply v1_inv_mono; [done..|]. rewrite Fc. intros v s ?. exists s. split; [done|lia].
  - intros d row. rewrite Fd. intros Hrow. unfold device_ok. rewrite Fv, Fc. by eapply Hd.
  - by rewrite Fl.
  - rewrite Fc. intros v s ?. exists s. split; [done|lia].
  - intros v. unfold stored_epoch. by rewrite Fp.
  - rewrite Fd. intros d row ?. by exists row.
  - by rewrite Fm.
Qed.

(** ** Handlers that leave the synchronised state alone *)

Ltac core := constructor; done.

Lemma upload_sound cfg salt d now req db : sound db (upload_bootstrap cfg salt d now req db).2.
Proof.
  destruct (upload_bootstrap _ _ _ _ _ _) as [r db'] eqn:E. apply core_frame_sound.
  apply (run_tx_preserves core_frame) in E; [done..|].
  unfold insert_proof, insert_bootstrap. preserving; core.
Qed.

Lemma fetch_sound cfg salt now token db : sound db (fetch_bootstrap cfg salt now token db).2.
Proof.
  destruct (fetch_bootstrap _ _ _ _ _) as [r db'] eqn:E. apply core_frame_sound.
  apply (run_tx_preserves core_frame) in E; [done..|].
  unfold count_attempt, upgrade_legacy, clear_attempts. preserving; core.
Qed.

Lemma upload_v2_sound cfg salt d now req db : sound db (upload_bootstrap_v2 cfg salt d now req db).2.
Proof.
  destruct (upload_bootstrap_v2 _ _ _ _ _ _) as [r db'] eqn:E. apply core_frame_sound.
  apply (run_tx_preserves core_frame) in E; [done..|]. unfold upsert_v2. preserving; core.
Qed.

Lemma retrieve_v2_sound cfg salt now enc db : sound db (retrieve_bootstrap_v2 cfg salt now enc db).2.
Proof.
  destruct (retrieve_bootstrap_v2 _ _ _ _ _) as [r db'] eqn:E. apply core_frame_sound.
  apply (run_tx_preserves core_frame) in E; [done..|].
  unfold insert_proof, count_attempt, clear_attempts. preserving; core.
Qed.

Lemma cleanup_sound p now db : sound db (run_cleanup p now db).
Proof.
  apply core_frame_sound. constructor; try done.
  unfold run_cleanup. simpl. apply map_filter_subseteq.
Qed.

Lemma auth_sound cfg n1 n2 i req st r st' :
  auth_middleware cfg n1 n2 i req st = (r, st') -> sound (storage st) (storage st').
Proof. intros (nonces & ->)%auth_middleware_frame. apply core_frame_sound. core. Qed.

(** ** Handlers that write it *)

(** An updated row of one device. *)
Lemma update_device_sound id f db :
  (forall row, devices db !! id = Some row -> device_le row (f row) /\ d_vault_id (f row) = d_vault_id row) ->
  sound db {| db with devices := alter f id (devices db) |}.
Proof.
  intros Hf [Hl He Hv1 Hd]. split; constructor; try done.
  - by destruct Hl; constructor.
  - by destruct Hv1; constructor.
  - intros d row. simpl. destruct (decide (d = id)) as [->|Hne].
    + rewrite lookup_alter_eq. intros (row0 & Hr & ->)%fmap_Some. destruct (Hf _ Hr) as [(Hk & _) Hv].
      specialize (Hd _ _ Hr). unfold device_ok in *. simpl. by rewrite Hv, Hk.
    + rewrite lookup_alter_ne by done. apply Hd.
  - intros v s ?. exists s. split; [done|lia].
  - intros d row Hr. simpl. destruct (decide (d = id)) as [->|Hne].
    + rewrite lookup_alter_eq, Hr. simpl. eexists. split; [done|]. by apply Hf.
    + rewrite lookup_alter_ne by done. by exists row.
Qed.

Lemma revoke_sound requester target now db : sound db (revoke_device requester target now db).2.
Proof.
  unfold revoke_device, run_auto, mbind, Tx_bind, lift, query_row, throw_if, execute.
  destruct requester as [d|]; simpl; [|reflexivity].
  destruct (device_vault (uuid_to_string d) db) as [v|]; simpl; [|reflexivity].
  destruct (device_vault target db) as [v'|]; simpl; [|reflexivity].
  unfold lift. destruct (err_if _ _); simpl; [|reflexivity].
  apply update_device_sound. intros row _. done.
Qed.

(** New vaults start with an empty history. *)
Lemma insert_or_ignore_lookup {V} k (v : V) t j :
  insert_or_ignore k v t !! j = match t !! j with Some x => Some x | None => if decide (k = j) then Some v else None end.
Proof.
  unfold insert_or_ignore. destruct (t !! k) eqn:E.
  - destruct (t !! j) eqn:Ej; [done|]. case_decide; [congruence|done].
  - rewrite lookup_insert. case_decide as Hk; [by subst; rewrite E|]. by destruct (t !! j).
Qed.

Lemma registered_sound now req key db :
  length key = 32%nat -> sound db (registered now req key db).
Proof.
  intros Hkey [Hl He Hv1 Hd]. set (v := uuid_to_string (rd_vault_id req)). set (id := uuid_to_string (rd_device_id req)).
  assert (forall w s, sequence_counters db !! w = Some s -> sequence_counters (registered now req key db) !! w = Some s) as Hc.
  { intros w s Hw. simpl. by rewrite insert_or_ignore_lookup, Hw. }
  split; constructor; try done.
  - destruct Hl as [L1 L2 L3 L4 L5 L6]. constructor; try done.
    + intros w s. simpl. rewrite insert_or_ignore_lookup.
      destruct (_ !! w) eqn:Ew; [intros [= <-]; by eapply L1|]. case_decide; [|done]. intros [= <-]. lia.
    + intros r Hr. destruct (L2 r Hr) as (s & Hs & ?). exists s. split; [by apply Hc|done].
  - eapply v1_inv_mono; [done..|]. intros w s Hw. exists s. split; [by apply Hc|lia].
  - intros d row. unfold device_ok. simpl. fold v id. rewrite !insert_or_ignore_lookup, lookup_insert. case_decide as Hdec.
    + intros [= <-]. destruct (devices db !! id) as [row0|] eqn:E0; simpl.
      * destruct (Hd _ _ E0) as ([vr Hv] & [s Hs] & Hk). rewrite Hv, Hs. eauto.
      * rewrite !decide_True by done. split_and!; [by destruct (vaults db !! v)|by destruct (sequence_counters db !! v)|done].
    + intros Hr. destruct (Hd _ _ Hr) as ([vr Hv] & [s Hs] & Hk). rewrite Hv, Hs. eauto.
  - intros w s Hw. exists s. split; [by apply Hc|lia].
  - intros d row Hr. simpl. fold id. rewrite lookup_insert. case_decide; [subst|by exists row].
    rewrite Hr. eexists. split; done.
Qed.

Lemma register_sound now req db : sound db (register_device now req db).2.
Proof.
  destruct (register_device now req db) as [[u|e] db'] eqn:E; [|apply register_err in E as ->; reflexivity].
  apply register_ok in E as (key & db0 & _ & Hkey & Hp & ->). simpl.
  transitivity db0; [|by apply registered_sound].
  destruct Hp as [[-> _]|(ph & _ & _ & ->)]; [reflexivity|]. apply core_frame_sound. core.
Qed.

Lemma claim_sound new_vault d now origin db : sound db (migration_claim new_vault d now origin db).2.
Proof.
  destruct (migration_claim new_vault d now origin db) as [[r|e] db'] eqn:E; [|apply claim_err in E as ->; reflexivity].
  apply claim_ok in E as (d' & -> & _ & Hv & Hcl & Hnv & Hns & ->). simpl.
  set (fresh := uuid_to_string new_vault) in *. set (id := uuid_to_string d') in *.
  intros [Hl He Hv1 Hd]. split; constructor; try done.
  - destruct Hl as [L1 L2 L3 L4 L5 L6]. constructor; try done.
    + intros w s. simpl. rewrite lookup_insert. case_decide; [intros [= <-]; lia|apply L1].
    + intros r0 Hr. destruct (L2 r0 Hr) as (s & Hs & ?). exists s. split; [|done]. simpl.
      rewrite lookup_insert_ne; [done|congruence].
  - intros w. apply (epoch_inv_mono w (stored_epoch w db)); [apply He|]. unfold stored_epoch. simpl.
    rewrite insert_or_ignore_lookup. destruct (vault_epochs db !! w); simpl; [lia|]. case_decide; simpl; lia.
  - eapply v1_inv_mono; [done..|]. intros w s Hw. exists s. simpl. rewrite lookup_insert_ne by congruence. split; [done|lia].
  - intros x row. unfold device_ok. simpl. destruct (decide (x = id)) as [->|Hx].
    + rewrite lookup_alter_eq. intros (row0 & Hr & ->)%fmap_Some. simpl. rewrite !lookup_insert_eq.
      destruct (Hd _ _ Hr) as (_ & _ & Hk). eauto.
    + rewrite lookup_alter_ne by done. intros Hr. destruct (Hd _ _ Hr) as ([vr Hvr] & [s Hs] & Hk).
      rewrite !lookup_insert_ne by congruence. eauto.
  - intros w s Hw. exists s. simpl. rewrite lookup_insert_ne by congruence. split; [done|lia].
  - intros w. unfold stored_epoch. simpl. rewrite insert_or_ignore_lookup.
    destruct (vault_epochs db !! w); simpl; [lia|]. case_decide; simpl; lia.
  - intros x row Hr. simpl. destruct (decide (x = id)) as [->|Hx].
    + rewrite lookup_alter_eq, Hr. simpl. eexists. split; done.
    + rewrite lookup_alter_ne by done. by exists row.
  - simpl. by apply insert_subseteq.
Qed.

(** v1 pushes grow counters and entries. *)
Lemma v1_writes_sound vault now db db' : v1_writes vault now db db' -> sound db db'.
Proof.
  intros Hw [Hl He Hv1 Hd].
  pose proof (v1_writes_inv _ _ _ _ Hw Hv1 (li_counter _ Hl)) as Hv1'.
  pose proof (v1_writes_frame _ _ _ _ Hw) as [(se & sc & ->) Hc Hn _]. simpl in *.
  split; constructor; try done.
  - destruct Hl as [L1 L2 L3 L4 L5 L6]. constructor; try done.
    + intros w s' Hw'. simpl in Hw'. destruct (sequence_counters db !! w) as [s|] eqn:E.
      * destruct (Hc _ _ E) as (s'' & Hs'' & ?). simplify_eq. specialize (L1 _ _ E). lia.
      * by rewrite (Hn _ E) in Hw'.
    + intros r Hr. destruct (L2 r Hr) as (s & Hs & ?). destruct (Hc _ _ Hs) as (s' & ? & ?).
      exists s'. split; [done|]. lia.
  - intros d row Hr. destruct (Hd _ _ Hr) as (? & [s Hs] & ?). destruct (Hc _ _ Hs) as (s' & ? & ?).
    split_and!; [done|by exists s'|done].
  - intros d row ?. by exists row.
Qed.

Lemma push_sound device_id now req db : sound db (push device_id now req db).2.
Proof.
  destruct (push device_id now req db) as [r db'] eqn:E.
  apply push_effect_v1 in E as [[-> _]|(d & v & db1 & seqs & _ & _ & Hw & -> & _)]; [reflexivity|].
  simpl. transitivity db1; [by eapply v1_writes_sound|]. apply core_frame_sound. core.
Qed.

(** What the iterations of a v2 push leave alone beside [same_frame]. *)
Record push_grows (db db' : DB) : Prop := {
  pg_log : sync_mutations_v2 db `prefix_of` sync_mutations_v2 db';
  pg_counter : forall v s, sequence_counters db !! v = Some s ->
    exists s', sequence_counters db' !! v = Some s' /\ s <= s';
  pg_entries : sync_entries db' = sync_entries db;
  pg_claims : migration_claims db' = migration_claims db;
}.

Lemma push_effects_grow vault d now ms st db rs st' db' :
  push_effects vault d now ms st db rs st' db' -> push_grows db db' /\ (st'.2 = false -> st.2 = false /\ st'.1 = st.1).
Proof.
  induction 1 as [st db|m ms ep ch db o st db1 rs st' db' Ha Heff Heffs [[Gl Gc Ge Gm] Hst]].
  { split; [|done]. constructor; try done. intros v s ?. exists s. split; [done|lia]. }
  assert (push_grows db db1 /\ (st.2 = false -> ch = false /\ st.1 = ep)) as [[Gl1 Gc1 Ge1 Gm1] Hst1].
  { destruct Heff as [r Hr|Hr Hlt o|Hr Hep Hc o|seq payload Hr Hep Hc Hseq Hpay Hf o].
    1,2: split; [|done]; constructor; try done; intros v s ?; exists s; split; [done|lia].
    - split; [|simpl; intros [? ?]%orb_false_iff; propify; split; [done|lia]].
      constructor; try done. intros v s ?. exists s. split; [done|lia].
    - split; [|simpl; intros [? ?]%orb_false_iff; propify; split; [done|lia]].
      constructor; try done; simpl; [by eexists|].
      intros v s Hs. rewrite lookup_insert. case_decide; [subst; simplify_eq; eexists; split; [done|lia]|].
      exists s. split; [done|lia]. }
  split; [|naive_solver]. constructor; [by etrans| |congruence|congruence].
  intros v s Hs. destruct (Gc1 _ _ Hs) as (s1 & Hs1 & ?). destruct (Gc _ _ Hs1) as (s2 & ? & ?).
  exists s2. split; [done|lia].
Qed.

Lemma push_v2_sound device_id now req db :
  Forall mutation_wf (mutations req) -> sound db (push_v2 device_id now req db).2.
Proof.
  intros Hwf. destruct (push_v2 device_id now req db) as [[resp|e] db'] eqn:E.
  2:{ unfold push_v2 in E. rewrite (run_tx_atomic _ (fun r => r)) in E by apply _.
      destruct (push_body _ _ _ _) as [[r|e'] c]; [done|]. injection E as _ <-. reflexivity. }
  apply push_v2_ok in E as (d & v & [ep ch] & dbl & -> & _ & Hv & Heffs & _ & ->). simpl.
  intros [Hl He Hv1 Hd].
  destruct (push_effects_inv _ _ _ _ _ _ _ _ _ Heffs Hwf Hl (He v)) as (Hl' & He' & Hle & [Fd Fv Fe Fc Fl]).
  destruct (push_effects_grow _ _ _ _ _ _ _ _ _ Heffs) as [[Gl Gc Ge Gm] Hst]. simpl in *.
  assert (forall w, stored_epoch w (finish_push v (uuid_to_string d) now (device_sequence req) (ep, ch) dbl) =
            if decide (w = v) then ep else stored_epoch w db) as Hep.
  { intros w. unfold stored_epoch, finish_push. simpl. case_decide as Hw; destruct ch; subst.
    - by rewrite lookup_insert_eq.
    - rewrite Fe. symmetry. by apply Hst.
    - by rewrite lookup_insert_ne, Fe by done.
    - by rewrite Fe. }
  split; constructor; try done.
  - by destruct Hl'; constructor.
  - intros w. rewrite Hep. case_decide as Hw; subst; [exact He'|].
    unfold epoch_inv. change (vault_log w (finish_push _ _ _ _ _ dbl)) with (vault_log w dbl).
    rewrite Fl by done. apply He.
  - eapply v1_inv_mono; [exact Hv1|by simpl; rewrite Ge|exact Gc].
  - intros x row. simpl. rewrite Fd. intros Hr. destruct (Hd _ _ Hr) as ([vr ?] & [s Hs] & ?).
    destruct (Gc _ _ Hs) as (s' & ? & ?). unfold device_ok. simpl. rewrite Fv. split_and!; [by exists vr|by exists s'|done].
  - intros w. rewrite Hep. case_decide; [subst; done|lia].
  - intros x row Hr. simpl. rewrite Fd. by exists row.
  - simpl. by rewrite Gm.
Qed.

(** ** The relay *)

Lemma run_call_sound cfg env device call db :
  call_wf call -> sound db (run_call cfg env device call db).2.
Proof.
  intros Hwf. destruct call; simpl; try reflexivity.
  - apply upload_sound.
  - apply push_sound.
  - apply push_sound.
  - apply register_sound.
  - apply fetch_sound.
  - apply upload_v2_sound.
  - apply revoke_sound.
  - apply push_v2_sound. eapply Forall_impl; [exact Hwf|]. intros m (?&?&?). by constructor.
  - apply claim_sound.
  - apply register_sound.
  - apply retrieve_v2_sound.
Qed.

Lemma handle_sound cfg env req call st :
  call_wf call -> sound (storage st) (storage (handle cfg env req call st).2).
Proof.
  intros Hwf.
  assert (sound (storage st) (storage (handle_authenticated cfg env req call st).2)) as Ha.
  { unfold handle_authenticated. destruct (auth_middleware _ _ _ _ _ _) as [[d|e] st1] eqn:E; apply auth_sound in E; [|done].
    simpl. etrans; [exact E|]. by apply run_call_sound. }
  assert (sound (storage st) (storage (handle_public cfg env req call st).2)) as Hp.
  { unfold handle_public. destruct (public_rate_limit _ _ _ _ _ _) as [[u|e] l]; simpl; [|reflexivity].
    by apply run_call_sound. }
  unfold handle, v1_retirement. destruct (access call); try done;
    (destruct (allow_v1 cfg); simpl; [done|reflexivity]).
Qed.

Lemma relay_step_sound cfg ts ts' : relay_step cfg ts ts' -> sound (storage ts.2) (storage ts'.2).
Proof. intros [t st env req call _ _ _ Hwf|t st now _]; [by apply handle_sound|apply cleanup_sound]. Qed.

Lemma relay_steps_sound cfg ts ts' : relay_steps cfg ts ts' -> sound (storage ts.2) (storage ts'.2).
Proof.
  induction 1 as [|a b c Hab _ IH]; [reflexivity|]. etrans; [by eapply relay_step_sound|done].
Qed.

Lemma empty_inv : relay_inv empty_db.
Proof.
  constructor.
  - by apply log_inv_no_history.
  - intros v. split; constructor.
  - by apply v1_inv_empty.
  - done.
Qed.

Lemma reachable_inv cfg ts : reachable cfg ts -> relay_inv (storage ts.2).
Proof. intros Hr. exact (proj1 (relay_steps_sound _ _ _ Hr empty_inv)). Qed.

(** C6. In every state the relay can reach, whatever requests were served and
    cleanups run: each vault's log has strictly increasing sequences up to the
    vault's counter, each object's rows form a version chain from 0 whose last
    row is the object's stored state, epochs along the log never decrease and
    stay under the stored high-water, v1 rows carry distinct sequences, and
    every device belongs to an existing vault and has a 32-byte key. *)
Theorem relay_reachable_inv cfg t st : reachable cfg (t, st) -> relay_inv (storage st).
Proof. apply (reachable_inv cfg (t, st)). Qed.

(** C7. History is final: from a reachable state on, along any further run,
    the log only grows at its end, no counter or key epoch goes back, a
    registered device keeps its key and, once revoked, stays revoked, and a
    granted migration claim is never changed. *)
Theorem relay_history_monotone cfg t st t' st' :
  reachable cfg (t, st) -> relay_steps cfg (t, st) (t', st') -> evolves (storage st) (storage st').
Proof.
  intros Hr Hs. exact (proj2 (relay_steps_sound _ _ _ Hs (reachable_inv _ _ Hr))).
Qed.

End Invariants.

(** ** A run of the relay *)

Definition demo_env (t : Z) : Env := {|
  env_auth_now := t; env_nonce_now := t; env_now := t; env_instant := from_secs t;
  env_salt := "s"; env_uuid := from_u128 99; env_peer_ip := "10.0.0.1"; env_xff := None |}.

Definition demo_first : RegisterDeviceRequest := {|
  rd_device_id := demo_device1; rd_device_name := "laptop"; rd_device_type := "desktop";
  rd_public_key := b64_encode demo_key; rd_vault_id := demo_vault;
  rd_pairing_token := None; rd_registration_proof := None |}.

Definition demo_public : HttpRequest := {|
  method := "POST"; path := "/api/v2/devices/register"; authorization := None; body := [] |}.

(** A request signed by the first device (the concrete signature scheme
    repeats the first byte of the key). *)
Definition demo_signed (ts : string) (nonce : string) : HttpRequest := {|
  method := "POST"; path := "/api/v2/sync/push";
  authorization := Some ("SentinelPass-Ed25519 " +:+ uuid_to_string demo_device1 +:+ ":" +:+ ts +:+ ":" +:+ nonce
                         +:+ ":" +:+ b64_encode (repeat Byte.x07 64));
  body := [] |}.

(** The first device registers, then pushes. *)
Definition demo_state1 : RelayState :=
  (handle default_config (demo_env 1000) demo_public (RegisterV2 demo_first) (initial_state default_config)).2.
Definition demo_state2 : RelayState :=
  (handle default_config (demo_env 1010) (demo_signed "1010" "n1") (PushV2 demo_push1) demo_state1).2.
(** ... and is revoked by itself. *)
Definition demo_state3 : RelayState :=
  (handle default_config (demo_env 1020) (demo_signed "1020" "n2") (RevokeDevice (uuid_to_string demo_device1)) demo_state2).2.

Lemma demo_step t t' req call st :
  t <= t' -> call_wf call ->
  relay_step default_config (t, st) (t', (handle default_config (demo_env t') req call st).2).
Proof. intros Ht Hwf. apply (step_request default_config t st (demo_env t') req call); simpl; done || lia. Qed.

Lemma demo_reachable1 : reachable default_config (1000, demo_state1).
Proof. apply rtc_once, demo_step; [lia|done]. Qed.

Lemma demo_push1_wf : call_wf (PushV2 demo_push1).
Proof. repeat constructor; vm_compute; done. Qed.

Lemma demo_reachable2 : reachable default_config (1010, demo_state2).
Proof. eapply rtc_r; [exact demo_reachable1|]. apply demo_step; [lia|exact demo_push1_wf]. Qed.

Lemma demo_reachable3 : reachable default_config (1020, demo_state3).
Proof. eapply rtc_r; [exact demo_reachable2|]. apply demo_step; [lia|done]. Qed.

Lemma relay_reachable_inv_witness :
  relay_inv (storage demo_state2) /\ length (sync_mutations_v2 (storage demo_state2)) = 1%nat.
Proof.
  split; [|vm_compute; reflexivity].
  exact (relay_reachable_inv default_config 1010 demo_state2 demo_reachable2).
Defined.

Lemma relay_history_monotone_witness : evolves (storage demo_state1) (storage demo_state2).
Proof.
  apply (relay_history_monotone default_config 1000 demo_state1 1010 demo_state2).
  - exact demo_reachable1.
  - apply rtc_once, demo_step; [lia|exact demo_push1_wf].
Defined.

(** ** Bounded idempotency state

    The cleanup keeps the newest results of each device up to its cap, and
    dropping results never lets a mutation be applied twice: the version chain
    of the log takes over from the stored results. *)

(** ** Applied at most once *)

Definition edit_key (r : MutationRow) : string * string * Z :=
  (mu_vault_id r, mu_object_id r, i64_as_u64 (mu_expected_version r)).

Lemma version_chain_expected prev rows :
  version_chain prev rows ->
  StronglySorted Z.lt ((fun r => i64_as_u64 (mu_expected_version r)) <$> rows).
Proof.
  revert prev. induction rows as [|r rows IH]; intros prev; simpl; [constructor|].
  intros (He & Hlt & Hc). constructor; [by eapply IH|].
  apply Forall_fmap, Forall_forall. intros x Hx. simpl.
  pose proof (version_chain_lower _ _ _ Hc Hx). lia.
Qed.

Lemma StronglySorted_lt_NoDup l : StronglySorted Z.lt l -> NoDup l.
Proof.
  induction 1 as [|x l Hs IH Hf]; constructor; [|done].
  intros Hx. rewrite Forall_forall in Hf. specialize (Hf x Hx). lia.
Qed.

(** Every sublist of rows with one vault and object has distinct versions, so
    the whole log has distinct edit keys. *)
Lemma edit_keys_NoDup db :
  (forall v o, version_chain 0 (object_log v o db)) -> NoDup (edit_key <$> sync_mutations_v2 db).
Proof.
  intros Hc.
  assert (forall v o, NoDup ((fun r => i64_as_u64 (mu_expected_version r)) <$>
    filter (fun r => mu_object_id r = o) (filter (fun r => mu_vault_id r = v) (sync_mutations_v2 db)))) as Hnd.
  { intros v o. apply StronglySorted_lt_NoDup. eapply version_chain_expected, (Hc v o). }
  clear Hc. induction (sync_mutations_v2 db) as [|r l IH]; [constructor|].
  rewrite fmap_cons. constructor.
  - intros (r' & Heq & Hr')%list_elem_of_fmap. injection Heq as Hv Ho He.
    specialize (Hnd (mu_vault_id r) (mu_object_id r)).
    rewrite filter_cons_True, filter_cons_True, fmap_cons in Hnd by done.
    apply NoDup_cons in Hnd as [Hno _]. apply Hno. rewrite He.
    apply (list_elem_of_fmap_2 (fun r => i64_as_u64 (mu_expected_version r))).
    by rewrite !list_elem_of_filter.
  - apply IH. intros v o. specialize (Hnd v o). rewrite filter_cons in Hnd. case_decide; [|done].
    rewrite filter_cons in Hnd. case_decide; [|done]. rewrite fmap_cons in Hnd. by apply NoDup_cons in Hnd as [_ Hnd].
Qed.

Section Retention.
Context `{UuidText, Base64, Base64Url, Sha256, Argon2, Ed25519, SerdeJson RejectionReason}.

(** An edit is applied at most once in the life of the relay: in every
    reachable state, also after the results that would answer a retry have
    been evicted, no version of an object was replaced by two log rows. *)
Theorem relay_applied_once cfg t st :
  reachable cfg (t, st) -> NoDup (edit_key <$> sync_mutations_v2 (storage st)).
Proof. intros Hr. apply edit_keys_NoDup, (ri_log _ (reachable_inv _ _ Hr)). Qed.

End Retention.

(** ** The per-device cap *)

(** Rows of one device that outrank the row at [i]. *)
Definition outranks (rows : list ResultRow) (i : nat) (r : ResultRow) (js : nat * ResultRow) : Prop :=
  mr_device_id js.2 = mr_device_id r /\
  (mr_created_at r < mr_created_at js.2 \/ (mr_created_at js.2 = mr_created_at r /\ (i < js.1)%nat)).

#[local] Instance outranks_dec rows i r js : Decision (outranks rows i r js).
Proof. unfold outranks. apply _. Defined.

Lemma row_number_outranks rows i r :
  row_number rows i r = 1 + Z.of_nat (length (filter (outranks rows i r) (imap pair rows))).
Proof. done. Qed.

Lemma filter_length_lt {A} (P Q : A -> Prop) `{forall x, Decision (P x), forall x, Decision (Q x)} l x :
  (forall y, P y -> Q y) -> x ∈ l -> Q x -> ~ P x ->
  (length (filter P l) < length (filter Q l))%nat.
Proof.
  intros HPQ. assert (forall l', (length (filter P l') <= length (filter Q l'))%nat) as Hle.
  { induction l' as [|y l' IH]; [done|]. rewrite !filter_cons. repeat case_decide; naive_solver lia. }
  induction 1 as [x l|x y l Hx IH]; intros HQ HP; rewrite !filter_cons.
  - rewrite (decide_False (P := P x)), (decide_True (P := Q x)) by done. simpl. specialize (Hle l). lia.
  - specialize (IH HQ HP). repeat case_decide; naive_solver lia.
Qed.

Lemma row_number_inj rows i j r s :
  (i, r) ∈ imap pair rows -> (j, s) ∈ imap pair rows -> mr_device_id r = mr_device_id s ->
  row_number rows i r = row_number rows j s -> i = j.
Proof.
  intros Hi Hj Hd Heq. destruct (decide (i = j)) as [|Hne]; [done|exfalso].
  assert (forall i j r s, (i, r) ∈ imap pair rows -> mr_device_id r = mr_device_id s ->
    outranks rows j s (i, r) -> row_number rows i r < row_number rows j s) as Hlt.
  { clear. intros i j r s Hi Hd Hout. rewrite !row_number_outranks.
    enough (length (filter (outranks rows i r) (imap pair rows)) < length (filter (outranks rows j s) (imap pair rows)))%nat by lia.
    apply (filter_length_lt _ _ _ (i, r)); [|done|done|].
    - intros [k x]. unfold outranks in *. simpl in *. rewrite Hd. intros [-> ?]. split; [done|]. lia.
    - unfold outranks. simpl. lia. }
  assert (outranks rows j s (i, r) \/ outranks rows i r (j, s)) as [Ho|Ho].
  { unfold outranks. simpl. rewrite Hd. destruct (Z.lt_total (mr_created_at r) (mr_created_at s)) as [|[|]]; [right|..|left]; try lia.
    all: try (split; [done|lia]). destruct (Nat.lt_total i j) as [|[|]]; [right|lia|left]; split; try done; right; lia. }
  - specialize (Hlt _ _ _ _ Hi Hd Ho). lia.
  - specialize (Hlt _ _ _ _ Hj (eq_sym Hd) Ho). lia.
Qed.

(** A list of pairwise different naturals below [n] has at most [n] of them. *)
Lemma NoDup_bounded_length (l : list nat) n : NoDup l -> Forall (fun x => (x < n)%nat) l -> (length l <= n)%nat.
Proof.
  intros Hnd Hf. rewrite <- (length_seq n 0). apply submseteq_length, NoDup_submseteq; [done|].
  intros x Hx. rewrite Forall_forall in Hf. apply elem_of_seq. specialize (Hf x Hx). lia.
Qed.

Lemma imap_pair_NoDup {A} (l : list A) : NoDup (imap pair l).
Proof.
  apply (NoDup_fmap_1 fst). rewrite fmap_imap.
  rewrite (imap_ext _ (fun i _ => id i)) by done. rewrite imap_seq_0, list_fmap_id. apply NoDup_seq.
Qed.

Lemma imap_pair_inj {A} (l : list A) i x y : (i, x) ∈ imap pair l -> (i, y) ∈ imap pair l -> x = y.
Proof.
  intros (? & ? & E1 & H1)%elem_of_lookup_imap_1 (? & ? & E2 & H2)%elem_of_lookup_imap_1. congruence.
Qed.

Lemma snd_imap_pair {A} (l : list A) : snd <$> imap pair l = l.
Proof.
  rewrite fmap_imap. rewrite (imap_ext _ (const id)) by done. by rewrite imap_const, list_fmap_id.
Qed.

Definition of_device (d : string) (rows : list ResultRow) : list ResultRow := filter (fun r => mr_device_id r = d) rows.

Lemma filter_snd (P : ResultRow -> Prop) `{forall r, Decision (P r)} (l : list (nat * ResultRow)) :
  filter P (snd <$> l) = snd <$> filter (fun js => P js.2) l.
Proof. induction l as [|js l IH]; [done|]. simpl. rewrite !filter_cons. case_decide; rewrite ?fmap_cons; by f_equal. Qed.

Lemma cap_results_bound n rows d :
  0 <= n -> Z.of_nat (length (of_device d (cap_results n rows))) <= n.
Proof.
  intros Hn. unfold of_device, cap_results. rewrite filter_snd, length_fmap.
  set (L := filter _ _). enough (length ((fun js => Z.to_nat (row_number rows js.1 js.2 - 1)) <$> L) <= Z.to_nat n)%nat as Hle
    by (rewrite length_fmap in Hle; lia).
  assert (forall js, js ∈ L -> js ∈ imap pair rows /\ mr_device_id js.2 = d /\ 1 <= row_number rows js.1 js.2 <= n) as HL.
  { intros js Hjs. apply list_elem_of_filter in Hjs as [Hd Hjs]. apply list_elem_of_filter in Hjs as [Hrn Hin].
    split_and!; try done. unfold row_number. lia. }
  apply NoDup_bounded_length.
  - apply NoDup_fmap_2_strong; [|by apply NoDup_filter, NoDup_filter, imap_pair_NoDup].
    intros [i r] [j s] (Hi & Hdi & Hri)%HL (Hj & Hdj & Hrj)%HL Heq. simpl in *.
    assert (i = j) as -> by (eapply row_number_inj; [done..|congruence|lia]).
    f_equal. by eapply imap_pair_inj.
  - apply Forall_fmap, Forall_forall. intros js (_ & _ & Hr)%HL. simpl. lia.
Qed.

(** A device under its cap loses nothing. *)
Lemma cap_results_keeps n rows d :
  Z.of_nat (length (of_device d rows)) <= n -> of_device d (cap_results n rows) = of_device d rows.
Proof.
  intros Hn. set (D := filter (fun js : nat * ResultRow => mr_device_id js.2 = d) (imap pair rows)).
  assert (of_device d rows = snd <$> D) as HD.
  { unfold of_device, D. rewrite <- (snd_imap_pair rows) at 1. apply filter_snd. }
  rewrite HD, length_fmap in Hn. rewrite HD. unfold of_device, cap_results. rewrite filter_snd. f_equal.
  transitivity (filter (fun js : nat * ResultRow => row_number rows js.1 js.2 <= n) D).
  { unfold D. rewrite !list_filter_filter. apply list_filter_iff. naive_solver. }
  apply filter_all, Forall_forall. intros [i r] Hir.
  enough (length (filter (outranks rows i r) (imap pair rows)) < length D)%nat by (rewrite row_number_outranks; simpl; lia).
  apply list_elem_of_filter in Hir as [Hd Hin]. simpl in Hd.
  apply (filter_length_lt _ _ _ (i, r)); [|done|done|].
  - intros js [Hjs _]. congruence.
  - unfold outranks. simpl. lia.
Qed.

Lemma elem_of_cap n rows r : r ∈ cap_results n rows -> r ∈ rows.
Proof.
  unfold cap_results. intros ([i x] & -> & Hin)%list_elem_of_fmap. apply list_elem_of_filter in Hin as [_ Hin].
  apply elem_of_lookup_imap_1 in Hin as (j & y & E & Hl). injection E as -> ->. simpl.
  by eapply list_elem_of_lookup_2.
Qed.

(** The results still within their time to live. *)
Definition young_results (cutoff : Z) (rows : list ResultRow) : list ResultRow :=
  filter (fun r => cutoff <= mr_created_at r) rows.

(** The cleanup bounds the idempotency state: afterwards every stored
    result is within its time to live, no device has more results than the
    cap, and a device within the cap keeps all its results that are still
    alive. *)
Theorem cleanup_bounds_results p now db :
  0 <= cp_max_mutation_results_per_device p ->
  let cutoff := now - Z.max (cp_mutation_result_ttl_secs p) 1 in
  let kept := mutation_results (run_cleanup p now db) in
  Forall (fun r => cutoff <= mr_created_at r /\ r ∈ mutation_results db) kept /\
  forall d, Z.of_nat (length (of_device d kept)) <= cp_max_mutation_results_per_device p /\
    (Z.of_nat (length (of_device d (young_results cutoff (mutation_results db)))) <= cp_max_mutation_results_per_device p ->
     of_device d kept = of_device d (young_results cutoff (mutation_results db))).
Proof.
  intros Hn cutoff kept.
  assert (kept = cap_results (cp_max_mutation_results_per_device p) (young_results cutoff (mutation_results db))) as ->.
  { unfold kept, run_cleanup, young_results. simpl. f_equal. apply list_filter_iff. intros r. unfold cutoff. lia. }
  split.
  - apply Forall_forall. intros r Hr%elem_of_cap. by apply list_elem_of_filter in Hr.
  - intros d. split; [by apply cap_results_bound|apply cap_results_keeps].
Qed.

(** ** Witnesses *)

Lemma relay_applied_once_witness : NoDup (edit_key <$> sync_mutations_v2 (storage demo_state2)).
Proof. exact (relay_applied_once default_config 1010 demo_state2 demo_reachable2). Defined.

Lemma cleanup_bounds_results_witness :
  let kept := mutation_results (run_cleanup (cleanup_params default_config) 2000 (storage demo_state2)) in
  length kept = 1%nat /\ Z.of_nat (length (of_device (uuid_to_string demo_device1) kept)) <= 4096.
Proof.
  split; [vm_compute; reflexivity|].
  destruct (cleanup_bounds_results (cleanup_params default_config) 2000 (storage demo_state2)) as [_ Hb].
  - vm_compute. discriminate.
  - exact (proj1 (Hb (uuid_to_string demo_device1))).
Defined.
