(* ===== verification/RelayAccess.v ===== *)
(** * Relay: who may do what

    Isolation of vaults, lock-out of revoked devices and replay protection,
    as properties of the whole request path: middleware, handler, and the
    steps other clients take in between. *)

From S2P Require Import Prelude ThirdParty RelayStorage RelaySyncV2 RelayV2Log RelayV2Push RelayPairing.
From S2P Require Import RelayDevices RelayJoin RelaySyncV1 RelayV1Facts RelayRate RelayAuth Relay RelayInv.
From Stdlib Require Import ZArith Lia.
From stdpp Require Import base list option strings numbers gmap sorting.
From S2P Require Import Text.
Import RelayDemo.
Open Scope Z_scope.

(** Two databases hold the same content for a vault. *)
Record same_vault (v : string) (db db' : DB) : Prop := {
  sv_log : vault_log v db' = vault_log v db;
  sv_entries2 : forall o, sync_entries_v2 db' !! (v, o) = sync_entries_v2 db !! (v, o);
  sv_entries : forall s, sync_entries db' !! (s, v) = sync_entries db !! (s, v);
}.

#[global] Instance same_vault_preorder v : PreOrder (same_vault v).
Proof.
  split; [by constructor|]. intros a b c [l1 e1 s1] [l2 e2 s2].
  constructor; [congruence|intros; by rewrite e2|intros; by rewrite s2].
Qed.

(** Two databases have spent the same nonces. *)
Definition same_nonces (db db' : DB) : Prop := seen_nonces db' = seen_nonces db.
#[global] Instance same_nonces_preorder : PreOrder same_nonces.
Proof. split; unfold same_nonces; [by intros ?|congruence]. Qed.

Section Access.
Context `{UuidText, Base64, Base64Url, Sha256, Argon2, Ed25519, SerdeJson RejectionReason}.

(** What a handler leaves alone: the spent nonces always, and a vault's
    content unless it acts for a device of the vault. *)
Definition confined (device : option Uuid) (v : string) (db db' : DB) : Prop :=
  same_nonces db db' /\
  ((forall d, device = Some d -> device_vault (uuid_to_string d) db <> Some v) -> same_vault v db db').

Lemma confined_refl device v db : confined device v db db.
Proof. split; [done|]. by intros _. Qed.

Ltac frame := constructor; done.

(** A handler whose statements touch neither content nor nonces. *)
Definition untouched (v : string) (db db' : DB) : Prop := same_nonces db db' /\ same_vault v db db'.
#[local] Instance untouched_preorder v : PreOrder (untouched v).
Proof. split; unfold untouched; [by split|]. intros ??? [] []. split; by etrans. Qed.

Lemma untouched_confined device v db db' : untouched v db db' -> confined device v db db'.
Proof. intros [? ?]. by split. Qed.

Lemma pairing_confined device v :
  (forall cfg salt d now req db, confined device v db (upload_bootstrap cfg salt d now req db).2) /\
  (forall cfg salt now token db, confined device v db (fetch_bootstrap cfg salt now token db).2) /\
  (forall cfg salt d now req db, confined device v db (upload_bootstrap_v2 cfg salt d now req db).2) /\
  (forall cfg salt now enc db, confined device v db (retrieve_bootstrap_v2 cfg salt now enc db).2).
Proof.
  split_and!; intros; apply untouched_confined;
    match goal with |- untouched _ _ ?rd.2 => destruct rd as [r db'] eqn:E end;
    apply (run_tx_preserves (untouched v)) in E; try done; try apply _;
    unfold insert_proof, insert_bootstrap, count_attempt, upgrade_legacy, clear_attempts, upsert_v2;
    preserving; (split; [done|frame]).
Qed.


Lemma register_confined device v now req db : confined device v db (register_device now req db).2.
Proof.
  destruct (register_device now req db) as [[u|e] db'] eqn:E; [|apply register_err in E as ->; apply confined_refl].
  apply register_ok in E as (key & db0 & _ & _ & Hp & ->). apply untouched_confined. simpl.
  destruct Hp as [[-> _]|(ph & _ & _ & ->)]; (split; [done|frame]).
Qed.

Lemma claim_confined device v fresh d now origin db : confined device v db (migration_claim fresh d now origin db).2.
Proof.
  destruct (migration_claim fresh d now origin db) as [[u|e] db'] eqn:E; [|apply claim_err in E as ->; apply confined_refl].
  apply claim_ok in E as (? & _ & _ & _ & _ & _ & _ & ->). apply untouched_confined. split; [done|frame].
Qed.

Lemma revoke_confined device v requester target now db : confined device v db (revoke_device requester target now db).2.
Proof.
  destruct (revoke_device requester target now db) as [r db'] eqn:E. apply untouched_confined.
  apply (run_auto_preserves (untouched v)) in E; [done..|]. preserving. split; [done|frame].
Qed.

Lemma push_confined device v now req db : confined device v db (push device now req db).2.
Proof.
  destruct (push device now req db) as [r db'] eqn:E.
  apply push_effect_v1 in E as [[-> _]|(d & w & db1 & seqs & -> & Hw & Hwr & -> & _)]; [apply confined_refl|].
  destruct (v1_writes_frame _ _ _ _ Hwr) as [(se & sc & ->) _ _ Ho]. split; [done|].
  intros Hne. constructor; try done. intros s. apply Ho. intros ->. by eapply Hne.
Qed.

Lemma push_effects_confined vault d now ms st db rs st' db' :
  push_effects vault d now ms st db rs st' db' ->
  same_nonces db db' /\ forall v, v <> vault -> same_vault v db db'.
Proof.
  induction 1 as [|m ms ep ch db o st db1 rs st' db' Ha Heff Heffs [IHn IHv]]; [done|].
  assert (same_nonces db db1 /\ forall v, v <> vault -> same_vault v db db1) as [Hn Hv].
  { destruct Heff as [| | |seq payload]; try (split; [done|intros; frame]).
    split; [done|]. intros v Hne. constructor; simpl.
    - pose proof (vault_log_applied v vault (log_row vault m payload (seq + 1) now) (seq + 1) db eq_refl) as Hl.
      by rewrite decide_False in Hl.
    - intros o'. rewrite lookup_insert_ne; [done|congruence].
    - done. }
  split; [by etrans|]. intros v Hne. etrans; [by apply Hv|by apply IHv].
Qed.

Lemma push_v2_confined device v now req db : confined device v db (push_v2 device now req db).2.
Proof.
  destruct (push_v2 device now req db) as [[resp|e] db'] eqn:E.
  - apply push_v2_ok in E as (d & w & st & dbl & -> & _ & Hw & Heffs & _ & ->).
    apply push_effects_confined in Heffs as [Hn Hv]. split; [done|].
    intros Hne. destruct (Hv v) as [Hl He Hs]; [intros ->; by eapply Hne|]. by constructor.
  - unfold push_v2 in E. rewrite (run_tx_atomic _ (fun r => r)) in E by apply _.
    destruct (push_body _ _ _ _) as [[r|e'] c]; [done|]. injection E as _ <-. apply confined_refl.
Qed.

Lemma run_call_confined cfg env device call v db : confined device v db (run_call cfg env device call db).2.
Proof.
  destruct (pairing_confined device v) as (P1 & P2 & P3 & P4).
  destruct call; simpl; try apply confined_refl.
  - apply P1.
  - apply push_confined.
  - apply push_confined.
  - apply register_confined.
  - apply P2.
  - apply P3.
  - apply revoke_confined.
  - apply push_v2_confined.
  - apply claim_confined.
  - apply register_confined.
  - apply P4.
Qed.

(** ** Authenticated requests *)

(** The request carries the signature of a registered, unrevoked device: the
    header names the device, and the key the relay holds for it verifies the
    signature of the method, the path, the timestamp, the nonce and the
    SHA-256 digest of this body; the timestamp is within the window of the
    clock and the nonce is not on record. *)
Record signed_by (cfg : RelayConfig) (now : Z) (req : HttpRequest) (db : DB) (row : DeviceRow) : Prop := {
  sb_active : d_revoked row = false;
  sb_signed : exists d id time nonce sig_text ts sig,
    authorization req = Some ("SentinelPass-Ed25519 " +:+ id +:+ ":" +:+ time +:+ ":" +:+ nonce +:+ ":" +:+ sig_text) /\
    uuid_parse_str id = Some d /\ devices db !! uuid_to_string d = Some row /\
    parse_i64 time = Some ts /\ b64_decode sig_text = Some sig /\ length sig = 64%nat /\
    ed25519_verify (d_public_key row)
      (as_bytes (method req +:+ newline +:+ path req +:+ newline +:+ i64_display ts +:+ newline +:+ nonce +:+ newline
                 +:+ hex_encode (sha256 (body req)))) sig = true /\
    seen_nonces db !! nonce = None /\
    (0 <= now < 2 ^ 62 -> nonce_window_secs cfg < 2 ^ 62 -> now - ts <> 2 ^ 63 ->
     Z.abs (now - ts) <= Z.max (nonce_window_secs cfg) 1);
}.

Lemma auth_signed_by cfg env req st d st1 :
  auth_middleware cfg (env_auth_now env) (env_nonce_now env) (env_instant env) req st = (Ok d, st1) ->
  exists row, devices (storage st) !! uuid_to_string d = Some row /\ signed_by cfg (env_auth_now env) req (storage st) row.
Proof.
  intros (header & ts & nonce & Hh & Hv & _ & Hc)%auth_middleware_ok.
  apply consume_nonce_ok in Hc as [Hnew _].
  apply verify_auth_signed in Hv as (id & time & st' & sig & row & -> & Hid & Ht & Hsig & Hfresh & Hrow & Hrev & Hl & Hver).
  exists row. split; [done|]. constructor; [done|].
  exists d, id, time, nonce, st', ts, sig. split_and!; try done.
  intros Hn Hw Hne. rewrite expired_exact in Hfresh by (done || by eapply parse_i64_range). propify. lia.
Qed.

(** C8. Vault isolation: a request that changes anything stored for a vault
    (its v2 log, the state of one of its objects, one of its v1 entries)
    carries a fresh Ed25519 signature, over its method, path, timestamp,
    unused nonce and the digest of its body, that verifies under the key the
    relay holds for a registered and unrevoked device of that very vault. *)
Theorem vault_isolation cfg env req call st r st' v :
  handle cfg env req call st = (r, st') ->
  same_vault v (storage st) (storage st') \/
  exists row, signed_by cfg (env_auth_now env) req (storage st) row /\ d_vault_id row = v.
Proof.
  intros Hh.
  assert (forall rs, handle_authenticated cfg env req call st = (rs.1, rs.2) ->
    same_vault v (storage st) (storage rs.2) \/ exists row, signed_by cfg (env_auth_now env) req (storage st) row /\ d_vault_id row = v) as Ha.
  { intros [r0 st0]. simpl. unfold handle_authenticated.
    destruct (auth_middleware _ _ _ _ _ _) as [[d|e] st1] eqn:E;
      pose proof (auth_middleware_frame _ _ _ _ _ _ _ _ E) as (nonces & Hst1).
    2:{ intros [= <- <-]. left. rewrite Hst1. frame. }
    intros [= <- <-]. simpl. destruct (auth_signed_by _ _ _ _ _ _ E) as (row & Hrow & Hact).
    destruct (decide (d_vault_id row = v)) as [Hv|Hv]; [right; eauto|]. left.
    transitivity (storage st1); [rewrite Hst1; frame|].
    apply (run_call_confined cfg env (Some d) call v (storage st1)).
    intros d' [= <-]. rewrite Hst1. unfold device_vault. simpl.
    rewrite Hrow. simpl. congruence. }
  assert (forall rs, handle_public cfg env req call st = (rs.1, rs.2) -> same_vault v (storage st) (storage rs.2)) as Hp.
  { intros [r0 st0]. simpl. unfold handle_public.
    destruct (public_rate_limit _ _ _ _ _ _) as [[u|e] l]; intros [= <- <-]; simpl; [|reflexivity].
    by apply (run_call_confined cfg env None call v (storage st)). }
  unfold handle, v1_retirement in Hh. destruct (access call); destruct (allow_v1 cfg); simpl in Hh;
    first [exact (Ha (r, st') Hh)|left; exact (Hp (r, st') Hh)|injection Hh as <- <-; left; reflexivity].
Qed.

(** A revoked device is locked out for good: from the moment it is
    revoked, along any run of the relay, no request is ever let through as
    that device. *)
Theorem revoked_stays_out cfg t st t' st' d row n1 n2 i req :
  reachable cfg (t, st) -> devices (storage st) !! uuid_to_string d = Some row -> d_revoked row = true ->
  relay_steps cfg (t, st) (t', st') ->
  (auth_middleware cfg n1 n2 i req st').1 <> Ok d.
Proof.
  intros Hr Hd Hrev Hs Hok.
  destruct (relay_steps_sound _ _ _ Hs (reachable_inv _ _ Hr)) as [_ [_ _ _ Hdev _]]. simpl in Hdev.
  destruct (Hdev _ _ Hd) as (row' & Hd' & _ & _ & _ & Hrev').
  destruct (auth_middleware cfg n1 n2 i req st') as [r st1] eqn:E. simpl in Hok. subst r.
  apply auth_middleware_ok in E as (h & ts & nonce & _ & Hv & _).
  apply verify_auth_ok in Hv as [[_ _ (row2 & sig & Hrow2 & Hrev2 & _)] _].
  rewrite Hd' in Hrow2. injection Hrow2 as <-. by rewrite Hrev' in Hrev2.
Qed.

(** ** Replays *)

(** A nonce cannot be used again for its timestamp: it is on record, or the
    timestamp has gone stale. *)
Definition nonce_spent (window : Z) (nonce : string) (ts : Z) (t : Z) (db : DB) : Prop :=
  (exists row, seen_nonces db !! nonce = Some row /\ ts <= n_seen_at row) \/ ts + window < t.

Lemma nonce_spent_later window nonce ts t t' db :
  nonce_spent window nonce ts t db -> t <= t' -> nonce_spent window nonce ts t' db.
Proof. intros [?|?] ?; [by left|right; lia]. Qed.

(** Dropping the records older than the window keeps a nonce spent. *)
Lemma nonce_spent_prune window nonce ts t db nonces :
  nonce_spent window nonce ts t db ->
  (forall row, seen_nonces db !! nonce = Some row -> n_seen_at row >= t - window -> nonces !! nonce = Some row) ->
  nonce_spent window nonce ts t {| db with seen_nonces := nonces |}.
Proof.
  intros [(row & Hrow & Hts)|Ht] Hkeep; [|by right].
  destruct (Z_lt_dec (n_seen_at row) (t - window)); [right; lia|].
  left. exists row. split; [|done]. apply Hkeep; [done|lia].
Qed.

Lemma auth_nonce_spent cfg n1 n2 i req st r st' nonce ts :
  auth_middleware cfg n1 n2 i req st = (r, st') ->
  nonce_spent (nonce_window_secs cfg) nonce ts n2 (storage st) ->
  nonce_spent (nonce_window_secs cfg) nonce ts n2 (storage st').
Proof.
  unfold auth_middleware. intros E Hsp.
  destruct (authorization req) as [header|]; [|by injection E as <- <-].
  destruct (max_payload_size cfg <? _); [by injection E as <- <-|].
  destruct (verify_auth _ _ _ _ _ _ _) as [[[d t] x]|e]; [|by injection E as <- <-].
  destruct (consume_nonce _ _ _ _ _) as [[u|e] db] eqn:Ec.
  - apply consume_nonce_ok in Ec as [Hnew ->]. destruct (check _ _ _) as [ok l].
    injection E as _ <-. apply nonce_spent_prune; [done|].
    intros row Hrow Hage. rewrite map_lookup_filter_Some, lookup_insert. simpl.
    case_decide as Hx; [subst; congruence|]. split; [done|lia].
  - apply consume_nonce_err in Ec as [-> _]. injection E as _ <-. done.
Qed.

Lemma handle_nonce_spent cfg env req call st nonce ts t :
  t <= env_auth_now env -> env_auth_now env <= env_nonce_now env -> env_nonce_now env <= env_now env ->
  nonce_spent (nonce_window_secs cfg) nonce ts t (storage st) ->
  nonce_spent (nonce_window_secs cfg) nonce ts (env_now env) (storage (handle cfg env req call st).2).
Proof.
  intros H1' H2' H3' Hsp.
  assert (forall db db', same_nonces db db' -> nonce_spent (nonce_window_secs cfg) nonce ts (env_now env) db ->
            nonce_spent (nonce_window_secs cfg) nonce ts (env_now env) db') as Hsame.
  { intros db db' E [?|?]; [left|by right]. by rewrite E. }
  assert (nonce_spent (nonce_window_secs cfg) nonce ts (env_now env) (storage st)) as Hbase
    by (eapply nonce_spent_later; [done|lia]).
  assert (nonce_spent (nonce_window_secs cfg) nonce ts (env_now env) (storage (handle_authenticated cfg env req call st).2)) as Ha.
  { unfold handle_authenticated. destruct (auth_middleware _ _ _ _ _ _) as [[d|e] st1] eqn:E;
      eapply auth_nonce_spent in E; try (eapply nonce_spent_later; [exact Hsp|lia]).
    - simpl. eapply Hsame; [apply (run_call_confined cfg env (Some d) call EmptyString (storage st1))|].
      eapply nonce_spent_later; [exact E|lia].
    - eapply nonce_spent_later; [exact E|lia]. }
  assert (nonce_spent (nonce_window_secs cfg) nonce ts (env_now env) (storage (handle_public cfg env req call st).2)) as Hp.
  { unfold handle_public. destruct (public_rate_limit _ _ _ _ _ _) as [[u|e] l]; simpl; [|done].
    eapply Hsame; [apply (run_call_confined cfg env None call EmptyString (storage st))|done]. }
  unfold handle, v1_retirement. destruct (access call); destruct (allow_v1 cfg); done.
Qed.

Lemma relay_step_nonce_spent cfg t st t' st' nonce ts :
  1 <= nonce_window_secs cfg -> relay_step cfg (t, st) (t', st') ->
  nonce_spent (nonce_window_secs cfg) nonce ts t (storage st) ->
  nonce_spent (nonce_window_secs cfg) nonce ts t' (storage st').
Proof.
  intros Hw Hstep Hsp. inversion Hstep as [t0 st0 env req call H1' H2' H3' Hwf|t0 st0 now Hle]; subst.
  - by eapply handle_nonce_spent.
  - simpl. apply (nonce_spent_later _ _ _ _ t') in Hsp; [|done].
    assert (nonce_spent (nonce_window_secs cfg) nonce ts t'
      (prune_nonces (t' - Z.max (nonce_window_secs cfg) 1) (storage st))) as Hpr; [|exact Hpr].
    apply nonce_spent_prune; [done|]. intros row Hrow Hage. rewrite map_lookup_filter_Some. simpl. split; [done|lia].
Qed.

(** C9. Replay protection: a request let through with a timestamp that was
    not in the future is never let through again; whatever the relay serves in
    between, and on whatever route and with whatever body the same
    authorization header comes back. *)
Theorem no_replay cfg env req call st d ts nonce header st1 t' st' n1' n2' i' req' :
  1 <= nonce_window_secs cfg < 2 ^ 62 -> env_nonce_now env <= env_now env ->
  auth_middleware cfg (env_auth_now env) (env_nonce_now env) (env_instant env) req st = (Ok d, st1) ->
  authorization req = Some header ->
  verify_auth header (method req) (path req) (body req) (storage st) (nonce_window_secs cfg) (env_auth_now env)
    = Ok (d, ts, nonce) ->
  0 <= ts <= env_nonce_now env ->
  relay_steps cfg (env_now env, (handle_authenticated cfg env req call st).2) (t', st') ->
  t' <= n1' < 2 ^ 62 -> authorization req' = Some header ->
  is_ok (auth_middleware cfg n1' n2' i' req' st').1 = false.
Proof.
  intros Hw Hnow Ha Hh Hv Hts Hsteps Hn Hh'.
  assert (nonce_spent (nonce_window_secs cfg) nonce ts (env_now env) (storage (handle_authenticated cfg env req call st).2)) as Hsp.
  { unfold handle_authenticated. rewrite Ha. simpl.
    destruct (run_call_confined cfg env (Some d) call EmptyString (storage st1)) as [Hsame _].
    unfold nonce_spent. rewrite Hsame. apply auth_middleware_ok in Ha as (h & ts' & x & Hh1 & Hv1 & _ & Hc). rewrite Hh in Hh1. injection Hh1 as <-.
    rewrite Hv in Hv1. injection Hv1 as <- <-. apply consume_nonce_ok in Hc as [_ ->]. left.
    eexists. simpl. rewrite map_lookup_filter_Some, lookup_insert_eq. split; [split; [done|simpl; lia]|simpl; lia]. }
  assert (nonce_spent (nonce_window_secs cfg) nonce ts t' (storage st')) as Hsp'.
  { clear -Hsteps Hsp Hw. revert Hsteps Hsp. generalize (handle_authenticated cfg env req call st).2 as s0.
    generalize (env_now env) as t0. intros t0 s0 Hsteps.
    remember (t0, s0) as a eqn:Ea. remember (t', st') as b eqn:Eb. revert t0 s0 Ea Eb.
    induction Hsteps as [a|a [t1 s1] c Hab Hbc IH]; intros t0 s0 -> Eb Hsp; [by injection Eb as <- <-|].
    eapply IH; [done|done|]. eapply relay_step_nonce_spent; [lia|exact Hab|done]. }
  destruct (auth_middleware cfg n1' n2' i' req' st') as [[d'|e] st2] eqn:E; [exfalso|done].
  apply auth_middleware_ok in E as (h & ts' & x & Hh1 & Hv1 & _ & Hc). rewrite Hh' in Hh1. injection Hh1 as <-.
  destruct (verify_auth_header _ _ _ _ _ _ _ _ _ _ _ _ _ _ _ _ _ _ Hv Hv1) as [<- <-].
  apply consume_nonce_ok in Hc as [Hnone _].
  apply verify_auth_ok in Hv1 as [[Hfresh Hi64 _] _].
  destruct Hsp' as [(row & Hrow & _)|Hlt]; [congruence|].
  rewrite expired_window in Hfresh; [done|lia|done|lia|lia|lia].
Qed.

End Access.

(** ** Witnesses *)

(** The push of the demo run stores a mutation, so it was signed. *)
Lemma vault_isolation_witness :
  exists row, signed_by default_config 1010 (demo_signed "1010" "n1") (storage demo_state1) row /\
    d_vault_id row = uuid_to_string demo_vault.
Proof.
  destruct (vault_isolation default_config (demo_env 1010) (demo_signed "1010" "n1") (PushV2 demo_push1) demo_state1
    (handle default_config (demo_env 1010) (demo_signed "1010" "n1") (PushV2 demo_push1) demo_state1).1 demo_state2
    (uuid_to_string demo_vault)) as [[Hlog _ _]|Hs].
  - unfold demo_state2. destruct (handle _ _ _ _ _). reflexivity.
  - exfalso. apply (f_equal length) in Hlog. revert Hlog. vm_compute. discriminate.
  - exact Hs.
Defined.

Definition demo_revoked_row : DeviceRow := {| demo_device_row with
  d_registered_at := 1000; d_revoked := true; d_revoked_at := Some 1020 |}.

Lemma revoked_stays_out_witness :
  (auth_middleware default_config 1030 1030 0 (demo_signed "1030" "n3") demo_state3).1 <> Ok demo_device1.
Proof.
  apply (revoked_stays_out default_config 1020 demo_state3 1020 demo_state3 demo_device1 demo_revoked_row).
  - exact demo_reachable3.
  - vm_compute. reflexivity.
  - reflexivity.
  - constructor.
Defined.

Lemma no_replay_witness :
  is_ok (auth_middleware default_config 1200 1200 0 (demo_signed "1010" "n1") demo_state2).1 = false.
Proof.
  destruct (auth_middleware default_config 1010 1010 (from_secs 1010) (demo_signed "1010" "n1") demo_state1)
    as [[d|e] st1] eqn:E.
  2:{ exfalso. apply (f_equal (fun r => is_ok r.1)) in E. revert E. vm_compute. discriminate. }
  pose proof (auth_middleware_ok _ _ _ _ _ _ _ _ E) as (header & ts & nonce & Hh & Hv & _).
  assert (ts = 1010) as ->.
  { injection Hh as <-. apply (f_equal (fun r => match r with Ok (_, t, _) => Some t | Err _ => None end)) in Hv.
    revert Hv. vm_compute. intros [= <-]. reflexivity. }
  apply (no_replay default_config (demo_env 1010) (demo_signed "1010" "n1") (PushV2 demo_push1) demo_state1
    d 1010 nonce header st1 1010 demo_state2 1200 1200 0 (demo_signed "1010" "n1")).
  - vm_compute. intuition discriminate.
  - simpl. lia.
  - exact E.
  - exact Hh.
  - exact Hv.
  - simpl. lia.
  - constructor.
  - lia.
  - exact Hh.
Defined.

(** A request dated in the future outlives the memory of its nonce: dated
    200 seconds ahead, it is let through at time 1000, and again at time 1302
    after a cleanup has dropped its nonce. *)
Theorem future_dated_replay :
  let req := demo_signed "1200" "n9" in
  let first := handle default_config (demo_env 1000) req Status demo_state1 in
  let pruned := {| (first.2) with storage := run_cleanup (cleanup_params default_config) 1301 (storage first.2) |} in
  is_ok first.1 = true /\
  relay_steps default_config (1000, first.2) (1301, pruned) /\
  is_ok (handle default_config (demo_env 1302) req Status pruned).1 = true.
Proof.
  split; [vm_compute; reflexivity|]. split; [|vm_compute; reflexivity].
  apply rtc_once, (step_cleanup default_config 1000 _ 1301). lia.
Qed.

(** The freshness test is exact for every timestamp a client can send but
    one: the timestamp 2^63 seconds before the clock wraps the subtraction,
    and passes as fresh. *)
Theorem freshness_exact now ts window :
  0 <= now < 2 ^ 62 -> in_i64 ts -> window < 2 ^ 62 ->
  expired now ts window = (Z.max window 1 <? Z.abs (now - ts)) && negb (now - ts =? 2 ^ 63).
Proof.
  intros Hn Ht Hw. destruct (Z.eqb_spec (now - ts) (2 ^ 63)) as [E|E].
  - rewrite andb_false_r. unfold expired. rewrite E. apply Z.ltb_ge. vm_compute (i64_wrap _). lia.
  - rewrite andb_true_r. by apply expired_exact.
Qed.

Lemma freshness_exact_witness : expired 1000 (1000 - 2 ^ 63) 300 = false.
Proof.
  rewrite (freshness_exact 1000 (1000 - 2 ^ 63) 300).
  - reflexivity.
  - lia.
  - unfold in_i64. lia.
  - lia.
Defined.
