(* ===== verification/Aad.v ===== *)
(** * Core: the typed associated data of vault envelopes ([crypto/aad.rs])

    The identity an envelope is bound to, its builder, its bounded decoder and
    the structural depth scan the document formats share.  The JSON text of a
    context is [serde_json]'s, a parameter. *)

From S2P Require Import Prelude ThirdParty.
From Stdlib Require Import ZArith Lia Strings.String Strings.Byte.
From stdpp Require Import base list option strings numbers.
Open Scope Z_scope.

(** The variant of [PasswordManagerError] this module uses. *)
Inductive PasswordManagerError := InvalidInput (m : string).

Definition MAX_JSON_DEPTH : nat := 8.
Definition AAD_VERSION : Z := 1.
Definition MAX_AAD_BYTES : Z := 4096.

Inductive EnvelopePurpose :=
| Summary | Secret | EntryTitle | EntryUsername | EntryPassword | EntryUrl | EntryNotes | TotpIssuer | TotpAccount.

#[global] Instance EnvelopePurpose_eq_dec : EqDecision EnvelopePurpose.
Proof. solve_decision. Defined.

(** [EnvelopePurpose::legacy]. *)
Definition legacy (p : EnvelopePurpose) : EnvelopePurpose :=
  match p with
  | EntryTitle | EntryUsername | TotpIssuer | TotpAccount => Summary
  | EntryPassword | EntryUrl | EntryNotes => Secret
  | other => other
  end.

(** [EnvelopePurpose::is_entry_field]. *)
Definition is_entry_field (p : EnvelopePurpose) : bool := negb (bool_decide (p = legacy p)).

Inductive ObjectType :=
| Password | ApiKey | PasskeyReference | SshKey | TotpSecret | RegistryEntity | KeySlot | DomainMapping | PersonalCustody.

#[global] Instance ObjectType_eq_dec : EqDecision ObjectType.
Proof. solve_decision. Defined.

Record AadContext := {
  aad_version : Z;        (* u32 *)
  vault : string;
  object : string;
  purpose : EnvelopePurpose;
  object_type : ObjectType;
  schema_version : Z;     (* i32 *)
  crypto_version : Z;     (* i32 *)
  epoch : Z;              (* i64 *)
  tombstone : option bool;
}.

#[global] Instance AadContext_eq_dec : EqDecision AadContext.
Proof. solve_decision. Defined.

(** ** The builder *)

Record AadContextBuilder := {
  b_vault : option Uuid;
  b_object : option Uuid;
  b_purpose : option EnvelopePurpose;
  b_object_type : option ObjectType;
  b_schema_version : option Z;
  b_crypto_version : option Z;
  b_epoch : option Z;
  b_tombstone : option bool;
}.

(** [AadContextBuilder::new] and the named setters. *)
Definition new_builder : AadContextBuilder :=
  {| b_vault := None; b_object := None; b_purpose := None; b_object_type := None; b_schema_version := None;
     b_crypto_version := None; b_epoch := None; b_tombstone := None |}.
Definition set_vault (v : Uuid) (b : AadContextBuilder) := {| b with b_vault := Some v |}.
Definition set_object (o : Uuid) (b : AadContextBuilder) := {| b with b_object := Some o |}.
Definition set_purpose (p : EnvelopePurpose) (b : AadContextBuilder) := {| b with b_purpose := Some p |}.
Definition set_object_type (t : ObjectType) (b : AadContextBuilder) := {| b with b_object_type := Some t |}.
Definition set_schema_version (v : Z) (b : AadContextBuilder) := {| b with b_schema_version := Some v |}.
Definition set_crypto_version (v : Z) (b : AadContextBuilder) := {| b with b_crypto_version := Some v |}.
Definition set_epoch (e : Z) (b : AadContextBuilder) := {| b with b_epoch := Some e |}.
Definition set_tombstone (t : bool) (b : AadContextBuilder) := {| b with b_tombstone := Some t |}.

Definition missing (field : string) : PasswordManagerError :=
  InvalidInput ("AadContextBuilder: required field '" +:+ field +:+ "' was not set").

(** [AadContextBuilder::build]. *)
Definition build `{UuidText} (b : AadContextBuilder) : result PasswordManagerError AadContext :=
  v ← ok_or (b_vault b) (missing "vault");
  o ← ok_or (b_object b) (missing "object");
  p ← ok_or (b_purpose b) (missing "purpose");
  t ← ok_or (b_object_type b) (missing "object_type");
  sv ← ok_or (b_schema_version b) (missing "schema_version");
  cv ← ok_or (b_crypto_version b) (missing "crypto_version");
  e ← ok_or (b_epoch b) (missing "epoch");
  Ok {| aad_version := AAD_VERSION; vault := uuid_to_string v; object := uuid_to_string o; purpose := p;
        object_type := t; schema_version := sv; crypto_version := cv; epoch := e; tombstone := b_tombstone b |}.

(** A context is built exactly when the seven required fields are set, and
    then carries them: no setter order and no later setter can swap two. *)
Lemma build_ok `{UuidText} b c :
  build b = Ok c <->
  exists v o p t sv cv e, b = {| b_vault := Some v; b_object := Some o; b_purpose := Some p; b_object_type := Some t;
      b_schema_version := Some sv; b_crypto_version := Some cv; b_epoch := Some e; b_tombstone := b_tombstone b |} /\
    c = {| aad_version := AAD_VERSION; vault := uuid_to_string v; object := uuid_to_string o; purpose := p;
           object_type := t; schema_version := sv; crypto_version := cv; epoch := e; tombstone := b_tombstone b |}.
Proof.
  destruct b as [v o p t sv cv e tb]. split.
  - unfold build. intros Hb. result_inv. simpl in *. subst. do 7 eexists. by split.
  - intros (?&?&?&?&?&?&?&E&->). injection E as -> -> -> -> -> -> ->. done.
Qed.

(** ** The depth scan *)

Definition quote : Byte.byte := Byte.x22.
Definition backslash : Byte.byte := Byte.x5c.
Definition opens (b : Byte.byte) : bool := Byte.eqb b Byte.x7b || Byte.eqb b Byte.x5b.   (* { [ *)
Definition closes (b : Byte.byte) : bool := Byte.eqb b Byte.x7d || Byte.eqb b Byte.x5d.  (* } ] *)

(** The loop of [json_depth_exceeds] from a given state. *)
Fixpoint depth_scan (max_depth depth : nat) (in_string escaped : bool) (bs : bytes) : bool :=
  match bs with
  | [] => false
  | b :: bs =>
    if in_string then
      if escaped then depth_scan max_depth depth true false bs
      else if Byte.eqb b backslash then depth_scan max_depth depth true true bs
      else if Byte.eqb b quote then depth_scan max_depth depth false false bs
      else depth_scan max_depth depth true false bs
    else if Byte.eqb b quote then depth_scan max_depth depth true escaped bs
    else if opens b then
      if (max_depth <? S depth)%nat then true else depth_scan max_depth (S depth) false escaped bs
    else if closes b then depth_scan max_depth (depth - 1) false escaped bs
    else depth_scan max_depth depth false escaped bs
  end.

Definition json_depth_exceeds (bs : bytes) (max_depth : nat) : bool := depth_scan max_depth 0 false false bs.

Section Codec.
Context `{SerdeBytes AadContext}.

(** [AadContext::to_bytes]. *)
Definition to_bytes (c : AadContext) : bytes := to_vec c.

(** [AadContext::from_bytes]. *)
Definition from_bytes (bs : bytes) : result PasswordManagerError AadContext :=
  _ ← err_if (MAX_AAD_BYTES <? Z.of_nat (length bs)) (InvalidInput "AAD context exceeds the maximum size");
  _ ← err_if (json_depth_exceeds bs MAX_JSON_DEPTH) (InvalidInput "AAD context exceeds the maximum nesting depth");
  ok_or (from_slice bs) (InvalidInput "malformed AAD context").

(** Both sides derive the same bytes only from the same context. *)
Lemma to_bytes_inj `{!SerdeBytesLaws AadContext} a b : to_bytes a = to_bytes b -> a = b.
Proof.
  unfold to_bytes. intros E. apply (f_equal from_slice) in E. rewrite !from_slice_to_vec in E. congruence.
Qed.
End Codec.

(** ** The scan against its specification *)

(** The structural bytes of a JSON text: those outside string literals. *)
Fixpoint structural (in_string escaped : bool) (bs : bytes) : bytes :=
  match bs with
  | [] => []
  | b :: bs =>
    if in_string then
      if escaped then structural true false bs
      else if Byte.eqb b backslash then structural true true bs
      else if Byte.eqb b quote then structural false false bs
      else structural true false bs
    else if Byte.eqb b quote then structural true false bs
    else b :: structural false false bs
  end.

(** The nesting depth after some structural bytes, from [d]; a stray closer
    does not go below zero. *)
Definition nesting (d : nat) (bs : bytes) : nat :=
  fold_left (fun d b => if opens b then S d else if closes b then (d - 1)%nat else d) bs d.

Lemma depth_scan_spec max d in_string escaped bs :
  (d <= max)%nat -> (in_string = false -> escaped = false) ->
  depth_scan max d in_string escaped bs = true <->
  exists p, p `prefix_of` structural in_string escaped bs /\ (max < nesting d p)%nat.
Proof.
  revert d in_string escaped. induction bs as [|b bs IH]; intros d in_string escaped Hd Hse; simpl.
  { split; [done|]. intros (p & Hp & Hlt). apply prefix_nil_inv in Hp as ->. simpl in Hlt. lia. }
  destruct in_string.
  { destruct escaped; [by apply IH|].
    destruct (Byte.eqb b backslash); [by apply IH|].
    destruct (Byte.eqb b quote); by apply IH. }
  rewrite (Hse eq_refl). destruct (Byte.eqb b quote); [by apply IH|].
  assert (forall d', (d' <= max)%nat -> (if opens b then S d else if closes b then (d - 1)%nat else d) = d' ->
    depth_scan max d' false false bs = true <->
    exists p, p `prefix_of` b :: structural false false bs /\ (max < nesting d p)%nat) as Hstep.
  { intros d' Hd' E. rewrite IH by done. split.
    - intros (p & Hp & Hlt). exists (b :: p). split; [by apply prefix_cons|]. unfold nesting. simpl. by rewrite E.
    - intros (p & Hp & Hlt). destruct p as [|b' p]; [unfold nesting in Hlt; simpl in Hlt; lia|].
      apply prefix_cons_inv_1 in Hp as E'. apply prefix_cons_inv_2 in Hp. subst b'.
      exists p. split; [done|]. unfold nesting in *. simpl in Hlt. by rewrite E in Hlt. }
  destruct (opens b) eqn:Eo.
  - destruct (max <? S d)%nat eqn:El.
    + apply Nat.ltb_lt in El. split; [|done]. intros _. exists [b]. split; [by apply prefix_cons, prefix_nil|].
      unfold nesting. simpl. by rewrite Eo.
    + apply Nat.ltb_ge in El. by apply Hstep.
  - destruct (closes b); apply Hstep; done || lia.
Qed.

(** The depth scan is exact: it refuses a text exactly when the bytes
    outside string literals nest deeper than the limit at some point; braces
    and brackets inside strings, also behind escaped quotes, never count. *)
Theorem json_depth_exceeds_spec bs max :
  json_depth_exceeds bs max = true <->
  exists p, p `prefix_of` structural false false bs /\ (max < nesting 0 p)%nat.
Proof. apply depth_scan_spec; [lia|done]. Qed.
