(* ===== verification/Envelope.v ===== *)
(** * Core: authenticated vault envelopes ([crypto/envelope.rs])

    Sealing and opening SPENV v2 documents.  AES-GCM, Base64 and the JSON text
    of the document are parameters; the nonce [seal_envelope] draws from the
    operating system is an argument. *)

From S2P Require Import Prelude ThirdParty Aad.
From Stdlib Require Import ZArith Lia Strings.String Strings.Byte.
From stdpp Require Import base list option strings numbers.
Open Scope Z_scope.

(** [CryptoError] ([crypto/mod.rs]), without the text a library adds. *)
Inductive CryptoError :=
| KdfFailed (m : string)
| EncryptionFailed (m : string)
| DecryptionFailed (m : string)
| InvalidKeyLength (expected got : Z)
| InvalidNonce (m : string)
| AuthenticationFailed
| RandomFailed (m : string)
| UnsupportedCryptoVersion (found supported : Z)
| Io.

#[global] Instance CryptoError_eq_dec : EqDecision CryptoError.
Proof. solve_decision. Defined.

(** [{"magic":"NAME"]: the first bytes of a document. *)
Definition dquote : string := String (Ascii.ascii_of_nat 34) EmptyString.
Definition magic_prefix (name : string) : bytes :=
  as_bytes ("{" +:+ dquote +:+ "magic" +:+ dquote +:+ ":" +:+ dquote +:+ name +:+ dquote).

Definition ENVELOPE_MAGIC_STR : string := "SPENV".
Definition ENVELOPE_MAGIC : bytes := magic_prefix "SPENV".
Definition ENVELOPE_VERSION : Z := 2.
Definition ALG_A256GCM : string := "A256GCM".
Definition SUPPORTED_CRYPTO_VERSION : Z := 1.
Definition MAX_ENVELOPE_BYTES : Z := 4 * 1024 * 1024.
Definition MAX_CIPHERTEXT_BYTES : Z := 3 * 1024 * 1024.
Definition MAX_ENVELOPE_DEPTH : nat := 8.

(** [n.div_ceil(3) * 4]. *)
Definition b64_chars (n : Z) : Z := (n + 2) / 3 * 4.

Record EnvelopeDoc := {
  env_magic : string;
  env_envelope_version : Z;
  env_crypto_version : Z;
  env_alg : string;
  env_context : AadContext;
  env_nonce : string;
  env_ct : string;
  env_tag : string;
}.

Inductive EpochExpectation := Strict | FromDocument.

Section Envelope.
Context `{Base64, Aead, SerdeBytes AadContext, SerdeBytes EnvelopeDoc}.

(** [seal_envelope_with_nonce]. *)
Definition seal_envelope (dek : bytes) (context : AadContext) (plaintext : bytes)
    (expected_max_plaintext : Z) (nonce : bytes) : result CryptoError bytes :=
  _ ← err_if (negb (crypto_version context =? SUPPORTED_CRYPTO_VERSION))
        (UnsupportedCryptoVersion (crypto_version context) SUPPORTED_CRYPTO_VERSION);
  _ ← err_if (expected_max_plaintext <? Z.of_nat (length plaintext))
        (EncryptionFailed "plaintext exceeds this field's declared maximum");
  _ ← err_if (MAX_CIPHERTEXT_BYTES <? Z.of_nat (length plaintext))
        (EncryptionFailed "plaintext exceeds the envelope ciphertext cap");
  ct_with_tag ← ok_or (gcm_encrypt dek nonce (to_bytes context) plaintext) (EncryptionFailed "envelope seal failed");
  let n := (length ct_with_tag - 16)%nat in
  Ok (to_vec {|
    env_magic := "SPENV"; env_envelope_version := ENVELOPE_VERSION;
    env_crypto_version := crypto_version context; env_alg := ALG_A256GCM; env_context := context;
    env_nonce := b64_encode nonce; env_ct := b64_encode (take n ct_with_tag);
    env_tag := b64_encode (drop n ct_with_tag) |}).

(** [decode_exact_b64]. *)
Definition decode_exact_b64 (s : string) (expected_len : Z) : result CryptoError bytes :=
  _ ← err_if (negb (Z.of_nat (String.length s) =? b64_chars expected_len))
        (DecryptionFailed "envelope field has the wrong length");
  decoded ← ok_or (b64_decode s) (DecryptionFailed "envelope field is not valid base64");
  _ ← err_if (negb (Z.of_nat (length decoded) =? expected_len))
        (DecryptionFailed "envelope field decoded to the wrong length");
  Ok decoded.

(** [open_envelope_impl]. *)
Definition open_envelope_impl (dek : bytes) (expected : AadContext) (document : bytes)
    (epoch_expectation : EpochExpectation) : result CryptoError bytes :=
  _ ← err_if (negb (starts_with ENVELOPE_MAGIC document)) (DecryptionFailed "not an SPENV v2 envelope document");
  _ ← err_if (MAX_ENVELOPE_BYTES <? Z.of_nat (length document))
        (DecryptionFailed "envelope document exceeds the size cap");
  _ ← err_if (json_depth_exceeds document MAX_ENVELOPE_DEPTH)
        (DecryptionFailed "envelope document exceeds the maximum nesting depth");
  envelope ← ok_or (from_slice document) (DecryptionFailed "malformed envelope");
  _ ← err_if (negb (env_envelope_version envelope =? ENVELOPE_VERSION))
        (UnsupportedCryptoVersion (env_envelope_version envelope) ENVELOPE_VERSION);
  _ ← err_if (negb (String.eqb (env_alg envelope) ALG_A256GCM))
        (DecryptionFailed "unsupported envelope algorithm");
  _ ← err_if (negb (String.eqb (env_magic envelope) ENVELOPE_MAGIC_STR))
        (DecryptionFailed "envelope magic field mismatch");
  _ ← err_if (negb (crypto_version (env_context envelope) =? SUPPORTED_CRYPTO_VERSION))
        (UnsupportedCryptoVersion (crypto_version (env_context envelope)) SUPPORTED_CRYPTO_VERSION);
  _ ← err_if (negb (env_crypto_version envelope =? crypto_version (env_context envelope)))
        (DecryptionFailed "envelope crypto_version disagrees with the authenticated context");
  nonce ← decode_exact_b64 (env_nonce envelope) 12;
  tag ← decode_exact_b64 (env_tag envelope) 16;
  _ ← err_if (b64_chars MAX_CIPHERTEXT_BYTES <? Z.of_nat (String.length (env_ct envelope)))
        (DecryptionFailed "envelope ciphertext exceeds the cap");
  ct ← ok_or (b64_decode (env_ct envelope)) (DecryptionFailed "envelope ciphertext is not valid base64");
  _ ← err_if (MAX_CIPHERTEXT_BYTES <? Z.of_nat (length ct)) (DecryptionFailed "envelope ciphertext exceeds the cap");
  let expected := match epoch_expectation with
                  | FromDocument => {| expected with epoch := epoch (env_context envelope) |}
                  | Strict => expected
                  end in
  let aad := to_bytes expected in
  _ ← err_if (MAX_AAD_BYTES <? Z.of_nat (length aad))
        (DecryptionFailed "expected context exceeds the AAD size contract");
  _ ← err_if (negb (bool_decide (env_context envelope = expected)))
        (DecryptionFailed "envelope identity does not match the record it was opened against");
  ok_or (gcm_decrypt dek nonce aad (ct ++ tag)) AuthenticationFailed.

(** [open_envelope] and [open_envelope_relaxed_epoch]. *)
Definition open_envelope (dek : bytes) (expected : AadContext) (document : bytes) : result CryptoError bytes :=
  open_envelope_impl dek expected document Strict.
Definition open_envelope_relaxed_epoch (dek : bytes) (expected : AadContext) (document : bytes)
    : result CryptoError bytes :=
  open_envelope_impl dek expected document FromDocument.

End Envelope.

#[global] Arguments MAX_CIPHERTEXT_BYTES : simpl never.
#[global] Arguments MAX_ENVELOPE_BYTES : simpl never.
#[global] Arguments MAX_AAD_BYTES : simpl never.
#[global] Arguments b64_chars : simpl never.
#[global] Arguments decode_exact_b64 : simpl never.

(** What the repository relies on of the JSON text of an envelope: the struct
    is written as one object, its fields in declaration order (so the text
    starts with the magic field), nested one object deep, each string field
    inside the text. *)
Class EnvelopeJson `{SerdeBytes EnvelopeDoc} : Prop := {
  envelope_text_starts : forall e, env_magic e = ENVELOPE_MAGIC_STR -> starts_with ENVELOPE_MAGIC (to_vec e) = true;
  envelope_text_depth : forall e, json_depth_exceeds (to_vec e) MAX_ENVELOPE_DEPTH = false;
  envelope_text_length : forall e, (String.length (env_ct e) < length (to_vec e))%nat;
}.

Section Properties.
Context `{Base64, Aead, SerdeBytes AadContext, SerdeBytes EnvelopeDoc}.
Context `{!Base64Laws, !AeadLaws, !SerdeBytesLaws AadContext, !SerdeBytesLaws EnvelopeDoc, !EnvelopeJson}.

Lemma decode_exact_encode b n : Z.of_nat (length b) = n -> decode_exact_b64 (b64_encode b) n = Ok b.
Proof.
  intros <-. unfold decode_exact_b64, b64_chars. rewrite b64_encode_length, Z.eqb_refl. simpl.
  rewrite b64_decode_encode. simpl. by rewrite Z.eqb_refl.
Qed.

(** A sealed document, field by field. *)
Lemma seal_ok dek context plaintext max nonce doc :
  seal_envelope dek context plaintext max nonce = Ok doc ->
  exists ct tag, crypto_version context = SUPPORTED_CRYPTO_VERSION /\
    Z.of_nat (length plaintext) <= MAX_CIPHERTEXT_BYTES /\
    gcm_encrypt dek nonce (to_bytes context) plaintext = Some (ct ++ tag) /\
    length ct = length plaintext /\ length tag = 16%nat /\
    doc = to_vec {| env_magic := "SPENV"; env_envelope_version := ENVELOPE_VERSION;
      env_crypto_version := crypto_version context; env_alg := ALG_A256GCM; env_context := context;
      env_nonce := b64_encode nonce; env_ct := b64_encode ct; env_tag := b64_encode tag |}.
Proof.
  unfold seal_envelope. intros Hs. result_inv. propify.
  match goal with E : gcm_encrypt _ _ _ _ = Some ?c |- _ =>
    pose proof (gcm_encrypt_length _ _ _ _ _ E) as Hlen;
    exists (take (length c - 16) c), (drop (length c - 16) c); rewrite take_drop, length_take, length_drop end.
  split_and!; done || lia.
Qed.

(** The document parses back to what was sealed, and every format gate of
    [open_envelope] passes; what is left is the identity and the tag. *)
Lemma open_sealed dek context ct tag nonce expected mode :
  crypto_version context = SUPPORTED_CRYPTO_VERSION -> Z.of_nat (length ct) <= MAX_CIPHERTEXT_BYTES ->
  length tag = 16%nat -> length nonce = 12%nat ->
  let doc := to_vec {| env_magic := "SPENV"; env_envelope_version := ENVELOPE_VERSION;
      env_crypto_version := crypto_version context; env_alg := ALG_A256GCM; env_context := context;
      env_nonce := b64_encode nonce; env_ct := b64_encode ct; env_tag := b64_encode tag |} in
  let expected' := match mode with FromDocument => {| expected with epoch := epoch context |} | Strict => expected end in
  Z.of_nat (length doc) <= MAX_ENVELOPE_BYTES ->
  open_envelope_impl dek expected doc mode =
    if MAX_AAD_BYTES <? Z.of_nat (length (to_bytes expected')) then
      Err (DecryptionFailed "expected context exceeds the AAD size contract")
    else if bool_decide (context = expected') then
      ok_or (gcm_decrypt dek nonce (to_bytes expected') (ct ++ tag)) AuthenticationFailed
    else Err (DecryptionFailed "envelope identity does not match the record it was opened against").
Proof.
  intros Hcv Hct Htag Hnonce doc expected' Hlen. unfold open_envelope_impl.
  unfold doc. rewrite envelope_text_starts by done. simpl.
  rewrite (proj2 (Z.ltb_ge _ _)) by exact Hlen. simpl. rewrite envelope_text_depth. simpl.
  rewrite from_slice_to_vec. simpl. rewrite Hcv. simpl.
  rewrite (decode_exact_encode nonce 12), (decode_exact_encode tag 16) by lia. simpl.
  rewrite b64_encode_length, (proj2 (Z.ltb_ge (b64_chars MAX_CIPHERTEXT_BYTES) _)).
  2:{ unfold b64_chars. apply Z.mul_le_mono_nonneg_r; [lia|]. apply Z.div_le_mono; lia. }
  simpl. rewrite b64_decode_encode. simpl. rewrite (proj2 (Z.ltb_ge MAX_CIPHERTEXT_BYTES _)) by done. simpl.
  fold expected'. destruct (MAX_AAD_BYTES <? _); [done|]. simpl. by case_bool_decide.
Qed.

(** Round trip: a sealed plaintext opens, strictly and with the relaxed
    epoch, to itself under the key and the identity it was sealed with, as
    long as the document and the context keep to their size contracts. *)
Theorem envelope_roundtrip dek context plaintext max nonce doc :
  seal_envelope dek context plaintext max nonce = Ok doc -> length nonce = 12%nat ->
  Z.of_nat (length doc) <= MAX_ENVELOPE_BYTES -> Z.of_nat (length (to_bytes context)) <= MAX_AAD_BYTES ->
  open_envelope dek context doc = Ok plaintext /\ open_envelope_relaxed_epoch dek context doc = Ok plaintext.
Proof.
  intros (ct & tag & Hcv & Hpl & Henc & Hct & Htag & ->)%seal_ok Hnonce Hlen Haad.
  assert ({| context with epoch := epoch context |} = context) as Hself by (by destruct context).
  unfold open_envelope, open_envelope_relaxed_epoch.
  rewrite !open_sealed by (done || lia). cbv zeta. rewrite Hself.
  rewrite (proj2 (Z.ltb_ge _ _)) by done. rewrite bool_decide_true by done.
  by rewrite (gcm_decrypt_encrypt _ _ _ _ _ Henc).
Qed.

Lemma envelope_identity_lemma dek context plaintext max nonce doc dek' expected mode p :
  seal_envelope dek context plaintext max nonce = Ok doc -> length nonce = 12%nat ->
  open_envelope_impl dek' expected doc mode = Ok p ->
  context = match mode with FromDocument => {| expected with epoch := epoch context |} | Strict => expected end /\
  (dek' = dek -> p = plaintext).
Proof.
  intros (ct & tag & Hcv & Hpl & Henc & Hct & Htag & ->)%seal_ok Hnonce Hopen.
  assert (Z.of_nat (length (to_vec {| env_magic := "SPENV"; env_envelope_version := ENVELOPE_VERSION;
      env_crypto_version := crypto_version context; env_alg := ALG_A256GCM; env_context := context;
      env_nonce := b64_encode nonce; env_ct := b64_encode ct; env_tag := b64_encode tag |})) <= MAX_ENVELOPE_BYTES) as Hlen.
  { unfold open_envelope_impl in Hopen. rewrite envelope_text_starts in Hopen by done. simpl in Hopen.
    apply result_bind_ok in Hopen as (u & Hu & _). apply err_if_ok in Hu. by apply Z.ltb_ge in Hu. }
  rewrite open_sealed in Hopen by (done || lia).
  destruct (MAX_AAD_BYTES <? _); [done|]. case_bool_decide as Hctx; [|done].
  split; [done|]. intros ->. rewrite <- Hctx in Hopen.
  rewrite (gcm_decrypt_encrypt _ _ _ _ _ Henc) in Hopen. by injection Hopen as <-.
Qed.

(** Relocation is refused: a document opens only under the identity it
    was sealed with, except that the relaxed mode disregards the epoch of the
    reader; and what it opens to, under any key, is only ever the sealed
    message when the key is the sealing key. *)
Theorem envelope_identity dek context plaintext max nonce doc dek' expected mode p :
  seal_envelope dek context plaintext max nonce = Ok doc -> length nonce = 12%nat ->
  open_envelope_impl dek' expected doc mode = Ok p ->
  context = match mode with FromDocument => {| expected with epoch := epoch context |} | Strict => expected end /\
  (dek' = dek -> p = plaintext).
Proof. apply envelope_identity_lemma. Qed.

(** What [open_envelope] accepts, whoever wrote it: the message the tag
    authenticates under the bytes of the expected identity, in a document
    that claims that identity, of exactly this version and algorithm, with a
    nonce of 12 and a message of at most the capped number of bytes. *)
Theorem open_envelope_sound dek expected document p :
  open_envelope dek expected document = Ok p ->
  exists e nonce ct tag, from_slice document = Some e /\
    Z.of_nat (length document) <= MAX_ENVELOPE_BYTES /\
    env_envelope_version e = ENVELOPE_VERSION /\ env_alg e = ALG_A256GCM /\ env_context e = expected /\
    crypto_version expected = SUPPORTED_CRYPTO_VERSION /\
    b64_decode (env_nonce e) = Some nonce /\ length nonce = 12%nat /\
    Z.of_nat (length p) <= MAX_CIPHERTEXT_BYTES /\
    gcm_encrypt dek nonce (to_bytes expected) p = Some (ct ++ tag) /\ length tag = 16%nat.
Proof.
  unfold open_envelope, open_envelope_impl. intros Ho.
  repeat match type of Ho with (decode_exact_b64 _ _ ≫= _) = _ =>
    fail | (_ ≫= _) = Ok _ => apply result_bind_ok in Ho as (? & ? & Ho) end.
  unfold decode_exact_b64 in *. result_inv. propify.
  repeat match goal with E : String.eqb _ _ = true |- _ => apply String.eqb_eq in E end.
  match goal with E : from_slice document = Some ?e, D : gcm_decrypt _ ?n _ (?c ++ ?t) = Some _ |- _ =>
    exists e, n, c, t; pose proof (gcm_encrypt_decrypt _ _ _ _ _ D) as Henc;
    pose proof (gcm_encrypt_length _ _ _ _ _ Henc) as Hlen end.
  rewrite length_app in Hlen. subst. split_and!; try done; try lia; congruence.
Qed.

(** The ciphertext cap and the document cap disagree: sealing a message
    of exactly the ciphertext cap succeeds, and no reader opens the result. *)
Theorem envelope_cap_mismatch dek context plaintext nonce ct :
  crypto_version context = SUPPORTED_CRYPTO_VERSION ->
  Z.of_nat (length plaintext) = MAX_CIPHERTEXT_BYTES ->
  gcm_encrypt dek nonce (to_bytes context) plaintext = Some ct ->
  exists doc, seal_envelope dek context plaintext MAX_CIPHERTEXT_BYTES nonce = Ok doc /\
    forall dek' expected mode, is_ok (open_envelope_impl dek' expected doc mode) = false.
Proof.
  intros Hcv Hlen Henc. pose proof (gcm_encrypt_length _ _ _ _ _ Henc) as Hl.
  unfold seal_envelope. rewrite Hcv, Hlen, Henc. simpl. eexists. split; [done|].
  intros dek' expected mode. unfold open_envelope_impl. rewrite envelope_text_starts by done. simpl.
  match goal with |- context [to_vec ?e] => pose proof (envelope_text_length e) as Htl end. simpl in Htl.
  apply Nat2Z.inj_lt in Htl. rewrite b64_encode_length, length_take in Htl.
  rewrite Nat.min_l in Htl by lia. replace (Z.of_nat (length ct - 16)) with MAX_CIPHERTEXT_BYTES in Htl by lia.
  rewrite (proj2 (Z.ltb_lt _ _)); [done|].
  change (MAX_ENVELOPE_BYTES) with ((MAX_CIPHERTEXT_BYTES + 2) / 3 * 4). exact Htl.
Qed.

End Properties.
