(* ===== verification/CoreDemo.v ===== *)
(** * Core: concrete document codecs

    An executable stand-in for the JSON text of the core's documents, used by
    the witnesses: the magic prefix, the value as a string of bits, and
    padding.  It satisfies the laws the theorems assume of [serde_json] and
    models no code. *)

From S2P Require Import Prelude ThirdParty Aad Envelope.
From Stdlib Require Import ZArith Lia Strings.String Strings.Byte.
From stdpp Require Import base list option strings numbers countable.
Export Concrete.
Open Scope Z_scope.

Fixpoint bits (p : positive) : bytes :=
  match p with
  | xH => [Byte.x2e]
  | xO p => Byte.x30 :: bits p
  | xI p => Byte.x31 :: bits p
  end.

Fixpoint parse_bits (b : bytes) : option positive :=
  match b with
  | [] => None
  | Byte.x2e :: _ => Some xH
  | Byte.x30 :: b => xO <$> parse_bits b
  | Byte.x31 :: b => xI <$> parse_bits b
  | _ => None
  end.

Lemma parse_bits_app p r : parse_bits (bits p ++ r) = Some p.
Proof. induction p as [p IH|p IH|]; simpl; by rewrite ?IH. Qed.

(** A byte no scan treats specially. *)
Definition plain (b : Byte.byte) : Prop := Byte.eqb b quote = false /\ opens b = false /\ closes b = false.

Lemma bits_plain p : Forall plain (bits p).
Proof. induction p; repeat constructor; done. Qed.

Lemma depth_scan_plain max d bs : Forall plain bs -> depth_scan max d false false bs = false.
Proof.
  induction 1 as [|b bs (Hq & Ho & Hc) _ IH]; simpl; [done|]. by rewrite Hq, Ho, Hc.
Qed.

Lemma starts_with_app p b : starts_with p (p ++ b) = true.
Proof. induction p as [|x p IH]; simpl; [done|]. by rewrite IH, (Byte.byte_dec_lb eq_refl). Qed.

Definition code_to_vec `{Countable A} (prefix : bytes) (pad : A -> nat) (a : A) : bytes :=
  prefix ++ bits (encode a) ++ repeat Byte.x41 (pad a).
Definition code_from_slice `{Countable A} (prefix : bytes) (b : bytes) : option A :=
  parse_bits (drop (length prefix) b) ≫= decode.

Lemma code_roundtrip `{Countable A} prefix pad (a : A) :
  code_from_slice prefix (code_to_vec prefix pad a) = Some a.
Proof.
  unfold code_from_slice, code_to_vec. rewrite drop_app_length, parse_bits_app. simpl. apply decode_encode.
Qed.

Lemma code_depth `{Countable A} prefix pad (a : A) max d :
  (forall rest, depth_scan max 0 false false (prefix ++ rest) = depth_scan max d false false rest) ->
  json_depth_exceeds (code_to_vec prefix pad a) max = false.
Proof.
  intros Hp. unfold json_depth_exceeds, code_to_vec. rewrite Hp. apply depth_scan_plain, Forall_app.
  split; [apply bits_plain|]. induction (pad a); by constructor.
Qed.

(** ** Instances *)

#[export] Instance purpose_countable : Countable EnvelopePurpose :=
  inj_countable' (fun p => match p with
      | Summary => 0 | Secret => 1 | EntryTitle => 2 | EntryUsername => 3 | EntryPassword => 4
      | EntryUrl => 5 | EntryNotes => 6 | TotpIssuer => 7 | TotpAccount => 8 end)%nat
    (fun n => match n with
      | 0 => Summary | 1 => Secret | 2 => EntryTitle | 3 => EntryUsername | 4 => EntryPassword
      | 5 => EntryUrl | 6 => EntryNotes | 7 => TotpIssuer | _ => TotpAccount end)%nat
    (fun p => match p with Summary | _ => eq_refl end).

#[export] Instance type_countable : Countable ObjectType :=
  inj_countable' (fun t => match t with
      | Password => 0 | ApiKey => 1 | PasskeyReference => 2 | SshKey => 3 | TotpSecret => 4
      | RegistryEntity => 5 | KeySlot => 6 | DomainMapping => 7 | PersonalCustody => 8 end)%nat
    (fun n => match n with
      | 0 => Password | 1 => ApiKey | 2 => PasskeyReference | 3 => SshKey | 4 => TotpSecret
      | 5 => RegistryEntity | 6 => KeySlot | 7 => DomainMapping | _ => PersonalCustody end)%nat
    (fun t => match t with Password | _ => eq_refl end).

#[export] Instance context_countable : Countable AadContext :=
  inj_countable' (fun c => (aad_version c, vault c, object c, purpose c, object_type c,
                            (schema_version c, crypto_version c, epoch c, tombstone c)))
    (fun '(v, va, ob, p, t, (sv, cv, e, tb)) =>
       {| aad_version := v; vault := va; object := ob; purpose := p; object_type := t;
          schema_version := sv; crypto_version := cv; epoch := e; tombstone := tb |})
    (fun c => match c with Build_AadContext _ _ _ _ _ _ _ _ _ => eq_refl end).

#[export] Instance envelope_eq_dec : EqDecision EnvelopeDoc.
Proof. solve_decision. Defined.

#[export] Instance envelope_countable : Countable EnvelopeDoc :=
  inj_countable' (fun e => (env_magic e, env_envelope_version e, env_crypto_version e, env_alg e,
                            (env_context e, env_nonce e, env_ct e, env_tag e)))
    (fun '(m, v, cv, al, (c, n, ct, tg)) =>
       {| env_magic := m; env_envelope_version := v; env_crypto_version := cv; env_alg := al;
          env_context := c; env_nonce := n; env_ct := ct; env_tag := tg |})
    (fun e => match e with Build_EnvelopeDoc _ _ _ _ _ _ _ _ => eq_refl end).

#[export] Instance context_json : SerdeBytes AadContext := {|
  to_vec := code_to_vec [] (fun _ => 0%nat); from_slice := code_from_slice [] |}.
#[export] Instance context_json_laws : SerdeBytesLaws AadContext.
Proof. intros a. apply code_roundtrip. Qed.

#[export] Instance envelope_json : SerdeBytes EnvelopeDoc := {|
  to_vec := code_to_vec ENVELOPE_MAGIC (fun e => String.length (env_ct e)); from_slice := code_from_slice ENVELOPE_MAGIC |}.
#[export] Instance envelope_json_laws : SerdeBytesLaws EnvelopeDoc.
Proof. intros a. apply code_roundtrip. Qed.
#[export] Instance envelope_json_text : EnvelopeJson.
Proof.
  constructor; intros e; cbn -[ENVELOPE_MAGIC].
  - intros _. apply starts_with_app.
  - by apply (code_depth ENVELOPE_MAGIC _ _ _ 1).
  - unfold code_to_vec. rewrite !length_app, repeat_length. change (length ENVELOPE_MAGIC) with 16%nat. lia.
Qed.

(** ** A sealed secret *)

Definition demo_context : AadContext := {|
  aad_version := 1; vault := "v"; object := "o"; purpose := EntryPassword; object_type := Password;
  schema_version := 1; crypto_version := 1; epoch := 3; tombstone := None |}.
Definition demo_dek : bytes := repeat Byte.x01 32.
Definition demo_gcm_nonce : bytes := repeat Byte.x02 12.
Definition demo_plain : bytes := [Byte.x68; Byte.x69].

Definition demo_doc : bytes :=
  match seal_envelope demo_dek demo_context demo_plain 64 demo_gcm_nonce with Ok d => d | Err _ => [] end.

Lemma demo_sealed : seal_envelope demo_dek demo_context demo_plain 64 demo_gcm_nonce = Ok demo_doc.
Proof. vm_compute. reflexivity. Qed.

(** ** Witnesses *)

Lemma envelope_roundtrip_witness :
  open_envelope demo_dek demo_context demo_doc = Ok demo_plain /\
  open_envelope_relaxed_epoch demo_dek demo_context demo_doc = Ok demo_plain.
Proof.
  apply (envelope_roundtrip demo_dek demo_context demo_plain 64 demo_gcm_nonce demo_doc).
  - exact demo_sealed.
  - reflexivity.
  - vm_compute. discriminate.
  - vm_compute. discriminate.
Defined.

Lemma envelope_identity_witness :
  demo_context = {| demo_context with epoch := epoch demo_context |} /\ (demo_dek = demo_dek -> demo_plain = demo_plain).
Proof.
  apply (envelope_identity demo_dek demo_context demo_plain 64 demo_gcm_nonce demo_doc demo_dek
    ({| demo_context with epoch := 9 |}) FromDocument demo_plain).
  - exact demo_sealed.
  - reflexivity.
  - vm_compute. reflexivity.
Defined.

Lemma open_envelope_sound_witness :
  exists e nonce ct tag, from_slice demo_doc = Some e /\
    Z.of_nat (length demo_doc) <= MAX_ENVELOPE_BYTES /\
    env_envelope_version e = ENVELOPE_VERSION /\ env_alg e = ALG_A256GCM /\ env_context e = demo_context /\
    crypto_version demo_context = SUPPORTED_CRYPTO_VERSION /\
    b64_decode (env_nonce e) = Some nonce /\ length nonce = 12%nat /\
    Z.of_nat (length demo_plain) <= MAX_CIPHERTEXT_BYTES /\
    gcm_encrypt demo_dek nonce (to_bytes demo_context) demo_plain = Some (ct ++ tag) /\ length tag = 16%nat.
Proof.
  apply (open_envelope_sound demo_dek demo_context demo_doc demo_plain).
  vm_compute. reflexivity.
Defined.

Lemma envelope_cap_mismatch_witness :
  exists doc, seal_envelope demo_dek demo_context (repeat Byte.x00 (Z.to_nat MAX_CIPHERTEXT_BYTES))
      MAX_CIPHERTEXT_BYTES demo_gcm_nonce = Ok doc /\
    forall dek' expected mode, is_ok (open_envelope_impl dek' expected doc mode) = false.
Proof.
  eapply (envelope_cap_mismatch demo_dek demo_context (repeat Byte.x00 (Z.to_nat MAX_CIPHERTEXT_BYTES)) demo_gcm_nonce).
  - reflexivity.
  - rewrite repeat_length. apply Z2Nat.id. vm_compute. discriminate.
  - reflexivity.
Defined.
