(* ===== verification/Keyring.v ===== *)
(** * Core: key derivation and the key hierarchy ([crypto/kdf.rs], [crypto/keyring.rs])

    Master password -> Argon2id -> master key -> wraps -> data encryption key.
    Salts, nonces and fresh keys are arguments; a fixed-size array is a byte
    string with its length in the well-formedness predicates. *)

From S2P Require Import Prelude ThirdParty Envelope.
From Stdlib Require Import ZArith Lia Strings.String Strings.Byte.
From stdpp Require Import base list option strings numbers.
Open Scope Z_scope.

(** ** [kdf.rs] *)

Definition MIN_MEM_COST_KIB : Z := 64000.
Definition MAX_MEM_COST_KIB : Z := 1048576.
Definition MIN_TIME_COST : Z := 1.
Definition MAX_TIME_COST : Z := 20.
Definition MIN_PARALLELISM : Z := 1.
Definition MAX_PARALLELISM : Z := 16.
Definition MIN_OUTPUT_LENGTH : Z := 32.
Definition MAX_OUTPUT_LENGTH : Z := 1024.

Record KdfParams := {
  salt : bytes;            (* [u8; 16] *)
  mem_cost : Z;            (* u32 *)
  time_cost : Z;
  parallelism : Z;
  output_length : Z;
}.

(** [KdfParams::default]. *)
Definition kdf_default (salt : bytes) : KdfParams :=
  {| salt := salt; mem_cost := 262144; time_cost := 3; parallelism := 4; output_length := 32 |}.

(** [KdfParams::mobile_profile]. *)
Definition mobile_profile (salt : bytes) : KdfParams :=
  {| salt := salt; mem_cost := MIN_MEM_COST_KIB; time_cost := 3; parallelism := 4; output_length := 32 |}.

(** [KdfParams::validate]. *)
Definition kdf_validate (p : KdfParams) : result CryptoError unit :=
  _ ← err_if (mem_cost p <? MIN_MEM_COST_KIB) (KdfFailed "Memory cost too low");
  _ ← err_if (MAX_MEM_COST_KIB <? mem_cost p) (KdfFailed "Memory cost too high");
  _ ← err_if (time_cost p <? MIN_TIME_COST) (KdfFailed "Time cost too low");
  _ ← err_if (MAX_TIME_COST <? time_cost p) (KdfFailed "Time cost too high");
  _ ← err_if (parallelism p <? MIN_PARALLELISM) (KdfFailed "Parallelism too low");
  _ ← err_if (MAX_PARALLELISM <? parallelism p) (KdfFailed "Parallelism too high");
  _ ← err_if (output_length p <? MIN_OUTPUT_LENGTH) (KdfFailed "Output length too short");
  err_if (MAX_OUTPUT_LENGTH <? output_length p) (KdfFailed "Output length too long").

Section Kdf.
Context `{Argon2id}.

(** [derive_master_key]: the first 32 bytes of the output. *)
Definition derive_master_key (password : bytes) (p : KdfParams) : result CryptoError bytes :=
  _ ← kdf_validate p;
  _ ← err_if (negb (argon2_params_ok (mem_cost p) (time_cost p) (parallelism p) (output_length p)))
        (KdfFailed "Invalid parameters");
  hash ← ok_or (argon2id_into password (salt p) (mem_cost p) (time_cost p) (parallelism p) (output_length p))
           (KdfFailed "Hashing failed");
  Ok (take 32 hash).

(** [verify_master_password]. *)
Definition verify_master_password (password : bytes) (p : KdfParams) (expected : bytes) : result CryptoError unit :=
  derived ← derive_master_key password p;
  if bool_decide (derived = expected) then Ok tt else Err (KdfFailed "Invalid password").
End Kdf.

(** ** [keyring.rs] *)

Record WrappedKey := {
  wrapped_dek : bytes;
  nonce : bytes;           (* [u8; 12] *)
  auth_tag : bytes;        (* [u8; 16] *)
  epoch_bound : bool;
}.

Record LegacyWrappedKey := {
  lw_wrapped_dek : bytes;
  lw_nonce : bytes;
  lw_auth_tag : bytes;
}.

(** [WrappedKey::from_bincode_bytes]: the current shape, then the legacy one. *)
Definition from_bincode_bytes `{Bincode WrappedKey, Bincode LegacyWrappedKey} (bs : bytes)
    : result CryptoError WrappedKey :=
  match bincode_deserialize (A := WrappedKey) bs with
  | Some key => Ok key
  | None =>
    l ← ok_or (bincode_deserialize (A := LegacyWrappedKey) bs) (DecryptionFailed "Invalid wrapped key");
    Ok {| wrapped_dek := lw_wrapped_dek l; nonce := lw_nonce l; auth_tag := lw_auth_tag l; epoch_bound := false |}
  end.

Record KeyHierarchy := {
  master_key : option bytes;
  kh_dek : option bytes;
}.

Definition new_hierarchy : KeyHierarchy := {| master_key := None; kh_dek := None |}.

(** [i64::to_le_bytes]. *)
Definition i64_to_le_bytes (z : Z) : bytes := reverse (to_be_bytes 8 z).

(** HKDF labels: one key per purpose. *)
Definition EQUALITY_KEY_INFO : bytes := as_bytes "sentinelpass-registry-equality-v1".
Definition DOMAIN_TAG_KEY_INFO : bytes := as_bytes "sentinelpass-domain-tag-v1".
Definition AUDIT_ID_KEY_INFO : bytes := as_bytes "sentinelpass-audit-id-v1".
Definition AUDIT_CHAIN_KEY_INFO : bytes := as_bytes "sentinelpass-audit-chain-v1".

Section Keyring.
Context `{Aead, Argon2id, Hmac}.

Definition derive_key (info dek : bytes) (m : string) : result CryptoError bytes :=
  ok_or (hkdf_expand dek info 32) (KdfFailed m).

Definition derive_equality_key (dek : bytes) := derive_key EQUALITY_KEY_INFO dek "registry equality key derivation failed".
Definition derive_domain_tag_key (dek : bytes) := derive_key DOMAIN_TAG_KEY_INFO dek "domain tag key derivation failed".
Definition derive_audit_id_key (dek : bytes) := derive_key AUDIT_ID_KEY_INFO dek "audit id key derivation failed".
Definition derive_audit_chain_key (dek : bytes) := derive_key AUDIT_CHAIN_KEY_INFO dek "audit chain key derivation failed".

(** [KeyHierarchy::wrap_dek_under_key]. *)
Definition wrap_dek_under_key (gcm_nonce master dek : bytes) (aad : option bytes) (bound : bool)
    : result CryptoError WrappedKey :=
  ciphertext ← ok_or (gcm_encrypt master gcm_nonce (default [] aad) dek) (EncryptionFailed "Failed to wrap DEK");
  _ ← err_if (length ciphertext <? 16)%nat (EncryptionFailed "Wrapped DEK too short");
  let tag_start := (length ciphertext - 16)%nat in
  Ok {| wrapped_dek := take tag_start ciphertext; nonce := gcm_nonce; auth_tag := drop tag_start ciphertext;
        epoch_bound := bound |}.

(** [KeyHierarchy::unwrap_dek_under_key]. *)
Definition unwrap_dek_under_key (master : bytes) (w : WrappedKey) (aad : option bytes) : result CryptoError bytes :=
  dek ← ok_or (gcm_decrypt master (nonce w) (default [] aad) (wrapped_dek w ++ auth_tag w)) AuthenticationFailed;
  _ ← err_if (negb (length dek =? 32)%nat) (DecryptionFailed "Invalid DEK length");
  Ok dek.

(** [KeyHierarchy::wrap_dek]. *)
Definition wrap_dek (gcm_nonce : bytes) (h : KeyHierarchy) : result CryptoError WrappedKey :=
  master ← ok_or (master_key h) (EncryptionFailed "No master key");
  dek ← ok_or (kh_dek h) (EncryptionFailed "No DEK");
  wrap_dek_under_key gcm_nonce master dek None false.

(** [KeyHierarchy::unwrap_dek]. *)
Definition unwrap_dek (h : KeyHierarchy) (w : WrappedKey) : result CryptoError bytes :=
  master ← ok_or (master_key h) (DecryptionFailed "No master key");
  unwrap_dek_under_key master w None.

(** The methods that change the hierarchy return its new state also when they
    fail. *)

(** [KeyHierarchy::initialize_vault]. *)
Definition initialize_vault (fresh_salt fresh_dek gcm_nonce password : bytes) (h : KeyHierarchy)
    : result CryptoError (KdfParams * WrappedKey) * KeyHierarchy :=
  let params := kdf_default fresh_salt in
  match derive_master_key password params with
  | Err e => (Err e, h)
  | Ok mk =>
    let h := {| master_key := Some mk; kh_dek := Some fresh_dek |} in
    (w ← wrap_dek gcm_nonce h; Ok (params, w), h)
  end.

(** [KeyHierarchy::unlock_vault]. *)
Definition unlock_vault (password : bytes) (params : KdfParams) (w : WrappedKey) (h : KeyHierarchy)
    : result CryptoError unit * KeyHierarchy :=
  match derive_master_key password params with
  | Err e => (Err e, h)
  | Ok mk =>
    let h := {| h with master_key := Some mk |} in
    match unwrap_dek h w with
    | Err e => (Err e, h)
    | Ok dek => (Ok tt, {| h with kh_dek := Some dek |})
    end
  end.

(** The associated data of a wrap: the epoch, when the wrap binds it. *)
Definition wrap_aad (w : WrappedKey) (key_epoch : Z) : option bytes :=
  if epoch_bound w then Some (i64_to_le_bytes key_epoch) else None.

(** [KeyHierarchy::unlock_vault_with_epoch]. *)
Definition unlock_vault_with_epoch (password : bytes) (params : KdfParams) (w : WrappedKey) (key_epoch : Z)
    (h : KeyHierarchy) : result CryptoError unit * KeyHierarchy :=
  match derive_master_key password params with
  | Err e => (Err e, h)
  | Ok mk =>
    let h := {| h with master_key := Some mk |} in
    match unwrap_dek_under_key mk w (wrap_aad w key_epoch) with
    | Err e => (Err e, h)
    | Ok dek => (Ok tt, {| h with kh_dek := Some dek |})
    end
  end.

(** [unlock_vault_with_dek], [adopt_master_key], [lock_vault], [is_unlocked]. *)
Definition unlock_vault_with_dek (dek : bytes) (h : KeyHierarchy) : KeyHierarchy :=
  {| master_key := None; kh_dek := Some dek |}.
Definition adopt_master_key (mk : bytes) (h : KeyHierarchy) : KeyHierarchy := {| h with master_key := Some mk |}.
Definition lock_vault (h : KeyHierarchy) : KeyHierarchy := {| master_key := None; kh_dek := None |}.
Definition is_unlocked (h : KeyHierarchy) : bool := bool_decide (is_Some (kh_dek h)).

(** [KeyHierarchy::dek]. *)
Definition get_dek (h : KeyHierarchy) : result CryptoError bytes :=
  ok_or (kh_dek h) (EncryptionFailed "Vault is locked").

(** [KeyHierarchy::equality_key], [KeyHierarchy::domain_tag_key]. *)
Definition equality_key (h : KeyHierarchy) : result CryptoError bytes := dek ← get_dek h; derive_equality_key dek.
Definition domain_tag_key (h : KeyHierarchy) : result CryptoError bytes := dek ← get_dek h; derive_domain_tag_key dek.

(** [rotate_master_password]: the staged rotation; the hierarchy is only
    read. *)
Definition rotate_master_password (fresh_salt gcm_nonce : bytes) (h : KeyHierarchy) (current_password : bytes)
    (params : KdfParams) (current_wrapped : WrappedKey) (current_epoch : Z) (new_password : bytes)
    : result CryptoError (KdfParams * WrappedKey * bytes) :=
  _ ← err_if (bool_decide (new_password = current_password))
        (EncryptionFailed "New master password must differ from the current password");
  current_master ← derive_master_key current_password params;
  proved_dek ← unwrap_dek_under_key current_master current_wrapped (wrap_aad current_wrapped current_epoch);
  dek ← get_dek h;
  _ ← err_if (negb (bool_decide (proved_dek = dek))) AuthenticationFailed;
  let new_params := kdf_default fresh_salt in
  new_master ← derive_master_key new_password new_params;
  let new_aad := Some (i64_to_le_bytes (current_epoch + 1)) in
  wrapped ← wrap_dek_under_key gcm_nonce new_master dek new_aad true;
  verified_dek ← unwrap_dek_under_key new_master wrapped new_aad;
  _ ← err_if (negb (bool_decide (verified_dek = dek)))
        (EncryptionFailed "staged rotation wrap verification failed: DEK mismatch");
  Ok (new_params, wrapped, new_master).

(** ** Properties *)

Context `{!AeadLaws, !Argon2idLaws}.

Lemma kdf_validate_ok p u :
  kdf_validate p = Ok u ->
  MIN_MEM_COST_KIB <= mem_cost p <= MAX_MEM_COST_KIB /\ MIN_TIME_COST <= time_cost p <= MAX_TIME_COST /\
  MIN_PARALLELISM <= parallelism p <= MAX_PARALLELISM /\ MIN_OUTPUT_LENGTH <= output_length p <= MAX_OUTPUT_LENGTH.
Proof. unfold kdf_validate. intros Hv. result_inv. propify. done. Qed.

(** Argon2 only ever runs within the hard bounds, whatever parameters a
    stored vault or a peer supplied, and a derived master key has 32 bytes. *)
Theorem derive_master_key_bounded password p k :
  derive_master_key password p = Ok k ->
  MIN_MEM_COST_KIB <= mem_cost p <= MAX_MEM_COST_KIB /\ MIN_TIME_COST <= time_cost p <= MAX_TIME_COST /\
  MIN_PARALLELISM <= parallelism p <= MAX_PARALLELISM /\ MIN_OUTPUT_LENGTH <= output_length p <= MAX_OUTPUT_LENGTH /\
  length k = 32%nat.
Proof.
  unfold derive_master_key. intros Hd. result_inv.
  match goal with E : kdf_validate _ = Ok _ |- _ => apply kdf_validate_ok in E as (?&?&?&?) end.
  match goal with E : argon2id_into _ _ _ _ _ _ = Some _ |- _ => apply argon2id_length in E as Hl end.
  subst. split_and!; try done; try lia. rewrite length_take. unfold MIN_OUTPUT_LENGTH in *. lia.
Qed.

Lemma wrap_unwrap gcm_nonce master dek aad bound w :
  wrap_dek_under_key gcm_nonce master dek aad bound = Ok w -> length dek = 32%nat ->
  unwrap_dek_under_key master w aad = Ok dek /\ epoch_bound w = bound.
Proof.
  unfold wrap_dek_under_key, unwrap_dek_under_key. intros Hw Hlen. result_inv. subst w. simpl.
  rewrite take_drop. erewrite gcm_decrypt_encrypt by done. simpl. by rewrite Hlen.
Qed.

(** What a created vault gives. *)
Lemma initialize_facts fresh_salt fresh_dek gcm_nonce password h params w h1 h2 :
  length fresh_dek = 32%nat ->
  initialize_vault fresh_salt fresh_dek gcm_nonce password h = (Ok (params, w), h1) ->
  kh_dek h1 = Some fresh_dek /\
  exists h3, unlock_vault password params w h2 = (Ok tt, h3) /\ kh_dek h3 = Some fresh_dek /\ master_key h3 = master_key h1.
Proof.
  intros Hlen. unfold initialize_vault.
  destruct (derive_master_key password (kdf_default fresh_salt)) as [mk|e] eqn:Ed; [|done].
  destruct (wrap_dek _ _) as [w'|e] eqn:Ew; [|done]. intros [= <- <- <-]. split; [done|].
  unfold wrap_dek in Ew. simpl in Ew. apply wrap_unwrap in Ew as [Hu _]; [|done].
  unfold unlock_vault, unwrap_dek. rewrite Ed. simpl. rewrite Hu. eexists. split; done.
Qed.

(** Creating and unlocking: after [initialize_vault] the stored
    parameters and wrap unlock the vault, from any state, under the same
    password, to the very key it was created with. *)
Theorem initialize_then_unlock fresh_salt fresh_dek gcm_nonce password h params w h1 h2 :
  length fresh_dek = 32%nat ->
  initialize_vault fresh_salt fresh_dek gcm_nonce password h = (Ok (params, w), h1) ->
  kh_dek h1 = Some fresh_dek /\
  exists h3, unlock_vault password params w h2 = (Ok tt, h3) /\ kh_dek h3 = Some fresh_dek /\ master_key h3 = master_key h1.
Proof. apply initialize_facts. Qed.

(** What a staged rotation gives. *)
Lemma rotation_facts fresh_salt gcm_nonce h current params w e new_password params' w' mk' h2 :
  rotate_master_password fresh_salt gcm_nonce h current params w e new_password = Ok (params', w', mk') ->
  exists dek mk, kh_dek h = Some dek /\ new_password <> current /\
    derive_master_key current params = Ok mk /\ unwrap_dek_under_key mk w (wrap_aad w e) = Ok dek /\
    epoch_bound w' = true /\
    exists h3, unlock_vault_with_epoch new_password params' w' (e + 1) h2 = (Ok tt, h3) /\
      kh_dek h3 = Some dek /\ master_key h3 = Some mk' /\
      kh_dek (adopt_master_key mk' h) = Some dek /\ master_key (adopt_master_key mk' h) = Some mk'.
Proof.
  unfold rotate_master_password, get_dek. intros Hr. result_inv. propify.
  repeat match goal with E : (_, _) = (_, _) |- _ => injection E as <- <- <- end. subst.
  match goal with E : wrap_dek_under_key _ _ _ _ _ = Ok _ |- _ =>
    assert (epoch_bound w' = true) as Hb by (unfold wrap_dek_under_key in E; result_inv; by subst) end.
  match goal with D : kh_dek h = Some ?d, M : derive_master_key current params = Ok ?m |- _ => exists d, m end.
  split_and!; try done. unfold unlock_vault_with_epoch, wrap_aad. rewrite Hb.
  match goal with D : derive_master_key new_password _ = Ok _, U : unwrap_dek_under_key mk' w' _ = Ok _ |- _ =>
    rewrite D, U end.
  eexists. split_and!; done.
Qed.

(** Rotation: it takes the current password (the stored wrap opens under
    the key derived from it to the key in memory); the staged parameters and
    wrap unlock the vault under the new password at the next epoch, to the
    same data key; and the staged master key is the one adoption installs. *)
Theorem rotation_preserves_dek fresh_salt gcm_nonce h current params w e new_password params' w' mk' h2 :
  rotate_master_password fresh_salt gcm_nonce h current params w e new_password = Ok (params', w', mk') ->
  exists dek mk, kh_dek h = Some dek /\ new_password <> current /\
    derive_master_key current params = Ok mk /\ unwrap_dek_under_key mk w (wrap_aad w e) = Ok dek /\
    epoch_bound w' = true /\
    exists h3, unlock_vault_with_epoch new_password params' w' (e + 1) h2 = (Ok tt, h3) /\
      kh_dek h3 = Some dek /\ master_key h3 = Some mk' /\
      kh_dek (adopt_master_key mk' h) = Some dek /\ master_key (adopt_master_key mk' h) = Some mk'.
Proof. apply rotation_facts. Qed.

(** A failed unlock does not change whether the vault is open, nor its key. *)
Lemma unlock_error_keeps_dek password params w e h err h' :
  unlock_vault_with_epoch password params w e h = (Err err, h') -> kh_dek h' = kh_dek h.
Proof.
  unfold unlock_vault_with_epoch. destruct (derive_master_key password params); [|by intros [= _ <-]].
  destruct (unwrap_dek_under_key _ _ _); [done|]. by intros [= _ <-].
Qed.

End Keyring.
