(* ===== verification/DbWire.v ===== *)
(** * Core: the durable key-material columns ([crypto/dbwire.rs])

    The three [db_metadata] columns as versioned documents, with the legacy
    [bincode] reader behind a dispatch on the full magic prefix.  The JSON text
    and the legacy decoder are parameters. *)

From S2P Require Import Prelude ThirdParty Aad Envelope Keyring.
From Stdlib Require Import ZArith Lia Strings.String Strings.Byte.
From stdpp Require Import base list option strings numbers.
Open Scope Z_scope.

Definition DBWIRE_VERSION : Z := 1.
Definition KDF_MAGIC_STR : string := "SPKDF".
Definition WRAP_MAGIC_STR : string := "SPWRAP".
Definition NONCE_MAGIC_STR : string := "SPNONCE".
Definition KDF_MAGIC : bytes := magic_prefix KDF_MAGIC_STR.
Definition WRAP_MAGIC : bytes := magic_prefix WRAP_MAGIC_STR.
Definition NONCE_MAGIC : bytes := magic_prefix NONCE_MAGIC_STR.
Definition ALG_ARGON2ID : string := "ARGON2ID".
Definition MAX_DBWIRE_BYTES : Z := 4096.
Definition MAX_WRAPPED_DEK_BYTES : Z := 96.
Definition MAX_DBWIRE_DEPTH : nat := 4.

Record KdfDocument := {
  kd_magic : string;
  kd_v : Z;
  kd_alg : string;
  kd_salt : string;
  kd_mem_cost : Z;
  kd_time_cost : Z;
  kd_parallelism : Z;
  kd_output_length : Z;
}.

Record WrapDocument := {
  wd_magic : string;
  wd_v : Z;
  wd_alg : string;
  wd_wrapped_dek : string;
  wd_nonce : string;
  wd_auth_tag : string;
  wd_epoch_bound : bool;
}.

Record NonceDocument := {
  nd_magic : string;
  nd_v : Z;
  nd_nonce : string;
}.

(** [check_version], [check_magic_field], [check_alg_field]. *)
Definition check_version (found : Z) : result CryptoError unit :=
  err_if (negb (found =? DBWIRE_VERSION)) (UnsupportedCryptoVersion found DBWIRE_VERSION).
Definition check_magic_field (found expected : string) : result CryptoError unit :=
  err_if (negb (String.eqb found expected)) (DecryptionFailed "document magic field mismatch").
Definition check_alg_field (found expected : string) : result CryptoError unit :=
  err_if (negb (String.eqb found expected)) (DecryptionFailed "unsupported document algorithm").

(** [check_input_bounds]. *)
Definition check_input_bounds (blob : bytes) : result CryptoError unit :=
  _ ← err_if (bool_decide (blob = [])) (DecryptionFailed "empty blob");
  err_if (MAX_DBWIRE_BYTES <? Z.of_nat (length blob)) (DecryptionFailed "blob exceeds the size cap").

(** [parse_document]. *)
Definition parse_document {D} `{SerdeBytes D} (blob : bytes) : result CryptoError D :=
  _ ← err_if (json_depth_exceeds blob MAX_DBWIRE_DEPTH)
        (DecryptionFailed "document exceeds the maximum nesting depth");
  ok_or (from_slice blob) (DecryptionFailed "malformed document").

Section DbWire.
Context `{Base64, SerdeBytes KdfDocument, SerdeBytes WrapDocument, SerdeBytes NonceDocument}.

(** [decode_exact_b64] and [decode_capped_b64]: the declared length is checked
    before anything is decoded. *)
Definition db_decode_exact_b64 (s : string) (expected_len : Z) : result CryptoError bytes :=
  _ ← err_if (negb (Z.of_nat (String.length s) =? b64_chars expected_len))
        (DecryptionFailed "document field has the wrong length");
  decoded ← ok_or (b64_decode s) (DecryptionFailed "document field is not valid base64");
  _ ← err_if (negb (Z.of_nat (length decoded) =? expected_len))
        (DecryptionFailed "document field decoded to the wrong length");
  Ok decoded.

Definition decode_capped_b64 (s : string) (max_len : Z) : result CryptoError bytes :=
  _ ← err_if (b64_chars max_len <? Z.of_nat (String.length s)) (DecryptionFailed "document field exceeds the cap");
  decoded ← ok_or (b64_decode s) (DecryptionFailed "document field is not valid base64");
  _ ← err_if (max_len <? Z.of_nat (length decoded)) (DecryptionFailed "document field decoded beyond the cap");
  Ok decoded.

(** [encode_kdf_params]. *)
Definition kdf_document (p : KdfParams) : KdfDocument := {|
  kd_magic := KDF_MAGIC_STR; kd_v := DBWIRE_VERSION; kd_alg := ALG_ARGON2ID; kd_salt := b64_encode (salt p);
  kd_mem_cost := mem_cost p; kd_time_cost := time_cost p; kd_parallelism := parallelism p;
  kd_output_length := output_length p |}.
Definition encode_kdf_params (p : KdfParams) : result CryptoError bytes := Ok (to_vec (kdf_document p)).

(** [encode_wrapped_key]. *)
Definition wrap_document (w : WrappedKey) : WrapDocument := {|
  wd_magic := WRAP_MAGIC_STR; wd_v := DBWIRE_VERSION; wd_alg := ALG_A256GCM;
  wd_wrapped_dek := b64_encode (wrapped_dek w); wd_nonce := b64_encode (nonce w);
  wd_auth_tag := b64_encode (auth_tag w); wd_epoch_bound := epoch_bound w |}.
Definition encode_wrapped_key (w : WrappedKey) : result CryptoError bytes := Ok (to_vec (wrap_document w)).

(** [encode_dek_nonce]. *)
Definition nonce_document (n : bytes) : NonceDocument := {|
  nd_magic := NONCE_MAGIC_STR; nd_v := DBWIRE_VERSION; nd_nonce := b64_encode n |}.
Definition encode_dek_nonce (n : bytes) : result CryptoError bytes := Ok (to_vec (nonce_document n)).

(** [encode_metadata_blobs]. *)
Definition encode_metadata_blobs (p : KdfParams) (w : WrappedKey) : result CryptoError (bytes * bytes * bytes) :=
  k ← encode_kdf_params p;
  d ← encode_wrapped_key w;
  n ← encode_dek_nonce (nonce w);
  Ok (k, d, n).

(** The document branch and the whole of [decode_kdf_params]. *)
Definition read_kdf_document (blob : bytes) : result CryptoError KdfParams :=
  doc ← parse_document (D := KdfDocument) blob;
  _ ← check_version (kd_v doc);
  _ ← check_magic_field (kd_magic doc) KDF_MAGIC_STR;
  _ ← check_alg_field (kd_alg doc) ALG_ARGON2ID;
  salt ← db_decode_exact_b64 (kd_salt doc) 16;
  Ok {| salt := salt; mem_cost := kd_mem_cost doc; time_cost := kd_time_cost doc;
        parallelism := kd_parallelism doc; output_length := kd_output_length doc |}.
Definition decode_kdf_params `{Bincode KdfParams} (blob : bytes) : result CryptoError KdfParams :=
  _ ← check_input_bounds blob;
  if starts_with KDF_MAGIC blob then read_kdf_document blob
  else ok_or (bincode_deserialize blob) (DecryptionFailed "kdf_params blob is neither a document nor legacy bincode").

(** [decode_wrapped_key]. *)
Definition read_wrap_document (blob : bytes) : result CryptoError WrappedKey :=
  doc ← parse_document (D := WrapDocument) blob;
  _ ← check_version (wd_v doc);
  _ ← check_magic_field (wd_magic doc) WRAP_MAGIC_STR;
  _ ← check_alg_field (wd_alg doc) ALG_A256GCM;
  dek ← decode_capped_b64 (wd_wrapped_dek doc) MAX_WRAPPED_DEK_BYTES;
  nonce ← db_decode_exact_b64 (wd_nonce doc) 12;
  tag ← db_decode_exact_b64 (wd_auth_tag doc) 16;
  Ok {| wrapped_dek := dek; nonce := nonce; auth_tag := tag; epoch_bound := wd_epoch_bound doc |}.
Definition decode_wrapped_key `{Bincode WrappedKey, Bincode LegacyWrappedKey} (blob : bytes)
    : result CryptoError WrappedKey :=
  _ ← check_input_bounds blob;
  if starts_with WRAP_MAGIC blob then read_wrap_document blob
  else match from_bincode_bytes blob with
       | Ok w => Ok w
       | Err _ => Err (DecryptionFailed "wrapped_dek blob is neither a document nor legacy bincode")
       end.

(** [decode_dek_nonce]: the nonce is a [[u8; 12]]. *)
Definition read_nonce_document (blob : bytes) : result CryptoError bytes :=
  doc ← parse_document (D := NonceDocument) blob;
  _ ← check_version (nd_v doc);
  _ ← check_magic_field (nd_magic doc) NONCE_MAGIC_STR;
  db_decode_exact_b64 (nd_nonce doc) 12.
Definition decode_dek_nonce `{Bincode bytes} (blob : bytes) : result CryptoError bytes :=
  _ ← check_input_bounds blob;
  if starts_with NONCE_MAGIC blob then read_nonce_document blob
  else ok_or (bincode_deserialize blob) (DecryptionFailed "dek_nonce blob is neither a document nor legacy bincode").

End DbWire.

#[global] Arguments MAX_DBWIRE_BYTES : simpl never.
#[global] Arguments db_decode_exact_b64 : simpl never.
#[global] Arguments decode_capped_b64 : simpl never.
#[global] Arguments starts_with : simpl never.

(** ** What the repository relies on of the JSON text of a flat document

    One object with its fields in declaration order, so it starts with the
    magic field and nests one deep; a byte of a string field takes at most six
    bytes of text, and names, punctuation and numbers that fit their machine
    type stay under 256 bytes (eight is assumed where six holds). *)

Definition in_u32 (z : Z) : Prop := 0 <= z < 2 ^ 32.

Class FlatJson (D : Type) `{SerdeBytes D} (name : string) (magic : D -> string) (strings : D -> list string)
    (in_range : D -> Prop) : Prop := {
  flat_starts : forall d, magic d = name -> starts_with (magic_prefix name) (to_vec d) = true;
  flat_depth : forall d, json_depth_exceeds (to_vec d) MAX_DBWIRE_DEPTH = false;
  flat_length : forall d, in_range d ->
    Z.of_nat (length (to_vec d)) <= 256 + 8 * Z.of_nat (sum_list (String.length <$> strings d));
}.

Definition kdf_strings (d : KdfDocument) : list string := [kd_magic d; kd_alg d; kd_salt d].
Definition kdf_in_range (d : KdfDocument) : Prop :=
  in_u32 (kd_v d) /\ in_u32 (kd_mem_cost d) /\ in_u32 (kd_time_cost d) /\ in_u32 (kd_parallelism d) /\
  in_u32 (kd_output_length d).
Definition wrap_strings (d : WrapDocument) : list string :=
  [wd_magic d; wd_alg d; wd_wrapped_dek d; wd_nonce d; wd_auth_tag d].
Definition nonce_strings (d : NonceDocument) : list string := [nd_magic d; nd_nonce d].

(** ** Properties *)

(** The shapes the in-memory types guarantee. *)
Definition kdf_params_wf (p : KdfParams) : Prop :=
  length (salt p) = 16%nat /\ in_u32 (mem_cost p) /\ in_u32 (time_cost p) /\ in_u32 (parallelism p) /\
  in_u32 (output_length p).
Definition wrapped_key_wf (w : WrappedKey) : Prop := length (nonce w) = 12%nat /\ length (auth_tag w) = 16%nat.

Section Properties.
Context `{Base64, !Base64Laws}.
Context `{SerdeBytes KdfDocument, !SerdeBytesLaws KdfDocument}.
Context `{SerdeBytes WrapDocument, !SerdeBytesLaws WrapDocument}.
Context `{SerdeBytes NonceDocument, !SerdeBytesLaws NonceDocument}.
Context `{!FlatJson KdfDocument KDF_MAGIC_STR kd_magic kdf_strings kdf_in_range}.
Context `{!FlatJson WrapDocument WRAP_MAGIC_STR wd_magic wrap_strings (fun d => in_u32 (wd_v d))}.
Context `{!FlatJson NonceDocument NONCE_MAGIC_STR nd_magic nonce_strings (fun d => in_u32 (nd_v d))}.

Lemma db_decode_exact_encode b n : Z.of_nat (length b) = n -> db_decode_exact_b64 (b64_encode b) n = Ok b.
Proof.
  intros <-. unfold db_decode_exact_b64, b64_chars. rewrite b64_encode_length, Z.eqb_refl. simpl.
  rewrite b64_decode_encode. simpl. by rewrite Z.eqb_refl.
Qed.

Lemma decode_capped_encode b n : Z.of_nat (length b) <= n -> decode_capped_b64 (b64_encode b) n = Ok b.
Proof.
  intros Hn. unfold decode_capped_b64. rewrite b64_encode_length.
  rewrite (proj2 (Z.ltb_ge _ _)) by (unfold b64_chars; Z.to_euclidean_division_equations; lia). simpl.
  rewrite b64_decode_encode. simpl. by rewrite (proj2 (Z.ltb_ge _ _)) by lia.
Qed.

(** A written document passes the gates of its reader. *)
Lemma written_gates {D} `{SerdeBytes D, !SerdeBytesLaws D} name magic strings in_range
    `{!FlatJson D name magic strings in_range} d :
  magic d = name -> in_range d -> Z.of_nat (sum_list (String.length <$> strings d)) <= 480 ->
  check_input_bounds (to_vec d) = Ok tt /\ starts_with (magic_prefix name) (to_vec d) = true /\
  parse_document (to_vec d) = Ok d.
Proof.
  intros Hm Hr Hs. pose proof (flat_starts d Hm) as Hst. pose proof (flat_length d Hr) as Hl. split_and!.
  - unfold check_input_bounds. rewrite bool_decide_false by (intros E; by rewrite E in Hst). simpl.
    unfold err_if. by rewrite (proj2 (Z.ltb_ge _ _)) by (unfold MAX_DBWIRE_BYTES; lia).
  - done.
  - unfold parse_document. rewrite flat_depth. simpl. by rewrite from_slice_to_vec.
Qed.

Lemma b64_length_le b n : Z.of_nat (length b) <= n -> Z.of_nat (String.length (b64_encode b)) <= b64_chars n.
Proof. intros. rewrite b64_encode_length. unfold b64_chars. Z.to_euclidean_division_equations; lia. Qed.

Lemma kdf_params_roundtrip `{Bincode KdfParams} p :
  kdf_params_wf p -> decode_kdf_params (to_vec (kdf_document p)) = Ok p.
Proof.
  intros (Hs & Hr). pose proof (b64_length_le (salt p) 16 ltac:(lia)) as Hl. change (b64_chars 16) with 24 in Hl.
  destruct (written_gates KDF_MAGIC_STR kd_magic kdf_strings kdf_in_range (kdf_document p)) as (Hb & Hst & Hp).
  - done.
  - split; [|exact Hr]. split; by vm_compute.
  - cbn -[String.length] in *. change (String.length KDF_MAGIC_STR) with 5%nat.
    change (String.length ALG_ARGON2ID) with 8%nat. lia.
  - unfold decode_kdf_params. rewrite Hb. simpl. unfold KDF_MAGIC. rewrite Hst. unfold read_kdf_document.
    rewrite Hp. simpl. rewrite db_decode_exact_encode by lia. simpl. by destruct p.
Qed.

Lemma wrapped_key_roundtrip `{Bincode WrappedKey, Bincode LegacyWrappedKey} w :
  wrapped_key_wf w -> Z.of_nat (length (wrapped_dek w)) <= MAX_WRAPPED_DEK_BYTES ->
  decode_wrapped_key (to_vec (wrap_document w)) = Ok w.
Proof.
  intros (Hn & Ht) Hd.
  pose proof (b64_length_le (wrapped_dek w) _ Hd) as L1. pose proof (b64_length_le (nonce w) 12 ltac:(lia)) as L2.
  pose proof (b64_length_le (auth_tag w) 16 ltac:(lia)) as L3. 
  change (b64_chars MAX_WRAPPED_DEK_BYTES) with 128 in L1. change (b64_chars 12) with 16 in L2.
  change (b64_chars 16) with 24 in L3.
  destruct (written_gates WRAP_MAGIC_STR wd_magic wrap_strings (fun d => in_u32 (wd_v d)) (wrap_document w))
    as (Hb & Hst & Hp).
  - done.
  - split; by vm_compute.
  - cbn -[String.length] in *. change (String.length WRAP_MAGIC_STR) with 6%nat.
    change (String.length ALG_A256GCM) with 7%nat. lia.
  - unfold decode_wrapped_key. rewrite Hb. simpl. unfold WRAP_MAGIC. rewrite Hst. unfold read_wrap_document.
    rewrite Hp. simpl. rewrite decode_capped_encode by done. simpl.
    rewrite !db_decode_exact_encode by lia. simpl. by destruct w.
Qed.

Lemma dek_nonce_roundtrip `{Bincode bytes} n :
  length n = 12%nat -> decode_dek_nonce (to_vec (nonce_document n)) = Ok n.
Proof.
  intros Hn. pose proof (b64_length_le n 12 ltac:(lia)) as L. change (b64_chars 12) with 16 in L.
  destruct (written_gates NONCE_MAGIC_STR nd_magic nonce_strings (fun d => in_u32 (nd_v d)) (nonce_document n))
    as (Hb & Hst & Hp).
  - done.
  - split; by vm_compute.
  - cbn -[String.length] in *. change (String.length NONCE_MAGIC_STR) with 7%nat. lia.
  - unfold decode_dek_nonce. rewrite Hb. simpl. unfold NONCE_MAGIC. rewrite Hst. unfold read_nonce_document.
    rewrite Hp. simpl. by rewrite db_decode_exact_encode by lia.
Qed.

(** What [encode_metadata_blobs] writes always fits the readers' size
    cap and is read back exactly, in each of the three columns, for every
    well-shaped parameter set and every wrap of a key of at most 96 bytes. *)
Theorem metadata_roundtrip `{Bincode KdfParams, Bincode WrappedKey, Bincode LegacyWrappedKey, Bincode bytes} p w :
  kdf_params_wf p -> wrapped_key_wf w -> Z.of_nat (length (wrapped_dek w)) <= MAX_WRAPPED_DEK_BYTES ->
  exists a b c, encode_metadata_blobs p w = Ok (a, b, c) /\
    decode_kdf_params a = Ok p /\ decode_wrapped_key b = Ok w /\ decode_dek_nonce c = Ok (nonce w).
Proof.
  intros Hp Hw Hd. do 3 eexists. split; [reflexivity|].
  split_and!; [by apply kdf_params_roundtrip|by apply wrapped_key_roundtrip|].
  apply dek_nonce_roundtrip, Hw.
Qed.

End Properties.

Section Dispatch.
Context `{Base64, SerdeBytes KdfDocument, SerdeBytes WrapDocument, SerdeBytes NonceDocument}.

Lemma db_decode_exact_length s n b : db_decode_exact_b64 s n = Ok b -> Z.of_nat (length b) = n.
Proof. unfold db_decode_exact_b64. intros Hd. result_inv. propify. by subst. Qed.

Lemma decode_capped_length s n b : decode_capped_b64 s n = Ok b -> Z.of_nat (length b) <= n.
Proof. unfold decode_capped_b64. intros Hd. result_inv. propify. by subst. Qed.

(** No format confusion: a wrapped-key blob that carries the magic is
    read the same way whatever the legacy decoder would make of it, and is
    accepted only as a current-version AES-256-GCM document of bounded size
    with a 12-byte nonce, a 16-byte tag and a wrapped key of at most 96
    bytes; a blob without it is accepted only by the legacy decoder. *)
Theorem wrapped_key_dispatch (current : Bincode WrappedKey) (legacy : Bincode LegacyWrappedKey) blob w :
  decode_wrapped_key blob = Ok w ->
  0 < Z.of_nat (length blob) <= MAX_DBWIRE_BYTES /\
  if starts_with WRAP_MAGIC blob
  then (forall (current' : Bincode WrappedKey) (legacy' : Bincode LegacyWrappedKey), decode_wrapped_key blob = Ok w) /\
    (exists doc, from_slice blob = Some doc /\ wd_magic doc = WRAP_MAGIC_STR /\ wd_v doc = DBWIRE_VERSION /\
       wd_alg doc = ALG_A256GCM /\ epoch_bound w = wd_epoch_bound doc) /\
    wrapped_key_wf w /\ Z.of_nat (length (wrapped_dek w)) <= MAX_WRAPPED_DEK_BYTES
  else from_bincode_bytes blob = Ok w.
Proof.
  intros Hd. pose proof Hd as Hall. unfold decode_wrapped_key, check_input_bounds in Hd. result_inv. propify.
  split; [destruct blob; [done|simpl in *; lia]|].
  destruct (starts_with WRAP_MAGIC blob) eqn:Hst; [|by destruct (from_bincode_bytes blob)].
  split; [by intros; unfold decode_wrapped_key in *; rewrite Hst in *|].
  unfold read_wrap_document, parse_document, check_version, check_magic_field, check_alg_field in Hd.
  result_inv. propify. subst w. unfold wrapped_key_wf. simpl.
  repeat match goal with
  | E : String.eqb _ _ = true |- _ => apply String.eqb_eq in E
  | E : db_decode_exact_b64 _ _ = Ok _ |- _ => apply db_decode_exact_length in E
  | E : decode_capped_b64 _ _ = Ok _ |- _ => apply decode_capped_length in E
  end.
  split_and!; [|lia..|done]. by eexists.
Qed.

End Dispatch.
