(* ===== verification/KeyDemo.v ===== *)
(** * Core: witnesses for the key hierarchy and its columns

    A concrete text for the flat documents (the magic prefix, then every field
    as a string of bits), which satisfies the laws assumed of [serde_json], and
    the witnesses of [Keyring] and [DbWire].  It models no code. *)

From S2P Require Import Prelude ThirdParty Aad Envelope CoreDemo Keyring DbWire.
From Stdlib Require Import ZArith Lia Strings.String Strings.Byte.
From stdpp Require Import base list option strings numbers countable.
Open Scope Z_scope.

(** ** Fields as bits *)

Definition fields_text (l : list positive) : bytes := mjoin (bits <$> l).

Fixpoint parse_fields (k : positive -> positive) (b : bytes) : list positive :=
  match b with
  | [] => []
  | Byte.x2e :: b => k xH :: parse_fields id b
  | Byte.x30 :: b => parse_fields (k ∘ xO) b
  | Byte.x31 :: b => parse_fields (k ∘ xI) b
  | _ => []
  end.

Lemma parse_fields_bits k p r : parse_fields k (bits p ++ r) = k p :: parse_fields id r.
Proof. revert k. induction p as [p IH|p IH|]; intros k; simpl; rewrite ?IH; done. Qed.

Lemma parse_fields_text l : parse_fields id (fields_text l) = l.
Proof. induction l as [|p l IH]; [done|]. change (fields_text (p :: l)) with (bits p ++ fields_text l). by rewrite parse_fields_bits, IH. Qed.

Lemma fields_text_plain l : Forall plain (fields_text l).
Proof. induction l as [|p l IH]; [constructor|]. apply Forall_app. split; [apply bits_plain|done]. Qed.

Definition flat_text (prefix : bytes) (l : list positive) : bytes := prefix ++ fields_text l.

Lemma flat_text_depth prefix l d :
  (forall rest, depth_scan MAX_DBWIRE_DEPTH 0 false false (prefix ++ rest) = depth_scan MAX_DBWIRE_DEPTH d false false rest) ->
  json_depth_exceeds (flat_text prefix l) MAX_DBWIRE_DEPTH = false.
Proof. intros Hp. unfold json_depth_exceeds, flat_text. rewrite Hp. apply depth_scan_plain, fields_text_plain. Qed.

Lemma bits_length p : length (bits p) = Pos.size_nat p.
Proof. induction p; simpl; auto. Qed.

Lemma size_nat_bound p n : Z.pos p < 2 ^ Z.of_nat n -> (Pos.size_nat p <= n)%nat.
Proof.
  revert p. induction n as [|n IH]; intros p Hp; [simpl in Hp; lia|].
  rewrite Nat2Z.inj_succ, Z.pow_succ_r in Hp by lia. destruct p as [p|p|]; simpl; [| |lia].
  all: specialize (IH p ltac:(lia)); lia.
Qed.

Lemma u32_field_length z : in_u32 z -> (length (bits (encode z)) <= 34)%nat.
Proof.
  intros [H1 H2]. rewrite bits_length. apply size_nat_bound.
  destruct z as [|p|p]; [done| |lia]. change (encode (Z.pos p)) with (p~0)%positive. lia.
Qed.

Lemma bool_field_length (b : bool) : (length (bits (encode b)) <= 4)%nat.
Proof. destruct b; vm_compute; lia. Qed.

Lemma string_pos_cons c (s : string) : Pos.size_nat (encode (String c s)) = (8 + Pos.size_nat (encode s))%nat.
Proof. by destruct c as [[] [] [] [] [] [] [] []]. Qed.

Lemma string_pos_size (s : string) : (Pos.size_nat (encode s) <= 8 * String.length s + 1)%nat.
Proof. induction s as [|c s IH]; [vm_compute; lia|]. rewrite string_pos_cons. simpl String.length. lia. Qed.

Lemma string_field_length (s : string) : (length (bits (encode s)) <= 8 * String.length s + 1)%nat.
Proof. rewrite bits_length. apply string_pos_size. Qed.

(** ** The three documents *)

Definition kdf_fields (d : KdfDocument) : list positive :=
  [encode (kd_magic d); encode (kd_v d); encode (kd_alg d); encode (kd_salt d); encode (kd_mem_cost d);
   encode (kd_time_cost d); encode (kd_parallelism d); encode (kd_output_length d)].
Definition kdf_of_fields (l : list positive) : option KdfDocument :=
  match l with
  | [m; v; a; s; mc; tc; p; o] =>
    m ← decode m; v ← decode v; a ← decode a; s ← decode s; mc ← decode mc; tc ← decode tc; p ← decode p; o ← decode o;
    Some {| kd_magic := m; kd_v := v; kd_alg := a; kd_salt := s; kd_mem_cost := mc; kd_time_cost := tc;
            kd_parallelism := p; kd_output_length := o |}
  | _ => None
  end.
#[export] Instance kdf_json : SerdeBytes KdfDocument := {|
  to_vec d := flat_text KDF_MAGIC (kdf_fields d);
  from_slice b := kdf_of_fields (parse_fields id (drop (length KDF_MAGIC) b)) |}.

Definition wrap_fields (d : WrapDocument) : list positive :=
  [encode (wd_magic d); encode (wd_v d); encode (wd_alg d); encode (wd_wrapped_dek d); encode (wd_nonce d);
   encode (wd_auth_tag d); encode (wd_epoch_bound d)].
Definition wrap_of_fields (l : list positive) : option WrapDocument :=
  match l with
  | [m; v; a; w; n; t; e] =>
    m ← decode m; v ← decode v; a ← decode a; w ← decode w; n ← decode n; t ← decode t; e ← decode e;
    Some {| wd_magic := m; wd_v := v; wd_alg := a; wd_wrapped_dek := w; wd_nonce := n; wd_auth_tag := t;
            wd_epoch_bound := e |}
  | _ => None
  end.
#[export] Instance wrap_json : SerdeBytes WrapDocument := {|
  to_vec d := flat_text WRAP_MAGIC (wrap_fields d);
  from_slice b := wrap_of_fields (parse_fields id (drop (length WRAP_MAGIC) b)) |}.

Definition nonce_fields (d : NonceDocument) : list positive :=
  [encode (nd_magic d); encode (nd_v d); encode (nd_nonce d)].
Definition nonce_of_fields (l : list positive) : option NonceDocument :=
  match l with
  | [m; v; n] =>
    m ← decode m; v ← decode v; n ← decode n; Some {| nd_magic := m; nd_v := v; nd_nonce := n |}
  | _ => None
  end.
#[export] Instance nonce_json : SerdeBytes NonceDocument := {|
  to_vec d := flat_text NONCE_MAGIC (nonce_fields d);
  from_slice b := nonce_of_fields (parse_fields id (drop (length NONCE_MAGIC) b)) |}.

Ltac flat_laws := intros d; cbn -[fields_text parse_fields KDF_MAGIC WRAP_MAGIC NONCE_MAGIC encode decode drop];
  unfold flat_text; rewrite drop_app_length, parse_fields_text;
  cbn -[encode decode]; rewrite !decode_encode; by destruct d.

#[export] Instance kdf_json_laws : SerdeBytesLaws KdfDocument.
Proof. flat_laws. Qed.
#[export] Instance wrap_json_laws : SerdeBytesLaws WrapDocument.
Proof. flat_laws. Qed.
#[export] Instance nonce_json_laws : SerdeBytesLaws NonceDocument.
Proof. flat_laws. Qed.

(** Every string and every number of a document within its share of bits. *)
Ltac field_bounds :=
  repeat match goal with
  | |- context [bits (@encode string _ _ ?s)] =>
    pose proof (string_field_length s); generalize dependent (bits (encode s)); intros
  | Hz : in_u32 ?z |- context [bits (@encode Z _ _ ?z)] =>
    pose proof (u32_field_length z Hz); generalize dependent (bits (encode z)); intros
  | |- context [bits (@encode bool _ _ ?b)] =>
    pose proof (bool_field_length b); generalize dependent (bits (encode b)); intros
  end.

#[export] Instance kdf_flat : FlatJson KdfDocument KDF_MAGIC_STR kd_magic kdf_strings kdf_in_range.
Proof.
  constructor; intros d.
  - intros _. apply starts_with_app.
  - by apply (flat_text_depth KDF_MAGIC _ 1).
  - intros (?&?&?&?&?). cbn -[KDF_MAGIC encode bits]. unfold flat_text, fields_text.
    cbn -[KDF_MAGIC encode bits]. rewrite !length_app. change (length KDF_MAGIC) with 16%nat. field_bounds.
    simpl length. lia.
Qed.
#[export] Instance wrap_flat : FlatJson WrapDocument WRAP_MAGIC_STR wd_magic wrap_strings (fun d => in_u32 (wd_v d)).
Proof.
  constructor; intros d.
  - intros _. apply starts_with_app.
  - by apply (flat_text_depth WRAP_MAGIC _ 1).
  - intros ?. cbn -[WRAP_MAGIC encode bits]. unfold flat_text, fields_text.
    cbn -[WRAP_MAGIC encode bits]. rewrite !length_app. change (length WRAP_MAGIC) with 17%nat. field_bounds.
    simpl length. lia.
Qed.
#[export] Instance nonce_flat : FlatJson NonceDocument NONCE_MAGIC_STR nd_magic nonce_strings (fun d => in_u32 (nd_v d)).
Proof.
  constructor; intros d.
  - intros _. apply starts_with_app.
  - by apply (flat_text_depth NONCE_MAGIC _ 1).
  - intros ?. cbn -[NONCE_MAGIC encode bits]. unfold flat_text, fields_text.
    cbn -[NONCE_MAGIC encode bits]. rewrite !length_app. change (length NONCE_MAGIC) with 18%nat. field_bounds.
    simpl length. lia.
Qed.

(** A legacy decoder that knows no blob. *)
#[export] Instance no_bincode A : Bincode A := fun _ => None.

(** ** A vault *)

Definition demo_salt : bytes := repeat Byte.x05 16.
Definition demo_salt2 : bytes := repeat Byte.x06 16.
Definition demo_password : bytes := [Byte.x70; Byte.x31].
Definition demo_password2 : bytes := [Byte.x70; Byte.x32].
Definition demo_params : KdfParams := kdf_default demo_salt.
Definition demo_key : bytes := match derive_master_key demo_password demo_params with Ok k => k | Err _ => [] end.
Definition demo_open : KeyHierarchy := {| master_key := Some demo_key; kh_dek := Some demo_dek |}.
Definition demo_wrap : WrappedKey :=
  match wrap_dek demo_gcm_nonce demo_open with
  | Ok w => w
  | Err _ => {| wrapped_dek := []; nonce := []; auth_tag := []; epoch_bound := false |}
  end.
Definition demo_rotated : KdfParams * WrappedKey * bytes :=
  match rotate_master_password demo_salt2 demo_gcm_nonce demo_open demo_password demo_params demo_wrap 7 demo_password2 with
  | Ok r => r
  | Err _ => (demo_params, demo_wrap, [])
  end.

Lemma derive_master_key_bounded_witness :
  MIN_MEM_COST_KIB <= 262144 <= MAX_MEM_COST_KIB /\ MIN_TIME_COST <= 3 <= MAX_TIME_COST /\
  MIN_PARALLELISM <= 4 <= MAX_PARALLELISM /\ MIN_OUTPUT_LENGTH <= 32 <= MAX_OUTPUT_LENGTH /\ length demo_key = 32%nat.
Proof. apply (derive_master_key_bounded demo_password demo_params demo_key). vm_compute. reflexivity. Defined.

Lemma initialize_then_unlock_witness :
  kh_dek demo_open = Some demo_dek /\
  exists h3, unlock_vault demo_password demo_params demo_wrap new_hierarchy = (Ok tt, h3) /\
    kh_dek h3 = Some demo_dek /\ master_key h3 = master_key demo_open.
Proof.
  apply (initialize_then_unlock demo_salt demo_dek demo_gcm_nonce demo_password new_hierarchy demo_params demo_wrap
    demo_open new_hierarchy).
  - reflexivity.
  - vm_compute. reflexivity.
Defined.

Lemma rotation_preserves_dek_witness :
  exists dek mk, kh_dek demo_open = Some dek /\ demo_password2 <> demo_password /\
    derive_master_key demo_password demo_params = Ok mk /\
    unwrap_dek_under_key mk demo_wrap (wrap_aad demo_wrap 7) = Ok dek /\
    epoch_bound demo_rotated.1.2 = true /\
    exists h3, unlock_vault_with_epoch demo_password2 demo_rotated.1.1 demo_rotated.1.2 (7 + 1) new_hierarchy = (Ok tt, h3) /\
      kh_dek h3 = Some dek /\ master_key h3 = Some demo_rotated.2 /\
      kh_dek (adopt_master_key demo_rotated.2 demo_open) = Some dek /\
      master_key (adopt_master_key demo_rotated.2 demo_open) = Some demo_rotated.2.
Proof.
  apply (rotation_preserves_dek demo_salt2 demo_gcm_nonce demo_open demo_password demo_params demo_wrap 7 demo_password2
    demo_rotated.1.1 demo_rotated.1.2 demo_rotated.2 new_hierarchy).
  vm_compute. reflexivity.
Defined.

(** ** Its columns *)

Lemma metadata_roundtrip_witness :
  exists a b c, encode_metadata_blobs demo_params demo_wrap = Ok (a, b, c) /\
    decode_kdf_params a = Ok demo_params /\ decode_wrapped_key b = Ok demo_wrap /\
    decode_dek_nonce c = Ok (nonce demo_wrap).
Proof.
  apply (metadata_roundtrip demo_params demo_wrap).
  - repeat split; by vm_compute.
  - split; by vm_compute.
  - by vm_compute.
Defined.

Definition demo_wrap_blob : bytes := to_vec (wrap_document demo_wrap).

Lemma wrapped_key_dispatch_witness :
  0 < Z.of_nat (length demo_wrap_blob) <= MAX_DBWIRE_BYTES /\
  if starts_with WRAP_MAGIC demo_wrap_blob
  then (forall (current' : Bincode WrappedKey) (legacy' : Bincode LegacyWrappedKey),
          decode_wrapped_key demo_wrap_blob = Ok demo_wrap) /\
    (exists doc, from_slice demo_wrap_blob = Some doc /\ wd_magic doc = WRAP_MAGIC_STR /\
       wd_v doc = DBWIRE_VERSION /\ wd_alg doc = ALG_A256GCM /\ epoch_bound demo_wrap = wd_epoch_bound doc) /\
    wrapped_key_wf demo_wrap /\ Z.of_nat (length (wrapped_dek demo_wrap)) <= MAX_WRAPPED_DEK_BYTES
  else from_bincode_bytes demo_wrap_blob = Ok demo_wrap.
Proof. apply (wrapped_key_dispatch (no_bincode _) (no_bincode _) demo_wrap_blob demo_wrap). vm_compute. reflexivity. Defined.
