(* ===== verification/SyncWire.v ===== *)
(** * Core: the sync v2 wire schema on the client ([sync/v2.rs])

    Mutations, their canonical metadata, the metadata MAC and the derived
    idempotency key.  SHA-256, HMAC and HKDF are parameters: the theorems turn
    a forgery that a receiver would accept into a collision. *)

From S2P Require Import Prelude ThirdParty Envelope.
From Stdlib Require Import ZArith Lia Strings.String Strings.Byte.
From stdpp Require Import base list option strings numbers.
Open Scope Z_scope.

Definition METADATA_MAC_KEY_INFO : bytes := as_bytes "sentinelpass-sync-metadata-mac-v2".
Definition METADATA_MAC_VERSION : bytes := as_bytes "sp-sync-v2-meta/1".

(** [SyncEntryType] ([sync/models.rs]). *)
Inductive SyncEntryType := TCredential | TSshKey | TTotpSecret.
#[global] Instance SyncEntryType_eq_dec : EqDecision SyncEntryType.
Proof. solve_decision. Defined.

(** [object_type_tag]. *)
Definition object_type_tag (t : SyncEntryType) : string :=
  match t with
  | TCredential => "credential"
  | TSshKey => "ssh_key"
  | TTotpSecret => "totp_secret"
  end.

(** [b'|']. *)
Definition bar : Byte.byte := Byte.x7c.

Record MutationMetadata := {
  mm_vault_id : Uuid;
  mm_object_id : Uuid;
  mm_object_type : SyncEntryType;
  mm_expected_version : Z;      (* u64 *)
  mm_resulting_version : Z;     (* u64 *)
  mm_key_epoch : Z;             (* i64 *)
  mm_origin_device_id : Uuid;
  mm_is_tombstone : bool;
  mm_mutation_id : Uuid;
  mm_payload_sha256 : bytes;
}.

(** [MutationMetadata::canonical_bytes]. *)
Definition canonical_bytes (m : MutationMetadata) : bytes :=
  METADATA_MAC_VERSION ++ bar ::
  uuid_as_bytes (mm_vault_id m) ++ bar ::
  uuid_as_bytes (mm_object_id m) ++ bar ::
  as_bytes (object_type_tag (mm_object_type m)) ++ bar ::
  to_be_bytes 8 (mm_expected_version m) ++ bar ::
  to_be_bytes 8 (mm_resulting_version m) ++ bar ::
  to_be_bytes 8 (mm_key_epoch m) ++ bar ::
  uuid_as_bytes (mm_origin_device_id m) ++ bar ::
  (if mm_is_tombstone m then Byte.x01 else Byte.x00) :: bar ::
  uuid_as_bytes (mm_mutation_id m) ++ bar ::
  mm_payload_sha256 m.

(** The newtypes [DeviceSequence], [ObjectVersion] and [ServerCursor]. *)
Record DeviceSequence := { ds : Z }.
Record ObjectVersion := { ov : Z }.
Record ServerCursor := { sc : Z }.

Definition INITIAL : ObjectVersion := {| ov := 0 |}.

(** [ObjectVersion::next]: [checked_add]. *)
Definition next (v : ObjectVersion) : option ObjectVersion :=
  if ov v + 1 <? 2 ^ 64 then Some {| ov := ov v + 1 |} else None.

(** [ServerCursor::at_or_below]. *)
Definition at_or_below (c high_water : ServerCursor) : bool := sc c <=? sc high_water.

Record MutationV2 := {
  mutation_id : Uuid;
  vault_id : Uuid;
  object_id : Uuid;
  object_type : SyncEntryType;
  expected_version : ObjectVersion;
  resulting_version : ObjectVersion;
  key_epoch : Z;
  origin_device_id : Uuid;
  is_tombstone : bool;
  encrypted_payload : bytes;
  metadata_mac : bytes;         (* [u8; 32] *)
}.

Record MutationInput := {
  mi_vault_id : Uuid;
  mi_object_id : Uuid;
  mi_object_type : SyncEntryType;
  mi_expected_version : ObjectVersion;
  mi_resulting_version : ObjectVersion;
  mi_key_epoch : Z;
  mi_origin_device_id : Uuid;
  mi_is_tombstone : bool;
  mi_encrypted_payload : bytes;
}.

(** [Uuid::from_bytes]. *)
Definition of_be_bytes (b : bytes) : Z := foldl (fun acc x => acc * 256 + Z_of_byte x) 0 b.
Definition uuid_from_bytes (b : bytes) : Uuid := from_u128 (Z.to_N (of_be_bytes b)).

(** [MUTATION_ID_NAMESPACE]. *)
Definition MUTATION_ID_NAMESPACE : Uuid := from_u128 0x73705f73796e635f7632000000000001%N.

(** The version and variant bits: [bytes[6] = (bytes[6] & 0x0f) | 0x50] and
    [bytes[8] = (bytes[8] & 0x3f) | 0x80]. *)
Definition masked (i : nat) (keep mark : Z) (b : bytes) : bytes :=
  alter (fun x => byte_of_Z (Z.lor (Z.land (Z_of_byte x) keep) mark)) i b.
Definition set_version_bits (b : bytes) : bytes := masked 8 0x3f 0x80 (masked 6 0x0f 0x50 b).

Section Wire.
Context `{Sha256, Hmac, Base64}.

(** [derive_metadata_mac_key]. *)
Definition derive_metadata_mac_key (dek : bytes) : result CryptoError bytes :=
  ok_or (hkdf_expand dek METADATA_MAC_KEY_INFO 32) (KdfFailed "sync metadata MAC key derivation failed").

(** [MutationMetadata::mac] and [verify_mac]; HMAC takes keys of any size. *)
Definition mac (m : MutationMetadata) (mac_key : bytes) : result CryptoError bytes :=
  Ok (hmac_sha256 mac_key (canonical_bytes m)).
Definition verify_mac (m : MutationMetadata) (mac_key tag : bytes) : result CryptoError bool :=
  Ok (bool_decide (hmac_sha256 mac_key (canonical_bytes m) = tag)).

(** [base64_mac]. *)
Definition mac_serialize (tag : bytes) : string := b64_encode tag.
Definition mac_deserialize (s : string) : option bytes :=
  b ← b64_decode s; if (length b =? 32)%nat then Some b else None.

(** [mutation_id_for]. *)
Definition mutation_preimage (vault object : Uuid) (v : ObjectVersion) : bytes :=
  uuid_as_bytes MUTATION_ID_NAMESPACE ++ uuid_as_bytes vault ++ uuid_as_bytes object ++ to_be_bytes 8 (ov v).
Definition mutation_id_for (vault object : Uuid) (v : ObjectVersion) : Uuid :=
  uuid_from_bytes (set_version_bits (take 16 (sha256 (mutation_preimage vault object v)))).

(** [build_mutation]. *)
Definition build_mutation (mac_key : bytes) (i : MutationInput) : result CryptoError MutationV2 :=
  let id := mutation_id_for (mi_vault_id i) (mi_object_id i) (mi_resulting_version i) in
  tag ← mac {| mm_vault_id := mi_vault_id i; mm_object_id := mi_object_id i; mm_object_type := mi_object_type i;
               mm_expected_version := ov (mi_expected_version i);
               mm_resulting_version := ov (mi_resulting_version i); mm_key_epoch := mi_key_epoch i;
               mm_origin_device_id := mi_origin_device_id i; mm_is_tombstone := mi_is_tombstone i;
               mm_mutation_id := id; mm_payload_sha256 := sha256 (mi_encrypted_payload i) |} mac_key;
  Ok {| mutation_id := id; vault_id := mi_vault_id i; object_id := mi_object_id i; object_type := mi_object_type i;
        expected_version := mi_expected_version i; resulting_version := mi_resulting_version i;
        key_epoch := mi_key_epoch i; origin_device_id := mi_origin_device_id i; is_tombstone := mi_is_tombstone i;
        encrypted_payload := mi_encrypted_payload i; metadata_mac := tag |}.

(** [verify_mutation_mac]. *)
Definition metadata_of (m : MutationV2) : MutationMetadata := {|
  mm_vault_id := vault_id m; mm_object_id := object_id m; mm_object_type := object_type m;
  mm_expected_version := ov (expected_version m); mm_resulting_version := ov (resulting_version m);
  mm_key_epoch := key_epoch m; mm_origin_device_id := origin_device_id m; mm_is_tombstone := is_tombstone m;
  mm_mutation_id := mutation_id m; mm_payload_sha256 := sha256 (encrypted_payload m) |}.
Definition verify_mutation_mac (mac_key : bytes) (m : MutationV2) : result CryptoError bool :=
  verify_mac (metadata_of m) mac_key (metadata_mac m).
End Wire.

(** ** Properties *)

(** The ranges of the machine integers. *)
Definition metadata_wf (m : MutationMetadata) : Prop :=
  in_u64 (mm_expected_version m) /\ in_u64 (mm_resulting_version m) /\ in_i64 (mm_key_epoch m).
Definition mutation_wf (m : MutationV2) : Prop :=
  in_u64 (ov (expected_version m)) /\ in_u64 (ov (resulting_version m)) /\ in_i64 (key_epoch m).

Lemma app_cons_inj (a c b d : bytes) x : length a = length c -> a ++ x :: b = c ++ x :: d -> a = c /\ b = d.
Proof. intros Hl E. apply app_inj_length in E as [-> E]; [|done]. by injection E as ->. Qed.

Lemma u64_be_inj x y : in_u64 x -> in_u64 y -> to_be_bytes 8 x = to_be_bytes 8 y -> x = y.
Proof.
  unfold in_u64. intros Hx Hy E%to_be_bytes_inj. change (256 ^ Z.of_nat 8) with (2 ^ 64) in E.
  by rewrite !Z.mod_small in E.
Qed.

Lemma i64_be_inj x y : in_i64 x -> in_i64 y -> to_be_bytes 8 x = to_be_bytes 8 y -> x = y.
Proof.
  unfold in_i64. intros Hx Hy E%to_be_bytes_inj. change (256 ^ Z.of_nat 8) with (2 ^ 64) in E.
  Z.to_euclidean_division_equations. lia.
Qed.

(** A type tag and the bar after it can be told from what follows. *)
Lemma type_tag_inj t u (b d : bytes) :
  as_bytes (object_type_tag t) ++ bar :: b = as_bytes (object_type_tag u) ++ bar :: d -> t = u /\ b = d.
Proof. destruct t, u; simpl; intros E; by simplify_eq. Qed.

Lemma canonical_inj m1 m2 :
  metadata_wf m1 -> metadata_wf m2 -> canonical_bytes m1 = canonical_bytes m2 -> m1 = m2.
Proof.
  intros (E1 & R1 & K1) (E2 & R2 & K2) Hc. unfold canonical_bytes in Hc.
  apply app_cons_inj in Hc as [_ Hc]; [|done].
  apply app_cons_inj in Hc as [Hv Hc]; [|by rewrite !uuid_as_bytes_length].
  apply app_cons_inj in Hc as [Ho Hc]; [|by rewrite !uuid_as_bytes_length].
  apply type_tag_inj in Hc as [Ht Hc].
  do 3 (apply app_cons_inj in Hc as [? Hc]; [|by rewrite !to_be_bytes_length]).
  apply app_cons_inj in Hc as [Hd Hc]; [|by rewrite !uuid_as_bytes_length].
  apply (app_cons_inj [_] [_]) in Hc as [Hb Hc]; [|done].
  apply app_cons_inj in Hc as [Hm Hp]; [|by rewrite !uuid_as_bytes_length].
  apply uuid_as_bytes_inj in Hv, Ho, Hd, Hm.
  assert (mm_is_tombstone m1 = mm_is_tombstone m2) by by destruct (mm_is_tombstone m1), (mm_is_tombstone m2).
  destruct m1, m2; simpl in *. f_equal; auto using u64_be_inj, i64_be_inj.
Qed.

Lemma of_be_bytes_snoc b x : of_be_bytes (b ++ [x]) = of_be_bytes b * 256 + Z_of_byte x.
Proof. unfold of_be_bytes. by rewrite foldl_app. Qed.

Lemma of_be_bytes_range b : 0 <= of_be_bytes b < 256 ^ Z.of_nat (length b).
Proof.
  induction b as [|x b IH] using rev_ind; [done|]. rewrite of_be_bytes_snoc, length_app, Nat2Z.inj_add, Z.pow_add_r by lia.
  change (256 ^ Z.of_nat (length [x])) with 256. pose proof (Z_of_byte_range x). nia.
Qed.

Lemma to_be_bytes_app n z x : to_be_bytes (S n) (z * 256 + Z_of_byte x) = to_be_bytes n z ++ [x].
Proof.
  pose proof (Z_of_byte_range x) as Hx. induction n as [|n IH].
  - simpl. f_equal. apply Concrete.byte_of_Z_eq. change (256 ^ Z.of_nat 0) with 1. rewrite Z.div_1_r.
    rewrite Z.add_comm, Z_mod_plus_full. by apply Z.mod_small.
  - change (to_be_bytes (S (S n)) (z * 256 + Z_of_byte x))
      with (byte_of_Z ((z * 256 + Z_of_byte x) / 256 ^ Z.of_nat (S n)) :: to_be_bytes (S n) (z * 256 + Z_of_byte x)).
    rewrite IH. simpl. do 2 f_equal. rewrite Nat2Z.inj_succ, Z.pow_succ_r by lia.
    rewrite <- Z.div_div by (try apply Z.pow_nonzero; lia). f_equal. rewrite Z.div_add_l by lia.
    rewrite Z.div_small by lia. lia.
Qed.

Lemma to_of_be_bytes b : to_be_bytes (length b) (of_be_bytes b) = b.
Proof.
  induction b as [|x b IH] using rev_ind; [done|].
  rewrite length_app, Nat.add_comm, of_be_bytes_snoc. simpl (length [x] + _)%nat.
  by rewrite to_be_bytes_app, IH.
Qed.

Lemma of_to_be_bytes n z : of_be_bytes (to_be_bytes n z) = z mod 256 ^ Z.of_nat n.
Proof.
  pose proof (of_be_bytes_range (to_be_bytes n z)) as Hr. rewrite to_be_bytes_length in Hr.
  pose proof (to_of_be_bytes (to_be_bytes n z)) as E. rewrite to_be_bytes_length in E. apply to_be_bytes_inj in E.
  by rewrite (Z.mod_small (of_be_bytes _)) in E.
Qed.

Lemma uuid_as_from_bytes b : length b = 16%nat -> uuid_as_bytes (uuid_from_bytes b) = b.
Proof.
  intros Hl. pose proof (of_be_bytes_range b) as Hr. rewrite Hl in Hr.
  change (256 ^ Z.of_nat 16) with (Z.of_N (2 ^ 128)) in Hr.
  unfold uuid_as_bytes, uuid_from_bytes, from_u128, as_u128. simpl proj1_sig.
  rewrite N.mod_small by lia. rewrite Z2N.id by lia. rewrite <- Hl at 1. apply to_of_be_bytes.
Qed.

Section Forgery.
Context `{Sha256, Hmac, Base64} `{!Sha256Laws, !Base64Laws}.

(** The hashed coordinates determine vault, object and version. *)
Lemma mutation_preimage_inj v1 o1 r1 v2 o2 r2 :
  in_u64 (ov r1) -> in_u64 (ov r2) -> mutation_preimage v1 o1 r1 = mutation_preimage v2 o2 r2 ->
  v1 = v2 /\ o1 = o2 /\ r1 = r2.
Proof.
  intros R1 R2 E. unfold mutation_preimage in E.
  apply app_inv_head in E. apply app_inj_length in E as [Hv E]; [|by rewrite !uuid_as_bytes_length].
  apply app_inj_length in E as [Ho E]; [|by rewrite !uuid_as_bytes_length].
  apply uuid_as_bytes_inj in Hv, Ho. apply u64_be_inj in E; [|done..].
  destruct r1, r2; simpl in *. by subst.
Qed.

(** A built mutation carries the identifier its coordinates derive, and its
    MAC verifies. *)
Lemma build_mutation_verifies mac_key i m :
  build_mutation mac_key i = Ok m ->
  verify_mutation_mac mac_key m = Ok true /\
  mutation_id m = mutation_id_for (vault_id m) (object_id m) (resulting_version m).
Proof.
  unfold build_mutation. intros [= <-]. split; [|done].
  unfold verify_mutation_mac, verify_mac. simpl. by rewrite bool_decide_true.
Qed.

Lemma build_mutation_id mac_key i m :
  build_mutation mac_key i = Ok m ->
  mutation_id m = mutation_id_for (mi_vault_id i) (mi_object_id i) (mi_resulting_version i).
Proof. unfold build_mutation. by intros [= <-]. Qed.

Definition preimage_of (i : MutationInput) : bytes :=
  mutation_preimage (mi_vault_id i) (mi_object_id i) (mi_resulting_version i).

(** The relay cannot rewrite a mutation: if a receiver accepts, under the
    MAC of a mutation a paired device built, a mutation that differs in any
    field (identity, type, versions, epoch, origin, tombstone state, mutation
    id or payload), then their canonical metadata collide under HMAC-SHA256
    with the vault's MAC key, or their payloads under SHA-256. *)
Theorem mutation_mac_binds mac_key i m m' :
  build_mutation mac_key i = Ok m -> mutation_wf m -> mutation_wf m' ->
  metadata_mac m' = metadata_mac m -> verify_mutation_mac mac_key m' = Ok true ->
  m' = m \/
  collision (hmac_sha256 mac_key) (canonical_bytes (metadata_of m')) (canonical_bytes (metadata_of m)) \/
  collision sha256 (encrypted_payload m') (encrypted_payload m).
Proof.
  intros Hb W W' Ht Hv. apply build_mutation_verifies in Hb as [Hm _].
  unfold verify_mutation_mac, verify_mac in Hm, Hv. injection Hm as Hm. injection Hv as Hv. propify.
  destruct (decide (canonical_bytes (metadata_of m') = canonical_bytes (metadata_of m))) as [E|E].
  - apply canonical_inj in E; [|exact W'|exact W].
    destruct (decide (encrypted_payload m' = encrypted_payload m)) as [P|P].
    + left. unfold metadata_of in E. injection E as ?????????.
      destruct m as [????[?][?]?????], m' as [????[?][?]?????]; simpl in *. by subst.
    + right; right. split; [done|]. exact (f_equal mm_payload_sha256 E).
  - right; left. split; [exact E|]. congruence.
Qed.

Lemma take_sha256_length b : length (take 16 (sha256 b)) = 16%nat.
Proof. rewrite length_take, sha256_length. lia. Qed.

Lemma set_version_bits_length b : length (set_version_bits b) = length b.
Proof. unfold set_version_bits, masked. by rewrite !length_alter. Qed.

(** The identifier's bytes are the marked digest: version 5, RFC variant. *)
Lemma mutation_id_bytes v o r :
  uuid_as_bytes (mutation_id_for v o r) = set_version_bits (take 16 (sha256 (mutation_preimage v o r))).
Proof. apply uuid_as_from_bytes. by rewrite set_version_bits_length, take_sha256_length. Qed.

(** Idempotency keys: retries of one edit derive one key, whatever the
    payload, epoch or device; and two edits with the same key are the same
    edit of the same object of the same vault, or their digests agree on the
    122 bits that the version marks leave. *)
Theorem mutation_id_unique k1 k2 i1 i2 m1 m2 :
  build_mutation k1 i1 = Ok m1 -> build_mutation k2 i2 = Ok m2 ->
  in_u64 (ov (mi_resulting_version i1)) -> in_u64 (ov (mi_resulting_version i2)) ->
  let coordinates i := (mi_vault_id i, mi_object_id i, mi_resulting_version i) in
  (coordinates i1 = coordinates i2 -> mutation_id m1 = mutation_id m2) /\
  (mutation_id m1 = mutation_id m2 -> coordinates i1 = coordinates i2 \/
     collision (fun b => set_version_bits (take 16 (sha256 b))) (preimage_of i1) (preimage_of i2)).
Proof.
  intros B1 B2 R1 R2 coordinates. rewrite (build_mutation_id _ _ _ B1), (build_mutation_id _ _ _ B2). split.
  - intros E. unfold coordinates in E. congruence.
  - intros E. apply (f_equal uuid_as_bytes) in E. rewrite !mutation_id_bytes in E.
    match type of E with set_version_bits (take 16 (sha256 ?a)) = set_version_bits (take 16 (sha256 ?b)) =>
      destruct (decide (a = b)) as [P|P] end.
    + left. apply mutation_preimage_inj in P as (?&?&?); [|done..]. unfold coordinates. congruence.
    + right. by split.
Qed.

(** The MAC travels as base64 and comes back. *)
Lemma mac_serialize_roundtrip tag : length tag = 32%nat -> mac_deserialize (mac_serialize tag) = Some tag.
Proof. intros Hl. unfold mac_deserialize, mac_serialize. rewrite b64_decode_encode. simpl. by rewrite Hl. Qed.

(** A received MAC has 32 bytes. *)
Lemma mac_deserialize_length s tag : mac_deserialize s = Some tag -> length tag = 32%nat.
Proof.
  unfold mac_deserialize. destruct (b64_decode s) as [b|]; simpl; [|done].
  destruct (length b =? 32)%nat eqn:E; [|done]. intros [= <-]. by apply Nat.eqb_eq.
Qed.

(** Versions never wrap. *)
Lemma next_no_wrap v v' : in_u64 (ov v) -> next v = Some v' -> in_u64 (ov v') /\ ov v < ov v'.
Proof. unfold next, in_u64. intros Hv. destruct (_ <? _) eqn:E; [|done]. propify. intros [= <-]. simpl. lia. Qed.
End Forgery.

(** ** Witnesses *)

Module Demo.
Import Concrete.

Definition key : bytes := repeat Byte.x01 32.
Definition input (payload : bytes) : MutationInput := {|
  mi_vault_id := from_u128 1; mi_object_id := from_u128 2; mi_object_type := TCredential;
  mi_expected_version := {| ov := 4 |}; mi_resulting_version := {| ov := 5 |}; mi_key_epoch := 0;
  mi_origin_device_id := from_u128 3; mi_is_tombstone := false; mi_encrypted_payload := payload |}.
Definition mutation (payload : bytes) : MutationV2 := {|
  mutation_id := mutation_id_for (from_u128 1) (from_u128 2) {| ov := 5 |};
  vault_id := from_u128 1; object_id := from_u128 2; object_type := TCredential;
  expected_version := {| ov := 4 |}; resulting_version := {| ov := 5 |}; key_epoch := 0;
  origin_device_id := from_u128 3; is_tombstone := false; encrypted_payload := payload;
  metadata_mac := hmac_sha256 key (canonical_bytes {|
    mm_vault_id := from_u128 1; mm_object_id := from_u128 2; mm_object_type := TCredential;
    mm_expected_version := 4; mm_resulting_version := 5; mm_key_epoch := 0; mm_origin_device_id := from_u128 3;
    mm_is_tombstone := false; mm_mutation_id := mutation_id_for (from_u128 1) (from_u128 2) {| ov := 5 |};
    mm_payload_sha256 := sha256 payload |}) |}.

Lemma built payload : build_mutation key (input payload) = Ok (mutation payload).
Proof. reflexivity. Qed.

Lemma mutation_mac_binds_witness :
  let m := mutation [Byte.x41] in
  m = m \/ collision (hmac_sha256 key) (canonical_bytes (metadata_of m)) (canonical_bytes (metadata_of m)) \/
  collision sha256 (encrypted_payload m) (encrypted_payload m).
Proof.
  apply (mutation_mac_binds key (input [Byte.x41]) (mutation [Byte.x41]) (mutation [Byte.x41])).
  - apply built.
  - unfold mutation_wf, in_u64, in_i64. simpl. lia.
  - unfold mutation_wf, in_u64, in_i64. simpl. lia.
  - reflexivity.
  - unfold verify_mutation_mac, verify_mac. by rewrite bool_decide_true.
Defined.

Lemma mutation_id_unique_witness :
  let coordinates i := (mi_vault_id i, mi_object_id i, mi_resulting_version i) in
  (coordinates (input [Byte.x41]) = coordinates (input [Byte.x42]) ->
     mutation_id (mutation [Byte.x41]) = mutation_id (mutation [Byte.x42])) /\
  (mutation_id (mutation [Byte.x41]) = mutation_id (mutation [Byte.x42]) ->
     coordinates (input [Byte.x41]) = coordinates (input [Byte.x42]) \/
     collision (fun b => set_version_bits (take 16 (sha256 b)))
       (preimage_of (input [Byte.x41])) (preimage_of (input [Byte.x42]))).
Proof.
  apply (mutation_id_unique key key (input [Byte.x41]) (input [Byte.x42]) (mutation [Byte.x41]) (mutation [Byte.x42])).
  - apply built.
  - apply built.
  - unfold in_u64. simpl. lia.
  - unfold in_u64. simpl. lia.
Defined.
End Demo.
