(* ===== verification/CoreError.v ===== *)
(** * Core: the error type of the client library ([lib.rs])

    Texts that come from a library or only decorate a message are left out. *)

From S2P Require Import Prelude Envelope.
From Stdlib Require Import ZArith Strings.String.
From stdpp Require Import base strings.
Open Scope Z_scope.

Inductive DatabaseError :=
| Sqlite
| Serialization
| SchemaMismatch (expected found : Z)
| UnsupportedFutureSchema (found supported : Z)
| UnsupportedFutureFormat (found supported : Z)
| OtherDb (m : string).

Inductive PasswordManagerError :=
| Crypto (e : CryptoError)
| Database (e : DatabaseError)
| VaultLocked
| LockedOut (remaining : Z)
| InvalidInput (m : string)
| EpochRollback (on_disk high_water : Z)
| NotFound (m : string)
| SyncDeferred (m : string)
| SlotRegistryTampered
| NotImplemented (m : string)
| MaintenanceLockHeld
| IoError.

Abbreviation Res := (result PasswordManagerError).

(** [map_err]. *)
Definition map_err {E F A} (f : E -> F) (r : result E A) : result F A :=
  match r with Ok a => Ok a | Err e => Err (f e) end.

Lemma map_err_ok {E F A} (f : E -> F) (r : result E A) a : map_err f r = Ok a -> r = Ok a.
Proof. destruct r; simpl; congruence. Qed.
