(* ===== verification/EpochGuard.v ===== *)
(** * Core: the epoch high-water sidecar ([vault/epoch_guard.rs])

    A file beside the vault database records the highest key epoch seen and a
    digest of the key material.  The file is its content, [None] when it is
    absent or not readable; every operation returns its result and the file
    after it.  A write goes to a temporary file that is renamed, so it happens
    as a whole or not at all: [io] says whether it succeeds.

    The guard is a state machine over the recorded mark: [run_guard] applies
    any sequence of operations, with writes that may fail. *)

From S2P Require Import Prelude Text ThirdParty Envelope Keyring CoreError SyncWire.
From Stdlib Require Import ZArith Lia Strings.String Strings.Ascii Strings.Byte.
From stdpp Require Import base list option strings numbers.
Open Scope Z_scope.

Definition MAGIC : string := "sentinelpass-epoch-hwm/3".

(** [u64::to_le_bytes] of a length. *)
Definition len_le (b : bytes) : bytes := reverse (to_be_bytes 8 (Z.of_nat (length b))).

(** What [digest_of] feeds to the hash. *)
Definition digest_preimage (kdf_params wrapped_dek dek_nonce registry_mac : bytes) (key_epoch : Z) : bytes :=
  mjoin ((fun blob => len_le blob ++ blob) <$> [kdf_params; wrapped_dek; dek_nonce; registry_mac])
  ++ i64_to_le_bytes key_epoch.

Section Digest.
Context `{Sha256}.
Definition digest_of (kdf_params wrapped_dek dek_nonce registry_mac : bytes) (key_epoch : Z) : bytes :=
  sha256 (digest_preimage kdf_params wrapped_dek dek_nonce registry_mac key_epoch).
End Digest.

Inductive EpochCheck :=
| Current
| HealPending (from to : Z)
| MintedFromAbsent (epoch : Z).

Record Sidecar := {
  sc_vault_uuid : string;
  sc_epoch : Z;          (* i64 *)
  sc_digest_hex : string;
}.

(** [parse].  [to_lowercase] is the ASCII one here: no other character
    lowers to a hexadecimal digit, and any other is refused. *)
Definition parse (contents : string) : option Sidecar :=
  match lines contents with
  | magic :: l =>
    if negb (String.eqb magic MAGIC) then None
    else match l with
         | uuid_line :: epoch_line :: digest_line :: _ =>
           let vault_uuid := trim uuid_line in
           epoch ← parse_i64 (trim epoch_line);
           let digest_hex := to_ascii_lowercase (trim digest_line) in
           if is_empty vault_uuid || negb (String.length digest_hex =? 64)%nat ||
              negb (all_chars is_ascii_hexdigit digest_hex) then None
           else Some {| sc_vault_uuid := vault_uuid; sc_epoch := epoch; sc_digest_hex := digest_hex |}
         | _ => None
         end
  | [] => None
  end.

Abbreviation File := (option string).

Definition newline (s : string) : string := s +:+ String NL EmptyString.

(** [write]: four lines, or an error and the old file. *)
Definition sidecar_text (vault_uuid : string) (epoch : Z) (digest : bytes) : string :=
  newline MAGIC +:+ (newline vault_uuid +:+ (newline (i64_display epoch) +:+ newline (hex digest))).
Definition write (io : bool) (vault_uuid : string) (epoch : Z) (digest : bytes) (f : File) : Res unit * File :=
  if io then (Ok tt, Some (sidecar_text vault_uuid epoch digest)) else (Err IoError, f).

(** [fs::read_to_string(path).ok().and_then(|c| parse(&c))]. *)
Definition read_sidecar (f : File) : option Sidecar := f ≫= parse.

Definition refusal (what : string) : PasswordManagerError := InvalidInput what.

Definition peek (f : File) : option (string * Z) :=
  (fun s => (sc_vault_uuid s, sc_epoch s)) <$> read_sidecar f.
Definition peek_full (f : File) : option (string * Z * string) :=
  (fun s => (sc_vault_uuid s, sc_epoch s, sc_digest_hex s)) <$> read_sidecar f.

(** [i64::saturating_add(1)]. *)
Definition i64_saturating_succ (z : Z) : Z := Z.min (z + 1) (2 ^ 63 - 1).

Definition check (io : bool) (vault_uuid : string) (db_epoch : Z) (digest : bytes) (f : File)
    : Res EpochCheck * File :=
  match read_sidecar f with
  | None =>
    match write io vault_uuid db_epoch digest f with
    | (Ok _, f) => (Ok (MintedFromAbsent db_epoch), f)
    | (Err e, f) => (Err e, f)
    end
  | Some s =>
    (if negb (String.eqb (sc_vault_uuid s) vault_uuid) then Err (refusal "epoch sidecar belongs to a different vault")
     else match db_epoch ?= sc_epoch s with
          | Lt => Err (EpochRollback db_epoch (sc_epoch s))
          | Gt =>
            if i64_saturating_succ (sc_epoch s) <? db_epoch then Err (refusal "vault epoch jumped")
            else Ok (HealPending (sc_epoch s) db_epoch)
          | Eq =>
            if String.eqb (sc_digest_hex s) (hex digest) then Ok Current
            else Err (refusal "vault key material does not match the high-water record")
          end, f)
  end.

(** [i64] addition of one, without overflow checks. *)
Definition i64_wrapping_succ (z : Z) : Z := if z + 1 <? 2 ^ 63 then z + 1 else - 2 ^ 63.

Definition adopt_heal (io : bool) (vault_uuid : string) (from to : Z) (digest : bytes) (f : File)
    : Res unit * File :=
  match read_sidecar f with
  | None => (Err (InvalidInput "epoch sidecar vanished before the pending heal could be adopted"), f)
  | Some s =>
    if String.eqb (sc_vault_uuid s) vault_uuid && (sc_epoch s =? to) && String.eqb (sc_digest_hex s) (hex digest)
    then (Ok tt, f)
    else if negb (String.eqb (sc_vault_uuid s) vault_uuid) || negb (sc_epoch s =? from) ||
            negb (to =? i64_wrapping_succ from)
    then (Err (InvalidInput "refusing to adopt a heal that does not match the pending transition"), f)
    else write io vault_uuid to digest f
  end.

Definition bump (io : bool) (vault_uuid : string) (new_epoch : Z) (digest : bytes) (f : File) : Res unit * File :=
  match read_sidecar f with
  | None => write io vault_uuid new_epoch digest f
  | Some s =>
    if negb (String.eqb (sc_vault_uuid s) vault_uuid)
    then (Err (refusal "epoch sidecar belongs to a different vault; refusing to bump"), f)
    else if new_epoch <? sc_epoch s then (Err (EpochRollback new_epoch (sc_epoch s)), f)
    else write io vault_uuid new_epoch digest f
  end.

Definition rebase (io : bool) (vault_uuid : string) (epoch : Z) (digest : bytes) (f : File) : Res unit * File :=
  write io vault_uuid epoch digest f.

(** ** The text of the file *)

(** What the callers pass: a printable identifier, an [i64] and 32 bytes. *)
Definition mark_wf (vault_uuid : string) (epoch : Z) (digest : bytes) : Prop :=
  all_chars graphic vault_uuid = true /\ vault_uuid <> EmptyString /\ in_i64 epoch /\ length digest = 32%nat.

Definition mark (vault_uuid : string) (epoch : Z) (digest : bytes) : Sidecar :=
  {| sc_vault_uuid := vault_uuid; sc_epoch := epoch; sc_digest_hex := hex digest |}.

Lemma append_assoc (a b c : string) : (a +:+ b) +:+ c = a +:+ (b +:+ c).
Proof. induction a as [|x a IH]; [done|]. exact (f_equal (String x) IH). Qed.

Lemma lines_newline l s : all_chars graphic l = true -> lines (newline l +:+ s) = l :: lines s.
Proof. intros Hl. unfold newline. rewrite append_assoc. by apply lines_line. Qed.

(** What [write] stores, [parse] reads back. *)
Lemma parse_sidecar_text vault_uuid epoch digest :
  mark_wf vault_uuid epoch digest ->
  parse (sidecar_text vault_uuid epoch digest) = Some (mark vault_uuid epoch digest).
Proof.
  intros (Hg & Hn & Hi & Hl). destruct (hex_text digest) as (Hh1 & Hh2 & Hh3).
  assert (lines (sidecar_text vault_uuid epoch digest) = [MAGIC; vault_uuid; i64_display epoch; hex digest]) as Hlines.
  { unfold sidecar_text. rewrite !lines_newline by (done || apply i64_display_graphic).
    change (newline (hex digest)) with (hex digest +:+ String NL EmptyString). by rewrite lines_line. }
  unfold parse. rewrite Hlines. rewrite String.eqb_refl. cbn [negb].
  rewrite !trim_graphic by (done || apply i64_display_graphic). rewrite parse_i64_display by done. cbn [mbind option_bind].
  rewrite Hh3, hex_length, Hl, Hh2. unfold is_empty. apply String.eqb_neq in Hn as ->. done.
Qed.

Lemma write_io io vault_uuid epoch digest f r f' :
  mark_wf vault_uuid epoch digest -> write io vault_uuid epoch digest f = (r, f') ->
  (r = Ok tt /\ read_sidecar f' = Some (mark vault_uuid epoch digest)) \/ (r = Err IoError /\ f' = f).
Proof.
  unfold write. intros Hw. destruct io; intros [= <- <-]; [left|by right].
  split; [done|]. simpl. by apply parse_sidecar_text.
Qed.

(** ** The verdict of the check *)

(** Against a recorded mark the check never writes, and accepts only the
    recorded epoch with the recorded digest, or the next epoch, which it does
    not adopt. *)
Lemma check_recorded io vault_uuid db_epoch digest f s r f' :
  read_sidecar f = Some s -> check io vault_uuid db_epoch digest f = (r, f') ->
  f' = f /\ forall v, r = Ok v ->
    sc_vault_uuid s = vault_uuid /\
    ((v = Current /\ db_epoch = sc_epoch s /\ sc_digest_hex s = hex digest) \/
     (v = HealPending (sc_epoch s) db_epoch /\ db_epoch = sc_epoch s + 1)).
Proof.
  intros Hr. unfold check. rewrite Hr. intros [= <- <-]. split; [done|]. intros v.
  destruct (String.eqb_spec (sc_vault_uuid s) vault_uuid) as [E|]; [|done]. simpl.
  destruct (Z.compare_spec db_epoch (sc_epoch s)); try done.
  - destruct (String.eqb_spec (sc_digest_hex s) (hex digest)); [|done]. intros [= <-]. auto.
  - unfold i64_saturating_succ. case_goal; [done|]. propify. intros [= <-]. split; [done|]. right. split; [done|]. lia.
Qed.

(** The only write of a check is the first one. *)
Lemma check_absent io vault_uuid db_epoch digest f r f' :
  mark_wf vault_uuid db_epoch digest -> read_sidecar f = None -> check io vault_uuid db_epoch digest f = (r, f') ->
  (r = Ok (MintedFromAbsent db_epoch) /\ read_sidecar f' = Some (mark vault_uuid db_epoch digest)) \/
  (r = Err IoError /\ f' = f).
Proof.
  intros Hw Hr. unfold check. rewrite Hr. destruct (write _ _ _ _ _) as [w f''] eqn:E.
  apply write_io in E as [[-> ?]|[-> ->]]; [| |done]; intros [= <- <-]; auto.
Qed.

(** ** The digest binds the columns *)

Definition blob_ok (b : bytes) : Prop := Z.of_nat (length b) < 2 ^ 64.

Lemma len_le_length b : length (len_le b) = 8%nat.
Proof. unfold len_le. by rewrite length_reverse, to_be_bytes_length. Qed.

Lemma reverse_inj' {A} (a b : list A) : reverse a = reverse b -> a = b.
Proof. intros H. by apply (inj reverse). Qed.

Lemma len_prefixed_inj a b (r s : bytes) :
  blob_ok a -> blob_ok b -> (len_le a ++ a) ++ r = (len_le b ++ b) ++ s -> a = b /\ r = s.
Proof.
  unfold blob_ok. intros Ha Hb E. rewrite <- !app_assoc in E.
  apply app_inj_length in E as [El E]; [|by rewrite !len_le_length].
  apply reverse_inj', u64_be_inj in El; [|unfold in_u64; lia..].
  apply app_inj_length in E; [done|lia].
Qed.

Lemma digest_preimage_inj k1 w1 n1 m1 e1 k2 w2 n2 m2 e2 :
  Forall blob_ok [k1; w1; n1; m1; k2; w2; n2; m2] -> in_i64 e1 -> in_i64 e2 ->
  digest_preimage k1 w1 n1 m1 e1 = digest_preimage k2 w2 n2 m2 e2 ->
  k1 = k2 /\ w1 = w2 /\ n1 = n2 /\ m1 = m2 /\ e1 = e2.
Proof.
  intros Hb Hi1 Hi2 E. repeat match goal with H : Forall _ (_ :: _) |- _ => inversion_clear H end. unfold digest_preimage in E.
  cbn [fmap list_fmap mjoin list_join] in E. rewrite <- !(app_assoc _ _ (i64_to_le_bytes _)) in E.
  do 3 (apply len_prefixed_inj in E as [-> E]; [|done..]).
  apply len_prefixed_inj in E as [-> E]; [|done..]. simpl in E.
  apply reverse_inj', i64_be_inj in E; done.
Qed.

(** ** The guard as a state machine *)

Inductive GuardOp :=
| GCheck (vault_uuid : string) (db_epoch : Z) (digest : bytes)
| GHeal (vault_uuid : string) (from to : Z) (digest : bytes)
| GBump (vault_uuid : string) (new_epoch : Z) (digest : bytes).

Definition run_op (o : GuardOp * bool) (f : File) : File :=
  match o with
  | (GCheck u e d, io) => snd (check io u e d f)
  | (GHeal u from to d, io) => snd (adopt_heal io u from to d f)
  | (GBump u e d, io) => snd (bump io u e d f)
  end.
Definition run_guard (ops : list (GuardOp * bool)) (f : File) : File := foldl (fun f o => run_op o f) f ops.

(** A heal is asked for with the pair of epochs a check returned, which rises
    ([check_recorded]). *)
Definition op_wf (o : GuardOp * bool) : Prop :=
  match o.1 with
  | GCheck u e d | GBump u e d => mark_wf u e d
  | GHeal u from to d => mark_wf u to d /\ from < to
  end.

Lemma run_op_monotone o f s :
  op_wf o -> read_sidecar f = Some s ->
  exists s', read_sidecar (run_op o f) = Some s' /\ sc_vault_uuid s' = sc_vault_uuid s /\ sc_epoch s <= sc_epoch s'.
Proof.
  destruct o as [[u e d|u from to d|u e d] io]; intros Hw Hr; simpl.
  - destruct (check io u e d f) as [r f'] eqn:E. eapply check_recorded in E as [-> _]; [|done]. eauto with lia.
  - destruct Hw as [Hw Hlt]. unfold adopt_heal. rewrite Hr. repeat case_goal; simpl; [by eauto with lia..|].
    propify. destruct (write io u to d f) as [r f'] eqn:E. apply write_io in E as [[_ E]|[_ ->]]; [| |done].
    + eexists. split; [done|]. simpl. apply String.eqb_eq in H. split; [by symmetry|lia].
    + eauto with lia.
  - unfold bump. rewrite Hr. repeat case_goal; simpl; [by eauto with lia..|].
    propify. destruct (write io u e d f) as [r f'] eqn:E. apply write_io in E as [[_ E]|[_ ->]]; [| |done].
    + eexists. split; [done|]. simpl. apply String.eqb_eq in Heqb. split; [by symmetry|lia].
    + eauto with lia.
Qed.

Lemma run_guard_monotone ops f s :
  Forall op_wf ops -> read_sidecar f = Some s ->
  exists s', read_sidecar (run_guard ops f) = Some s' /\ sc_vault_uuid s' = sc_vault_uuid s /\ sc_epoch s <= sc_epoch s'.
Proof.
  intros Hw. revert f s. induction Hw as [|o ops Ho Hw IH]; intros f s Hr; simpl; [eauto with lia|].
  destruct (run_op_monotone o f s Ho Hr) as (s1 & H1 & U1 & L1). destruct (IH _ _ H1) as (s2 & H2 & U2 & L2).
  exists s2. split; [done|]. split; [congruence|lia].
Qed.

Section Rollback.
Context `{Sha256}.

(** C34. Rollback protection.  Once a mark for a vault is recorded, and
    whatever checks, heals and bumps follow (of this vault or another, with
    writes that may fail), a database whose epoch is older is refused with the
    epochs in the error, a database of another vault is refused, and neither
    check changes the file.  At the recorded epoch a database passes only when
    its key-material columns are the recorded ones or collide with them under
    SHA-256. *)
Theorem stale_vault_refused ops f u e kdf wrap non mac :
  Forall op_wf ops -> read_sidecar f = Some (mark u e (digest_of kdf wrap non mac e)) -> in_i64 e ->
  Forall blob_ok [kdf; wrap; non; mac] ->
  (forall io e' d r f', e' < e -> check io u e' d (run_guard ops f) = (r, f') ->
     f' = run_guard ops f /\ exists high, r = Err (EpochRollback e' high) /\ e <= high) /\
  (forall io u' e' d r f', u' <> u -> check io u' e' d (run_guard ops f) = (r, f') ->
     f' = run_guard ops f /\ exists m, r = Err (InvalidInput m)) /\
  (forall io kdf' wrap' non' mac' v f', Forall blob_ok [kdf'; wrap'; non'; mac'] ->
     check io u e (digest_of kdf' wrap' non' mac' e) f = (Ok v, f') ->
     v = Current /\ f' = f /\
     ((kdf', wrap', non', mac') = (kdf, wrap, non, mac) \/
      collision sha256 (digest_preimage kdf' wrap' non' mac' e) (digest_preimage kdf wrap non mac e))).
Proof.
  intros Hw Hr He Hb. destruct (run_guard_monotone ops f _ Hw Hr) as (s & Hs & Hu & Hle). simpl in Hu, Hle. split_and!.
  - intros io e' d r f' Hlt. unfold check. rewrite Hs, Hu, String.eqb_refl. simpl.
    destruct (Z.compare_spec e' (sc_epoch s)); [lia| |lia]. intros [= <- <-]. eauto.
  - intros io u' e' d r f' Hne. unfold check. rewrite Hs, Hu.
    destruct (String.eqb_spec u u') as [->|]; [done|]. intros [= <- <-]. unfold refusal. eauto.
  - intros io kdf' wrap' non' mac' v f' Hb' Hc. eapply check_recorded in Hc as [-> Hc]; [|done].
    destruct (Hc v eq_refl) as (_ & [(-> & _ & E)|[_ E]]); simpl in E; [|lia]. apply hex_inj in E.
    split_and!; [done..|]. destruct (decide (digest_preimage kdf' wrap' non' mac' e = digest_preimage kdf wrap non mac e)) as [P|P].
    + left. apply digest_preimage_inj in P as (-> & -> & -> & -> & _); [done| |done..].
      apply Forall_app_2 with (l1 := [kdf'; wrap'; non'; mac']); done.
    + right. split; [done|]. by symmetry.
Qed.
End Rollback.

(** ** Witness *)

Module Demo.
Import Concrete.

Definition columns : bytes * bytes * bytes * bytes := ([Byte.x01], [Byte.x02; Byte.x03], [Byte.x04], []).
Definition digest (e : Z) : bytes := digest_of [Byte.x01] [Byte.x02; Byte.x03] [Byte.x04] [] e.
Definition file : File := Some (sidecar_text "vault" 3 (digest 3)).
Definition ops : list (GuardOp * bool) :=
  [(GBump "vault" 4 (digest 4), true); (GHeal "vault" 4 5 (digest 5), false); (GCheck "other" 1 (digest 1), true)].

Lemma demo_wf e : in_i64 e -> mark_wf "vault" e (digest e).
Proof. intros He. by split_and!. Qed.

Definition checked := check true "vault" 2 (digest 2) (run_guard ops file).

Lemma stale_vault_refused_witness :
  checked.2 = run_guard ops file /\ exists high, checked.1 = Err (EpochRollback 2 high) /\ 3 <= high.
Proof.
  refine (proj1 (stale_vault_refused ops file "vault" 3 [Byte.x01] [Byte.x02; Byte.x03] [Byte.x04] [] _ _ _ _)
    true 2 (digest 2) checked.1 checked.2 _ _).
  - repeat constructor; first [done | apply sha256_length].
  - simpl. apply parse_sidecar_text, demo_wf. done.
  - done.
  - repeat constructor.
  - lia.
  - unfold checked. apply surjective_pairing.
Defined.
End Demo.
