(* ===== verification/Recovery.v ===== *)
(** * Core: recovery keys ([vault/recovery.rs])

    256 bits of entropy as 52 Crockford base32 symbols and a CRC-10 checksum in
    two more.  [u8] and [u16] values are [Z]; the loops over bits are folds in
    the order of the source.  The checksum argument is linear algebra over
    bits: the CRC of a sum is the sum of the CRCs, so an error is detected when
    the error pattern itself has a nonzero CRC, and the patterns of one symbol
    are few enough to compute. *)

From S2P Require Import Prelude Text ThirdParty CoreError.
From Stdlib Require Import ZArith Lia ZifyNat Strings.String Strings.Ascii Strings.Byte.
From stdpp Require Import base list option strings numbers.
Open Scope Z_scope.

Definition RECOVERY_KEY_BYTES : nat := 32.
Definition BODY_SYMBOLS : nat := 52.
Definition CHECKSUM_SYMBOLS : nat := 2.
Definition TOTAL_SYMBOLS : nat := BODY_SYMBOLS + CHECKSUM_SYMBOLS.

Definition ALPHABET : bytes := as_bytes "0123456789ABCDEFGHJKMNPQRSTVWXYZ".

Definition CRC10_POLY : Z := 0x233.

(** [crc10]: a [u16] register; the shift drops what leaves it. *)
Definition crc_bit (crc : Z) : Z :=
  let crc := Z.land (Z.shiftl crc 1) 0xFFFF in
  if Z.land crc 0x400 =? 0 then crc else Z.lxor crc CRC10_POLY.
Definition crc_byte (crc byte : Z) : Z :=
  Nat.iter 8 crc_bit (Z.lxor crc (Z.shiftl byte 2)).
Definition crc_of (data : list Z) : Z := Z.land (foldl crc_byte 0 data) 0x3FF.
Definition crc10 (data : bytes) : Z := crc_of (Z_of_byte <$> data).

(** [slice::position]. *)
Fixpoint position (c : Byte.byte) (l : bytes) : option Z :=
  match l with
  | [] => None
  | x :: l => if Byte.eqb x c then Some 0 else Z.succ <$> position c l
  end.

Definition to_upper_byte (c : Byte.byte) : Byte.byte := byte_of_ascii (upper_char (ascii_of_byte c)).

Definition upper_value (c : Byte.byte) : option Z :=
  if Byte.eqb c Byte.x4f then Some 0                             (* O *)
  else if Byte.eqb c Byte.x49 || Byte.eqb c Byte.x4c then Some 1 (* I, L *)
  else position c ALPHABET.

Definition symbol_value (c : Byte.byte) : option Z :=
  let z := Z_of_byte c in
  if (48 <=? z) && (z <=? 57) then Some (z - 48)
  else if (65 <=? z) && (z <=? 90) then upper_value c
  else if (97 <=? z) && (z <=? 122) then upper_value (to_upper_byte c)
  else None.

(** [RecoveryKey::to_display_string]: the symbols, and their groups of six. *)
Definition body_value (key : list Z) (i : nat) : Z :=
  let bit := (i * 5)%nat in
  let byte := (bit / 8)%nat in
  let off := (bit mod 8)%nat in
  let window := Z.lor (Z.shiftl (nth byte key 0) 8) (default 0 (key !! S byte)) in
  Z.land (Z.shiftr window (11 - Z.of_nat off)) 0x1F.
Definition symbol (v : Z) : Byte.byte := nth (Z.to_nat v) ALPHABET Byte.x00.
Definition display_values (key : bytes) : list Z :=
  let crc := crc10 key in
  (body_value (Z_of_byte <$> key) <$> seq 0 BODY_SYMBOLS) ++ [Z.land (Z.shiftr crc 5) 0x1F; Z.land crc 0x1F].
Definition symbols (key : bytes) : bytes := symbol <$> display_values key.

Fixpoint group (i : nat) (syms : bytes) : bytes :=
  match syms with
  | [] => []
  | s :: syms =>
    (if (0 <? i)%nat && (i mod 6 =? 0)%nat then [Byte.x2d] else []) ++ s :: group (S i) syms
  end.
Definition to_display_string (key : bytes) : string := string_of_list_byte (group 0 (symbols key)).

(** [u8::is_ascii_whitespace]. *)
Definition is_ascii_whitespace (b : Byte.byte) : bool :=
  Byte.eqb b Byte.x20 || Byte.eqb b Byte.x09 || Byte.eqb b Byte.x0a || Byte.eqb b Byte.x0c || Byte.eqb b Byte.x0d.

Definition normalize (input : string) : bytes :=
  List.filter (fun b => negb (is_ascii_whitespace b) && negb (Byte.eqb b Byte.x2d)) (as_bytes input).

(** The reconstruction loop of [parse_recovery_key]: the array and [bitpos]. *)
Definition push_bit (v : Z) (st : list Z * nat) (shift : nat) : list Z * nat :=
  let '(bs, bitpos) := st in
  if (RECOVERY_KEY_BYTES * 8 <=? bitpos)%nat then (bs, bitpos)
  else
    let bit := Z.land (Z.shiftr v (Z.of_nat shift - 1)) 1 in
    (if bit =? 1 then alter (fun b => Z.lor b (Z.shiftl 1 (Z.of_nat (7 - bitpos mod 8)))) (bitpos / 8)%nat bs else bs,
     S bitpos).
Definition body_bytes (values : list Z) : list Z :=
  fst (foldl (fun st v => foldl (push_bit v) st [5; 4; 3; 2; 1]%nat) (repeat 0 RECOVERY_KEY_BYTES, 0%nat)
         (take BODY_SYMBOLS values)).

(** [parse_recovery_key]. *)
Definition parse_values (values : list Z) : Res bytes :=
  _ ← err_if (negb (Z.land (nth (BODY_SYMBOLS - 1) values 0) 0x0F =? 0))
        (InvalidInput "recovery key is malformed (padding bits set)");
  let bs := body_bytes values in
  let expected := crc_of bs in
  let provided := Z.lor (Z.shiftl (nth BODY_SYMBOLS values 0) 5) (nth (S BODY_SYMBOLS) values 0) in
  _ ← err_if (negb (expected =? provided)) (InvalidInput "recovery key checksum mismatch");
  Ok (byte_of_Z <$> bs).
Definition parse_recovery_key (input : string) : Res bytes :=
  let normalized := normalize input in
  _ ← err_if (negb (length normalized =? TOTAL_SYMBOLS)%nat) (InvalidInput "recovery key must be 54 characters");
  values ← ok_or (mapM symbol_value normalized) (InvalidInput "recovery key contains invalid character");
  parse_values values.

(** A run of the code. *)
Example display_zero :
  to_display_string (repeat Byte.x00 32) = "000000-000000-000000-000000-000000-000000-000000-000000-000000"%string.
Proof. vm_compute. reflexivity. Qed.
Example display_roundtrip_ff :
  parse_recovery_key (to_display_string (repeat Byte.xff 31 ++ [Byte.x01])) = Ok (repeat Byte.xff 31 ++ [Byte.x01]).
Proof. vm_compute. reflexivity. Qed.

(** ** Arrays of bytes as strings of bits *)

Definition is_byte (b : Z) : Prop := 0 <= b < 256.

(** Bit [p] of an array, most significant first. *)
Definition get_bit (bs : list Z) (p : nat) : bool := Z.testbit (nth (p / 8) bs 0) (7 - Z.of_nat (p mod 8)).

Ltac euclid := Z.to_euclidean_division_equations; lia.

Lemma byte_bits_high b n : is_byte b -> 8 <= n -> Z.testbit b n = false.
Proof.
  unfold is_byte. intros Hb Hn. rewrite <- (Z.mod_small b (2 ^ 8)) by lia. by apply Z.mod_pow2_bits_high.
Qed.

Lemma is_byte_bits b : 0 <= b -> (forall n, 8 <= n -> Z.testbit b n = false) -> is_byte b.
Proof.
  intros H0 Hb. unfold is_byte. enough (b = b mod 2 ^ 8) as -> by (apply Z.mod_pos_bound; lia).
  apply Z.bits_inj'. intros n Hn. destruct (Z.lt_ge_cases n 8).
  - by rewrite Z.mod_pow2_bits_low.
  - rewrite Z.mod_pow2_bits_high by lia. by apply Hb.
Qed.

Lemma nth_is_byte bs q : Forall is_byte bs -> is_byte (nth q bs 0).
Proof.
  intros Hf. destruct (Nat.lt_ge_cases q (length bs)).
  - rewrite Forall_forall in Hf. by apply Hf, nth_In.
  - rewrite nth_overflow by done. unfold is_byte. lia.
Qed.

(** Arrays with the same bits are equal. *)
Lemma get_bit_ext a b :
  length a = length b -> Forall is_byte a -> Forall is_byte b ->
  (forall p, (p < 8 * length a)%nat -> get_bit a p = get_bit b p) -> a = b.
Proof.
  intros Hl Ha Hb Hbits. apply (nth_ext _ _ 0 0); [done|]. intros q Hq.
  apply (nth_is_byte _ q) in Ha, Hb. apply Z.bits_inj'. intros n Hn.
  destruct (Z.lt_ge_cases n 8); [|by rewrite !byte_bits_high].
  specialize (Hbits (8 * q + Z.to_nat (7 - n))%nat ltac:(lia)). unfold get_bit in Hbits.
  replace ((8 * q + Z.to_nat (7 - n)) / 8)%nat with q in Hbits by (zify; euclid).
  replace (7 - Z.of_nat ((8 * q + Z.to_nat (7 - n)) mod 8)) with n in Hbits by (zify; euclid). done.
Qed.

(** ** Encoding: symbol [i] carries bits [5 i] to [5 i + 4] *)

Lemma body_value_bit key i j :
  Forall is_byte key -> (j < 5)%nat ->
  Z.testbit (body_value key i) (4 - Z.of_nat j) = get_bit key (5 * i + j).
Proof.
  intros Hk Hj. unfold body_value, get_bit.
  rewrite Z.land_spec. replace (Z.testbit 31 (4 - Z.of_nat j)) with true
    by (destruct j as [|[|[|[|[|]]]]]; [done..|lia]).
  rewrite andb_true_r, Z.shiftr_spec, Z.lor_spec, Z.shiftl_spec by lia.
  set (off := (i * 5 mod 8)%nat). set (byte := (i * 5 / 8)%nat).
  assert (default 0 (key !! S byte) = nth (S byte) key 0) as -> by (by rewrite nth_lookup).
  destruct (Nat.lt_ge_cases (off + j) 8).
  - rewrite (byte_bits_high (nth (S byte) key 0)) by (try lia; by apply nth_is_byte). rewrite orb_false_r.
    f_equal; [f_equal|]; subst off byte; zify; euclid.
  - rewrite (Z.testbit_neg_r (nth byte key 0)) by lia. rewrite orb_false_l.
    f_equal; [f_equal|]; subst off byte; zify; euclid.
Qed.

Lemma body_value_range key i : 0 <= body_value key i < 32.
Proof.
  unfold body_value. change 31 with (Z.ones 5). rewrite Z.land_ones by lia.
  apply (Z.mod_pos_bound _ (2 ^ 5)). lia.
Qed.

(** ** Decoding: the loop writes the stream of bits *)

Definition pushb (st : list Z * nat) (b : bool) : list Z * nat :=
  let '(bs, bitpos) := st in
  if (256 <=? bitpos)%nat then (bs, bitpos)
  else (if b then alter (fun x => Z.lor x (Z.shiftl 1 (Z.of_nat (7 - bitpos mod 8)))) (bitpos / 8)%nat bs else bs,
        S bitpos).

Lemma land_1_testbit v n : (Z.land (Z.shiftr v n) 1 =? 1) = Z.testbit v n.
Proof. rewrite (Z.testbit_odd v). change 1 with (Z.ones 1) at 1. rewrite Z.land_ones by lia.
  change (2 ^ 1) with 2. rewrite Zmod_odd. by destruct (Z.odd _). Qed.

Lemma push_bit_pushb v st s : push_bit v st s = pushb st (Z.testbit v (Z.of_nat s - 1)).
Proof.
  destruct st as [bs pos]. unfold push_bit, pushb. rewrite land_1_testbit.
  change (RECOVERY_KEY_BYTES * 8)%nat with 256%nat. done.
Qed.

Definition bits5 (v : Z) : list bool := (fun j => Z.testbit v j) <$> [4; 3; 2; 1; 0].

Lemma body_bytes_stream values :
  body_bytes values = fst (foldl pushb (repeat 0 32, 0%nat) (take 52 values ≫= bits5)).
Proof.
  unfold body_bytes. change BODY_SYMBOLS with 52%nat. change RECOVERY_KEY_BYTES with 32%nat. f_equal.
  generalize (repeat 0 32, 0%nat). induction (take 52 values) as [|v l IH]; intros st; [done|].
  change ((v :: l) ≫= bits5) with (bits5 v ++ (l ≫= bits5)). rewrite foldl_app. cbn [foldl].
  rewrite !push_bit_pushb. rewrite IH. done.
Qed.

Lemma stream_length l : length (l ≫= bits5) = (5 * length l)%nat.
Proof.
  induction l as [|v l IH]; [done|]. change ((v :: l) ≫= bits5) with (bits5 v ++ (l ≫= bits5)).
  rewrite length_app, IH. simpl. lia.
Qed.

Lemma nth_nil {A} (d : A) n : nth n [] d = d.
Proof. by destruct n. Qed.

Lemma stream_nth l p : nth p (l ≫= bits5) false = Z.testbit (nth (p / 5) l 0) (4 - Z.of_nat (p mod 5)).
Proof.
  revert p. induction l as [|v l IH]; intros p.
  - change ([] ≫= bits5) with (@nil bool). rewrite !nth_nil. by rewrite Z.testbit_0_l.
  - destruct p as [|[|[|[|[|p]]]]]; [done..|]. change (nth (S (S (S (S (S p))))) ((v :: l) ≫= bits5) false) with
      (nth p (l ≫= bits5) false). rewrite IH.
    replace (S (S (S (S (S p)))) / 5)%nat with (S (p / 5)) by (zify; euclid).
    replace (S (S (S (S (S p)))) mod 5)%nat with (p mod 5)%nat by (zify; euclid). done.
Qed.

(** Setting one bit. *)
Lemma set_bit_spec bs pos :
  length bs = 32%nat -> Forall is_byte bs -> (pos < 256)%nat ->
  let bs1 := alter (fun x => Z.lor x (Z.shiftl 1 (Z.of_nat (7 - pos mod 8)))) (pos / 8)%nat bs in
  length bs1 = 32%nat /\ Forall is_byte bs1 /\
  forall p, (p < 256)%nat -> get_bit bs1 p = get_bit bs p || (true && (p =? pos)%nat).
Proof.
  intros Hl Hf Hp bs1. set (m := Z.shiftl 1 _) in bs1.
  assert (forall n, 0 <= n -> Z.testbit m n = (n =? Z.of_nat (7 - pos mod 8))) as Hm.
  { intros n Hn. subst m. rewrite Z.shiftl_1_l, Z.pow2_bits_eqb by lia. apply Z.eqb_sym. }
  assert (forall q, (q < 32)%nat -> nth q bs1 0 = if (q =? pos / 8)%nat then Z.lor (nth q bs 0) m else nth q bs 0) as Hn.
  { intros q Hq. subst bs1. rewrite !nth_lookup. destruct (Nat.eqb_spec q (pos / 8)) as [->|].
    - rewrite list_lookup_alter_eq. destruct (lookup_lt_is_Some_2 bs (pos / 8)) as [x ->]; [lia|]. done.
    - by rewrite list_lookup_alter_ne by done. }
  split_and!.
  - subst bs1. by rewrite length_alter.
  - rewrite Forall_forall. intros x Hx. apply (In_nth _ _ 0) in Hx as (q & Hq & <-).
    subst bs1. rewrite length_alter in Hq. rewrite Hn by lia. pose proof (nth_is_byte _ q Hf).
    case_goal; [|done]. apply is_byte_bits.
    + apply Z.lor_nonneg. split; [apply H|]. subst m. apply Z.shiftl_nonneg. lia.
    + intros n Hn8. rewrite Z.lor_spec, byte_bits_high, Hm by (done || lia). apply Z.eqb_neq. lia.
  - intros p Hlt. unfold get_bit. rewrite Hn by (zify; euclid). rewrite andb_true_l.
    destruct (Nat.eqb_spec (p / 8) (pos / 8)) as [E|E].
    + rewrite Z.lor_spec. f_equal. rewrite Hm by lia. apply eq_true_iff_eq. rewrite Z.eqb_eq, Nat.eqb_eq.
      zify; euclid.
    + rewrite (proj2 (Nat.eqb_neq p pos)) by congruence. by rewrite orb_false_r.
Qed.

(** What the loop does to an array from position [pos] on. *)
Lemma pushb_spec l bs pos :
  length bs = 32%nat -> Forall is_byte bs -> (pos <= 256)%nat ->
  let bs' := fst (foldl pushb (bs, pos) l) in
  length bs' = 32%nat /\ Forall is_byte bs' /\
  forall p, (p < 256)%nat ->
    get_bit bs' p = get_bit bs p || (if (pos <=? p)%nat then nth (p - pos) l false else false).
Proof.
  revert bs pos. induction l as [|b l IH]; intros bs pos Hl Hf Hp; cbn [foldl].
  - split_and!; [done..|]. intros p _. rewrite nth_nil. destruct (pos <=? p)%nat; by rewrite orb_false_r.
  - assert (pushb (bs, pos) b = if (256 <=? pos)%nat then (bs, pos) else
      (if b then alter (fun x => Z.lor x (Z.shiftl 1 (Z.of_nat (7 - pos mod 8)))) (pos / 8)%nat bs else bs, S pos))
      as -> by done. destruct (Nat.leb_spec 256 pos).
    + destruct (IH bs pos Hl Hf Hp) as (Hl' & Hf' & Hb). split_and!; [done..|]. intros p Hlt. rewrite Hb by done.
      f_equal. by rewrite (proj2 (Nat.leb_gt pos p)) by lia.
    + set (bs1 := if b then _ else bs).
      assert (length bs1 = 32%nat /\ Forall is_byte bs1 /\
              forall p, (p < 256)%nat -> get_bit bs1 p = get_bit bs p || (b && (p =? pos)%nat)) as (Hl1 & Hf1 & Hb1).
      { subst bs1. destruct b; [|split_and!; [done..|]; intros; by rewrite orb_false_r]. by apply set_bit_spec. }
      destruct (IH bs1 (S pos) Hl1 Hf1 ltac:(lia)) as (Hl' & Hf' & Hb'). split_and!; [done..|].
      intros p Hlt. rewrite Hb', Hb1 by done. rewrite <- orb_assoc. f_equal.
      destruct (Nat.leb_spec (S pos) p), (Nat.leb_spec pos p); try lia.
      * replace (p - pos)%nat with (S (p - S pos)) by lia. simpl nth.
        rewrite (proj2 (Nat.eqb_neq p pos)) by lia. by rewrite andb_false_r.
      * replace (p - pos)%nat with 0%nat by lia. replace p with pos by lia. rewrite Nat.eqb_refl. simpl. by destruct b.
      * rewrite (proj2 (Nat.eqb_neq p pos)) by lia. by rewrite andb_false_r.
Qed.

Lemma body_bytes_spec values :
  length (body_bytes values) = 32%nat /\ Forall is_byte (body_bytes values) /\
  forall p, (p < 256)%nat ->
    get_bit (body_bytes values) p = Z.testbit (nth (p / 5) (take 52 values) 0) (4 - Z.of_nat (p mod 5)).
Proof.
  rewrite body_bytes_stream.
  destruct (pushb_spec (take 52 values ≫= bits5) (repeat 0 32) 0) as (Hl & Hf & Hb).
  - done.
  - apply Forall_forall. intros x Hx%repeat_spec. subst. unfold is_byte. lia.
  - lia.
  - split_and!; [done..|]. intros p Hp. rewrite Hb by done. simpl Nat.leb. rewrite Nat.sub_0_r, stream_nth.
    unfold get_bit. rewrite nth_repeat, Z.testbit_0_l. done.
Qed.

Lemma byte_list_ok (key : bytes) : Forall is_byte (Z_of_byte <$> key).
Proof. apply Forall_forall. intros x Hx. apply in_map_iff in Hx as (b & <- & _). apply Z_of_byte_range. Qed.

Lemma byte_of_Z_of_byte (key : bytes) : byte_of_Z <$> (Z_of_byte <$> key) = key.
Proof.
  rewrite <- list_fmap_compose. rewrite <- (list_fmap_id key) at 2. apply list_fmap_ext. intros i b _. simpl.
  apply Concrete.byte_of_Z_eq. apply Z.mod_small, Z_of_byte_range.
Qed.

(** Reading back the body of a key. *)
Lemma body_roundtrip (key : bytes) :
  length key = 32%nat -> body_bytes (display_values key) = Z_of_byte <$> key.
Proof.
  intros Hl. destruct (body_bytes_spec (display_values key)) as (Hl' & Hf & Hb).
  apply get_bit_ext; [by rewrite length_fmap, Hl, Hl'|done|apply byte_list_ok|].
  rewrite Hl'. intros p Hp. rewrite Hb by lia. unfold display_values.
  rewrite take_app_length' by (by rewrite length_fmap, length_seq).
  assert (nth (p / 5) (body_value (Z_of_byte <$> key) <$> seq 0 BODY_SYMBOLS) 0 = body_value (Z_of_byte <$> key) (p / 5)) as ->.
  { rewrite nth_lookup, list_lookup_fmap, lookup_seq_lt; [done|]. unfold BODY_SYMBOLS. zify; euclid. }
  rewrite body_value_bit; [|apply byte_list_ok|zify; euclid]. f_equal. zify; euclid.
Qed.

(** ** The checksum is linear *)

Lemma land_pow2_testbit x : (Z.land x 0x400 =? 0) = negb (Z.testbit x 10).
Proof.
  change 0x400 with (2 ^ 10). destruct (Z.testbit x 10) eqn:E; simpl.
  - apply Z.eqb_neq. intros H. apply (f_equal (fun z => Z.testbit z 10)) in H.
    by rewrite Z.land_spec, E, Z.pow2_bits_true, Z.testbit_0_l in H by lia.
  - apply Z.eqb_eq, Z.bits_inj'. intros n Hn. rewrite Z.land_spec, Z.pow2_bits_eqb, Z.testbit_0_l by lia.
    destruct (Z.eqb_spec 10 n) as [<-|]; [by rewrite E|by rewrite andb_false_r].
Qed.

Lemma land_lxor_distr a b m : Z.land (Z.lxor a b) m = Z.lxor (Z.land a m) (Z.land b m).
Proof.
  apply Z.bits_inj'. intros n Hn. rewrite !Z.land_spec, !Z.lxor_spec, !Z.land_spec.
  by destruct (Z.testbit a n), (Z.testbit b n), (Z.testbit m n).
Qed.

Lemma lxor_swap a b c d : Z.lxor (Z.lxor a b) (Z.lxor c d) = Z.lxor (Z.lxor a c) (Z.lxor b d).
Proof.
  apply Z.bits_inj'. intros n Hn. rewrite !Z.lxor_spec.
  by destruct (Z.testbit a n), (Z.testbit b n), (Z.testbit c n), (Z.testbit d n).
Qed.

Lemma crc_bit_linear a b : crc_bit (Z.lxor a b) = Z.lxor (crc_bit a) (crc_bit b).
Proof.
  unfold crc_bit. rewrite Z.shiftl_lxor, land_lxor_distr, !land_pow2_testbit, Z.lxor_spec.
  set (x := Z.land (Z.shiftl a 1) 0xFFFF). set (y := Z.land (Z.shiftl b 1) 0xFFFF).
  destruct (Z.testbit x 10), (Z.testbit y 10); simpl.
  - by rewrite lxor_swap, Z.lxor_nilpotent, Z.lxor_0_r.
  - by rewrite !Z.lxor_assoc, (Z.lxor_comm y).
  - by rewrite Z.lxor_assoc.
  - done.
Qed.

Lemma crc_byte_linear a b x y : crc_byte (Z.lxor a b) (Z.lxor x y) = Z.lxor (crc_byte a x) (crc_byte b y).
Proof.
  unfold crc_byte. rewrite Z.shiftl_lxor, lxor_swap.
  generalize (Z.lxor a (Z.shiftl x 2)) as u, (Z.lxor b (Z.shiftl y 2)) as w. intros u w.
  generalize 8%nat. induction n as [|n IH]; [done|]. rewrite !Nat.iter_succ, IH. apply crc_bit_linear.
Qed.

Lemma crc_of_linear x y :
  length x = length y -> crc_of (zip_with Z.lxor x y) = Z.lxor (crc_of x) (crc_of y).
Proof.
  intros Hl. unfold crc_of. rewrite <- land_lxor_distr. f_equal.
  enough (forall a b, foldl crc_byte (Z.lxor a b) (zip_with Z.lxor x y) = Z.lxor (foldl crc_byte a x) (foldl crc_byte b y))
    as H by apply (H 0 0).
  revert y Hl. induction x as [|v x IH]; intros [|w y] Hl a b; try done. simpl.
  rewrite crc_byte_linear. apply IH. by injection Hl.
Qed.

Lemma nth_zip_lxor x y q :
  length x = length y -> nth q (zip_with Z.lxor x y) 0 = Z.lxor (nth q x 0) (nth q y 0).
Proof.
  revert y q. induction x as [|v x IH]; intros [|w y] [|q] Hl; try done. simpl. apply IH. by injection Hl.
Qed.

Lemma body_bytes_linear v w :
  length v = length w -> body_bytes (zip_with Z.lxor v w) = zip_with Z.lxor (body_bytes v) (body_bytes w).
Proof.
  intros Hl. destruct (body_bytes_spec v) as (Lv & Fv & Bv), (body_bytes_spec w) as (Lw & Fw & Bw),
    (body_bytes_spec (zip_with Z.lxor v w)) as (Lz & Fz & Bz).
  assert (forall q, nth q (zip_with Z.lxor (body_bytes v) (body_bytes w)) 0 =
                    Z.lxor (nth q (body_bytes v) 0) (nth q (body_bytes w) 0)) as Hn.
  { intros q. apply nth_zip_lxor. congruence. }
  apply get_bit_ext.
  - rewrite length_zip_with. lia.
  - done.
  - apply Forall_forall. intros x Hx. apply (In_nth _ _ 0) in Hx as (q & Hq & <-). rewrite Hn.
    apply (nth_is_byte _ q) in Fv, Fw. apply is_byte_bits.
    + apply Z.lxor_nonneg. unfold is_byte in *. lia.
    + intros n Hn8. by rewrite Z.lxor_spec, !byte_bits_high.
  - rewrite Lz. intros p Hp. unfold get_bit at 2. rewrite Hn, Z.lxor_spec.
    change (get_bit (body_bytes (zip_with Z.lxor v w)) p = xorb (get_bit (body_bytes v) p) (get_bit (body_bytes w) p)).
    rewrite Bv, Bw, Bz, zip_with_take by lia. rewrite nth_zip_lxor by (rewrite !length_take; lia). apply Z.lxor_spec.
Qed.

(** ** Symbols *)

(** A property of every byte, by computation. *)
Lemma byte_cases (p : Byte.byte -> bool) :
  forallb (fun n => p (byte_of_Z (Z.of_nat n))) (seq 0 256) = true -> forall b, p b = true.
Proof.
  intros H b. rewrite forallb_forall in H. pose proof (Z_of_byte_range b) as Hr.
  rewrite <- (Concrete.byte_of_Z_eq (Z_of_byte b) b) by (by apply Z.mod_small).
  rewrite <- (Z2Nat.id (Z_of_byte b)) by lia. apply H, in_seq. lia.
Qed.

Definition kept (b : Byte.byte) : bool := negb (is_ascii_whitespace b) && negb (Byte.eqb b Byte.x2d).

Lemma symbol_ok v : 0 <= v < 32 -> symbol_value (symbol v) = Some v /\ kept (symbol v) = true.
Proof.
  intros Hv. assert (forallb (fun n => bool_decide (symbol_value (symbol (Z.of_nat n)) = Some (Z.of_nat n)) &&
    kept (symbol (Z.of_nat n))) (seq 0 32) = true) as H by (vm_compute; reflexivity).
  rewrite forallb_forall in H. specialize (H (Z.to_nat v)). rewrite in_seq, Z2Nat.id in H by lia.
  specialize (H ltac:(lia)). by propify.
Qed.

Lemma symbol_value_range c x : symbol_value c = Some x -> 0 <= x < 32.
Proof.
  intros H. assert (match symbol_value c with Some x => (0 <=? x) && (x <? 32) | None => true end = true) as H'.
  { clear H. revert c. apply byte_cases. vm_compute. reflexivity. }
  rewrite H in H'. propify. lia.
Qed.

Lemma display_values_length key : length (display_values key) = 54%nat.
Proof. reflexivity. Qed.

Lemma crc_of_range data : 0 <= crc_of data < 1024.
Proof.
  unfold crc_of. change 0x3FF with (Z.ones 10). rewrite Z.land_ones by lia. apply (Z.mod_pos_bound _ (2 ^ 10)). lia.
Qed.

Lemma checksum_roundtrip c :
  0 <= c < 1024 ->
  Z.lor (Z.shiftl (Z.land (Z.shiftr c 5) 0x1F) 5) (Z.land c 0x1F) = c /\
  0 <= Z.land (Z.shiftr c 5) 0x1F < 32 /\ 0 <= Z.land c 0x1F < 32.
Proof.
  intros Hc. assert (forallb (fun n => let c := Z.of_nat n in
    (Z.lor (Z.shiftl (Z.land (Z.shiftr c 5) 0x1F) 5) (Z.land c 0x1F) =? c) &&
    (0 <=? Z.land (Z.shiftr c 5) 0x1F) && (Z.land (Z.shiftr c 5) 0x1F <? 32) &&
    (0 <=? Z.land c 0x1F) && (Z.land c 0x1F <? 32)) (seq 0 1024) = true) as H by (vm_compute; reflexivity).
  rewrite forallb_forall in H. specialize (H (Z.to_nat c)). rewrite in_seq in H. cbv zeta in H.
  rewrite Z2Nat.id in H by lia. specialize (H ltac:(lia)). propify. lia.
Qed.

Lemma display_values_range key : Forall (fun v => 0 <= v < 32) (display_values key).
Proof.
  unfold display_values. apply Forall_app. split.
  - apply Forall_forall. intros v (i & <- & _)%in_map_iff. apply body_value_range.
  - destruct (checksum_roundtrip (crc10 key) ltac:(apply crc_of_range)) as (_ & ? & ?). repeat constructor; lia.
Qed.

Lemma mapM_symbols values :
  Forall (fun v => 0 <= v < 32) values -> mapM symbol_value (symbol <$> values) = Some values.
Proof.
  induction 1 as [|v l Hv Hl IH]; [done|]. cbn [fmap list_fmap mapM]. by rewrite (proj1 (symbol_ok v Hv)), IH.
Qed.

Lemma normalize_bytes l : normalize (string_of_list_byte l) = List.filter kept l.
Proof. unfold normalize, as_bytes. by rewrite list_byte_of_string_of_list_byte. Qed.

Lemma filter_group i syms : forallb kept syms = true -> List.filter kept (group i syms) = syms.
Proof.
  revert i. induction syms as [|s l IH]; intros i Hk; [done|]. cbn [forallb] in Hk. apply andb_true_iff in Hk as [Hs Hl].
  cbn [group]. rewrite filter_app. simpl. rewrite Hs, IH by done. by destruct (_ && _).
Qed.

Lemma normalize_display key : normalize (to_display_string key) = symbols key.
Proof.
  unfold to_display_string. rewrite normalize_bytes. apply filter_group. apply forallb_forall.
  unfold symbols. intros s (v & <- & Hv)%in_map_iff.
  pose proof (display_values_range key) as Hr. rewrite Forall_forall in Hr. by apply symbol_ok, Hr.
Qed.

Lemma nth_display key i : (i < 52)%nat -> nth i (display_values key) 0 = body_value (Z_of_byte <$> key) i.
Proof.
  intros Hi. unfold display_values. rewrite app_nth1 by (by rewrite length_fmap, length_seq).
  by rewrite nth_lookup, list_lookup_fmap, lookup_seq_lt by done.
Qed.

Lemma nth_display_crc key :
  nth 52 (display_values key) 0 = Z.land (Z.shiftr (crc10 key) 5) 0x1F /\
  nth 53 (display_values key) 0 = Z.land (crc10 key) 0x1F.
Proof.
  unfold display_values. generalize (crc10 key) as c. intros c.
  rewrite !app_nth2 by (rewrite length_fmap, length_seq; unfold BODY_SYMBOLS; lia).
  by rewrite length_fmap, length_seq.
Qed.

(** The last body symbol of a key has no padding bits set. *)
Lemma padding_zero key : length key = 32%nat -> Z.land (nth 51 (display_values key) 0) 0x0F = 0.
Proof.
  intros Hl. rewrite nth_display by lia.
  apply Z.bits_inj'. intros n Hn. rewrite Z.land_spec, Z.testbit_0_l.
  destruct (Z.lt_ge_cases n 4) as [Hlt|]; [|change 0x0F with (Z.ones 4); by rewrite Z.ones_spec_high, andb_false_r by lia].
  pose proof (body_value_bit (Z_of_byte <$> key) 51 (Z.to_nat (4 - n)) (byte_list_ok key) ltac:(lia)) as E.
  rewrite Z2Nat.id in E by lia. replace (4 - (4 - n)) with n in E by lia. rewrite E. unfold get_bit.
  rewrite nth_overflow; [by rewrite Z.testbit_0_l|]. rewrite length_fmap, Hl. zify; euclid.
Qed.

Lemma parse_values_ok values bs :
  Z.land (nth 51 values 0) 0x0F = 0 -> body_bytes values = bs ->
  crc_of bs = Z.lor (Z.shiftl (nth 52 values 0) 5) (nth 53 values 0) -> parse_values values = Ok (byte_of_Z <$> bs).
Proof.
  unfold parse_values. change (BODY_SYMBOLS - 1)%nat with 51%nat. change BODY_SYMBOLS with 52%nat.
  intros -> -> ->. by rewrite !Z.eqb_refl.
Qed.

Lemma parse_values_display key : length key = 32%nat -> parse_values (display_values key) = Ok key.
Proof.
  intros Hl. rewrite <- (byte_of_Z_of_byte key) at 2. destruct (nth_display_crc key) as [E1 E2].
  apply parse_values_ok; [by apply padding_zero|by apply body_roundtrip|]. rewrite E1, E2. symmetry.
  apply checksum_roundtrip, crc_of_range.
Qed.

Lemma parse_normalized t values :
  mapM symbol_value (normalize t) = Some values -> length values = 54%nat -> parse_recovery_key t = parse_values values.
Proof.
  intros Hm Hl. unfold parse_recovery_key. apply length_mapM in Hm as Hl'. rewrite Hm, Hl', Hl. done.
Qed.

(** Case does not matter. *)
Definition lower_byte (b : Byte.byte) : Byte.byte := byte_of_ascii (lower_char (ascii_of_byte b)).

Lemma lower_byte_ok b :
  bool_decide (symbol_value (lower_byte b) = symbol_value b) && Bool.eqb (kept (lower_byte b)) (kept b) = true.
Proof. revert b. apply byte_cases. vm_compute. reflexivity. Qed.

Lemma normalize_lower t : normalize (to_ascii_lowercase t) = lower_byte <$> normalize t.
Proof.
  unfold normalize. fold kept. induction t as [|a t IH]; [done|].
  change (as_bytes (to_ascii_lowercase (String a t))) with (byte_of_ascii (lower_char a) :: as_bytes (to_ascii_lowercase t)).
  change (as_bytes (String a t)) with (byte_of_ascii a :: as_bytes t).
  assert (byte_of_ascii (lower_char a) = lower_byte (byte_of_ascii a)) as ->
    by (unfold lower_byte; by rewrite ascii_of_byte_of_ascii).
  cbn [List.filter]. change (fun b => negb (is_ascii_whitespace b) && negb (Byte.eqb b Byte.x2d)) with kept in *.
  pose proof (lower_byte_ok (byte_of_ascii a)) as [_ E%eqb_prop]%andb_true_iff. rewrite E, IH.
  by destruct (kept (byte_of_ascii a)).
Qed.

Lemma mapM_lower l : mapM symbol_value (lower_byte <$> l) = mapM symbol_value l.
Proof.
  induction l as [|b l IH]; [done|]. cbn [fmap list_fmap mapM].
  pose proof (lower_byte_ok b) as [E%bool_decide_eq_true_1 _]%andb_true_iff. by rewrite E, IH.
Qed.

Lemma parse_lowercase t : parse_recovery_key (to_ascii_lowercase t) = parse_recovery_key t.
Proof. unfold parse_recovery_key. by rewrite normalize_lower, mapM_lower, length_fmap. Qed.

(** ** One wrong symbol *)

Definition pattern (i : nat) (d : Z) : list Z := <[i := d]> (repeat 0 54).

(** The bytes of a stream, eight bits at a time: a form that computes fast. *)
Fixpoint pack (n : nat) (l : list bool) : list Z :=
  match n with
  | O => []
  | S n => foldl (fun acc b => 2 * acc + Z.b2z b) 0 (take 8 l) :: pack n (drop 8 l)
  end.

Lemma take8_bits (l : list bool) r :
  (8 <= length l)%nat -> (r < 8)%nat ->
  is_byte (foldl (fun acc b => 2 * acc + Z.b2z b) 0 (take 8 l)) /\
  Z.testbit (foldl (fun acc b => 2 * acc + Z.b2z b) 0 (take 8 l)) (7 - Z.of_nat r) = nth r l false.
Proof.
  intros Hl Hr. destruct l as [|b0 [|b1 [|b2 [|b3 [|b4 [|b5 [|b6 [|b7 l]]]]]]]]; simpl in Hl; try lia. clear Hl.
  unfold is_byte. cbn [take foldl]. rewrite take_0. cbn [foldl].
  assert (forall b, 0 <= Z.b2z b <= 1) as Hb by (intros []; simpl; lia).
  split; [pose proof (Hb b0); pose proof (Hb b1); pose proof (Hb b2); pose proof (Hb b3); pose proof (Hb b4);
    pose proof (Hb b5); pose proof (Hb b6); pose proof (Hb b7); lia|]. clear Hb.
  destruct r as [|[|[|[|[|[|[|[|]]]]]]]]; [destruct b0, b1, b2, b3, b4, b5, b6, b7; reflexivity..|lia].
Qed.

Lemma pack_spec n l :
  (8 * n <= length l)%nat ->
  length (pack n l) = n /\ Forall is_byte (pack n l) /\ forall p, (p < 8 * n)%nat -> get_bit (pack n l) p = nth p l false.
Proof.
  revert l. induction n as [|n IH]; intros l Hl; cbn [pack].
  { split_and!; [done|constructor|intros; lia]. }
  destruct (IH (drop 8 l)) as (L & F & B); [rewrite length_drop; lia|]. split_and!.
  - simpl. by rewrite L.
  - constructor; [|done]. apply (take8_bits l 0); lia.
  - intros p Hp. destruct (Nat.lt_ge_cases p 8).
    + unfold get_bit. replace (p / 8)%nat with 0%nat by (zify; euclid). replace (p mod 8)%nat with p by (zify; euclid).
      cbn [nth]. apply take8_bits; lia.
    + specialize (B (p - 8)%nat ltac:(lia)). unfold get_bit in *. replace (p / 8)%nat with (S ((p - 8) / 8)) by (zify; euclid).
      replace (p mod 8)%nat with ((p - 8) mod 8)%nat by (zify; euclid). cbn [nth]. rewrite B, !nth_lookup, lookup_drop.
      do 2 f_equal. lia.
Qed.

Lemma body_bytes_pack values : length values = 54%nat -> body_bytes values = pack 32 (take 52 values ≫= bits5).
Proof.
  intros Hl. destruct (body_bytes_spec values) as (L & F & B).
  destruct (pack_spec 32 (take 52 values ≫= bits5)) as (L' & F' & B'); [rewrite stream_length, length_take; lia|].
  apply get_bit_ext; [congruence|done..|]. rewrite L. intros p Hp. rewrite B, B' by lia. by rewrite stream_nth.
Qed.

(** Every change of one body symbol that keeps the padding clear changes the
    checksum. *)
Lemma pattern_detected i d :
  (i < 52)%nat -> 0 < d < 32 -> (i = 51%nat -> Z.land d 0x0F = 0) -> crc_of (body_bytes (pattern i d)) <> 0.
Proof.
  intros Hi Hd Hp. rewrite body_bytes_pack by (unfold pattern; by rewrite length_insert, repeat_length).
  assert (forallb (fun i => forallb (fun d => (bool_decide (i = 51%nat) && negb (Z.land (Z.of_nat d) 0x0F =? 0)) ||
    negb (crc_of (pack 32 (take 52 (pattern i (Z.of_nat d)) ≫= bits5)) =? 0)) (seq 1 31)) (seq 0 52) = true) as H by (vm_compute; reflexivity).
  rewrite forallb_forall in H. specialize (H i). rewrite in_seq, forallb_forall in H. specialize (H ltac:(lia) (Z.to_nat d)).
  rewrite in_seq, Z2Nat.id in H by lia. specialize (H ltac:(lia)). 
  apply orb_true_iff in H as [[H1%bool_decide_eq_true_1 H2]%andb_true_iff|H]; [|by propify].
  by rewrite (Hp H1) in H2.
Qed.

Lemma insert_pattern values i x :
  length values = 54%nat -> (i < 54)%nat ->
  <[i := x]> values = zip_with Z.lxor values (pattern i (Z.lxor (nth i values 0) x)).
Proof.
  intros Hl Hi. unfold pattern. apply (nth_ext _ _ 0 0).
  - by rewrite length_zip_with, !length_insert, repeat_length, Hl.
  - intros q Hq. rewrite nth_zip_lxor by (by rewrite length_insert, repeat_length). rewrite length_insert in Hq.
    rewrite !(nth_lookup (<[i := _]> _)). destruct (decide (q = i)) as [->|].
    + rewrite !list_lookup_insert_eq by (rewrite ?repeat_length; lia). simpl.
      by rewrite <- Z.lxor_assoc, Z.lxor_nilpotent, Z.lxor_0_l.
    + rewrite !list_lookup_insert_ne by done. rewrite <- !nth_lookup, nth_repeat. by rewrite Z.lxor_0_r.
Qed.

Lemma nth_insert_ne (l : list Z) i j x : i <> j -> nth j (<[i := x]> l) 0 = nth j l 0.
Proof. intros Hij. rewrite !nth_lookup. by rewrite list_lookup_insert_ne. Qed.

Lemma nth_insert_eq (l : list Z) i x : (i < length l)%nat -> nth i (<[i := x]> l) 0 = x.
Proof. intros Hi. rewrite nth_lookup. by rewrite list_lookup_insert_eq. Qed.

Lemma lxor_range a b : 0 <= a < 32 -> 0 <= b < 32 -> a <> b -> 0 < Z.lxor a b < 32.
Proof.
  intros Ha Hb Hne. assert (0 <= Z.lxor a b < 32) as ?.
  { assert (forallb (fun n => forallb (fun m => (0 <=? Z.lxor (Z.of_nat n) (Z.of_nat m)) &&
      (Z.lxor (Z.of_nat n) (Z.of_nat m) <? 32)) (seq 0 32)) (seq 0 32) = true) as H by (vm_compute; reflexivity).
    rewrite forallb_forall in H. specialize (H (Z.to_nat a)). rewrite in_seq, forallb_forall in H.
    specialize (H ltac:(lia) (Z.to_nat b)). rewrite in_seq, !Z2Nat.id in H by lia. specialize (H ltac:(lia)). propify. lia. }
  enough (Z.lxor a b <> 0) by lia. by rewrite Z.lxor_eq_0_iff.
Qed.

Lemma lor_pair a b : 0 <= a < 32 -> 0 <= b < 32 -> Z.lor (Z.shiftl a 5) b = 32 * a + b.
Proof.
  intros Ha Hb. assert (forallb (fun n => forallb (fun m =>
    Z.lor (Z.shiftl (Z.of_nat n) 5) (Z.of_nat m) =? 32 * Z.of_nat n + Z.of_nat m) (seq 0 32)) (seq 0 32) = true) as H
    by (vm_compute; reflexivity).
  rewrite forallb_forall in H. specialize (H (Z.to_nat a)). rewrite in_seq, forallb_forall in H.
  specialize (H ltac:(lia) (Z.to_nat b)). rewrite in_seq, !Z2Nat.id in H by lia. specialize (H ltac:(lia)). by propify.
Qed.

Definition provided (values : list Z) : Z := Z.lor (Z.shiftl (nth 52 values 0) 5) (nth 53 values 0).

Section Changed.
Context (values : list Z) (Hl : length values = 54%nat) (Hr : Forall (fun v => 0 <= v < 32) values)
  (Hpad : Z.land (nth 51 values 0) 0x0F = 0) (Hcrc : crc_of (body_bytes values) = provided values)
  (i : nat) (x : Z) (Hi : (i < 54)%nat) (Hx : 0 <= x < 32) (Hne : x <> nth i values 0).

Lemma nth_range q : 0 <= nth q values 0 < 32.
Proof.
  destruct (Nat.lt_ge_cases q (length values)); [|rewrite nth_overflow by done; lia].
  rewrite Forall_forall in Hr. by apply Hr, nth_In.
Qed.

(** A changed body symbol: the padding test or the checksum differs. *)
Lemma changed_body :
  (i < 52)%nat -> Z.land (nth 51 (<[i := x]> values) 0) 0x0F = 0 ->
  crc_of (body_bytes (<[i := x]> values)) <> provided (<[i := x]> values).
Proof.
  intros Hb Hp E. unfold provided in E. rewrite !nth_insert_ne in E by lia. fold (provided values) in E.
  rewrite insert_pattern, body_bytes_linear, crc_of_linear, <- Hcrc in E; try done.
  - apply (f_equal (Z.lxor (crc_of (body_bytes values)))) in E.
    rewrite <- Z.lxor_assoc, Z.lxor_nilpotent, Z.lxor_0_l in E. revert E.
    apply pattern_detected; [done| |].
    + apply lxor_range; [apply nth_range|done|congruence].
    + intros ->. rewrite nth_insert_eq in Hp by lia. by rewrite land_lxor_distr, Hpad, Hp.
  - by destruct (body_bytes_spec values) as [-> _], (body_bytes_spec (pattern i (Z.lxor (nth i values 0) x))) as [-> _].
  - unfold pattern. by rewrite length_insert, repeat_length.
Qed.

(** A changed checksum symbol: the body is the same. *)
Lemma changed_checksum :
  (52 <= i)%nat -> crc_of (body_bytes (<[i := x]> values)) <> provided (<[i := x]> values).
Proof.
  intros Hb. assert (body_bytes (<[i := x]> values) = body_bytes values) as ->.
  { unfold body_bytes. by rewrite take_insert_ge by (unfold BODY_SYMBOLS; lia). }
  rewrite Hcrc. unfold provided.
  pose proof (nth_range 52). pose proof (nth_range 53).
  assert (i = 52%nat \/ i = 53%nat) as [-> | ->] by lia.
  - rewrite nth_insert_eq, (nth_insert_ne _ 52 53) by lia. rewrite !lor_pair by done. lia.
  - rewrite nth_insert_eq, (nth_insert_ne _ 53 52) by lia. rewrite !lor_pair by done. lia.
Qed.

Lemma parse_changed : exists m, parse_values (<[i := x]> values) = Err (InvalidInput m).
Proof.
  unfold parse_values. change (BODY_SYMBOLS - 1)%nat with 51%nat. change BODY_SYMBOLS with 52%nat.
  fold (provided (<[i := x]> values)).
  destruct (Z.land (nth 51 (<[i := x]> values) 0) 0x0F =? 0) eqn:Epad; simpl; [|eauto]. propify.
  destruct (crc_of (body_bytes (<[i := x]> values)) =? _) eqn:Ecrc; simpl; [|eauto]. exfalso. propify.
  destruct (Nat.lt_ge_cases i 52); [by apply changed_body in Ecrc|by apply changed_checksum in Ecrc].
Qed.
End Changed.

Lemma recovery_parse_symbols key t :
  length key = 32%nat -> normalize t = symbols key -> parse_recovery_key t = Ok key.
Proof.
  intros Hl Ht. rewrite (parse_normalized t (display_values key)); [by apply parse_values_display| |done].
  rewrite Ht. apply mapM_symbols, display_values_range.
Qed.

Lemma mapM_insert {A B} (f : A -> option B) l k i a b :
  mapM f l = Some k -> f a = Some b -> mapM f (<[i := a]> l) = Some (<[i := b]> k).
Proof.
  intros Hm Ha. apply mapM_Some in Hm. apply mapM_Some. by apply Forall2_insert.
Qed.

Lemma mapM_insert_none {A B} (f : A -> option B) l i a :
  (i < length l)%nat -> f a = None -> mapM f (<[i := a]> l) = None.
Proof.
  intros Hi Ha. destruct (mapM f (<[i := a]> l)) as [k|] eqn:E; [|done]. apply mapM_Some in E.
  eapply Forall2_lookup_l in E as (b & _ & Hb); [|by apply list_lookup_insert_eq]. congruence.
Qed.

(** ** Properties *)

(** C38. Round trip.  The displayed form of a recovery key parses to the key,
    as does every text with the same symbols: other grouping, spaces, and
    lower case. *)
Theorem recovery_key_roundtrip key :
  length key = 32%nat ->
  parse_recovery_key (to_display_string key) = Ok key /\
  (forall t, normalize t = symbols key -> parse_recovery_key t = Ok key) /\
  (forall t, parse_recovery_key (to_ascii_lowercase t) = parse_recovery_key t).
Proof.
  intros Hl. pose proof (recovery_parse_symbols key) as H.
  split_and!; [apply H; [done|apply normalize_display]|by intros; apply H|apply parse_lowercase].
Qed.

(** Transcription errors.  A text whose symbols are those of a displayed
    key with one replaced by another character is refused, unless the character
    is another way to write the same symbol, and then it gives the same key.  A
    text with a symbol missing or added is refused. *)
Theorem recovery_key_typo key t :
  length key = 32%nat ->
  (forall i c, normalize t = <[i := c]> (symbols key) ->
     parse_recovery_key t = Ok key \/ exists m, parse_recovery_key t = Err (InvalidInput m)) /\
  (length (normalize t) <> 54%nat -> exists m, parse_recovery_key t = Err (InvalidInput m)).
Proof.
  intros Hl. split.
  - intros i c Ht. destruct (decide (i < 54)%nat) as [Hi|Hi].
    + destruct (symbol_value c) as [x|] eqn:Ec.
      * assert (mapM symbol_value (normalize t) = Some (<[i := x]> (display_values key))) as Hm.
        { rewrite Ht. apply mapM_insert; [|done]. apply mapM_symbols, display_values_range. }
        rewrite (parse_normalized _ _ Hm) by (by rewrite length_insert).
        destruct (decide (x = nth i (display_values key) 0)) as [->|Hne].
        -- left. rewrite list_insert_id; [by apply parse_values_display|].
           destruct (lookup_lt_is_Some_2 (display_values key) i Hi) as [v Hv]. by rewrite nth_lookup, Hv.
        -- right. apply parse_changed; try done.
           ++ apply display_values_range.
           ++ by apply padding_zero.
           ++ rewrite body_roundtrip by done. unfold provided. destruct (nth_display_crc key) as [-> ->].
              symmetry. apply checksum_roundtrip, crc_of_range.
           ++ by apply symbol_value_range in Ec.
      * right. unfold parse_recovery_key. rewrite Ht. rewrite length_insert. simpl.
        rewrite (mapM_insert_none symbol_value _ i c) by done. simpl. eauto.
    + left. apply recovery_parse_symbols; [done|]. by rewrite list_insert_ge in Ht by (change (length (symbols key)) with 54%nat; lia).
  - intros Hne. unfold parse_recovery_key. apply Nat.eqb_neq in Hne.
    change TOTAL_SYMBOLS with 54%nat. rewrite Hne. simpl. eauto.
Qed.

(** ** Witnesses *)

Definition demo_key : bytes := repeat Byte.xa5 32.

Lemma recovery_key_roundtrip_witness : parse_recovery_key (to_display_string demo_key) = Ok demo_key.
Proof. exact (proj1 (recovery_key_roundtrip demo_key eq_refl)). Defined.

Lemma recovery_key_typo_witness :
  parse_recovery_key (string_of_list_byte (<[7%nat := Byte.x5a]> (symbols demo_key))) = Ok demo_key \/
  exists m, parse_recovery_key (string_of_list_byte (<[7%nat := Byte.x5a]> (symbols demo_key))) = Err (InvalidInput m).
Proof.
  apply (proj1 (recovery_key_typo demo_key (string_of_list_byte (<[7%nat := Byte.x5a]> (symbols demo_key))) eq_refl)
    7%nat Byte.x5a). vm_compute. reflexivity.
Defined.
