(* ===== verification/EnvelopeOps.v ===== *)
(** * Core: the fields of stored objects as envelopes ([vault/envelope_ops.rs],
    [crypto/cipher.rs])

    How a column of an entry, an SSH key or a TOTP secret is sealed under the
    identity of its row and read back, with the legacy readers.  The random
    nonces are arguments. *)

From S2P Require Import Prelude Text ThirdParty Aad Envelope CoreError.
From Stdlib Require Import ZArith Lia Strings.String Strings.Byte.
From stdpp Require Import base list option strings numbers.
Open Scope Z_scope.

(** ** [CredentialType] ([vault/mod.rs]) *)

Inductive CredentialType := CPassword | CApiKey | CPasskeyReference.
#[global] Instance CredentialType_eq_dec : EqDecision CredentialType.
Proof. solve_decision. Defined.

Definition cred_str (c : CredentialType) : string :=
  match c with
  | CPassword => "password"
  | CApiKey => "api_key"
  | CPasskeyReference => "passkey_reference"
  end.
Definition cred_parse (value : string) : Res CredentialType :=
  if String.eqb value "password" then Ok CPassword
  else if String.eqb value "api_key" then Ok CApiKey
  else if String.eqb value "passkey_reference" then Ok CPasskeyReference
  else Err (InvalidInput "Unsupported credential type").
Definition is_retrievable_secret (c : CredentialType) : bool :=
  match c with CPassword | CApiKey => true | CPasskeyReference => false end.

(** ** Context-free encryption ([crypto/cipher.rs]) *)

Record EncryptedEntry := {
  ee_nonce : bytes;         (* [u8; 12] *)
  ee_ciphertext : bytes;
  ee_auth_tag : bytes;      (* [u8; 16] *)
}.
Definition encrypted_entry_wf (e : EncryptedEntry) : Prop :=
  length (ee_nonce e) = 12%nat /\ length (ee_auth_tag e) = 16%nat.

Definition ENTRY_ENVELOPE_SCHEMA : Z := 1.
Definition MAX_SUMMARY_PLAINTEXT : Z := 64 * 1024.
Definition MAX_SECRET_PLAINTEXT : Z := 2 * 1024 * 1024.

Definition envelope_object_type (cred : CredentialType) : ObjectType :=
  match cred with
  | CPassword => Password
  | CApiKey => ApiKey
  | CPasskeyReference => PasskeyReference
  end.

(** [EntryFieldIdentity]. *)
Record EntryFieldIdentity := {
  id_vault_uuid : string;
  id_sync_id : string;
  id_cred : CredentialType;
}.

(** [is_envelope_blob]. *)
Definition is_envelope_blob (blob : bytes) : bool := starts_with ENVELOPE_MAGIC blob.

(** [rusqlite::types::Value]: the dynamically typed columns. *)
Inductive Value :=
| VNull
| VInteger (z : Z)
| VReal
| VText (s : string)
| VBlob (b : bytes).
#[global] Instance Value_eq_dec : EqDecision Value.
Proof. solve_decision. Defined.

Section Ops.
Context `{UuidText, Base64, Aead, SerdeBytes AadContext, SerdeBytes EnvelopeDoc, Bincode EncryptedEntry, BincodeSer bytes}.

(** [encrypt_entry], [encrypt_string]. *)
Definition encrypt_entry (gcm_nonce dek plaintext : bytes) : result CryptoError EncryptedEntry :=
  ciphertext ← ok_or (gcm_encrypt dek gcm_nonce [] plaintext) (EncryptionFailed "");
  _ ← err_if (length ciphertext <? 16)%nat (EncryptionFailed "Ciphertext too short - missing auth tag");
  let tag_start := (length ciphertext - 16)%nat in
  Ok {| ee_nonce := gcm_nonce; ee_ciphertext := take tag_start ciphertext; ee_auth_tag := drop tag_start ciphertext |}.
Definition encrypt_string (gcm_nonce dek : bytes) (plaintext : string) : result CryptoError EncryptedEntry :=
  encrypt_entry gcm_nonce dek (as_bytes plaintext).

(** [decrypt_entry], [decrypt_to_string]. *)
Definition decrypt_entry (dek : bytes) (e : EncryptedEntry) : result CryptoError bytes :=
  ok_or (gcm_decrypt dek (ee_nonce e) [] (ee_ciphertext e ++ ee_auth_tag e)) AuthenticationFailed.
Definition decrypt_to_string (dek : bytes) (e : EncryptedEntry) : result CryptoError string :=
  b ← decrypt_entry dek e; ok_or (from_utf8 b) (DecryptionFailed "Invalid UTF-8").

(** [identity_context]. *)
Definition identity_context (vault_uuid object_id : string) (object_type : ObjectType) (purpose : EnvelopePurpose)
    (epoch : Z) : Res AadContext :=
  vault ← ok_or (uuid_parse_str vault_uuid) (InvalidInput "stored vault_uuid is not a UUID");
  object ← ok_or (uuid_parse_str object_id) (InvalidInput "object id is not a UUID");
  map_err (fun '(Aad.InvalidInput m) => InvalidInput m)
    (build (set_epoch epoch (set_crypto_version SUPPORTED_CRYPTO_VERSION (set_schema_version
      (if is_entry_field purpose then 2 else ENTRY_ENVELOPE_SCHEMA) (set_object_type object_type
      (set_purpose purpose (set_object object (set_vault vault new_builder)))))))).

(** [zeroed_legacy_v1_columns]. *)
Definition zeroed_legacy_v1_columns : bytes * bytes :=
  (bincode_serialize (repeat Byte.x00 12), bincode_serialize (repeat Byte.x00 16)).

(** The plaintext ceiling [seal_object_field] picks; the third arm of its
    match is unreachable ([legacy_purpose_class]). *)
Definition field_max (purpose : EnvelopePurpose) : Z :=
  match legacy purpose with
  | Summary => MAX_SUMMARY_PLAINTEXT
  | _ => MAX_SECRET_PLAINTEXT
  end.

(** [seal_object_field]. *)
Definition seal_object_field (gcm_nonce dek : bytes) (vault_uuid object_id : string) (object_type : ObjectType)
    (purpose : EnvelopePurpose) (plaintext : string) (epoch : Z) : Res bytes :=
  ctx ← identity_context vault_uuid object_id object_type purpose epoch;
  map_err Crypto (seal_envelope dek ctx (as_bytes plaintext) (field_max purpose) gcm_nonce).

(** [open_object_field]. *)
Definition open_object_field (dek : bytes) (vault_uuid object_id : option string) (object_type : ObjectType)
    (purpose : EnvelopePurpose) (blob : bytes) : Res string :=
  if starts_with ENVELOPE_MAGIC blob then
    match vault_uuid, object_id with
    | Some v, Some o =>
      expected ← identity_context v o object_type purpose 0;
      plaintext ← map_err Crypto (open_envelope_relaxed_epoch dek expected blob);
      ok_or (from_utf8 plaintext) (Database Serialization)
    | _, _ => Err (InvalidInput "v2 envelope on a row with no stable identity")
    end
  else
    _ ← err_if (is_entry_field purpose) (InvalidInput "entry field requires authenticated column binding");
    encrypted ← ok_or (bincode_deserialize blob) (Database Serialization);
    map_err Crypto (decrypt_to_string dek encrypted).

(** [open_entry_field_with_identity]. *)
Definition open_entry_field_with_identity (dek : bytes) (identity : option EntryFieldIdentity)
    (purpose : EnvelopePurpose) (blob : bytes) : Res string :=
  match identity with
  | Some i => open_object_field dek (Some (id_vault_uuid i)) (Some (id_sync_id i)) (envelope_object_type (id_cred i)) purpose blob
  | None => open_object_field dek None None Password purpose blob
  end.

(** [open_entry_field_for_migration]. *)
Definition stored_purpose (purpose : EnvelopePurpose) (blob : bytes) : Res EnvelopePurpose :=
  if is_envelope_blob blob then
    _ ← err_if (MAX_ENVELOPE_BYTES <? Z.of_nat (length blob)) (InvalidInput "oversized entry envelope");
    document ← ok_or (from_slice (A := EnvelopeDoc) blob) (InvalidInput "malformed entry envelope");
    Ok (if (schema_version (env_context document) =? ENTRY_ENVELOPE_SCHEMA)
           && bool_decide (Aad.purpose (env_context document) = legacy purpose)
        then legacy purpose else purpose)
  else Ok (legacy purpose).
Definition open_entry_field_for_migration (dek : bytes) (identity : EntryFieldIdentity) (purpose : EnvelopePurpose)
    (blob : bytes) : Res string :=
  p ← stored_purpose purpose blob;
  open_entry_field_with_identity dek (Some identity) p blob.

(** [has_field_binding]. *)
Definition has_field_binding (blob : bytes) (purpose : EnvelopePurpose) : bool :=
  (Z.of_nat (length blob) <=? MAX_ENVELOPE_BYTES) &&
  match from_slice (A := EnvelopeDoc) blob with
  | Some e => (schema_version (env_context e) =? 2) && bool_decide (Aad.purpose (env_context e) = purpose)
  | None => false
  end.

(** [open_metadata_text_field]. *)
Definition open_metadata_text_field (dek : bytes) (vault_uuid object_id : option string) (object_type : ObjectType)
    (purpose : EnvelopePurpose) (value : option Value) : Res (option string) :=
  match value with
  | None | Some VNull => Ok None
  | Some (VText s) =>
    _ ← err_if (is_entry_field purpose) (InvalidInput "metadata requires authenticated column binding; migrate first");
    Ok (Some s)
  | Some (VBlob blob) =>
    if starts_with ENVELOPE_MAGIC blob then
      s ← open_object_field dek vault_uuid object_id object_type purpose blob; Ok (Some s)
    else if is_entry_field purpose then
      Err (InvalidInput "metadata requires authenticated column binding; migrate first")
    else s ← ok_or (from_utf8 blob) (Database Serialization); Ok (Some s)
  | Some (VInteger _) | Some VReal => Err (Database Serialization)
  end.
End Ops.

#[global] Arguments MAX_SUMMARY_PLAINTEXT : simpl never.
#[global] Arguments MAX_SECRET_PLAINTEXT : simpl never.
#[global] Arguments identity_context : simpl never.
#[global] Arguments seal_object_field : simpl never.
#[global] Arguments open_object_field : simpl never.

(** ** Facts *)

Lemma legacy_purpose_class p : legacy p = Summary \/ legacy p = Secret.
Proof. destruct p; auto. Qed.

Lemma cred_parse_str c : cred_parse (cred_str c) = Ok c.
Proof. by destruct c. Qed.

Section Facts.
Context `{UuidText, Base64, Aead, SerdeBytes AadContext, SerdeBytes EnvelopeDoc, Bincode EncryptedEntry, BincodeSer bytes}.
Context `{!UuidTextLaws, !Base64Laws, !AeadLaws, !SerdeBytesLaws AadContext, !SerdeBytesLaws EnvelopeDoc, !EnvelopeJson}.

Definition field_context (vault object : Uuid) (t : ObjectType) (p : EnvelopePurpose) (e : Z) : AadContext := {|
  aad_version := AAD_VERSION; Aad.vault := uuid_to_string vault; Aad.object := uuid_to_string object; Aad.purpose := p;
  Aad.object_type := t; schema_version := if is_entry_field p then 2 else ENTRY_ENVELOPE_SCHEMA;
  crypto_version := SUPPORTED_CRYPTO_VERSION; Aad.epoch := e; tombstone := None |}.

Lemma identity_context_ok v o t p e c :
  identity_context v o t p e = Ok c <->
  exists vu ou, uuid_parse_str v = Some vu /\ uuid_parse_str o = Some ou /\ c = field_context vu ou t p e.
Proof.
  unfold identity_context. split.
  - intros E. result_inv. apply map_err_ok in E. injection E as <-. eauto.
  - intros (vu & ou & -> & -> & ->). done.
Qed.

Lemma encrypt_decrypt_string n dek s e :
  encrypt_string n dek s = Ok e -> utf8 (as_bytes s) = true -> decrypt_to_string dek e = Ok s.
Proof.
  unfold encrypt_string, encrypt_entry, decrypt_to_string, decrypt_entry. intros E U. result_inv. subst e. simpl.
  rewrite take_drop. erewrite gcm_decrypt_encrypt by eassumption. simpl. by rewrite from_utf8_as_bytes.
Qed.

Lemma seal_field_inv n dek v o t p s e blob :
  seal_object_field n dek v o t p s e = Ok blob ->
  exists vu ou, uuid_parse_str v = Some vu /\ uuid_parse_str o = Some ou /\
    seal_envelope dek (field_context vu ou t p e) (as_bytes s) (field_max p) n = Ok blob.
Proof.
  unfold seal_object_field. intros E. apply result_bind_ok in E as (c & Hc & E). apply map_err_ok in E.
  apply identity_context_ok in Hc as (vu & ou & ? & ? & ->). eauto.
Qed.

Lemma sealed_is_envelope dek c s max n blob :
  seal_envelope dek c s max n = Ok blob -> starts_with ENVELOPE_MAGIC blob = true.
Proof. intros (ct & tag & _ & _ & _ & _ & _ & ->)%seal_ok. by apply envelope_text_starts. Qed.

(** The context fits the size contract of the reader. *)
Definition aad_fits (c : AadContext) : Prop := Z.of_nat (length (to_bytes c)) <= MAX_AAD_BYTES.

Lemma open_sealed_field n dek v o t p s e blob :
  seal_object_field n dek v o t p s e = Ok blob -> length n = 12%nat -> utf8 (as_bytes s) = true ->
  Z.of_nat (length blob) <= MAX_ENVELOPE_BYTES ->
  (forall vu ou, uuid_parse_str v = Some vu -> uuid_parse_str o = Some ou -> aad_fits (field_context vu ou t p e)) ->
  open_object_field dek (Some v) (Some o) t p blob = Ok s.
Proof.
  intros (vu & ou & Hv & Ho & Hs)%seal_field_inv Hn U Hlen Hfit. specialize (Hfit _ _ Hv Ho).
  unfold open_object_field. rewrite (sealed_is_envelope _ _ _ _ _ _ Hs).
  assert (identity_context v o t p 0 = Ok (field_context vu ou t p 0)) as -> by (apply identity_context_ok; eauto).
  simpl. destruct (seal_ok _ _ _ _ _ _ Hs) as (ct & tag & Hcv & Hpl & Henc & Hct & Htag & ->).
  unfold open_envelope_relaxed_epoch. rewrite open_sealed by (done || lia). cbv zeta.
  change {| (field_context vu ou t p 0) with Aad.epoch := Aad.epoch (field_context vu ou t p e) |}
    with (field_context vu ou t p e).
  rewrite (proj2 (Z.ltb_ge _ _)) by exact Hfit. rewrite bool_decide_true by done.
  rewrite (gcm_decrypt_encrypt _ _ _ _ _ Henc). simpl. by rewrite from_utf8_as_bytes.
Qed.

(** What a sealed field opens as, wherever its bytes are moved to. *)
Lemma sealed_field_bound n dek v o t p s e blob dek' v' o' t' p' s' :
  seal_object_field n dek v o t p s e = Ok blob -> length n = 12%nat ->
  open_object_field dek' v' o' t' p' blob = Ok s' ->
  exists v'' o'', v' = Some v'' /\ o' = Some o'' /\ uuid_parse_str v'' = uuid_parse_str v /\
    uuid_parse_str o'' = uuid_parse_str o /\ t' = t /\ p' = p /\ (dek' = dek -> s' = s).
Proof.
  intros (vu & ou & Hv & Ho & Hs)%seal_field_inv Hn Hopen. unfold open_object_field in Hopen.
  rewrite (sealed_is_envelope _ _ _ _ _ _ Hs) in Hopen. destruct v' as [v''|], o' as [o''|]; try discriminate.
  apply result_bind_ok in Hopen as (c & Hc & Hopen). apply identity_context_ok in Hc as (vu' & ou' & Hv' & Ho' & ->).
  apply result_bind_ok in Hopen as (pt & Hpt & Hopen). apply map_err_ok in Hpt. apply ok_or_ok in Hopen.
  apply (envelope_identity_lemma _ _ _ _ _ _ _ _ _ _ Hs Hn) in Hpt as [E Hp].
  injection E as Ev Eo Ep Et _. apply uuid_to_string_inj in Ev, Eo. subst.
  exists v'', o''. split_and!; try done; try congruence. intros ->. rewrite Hp in Hopen by done.
  unfold from_utf8 in Hopen. destruct (utf8 _); [|discriminate]. injection Hopen as <-.
  apply string_of_list_byte_of_string.
Qed.
End Facts.
