(* ===== verification/Totp.v ===== *)
(** * Core: one-time codes ([totp.rs])

    Provisioning URIs, secret normalisation and RFC 6238 codes.  Base32 and the
    keyed hashes are parameters. *)

From S2P Require Import Prelude Text ThirdParty Aad Envelope CoreError EnvelopeOps.
From Stdlib Require Import ZArith Lia Strings.String Strings.Byte Strings.Ascii Decimal DecimalString DecimalFacts DecimalPos.
From stdpp Require Import base list option strings numbers.
From S2P Require Import Text.
Open Scope Z_scope.

(** [data_encoding::BASE32_NOPAD] and [BASE32]. *)
Class Base32 := {
  base32_nopad_decode : bytes -> option bytes;
  base32_decode : bytes -> option bytes;
}.
(** HMAC with SHA-1. *)
Class HmacSha1 := hmac_sha1 : bytes -> bytes -> bytes.
Class TotpHashLaws `{Hmac, HmacSha1} : Prop := {
  hmac_sha1_length : forall k m, length (hmac_sha1 k m) = 20%nat;
  hmac_sha256_length : forall k m, length (hmac_sha256 k m) = 32%nat;
}.

Inductive TotpAlgorithm := TSha1 | TSha256.
#[global] Instance TotpAlgorithm_eq_dec : EqDecision TotpAlgorithm.
Proof. solve_decision. Defined.

(** [TotpAlgorithm::as_db_value], [Display], [FromStr]. *)
Definition as_db_value (a : TotpAlgorithm) : string := match a with TSha1 => "SHA1" | TSha256 => "SHA256" end.
Definition algorithm_display (a : TotpAlgorithm) : string := match a with TSha1 => "sha1" | TSha256 => "sha256" end.
Definition algorithm_from_str (value : string) : Res TotpAlgorithm :=
  let v := to_ascii_lowercase (trim value) in
  if String.eqb v "sha1" then Ok TSha1
  else if String.eqb v "sha256" then Ok TSha256
  else Err (InvalidInput ("Unsupported TOTP algorithm '" +:+ v +:+ "'. Use 'sha1' or 'sha256'.")).

Record ParsedTotpUri := {
  secret_base32 : string;
  algorithm : TotpAlgorithm;
  digits : Z;                      (* u8 *)
  period : Z;                      (* u32 *)
  issuer : option string;
  account_name : option string;
}.

(** [percent_decode]. *)
Definition from_hex (b : Byte.byte) : option Z :=
  let z := Z_of_byte b in
  if between 48 57 b then Some (z - 48)
  else if between 97 102 b then Some (z - 97 + 10)
  else if between 65 70 b then Some (z - 65 + 10)
  else None.
Definition bad_percent : PasswordManagerError := InvalidInput "Invalid percent encoding in TOTP URI".
Fixpoint percent_bytes (b : bytes) : Res bytes :=
  match b with
  | [] => Ok []
  | Byte.x25 :: rest =>                                  (* % *)
    match rest with
    | h :: l :: rest =>
      hi ← ok_or (from_hex h) bad_percent;
      lo ← ok_or (from_hex l) bad_percent;
      out ← percent_bytes rest;
      Ok (byte_of_Z (Z.lor (Z.shiftl hi 4) lo) :: out)
    | _ => Err bad_percent
    end
  | Byte.x2b :: rest => out ← percent_bytes rest; Ok (Byte.x20 :: out)      (* + *)
  | x :: rest => out ← percent_bytes rest; Ok (x :: out)
  end.
Definition percent_decode (s : string) : Res string :=
  out ← percent_bytes (as_bytes s);
  ok_or (from_utf8 out) (InvalidInput "TOTP URI contains invalid UTF-8").

(** [format!("{:0width$}", code)]. *)
Definition zero_pad (width : nat) (s : string) : string :=
  string_of_list_ascii (repeat "0"%char (width - String.length s)) +:+ s.

Section Totp.
Context `{Base32, Hmac, HmacSha1, Aead}.

(** [decode_secret], [normalize_secret]. *)
Definition normal_form (s : string) : string :=
  to_ascii_uppercase (string_filter (fun a => negb (Ascii.eqb a " " || Ascii.eqb a "-")) (trim s)).
Definition decode_secret (secret : string) : Res bytes :=
  let b := as_bytes (normal_form secret) in
  decoded ← ok_or (match base32_nopad_decode b with Some d => Some d | None => base32_decode b end)
              (InvalidInput "TOTP secret must be valid base32");
  _ ← err_if (bool_decide (decoded = [])) (InvalidInput "TOTP secret cannot decode to empty bytes");
  Ok decoded.
Definition normalize_secret (secret : string) : Res string :=
  let normalized := normal_form secret in
  _ ← err_if (is_empty normalized) (InvalidInput "TOTP secret cannot be empty");
  _ ← decode_secret normalized;
  Ok normalized.

(** The loop of [parse_otpauth_uri] over the query. *)
Record UriQuery := {
  q_secret : option string;
  q_issuer : option string;
  q_algorithm : TotpAlgorithm;
  q_digits : Z;
  q_period : Z;
}.
Definition empty_query : UriQuery :=
  {| q_secret := None; q_issuer := None; q_algorithm := TSha1; q_digits := 6; q_period := 30 |}.
Definition query_pair (q : UriQuery) (part : string) : Res UriQuery :=
  let '(key_raw, value_raw) := match split_once "=" part with Some kv => kv | None => (part, ""%string) end in
  key ← percent_decode key_raw;
  let key := to_ascii_lowercase key in
  value ← percent_decode value_raw;
  if is_empty (trim value) then Ok q
  else if String.eqb key "secret" then Ok {| q with q_secret := Some value |}
  else if String.eqb key "issuer" then Ok {| q with q_issuer := Some value |}
  else if String.eqb key "algorithm" then a ← algorithm_from_str value; Ok {| q with q_algorithm := a |}
  else if String.eqb key "digits" then
    d ← ok_or (parse_unsigned 8 value) (InvalidInput "TOTP digits must be numeric"); Ok {| q with q_digits := d |}
  else if String.eqb key "period" then
    p ← ok_or (parse_unsigned 32 value) (InvalidInput "TOTP period must be numeric"); Ok {| q with q_period := p |}
  else Ok q.
Fixpoint query_pairs (parts : list string) (q : UriQuery) : Res UriQuery :=
  match parts with
  | [] => Ok q
  | part :: parts => q ← query_pair q part; query_pairs parts q
  end.

(** The label: [issuer:account] or [account]. *)
Definition nonempty (s : string) : option string := if is_empty s then None else Some s.
Definition label_parts (label : string) : option string * option string :=
  match split_once ":" label with
  | Some (i, a) => (nonempty (trim i), nonempty (trim a))
  | None => (None, nonempty (trim label))
  end.

(** [parse_otpauth_uri]. *)
Definition bad_scheme : PasswordManagerError := InvalidInput "TOTP URI must start with otpauth://".
Definition parse_otpauth_uri (uri : string) : Res ParsedTotpUri :=
  '(scheme, rest) ← ok_or (split_once_str "://" (trim uri)) bad_scheme;
  _ ← err_if (negb (eq_ignore_ascii_case scheme "otpauth")) bad_scheme;
  '(kind, remainder) ← ok_or (split_once "/" rest) (InvalidInput "Invalid otpauth URI format");
  _ ← err_if (negb (eq_ignore_ascii_case kind "totp")) (InvalidInput "Only otpauth://totp URIs are supported");
  let '(label_raw, query_raw) := match split_once "?" remainder with Some lq => lq | None => (remainder, ""%string) end in
  label ← percent_decode label_raw;
  let '(issuer_from_label, account) := label_parts label in
  q ← query_pairs (List.filter (fun p => negb (is_empty p)) (split_char "&" query_raw)) empty_query;
  _ ← err_if (negb (q_digits q =? 6) && negb (q_digits q =? 8)) (InvalidInput "TOTP digits must be 6 or 8");
  _ ← err_if (q_period q =? 0) (InvalidInput "TOTP period must be greater than 0");
  secret ← ok_or (q_secret q) (InvalidInput "TOTP URI is missing secret parameter");
  secret ← normalize_secret secret;
  _ ← err_if (match issuer_from_label, q_issuer q with
              | Some l, Some i => negb (eq_ignore_ascii_case l i)
              | _, _ => false
              end) (InvalidInput "Issuer in label does not match issuer query parameter");
  Ok {| secret_base32 := secret; algorithm := q_algorithm q; digits := q_digits q; period := q_period q;
        issuer := match q_issuer q with Some i => Some i | None => issuer_from_label end; account_name := account |}.

(** [encrypt_totp_secret], [decrypt_totp_secret]. *)
Definition encrypt_totp_secret (gcm_nonce dek : bytes) (secret : string) : Res (bytes * bytes * bytes) :=
  normalized ← normalize_secret secret;
  e ← map_err Crypto (encrypt_string gcm_nonce dek normalized);
  Ok (ee_ciphertext e, ee_nonce e, ee_auth_tag e).
Definition decrypt_totp_secret (dek secret_encrypted nonce auth_tag : bytes) : Res string :=
  _ ← err_if (negb (length nonce =? 12)%nat) (InvalidInput "Invalid TOTP nonce length");
  _ ← err_if (negb (length auth_tag =? 16)%nat) (InvalidInput "Invalid TOTP auth tag length");
  secret ← map_err Crypto (decrypt_to_string dek {| ee_nonce := nonce; ee_ciphertext := secret_encrypted; ee_auth_tag := auth_tag |});
  normalize_secret secret.

(** [generate_totp_code]: the counter, the truncation and the text. *)
Definition totp_counter (period timestamp : Z) : Z := Z.max timestamp 0 / period.
Definition truncate (digest : bytes) : Res Z :=
  _ ← err_if (length digest <? 20)%nat (InvalidInput "Invalid TOTP digest length");
  let at_ i := Z_of_byte (nth i digest Byte.x00) in
  let offset := Z.to_nat (Z.land (at_ (length digest - 1)%nat) 15) in
  _ ← err_if (length digest <=? offset + 3)%nat (InvalidInput "Invalid TOTP digest offset");
  Ok (Z.lor (Z.lor (Z.lor (Z.shiftl (Z.land (at_ offset) 127) 24) (Z.shiftl (at_ (offset + 1)%nat) 16))
       (Z.shiftl (at_ (offset + 2)%nat) 8)) (at_ (offset + 3)%nat)).
Definition totp_digest (a : TotpAlgorithm) (secret message : bytes) : bytes :=
  match a with TSha1 => hmac_sha1 secret message | TSha256 => hmac_sha256 secret message end.
Definition generate_totp_code (secret : string) (a : TotpAlgorithm) (digits period timestamp : Z) : Res string :=
  _ ← err_if (negb (digits =? 6) && negb (digits =? 8)) (InvalidInput "TOTP digits must be 6 or 8");
  _ ← err_if (period =? 0) (InvalidInput "TOTP period must be greater than 0");
  key ← decode_secret secret;
  binary ← truncate (totp_digest a key (to_be_bytes 8 (totp_counter period timestamp)));
  Ok (zero_pad (Z.to_nat digits) (i64_display (binary mod 10 ^ digits))).

(** [seconds_remaining]; [rem_euclid] by a positive number is [mod]. *)
Definition seconds_remaining (period timestamp : Z) : Z :=
  if period =? 0 then 0
  else let elapsed := timestamp mod period in if elapsed =? 0 then period else period - elapsed.
End Totp.

(** ** Decimal text *)

Lemma uint_length d : String.length (NilEmpty.string_of_uint d) = Decimal.nb_digits d.
Proof. induction d; simpl; congruence. Qed.

Lemma of_uint_acc_ge d acc : Z.pos acc * 10 ^ Z.of_nat (Decimal.nb_digits d) <= Z.pos (Pos.of_uint_acc d acc).
Proof.
  revert acc. induction d as [|d IH|d IH|d IH|d IH|d IH|d IH|d IH|d IH|d IH|d IH]; intros acc;
    [simpl; lia|..]; cbn [Decimal.nb_digits Pos.of_uint_acc]; rewrite Nat2Z.inj_succ, Z.pow_succ_r by lia;
    (etrans; [|apply IH]); assert (0 < 10 ^ Z.of_nat (Decimal.nb_digits d)) by (apply Z.pow_pos_nonneg; lia); nia.
Qed.

(** The text of a number starts with a digit that is not zero. *)
Lemma to_uint_lead p d : Pos.to_uint p <> Decimal.D0 d.
Proof.
  intros E. pose proof (DecimalPos.Unsigned.to_of (Pos.to_uint p)) as T. rewrite DecimalPos.Unsigned.of_to in T.
  change (N.to_uint (N.pos p)) with (Pos.to_uint p) in T. rewrite E in T. unfold Decimal.unorm in T. simpl in T.
  pose proof (DecimalFacts.nb_digits_nzhead d) as L.
  destruct (Decimal.nzhead d) eqn:Ed; try (rewrite <- T in L; simpl in L; lia).
  injection T as ->. by apply (DecimalPos.Unsigned.to_uint_nonzero p).
Qed.

Lemma display_length z n : (0 < n)%nat -> 0 <= z < 10 ^ Z.of_nat n -> (String.length (i64_display z) <= n)%nat.
Proof.
  intros Hn [H0 Hz]. unfold i64_display. destruct z as [|p|p]; [simpl; lia| |lia]. simpl.
  assert (NilZero.string_of_uint (Pos.to_uint p) = NilEmpty.string_of_uint (Pos.to_uint p)) as ->.
  { pose proof (DecimalPos.Unsigned.to_uint_nonnil p). by destruct (Pos.to_uint p). }
  rewrite uint_length. pose proof (DecimalPos.Unsigned.of_to p) as E. pose proof (to_uint_lead p) as Hl.
  pose proof (DecimalPos.Unsigned.to_uint_nonnil p) as Hnil.
  assert (10 ^ (Z.of_nat (Decimal.nb_digits (Pos.to_uint p)) - 1) <= Z.pos p) as L.
  { destruct (Pos.to_uint p) as [|d|d|d|d|d|d|d|d|d|d]; [done|by destruct (Hl d)|..]; simpl in E; injection E as <-;
      cbn [Decimal.nb_digits]; rewrite Nat2Z.inj_succ; rewrite Z.sub_1_r, Z.pred_succ;
      (etrans; [|apply of_uint_acc_ge]); assert (0 < 10 ^ Z.of_nat (Decimal.nb_digits d)) by (apply Z.pow_pos_nonneg; lia); nia. }
  destruct (Nat.le_gt_cases (Decimal.nb_digits (Pos.to_uint p)) n) as [|Hgt]; [done|].
  assert (10 ^ Z.of_nat n <= 10 ^ (Z.of_nat (Decimal.nb_digits (Pos.to_uint p)) - 1)) by (apply Z.pow_le_mono_r; lia). lia.
Qed.

Lemma display_digits z : 0 <= z -> all_chars is_ascii_digit (i64_display z) = true.
Proof.
  intros Hz. assert (forall d, all_chars is_ascii_digit (NilEmpty.string_of_uint d) = true) as G.
  { induction d; [done|..]; exact IHd. }
  unfold i64_display. destruct z as [|p|p]; [done| |lia]. simpl. specialize (G (Pos.to_uint p)).
  pose proof (DecimalPos.Unsigned.to_uint_nonnil p). by destruct (Pos.to_uint p).
Qed.

Lemma string_app_length (a b : string) : String.length (a +:+ b) = (String.length a + String.length b)%nat.
Proof. induction a as [|c a IH]; [done|]. exact (f_equal S IH). Qed.
Lemma string_of_list_ascii_length l : String.length (string_of_list_ascii l) = length l.
Proof. induction l; simpl; congruence. Qed.

Lemma zero_pad_shape n z :
  (0 < n)%nat -> 0 <= z < 10 ^ Z.of_nat n ->
  String.length (zero_pad n (i64_display z)) = n /\ all_chars is_ascii_digit (zero_pad n (i64_display z)) = true.
Proof.
  intros Hn Hz. pose proof (display_length z n Hn Hz) as L. unfold zero_pad. split.
  - rewrite string_app_length, string_of_list_ascii_length, repeat_length. lia.
  - rewrite all_chars_app, display_digits by lia. rewrite andb_true_r. by induction (n - _)%nat.
Qed.

(** ** Codes *)

#[local] Arguments to_be_bytes : simpl never.
#[local] Arguments truncate : simpl never.

Section Facts.
Context `{Base32, Hmac, HmacSha1, Aead}.
Context `{!TotpHashLaws}.

Lemma land_range a m : 0 <= a -> 0 <= m -> 0 <= Z.land a m <= m.
Proof.
  intros Ha Hm. apply Z.ldiff_le; [lia|].
  apply Z.bits_inj'. intros n Hn. rewrite Z.ldiff_spec, !Z.land_spec, Z.bits_0.
  destruct (Z.testbit a n), (Z.testbit m n); done.
Qed.

Lemma truncate_ok d : (20 <= length d)%nat -> exists n, truncate d = Ok n /\ 0 <= n.
Proof.
  intros Hl. unfold truncate. rewrite (proj2 (Nat.ltb_ge _ _)) by lia. simpl.
  pose proof (Z_of_byte_range (nth (length d - 1) d Byte.x00)) as R.
  pose proof (land_range (Z_of_byte (nth (length d - 1) d Byte.x00)) 15 ltac:(lia) ltac:(lia)) as L.
  rewrite (proj2 (Nat.leb_gt _ _)) by lia. simpl. eexists. split; [done|].
  repeat (rewrite Z.lor_nonneg; split); try (apply Z.shiftl_nonneg); try (apply Z.land_nonneg; left);
    apply Z_of_byte_range.
Qed.

Lemma generate_run secret a d p t key :
  d = 6 \/ d = 8 -> p <> 0 -> decode_secret secret = Ok key ->
  exists n, 0 <= n /\ truncate (totp_digest a key (to_be_bytes 8 (totp_counter p t))) = Ok n /\
    generate_totp_code secret a d p t = Ok (zero_pad (Z.to_nat d) (i64_display (n mod 10 ^ d))).
Proof.
  intros Hd Hp Hk. unfold generate_totp_code.
  assert (negb (d =? 6) && negb (d =? 8) = false) as -> by (by destruct Hd as [-> | ->]). simpl.
  rewrite (proj2 (Z.eqb_neq _ _)) by done. simpl. rewrite Hk. simpl.
  destruct (truncate_ok (totp_digest a key (to_be_bytes 8 (totp_counter p t)))) as (n & En & Hn).
  { destruct a; simpl; rewrite ?hmac_sha1_length, ?hmac_sha256_length; lia. }
  exists n. by rewrite En.
Qed.

(** The parameters of a query stay in the ranges of their types. *)
Definition query_range (q : UriQuery) : Prop := 0 <= q_digits q < 2 ^ 8 /\ 0 <= q_period q < 2 ^ 32.
Lemma empty_query_range : query_range empty_query.
Proof. unfold query_range. simpl. lia. Qed.
Lemma query_pairs_range parts q q' : query_pairs parts q = Ok q' -> query_range q -> query_range q'.
Proof.
  revert q. induction parts as [|part parts IH]; intros q E Hq; simpl in E; [by simplify_eq|].
  apply result_bind_ok in E as (q1 & E1 & E). apply (IH q1); [exact E|]. clear IH E. unfold query_pair in E1.
  unfold query_range in *. repeat (result_inv; simplify_eq; try done; case_hyp); result_inv; simplify_eq; simpl in *; try done;
    repeat match goal with E : parse_unsigned _ _ = Some _ |- _ => apply parse_unsigned_range in E end; lia.
Qed.

Lemma normalize_decodes s n : normalize_secret s = Ok n -> exists key, decode_secret n = Ok key.
Proof. unfold normalize_secret. intros E. result_inv. simplify_eq. eauto. Qed.

Lemma checked_generates q secret n a t :
  query_range q -> negb (q_digits q =? 6) && negb (q_digits q =? 8) = false -> q_period q <> 0 ->
  normalize_secret secret = Ok n ->
  (q_digits q = 6 \/ q_digits q = 8) /\ 0 < q_period q < 2 ^ 32 /\
  exists code, generate_totp_code n a (q_digits q) (q_period q) t = Ok code /\
    Z.of_nat (String.length code) = q_digits q /\ all_chars is_ascii_digit code = true.
Proof.
  intros [Hq1 Hq2] Hd6 Hp (key & Hk)%normalize_decodes. apply andb_false_iff in Hd6.
  assert (q_digits q = 6 \/ q_digits q = 8) as Hd by (destruct Hd6; propify; auto). split; [done|]. split; [lia|].
  destruct (generate_run _ a _ _ t _ Hd Hp Hk) as (m & Hm & _ & Eg). rewrite Eg. eexists. split; [done|].
  destruct (zero_pad_shape (Z.to_nat (q_digits q)) (m mod 10 ^ q_digits q)) as [S1 S2]; [lia| |].
  { rewrite Z2Nat.id by lia. apply Z.mod_pos_bound. apply Z.pow_pos_nonneg; lia. }
  split; [rewrite S1; lia|exact S2].
Qed.

(** A provisioning URI that is accepted always yields codes: at every
    timestamp the generator succeeds with the parsed parameters, and the code
    is exactly [digits] decimal digits long. *)
Theorem parsed_uri_generates uri u t :
  parse_otpauth_uri uri = Ok u ->
  (digits u = 6 \/ digits u = 8) /\ 0 < period u < 2 ^ 32 /\
  exists code, generate_totp_code (secret_base32 u) (algorithm u) (digits u) (period u) t = Ok code /\
    Z.of_nat (String.length code) = digits u /\ all_chars is_ascii_digit code = true.
Proof.
  unfold parse_otpauth_uri. intros E. repeat (result_inv; case_hyp); result_inv; simplify_eq; simpl;
    (eapply checked_generates; [eapply query_pairs_range; [eassumption|exact empty_query_range]|by propify|by propify|eassumption]).
Qed.

(** The code and the countdown agree: the code a countdown is shown with stays
    valid for all its seconds, and then the counter moves by one. *)
Theorem countdown_exact secret a d p t k :
  0 < p -> 0 <= t -> 0 <= k < seconds_remaining p t ->
  1 <= seconds_remaining p t <= p /\
  generate_totp_code secret a d p (t + k) = generate_totp_code secret a d p t /\
  totp_counter p (t + seconds_remaining p t) = totp_counter p t + 1.
Proof.
  intros Hp Ht Hk. unfold seconds_remaining in *. rewrite (proj2 (Z.eqb_neq p 0)) in * by lia. cbv zeta in *.
  pose proof (Z.mod_pos_bound t p Hp) as Hm. pose proof (Z.div_mod t p) as Hdm.
  assert (totp_counter p (t + k) = totp_counter p t /\
          totp_counter p (t + (if t mod p =? 0 then p else p - t mod p)) = totp_counter p t + 1) as [E1 E2].
  { unfold totp_counter. rewrite !Z.max_l by (destruct (t mod p =? 0); lia).
    split; [symmetry; apply Z.div_unique with (t mod p + k)|symmetry; apply Z.div_unique with 0];
      destruct (Z.eqb_spec (t mod p) 0); nia. }
  split; [destruct (Z.eqb_spec (t mod p) 0); lia|]. split; [|exact E2].
  unfold generate_totp_code. by rewrite E1.
Qed.
End Facts.

(** ** Witnesses *)

Module Demo.
Export Concrete.

(** Base32 of whole groups, and a hash of the right length. *)
Definition symbol32 (b : Byte.byte) : option Z :=
  if between 65 90 b then Some (Z_of_byte b - 65) else if between 50 55 b then Some (Z_of_byte b - 24) else None.
Fixpoint groups (b : bytes) : option bytes :=
  match b with
  | [] => Some []
  | b1 :: b2 :: b3 :: b4 :: b5 :: b6 :: b7 :: b8 :: rest =>
    l ← mapM symbol32 [b1; b2; b3; b4; b5; b6; b7; b8];
    out ← groups rest;
    Some (to_be_bytes 5 (foldl (fun acc x => acc * 32 + x) 0 l) ++ out)
  | _ => None
  end.
#[export] Instance base32 : Base32 := {| base32_nopad_decode := groups; base32_decode := groups |}.
#[export] Instance sha1 : HmacSha1 := fun k m => take 20 (mac32 k m).
#[export] Instance totp_laws : TotpHashLaws.
Proof. split; intros k m; reflexivity. Qed.

Definition demo_uri : string := "otpauth://totp/ACME%20Co:alice?secret=jbswy3dp-ehpk3pxp&issuer=ACME+Co&digits=8".
Definition demo_parsed : ParsedTotpUri :=
  match parse_otpauth_uri demo_uri with
  | Ok u => u
  | Err _ => {| secret_base32 := ""; algorithm := TSha1; digits := 0; period := 0; issuer := None; account_name := None |}
  end.

Lemma parsed_uri_generates_witness :
  issuer demo_parsed = Some "ACME Co"%string /\
  exists code, generate_totp_code (secret_base32 demo_parsed) (algorithm demo_parsed) (digits demo_parsed) (period demo_parsed) 59 = Ok code /\
    Z.of_nat (String.length code) = digits demo_parsed /\ all_chars is_ascii_digit code = true.
Proof.
  split; [vm_compute; reflexivity|].
  refine (proj2 (proj2 (parsed_uri_generates demo_uri demo_parsed 59 _))). vm_compute. reflexivity.
Defined.

Lemma countdown_exact_witness :
  seconds_remaining 30 75 = 15 /\
  generate_totp_code "JBSWY3DPEHPK3PXP" TSha1 6 30 89 = generate_totp_code "JBSWY3DPEHPK3PXP" TSha1 6 30 75.
Proof.
  split; [reflexivity|]. refine (proj1 (proj2 (countdown_exact "JBSWY3DPEHPK3PXP" TSha1 6 30 75 14 _ _ _))).
  - lia.
  - lia.
  - change (seconds_remaining 30 75) with 15. lia.
Defined.
End Demo.
