(* ===== verification/DomainTags.v ===== *)
(** * Core: domains and their keyed tags ([domain.rs])

    Host normalisation, the match of two hosts, and the keyed tag sets that
    stand for a host in the encrypted index.  The [url] crate is a parameter. *)

From S2P Require Import Prelude ThirdParty.
From Stdlib Require Import ZArith Lia Strings.String Strings.Ascii Strings.Byte.
From stdpp Require Import base list option strings numbers.
From S2P Require Import Text.
Open Scope Z_scope.

(** [url::Url::parse]: the parsed URL is used for its [host_str] only. *)
Class UrlParse := url_parse : string -> option (option string).

(** ** More of [str] *)

Definition DOT : ascii := "."%char.

(** [trim_start_matches], [trim_end_matches], [trim_matches] on a character. *)
Fixpoint trim_start_matches (c : ascii) (s : string) : string :=
  match s with
  | EmptyString => EmptyString
  | String a r => if Ascii.eqb a c then trim_start_matches c r else s
  end.
Fixpoint trim_end_matches (c : ascii) (s : string) : string :=
  match s with
  | EmptyString => EmptyString
  | String a r =>
    match trim_end_matches c r with
    | EmptyString => if Ascii.eqb a c then EmptyString else String a EmptyString
    | r => String a r
    end
  end.
Definition trim_matches (c : ascii) (s : string) : string := trim_end_matches c (trim_start_matches c s).

(** [str::ends_with]. *)
Fixpoint ends_with (suffix s : string) : bool :=
  String.eqb suffix s || match s with EmptyString => false | String _ s => ends_with suffix s end.

(** [[&str]::join]. *)
Fixpoint join (c : ascii) (l : list string) : string :=
  match l with
  | [] => EmptyString
  | [s] => s
  | s :: l => s +:+ String c (join c l)
  end.

(** ** Hosts *)

Definition MAX_CHAIN_TAGS : nat := 10.
Definition DOMAIN_TAG_KEY_ID : Z := 1.

Definition non_empty (s : string) : option string := if String.eqb s "" then None else Some s.

Section Domain.
Context `{UrlParse, Hmac}.

(** The closure [extract] of [normalize_host]. *)
Definition extract (host_str : option string) : option string :=
  h ← trim_matches DOT <$> host_str;
  let h := default h (strip_prefix "[" h ≫= strip_last "]"%char) in
  non_empty h.

Definition try_parse (s : string) : option string := url_parse s ≫= extract.

(** [normalize_host]. *)
Definition normalize_host (value : string) : option string :=
  let trimmed := to_ascii_lowercase (trim_matches DOT (trim value)) in
  if String.eqb trimmed "" then None
  else match try_parse trimmed with
       | Some host => Some host
       | None =>
         match try_parse ("dummy://" +:+ trimmed) with
         | Some host => Some host
         | None =>
           non_empty (trim_matches DOT (trim_end_matches "]"%char
             (trim_start_matches "["%char (trim_matches DOT trimmed))))
         end
       end.

(** [domains_match]. *)
Definition domains_match (request_domain entry_url_or_domain : string) : bool :=
  match normalize_host request_domain, normalize_host entry_url_or_domain with
  | Some request_host, Some entry_host =>
    String.eqb request_host entry_host
    || ends_with ("." +:+ entry_host) request_host || ends_with ("." +:+ request_host) entry_host
  | _, _ => false
  end.

(** [domain_chain_suffixes]: the loop over the labels, up to the cap. *)
Fixpoint chains (fuel : nat) (labels : list string) : list string :=
  match fuel, labels with
  | S fuel, _ :: rest => join DOT labels :: chains fuel rest
  | _, _ => []
  end.
Definition domain_chain_suffixes (normalized_host : string) : list string :=
  if String.eqb normalized_host "" then [] else chains MAX_CHAIN_TAGS (split_char DOT normalized_host).

Record ChainTags := { root : bytes; suffixes : list bytes }.

(** [ChainTags::all]. *)
Definition all (t : ChainTags) : list bytes := root t :: suffixes t.

(** [compute_chain_tags_for_normalized]; HMAC takes a key of any length. *)
Definition hmac_one (tag_key : bytes) (chain : string) : bytes := hmac_sha256 tag_key (as_bytes chain).
Definition compute_chain_tags_for_normalized (tag_key : bytes) (normalized_host : string) : option ChainTags :=
  match domain_chain_suffixes normalized_host with
  | [] => None
  | root_chain :: rest => Some {| root := hmac_one tag_key root_chain; suffixes := List.map (hmac_one tag_key) rest |}
  end.

(** [compute_domain_chain_tags]. *)
Definition compute_domain_chain_tags (tag_key : bytes) (host : string) : option ChainTags :=
  normalize_host host ≫= compute_chain_tags_for_normalized tag_key.

(** [ct_set_contains]: every member is compared. *)
Definition ct_set_contains (set : list bytes) (needle : bytes) : bool :=
  fold_left (fun hit m => hit || bool_decide (m = needle)) set false.

(** [chain_tag_sets_match]. *)
Definition chain_tag_sets_match (a b : ChainTags) : bool :=
  ct_set_contains (all b) (root a) || ct_set_contains (all a) (root b).
End Domain.

(** ** Suffix chains *)

Lemma ends_with_spec suffix s : ends_with suffix s = true <-> exists p, s = p +:+ suffix.
Proof.
  induction s as [|a s IH]; simpl.
  - rewrite orb_false_r. split.
    + intros E%String.eqb_eq. by exists EmptyString.
    + intros (p & E). apply String.eqb_eq. destruct p; [by rewrite E|discriminate].
  - rewrite orb_true_iff, IH. split.
    + intros [E%String.eqb_eq|(p & ->)]; [by exists EmptyString|by exists (String a p)].
    + intros ([|b p] & E); [left; by apply String.eqb_eq|]. right. injection E as -> ->. eauto.
Qed.

Lemma split_char_nonempty c s : split_char c s <> [].
Proof. destruct s as [|a s]; simpl; [done|]. case_match; [done|]. by destruct (split_char c s). Qed.

Lemma join_cons c l ls : ls <> [] -> join c (l :: ls) = l +:+ String c (join c ls).
Proof. by destruct ls. Qed.

Lemma join_split c s : join c (split_char c s) = s.
Proof.
  induction s as [|a s IH]; [done|]. cbn [split_char]. destruct (Ascii.eqb a c) eqn:E.
  - apply Ascii.eqb_eq in E as ->. rewrite join_cons by apply split_char_nonempty. by rewrite IH.
  - pose proof (split_char_nonempty c s). destruct (split_char c s) as [|l ls]; [done|].
    destruct ls as [|l' ls]; [simpl in *; congruence|]. rewrite <- IH, !join_cons by done. reflexivity.
Qed.

(** No piece of a split contains the separator. *)
Definition free (c : ascii) : string -> bool := all_chars (fun a => negb (Ascii.eqb a c)).

Lemma split_char_free c s : Forall (fun l => free c l = true) (split_char c s).
Proof.
  induction s as [|a s IH]; [by repeat constructor|]. cbn [split_char]. destruct (Ascii.eqb a c) eqn:E; [by constructor|].
  pose proof (split_char_nonempty c s). destruct IH as [|l ls Hl Hls]; [done|]. constructor; [|done].
  unfold free in *. simpl. by rewrite E, Hl.
Qed.

(** A separator-free prefix of a text is cut off at the first separator. *)
Lemma free_cut c l r p t :
  free c l = true -> l +:+ String c r = p +:+ String c t ->
  (p = l /\ r = t) \/ exists p', p = l +:+ String c p' /\ r = p' +:+ String c t.
Proof.
  revert p. induction l as [|a l IH]; intros p Hf E; simpl in *.
  - destruct p as [|b p]; simpl in E; [injection E as ->; by left|]. injection E as <- ->. right. by exists p.
  - unfold free in *. simpl in Hf. apply andb_true_iff in Hf as [Ha Hf]. destruct p as [|b p]; injection E as E1 E2.
    + subst a. by rewrite Ascii.eqb_refl in Ha.
    + subst b. destruct (IH _ Hf E2) as [[-> ->]|(p' & -> & ->)]; [by left|right; eauto].
Qed.

Lemma append_sep (a b : string) c t : a +:+ String c (b +:+ t) = (a +:+ String c b) +:+ t.
Proof. induction a as [|x a IH]; [done|]. exact (f_equal (String x) IH). Qed.

Lemma free_no_sep c l p t : free c l = true -> l <> p +:+ String c t.
Proof.
  intros Hf ->. unfold free in Hf. rewrite all_chars_app in Hf. simpl in Hf.
  rewrite Ascii.eqb_refl in Hf. simpl in Hf. by rewrite andb_false_r in Hf.
Qed.

Lemma chains_spec n ls h :
  Forall (fun l => free DOT l = true) ls -> ls <> [] -> (length ls <= n)%nat ->
  h ∈ chains n ls <-> h = join DOT ls \/ exists p, join DOT ls = p +:+ String DOT h.
Proof.
  revert n. induction ls as [|l ls IH]; intros n Hf Hne Hn; [done|]. inversion_clear Hf as [|? ? Hl Hls].
  destruct n as [|n]; simpl in Hn; [lia|]. cbn [chains]. rewrite elem_of_cons.
  destruct (decide (ls = [])) as [->|Hne'].
  - assert (chains n [] = []) as -> by (by destruct n). split.
    + intros [E|E]; [by left|]. by apply elem_of_nil in E.
    + intros [E|(p & E)]; [by left|]. simpl in E. by apply free_no_sep in E.
  - rewrite join_cons by done. rewrite IH by (done || lia). split.
    + intros [E|[->|(p & E)]]; [by left|right; by exists l|right]. exists (l +:+ String DOT p). by rewrite E, append_sep.
    + intros [E|(p & E)]; [by left|right]. apply free_cut in E as [[-> E]|(p' & _ & E)]; [by left|right; by exists p'|done].
Qed.

(** The chains up to any length are among the suffixes. *)
Lemma chains_sound n ls h :
  Forall (fun l => free DOT l = true) ls ->
  h ∈ chains n ls -> h = join DOT ls \/ exists p, join DOT ls = p +:+ String DOT h.
Proof.
  intros Hf Hin. destruct ls as [|l ls]; [destruct n; by apply elem_of_nil in Hin|].
  revert l ls Hf Hin. induction n as [|n IH]; intros l ls Hf Hin; [by apply elem_of_nil in Hin|].
  cbn [chains] in Hin. apply elem_of_cons in Hin as [->|Hin]; [by left|].
  destruct ls as [|l' ls]; [destruct n; by apply elem_of_nil in Hin|]. inversion_clear Hf as [|? ? Hl Hls].
  rewrite join_cons by done. right. destruct (IH _ _ Hls Hin) as [->|(p & ->)]; [by exists l|].
  exists (l +:+ String DOT p). apply append_sep.
Qed.

Lemma ct_set_contains_spec set n : ct_set_contains set n = true <-> n ∈ set.
Proof.
  unfold ct_set_contains.
  assert (forall hit, fold_left (fun hit m => hit || bool_decide (m = n)) set hit = true <-> hit = true \/ n ∈ set) as G.
  { induction set as [|m set IH]; intros hit; simpl.
    - split; [by left|intros [E|E]; [done|by apply elem_of_nil in E]].
    - rewrite IH, orb_true_iff, elem_of_cons, bool_decide_eq_true. naive_solver. }
  rewrite G. naive_solver.
Qed.

(** ** Tags against hosts *)

Section Facts.
Context `{UrlParse, Hmac}.

Lemma normalize_host_nonempty v h : normalize_host v = Some h -> h <> EmptyString.
Proof.
  assert (forall s h, non_empty s = Some h -> h <> EmptyString) as N.
  { intros s h' E ->. unfold non_empty in E. destruct (String.eqb s "") eqn:Es; [discriminate|].
    injection E as ->. discriminate. }
  assert (forall s h, try_parse s = Some h -> h <> EmptyString) as T.
  { intros s h' E. unfold try_parse in E. apply bind_Some in E as (o & _ & E). unfold extract in E.
    apply bind_Some in E as (x & _ & E). eauto. }
  unfold normalize_host. intros E. repeat case_match; simplify_eq; eauto.
Qed.

Lemma compute_tags_inv key v t :
  compute_domain_chain_tags key v = Some t ->
  exists h, normalize_host v = Some h /\ root t = hmac_one key h /\
    domain_chain_suffixes h = chains MAX_CHAIN_TAGS (split_char DOT h) /\
    all t = List.map (hmac_one key) (domain_chain_suffixes h).
Proof.
  unfold compute_domain_chain_tags. intros (h & Hh & E)%bind_Some. exists h. split; [done|].
  unfold compute_chain_tags_for_normalized, domain_chain_suffixes in *.
  apply normalize_host_nonempty in Hh. apply String.eqb_neq in Hh. rewrite Hh in *.
  change MAX_CHAIN_TAGS with (S 9) in *. cbn [chains] in E |- *. pose proof (split_char_nonempty DOT h) as Hne.
  pose proof (join_split DOT h) as J. destruct (split_char DOT h) as [|l ls]; [done|]. rewrite J in E |- *.
  injection E as <-. by split_and!.
Qed.

(** One host is the other or a dot-suffix of it. *)
Definition under (h g : string) : Prop := h = g \/ exists p, g = p +:+ String DOT h.

Lemma domains_match_spec a b ha hb :
  normalize_host a = Some ha -> normalize_host b = Some hb ->
  domains_match a b = true <-> under ha hb \/ under hb ha.
Proof.
  intros Ha Hb. unfold domains_match. rewrite Ha, Hb, !orb_true_iff, String.eqb_eq, !ends_with_spec. unfold under.
  split.
  - intros [[->|E]|E]; auto.
  - intros [[->|E]|[->|E]]; auto.
Qed.

(** The root tag of one host is among the tags of another: the first host is
    above the second, or two different chains have one tag. *)
Lemma root_in_tags key ha hb :
  domain_chain_suffixes hb = chains MAX_CHAIN_TAGS (split_char DOT hb) ->
  hmac_one key ha ∈ List.map (hmac_one key) (domain_chain_suffixes hb) ->
  under ha hb \/ exists c, c ∈ domain_chain_suffixes hb /\ collision (hmac_sha256 key) (as_bytes ha) (as_bytes c).
Proof.
  intros Ec Hin. apply list_elem_of_In, in_map_iff in Hin as (c & Hc & Hin%list_elem_of_In). pose proof Hin as Hin'.
  rewrite Ec in Hin. apply chains_sound in Hin; [|apply split_char_free]. rewrite join_split in Hin.
  destruct (decide (as_bytes ha = as_bytes c)) as [E|E].
  - left. assert (ha = c) as -> by (apply (f_equal string_of_list_byte) in E; unfold as_bytes in E;
      by rewrite !string_of_list_byte_of_string in E). exact Hin.
  - right. by exists c.
Qed.

Lemma tags_of_under key ha hb :
  (length (split_char DOT hb) <= MAX_CHAIN_TAGS)%nat -> under ha hb ->
  domain_chain_suffixes hb = chains MAX_CHAIN_TAGS (split_char DOT hb) ->
  hmac_one key ha ∈ List.map (hmac_one key) (domain_chain_suffixes hb).
Proof.
  intros Hlen Hu ->. apply list_elem_of_In, in_map, list_elem_of_In. apply chains_spec; [apply split_char_free|apply split_char_nonempty|done|].
  by rewrite join_split.
Qed.

(** The encrypted index answers the question [domains_match] asks.  If
    the tag sets of two domains match, their hosts are equal or one is a
    dot-suffix of the other, unless one host and a suffix of the other collide
    under the keyed hash; and hosts of at most [MAX_CHAIN_TAGS] labels that match are
    found through their tags. *)
Theorem tags_decide_match key a b ta tb :
  compute_domain_chain_tags key a = Some ta -> compute_domain_chain_tags key b = Some tb ->
  (chain_tag_sets_match ta tb = true ->
   domains_match a b = true \/
   exists h g c, (normalize_host a = Some h /\ normalize_host b = Some g \/ normalize_host a = Some g /\ normalize_host b = Some h) /\
     c ∈ domain_chain_suffixes g /\ collision (hmac_sha256 key) (as_bytes h) (as_bytes c)) /\
  ((forall h, normalize_host a = Some h \/ normalize_host b = Some h ->
      (length (split_char DOT h) <= MAX_CHAIN_TAGS)%nat) ->
   domains_match a b = true -> chain_tag_sets_match ta tb = true).
Proof.
  intros (ha & Ha & Ra & Sa & Aa)%compute_tags_inv (hb & Hb & Rb & Sb & Ab)%compute_tags_inv.
  rewrite (domains_match_spec _ _ _ _ Ha Hb). unfold chain_tag_sets_match.
  rewrite orb_true_iff, !ct_set_contains_spec, Ra, Rb, Aa, Ab. split.
  - intros [E|E]; apply root_in_tags in E as [U|(c & C1 & C2)]; auto; right; eauto 12.
  - intros Hlen [U|U]; [left|right]; apply tags_of_under; auto.
Qed.
End Facts.

(** ** Witness *)

Module Demo.
Export Concrete.

(** A URL parser for [scheme://host/path]. *)
#[export] Instance simple_url : UrlParse := fun s =>
  match split_once_str "://" s with
  | Some (_, rest) => Some (Some (match split_once "/"%char rest with Some (host, _) => host | None => rest end))
  | None => None
  end.

Definition no_tags : ChainTags := {| root := []; suffixes := [] |}.
Definition tags_of (s : string) : ChainTags := default no_tags (compute_domain_chain_tags [Byte.x01] s).

Lemma tags_decide_match_witness :
  chain_tag_sets_match (tags_of "Login.GitLab.com.") (tags_of "https://gitlab.com/users") = true.
Proof.
  refine (proj2 (tags_decide_match [Byte.x01] "Login.GitLab.com." "https://gitlab.com/users"
    (tags_of "Login.GitLab.com.") (tags_of "https://gitlab.com/users") _ _) _ _).
  - vm_compute. reflexivity.
  - vm_compute. reflexivity.
  - intros h [E|E]; vm_compute in E; injection E as <-; vm_compute; lia.
  - vm_compute. reflexivity.
Defined.
End Demo.
