(* ===== verification/Lockout.v ===== *)
(** * Core: lockout after failed unlocks ([lockout.rs], [vault/mod.rs])

    Two lockout policies over one [failed_attempts] table: [LockoutManager]
    counts the failures of the last hour, [VaultManager::open] counts all
    failures since the last success.  Time is an argument: nanoseconds for
    [Utc::now()], whole seconds for [Utc::now().timestamp()]. *)

From S2P Require Import Prelude.
From Stdlib Require Import ZArith Lia Strings.String.
From stdpp Require Import base list option strings numbers sorting.
Open Scope Z_scope.

Definition DEFAULT_MAX_ATTEMPTS : Z := 5.
Definition LOCKOUT_WINDOW_SECONDS : Z := 3600.

Record LockoutConfig := {
  max_attempts : Z;            (* u32 *)
  base_lockout_seconds : Z;    (* i64 *)
  enabled : bool;
}.

(** [LockoutConfig::default]. *)
Definition default_config : LockoutConfig :=
  {| max_attempts := DEFAULT_MAX_ATTEMPTS; base_lockout_seconds := 60; enabled := true |}.

(** A row of [failed_attempts]. *)
Record Attempt := { attempt_time : Z; ip_address : option string }.
Definition failed_attempts := list Attempt.

(** [Utc::now().timestamp()] of a clock in nanoseconds. *)
Definition timestamp (now : Z) : Z := now / 10 ^ 9.

(** [LockoutConfig::calculate_lockout_duration], in seconds. *)
Definition calculate_lockout_duration (c : LockoutConfig) (failed : Z) : option Z :=
  if negb (enabled c) || (failed <? max_attempts c) then None
  else
    let excess_attempts := failed - max_attempts c in
    Some (base_lockout_seconds c * 2 ^ Z.min excess_attempts 10).

(** [LockoutManager::record_failed_attempt]. *)
Definition record_failed_attempt (now : Z) (ip : option string) (t : failed_attempts) : failed_attempts :=
  {| attempt_time := timestamp now; ip_address := ip |} :: t.

(** [SELECT COUNT( * ) .. WHERE attempt_time > cutoff]. *)
Definition get_recent_failed_attempts (now within_seconds : Z) (t : failed_attempts) : Z :=
  Z.of_nat (length (filter (fun a => timestamp now - within_seconds < attempt_time a) t)).
Definition get_total_failed_attempts (t : failed_attempts) : Z := Z.of_nat (length t).

(** [SELECT MAX(attempt_time)]: the rows hold clock readings, which [chrono]
    converts to a date unchanged. *)
Definition max_attempt_time (t : failed_attempts) : option Z :=
  match t with
  | [] => None
  | a :: t => Some (foldl (fun m b => Z.max m (attempt_time b)) (attempt_time a) t)
  end.

(** [LockoutManager::is_locked_out]: [now] is compared with its fraction. *)
Definition is_locked_out (c : LockoutConfig) (now : Z) (t : failed_attempts) : bool :=
  if negb (enabled c) then false
  else match calculate_lockout_duration c (get_recent_failed_attempts now LOCKOUT_WINDOW_SECONDS t) with
  | None => false
  | Some d =>
    match max_attempt_time t with
    | Some last_attempt => now <? (last_attempt + d) * 10 ^ 9
    | None => false
    end
  end.

(** [LockoutManager::get_remaining_lockout_seconds]: [num_seconds] truncates. *)
Definition get_remaining_lockout_seconds (c : LockoutConfig) (now : Z) (t : failed_attempts) : option Z :=
  if negb (enabled c) then None
  else match calculate_lockout_duration c (get_recent_failed_attempts now LOCKOUT_WINDOW_SECONDS t) with
  | None => None
  | Some d =>
    match max_attempt_time t with
    | Some last_attempt =>
      let remaining := Z.quot ((last_attempt + d) * 10 ^ 9 - now) (10 ^ 9) in
      if 0 <? remaining then Some remaining else None
    | None => None
    end
  end.

(** [clear_failed_attempts] and [clear_old_attempts]. *)
Definition clear_failed_attempts (t : failed_attempts) : failed_attempts := [].
Definition clear_old_attempts (now older_than_seconds : Z) (t : failed_attempts) : Z * failed_attempts :=
  let cutoff := timestamp now - older_than_seconds in
  (Z.of_nat (length (filter (fun a => attempt_time a < cutoff) t)), filter (fun a => ~ attempt_time a < cutoff) t).

(** ** The policy of [VaultManager::open] *)

Module Vault.

(** [VaultManager::lockout_duration_seconds]. *)
Definition lockout_duration_seconds (total_failed_attempts : Z) : option Z :=
  if total_failed_attempts <? DEFAULT_MAX_ATTEMPTS then None
  else
    let excess_attempts := total_failed_attempts - DEFAULT_MAX_ATTEMPTS in
    Some (60 * 2 ^ Z.min excess_attempts 10).

(** [VaultManager::get_remaining_lockout_seconds]; here [now] is a timestamp. *)
Definition vault_remaining_lockout_seconds (now : Z) (t : failed_attempts) : option Z :=
  match lockout_duration_seconds (get_total_failed_attempts t) with
  | None => None
  | Some d =>
    match max_attempt_time t with
    | None => None
    | Some last =>
      let elapsed := now - last in
      let remaining := d - elapsed in
      if 0 <? remaining then Some remaining else None
    end
  end.

(** [VaultManager::record_failed_attempt]. *)
Definition vault_record_failed_attempt (now : Z) (t : failed_attempts) : failed_attempts :=
  {| attempt_time := now; ip_address := None |} :: t.

Inductive OpenOutcome := Refused (remaining : Z) | GuardError | WrongPassword | Opened.

(** The lockout part of [VaultManager::open]: the gate, then the steps that
    may fail without trying the password ([guard_ok]), then the unlock
    ([password_ok]), a failure of which is recorded. *)
Definition open (now : Z) (guard_ok password_ok : bool) (t : failed_attempts) : OpenOutcome * failed_attempts :=
  match vault_remaining_lockout_seconds now t with
  | Some remaining => (Refused remaining, t)
  | None =>
    if negb guard_ok then (GuardError, t)
    else if password_ok then (Opened, clear_failed_attempts t)
    else
      let t := vault_record_failed_attempt now t in
      (match vault_remaining_lockout_seconds now t with
       | Some remaining => Refused remaining
       | None => WrongPassword
       end, t)
  end.

(** A history of opens, oldest first: the clock, and the two verdicts. *)
Fixpoint opens (h : list (Z * bool * bool)) (t : failed_attempts) : failed_attempts :=
  match h with
  | [] => t
  | (now, g, p) :: h => opens h (open now g p t).2
  end.

(** ** The guessing rate *)

(** The wait after the [n]-th failure. *)
Definition wait (n : nat) : Z := default 0 (lockout_duration_seconds (Z.of_nat n)).

(** The recorded failures, newest first, are apart by the wait of their rank. *)
Fixpoint spaced (t : failed_attempts) : Prop :=
  match t with
  | a :: (b :: _) as t => attempt_time b + wait (length t) <= attempt_time a /\ spaced t
  | _ => True
  end.

(** The least time [n] failures take. *)
Fixpoint least_time (n : nat) : Z :=
  match n with
  | O => 0
  | S n => least_time n + wait n
  end.

Lemma wait_nonneg n : 0 <= wait n.
Proof.
  unfold wait, lockout_duration_seconds. destruct (_ <? _); simpl; [lia|].
  pose proof (Z.pow_nonneg 2 (Z.min (Z.of_nat n - DEFAULT_MAX_ATTEMPTS) 10)). lia.
Qed.

(** [spaced] tables are in order, so the newest row is the maximum. *)
Lemma foldl_max_ge m t : Forall (fun b => attempt_time b <= m) t ->
  foldl (fun m b => Z.max m (attempt_time b)) m t = m.
Proof. induction 1 as [|b t Hb _ IH]; simpl; [done|]. by rewrite Z.max_l. Qed.

Lemma spaced_newest a t : spaced (a :: t) -> Forall (fun b => attempt_time b <= attempt_time a) t.
Proof.
  revert a. induction t as [|b t IH]; intros a Hs; [constructor|]. destruct Hs as [Hab Hs].
  pose proof (wait_nonneg (length (b :: t))). constructor; [lia|].
  eapply Forall_impl; [exact (IH b Hs)|]. intros x Hx. simpl in *. lia.
Qed.

Lemma spaced_max a t : spaced (a :: t) -> max_attempt_time (a :: t) = Some (attempt_time a).
Proof. intros Hs. simpl. f_equal. by apply foldl_max_ge, spaced_newest. Qed.

(** A gate that lets an attempt through does so after the wait. *)
Lemma gate_open now a t :
  spaced (a :: t) -> vault_remaining_lockout_seconds now (a :: t) = None -> attempt_time a <= now ->
  attempt_time a + wait (length (a :: t)) <= now.
Proof.
  unfold vault_remaining_lockout_seconds, wait, get_total_failed_attempts. intros Hs.
  rewrite (spaced_max a t Hs). destruct (lockout_duration_seconds _) as [d|]; simpl; [|lia].
  destruct (0 <? _) eqn:E; [done|]. propify. lia.
Qed.

(** The table is spaced, and its rows are not from the future. *)
Definition inv (now : Z) (t : failed_attempts) : Prop := spaced t /\ Forall (fun a => attempt_time a <= now) t.

Lemma open_inv now g p t : inv now t -> inv now (open now g p t).2.
Proof.
  intros [Hs Hf]. unfold open.
  destruct (vault_remaining_lockout_seconds now t) eqn:Eg; [done|]. destruct g; [|done].
  destruct p; simpl; [by split|]. split; [|by constructor].
  destruct t as [|a t]; [done|]. split; [|done]. inversion_clear Hf. by apply gate_open.
Qed.

Lemma inv_later now now' t : now <= now' -> inv now t -> inv now' t.
Proof. intros Hn [Hs Hf]. split; [done|]. eapply Forall_impl; [exact Hf|]. simpl. lia. Qed.

Lemma opens_inv h now t now' :
  StronglySorted Z.le (now :: (fst ∘ fst <$> h)) -> last (now :: (fst ∘ fst <$> h)) = Some now' ->
  inv now t -> inv now' (opens h t).
Proof.
  revert now t. induction h as [|[[n g] p] h IH]; intros now t Hs Hl Hi; simpl in *.
  - by injection Hl as <-.
  - apply StronglySorted_inv in Hs as [Hs Hf]. inversion_clear Hf.
    apply (IH n); [done|done|]. apply open_inv. by apply (inv_later now).
Qed.

Lemma spaced_least_time a t b : spaced (a :: t) -> last (a :: t) = Some b ->
  least_time (length (a :: t)) <= attempt_time a - attempt_time b + least_time 1.
Proof.
  revert a. induction t as [|c t IH]; intros a Hs Hl.
  - injection Hl as <-. simpl. lia.
  - destruct Hs as [Hac Hs]. specialize (IH c Hs Hl). cbn [length] in *.
    change (least_time (S (S (length t)))) with (least_time (S (length t)) + wait (S (length t))). lia.
Qed.

(** The guessing rate: from an empty table, whatever the sequence of
    opens under a clock that does not go back, after [n] recorded failures
    since the last success at least the sum of the waits has passed between
    the first and the last of them: nothing for five guesses, then one minute
    doubling up to 1024 minutes per guess. *)
Theorem guesses_take_time h now a b t :
  StronglySorted Z.le (now :: (fst ∘ fst <$> h)) -> opens h [] = a :: t -> last (a :: t) = Some b ->
  least_time (length (a :: t)) <= attempt_time a - attempt_time b.
Proof.
  intros Hs Ho Hl. destruct (last (now :: (fst ∘ fst <$> h))) as [now'|] eqn:El.
  - destruct (opens_inv h now [] now' Hs El) as [Hsp _]; [by split|]. rewrite Ho in Hsp.
    pose proof (spaced_least_time a t b Hsp Hl) as Hlt. change (least_time 1) with 0 in Hlt. lia.
  - by apply last_None in El.
Qed.

Lemma guesses_take_time_witness :
  least_time 7 <= 1180 - 1000.
Proof.
  apply (guesses_take_time
    [(1000, true, false); (1000, true, false); (1000, true, false); (1000, true, false); (1000, true, false);
     (1001, true, true); (1060, true, false); (1060, true, true); (1180, true, false)] 0
    {| attempt_time := 1180; ip_address := None |} {| attempt_time := 1000; ip_address := None |}
    [{| attempt_time := 1060; ip_address := None |}; {| attempt_time := 1000; ip_address := None |};
     {| attempt_time := 1000; ip_address := None |}; {| attempt_time := 1000; ip_address := None |};
     {| attempt_time := 1000; ip_address := None |}; {| attempt_time := 1000; ip_address := None |}]).
  - repeat constructor; simpl; lia.
  - reflexivity.
  - reflexivity.
Defined.

(** Ten failures take more than half an hour, thirteen more than four. *)
Example ten_guesses : least_time 10 = 1860.
Proof. reflexivity. Qed.
Example thirteen_guesses : least_time 13 = 15300.
Proof. reflexivity. Qed.

End Vault.

(** ** The policy of [LockoutManager] *)

Lemma max_attempt_time_spec t m : max_attempt_time t = Some m -> Forall (fun a => attempt_time a <= m) t.
Proof.
  destruct t as [|a t]; [done|]. simpl. intros [= <-].
  assert (forall m, m <= foldl (fun m b => Z.max m (attempt_time b)) m t /\
    Forall (fun b => attempt_time b <= foldl (fun m b => Z.max m (attempt_time b)) m t) t) as Hm.
  { induction t as [|b t IH]; intros m; simpl; [split; [lia|constructor]|].
    destruct (IH (Z.max m (attempt_time b))) as [H1 H2]. split; [lia|]. constructor; [lia|done]. }
  constructor; apply Hm.
Qed.

(** An hour after the last failure [LockoutManager] always lets go, also
    where the backoff asks for more (up to 1024 minutes with the defaults):
    the failures that justify the lockout have left the counting window. *)
Theorem lockout_ends_with_window c now t :
  0 < max_attempts c -> Forall (fun a => attempt_time a + LOCKOUT_WINDOW_SECONDS <= timestamp now) t ->
  is_locked_out c now t = false /\ get_remaining_lockout_seconds c now t = None.
Proof.
  intros Hm Hf. unfold is_locked_out, get_remaining_lockout_seconds, get_recent_failed_attempts.
  rewrite (filter_none (fun a => timestamp now - LOCKOUT_WINDOW_SECONDS < attempt_time a)) by (eapply Forall_impl; [exact Hf|]; simpl; lia).
  unfold calculate_lockout_duration. change (Z.of_nat (length [])) with 0.
  rewrite (proj2 (Z.ltb_lt 0 (max_attempts c)) Hm), orb_true_r.
  by destruct (enabled c).
Qed.

Lemma lockout_ends_with_window_witness :
  let t := repeat {| attempt_time := 0; ip_address := None |} 12 in
  calculate_lockout_duration default_config 12 = Some 7680 /\
  is_locked_out default_config (3600 * 10 ^ 9) t = false /\
  get_remaining_lockout_seconds default_config (3600 * 10 ^ 9) t = None.
Proof.
  split; [reflexivity|]. apply (lockout_ends_with_window default_config (3600 * 10 ^ 9)).
  - reflexivity.
  - repeat constructor; vm_compute; discriminate.
Defined.

(** A refusal with a remaining time is a lockout; in its last second the
    vault is locked but no remaining time is reported. *)
Lemma remaining_is_locked c now t r :
  get_remaining_lockout_seconds c now t = Some r -> is_locked_out c now t = true /\ 0 < r.
Proof.
  unfold get_remaining_lockout_seconds, is_locked_out. destruct (negb (enabled c)); [done|].
  destruct (calculate_lockout_duration _ _) as [d|]; [|done]. destruct (max_attempt_time t) as [l|]; [|done].
  destruct (0 <? _) eqn:E; [|done]. propify. intros [= <-]. split; [|done]. apply Z.ltb_lt.
  set (x := (l + d) * 10 ^ 9) in *. destruct (Z.lt_ge_cases now x) as [|Hge]; [done|].
  assert (Z.quot (x - now) (10 ^ 9) <= Z.quot 0 (10 ^ 9)) by (apply Z.quot_le_mono; lia).
  rewrite Z.quot_0_l in * by done. lia.
Qed.

(** A success resets both policies. *)
Lemma clear_unlocks c now t : is_locked_out c now (clear_failed_attempts t) = false.
Proof. unfold is_locked_out, clear_failed_attempts. simpl. by destruct (enabled c), (calculate_lockout_duration c _). Qed.
