(* ===== verification/KeySlots.v ===== *)
(** * Core: the key-slot registry ([vault/slot_ops.rs])

    The rows of [key_slots], the registry MAC over their canonical form, and
    the operations on a connection that the vault's commands are made of.  The
    authority row [db_metadata] with id 1 and the table are a record; a
    statement returns the new one.  Statements of SQLite itself do not fail
    here, except an insert under a primary key in use. *)

From S2P Require Import Prelude Text ThirdParty Envelope Keyring DbWire CoreError SyncWire EpochGuard Lockout.
From Stdlib Require Import ZArith Lia Strings.String Strings.Byte.
From stdpp Require Import base list option strings numbers sorting.
Open Scope Z_scope.

Definition SLOT_REGISTRY_MAC_INFO : bytes := as_bytes "sentinelpass-slot-registry-mac-v1".

Inductive SlotType := SPassword | SRecovery | SPlatform | STrustedDevice.
#[global] Instance SlotType_eq_dec : EqDecision SlotType.
Proof. solve_decision. Defined.

(** [SlotType::as_str], [SlotType::from_db]. *)
Definition slot_type_str (t : SlotType) : string :=
  match t with
  | SPassword => "password"
  | SRecovery => "recovery"
  | SPlatform => "platform"
  | STrustedDevice => "trusted_device"
  end.
Definition slot_type_from_db (s : string) : Res SlotType :=
  if String.eqb s "password" then Ok SPassword
  else if String.eqb s "recovery" then Ok SRecovery
  else if String.eqb s "platform" then Ok SPlatform
  else if String.eqb s "trusted_device" then Ok STrustedDevice
  else Err (InvalidInput "unknown slot type").

(** A slot with its type as [T]: text in a row of the table, the enumeration
    in a loaded [KeySlot]. *)
Record Slot (T : Type) := {
  slot_uuid : string;
  slot_type : T;
  ks_kdf_params : bytes;
  ks_wrapped_dek : bytes;
  ks_dek_nonce : bytes;
  ks_key_epoch : Z;            (* i64 *)
  created_at : Z;              (* i64 *)
  revoked_at : option Z;
  format_version : Z;          (* i64 *)
}.
Arguments slot_uuid {T} _.
Arguments slot_type {T} _.
Arguments ks_kdf_params {T} _.
Arguments ks_wrapped_dek {T} _.
Arguments ks_dek_nonce {T} _.
Arguments ks_key_epoch {T} _.
Arguments created_at {T} _.
Arguments revoked_at {T} _.
Arguments format_version {T} _.
Abbreviation KeySlot := (Slot SlotType).
Abbreviation SlotRow := (Slot string).

Definition with_type {T U} (t : U) (s : Slot T) : Slot U := {|
  slot_uuid := slot_uuid s; slot_type := t; ks_kdf_params := ks_kdf_params s; ks_wrapped_dek := ks_wrapped_dek s;
  ks_dek_nonce := ks_dek_nonce s; ks_key_epoch := ks_key_epoch s; created_at := created_at s;
  revoked_at := revoked_at s; format_version := format_version s |}.

(** [SlotSummary]. *)
Record SlotSummary := {
  sum_slot_uuid : string;
  sum_slot_type : SlotType;
  sum_key_epoch : Z;
  sum_created_at : Z;
  sum_revoked_at : option Z;
  usable : bool;
}.

(** The columns of [db_metadata] that hold authority, the table [key_slots]
    and the table [failed_attempts]. *)
Record VaultDb := {
  kdf_params_col : bytes;
  wrapped_dek_col : bytes;
  dek_nonce_col : bytes;
  slot_registry_mac : option bytes;
  vault_uuid_col : option string;
  key_epoch_col : Z;           (* i64, NOT NULL *)
  key_slots : list SlotRow;
  attempts : failed_attempts;
}.

(** [COALESCE(key_epoch, 1)] of a column that is not null. *)
Definition epoch_of (db : VaultDb) : Z := key_epoch_col db.

(** [feed_len_prefixed]: what the MAC is fed. *)
Definition feed (b : bytes) : bytes := len_le b ++ b.

(** The order of the rows under the MAC: by [slot_uuid], bytewise. *)
Definition slot_le (a b : KeySlot) : Prop := String.leb (slot_uuid a) (slot_uuid b) = true.
#[global] Instance slot_le_dec : RelDecision slot_le.
Proof. intros a b. unfold slot_le. apply _. Defined.

Definition slot_message (s : KeySlot) : bytes :=
  feed (as_bytes (slot_uuid s)) ++ feed (as_bytes (slot_type_str (slot_type s))) ++ feed (ks_kdf_params s) ++
  feed (ks_wrapped_dek s) ++ feed (ks_dek_nonce s) ++ feed (i64_to_le_bytes (ks_key_epoch s)) ++
  feed (i64_to_le_bytes (created_at s)) ++
  feed (match revoked_at s with Some ts => i64_to_le_bytes ts | None => [] end) ++
  feed (i64_to_le_bytes (format_version s)).
Definition registry_message (slots : list KeySlot) (vault_epoch : Z) : bytes :=
  let ordered := merge_sort slot_le slots in
  feed (reverse (to_be_bytes 8 (Z.of_nat (length ordered)))) ++ feed (i64_to_le_bytes vault_epoch) ++
  mjoin (slot_message <$> ordered).

Section Slots.
Context `{Hmac, Sha256}.

(** [derive_registry_mac_key]. *)
Definition derive_registry_mac_key (dek : bytes) : Res bytes :=
  ok_or (hkdf_expand dek SLOT_REGISTRY_MAC_INFO 32) (InvalidInput "registry MAC key derivation failed").

(** [compute_registry_mac]. *)
Definition compute_registry_mac (mac_key : bytes) (slots : list KeySlot) (vault_epoch : Z) : bytes :=
  hmac_sha256 mac_key (registry_message slots vault_epoch).

(** [load_key_slots]: a row with an unknown type fails the load. *)
Definition load_slot (r : SlotRow) : Res KeySlot :=
  t ← slot_type_from_db (slot_type r); Ok (with_type t r).
Fixpoint load_rows (rows : list SlotRow) : Res (list KeySlot) :=
  match rows with
  | [] => Ok []
  | r :: rows => s ← load_slot r; l ← load_rows rows; Ok (s :: l)
  end.
Definition load_key_slots (db : VaultDb) : Res (list KeySlot) := load_rows (key_slots db).

(** [list_key_slots]. *)
Definition list_key_slots (db : VaultDb) : Res (list SlotSummary) :=
  slots ← load_key_slots db;
  Ok (List.map (fun s : KeySlot => {|
        sum_slot_uuid := slot_uuid s; sum_slot_type := slot_type s; sum_key_epoch := ks_key_epoch s;
        sum_created_at := created_at s; sum_revoked_at := revoked_at s; usable := bool_decide (revoked_at s = None) |})
        slots).

(** [KeyHierarchy::dek] as the vault's operations call it. *)
Definition hierarchy_dek (h : KeyHierarchy) : Res bytes := map_err Crypto (get_dek h).

(** [verify_slot_registry]. *)
Definition verify_slot_registry (h : KeyHierarchy) (db : VaultDb) : Res unit :=
  dek ← hierarchy_dek h;
  stored ← ok_or (slot_registry_mac db) (InvalidInput "slot registry MAC is missing from the vault; refusing to open");
  slots ← load_key_slots db;
  key ← derive_registry_mac_key dek;
  err_if (negb (bool_decide (compute_registry_mac key slots (epoch_of db) = stored))) SlotRegistryTampered.

(** [commit_slot_registry]. *)
Definition commit_slot_registry (h : KeyHierarchy) (slots : list KeySlot) (db : VaultDb) : Res VaultDb :=
  dek ← hierarchy_dek h;
  key ← derive_registry_mac_key dek;
  Ok {| db with slot_registry_mac := Some (compute_registry_mac key slots (epoch_of db)) |}.

(** [INSERT INTO key_slots]: [slot_uuid] is the primary key. *)
Definition insert_slot (r : SlotRow) (db : VaultDb) : Res VaultDb :=
  _ ← err_if (existsb (fun q => String.eqb (slot_uuid q) (slot_uuid r)) (key_slots db)) (Database Sqlite);
  Ok {| db with key_slots := key_slots db ++ [r] |}.

Definition password_row (uuid : string) (kdf wrapped non : bytes) (epoch now : Z) : SlotRow := {|
  slot_uuid := uuid; slot_type := "password"; ks_kdf_params := kdf; ks_wrapped_dek := wrapped; ks_dek_nonce := non;
  ks_key_epoch := epoch; created_at := now; revoked_at := None; format_version := 1 |}.

(** [ensure_password_slot]; [fresh] is the new UUID. *)
Definition ensure_password_slot (now : Z) (fresh : string) (kdf wrapped non : bytes) (epoch : Z) (db : VaultDb)
    : Res VaultDb :=
  if (0 <? length (key_slots db))%nat then Ok db
  else insert_slot (password_row fresh kdf wrapped non epoch now) db.

(** [sync_password_slot_after_material_change]. *)
Definition update_password_row (kdf wrapped non : bytes) (epoch : Z) (r : SlotRow) : SlotRow :=
  if String.eqb (slot_type r) "password" && bool_decide (revoked_at r = None)
  then {| slot_uuid := slot_uuid r; slot_type := slot_type r; ks_kdf_params := kdf; ks_wrapped_dek := wrapped;
          ks_dek_nonce := non; ks_key_epoch := epoch; created_at := created_at r; revoked_at := revoked_at r;
          format_version := format_version r |}
  else r.
Definition sync_password_slot_after_material_change (now : Z) (fresh : string) (h : KeyHierarchy)
    (kdf wrapped non : bytes) (epoch : Z) (replace_registry : bool) (db : VaultDb) : Res VaultDb :=
  db ← (if replace_registry
        then insert_slot (password_row fresh kdf wrapped non epoch now) {| db with key_slots := [] |}
        else Ok {| db with key_slots := update_password_row kdf wrapped non epoch <$> key_slots db |});
  slots ← load_key_slots db;
  commit_slot_registry h slots db.

(** [UPDATE key_slots SET revoked_at = now WHERE p]. *)
Definition set_revoked (now : Z) (r : SlotRow) : SlotRow := {|
  slot_uuid := slot_uuid r; slot_type := slot_type r; ks_kdf_params := ks_kdf_params r;
  ks_wrapped_dek := ks_wrapped_dek r; ks_dek_nonce := ks_dek_nonce r; ks_key_epoch := ks_key_epoch r;
  created_at := created_at r; revoked_at := Some now; format_version := format_version r |}.
Definition revoke_where (now : Z) (p : SlotRow -> bool) (db : VaultDb) : VaultDb :=
  {| db with key_slots := (fun r => if p r then set_revoked now r else r) <$> key_slots db |}.
Definition is_usable {T} (r : Slot T) : bool := bool_decide (revoked_at r = None).

(** [epoch_guard::material_digest]: the digest of the stored columns. *)
Definition material_digest (db : VaultDb) : bytes :=
  digest_of (kdf_params_col db) (wrapped_dek_col db) (dek_nonce_col db) (default [] (slot_registry_mac db)) (epoch_of db).

(** The transaction of [revoke_key_slot]; the flag says that a row was
    written. *)
Definition revoke_in_tx (now : Z) (h : KeyHierarchy) (target : string) (db : VaultDb) : Res (bool * VaultDb) :=
  _ ← verify_slot_registry h db;
  slots ← load_key_slots db;
  t ← ok_or (List.find (fun s => String.eqb (slot_uuid s) target) slots) (NotFound "slot");
  if negb (is_usable t) then Ok (false, db)
  else
    let usable_after := List.filter (fun s => is_usable s && negb (String.eqb (slot_uuid s) target)) slots in
    _ ← err_if (length usable_after =? 0)%nat (InvalidInput "refusing to revoke the final usable key slot");
    let db := revoke_where now (fun r => String.eqb (slot_uuid r) target) db in
    fresh ← load_key_slots db;
    db ← commit_slot_registry h fresh db;
    Ok (true, db).
End Slots.

(** ** The MAC covers every field of every row *)

Definition slot_wf (s : KeySlot) : Prop :=
  blob_ok (as_bytes (slot_uuid s)) /\ blob_ok (ks_kdf_params s) /\ blob_ok (ks_wrapped_dek s) /\
  blob_ok (ks_dek_nonce s) /\ in_i64 (ks_key_epoch s) /\ in_i64 (created_at s) /\
  (forall ts, revoked_at s = Some ts -> in_i64 ts) /\ in_i64 (format_version s).

Lemma i64_le_length z : length (i64_to_le_bytes z) = 8%nat.
Proof. unfold i64_to_le_bytes. by rewrite length_reverse, to_be_bytes_length. Qed.

Lemma blob_ok_8 b : length b = 8%nat -> blob_ok b.
Proof. unfold blob_ok. intros ->. lia. Qed.

Lemma i64_le_inj x y : in_i64 x -> in_i64 y -> i64_to_le_bytes x = i64_to_le_bytes y -> x = y.
Proof. intros Hx Hy E%reverse_inj'. by apply i64_be_inj. Qed.

Lemma feed_inj a b (r s : bytes) : blob_ok a -> blob_ok b -> feed a ++ r = feed b ++ s -> a = b /\ r = s.
Proof. apply len_prefixed_inj. Qed.

Lemma as_bytes_inj s t : as_bytes s = as_bytes t -> s = t.
Proof.
  intros E. apply (f_equal string_of_list_byte) in E. unfold as_bytes in E.
  by rewrite !string_of_list_byte_of_string in E.
Qed.

Lemma slot_type_blob t : blob_ok (as_bytes (slot_type_str t)).
Proof. unfold blob_ok. destruct t; vm_compute; reflexivity. Qed.

Lemma slot_type_str_inj t u : slot_type_str t = slot_type_str u -> t = u.
Proof. by destruct t, u. Qed.

Ltac feed_step E := apply feed_inj in E as [?E E]; [|solve [done | apply slot_type_blob | apply blob_ok_8, i64_le_length]..].

Lemma revoked_inj (x y : option Z) :
  (forall ts, x = Some ts -> in_i64 ts) -> (forall ts, y = Some ts -> in_i64 ts) ->
  match x with Some ts => i64_to_le_bytes ts | None => [] end = match y with Some ts => i64_to_le_bytes ts | None => [] end ->
  x = y.
Proof.
  intros Hx Hy E. destruct x as [x|], y as [y|]; [|apply (f_equal length) in E; rewrite i64_le_length in E; done..|done].
  f_equal. apply i64_le_inj; auto.
Qed.

Lemma revoked_blob (x : option Z) : blob_ok (match x with Some ts => i64_to_le_bytes ts | None => [] end).
Proof. destruct x; [apply blob_ok_8, i64_le_length|done]. Qed.

Lemma slot_message_inj s t (r r' : bytes) :
  slot_wf s -> slot_wf t -> slot_message s ++ r = slot_message t ++ r' -> s = t /\ r = r'.
Proof.
  intros (Su & Sk & Sw & Sn & Se & Sc & Sr & Sf) (Tu & Tk & Tw & Tn & Te & Tc & Tr & Tf) E.
  unfold slot_message in E. rewrite <- !app_assoc in E.
  do 7 feed_step E. apply feed_inj in E as [Er E]; [|apply revoked_blob..]. feed_step E.
  apply revoked_inj in Er; [|done..]. apply as_bytes_inj in E0. apply as_bytes_inj, slot_type_str_inj in E1.
  apply i64_le_inj in E5, E6, E7; [|done..]. split; [|done]. destruct s, t; simpl in *. congruence.
Qed.

Lemma slot_messages_inj l k :
  Forall slot_wf l -> Forall slot_wf k -> length l = length k ->
  mjoin (slot_message <$> l) = mjoin (slot_message <$> k) -> l = k.
Proof.
  intros Hl. revert k. induction Hl as [|s l Hs Hl IH]; intros [|t k] Hk Hlen E; try done.
  inversion_clear Hk. cbn [fmap list_fmap mjoin list_join] in E. apply slot_message_inj in E as [-> E]; [|done..].
  f_equal. apply IH; [done| |done]. by injection Hlen.
Qed.

Lemma registry_message_inj l k e e' :
  Forall slot_wf l -> Forall slot_wf k -> in_i64 e -> in_i64 e' ->
  Z.of_nat (length l) < 2 ^ 64 -> Z.of_nat (length k) < 2 ^ 64 ->
  registry_message l e = registry_message k e' -> l ≡ₚ k /\ e = e'.
Proof.
  intros Hl Hk He He' Ll Lk E. unfold registry_message in E. cbv zeta in E.
  assert (forall m, length (merge_sort slot_le m) = length m) as Hlen
    by (intros; apply Permutation_length, merge_sort_Permutation).
  apply feed_inj in E as [En E]; [|apply blob_ok_8; by rewrite length_reverse, to_be_bytes_length..].
  feed_step E. apply i64_le_inj in E0; [|done..]. apply reverse_inj', u64_be_inj in En; [|unfold in_u64; rewrite Hlen; lia..].
  apply slot_messages_inj in E; [| |by rewrite merge_sort_Permutation|lia].
  - split; [|done]. rewrite <- (merge_sort_Permutation slot_le l), <- (merge_sort_Permutation slot_le k). by rewrite E.
  - by rewrite merge_sort_Permutation.
Qed.

Section Tamper.
Context `{Hmac, Sha256}.

(** C35. Tampering with the registry.  Let the MAC be the one a commit stored
    for a set of slots at an epoch.  Whatever rows and epoch an attacker then
    writes beside it, verification under the vault's key accepts them only when
    they are the committed slots, row for row (every field, revocations
    included), at the committed epoch, or when their canonical forms collide
    under HMAC with the registry key. *)
Theorem registry_tamper_detected h dek key slots db0 db1 db' slots' :
  hierarchy_dek h = Ok dek -> derive_registry_mac_key dek = Ok key ->
  commit_slot_registry h slots db0 = Ok db1 -> slot_registry_mac db' = slot_registry_mac db1 ->
  load_key_slots db' = Ok slots' ->
  Forall slot_wf slots -> Forall slot_wf slots' -> in_i64 (epoch_of db0) -> in_i64 (epoch_of db') ->
  Z.of_nat (length slots) < 2 ^ 64 -> Z.of_nat (length slots') < 2 ^ 64 ->
  verify_slot_registry h db' = Ok tt ->
  (slots' ≡ₚ slots /\ epoch_of db' = epoch_of db0) \/
  collision (hmac_sha256 key) (registry_message slots' (epoch_of db')) (registry_message slots (epoch_of db0)).
Proof.
  intros Hd Hk Hc Hm Hl W W' E E' L L' Hv. unfold commit_slot_registry in Hc. rewrite Hd in Hc. simpl in Hc.
  rewrite Hk in Hc. simpl in Hc. injection Hc as <-. simpl in Hm. unfold verify_slot_registry in Hv.
  rewrite Hd, Hm, Hl in Hv. simpl in Hv. rewrite Hk in Hv. simpl in Hv. apply err_if_ok in Hv. propify.
  unfold compute_registry_mac in Hv.
  destruct (decide (registry_message slots' (epoch_of db') = registry_message slots (epoch_of db0))) as [P|P].
  - left. by apply registry_message_inj.
  - right. by split.
Qed.
End Tamper.
