(* ===== verification/LocalDb.v ===== *)
(** * Core: the local database ([database/schema.rs], [database/repository.rs])

    The tables of the vault's SQLite file that the modelled operations read
    and write, and the monad its operations run in.  A table with an
    [INTEGER PRIMARY KEY] whose rows are listed is a list in the order of its
    keys (AUTOINCREMENT keys only grow); a table that is only accessed by its
    key is a map.  The columns every synchronised table has are one record.

    A computation runs in a [World]: the database, the receipts file beside
    it, and a counter into the environment, which answers each request for a
    random nonce, a fresh UUID or the outcome of a file write.  A failed
    statement leaves what the statements before it wrote; [transaction] takes
    them back. *)

From S2P Require Import Prelude Text ThirdParty Envelope CoreError EnvelopeOps SyncWire KeySlots.
From Stdlib Require Import ZArith Lia Strings.String Strings.Byte.
From stdpp Require Import base list option strings numbers gmap.
Open Scope Z_scope.

(** ** Rows *)

(** [SyncState] ([sync/models.rs]), as the [sync_state] columns hold it. *)
Inductive SyncState := Synced | Pending | Conflict.
#[global] Instance SyncState_eq_dec : EqDecision SyncState.
Proof. solve_decision. Defined.

Record SyncCols := {
  sync_id : option string;
  sync_version : Z;               (* i64 *)
  sync_acked_version : Z;
  sync_state : SyncState;
  last_synced_at : option Z;
  is_deleted : bool;
  deleted_at : option Z;
}.

(** [entries]; the content columns are those of [RawEntryRow]. *)
Record EntryRow := {
  entry_id : Z;
  e_title : bytes;
  e_username : bytes;
  e_password : bytes;
  e_url : option bytes;
  e_notes : option bytes;
  e_credential_type : string;
  entry_nonce : bytes;
  e_auth_tag : bytes;
  e_created_at : Z;
  e_modified_at : Z;
  e_favorite : bool;
  e_sync : SyncCols;
}.

(** [domain_mappings] and [domain_mapping_tags]. *)
Record MappingRow := {
  mapping_id : Z;
  dm_entry_id : Z;
  dm_domain : string;
  dm_is_primary : bool;
  dm_sync_id : option string;
  domain_enc : option bytes;
}.
Record TagRow := {
  tag_id : Z;
  t_mapping_id : Z;
  t_tag : bytes;
  is_chain_root : Z;
  t_equality_key_id : Z;
}.

(** [custody_objects]. *)
Record CustodyRow := {
  c_object_id : string;
  scope_json : string;
  reference_json : string;
  c_envelope : bytes;
  c_deleted : bool;
}.

Record SshKeyRow := {
  key_id : Z;
  s_name : string;
  s_comment : option Value;
  s_key_type : string;
  s_key_size : option Z;
  s_public_key : string;
  private_key_encrypted : bytes;
  s_nonce : bytes;
  s_auth_tag : bytes;
  s_fingerprint : string;
  s_created_at : Z;
  s_modified_at : Z;
  s_sync : SyncCols;
}.

Record TotpRow := {
  totp_id : Z;
  t_entry_id : Z;
  secret_encrypted : bytes;
  t_nonce : bytes;
  t_auth_tag : bytes;
  t_algorithm : string;
  t_digits : Z;
  t_period : Z;
  t_issuer : option Value;
  t_account_name : option Value;
  t_created_at : Z;
  t_sync : SyncCols;
}.

(** [sync_tombstones], [sync_conflicts], [sync_dead_letter]. *)
Record TombstoneRow := { tb_entry_type : string; tb_sync_version : Z; tb_deleted_at : Z; tb_origin_device_id : string }.
Record ConflictRow := {
  cf_object_type : string;
  remote_version : Z;
  remote_payload : bytes;
  cf_origin_device_id : string;
  cf_is_tombstone : bool;
  cf_received_at : Z;
}.
Record DeadLetterRow := {
  dl_mutation_id : string;
  dl_object_id : string;
  dl_object_type : string;
  dl_reason : string;
  dl_received_at : Z;
}.

(** [sync_metadata] with id 1. *)
Record SyncMetaRow := {
  sm_vault_id : option string;
  sm_device_id : option string;
  sm_device_name : option string;
  sm_relay_url : option string;
  sm_last_push_sequence : Z;      (* i64 *)
  sm_last_pull_sequence : Z;
  sm_last_sync_at : option Z;
  sm_sync_enabled : bool;
  sm_protocol_version : Z;
  sm_lineage_high_water : Z;
}.

(** [secret_equality_index], [entry_lifecycle], [entity_memberships]. *)
Record EqualityRow := { tag_cipher : bytes; algorithm_version : Z; equality_key_id : Z; updated_at : Z }.
Record LifecycleRow := {
  password_rotated_at : option Z;
  expires_at : option Z;
  lc_rotation_interval_days_override : option Z;
  lc_source : string;
}.
Record MembershipRow := { mb_entity_id : string; mb_label : option bytes; mb_created_at : Z }.

Record LocalDb := {
  metadata : VaultDb;
  entries : list EntryRow;
  entries_seq : Z;                      (* sqlite_sequence of entries *)
  domain_mappings : list MappingRow;
  domain_mapping_tags : list TagRow;
  tags_seq : Z;
  custody_objects : option (list CustodyRow);
  ssh_keys : list SshKeyRow;
  ssh_keys_seq : Z;
  totp_secrets : list TotpRow;
  totp_seq : Z;
  sync_tombstones : gmap string TombstoneRow;
  sync_conflicts : gmap string ConflictRow;
  sync_dead_letter : gmap Z DeadLetterRow;
  sync_metadata : option SyncMetaRow;
  secret_equality_index : gmap Z EqualityRow;
  entry_lifecycle : gmap Z LifecycleRow;
  entity_memberships : gmap Z MembershipRow;
  registry_state : gmap string string;
}.

(** ** Table statements *)

(** [UPDATE .. SET f WHERE p], [SELECT .. WHERE p], [DELETE .. WHERE p]. *)
Definition update_where {R} (p : R -> bool) (f : R -> R) (t : list R) : list R :=
  List.map (fun r => if p r then f r else r) t.
Definition delete_where {R} (p : R -> bool) (t : list R) : list R := List.filter (fun r => negb (p r)) t.

(** [sync_id = ?]: SQL equality, false on NULL. *)
Definition has_sync_id (id : string) (c : SyncCols) : bool :=
  match sync_id c with Some s => String.eqb s id | None => false end.

(** The key of a row inserted without one, in a table that never reuses keys
    and in one that does. *)
Definition max_key {R} (key : R -> Z) (t : list R) : Z := fold_left (fun m r => Z.max m (key r)) t 0.
Definition autoincrement {R} (key : R -> Z) (seq : Z) (t : list R) : Z := Z.max seq (max_key key t) + 1.
Definition next_rowid {R} (key : R -> Z) (t : list R) : Z := max_key key t + 1.

(** ** The world *)

(** A write through a temporary file and a rename: it succeeds, it fails and
    leaves the old file, or it fails after the rename. *)
Inductive IoOutcome := Written | NotWritten | WrittenUnsynced.

Class Environment := {
  env_nonce : nat -> bytes;    (* Aes256Gcm::generate_nonce *)
  env_uuid : nat -> Uuid;      (* Uuid::new_v4 *)
  env_io : nat -> IoOutcome;
}.
Class EnvironmentLaws `{Environment} : Prop :=
  env_nonce_length : forall n, length (env_nonce n) = 12%nat.

Record World := {
  w_db : LocalDb;
  w_on_disk : bool;            (* the database has a path *)
  w_contents : option bytes;   (* the receipts file *)
  w_tick : nat;
}.

Definition M (A : Type) : Type := World -> Res A * World.
#[global] Instance M_ret : MRet M := fun A a w => (Ok a, w).
#[global] Instance M_bind : MBind M := fun A B k m w =>
  match m w with
  | (Ok a, w') => k a w'
  | (Err e, w') => (Err e, w')
  end.

Definition fail {A} (e : PasswordManagerError) : M A := fun w => (Err e, w).
Definition lift {A} (r : Res A) : M A := fun w => (r, w).
Definition fail_if (b : bool) (e : PasswordManagerError) : M unit := lift (err_if b e).
(** A query and a statement that writes. *)
Definition query {A} (f : LocalDb -> A) : M A := fun w => (Ok (f (w_db w)), w).
Definition execute (f : LocalDb -> LocalDb) : M unit := fun w => (Ok tt, {| w with w_db := f (w_db w) |}).
(** A statement that may violate a constraint. *)
Definition execute_res (f : LocalDb -> Res LocalDb) : M unit := fun w =>
  match f (w_db w) with
  | Ok db => (Ok tt, {| w with w_db := db |})
  | Err e => (Err e, w)
  end.

(** [BEGIN .. COMMIT], and a savepoint: taken back on an error. *)
Definition transaction {A} (m : M A) : M A := fun w =>
  match m w with
  | (Ok a, w') => (Ok a, w')
  | (Err e, w') => (Err e, {| w' with w_db := w_db w |})
  end.

(** The result of a step as a value: [match r { Ok .. Err .. }]. *)
Definition try {A} (m : M A) : M (Res A) := fun w => let '(r, w') := m w in (Ok r, w').

Section Draw.
Context `{Environment}.
Definition draw_nonce : M bytes := fun w => (Ok (env_nonce (w_tick w)), {| w with w_tick := S (w_tick w) |}).
Definition draw_uuid : M Uuid := fun w => (Ok (env_uuid (w_tick w)), {| w with w_tick := S (w_tick w) |}).
Definition draw_io : M IoOutcome := fun w => (Ok (env_io (w_tick w)), {| w with w_tick := S (w_tick w) |}).
End Draw.

(** ** Running a computation *)

Lemma M_bind_ok {A B} (m : M A) (k : A -> M B) w b w' :
  (m ≫= k) w = (Ok b, w') -> exists a w1, m w = (Ok a, w1) /\ k a w1 = (Ok b, w').
Proof. unfold mbind, M_bind. destruct (m w) as [[a|e] w1]; [eauto|discriminate]. Qed.

Lemma M_bind_run {A B} (m : M A) (k : A -> M B) w a w1 : m w = (Ok a, w1) -> (m ≫= k) w = k a w1.
Proof. unfold mbind, M_bind. by intros ->. Qed.

Lemma M_bind_err {A B} (m : M A) (k : A -> M B) w e w1 : m w = (Err e, w1) -> (m ≫= k) w = (Err e, w1).
Proof. unfold mbind, M_bind. by intros ->. Qed.

Lemma M_lift_ok {A} (r : Res A) w a w' : lift r w = (Ok a, w') -> r = Ok a /\ w = w'.
Proof. by intros [=]. Qed.

Lemma M_query_ok {A} (f : LocalDb -> A) w a w' : query f w = (Ok a, w') -> a = f (w_db w) /\ w = w'.
Proof. unfold query. intros E. by inversion E. Qed.

Lemma M_fail_if {B} b e (k : unit -> M B) w : (fail_if b e ≫= k) w = if b then (Err e, w) else k tt w.
Proof. by destruct b. Qed.

Lemma execute_res_ok f w u w' :
  execute_res f w = (Ok u, w') -> exists db, f (w_db w) = Ok db /\ w' = {| w with w_db := db |}.
Proof. unfold execute_res. destruct (f (w_db w)); intros [=]; eauto. Qed.

Lemma transaction_ok {A} (m : M A) w a w' : transaction m w = (Ok a, w') -> m w = (Ok a, w').
Proof. unfold transaction. by destruct (m w) as [[a'|e] w1]; intros [=<- <-]. Qed.

Lemma transaction_err {A} (m : M A) w e w' : transaction m w = (Err e, w') -> w_db w' = w_db w.
Proof. unfold transaction. by destruct (m w) as [[a'|e'] w1]; intros [=<- <-]. Qed.

(** Run a successful computation backwards, statement by statement. *)
Ltac m_inv :=
  repeat match goal with
  | H : (_ ≫= _) _ = (Ok _, _) |- _ =>
    let a := fresh "a" in let w := fresh "w" in let E := fresh "E" in
    apply M_bind_ok in H as (a & w & E & H)
  | H : query _ _ = (Ok _, _) |- _ => injection H as ? ?; subst
  | H : execute _ _ = (Ok _, _) |- _ => injection H as ?; subst
  | H : execute_res _ _ = (Ok _, _) |- _ => apply execute_res_ok in H as (? & ? & ->)
  | H : lift _ _ = (Ok _, _) |- _ => injection H as ? ?; subst
  | H : fail_if _ _ _ = (Ok _, _) |- _ => unfold fail_if in H
  | H : fail _ _ = (Ok _, _) |- _ => discriminate H
  | H : mret _ _ = (Ok _, _) |- _ => injection H as ? ?; subst
  | H : draw_nonce _ = (Ok _, _) |- _ => injection H as ? ?; subst
  | H : draw_uuid _ = (Ok _, _) |- _ => injection H as ? ?; subst
  | H : draw_io _ = (Ok _, _) |- _ => injection H as ? ?; subst
  end.
