(* ===== verification/ContentGuard.v ===== *)
(** * Core: receipts of the vault's content ([vault/content_guard.rs])

    A file beside the database holds, under a MAC, the fingerprints of every
    entry, domain mapping, domain tag and custody object of the last
    acknowledged transaction, and of the one in flight.  Path checks and the
    lock file are not modelled. *)

From S2P Require Import Prelude Text ThirdParty Envelope CoreError EnvelopeOps KeySlots LocalDb.
From Stdlib Require Import ZArith Lia Strings.String Strings.Byte.
From stdpp Require Import base list option strings numbers gmap.
Open Scope Z_scope.

Definition MARKER : string := "entry_receipts_v1".
Definition MAX_BYTES : Z := 64 * 1024 * 1024.
Definition MAX_DOCUMENT : nat := 4096.
Definition RECEIPTS_KEY_INFO : bytes := as_bytes "sentinelpass-entry-receipts-v1".

Abbreviation Receipts := (gmap string string).

Record State := {
  version : Z;              (* u32 *)
  vault : string;
  stable : Receipts;
  pending : option Receipts;
}.
Record Document := { doc_state : State; doc_mac : string; secondary_mac : option string }.

(** The values whose JSON text is hashed. *)
Definition EntryTuple : Type :=
  Z * option string * string * bytes * bytes * bytes * option bytes * option bytes * Z * Z * bool * bool.
Definition MappingTuple : Type := Z * Z * string * bool * option string * option bytes.
Definition TagTuple : Type := Z * Z * bytes * Z * Z.
Definition CustodyTuple : Type := string * string * string * bytes * bool.

(** The fields of [RawEntryRow] that [fingerprint] reads. *)
Definition entry_tuple (r : EntryRow) (is_deleted : bool) : EntryTuple :=
  (entry_id r, sync_id (e_sync r), e_credential_type r, e_title r, e_username r, e_password r, e_url r, e_notes r,
   e_created_at r, e_modified_at r, e_favorite r, is_deleted).
Definition mapping_tuple (r : MappingRow) : MappingTuple :=
  (mapping_id r, dm_entry_id r, dm_domain r, dm_is_primary r, dm_sync_id r, domain_enc r).
Definition tag_tuple (r : TagRow) : TagTuple := (tag_id r, t_mapping_id r, t_tag r, is_chain_root r, t_equality_key_id r).
Definition custody_tuple (r : CustodyRow) : CustodyTuple :=
  (c_object_id r, scope_json r, reference_json r, c_envelope r, c_deleted r).

Definition refusal : PasswordManagerError := InvalidInput "entry integrity receipt mismatch or missing".

Section Guard.
Context `{Environment, Hmac, Sha256, HexDecode}.
Context `{SerdeBytes EntryTuple, SerdeBytes MappingTuple, SerdeBytes TagTuple, SerdeBytes CustodyTuple}.
Context `{SerdeBytes State, SerdeBytes Document}.

(** [key], [mac]. *)
Definition key (dek : bytes) : Res bytes := ok_or (hkdf_expand dek RECEIPTS_KEY_INFO 32) refusal.
Definition mac (st : State) (k : bytes) : bytes := hmac_sha256 k (to_vec st).

(** The closure [valid] of [load]. *)
Definition valid (st : State) (k : bytes) (tag : string) : Res bool :=
  t ← ok_or (hex_decode tag) refusal; Ok (bool_decide (mac st k = t)).

(** [load]. *)
Definition load (contents : option bytes) (k : bytes) (vault_uuid : string) : Res (option State) :=
  match contents with
  | None => Ok None
  | Some b =>
    _ ← err_if (MAX_BYTES <? Z.of_nat (length b)) refusal;
    doc ← ok_or (from_slice (A := Document) b) refusal;
    let st := doc_state doc in
    primary ← valid st k (doc_mac doc);
    secondary ← (if (primary : bool) then Ok true
                 else match secondary_mac doc with Some t => valid st k t | None => Ok false end : Res bool);
    _ ← err_if (negb secondary) refusal;
    _ ← err_if (negb (version st =? 1) || negb (String.eqb (vault st) vault_uuid)) refusal;
    Ok (Some st)
  end.

(** [save_with_secondary], [save]. *)
Definition document (st : State) (k : bytes) (secondary : option bytes) : Document := {|
  doc_state := st; doc_mac := hex_encode (mac st k);
  secondary_mac := (fun k' => hex_encode (mac st k')) <$> secondary |}.
Definition write_contents (b : bytes) (io : IoOutcome) : M unit := fun w =>
  match io with
  | Written => (Ok tt, {| w with w_contents := Some b |})
  | NotWritten => (Err IoError, w)
  | WrittenUnsynced => (Err IoError, {| w with w_contents := Some b |})
  end.
Definition save_with_secondary (st : State) (k : bytes) (secondary : option bytes) : M unit :=
  let b := to_vec (document st k secondary) in
  _ ← fail_if (MAX_BYTES <? Z.of_nat (length b)) refusal;
  io ← draw_io;
  write_contents b io.
Definition save (st : State) (k : bytes) : M unit := save_with_secondary st k None.

(** [fingerprint]. *)
Definition digest (b : bytes) : string := hex_encode (sha256 b).
Definition fingerprint (r : EntryRow) (is_deleted : bool) : string := digest (to_vec (entry_tuple r is_deleted)).

Definition entry_key (id : Z) : string := "entry:" +:+ i64_display id.
Definition mapping_key (id : Z) : string := "mapping:" +:+ i64_display id.
Definition tag_key (id : Z) : string := "domain-tag:" +:+ i64_display id.
Definition custody_key (id : string) : string := "custody:" +:+ id.

Definition add_receipt (m : Receipts) (kv : string * string) : Receipts := <[kv.1 := kv.2]> m.

(** The rows of [custody_objects], with [check_row_bounds]. *)
Definition row_in_bounds (r : CustodyRow) : bool :=
  (String.length (c_object_id r) <=? 128)%nat && (String.length (scope_json r) <=? MAX_DOCUMENT)%nat &&
  (String.length (reference_json r) <=? MAX_DOCUMENT)%nat && (length (c_envelope r) <=? MAX_DOCUMENT)%nat.
Fixpoint custody_receipts (rows : list CustodyRow) (m : Receipts) : Res Receipts :=
  match rows with
  | [] => Ok m
  | r :: rows =>
    _ ← err_if (negb (row_in_bounds r)) (Database Sqlite);
    _ ← err_if (bool_decide (is_Some (m !! custody_key (c_object_id r)))) refusal;
    custody_receipts rows (<[custody_key (c_object_id r) := digest (to_vec (custody_tuple r))]> m)
  end.

(** [snapshot]. *)
Definition entry_pair (r : EntryRow) : string * string :=
  (entry_key (entry_id r), fingerprint r (is_deleted (e_sync r))).
Definition mapping_pair (r : MappingRow) : string * string := (mapping_key (mapping_id r), digest (to_vec (mapping_tuple r))).
Definition tag_pair (r : TagRow) : string * string := (tag_key (tag_id r), digest (to_vec (tag_tuple r))).
Definition row_receipts (db : LocalDb) : Receipts :=
  fold_left add_receipt (List.map entry_pair (entries db) ++ List.map mapping_pair (domain_mappings db) ++
    List.map tag_pair (domain_mapping_tags db)) ∅.
Definition snapshot (db : LocalDb) : Res Receipts :=
  match custody_objects db with
  | Some rows => custody_receipts rows (row_receipts db)
  | None => Ok (row_receipts db)
  end.

(** [vault_id], [marked]. *)
Definition vault_id (db : LocalDb) : Res string := ok_or (vault_uuid_col (metadata db)) (Database Sqlite).
Definition marked (db : LocalDb) : bool := bool_decide (is_Some (registry_state db !! MARKER)).

(** [ContentTransaction::begin]: the guard it carries, [None] without a path. *)
Definition begin_guard (dek : bytes) (db : LocalDb) (contents : option bytes) : Res (State * bytes) :=
  k ← key dek;
  v ← vault_id db;
  current ← snapshot db;
  loaded ← load contents k v;
  st ← (match (loaded : option State) with
        | Some st => Ok st
        | None => if marked db then Err refusal
                  else Ok {| version := 1; vault := v; stable := current; pending := None |}
        end : Res State);
  if bool_decide (stable st = current)
  then Ok ({| version := version st; vault := vault st; stable := stable st; pending := None |}, k)
  else
    _ ← err_if (negb (bool_decide (pending st = Some current))) refusal;
    Ok ({| version := version st; vault := vault st; stable := current; pending := None |}, k).

(** [INSERT OR IGNORE INTO registry_state]. *)
Definition mark (db : LocalDb) : LocalDb :=
  {| db with registry_state :=
       match registry_state db !! MARKER with Some _ => registry_state db | None => <[MARKER := "1"%string]> (registry_state db) end |}.

Definition begin (dek : bytes) : M (option (State * bytes)) := fun w =>
  if w_on_disk w then
    match begin_guard dek (w_db w) (w_contents w) with
    | Ok g => (Ok (Some g), {| w with w_db := mark (w_db w) |})
    | Err e => (Err e, w)
    end
  else (Ok None, w).

(** [ContentTransaction::commit_inner] up to the SQL commit and from it on;
    [fault] is its argument, 0 in production. *)
Definition set_pending (st : State) (r : Receipts) : State :=
  {| version := version st; vault := vault st; stable := stable st; pending := Some r |}.
Definition prepare_commit (guard : option (State * bytes)) (fault : nat) : M (option (State * bytes)) :=
  guard ← (match guard with
           | Some (st, k) =>
             current ← query snapshot;
             r ← lift current;
             _ ← save (set_pending st r) k;
             mret (Some (set_pending st r, k))
           | None => mret None
           end : M (option (State * bytes)));
  _ ← fail_if (fault =? 1)%nat refusal;
  mret guard.
Definition finish_commit (guard : option (State * bytes)) (fault : nat) : M unit :=
  _ ← fail_if (fault =? 2)%nat refusal;
  match guard with
  | Some (st, k) =>
    save {| version := version st; vault := vault st; stable := default ∅ (pending st); pending := None |} k
  | None => mret tt
  end.

(** A body between [begin] and [commit]: an error before the SQL commit drops
    the transaction, an error after it does not. *)
Definition content_tx_fault {A} (dek : bytes) (fault : nat) (body : M A) : M A :=
  '(a, guard) ← transaction (guard ← begin dek; a ← body; guard ← prepare_commit guard fault; mret (a, guard));
  _ ← finish_commit guard fault;
  mret a.
Definition content_tx {A} (dek : bytes) (body : M A) : M A := content_tx_fault dek 0 body.

(** [initialize]. *)
Definition initialize (dek : bytes) : M unit := content_tx dek (mret tt).

(** [verify_snapshot]. *)
Definition verify_snapshot (dek : bytes) : M unit := fun w =>
  (if w_on_disk w then
     k ← key dek;
     v ← vault_id (w_db w);
     loaded ← load (w_contents w) k v;
     match (loaded : option State) with
     | Some st =>
       current ← snapshot (w_db w);
       err_if (negb (bool_decide (current = stable st)) && negb (bool_decide (pending st = Some current))) refusal
     | None => err_if (marked (w_db w)) refusal
     end
   else Ok tt, w).

(** [verify_stored_row], [verify_row]. *)
Definition expected_receipts (st : State) (db : LocalDb) : Res Receipts :=
  match pending st with
  | Some p =>
    current ← snapshot db;
    if bool_decide (current = p) then Ok p
    else if bool_decide (current = stable st) then Ok (stable st) else Err refusal
  | None => Ok (stable st)
  end.
Definition verify_stored_row (dek : bytes) (r : EntryRow) (is_deleted : bool) : M unit := fun w =>
  (if w_on_disk w then
     k ← key dek;
     v ← vault_id (w_db w);
     loaded ← load (w_contents w) k v;
     match (loaded : option State) with
     | Some st =>
       expected ← expected_receipts st (w_db w);
       err_if (negb (bool_decide (expected !! entry_key (entry_id r) = Some (fingerprint r is_deleted)))) refusal
     | None => err_if (marked (w_db w)) refusal
     end
   else Ok tt, w).
Definition verify_row (dek : bytes) (r : EntryRow) : M unit := verify_stored_row dek r false.

(** [verify_copy]: [copy] is the content of the other database. *)
Definition verify_copy (dek : bytes) (copy : LocalDb) (w : World) : Res unit :=
  v ← vault_id (w_db w);
  v' ← vault_id copy;
  _ ← err_if (negb (String.eqb v v')) refusal;
  current ← snapshot copy;
  if w_on_disk w then
    k ← key dek;
    loaded ← load (w_contents w) k v;
    match (loaded : option State) with
    | Some st =>
      err_if (negb (bool_decide (current = stable st)) && negb (bool_decide (pending st = Some current))) refusal
    | None =>
      if marked (w_db w) then Err refusal
      else source ← snapshot (w_db w); err_if (negb (bool_decide (source = current))) refusal
    end
  else source ← snapshot (w_db w); err_if (negb (bool_decide (source = current))) refusal.

(** [rebase_verified_restore]. *)
Definition rebase_verified_restore (dek : bytes) : M unit := fun w =>
  if w_on_disk w then
    (k ← lift (key dek);
     v ← lift (vault_id (w_db w));
     current ← lift (snapshot (w_db w));
     save {| version := 1; vault := v; stable := current; pending := None |} k) w
  else (Ok tt, w).

(** [ContentTransaction::commit_empty_key_change], after [begin] and the body
    of the caller: nothing but SQL follows the write of the receipts. *)
Definition empty_key_change {A} (dek replacement : bytes) (body : M A) : M A :=
  transaction (
    guard ← begin dek;
    a ← body;
    current ← query snapshot;
    r ← lift current;
    _ ← fail_if (negb (bool_decide (r = ∅))) refusal;
    match (guard : option (State * bytes)) with
    | Some (st, k) =>
      _ ← fail_if (negb (bool_decide (stable st = ∅))) refusal;
      k' ← lift (key replacement);
      _ ← save_with_secondary (set_pending st ∅) k (Some k');
      mret a
    | None => mret a
    end).
End Guard.

#[global] Arguments MAX_BYTES : simpl never.
#[global] Arguments load : simpl never.
#[global] Arguments snapshot : simpl never.
#[global] Arguments verify_snapshot : simpl never.
#[global] Arguments verify_stored_row : simpl never.
#[global] Arguments verify_row : simpl never.
#[global] Arguments content_tx : simpl never.
