(* ===== verification/ContentFacts.v ===== *)
(** * Core: what the content receipts guarantee

    Crash safety of a guarded transaction, and the detection of a database
    that is not the acknowledged one. *)

From S2P Require Import Prelude Text ThirdParty Envelope CoreError EnvelopeOps KeySlots LocalDb ContentGuard.
From Stdlib Require Import ZArith Lia Strings.String Strings.Byte.
From stdpp Require Import base list option strings numbers gmap.
Open Scope Z_scope.

(** A computation that leaves the receipts file alone and the vault its
    identity: what a body between [begin] and [commit] is. *)
Class Guarded {A} (m : M A) : Prop :=
  guarded w : w_contents (m w).2 = w_contents w /\ w_on_disk (m w).2 = w_on_disk w /\
    vault_id (w_db (m w).2) = vault_id (w_db w).

#[global] Instance guarded_ret {A} (a : A) : Guarded (mret a : M A).
Proof. done. Qed.
#[global] Instance guarded_bind {A B} (m : M A) (k : A -> M B) :
  Guarded m -> (forall a, Guarded (k a)) -> Guarded (m ≫= k).
Proof.
  intros Hm Hk w. specialize (Hm w). unfold mbind, M_bind. destruct (m w) as [[a|e] w1]; simpl in *; [|done].
  destruct Hm as (E1 & E2 & E3). destruct (Hk a w1) as (F1 & F2 & F3). rewrite F1, F2, F3. done.
Qed.
#[global] Instance guarded_query {A} (f : LocalDb -> A) : Guarded (query f).
Proof. done. Qed.
#[global] Instance guarded_lift {A} (r : Res A) : Guarded (lift r).
Proof. done. Qed.
#[global] Instance guarded_fail {A} e : Guarded (fail e : M A).
Proof. done. Qed.
#[global] Instance guarded_fail_if b e : Guarded (fail_if b e).
Proof. done. Qed.
#[global] Instance guarded_try {A} (m : M A) : Guarded m -> Guarded (try m).
Proof. intros Hm w. specialize (Hm w). unfold try. by destruct (m w). Qed.
#[global] Instance guarded_transaction {A} (m : M A) : Guarded m -> Guarded (transaction m).
Proof. intros Hm w. specialize (Hm w). unfold transaction. destruct (m w) as [[a|e] w1]; simpl in *; naive_solver. Qed.
#[global] Instance guarded_draw_nonce `{Environment} : Guarded draw_nonce.
Proof. done. Qed.
#[global] Instance guarded_draw_uuid `{Environment} : Guarded draw_uuid.
Proof. done. Qed.
Lemma guarded_execute f : (forall db, vault_id (f db) = vault_id db) -> Guarded (execute f).
Proof. intros Hf w. simpl. auto. Qed.
Lemma guarded_execute_res f : (forall db db', f db = Ok db' -> vault_id db' = vault_id db) -> Guarded (execute_res f).
Proof. intros Hf w. unfold execute_res. destruct (f (w_db w)) eqn:E; simpl; eauto. Qed.

(** Solve [Guarded] of a body: instances, and a case split on its branches. *)
Ltac guarded :=
  repeat match goal with
  | |- Guarded (match ?x with _ => _ end) => destruct x
  | |- Guarded (_ ≫= _) => apply guarded_bind; [|intros ?]
  | |- Guarded (execute _) => apply guarded_execute; intros ?; reflexivity
  | |- Guarded (execute_res _) => apply guarded_execute_res; intros ? ? ?; result_inv; subst; reflexivity
  | |- Guarded _ => apply _
  end.

Section Facts.
Context `{Environment, Hmac, Sha256, HexDecode}.
Context `{SerdeBytes EntryTuple, SerdeBytes MappingTuple, SerdeBytes TagTuple, SerdeBytes CustodyTuple}.
Context `{SerdeBytes State, SerdeBytes Document}.
Context `{!Sha256Laws, !HexDecodeLaws, !SerdeBytesLaws Document}.

(** ** The file *)

Lemma valid_own st k : valid st k (hex_encode (mac st k)) = Ok true.
Proof. unfold valid. rewrite hex_decode_encode. simpl. by rewrite bool_decide_true. Qed.

Lemma valid_ok st k k' : is_ok (valid st k (hex_encode (mac st k'))) = true.
Proof. unfold valid. by rewrite hex_decode_encode. Qed.

(** A saved document loads under its key and, when it has one, under its
    second key. *)
Lemma load_saved st k sec k' v :
  Z.of_nat (length (to_vec (document st k sec))) <= MAX_BYTES -> version st = 1 -> vault st = v ->
  k' = k \/ sec = Some k' -> load (Some (to_vec (document st k sec))) k' v = Ok (Some st).
Proof.
  intros Hlen Hv <- Hk. unfold load. rewrite (proj2 (Z.ltb_ge _ _)) by done. simpl. rewrite from_slice_to_vec. simpl.
  destruct (valid st k' (hex_encode (mac st k))) as [p|e] eqn:E; [|by pose proof (valid_ok st k' k) as V; rewrite E in V].
  simpl. destruct p; simpl.
  - rewrite Hv, String.eqb_refl. done.
  - destruct Hk as [->| ->]; [by rewrite valid_own in E|]. simpl. rewrite valid_own. simpl. by rewrite Hv, String.eqb_refl.
Qed.

Lemma load_inv b k v st : load b k v = Ok (Some st) -> version st = 1 /\ vault st = v.
Proof.
  unfold load. destruct b as [b|]; [|discriminate]. intros E. result_inv. simplify_eq. propify.
  split; [done|]. by apply String.eqb_eq.
Qed.

Lemma load_fun b k v v' st l : load b k v = Ok (Some st) -> load b k v' = Ok l -> l = Some st /\ v' = v.
Proof.
  intros E E'. assert (l = Some st) as ->.
  { unfold load in E, E'. destruct b as [b|]; [|discriminate]. result_inv. simplify_eq. congruence. }
  apply load_inv in E as [_ <-], E' as [_ <-]. done.
Qed.

(** What a save leaves, whatever becomes of it. *)
Lemma save_cases st k sec w r w' :
  save_with_secondary st k sec w = (r, w') ->
  w_db w' = w_db w /\ w_on_disk w' = w_on_disk w /\
  ((w_contents w' = w_contents w /\ exists e, r = Err e) \/
   (w_contents w' = Some (to_vec (document st k sec)) /\ Z.of_nat (length (to_vec (document st k sec))) <= MAX_BYTES)).
Proof.
  unfold save_with_secondary, mbind, M_bind, fail_if, lift, err_if. destruct (MAX_BYTES <? _) eqn:L; simpl.
  - intros [= <- <-]. split_and!; [done|done|]. left. eauto.
  - propify. unfold write_contents. destruct (env_io (w_tick w)); simpl; intros [= <- <-]; split_and!; try done; eauto.
Qed.

Lemma save_ok st k sec w w' :
  save_with_secondary st k sec w = (Ok tt, w') ->
  w_db w' = w_db w /\ w_on_disk w' = w_on_disk w /\ w_contents w' = Some (to_vec (document st k sec)) /\
  Z.of_nat (length (to_vec (document st k sec))) <= MAX_BYTES.
Proof.
  intros E. apply save_cases in E as (E1 & E2 & [[_ (e & [=])]|[E3 E4]]). done.
Qed.

(** ** The database and its receipts agree *)

Definition in_step (dek : bytes) (w : World) : Prop :=
  w_on_disk w = true ->
  exists k v current loaded, key dek = Ok k /\ vault_id (w_db w) = Ok v /\ snapshot (w_db w) = Ok current /\
    load (w_contents w) k v = Ok loaded /\
    match loaded with
    | None => marked (w_db w) = false
    | Some st => stable st = current \/ pending st = Some current
    end.

Lemma begin_guard_ok dek w k v current :
  in_step dek w -> w_on_disk w = true -> key dek = Ok k -> vault_id (w_db w) = Ok v -> snapshot (w_db w) = Ok current ->
  begin_guard dek (w_db w) (w_contents w) = Ok ({| version := 1; vault := v; stable := current; pending := None |}, k).
Proof.
  intros Hs Hd Hk Hv Hc. destruct (Hs Hd) as (k' & v' & c' & loaded & Hk' & Hv' & Hc' & Hl & Hm).
  assert (k' = k) as -> by congruence. assert (v' = v) as -> by congruence. assert (c' = current) as -> by congruence.
  unfold begin_guard. rewrite Hk, Hv, Hc. simpl. rewrite Hl. simpl. destruct loaded as [st|].
  - apply load_inv in Hl as [Ev Eva]. simpl. case_bool_decide as Eb.
    + by rewrite Ev, Eva, Eb.
    + destruct Hm as [?|Hp]; [done|]. rewrite bool_decide_true by done. simpl. by rewrite Ev, Eva.
  - rewrite Hm. simpl. by rewrite bool_decide_true.
Qed.

Lemma snapshot_mark db : snapshot (mark db) = snapshot db.
Proof. done. Qed.
Lemma vault_id_mark db : vault_id (mark db) = vault_id db.
Proof. done. Qed.

(** The world after the receipts for [st] were written over a database. *)
Lemma in_step_saved dek w st k v current :
  key dek = Ok k -> vault_id (w_db w) = Ok v -> snapshot (w_db w) = Ok current ->
  version st = 1 -> vault st = v -> stable st = current \/ pending st = Some current ->
  Z.of_nat (length (to_vec (document st k None))) <= MAX_BYTES ->
  w_contents w = Some (to_vec (document st k None)) -> in_step dek w.
Proof.
  intros Hk Hv Hc E1 E2 E3 Hl Hw _. exists k, v, current, (Some st). rewrite Hw.
  split_and!; try done. apply load_saved; auto.
Qed.

(** The database of a world replaced by the one it started from. *)
Lemma in_step_rollback dek w w' :
  in_step dek w -> w_contents w' = w_contents w -> w_on_disk w' = w_on_disk w -> w_db w' = w_db w -> in_step dek w'.
Proof. unfold in_step. intros Hs -> -> ->. exact Hs. Qed.

Lemma prepare_cases st k fault w r w' :
  prepare_commit (Some (st, k)) fault w = (r, w') ->
  w_db w' = w_db w /\ w_on_disk w' = w_on_disk w /\
  ((w_contents w' = w_contents w /\ exists e, r = Err e) \/
   exists c, snapshot (w_db w) = Ok c /\ w_contents w' = Some (to_vec (document (set_pending st c) k None)) /\
     Z.of_nat (length (to_vec (document (set_pending st c) k None))) <= MAX_BYTES /\
     (r = Ok (Some (set_pending st c, k)) \/ exists e, r = Err e)).
Proof.
  unfold prepare_commit, mbind, M_bind, query, lift. destruct (snapshot (w_db w)) as [c|e] eqn:Ec.
  2:{ intros [= <- <-]. split_and!; eauto. }
  destruct (save (set_pending st c) k w) as [r1 w1] eqn:Es. pose proof (save_cases _ _ _ _ _ _ Es) as (E1 & E2 & Hc).
  destruct r1 as [[]|e].
  - apply save_ok in Es as (_ & _ & E3 & E4). unfold fail_if, lift, err_if. destruct (fault =? 1)%nat; simpl;
      intros [= <- <-]; split_and!; try done; right; eauto 10.
  - intros [= <- <-]. split_and!; [done..|]. destruct Hc as [[E3 _]|[E3 E4]]; [left; eauto|right; eauto 10].
Qed.

Lemma finish_cases st k c fault w r w' :
  finish_commit (Some (set_pending st c, k)) fault w = (r, w') ->
  let fin := {| version := version st; vault := vault st; stable := c; pending := None |} in
  w_db w' = w_db w /\ w_on_disk w' = w_on_disk w /\
  ((w_contents w' = w_contents w /\ exists e, r = Err e) \/
   (w_contents w' = Some (to_vec (document fin k None)) /\ Z.of_nat (length (to_vec (document fin k None))) <= MAX_BYTES)).
Proof.
  unfold finish_commit, mbind, M_bind, fail_if, lift, err_if. destruct (fault =? 2)%nat; simpl.
  - intros [= <- <-]. split_and!; eauto.
  - apply save_cases.
Qed.

Lemma guarded_step {A} (m : M A) w r w' :
  Guarded m -> m w = (r, w') ->
  w_contents w' = w_contents w /\ w_on_disk w' = w_on_disk w /\ vault_id (w_db w') = vault_id (w_db w).
Proof. intros Hm E. specialize (Hm w). by rewrite E in Hm. Qed.

(** The database after a guarded transaction is the one before it, or the one
    its body left. *)
Definition old_or_new {A} (body : M A) (w : World) (r : Res A) (w' : World) : Prop :=
  (w_db w' = w_db w /\ is_ok r = false) \/
  exists a w1 w2, w_db w1 = (if w_on_disk w then mark (w_db w) else w_db w) /\ body w1 = (Ok a, w2) /\
    w_db w' = w_db w2 /\ (forall b, r = Ok b -> b = a).

Lemma content_tx_memory {A} dek fault (body : M A) w r w' :
  w_on_disk w = false -> Guarded body -> content_tx_fault dek fault body w = (r, w') ->
  w_on_disk w' = false /\ old_or_new body w r w'.
Proof.
  intros Hd HG. unfold content_tx_fault, transaction, begin, mbind, M_bind. rewrite Hd.
  destruct (body w) as [[a|e] w2] eqn:Eb; pose proof (guarded_step _ _ _ _ HG Eb) as (_ & G2 & _).
  - unfold prepare_commit, finish_commit, mbind, M_bind, fail_if, lift, err_if. simpl.
    assert (w_db w = (if w_on_disk w then mark (w_db w) else w_db w)) as Edb by (by rewrite Hd).
    destruct (fault =? 1)%nat; simpl; [|destruct (fault =? 2)%nat; simpl]; intros [= <- <-]; (split; [simpl; congruence|]).
    + left. done.
    + right. exists a, w, w2. split_and!; try done.
    + right. exists a, w, w2. split_and!; try done. by intros b [= <-].
  - intros [= <- <-]. split; [simpl; congruence|]. by left.
Qed.

Lemma content_tx_safe {A} dek fault (body : M A) w r w' :
  in_step dek w -> Guarded body -> content_tx_fault dek fault body w = (r, w') ->
  in_step dek w' /\ w_on_disk w' = w_on_disk w /\ old_or_new body w r w'.
Proof.
  intros Hs HG Ht. destruct (w_on_disk w) eqn:Hd.
  2:{ destruct (content_tx_memory _ _ _ _ _ _ Hd HG Ht) as [Hd' Ho]. split_and!; [|done|done].
      intros Hd1. by rewrite Hd' in Hd1. }
  destruct (Hs Hd) as (k & v & cur & loaded & Hk & Hv & Hc & _ & _).
  pose proof (begin_guard_ok _ _ _ _ _ Hs Hd Hk Hv Hc) as Hb.
  unfold content_tx_fault, transaction, begin, mbind, M_bind in Ht. rewrite Hd, Hb in Ht.
  set (st := {| version := 1; vault := v; stable := cur; pending := None |}) in *.
  destruct (body _) as [[a|e] w2] eqn:Eb; pose proof (guarded_step _ _ _ _ HG Eb) as (G1 & G2 & G3); simpl in G1, G2, G3.
  2:{ injection Ht as <- <-. split_and!; [|simpl; congruence|by left].
      apply (in_step_rollback dek w _ Hs); simpl; congruence. }
  destruct (prepare_commit _ fault w2) as [r3 w3] eqn:Ep.
  apply prepare_cases in Ep as (P1 & P2 & Hp).
  destruct Hp as [[P3 (e & ->)]|(c & Ec & P3 & P4 & [->|(e & ->)])].
  - injection Ht as <- <-. split_and!; [|simpl; congruence|by left]. apply (in_step_rollback dek w _ Hs); simpl; congruence.
  - cbn [mret M_ret] in Ht.
    destruct (finish_commit (Some (set_pending st c, k)) fault w3) as [r4 w4] eqn:Ef. apply finish_cases in Ef as (F1 & F2 & Hf).
    assert (vault_id (w_db w4) = Ok v) as Hv4 by (rewrite F1, P1, G3; exact Hv).
    assert (snapshot (w_db w4) = Ok c) as Hc4 by (rewrite F1, P1; exact Ec).
    assert (in_step dek w4) as Hs4.
    { destruct Hf as [[F3 _]|[F3 F4]].
      - apply (in_step_saved dek w4 (set_pending st c) k v c); try done; [by right|congruence].
      - apply (in_step_saved dek w4 {| version := 1; vault := v; stable := c; pending := None |} k v c); try done. by left. }
    assert (w_db w4 = w_db w2) as Edb by congruence.
    destruct r4 as [[]|e]; injection Ht as <- <-; (split_and!; [done|congruence|]); right;
      exists a; do 2 eexists; rewrite Hd; split_and!; try exact Eb; try done. by intros b [= <-].
  - injection Ht as <- <-. split_and!; [|simpl; congruence|by left]. simpl.
    eapply (in_step_saved dek _ (set_pending st c) k v cur); simpl; try done. by left.
Qed.

(** The file after an acknowledged transaction. *)
Lemma content_tx_ok {A} dek (body : M A) w a w' :
  in_step dek w -> w_on_disk w = true -> Guarded body -> content_tx dek body w = (Ok a, w') ->
  exists k v c, key dek = Ok k /\ vault_id (w_db w') = Ok v /\ snapshot (w_db w') = Ok c /\ w_on_disk w' = true /\
    load (w_contents w') k v = Ok (Some {| version := 1; vault := v; stable := c; pending := None |}).
Proof.
  intros Hs Hd HG Ht. destruct (Hs Hd) as (k & v & cur & loaded & Hk & Hv & Hc & _ & _).
  pose proof (begin_guard_ok _ _ _ _ _ Hs Hd Hk Hv Hc) as Hb.
  unfold content_tx, content_tx_fault in Ht. apply M_bind_ok in Ht as ([a' g] & w4 & Et & Ht).
  apply transaction_ok in Et. apply M_bind_ok in Et as (g0 & w1 & E1 & Et). unfold begin in E1. rewrite Hd, Hb in E1.
  injection E1 as <- <-. apply M_bind_ok in Et as (a'' & w2 & E2 & Et).
  apply (guarded_step _ _ _ _ HG) in E2 as (G1 & G2 & G3). simpl in G1, G2, G3.
  apply M_bind_ok in Et as (g' & w3 & E3 & Et). injection Et as <- <- <-.
  apply prepare_cases in E3 as (P1 & P2 & [[_ (e & [=])]|(c & Ec & _ & _ & [[= ->]|(e & [=])])]).
  apply M_bind_ok in Ht as ([] & w5 & E5 & Ht). injection Ht as <- <-.
  apply save_ok in E5 as (F1 & F2 & F3 & F4). exists k, v, c.
  assert (vault_id (w_db w5) = Ok v) as Hv5 by (rewrite F1, P1, G3; exact Hv).
  split_and!; [done|done|congruence|congruence|]. rewrite F3. apply load_saved; auto.
Qed.

(** C32. A guarded transaction survives any interruption.  Wherever it is cut
    off (at either of the two fault points, by an error of its body, or by a
    file write that fails before or after the rename), the database holds all
    of its writes or none, the receipts admit what the database holds, and
    the next transaction and the next read are not refused. *)
Theorem content_crash_safe {A} dek fault (body : M A) w r w' :
  in_step dek w -> Guarded body -> content_tx_fault dek fault body w = (r, w') ->
  old_or_new body w r w' /\ in_step dek w' /\
  is_ok (begin dek w').1 = true /\ verify_snapshot dek w' = (Ok tt, w').
Proof.
  intros Hs HG Ht. destruct (content_tx_safe _ _ _ _ _ _ Hs HG Ht) as (Hs' & Hd' & Ho).
  split; [done|]. split; [done|]. destruct (w_on_disk w') eqn:Hd.
  - destruct (Hs' Hd) as (k & v & cur & loaded & Hk & Hv & Hc & Hl & Hm). split.
    + unfold begin. by rewrite Hd, (begin_guard_ok _ _ _ _ _ Hs' Hd Hk Hv Hc).
    + unfold verify_snapshot. rewrite Hd, Hk, Hv. simpl. rewrite Hl. simpl. destruct loaded as [st|]; [|by rewrite Hm].
      rewrite Hc. simpl. destruct Hm as [E|E].
      * by rewrite (bool_decide_true (cur = _)).
      * rewrite (bool_decide_true (pending st = _)) by done. by rewrite andb_false_r.
  - unfold begin, verify_snapshot. by rewrite Hd.
Qed.
End Facts.

(** ** What a snapshot determines *)

(** A row under the receipts: its key and the bytes that are hashed. *)
Inductive Item :=
| IEntry (t : EntryTuple)
| IMapping (t : MappingTuple)
| ITag (t : TagTuple)
| ICustody (t : CustodyTuple).
#[global] Instance Item_eq_dec : EqDecision Item.
Proof. unfold EntryTuple, MappingTuple, TagTuple, CustodyTuple in *. solve_decision. Defined.

Definition item_key (i : Item) : string :=
  match i with
  | IEntry (id, _, _, _, _, _, _, _, _, _, _, _) => entry_key id
  | IMapping (id, _, _, _, _, _) => mapping_key id
  | ITag (id, _, _, _, _) => tag_key id
  | ICustody (id, _, _, _, _) => custody_key id
  end.

(** The protected content of a database. *)
Definition items (db : LocalDb) : list Item :=
  List.map (fun r => IEntry (entry_tuple r (is_deleted (e_sync r)))) (entries db) ++
  List.map (fun r => IMapping (mapping_tuple r)) (domain_mappings db) ++
  List.map (fun r => ITag (tag_tuple r)) (domain_mapping_tags db) ++
  List.map (fun r => ICustody (custody_tuple r)) (default [] (custody_objects db)).

(** The primary keys are keys. *)
Definition keys_unique (db : LocalDb) : Prop :=
  NoDup (List.map entry_id (entries db)) /\ NoDup (List.map mapping_id (domain_mappings db)) /\
  NoDup (List.map tag_id (domain_mapping_tags db)) /\ NoDup (List.map c_object_id (default [] (custody_objects db))).

Lemma i64_display_inj x y : i64_display x = i64_display y -> x = y.
Proof.
  unfold i64_display. intros E. apply (f_equal DecimalString.NilZero.int_of_string) in E.
  assert (forall z, Z.to_int z <> Decimal.Pos Decimal.Nil /\ Z.to_int z <> Decimal.Neg Decimal.Nil) as N.
  { intros [|p|p]; simpl; split; try discriminate; intros [= E']; by apply (DecimalPos.Unsigned.to_uint_nonnil p). }
  rewrite !DecimalString.NilZero.isi in E by apply N. injection E as E. apply (f_equal Z.of_int) in E.
  by rewrite !DecimalZ.of_to in E.
Qed.

Lemma prefix_inj (p a b : string) : p +:+ a = p +:+ b -> a = b.
Proof. induction p as [|c p IH]; [done|]. intros [= E]. auto. Qed.

Section Snapshot.
Context `{Environment, Hmac, Sha256, HexDecode}.
Context `{SerdeBytes EntryTuple, SerdeBytes MappingTuple, SerdeBytes TagTuple, SerdeBytes CustodyTuple}.
Context `{SerdeBytes State, SerdeBytes Document}.
Context `{!Sha256Laws, !HexDecodeLaws, !SerdeBytesLaws Document}.
Context `{!SerdeBytesLaws EntryTuple, !SerdeBytesLaws MappingTuple, !SerdeBytesLaws TagTuple, !SerdeBytesLaws CustodyTuple}.

Definition item_bytes (i : Item) : bytes :=
  match i with IEntry t => to_vec t | IMapping t => to_vec t | ITag t => to_vec t | ICustody t => to_vec t end.
Definition item_pair (i : Item) : string * string := (item_key i, digest (item_bytes i)).

Lemma to_vec_inj `{SerdeBytesLaws A} (a b : A) : to_vec a = to_vec b -> a = b.
Proof. intros E. apply (f_equal from_slice) in E. rewrite !from_slice_to_vec in E. congruence. Qed.

Lemma item_inj i j : item_key i = item_key j -> item_bytes i = item_bytes j -> i = j.
Proof.
  destruct i, j; simpl; repeat match goal with x : _ |- _ => progress (unfold EntryTuple, MappingTuple, TagTuple, CustodyTuple in x) end;
    intros Ek Eb; try (f_equal; by apply to_vec_inj); exfalso;
    repeat match goal with p : (_ * _)%type |- _ => destruct p end; discriminate Ek.
Qed.

Lemma add_receipts_lookup (l : list (string * string)) m k v :
  NoDup l.*1 ->
  fold_left add_receipt l m !! k = Some v <-> (k, v) ∈ l \/ ((k ∉ l.*1) /\ m !! k = Some v).
Proof.
  revert m. induction l as [|[k' v'] l IH]; intros m Hn; simpl.
  - split; [intros E; right; split; [apply not_elem_of_nil|done]|intros [E|[_ E]]; [by apply elem_of_nil in E|done]].
  - inversion_clear Hn as [|? ? Hni Hn']. rewrite IH by done. unfold add_receipt; simpl.
    rewrite elem_of_cons, not_elem_of_cons. destruct (decide (k = k')) as [->|Hk].
    + rewrite lookup_insert_eq. simpl in Hni. naive_solver.
    + rewrite lookup_insert_ne by done. naive_solver.
Qed.

Lemma custody_receipts_ok rows m m' :
  custody_receipts rows m = Ok m' ->
  m' = fold_left add_receipt (List.map (fun r => item_pair (ICustody (custody_tuple r))) rows) m.
Proof.
  revert m. induction rows as [|r rows IH]; intros m; cbn [custody_receipts List.map fold_left].
  - by intros [= <-].
  - intros E. result_inv. apply IH in E. exact E.
Qed.

Lemma snapshot_items db m :
  snapshot db = Ok m -> m = fold_left add_receipt (List.map item_pair (items db)) ∅.
Proof.
  unfold snapshot, row_receipts, items. rewrite !map_app, !map_map. intros E.
  rewrite !fold_left_app in E. rewrite !fold_left_app. destruct (custody_objects db) as [rows|]; simpl.
  - apply custody_receipts_ok in E. exact E.
  - injection E as <-. reflexivity.
Qed.

Lemma fmap_key_nodup {A B} (f : A -> B) (g : B -> string) (h : A -> string) (l : list A) :
  (forall a, g (f a) = h a) -> NoDup (List.map h l) -> NoDup (List.map g (List.map f l)).
Proof. intros E Hn. rewrite map_map. erewrite map_ext; [exact Hn|done]. Qed.

Lemma map_inj_nodup {A B} (f : A -> B) (l : list A) : Inj (=) (=) f -> NoDup l -> NoDup (List.map f l).
Proof. intros Hi Hn. by apply (NoDup_fmap_2 f). Qed.

(** Keys of two tables differ in their prefix. *)
Lemma keys_disjoint {A B} (f : A -> string) (g : B -> string) (p : string) l k :
  (forall a, String.prefix p (f a) = true) -> (forall b, String.prefix p (g b) = false) ->
  k ∈ List.map f l -> forall l', k ∉ List.map g l'.
Proof.
  intros Hf Hg Hk l' Hk'. apply list_elem_of_In, in_map_iff in Hk as (a & <- & _).
  apply list_elem_of_In, in_map_iff in Hk' as (b & E & _). specialize (Hf a). rewrite <- E, Hg in Hf. done.
Qed.

Lemma keys_nodup db : keys_unique db -> NoDup (List.map item_key (items db)).
Proof.
  intros (N1 & N2 & N3 & N4). unfold items. rewrite !map_app, !map_map.
  assert (forall p, Inj (=) (=) (fun z => p +:+ i64_display z)) as I.
  { intros p x y E. by apply prefix_inj, i64_display_inj in E. }
  assert (Inj (=) (=) custody_key) as I' by (intros x y E; by apply prefix_inj in E).
  assert (forall p a, String.prefix p (p +:+ a) = true) as P.
  { intros p a. apply String.prefix_correct. induction p as [|c p IH]; [by destruct a|]. simpl. by f_equal. }
  rewrite !NoDup_app. split_and!.
  - rewrite <- (map_map entry_id entry_key). apply map_inj_nodup; [apply I|done].
  - intros k Hk. rewrite !elem_of_app. intros [E|[E|E]]; revert E;
      apply (keys_disjoint (fun r => entry_key (entry_id r)) _ "entry:") with (l := entries db); try done; intros; apply P.
  - rewrite <- (map_map mapping_id mapping_key). apply map_inj_nodup; [apply I|done].
  - intros k Hk. rewrite !elem_of_app. intros [E|E]; revert E;
      apply (keys_disjoint (fun r => mapping_key (mapping_id r)) _ "mapping:") with (l := domain_mappings db); try done; intros; apply P.
  - rewrite <- (map_map tag_id tag_key). apply map_inj_nodup; [apply I|done].
  - intros k Hk. apply (keys_disjoint (fun r => tag_key (tag_id r)) _ "domain-tag:") with (l := domain_mapping_tags db); try done; intros; apply P.
  - rewrite <- (map_map c_object_id custody_key). by apply map_inj_nodup.
Qed.

Lemma snapshot_lookup db m k v :
  keys_unique db -> snapshot db = Ok m -> m !! k = Some v <-> exists i, i ∈ items db /\ (k, v) = item_pair i.
Proof.
  intros Hu ->%snapshot_items. rewrite add_receipts_lookup.
  - rewrite lookup_empty. split.
    + intros [E|[_ [=]]]. apply list_elem_of_In, in_map_iff in E as (i & E & Hi%list_elem_of_In). eauto.
    + intros (i & Hi & E). left. rewrite E. by apply list_elem_of_In, in_map, list_elem_of_In.
  - change (List.map item_pair (items db)).*1 with (List.map fst (List.map item_pair (items db))).
    rewrite map_map. by apply keys_nodup.
Qed.

(** The last receipt under a key is the one that stays. *)
Lemma add_receipts_last (l : list (string * string)) m k v :
  fold_left add_receipt l m !! k = Some v -> (k, v) ∈ l \/ m !! k = Some v.
Proof.
  revert m. induction l as [|[k' v'] l IH]; intros m; simpl; [auto|]. intros E. rewrite elem_of_cons.
  apply IH in E as [?|E]; [auto|]. unfold add_receipt in E; simpl in E. apply lookup_insert_Some in E as [[-> ->]|[_ E]]; auto.
Qed.
Lemma add_receipts_kept (l : list (string * string)) m k : k ∉ l.*1 -> fold_left add_receipt l m !! k = m !! k.
Proof.
  revert m. induction l as [|[k' v'] l IH]; intros m; simpl; [done|]. rewrite not_elem_of_cons. intros [Hk Hn].
  rewrite IH by done. unfold add_receipt. simpl. by rewrite lookup_insert_ne.
Qed.
Lemma item_pairs_keys l : (List.map item_pair l).*1 = List.map item_key l.
Proof. induction l as [|i l IH]; simpl; by f_equal. Qed.

(** A row is overridden when a later row of its table has its primary key. *)
Definition overridden (l : list Item) (j : Item) : Prop :=
  exists pre post i, l = pre ++ j :: post /\ i ∈ post /\ item_key i = item_key j.

(** One snapshot: what a database with its primary keys has, any other has too,
    and a row of the other one is there or is overridden. *)
Lemma snapshot_has db db' m i :
  keys_unique db -> snapshot db = Ok m -> snapshot db' = Ok m -> i ∈ items db ->
  i ∈ items db' \/ exists j, j ∈ items db' /\ collision sha256 (item_bytes i) (item_bytes j).
Proof.
  intros U S S' Hi.
  assert (m !! item_key i = Some (digest (item_bytes i))) as L by (apply (snapshot_lookup db); eauto).
  rewrite (snapshot_items _ _ S') in L. apply add_receipts_last in L as [L|L]; [|by rewrite lookup_empty in L].
  apply list_elem_of_In, in_map_iff in L as (j & E & Hj%list_elem_of_In). injection E as Ek Ed. apply hex_encode_inj in Ed.
  destruct (decide (item_bytes i = item_bytes j)) as [Eb|Eb]; [left; by rewrite (item_inj i j)|right; by exists j].
Qed.
Lemma snapshot_shows db db' m j :
  keys_unique db -> snapshot db = Ok m -> snapshot db' = Ok m -> j ∈ items db' ->
  (j ∈ items db \/ overridden (items db') j) \/ exists i, i ∈ items db /\ collision sha256 (item_bytes i) (item_bytes j).
Proof.
  intros U S S' Hj. apply list_elem_of_split in Hj as (pre & post & E).
  destruct (decide (item_key j ∈ List.map item_key post)) as [Hk|Hk].
  - apply list_elem_of_In, in_map_iff in Hk as (i & Ek & Hi%list_elem_of_In). left; right. by exists pre, post, i.
  - assert (m !! item_key j = Some (digest (item_bytes j))) as L.
    { rewrite (snapshot_items _ _ S'), E, map_app, fold_left_app. cbn [List.map fold_left].
      rewrite add_receipts_kept by (by rewrite item_pairs_keys). apply lookup_insert_eq. }
    apply (snapshot_lookup db) in L as (i & Hi & Ep); [|done..]. injection Ep as Ek Ed. apply hex_encode_inj in Ed.
    destruct (decide (item_bytes j = item_bytes i)) as [Eb|Eb]; [left; left; by rewrite (item_inj j i)|right; exists i; split; [done|]].
    by apply collision_sym.
Qed.
Lemma elem_or_escape {A} (P : A -> Prop) (Q : Prop) (l : list A) : (forall x, x ∈ l -> P x \/ Q) -> (forall x, x ∈ l -> P x) \/ Q.
Proof.
  induction l as [|y l IH]; intros Hl; [left; intros x Hx; by apply elem_of_nil in Hx|].
  destruct (Hl y (list_elem_of_here y l)) as [Hy|?]; [|by right].
  destruct IH as [IH|?]; [intros x Hx; apply Hl; by apply list_elem_of_further| |by right].
  left. intros x [->|Hx]%elem_of_cons; auto.
Qed.

End Snapshot.
