(* ===== verification/Registry.v ===== *)
(** * Core: the secret equality index ([registry/mod.rs])

    One keyed, encrypted tag per entry tells whether two entries share a
    secret and whether a secret changed.  SQLite statements on these tables do
    not fail here: the foreign keys point to the entry being written. *)

From S2P Require Import Prelude Text ThirdParty Envelope Keyring CoreError EnvelopeOps LocalDb.
From Stdlib Require Import ZArith Lia Strings.String Strings.Byte.
From stdpp Require Import base list option strings numbers gmap.
Open Scope Z_scope.

Definition EQUALITY_KEY_ID : Z := 1.
Definition EQUALITY_ALGORITHM_VERSION : Z := 1.

Inductive TagUpsert := Inserted | Unchanged | Rotated | Rekeyed | Removed.
#[global] Instance TagUpsert_eq_dec : EqDecision TagUpsert.
Proof. solve_decision. Defined.

(** [is_equality_eligible]. *)
Definition is_equality_eligible (c : CredentialType) (secret : string) : bool :=
  is_retrievable_secret c && negb (String.eqb secret "").

(** [update_tag], [stamp_rotation], [mark_backfill_needed], [purge_registry_rows]. *)
Definition equality_row (cipher : bytes) (now : Z) : EqualityRow :=
  {| tag_cipher := cipher; algorithm_version := EQUALITY_ALGORITHM_VERSION; equality_key_id := EQUALITY_KEY_ID; updated_at := now |}.
Definition update_tag (cipher : bytes) (now entry_id : Z) (db : LocalDb) : LocalDb :=
  {| db with secret_equality_index := alter (fun _ => equality_row cipher now) entry_id (secret_equality_index db) |}.
Definition stamp_rotation (entry_id now : Z) (db : LocalDb) : LocalDb :=
  {| db with entry_lifecycle := partial_alter (fun r => Some match r with
       | Some r => {| r with password_rotated_at := Some now |}
       | None => {| password_rotated_at := Some now; expires_at := None; lc_rotation_interval_days_override := None;
                    lc_source := "manual" |}
       end) entry_id (entry_lifecycle db) |}.
Definition mark_backfill_needed (db : LocalDb) : LocalDb :=
  {| db with registry_state := <["backfill_complete"%string := "0"%string]> (registry_state db) |}.
Definition purge_registry_rows (entry_id : Z) (db : LocalDb) : LocalDb :=
  {| db with
       secret_equality_index := delete entry_id (secret_equality_index db);
       entry_lifecycle := delete entry_id (entry_lifecycle db);
       entity_memberships := delete entry_id (entity_memberships db) |}.

Section Tags.
Context `{Environment, Aead, Hmac, Sha256, Bincode EncryptedEntry, BincodeSer EncryptedEntry}.

(** [compute_equality_tag]; HMAC takes a key of any length. *)
Definition compute_equality_tag (equality_key : bytes) (secret : string) : bytes :=
  hmac_sha256 equality_key (as_bytes secret).

(** [serialize_tag_cipher], [deserialize_tag_cipher]. *)
Definition serialize_tag_cipher (dek : bytes) (tag_hex : string) : M bytes :=
  n ← draw_nonce;
  encrypted ← lift (map_err Crypto (encrypt_string n dek tag_hex));
  mret (bincode_serialize encrypted).
Definition deserialize_tag_cipher (dek blob : bytes) : Res string :=
  encrypted ← ok_or (bincode_deserialize blob) (Database Serialization);
  map_err Crypto (decrypt_to_string dek encrypted).

(** [upsert_equality_tag_with_key], [upsert_equality_tag]. *)
Definition upsert_equality_tag_with_key (dek equality_key : bytes) (entry_id : Z) (c : CredentialType) (secret : string)
    (now : Z) : M TagUpsert :=
  if negb (is_equality_eligible c secret) then
    _ ← execute (fun db => {| db with secret_equality_index := delete entry_id (secret_equality_index db) |});
    mret Removed
  else
    let tag := compute_equality_tag equality_key secret in
    cipher ← serialize_tag_cipher dek (hex_encode tag);
    prior ← query (fun db => secret_equality_index db !! entry_id);
    match prior with
    | None =>
      _ ← execute (fun db => {| db with secret_equality_index := <[entry_id := equality_row cipher now]> (secret_equality_index db) |});
      mret Inserted
    | Some row =>
      if negb (equality_key_id row =? EQUALITY_KEY_ID) then
        _ ← execute (update_tag cipher now entry_id);
        mret Rekeyed
      else
        prior_hex ← lift (deserialize_tag_cipher dek (tag_cipher row));
        if String.eqb prior_hex (hex_encode tag) then mret Unchanged
        else
          _ ← execute (update_tag cipher now entry_id);
          _ ← execute (stamp_rotation entry_id now);
          mret Rotated
    end.
Definition upsert_equality_tag (dek : bytes) (entry_id : Z) (c : CredentialType) (secret : string) (now : Z) : M TagUpsert :=
  equality_key ← lift (map_err Crypto (derive_equality_key dek));
  upsert_equality_tag_with_key dek equality_key entry_id c secret now.
End Tags.
