(* ===== verification/VaultKeys.v ===== *)
(** * Core: commands on the keys of a vault ([vault/mod.rs], [vault/slot_ops.rs])

    Creating and opening a vault, rotating the master password, recovery slots,
    recovery and revocation, on the durable state [Disk]: the database and the
    epoch sidecar beside it.  Every command returns its result and the state it
    leaves, on every path.  [io] flags say whether a write of the sidecar
    succeeds, which is also how a crash between the database commit and the
    sidecar is expressed.  Clock readings, salts, nonces, fresh keys and UUIDs
    are arguments.  The audit log, biometrics and the sweeps that follow the
    unlock are not part of the state. *)

From S2P Require Import Prelude Text ThirdParty Envelope Keyring DbWire CoreError SyncWire EpochGuard Recovery Lockout KeySlots.
From Stdlib Require Import ZArith Lia Strings.String Strings.Byte.
From stdpp Require Import base list option strings numbers.
Open Scope Z_scope.

Record Disk := { d_db : VaultDb; d_sidecar : File }.

(** What [VaultManager] holds of an open vault. *)
Record Session := { key_hierarchy : KeyHierarchy; session_uuid : option string; session_epoch : Z }.

Record VaultSnapshot := {
  snap_kdf_params : KdfParams;
  snap_wrapped_dek : WrappedKey;
  snap_key_epoch : Z;
  snap_vault_uuid : option string;
  snap_digest : bytes;
  raw_kdf_params : bytes;
  raw_wrapped_dek : bytes;
  raw_dek_nonce : bytes;
}.

Definition MIN_PASSWORD_LENGTH : nat := 12.

(** [i64::checked_add(1)]. *)
Definition i64_checked_succ (z : Z) : option Z := if z + 1 <? 2 ^ 63 then Some (z + 1) else None.

(** [recovery_slot_aad]. *)
Definition len_u32_le (b : bytes) : bytes := reverse (to_be_bytes 4 (Z.of_nat (length b))).
Definition recovery_slot_aad (vault_uuid slot_uuid : string) (key_epoch : Z) : bytes :=
  mjoin ((fun part => len_u32_le part ++ part) <$>
    [as_bytes "sp-recovery-slot-v1"; as_bytes vault_uuid; as_bytes slot_uuid; as_bytes "recovery"])
  ++ i64_to_le_bytes key_epoch.

(** [X'7261772D7631']: the marker of a raw wrap. *)
Definition RAW_KDF_MARKER : bytes := as_bytes "raw-v1".

(** What a rotation has staged before its transaction. *)
Record Staged := {
  st_key_epoch : Z;
  st_new_epoch : Z;
  st_params : KdfParams;
  st_wrapped : WrappedKey;
  st_master : bytes;
}.

Section Vault.
Context `{Hmac, Sha256, Aead, Argon2id, Base64}.
Context `{SerdeBytes KdfDocument, SerdeBytes WrapDocument, SerdeBytes NonceDocument}.
Context `{Bincode KdfParams, Bincode WrappedKey, Bincode LegacyWrappedKey, Bincode bytes}.
Context `{BincodeSer KdfParams, BincodeSer WrappedKey, BincodeSer bytes}.

(** [load_vault_snapshot]. *)
Definition load_vault_snapshot (db : VaultDb) : Res VaultSnapshot :=
  params ← map_err (fun _ => Database Serialization) (decode_kdf_params (kdf_params_col db));
  w ← map_err (fun _ => Database Serialization) (decode_wrapped_key (wrapped_dek_col db));
  Ok {| snap_kdf_params := params; snap_wrapped_dek := w; snap_key_epoch := epoch_of db;
        snap_vault_uuid := vault_uuid_col db; snap_digest := material_digest db;
        raw_kdf_params := kdf_params_col db; raw_wrapped_dek := wrapped_dek_col db; raw_dek_nonce := dek_nonce_col db |}.

(** [load_vault_metadata]. *)
Definition load_vault_metadata (db : VaultDb) : Res (KdfParams * WrappedKey * Z) :=
  params ← map_err (fun _ => Database Serialization) (decode_kdf_params (kdf_params_col db));
  w ← map_err (fun _ => Database Serialization) (decode_wrapped_key (wrapped_dek_col db));
  Ok (params, w, epoch_of db).

(** [enforce_epoch_guard] of a vault on disk. *)
Definition enforce_epoch_guard (io : bool) (snap : VaultSnapshot) (f : File) : Res (string * EpochCheck) * File :=
  match snap_vault_uuid snap with
  | None => (Err (InvalidInput "vault identity (vault_uuid) is missing from the database"), f)
  | Some uuid =>
    let '(r, f) := check io uuid (snap_key_epoch snap) (snap_digest snap) f in
    (v ← r; Ok (uuid, v), f)
  end.

(** [ensure_or_verify_slot_registry]. *)
Definition bootstrap_invariant (snap : VaultSnapshot) (slots : list KeySlot) : bool :=
  match slots with
  | [s] => bool_decide (slot_type s = SPassword) && is_usable s && (ks_key_epoch s =? snap_key_epoch snap) &&
           bool_decide (ks_kdf_params s = raw_kdf_params snap) && bool_decide (ks_wrapped_dek s = raw_wrapped_dek snap) &&
           bool_decide (ks_dek_nonce s = raw_dek_nonce snap)
  | _ => false
  end.
Definition ensure_or_verify_slot_registry (io : bool) (h : KeyHierarchy) (snap : VaultSnapshot) (uuid : option string)
    (allow_bootstrap : bool) (d : Disk) : Res unit * Disk :=
  match slot_registry_mac (d_db d) with
  | Some _ => (verify_slot_registry h (d_db d), d)
  | None =>
    if negb allow_bootstrap then (Err (InvalidInput "slot registry is not yet initialized"), d)
    else
      match (slots ← load_key_slots (d_db d);
             _ ← err_if (negb (bootstrap_invariant snap slots))
                   (InvalidInput "slot registry is not in the expected pre-bootstrap state");
             commit_slot_registry h slots (d_db d)) with
      | Err e => (Err e, d)
      | Ok db =>
        match uuid with
        | None => (Ok tt, {| d with d_db := db |})
        | Some u =>
          let '(r, f) := rebase io u (snap_key_epoch snap) (material_digest db) (d_sidecar d) in
          (r, {| d_db := db; d_sidecar := f |})
        end
      end
  end.

Definition with_attempts (t : failed_attempts) (d : Disk) : Disk :=
  let db := d_db d in {| d with d_db := {| db with attempts := t |} |}.

(** [VaultManager::open], to the point where the keys are in memory and the
    registry is verified: the lockout gate, one snapshot, the guard, the
    unlock, the heal, the registry.  [now'] is the clock after a failed
    unlock. *)
Definition open_vault (now now' : Z) (io_check io_heal io_boot : bool) (password : bytes) (d : Disk)
    : Res Session * Disk :=
  match Vault.vault_remaining_lockout_seconds now (attempts (d_db d)) with
  | Some remaining => (Err (LockedOut remaining), d)
  | None =>
  match load_vault_snapshot (d_db d) with
  | Err e => (Err e, d)
  | Ok snap =>
  let '(g, f) := enforce_epoch_guard io_check snap (d_sidecar d) in
  let d := {| d with d_sidecar := f |} in
  match g with
  | Err e => (Err e, d)
  | Ok (uuid, verdict) =>
  match unlock_vault_with_epoch password (snap_kdf_params snap) (snap_wrapped_dek snap) (snap_key_epoch snap) new_hierarchy with
  | (Err e, _) =>
    let d := with_attempts (Vault.vault_record_failed_attempt now' (attempts (d_db d))) d in
    (Err (match Vault.vault_remaining_lockout_seconds now' (attempts (d_db d)) with
          | Some remaining => LockedOut remaining
          | None => Crypto e
          end), d)
  | (Ok _, h) =>
    let '(healed, f) :=
      match verdict with
      | HealPending from to =>
        if epoch_bound (snap_wrapped_dek snap) then adopt_heal io_heal uuid from to (snap_digest snap) (d_sidecar d)
        else (Err (InvalidInput "vault is one epoch ahead on legacy (non-epoch-bound) key material"), d_sidecar d)
      | _ => (Ok tt, d_sidecar d)
      end in
    let d := {| d with d_sidecar := f |} in
    match healed with
    | Err e => (Err e, d)
    | Ok _ =>
      let d := with_attempts (clear_failed_attempts (attempts (d_db d))) d in
      let '(r, d) := ensure_or_verify_slot_registry io_boot h snap (Some uuid) true d in
      (_ ← r; Ok {| key_hierarchy := h; session_uuid := Some uuid; session_epoch := snap_key_epoch snap |}, d)
    end
  end end end end.

(** [VaultManager::create] on a fresh path: the empty database, the
    transaction and the sidecar, whose failure is not an error. *)
Definition empty_db : VaultDb := {|
  kdf_params_col := []; wrapped_dek_col := []; dek_nonce_col := []; slot_registry_mac := None; vault_uuid_col := None;
  key_epoch_col := 1; key_slots := []; attempts := [] |}.
Definition create_vault (now : Z) (fresh_salt fresh_dek gcm_nonce : bytes) (uuid slot : string) (io : bool)
    (password : bytes) (f : File) : Res (Session * Disk) :=
  let '(r, h) := initialize_vault fresh_salt fresh_dek gcm_nonce password new_hierarchy in
  '(params, w) ← map_err Crypto r;
  blobs ← map_err (fun _ => Database Serialization) (encode_metadata_blobs params w);
  let '(k, b, n) := blobs in
  let db := {| empty_db with kdf_params_col := k; wrapped_dek_col := b; dek_nonce_col := n; vault_uuid_col := Some uuid |} in
  db ← ensure_password_slot now slot (bincode_serialize params) (bincode_serialize w) (bincode_serialize (nonce w)) 1 db;
  slots ← load_key_slots db;
  db ← commit_slot_registry h slots db;
  let '(_, f) := rebase io uuid 1 (material_digest db) f in
  Ok ({| key_hierarchy := h; session_uuid := Some uuid; session_epoch := 1 |}, {| d_db := db; d_sidecar := f |}).

(** The first half of [change_master_password]: the checks, the lockout gate,
    the staged rotation; a wrong current password is recorded. *)
Definition rotate_stage (now now' : Z) (fresh_salt gcm_nonce current new_password : bytes) (s : Session) (d : Disk)
    : Res Staged * Disk :=
  if (length new_password <? MIN_PASSWORD_LENGTH)%nat then (Err (InvalidInput "New master password must be at least 12 characters"), d)
  else if bool_decide (new_password = current) then (Err (InvalidInput "New master password must differ from the current password"), d)
  else
  match Vault.vault_remaining_lockout_seconds now (attempts (d_db d)) with
  | Some remaining => (Err (LockedOut remaining), d)
  | None =>
  match load_vault_metadata (d_db d) with
  | Err e => (Err e, d)
  | Ok (params, w, key_epoch) =>
  match i64_checked_succ key_epoch with
  | None => (Err (InvalidInput "vault epoch exhausted"), d)
  | Some new_epoch =>
  match rotate_master_password fresh_salt gcm_nonce (key_hierarchy s) current params w key_epoch new_password with
  | Ok (params', w', mk) =>
    (Ok {| st_key_epoch := key_epoch; st_new_epoch := new_epoch; st_params := params'; st_wrapped := w'; st_master := mk |}, d)
  | Err AuthenticationFailed =>
    let d := with_attempts (Vault.vault_record_failed_attempt now' (attempts (d_db d))) d in
    (Err (match Vault.vault_remaining_lockout_seconds now' (attempts (d_db d)) with
          | Some remaining => LockedOut remaining
          | None => Crypto AuthenticationFailed
          end), d)
  | Err e => (Err (Crypto e), d)
  end end end end.

(** The transaction: verify, update under the staged epoch, mirror the slot. *)
Definition rotate_tx (now : Z) (h : KeyHierarchy) (st : Staged) (db : VaultDb) : Res VaultDb :=
  blobs ← map_err (fun _ => Database Serialization) (encode_metadata_blobs (st_params st) (st_wrapped st));
  let '(k, b, n) := blobs in
  _ ← verify_slot_registry h db;
  _ ← err_if (negb (key_epoch_col db =? st_key_epoch st)) (InvalidInput "vault changed concurrently (epoch moved)");
  let db := {| db with kdf_params_col := k; wrapped_dek_col := b; dek_nonce_col := n; key_epoch_col := st_new_epoch st |} in
  sync_password_slot_after_material_change now EmptyString h (bincode_serialize (st_params st))
    (bincode_serialize (st_wrapped st)) (bincode_serialize (nonce (st_wrapped st))) (st_new_epoch st) false db.

(** The second half: commit, adopt in memory, then follow with the sidecar,
    whose failure is not an error. *)
Definition rotate_commit (now : Z) (io : bool) (st : Staged) (s : Session) (d : Disk) : Res Z * Session * Disk :=
  match rotate_tx now (key_hierarchy s) st (d_db d) with
  | Err e => (Err e, s, d)
  | Ok db =>
    let s := {| key_hierarchy := adopt_master_key (st_master st) (key_hierarchy s); session_uuid := session_uuid s;
                session_epoch := st_new_epoch st |} in
    let f := match session_uuid s with
             | Some u => snd (bump io u (st_new_epoch st) (material_digest db) (d_sidecar d))
             | None => d_sidecar d
             end in
    (Ok (st_key_epoch st + 1), s, {| d_db := db; d_sidecar := f |})
  end.

Definition change_master_password (now now' : Z) (io : bool) (fresh_salt gcm_nonce current new_password : bytes)
    (s : Session) (d : Disk) : Res Z * Session * Disk :=
  match rotate_stage now now' fresh_salt gcm_nonce current new_password s d with
  | (Err e, d) => (Err e, s, d)
  | (Ok st, d) => rotate_commit now io st s d
  end.

(** [follow_sidecar_at_constant_epoch]. *)
Definition follow_sidecar_at_constant_epoch (io : bool) (s : Session) (d : Disk) : Res unit * Disk :=
  match session_uuid s with
  | None => (Ok tt, d)
  | Some uuid =>
    let epoch := epoch_of (d_db d) in
    let follow := let '(r, f) := rebase io uuid epoch (material_digest (d_db d)) (d_sidecar d) in (r, {| d with d_sidecar := f |}) in
    match peek (d_sidecar d) with
    | None => follow
    | Some (sidecar_uuid, sidecar_epoch) =>
      if negb (String.eqb sidecar_uuid uuid) then (Err (InvalidInput "epoch sidecar belongs to a different vault; refusing to follow"), d)
      else if sidecar_epoch =? epoch then follow
      else if sidecar_epoch <? epoch then (Ok tt, d)
      else (Err (EpochRollback epoch sidecar_epoch), d)
    end
  end.

(** [wrap_dek_for_recovery_slot]. *)
Definition wrap_dek_for_recovery_slot (gcm_nonce dek recovery_key : bytes) (vault_uuid slot_uuid : string) (key_epoch : Z)
    : Res (WrappedKey * bytes) :=
  ciphertext ← ok_or (gcm_encrypt recovery_key gcm_nonce (recovery_slot_aad vault_uuid slot_uuid key_epoch) dek)
                 (Database (OtherDb "recovery wrap failed"));
  let tag_start := (length ciphertext - 16)%nat in
  Ok ({| wrapped_dek := take tag_start ciphertext; nonce := gcm_nonce; auth_tag := drop tag_start ciphertext;
         epoch_bound := true |}, bincode_serialize gcm_nonce).

(** [unwrap_dek_via_recovery_slot]. *)
Definition unwrap_dek_via_recovery_slot (dek_wrapped nonce' recovery_key : bytes) (vault_uuid slot_uuid : string) (key_epoch : Z)
    : Res bytes :=
  w ← ok_or (bincode_deserialize (A := WrappedKey) dek_wrapped) (Database Serialization);
  _ ← err_if (negb (epoch_bound w)) (InvalidInput "recovery slot wrap is not epoch-bound; refusing");
  _ ← err_if (negb (bool_decide (nonce' = nonce w))) (InvalidInput "recovery slot nonce mismatch");
  dek ← ok_or (gcm_decrypt recovery_key nonce' (recovery_slot_aad vault_uuid slot_uuid key_epoch) (wrapped_dek w ++ auth_tag w))
          (Crypto AuthenticationFailed);
  _ ← err_if (negb (length dek =? 32)%nat) (Database (OtherDb "recovered DEK length"));
  Ok dek.

(** [create_recovery_slot]: the transaction, then the sidecar. *)
Definition recovery_tx (now : Z) (gcm_nonce : bytes) (fresh : string) (recovery_key dek : bytes) (h : KeyHierarchy)
    (db : VaultDb) : Res VaultDb :=
  _ ← verify_slot_registry h db;
  let epoch := epoch_of db in
  let uuid := default EmptyString (vault_uuid_col db) in
  let db := revoke_where now (fun r => String.eqb (slot_type r) "recovery" && is_usable r) db in
  '(w, nonce_blob) ← wrap_dek_for_recovery_slot gcm_nonce dek recovery_key uuid fresh epoch;
  db ← insert_slot {| slot_uuid := fresh; slot_type := "recovery"; ks_kdf_params := RAW_KDF_MARKER;
         ks_wrapped_dek := bincode_serialize w; ks_dek_nonce := nonce_blob; ks_key_epoch := epoch; created_at := now;
         revoked_at := None; format_version := 1 |} db;
  slots ← load_key_slots db;
  commit_slot_registry h slots db.
Definition create_recovery_slot (now : Z) (io : bool) (gcm_nonce : bytes) (fresh : string) (recovery_key : bytes)
    (s : Session) (d : Disk) : Res unit * Disk :=
  match (dek ← hierarchy_dek (key_hierarchy s); recovery_tx now gcm_nonce fresh recovery_key dek (key_hierarchy s) (d_db d)) with
  | Err e => (Err e, d)
  | Ok db => follow_sidecar_at_constant_epoch io s {| d with d_db := db |}
  end.

(** [revoke_key_slot]. *)
Definition revoke_key_slot (now : Z) (io : bool) (target : string) (s : Session) (d : Disk) : Res unit * Disk :=
  match revoke_in_tx now (key_hierarchy s) target (d_db d) with
  | Err e => (Err e, d)
  | Ok (_, db) => follow_sidecar_at_constant_epoch io s {| d with d_db := db |}
  end.

(** The newest usable recovery slot: the first of the greatest [created_at]. *)
Definition newest (slots : list KeySlot) : option KeySlot :=
  foldl (fun best s => match best with
                       | Some b => if created_at b <? created_at s then Some s else best
                       | None => Some s
                       end) None
    (List.filter (fun s => bool_decide (slot_type s = SRecovery) && is_usable s) slots).

(** [recover_access]: the transaction. *)
Definition recover_tx (now : Z) (fresh : string) (h : KeyHierarchy) (st : Staged) (db : VaultDb) : Res VaultDb :=
  _ ← verify_slot_registry h db;
  let db := revoke_where now is_usable db in
  blobs ← map_err (fun _ => Database Serialization) (encode_metadata_blobs (st_params st) (st_wrapped st));
  let '(k, b, n) := blobs in
  db ← insert_slot (password_row fresh (bincode_serialize (st_params st)) (bincode_serialize (st_wrapped st))
                      (bincode_serialize (nonce (st_wrapped st))) (st_new_epoch st) now) db;
  _ ← err_if (negb (key_epoch_col db =? st_key_epoch st)) (InvalidInput "vault changed concurrently during recovery; aborted");
  let db := {| db with kdf_params_col := k; wrapped_dek_col := b; dek_nonce_col := n; key_epoch_col := st_new_epoch st |} in
  slots ← load_key_slots db;
  commit_slot_registry h slots db.

(** The new wrap, built and verified before the transaction. *)
Definition recover_stage (fresh_salt gcm_nonce dek new_password : bytes) (key_epoch : Z) : Res Staged :=
  new_epoch ← ok_or (i64_checked_succ key_epoch) (InvalidInput "vault epoch exhausted");
  let params := kdf_default fresh_salt in
  mk ← map_err Crypto (derive_master_key new_password params);
  let aad := Some (i64_to_le_bytes new_epoch) in
  w ← map_err Crypto (wrap_dek_under_key gcm_nonce mk dek aad true);
  verify ← map_err Crypto (unwrap_dek_under_key mk w aad);
  _ ← err_if (negb (bool_decide (verify = dek))) (InvalidInput "staged password wrap failed verification; recovery aborted");
  Ok {| st_key_epoch := key_epoch; st_new_epoch := new_epoch; st_params := params; st_wrapped := w; st_master := mk |}.

Definition recover_access (now : Z) (io_check io : bool) (fresh_salt gcm_nonce : bytes) (fresh : string)
    (recovery_key new_password : bytes) (d : Disk) : Res unit * Disk :=
  if (length new_password <? MIN_PASSWORD_LENGTH)%nat then (Err (InvalidInput "New master password must be at least 12 characters"), d)
  else
  match (snap ← load_vault_snapshot (d_db d);
         uuid ← ok_or (snap_vault_uuid snap) (InvalidInput "vault identity (vault_uuid) is missing; refusing recovery");
         Ok (snap, uuid)) with
  | Err e => (Err e, d)
  | Ok (snap, uuid) =>
  let '(g, f) := check io_check uuid (snap_key_epoch snap) (snap_digest snap) (d_sidecar d) in
  let d := {| d with d_sidecar := f |} in
  match (_ ← g;
         slots ← load_key_slots (d_db d);
         slot ← ok_or (newest slots) (NotFound "no usable recovery slot on this vault");
         nonce ← ok_or (bincode_deserialize (A := bytes) (ks_dek_nonce slot)) (Database Serialization);
         dek ← map_err (fun _ => InvalidInput "recovery key did not open this vault's recovery slot")
                 (unwrap_dek_via_recovery_slot (ks_wrapped_dek slot) nonce recovery_key uuid (slot_uuid slot) (ks_key_epoch slot));
         st ← recover_stage fresh_salt gcm_nonce dek new_password (snap_key_epoch snap);
         let h := unlock_vault_with_dek dek new_hierarchy in
         _ ← err_if (bool_decide (slot_registry_mac (d_db d) = None)) (InvalidInput "the slot registry is not initialized on this vault");
         db ← recover_tx now fresh h st (d_db d);
         Ok (st, db)) with
  | Err e => (Err e, d)
  | Ok (st, db) =>
    (Ok tt, {| d_db := db; d_sidecar := snd (bump io uuid (st_new_epoch st) (material_digest db) (d_sidecar d)) |})
  end end.
End Vault.
