(* ===== verification/Entries.v ===== *)
(** * Core: the entries of a vault ([vault/mod.rs], [database/repository.rs],
    [vault/envelope_ops.rs])

    Adding, reading, listing, changing and deleting credentials.  The audit
    log entries these operations append, best-effort and outside the database,
    are left out; the clock is an argument. *)

From S2P Require Import Prelude Text ThirdParty Aad Envelope Keyring CoreError EnvelopeOps KeySlots VaultKeys LocalDb ContentGuard Registry.
From Stdlib Require Import ZArith Lia Strings.String Strings.Byte.
From stdpp Require Import base list option strings numbers gmap sorting.
Open Scope Z_scope.

(** [chrono::DateTime::from_timestamp(_, 0).is_some()]. *)
Class Chrono := from_timestamp_ok : Z -> bool.

Record Entry := {
  en_entry_id : option Z;
  en_title : string;
  en_username : string;
  en_password : string;
  en_url : option string;
  en_notes : option string;
  en_credential_type : CredentialType;
  en_created_at : Z;
  en_modified_at : Z;
  en_favorite : bool;
}.
Record EntrySummary := {
  es_entry_id : Z;
  es_title : string;
  es_username : string;
  es_credential_type : CredentialType;
  es_favorite : bool;
}.

Record SealedEntryFields := {
  sf_title : bytes;
  sf_username : bytes;
  sf_password : bytes;
  sf_url : option bytes;
  sf_notes : option bytes;
}.

(** [NewEntryParams] and [UpdateEntryParams] carry the columns they set. *)
Record NewEntryParams := {
  np_fields : SealedEntryFields;
  np_credential_type : string;
  np_entry_nonce : bytes;
  np_auth_tag : bytes;
  np_created_at : Z;
  np_modified_at : Z;
  np_favorite : bool;
  np_sync_id : option string;
}.
Record UpdateEntryParams := {
  up_title : option bytes;
  up_username : option bytes;
  up_password : option bytes;
  up_url : option bytes;
  up_notes : option bytes;
  up_credential_type : option string;
  up_entry_nonce : option bytes;
  up_auth_tag : option bytes;
  up_modified_at : Z;
  up_favorite : option bool;
}.

Record EntryFilter := { f_limit : option Z; f_offset : option Z; f_favorite_only : bool }.
Definition default_filter : EntryFilter := {| f_limit := None; f_offset := None; f_favorite_only := false |}.

Record PaginationParams := { page : Z; page_size : Z }.   (* u32 *)
Record PaginatedResult := { pr_items : list EntrySummary; pr_total_count : Z; pr_has_more : bool }.
Definition page_offset (p : PaginationParams) : Z := u32_saturating_mul (page p) (page_size p).
Definition page_limit (p : PaginationParams) : Z := Z.min (page_size p) 1000.

(** ** The repository *)

(** A constraint of SQLite. *)
Definition sqlite_error : PasswordManagerError := Database Sqlite.

(** [insert_entry_row]: the unique index on [sync_id] and the check on
    [credential_type] may refuse it; returns the new rowid. *)
Definition type_check (t : string) : bool := bool_decide (t ∈ ["password"; "api_key"; "passkey_reference"]%string).
Definition new_sync (id : option string) : SyncCols := {|
  sync_id := id; sync_version := 1; sync_acked_version := 0; sync_state := Pending; last_synced_at := None;
  is_deleted := false; deleted_at := None |}.
Definition sync_id_free (id : option string) (db : LocalDb) : bool :=
  match id with Some s => negb (existsb (fun r => has_sync_id s (e_sync r)) (entries db)) | None => true end.
Definition insert_entry_row (p : NewEntryParams) : M Z :=
  id ← query (fun db => autoincrement entry_id (entries_seq db) (entries db));
  let f := np_fields p in
  let row := {| entry_id := id; e_title := sf_title f; e_username := sf_username f; e_password := sf_password f;
     e_url := sf_url f; e_notes := sf_notes f; e_credential_type := np_credential_type p; entry_nonce := np_entry_nonce p;
     e_auth_tag := np_auth_tag p; e_created_at := np_created_at p; e_modified_at := np_modified_at p;
     e_favorite := np_favorite p; e_sync := new_sync (np_sync_id p) |} in
  _ ← execute_res (fun db =>
        _ ← err_if (negb (type_check (np_credential_type p)) || negb (sync_id_free (np_sync_id p) db)) sqlite_error;
        Ok {| db with entries := entries db ++ [row]; entries_seq := id |});
  mret id.

(** [update_entry_row]: no row is written when none has the id. *)
Definition touch (c : SyncCols) : SyncCols :=
  {| c with sync_version := sync_version c + 1; sync_state := Pending |}.
Definition set_entry (p : UpdateEntryParams) (r : EntryRow) : EntryRow := {|
  entry_id := entry_id r; e_title := default (e_title r) (up_title p); e_username := default (e_username r) (up_username p);
  e_password := default (e_password r) (up_password p); e_url := up_url p; e_notes := up_notes p;
  e_credential_type := default (e_credential_type r) (up_credential_type p);
  entry_nonce := default (entry_nonce r) (up_entry_nonce p); e_auth_tag := default (e_auth_tag r) (up_auth_tag p);
  e_created_at := e_created_at r; e_modified_at := up_modified_at p; e_favorite := default (e_favorite r) (up_favorite p);
  e_sync := touch (e_sync r) |}.
Definition update_entry_row (id : Z) (p : UpdateEntryParams) : M unit :=
  _ ← fail_if (match up_credential_type p with Some t => negb (type_check t) | None => false end) sqlite_error;
  execute (fun db => {| db with entries := update_where (fun r => entry_id r =? id) (set_entry p) (entries db) |}).

(** [get_raw], [list_raw], [count], [exists]. *)
Definition visible (r : EntryRow) : bool := negb (is_deleted (e_sync r)).
Definition get_raw (id : Z) (db : LocalDb) : option EntryRow :=
  List.find (fun r => (entry_id r =? id) && visible r) (entries db).
Definition list_raw (f : EntryFilter) (db : LocalDb) : list EntryRow :=
  let rows := List.filter (fun r => visible r && (negb (f_favorite_only f) || e_favorite r)) (entries db) in
  match f_limit f, f_offset f with
  | None, _ => rows
  | Some l, o => take (Z.to_nat l) (drop (Z.to_nat (default 0 o)) rows)
  end.
Definition count (db : LocalDb) : Z := Z.of_nat (length (List.filter visible (entries db))).
Definition exists_entry (id : Z) (db : LocalDb) : bool := bool_decide (is_Some (get_raw id db)).

Section Entries.
Context `{Environment, Chrono, Hmac, Sha256, HexDecode, UuidText, Base64, Aead}.
Context `{SerdeBytes AadContext, SerdeBytes EnvelopeDoc, SerdeBytes EntryTuple, SerdeBytes MappingTuple, SerdeBytes TagTuple}.
Context `{SerdeBytes CustodyTuple, SerdeBytes State, SerdeBytes Document}.
Context `{Bincode EncryptedEntry, BincodeSer EncryptedEntry, BincodeSer bytes}.

(** ** Fields ([envelope_ops.rs]) *)

(** [VaultManager::vault_uuid_str], [KeyHierarchy::dek]. *)
Definition vault_uuid_str (s : Session) : Res string :=
  ok_or (session_uuid s) (InvalidInput "vault identity (vault_uuid) is missing; refusing envelope operation").
Definition session_dek (s : Session) : Res bytes := hierarchy_dek (key_hierarchy s).

(** [seal_object_field] with the nonce it draws. *)
Definition seal_field (dek : bytes) (vault_uuid object_id : string) (t : ObjectType) (p : EnvelopePurpose) (text : string)
    (epoch : Z) : M bytes :=
  n ← draw_nonce;
  lift (seal_object_field n dek vault_uuid object_id t p text epoch).
(** [.map(seal).transpose()?]. *)
Definition seal_opt (seal : string -> M bytes) (text : option string) : M (option bytes) :=
  match text with
  | Some t => b ← seal t; mret (Some b)
  | None => mret None
  end.

(** [seal_entry_fields]. *)
Definition seal_entry_fields (dek : bytes) (vault_uuid sync_id : string) (cred : CredentialType) (e : Entry) (epoch : Z)
    : M SealedEntryFields :=
  let seal p text := seal_field dek vault_uuid sync_id (envelope_object_type cred) p text epoch in
  title ← seal EntryTitle (en_title e);
  username ← seal EntryUsername (en_username e);
  password ← seal EntryPassword (en_password e);
  url ← seal_opt (seal EntryUrl) (en_url e);
  notes ← seal_opt (seal EntryNotes) (en_notes e);
  mret {| sf_title := title; sf_username := username; sf_password := password; sf_url := url; sf_notes := notes |}.

(** [VaultManager::open_entry_field], and its use on an optional column: an
    empty blob reads as absent. *)
Definition open_entry_field (s : Session) (sync_id : option string) (cred : CredentialType) (p : EnvelopePurpose) (blob : bytes)
    : Res string :=
  dek ← session_dek s;
  open_object_field dek (session_uuid s) sync_id (envelope_object_type cred) p blob.
Definition open_opt (open : bytes -> Res string) (blob : option bytes) : Res (option string) :=
  match blob with
  | Some b => if bool_decide (b = []) then Ok None else t ← open b; Ok (Some t)
  | None => Ok None
  end.

(** ** Rows and entries *)

Definition datetime (now ts : Z) : Z := if from_timestamp_ok ts then ts else now.

(** The decryption of [decrypt_entry_row], after the receipt check. *)
Definition open_row (s : Session) (now : Z) (r : EntryRow) : Res Entry :=
  cred ← cred_parse (e_credential_type r);
  let open p b := open_entry_field s (sync_id (e_sync r)) cred p b in
  title ← open EntryTitle (e_title r);
  username ← open EntryUsername (e_username r);
  password ← open EntryPassword (e_password r);
  url ← open_opt (open EntryUrl) (e_url r);
  notes ← open_opt (open EntryNotes) (e_notes r);
  Ok {| en_entry_id := Some (entry_id r); en_title := title; en_username := username; en_password := password;
        en_url := url; en_notes := notes; en_credential_type := cred; en_created_at := datetime now (e_created_at r);
        en_modified_at := datetime now (e_modified_at r); en_favorite := e_favorite r |}.
Definition decrypt_entry_row (s : Session) (now : Z) (r : EntryRow) : M Entry :=
  dek ← lift (session_dek s);
  _ ← verify_row dek r;
  lift (open_row s now r).

(** [row_to_summary]. *)
Definition summary_of (s : Session) (r : EntryRow) : Res EntrySummary :=
  cred ← cred_parse (e_credential_type r);
  title ← open_entry_field s (sync_id (e_sync r)) cred EntryTitle (e_title r);
  username ← open_entry_field s (sync_id (e_sync r)) cred EntryUsername (e_username r);
  Ok {| es_entry_id := entry_id r; es_title := title; es_username := username; es_credential_type := cred;
        es_favorite := e_favorite r |}.
Definition row_to_summary (s : Session) (r : EntryRow) : M EntrySummary :=
  dek ← lift (session_dek s);
  _ ← verify_row dek r;
  lift (summary_of s r).
Fixpoint summaries (s : Session) (rows : list EntryRow) : M (list EntrySummary) :=
  match rows with
  | [] => mret []
  | r :: rows => x ← row_to_summary s r; l ← summaries s rows; mret (x :: l)
  end.

(** ** Operations *)

Definition entry_not_found (id : Z) : PasswordManagerError := NotFound ("Entry " +:+ i64_display id).
Definition require_unlocked (s : Session) : M unit := fail_if (negb (is_unlocked (key_hierarchy s))) VaultLocked.

(** [add_entry]. *)
Definition add_entry (s : Session) (now : Z) (e : Entry) : M Z :=
  _ ← require_unlocked s;
  sync ← draw_uuid;
  let sync_id := uuid_to_string sync in
  dek ← lift (session_dek s);
  vault_uuid ← lift (vault_uuid_str s);
  sealed ← seal_entry_fields dek vault_uuid sync_id (en_credential_type e) e (session_epoch s);
  let '(nonce_blob, auth_tag_blob) := zeroed_legacy_v1_columns in
  content_tx dek (
    id ← insert_entry_row {| np_fields := sealed; np_credential_type := cred_str (en_credential_type e);
           np_entry_nonce := nonce_blob; np_auth_tag := auth_tag_blob; np_created_at := now; np_modified_at := now;
           np_favorite := en_favorite e; np_sync_id := Some sync_id |};
    _ ← upsert_equality_tag dek id (en_credential_type e) (en_password e) now;
    mret id).

(** [get_entry]. *)
Definition get_entry (s : Session) (now : Z) (id : Z) : M Entry :=
  _ ← require_unlocked s;
  dek ← lift (session_dek s);
  _ ← verify_snapshot dek;
  row ← query (get_raw id);
  match row with
  | Some r => decrypt_entry_row s now r
  | None => fail (entry_not_found id)
  end.

(** [list_entries]: sorted by title. *)
Definition title_le (a b : EntrySummary) : Prop := String.leb (es_title a) (es_title b) = true.
#[global] Instance title_le_dec : RelDecision title_le.
Proof. intros a b. unfold title_le. apply _. Defined.
Definition list_entries (s : Session) : M (list EntrySummary) :=
  _ ← require_unlocked s;
  dek ← lift (session_dek s);
  _ ← verify_snapshot dek;
  rows ← query (list_raw default_filter);
  l ← summaries s rows;
  mret (merge_sort title_le l).

(** [list_entries_paginated]. *)
Definition list_entries_paginated (s : Session) (p : PaginationParams) : M PaginatedResult :=
  _ ← require_unlocked s;
  dek ← lift (session_dek s);
  _ ← verify_snapshot dek;
  total ← query count;
  rows ← query (list_raw {| f_limit := Some (page_limit p); f_offset := Some (page_offset p); f_favorite_only := false |});
  l ← summaries s rows;
  mret {| pr_items := l; pr_total_count := total; pr_has_more := page_offset p + Z.of_nat (length l) <? total |}.

(** [delete_entry]. *)
Definition tombstone_entry (now : Z) (r : EntryRow) : EntryRow :=
  let c := e_sync r in
  {| r with e_sync := {| c with is_deleted := true; deleted_at := Some now; sync_version := sync_version c + 1; sync_state := Pending |} |}.
Definition insert_tombstone (sync_id : string) (version now : Z) (db : LocalDb) : LocalDb :=
  {| db with sync_tombstones := match sync_tombstones db !! sync_id with
       | Some _ => sync_tombstones db
       | None => <[sync_id := {| tb_entry_type := "credential"; tb_sync_version := version; tb_deleted_at := now;
                                 tb_origin_device_id := "" |}]> (sync_tombstones db) end |}.
(** Deleting mappings takes their tags along (foreign key). *)
Definition delete_mappings (id : Z) (db : LocalDb) : LocalDb :=
  let gone m := dm_entry_id m =? id in
  let tag_gone t := existsb (fun m => gone m && (mapping_id m =? t_mapping_id t)) (domain_mappings db) in
  {| db with
       domain_mappings := delete_where gone (domain_mappings db);
       domain_mapping_tags := delete_where tag_gone (domain_mapping_tags db) |}.
Definition delete_body (now : Z) (id : Z) : M unit :=
  sync_info ← query (fun db => r ← List.find (fun r => entry_id r =? id) (entries db);
                                sid ← sync_id (e_sync r); Some (sid, sync_version (e_sync r)));
  affected ← query (exists_entry id);
  _ ← execute (fun db => {| db with entries :=
        update_where (fun r => (entry_id r =? id) && visible r) (tombstone_entry now) (entries db) |});
  _ ← fail_if (negb affected) (entry_not_found id);
  _ ← execute (fun db => match sync_info with Some (sid, v) => insert_tombstone sid (v + 1) now db | None => db end);
  _ ← execute (delete_mappings id);
  execute (purge_registry_rows id).
Definition delete_entry (s : Session) (now : Z) (id : Z) : M unit :=
  _ ← require_unlocked s;
  dek ← lift (session_dek s);
  content_tx dek (delete_body now id).

(** [update_entry]: the format of the stored row decides how it is written. *)
Definition optional_mismatch (v2 : bool) (b : option bytes) : bool :=
  match b with Some b => negb (bool_decide (b = [])) && negb (Bool.eqb (is_envelope_blob b) v2) | None => false end.
Definition mixed_format (r : EntryRow) : bool :=
  let v2 := is_envelope_blob (e_password r) in
  negb (Bool.eqb (is_envelope_blob (e_title r)) v2) || negb (Bool.eqb (is_envelope_blob (e_username r)) v2)
  || optional_mismatch v2 (e_url r) || optional_mismatch v2 (e_notes r).

(** The legacy branch: context-free encryption of each field. *)
Definition encrypt_field (dek : bytes) (text : string) : M EncryptedEntry :=
  n ← draw_nonce; lift (map_err Crypto (encrypt_string n dek text)).
Definition encrypt_entry_fields (dek : bytes) (e : Entry) : M (SealedEntryFields * bytes * bytes) :=
  title ← encrypt_field dek (en_title e);
  username ← encrypt_field dek (en_username e);
  password ← encrypt_field dek (en_password e);
  url ← seal_opt (fun t => x ← encrypt_field dek t; mret (bincode_serialize x)) (en_url e);
  notes ← seal_opt (fun t => x ← encrypt_field dek t; mret (bincode_serialize x)) (en_notes e);
  mret ({| sf_title := bincode_serialize title; sf_username := bincode_serialize username;
           sf_password := bincode_serialize password; sf_url := url; sf_notes := notes |},
        bincode_serialize (ee_nonce title), bincode_serialize (ee_auth_tag title)).

Definition update_entry (s : Session) (now : Z) (id : Z) (e : Entry) : M TagUpsert :=
  _ ← require_unlocked s;
  dek ← lift (session_dek s);
  row ← query (fun db => List.find (fun r => entry_id r =? id) (entries db));
  r ← lift (ok_or row sqlite_error);
  _ ← fail_if (mixed_format r) (InvalidInput "entry row has mixed v1/v2 field formats");
  '(sealed, nonce_blob, auth_tag_blob) ←
    (if is_envelope_blob (e_password r) then
       sid ← lift (ok_or (sync_id (e_sync r)) (InvalidInput "v2 entry row has no sync_id"));
       vault_uuid ← lift (vault_uuid_str s);
       f ← seal_entry_fields dek vault_uuid sid (en_credential_type e) e (session_epoch s);
       let '(zero_nonce, zero_tag) := zeroed_legacy_v1_columns in
       mret (f, zero_nonce, zero_tag)
     else encrypt_entry_fields dek e);
  content_tx dek (
    _ ← update_entry_row id {| up_title := Some (sf_title sealed); up_username := Some (sf_username sealed);
          up_password := Some (sf_password sealed); up_url := sf_url sealed; up_notes := sf_notes sealed;
          up_credential_type := Some (cred_str (en_credential_type e)); up_entry_nonce := Some nonce_blob;
          up_auth_tag := Some auth_tag_blob; up_modified_at := now; up_favorite := Some (en_favorite e) |};
    upsert_equality_tag dek id (en_credential_type e) (en_password e) now).
End Entries.
