(* ===== verification/EntriesFacts.v ===== *)
(** * Core: the entries of a vault as a finite map *)

From S2P Require Import Prelude Text ThirdParty Aad Envelope Keyring CoreError EnvelopeOps KeySlots VaultKeys LocalDb ContentGuard ContentFacts Registry Entries.
From Stdlib Require Import ZArith Lia Strings.String Strings.Byte.
From stdpp Require Import base list option strings numbers gmap sorting.
Open Scope Z_scope.

(** ** Keys of a table *)

Lemma max_key_le {R} (key : R -> Z) (t : list R) r : r ∈ t -> key r <= max_key key t.
Proof.
  unfold max_key.
  assert (forall m, m <= fold_left (fun m r => Z.max m (key r)) t m /\ (r ∈ t -> key r <= fold_left (fun m r => Z.max m (key r)) t m)) as G.
  { induction t as [|x t IH]; intros m; simpl; [split; [lia|intros E; by apply elem_of_nil in E]|].
    destruct (IH (Z.max m (key x))) as [G1 G2]. split; [lia|]. rewrite elem_of_cons. intros [->|E]; [lia|auto]. }
  apply G.
Qed.

Lemma autoincrement_fresh {R} (key : R -> Z) seq (t : list R) r : r ∈ t -> key r <> autoincrement key seq t.
Proof. intros E. pose proof (max_key_le key t r E). unfold autoincrement. lia. Qed.

Lemma next_rowid_fresh {R} (key : R -> Z) (t : list R) r : r ∈ t -> key r <> next_rowid key t.
Proof. intros E. pose proof (max_key_le key t r E). unfold next_rowid. lia. Qed.

(** An update of the rows of one key, seen through another and through its own. *)
Lemma find_update_other {A} (p q : A -> bool) f l :
  (forall x, p x = true -> q x = false /\ q (f x) = false) -> List.find q (update_where p f l) = List.find q l.
Proof.
  intros Hp. unfold update_where. induction l as [|x l IH]; simpl; [done|]. destruct (p x) eqn:E.
  - destruct (Hp x E) as [-> ->]. exact IH.
  - destruct (q x); [done|exact IH].
Qed.

Lemma find_update_same {A} (p q : A -> bool) f l x :
  (forall y, q y = true -> p y = true) -> (forall y, p y = true -> q (f y) = q y) ->
  List.find q l = Some x -> List.find q (update_where p f l) = Some (f x).
Proof.
  intros Hq Hf. unfold update_where. induction l as [|y l IH]; simpl; [done|]. destruct (q y) eqn:E.
  - intros [= <-]. by rewrite (Hq _ E), (Hf _ (Hq _ E)), E.
  - intros Ef. destruct (p y) eqn:Ep; [rewrite (Hf _ Ep)|]; rewrite E; auto.
Qed.

Lemma find_update_gone {A} (p q : A -> bool) f l :
  (forall y, q y = true -> p y = true) -> (forall y, p y = true -> q (f y) = false) ->
  List.find q (update_where p f l) = None.
Proof.
  intros Hq Hf. unfold update_where. induction l as [|y l IH]; simpl; [done|]. destruct (p y) eqn:Ep.
  - by rewrite (Hf _ Ep).
  - destruct (q y) eqn:E; [by rewrite (Hq _ E) in Ep|done].
Qed.

Lemma map_update_where {A B} (g : A -> B) (p : A -> bool) f l :
  (forall x, g (f x) = g x) -> List.map g (update_where p f l) = List.map g l.
Proof. intros Hg. unfold update_where. rewrite map_map. apply map_ext. intros x. by destruct (p x). Qed.

Lemma NoDup_key_snoc {A B} (key : A -> B) l x :
  NoDup (List.map key l) -> (forall y, y ∈ l -> key y <> key x) -> NoDup (List.map key (l ++ [x])).
Proof.
  intros Hn Hf. rewrite map_app. apply NoDup_app. split_and!; [done| |apply NoDup_singleton]. intros i Hi Hx.
  apply list_elem_of_singleton in Hx as ->. apply list_elem_of_In, in_map_iff in Hi as (y & E & Hy%list_elem_of_In). by apply (Hf y).
Qed.
Lemma NoDup_delete_where {A B} (g : A -> B) (p : A -> bool) l :
  NoDup (List.map g l) -> NoDup (List.map g (delete_where p l)).
Proof.
  unfold delete_where. induction l as [|x l IH]; simpl; [done|]. inversion_clear 1 as [|? ? Hn Hl].
  destruct (negb (p x)); simpl; [|auto]. constructor; [|auto].
  rewrite list_elem_of_In, in_map_iff. intros (y & E & [Hy _]%filter_In). apply Hn. rewrite list_elem_of_In, in_map_iff. eauto.
Qed.

(** The parts of the database a registry write leaves alone. *)
Definition same_content (db db' : LocalDb) : Prop :=
  entries db' = entries db /\ entries_seq db' = entries_seq db /\ domain_mappings db' = domain_mappings db /\
  domain_mapping_tags db' = domain_mapping_tags db /\ custody_objects db' = custody_objects db /\ metadata db' = metadata db.
#[global] Instance same_content_preorder : PreOrder same_content.
Proof. split; [by intros db|]. intros a b c (?&?&?&?&?&?) (?&?&?&?&?&?). unfold same_content. split_and!; congruence. Qed.

Section Facts.
Context `{Environment, Chrono, Hmac, Sha256, HexDecode, UuidText, Base64, Aead}.
Context `{SerdeBytes AadContext, SerdeBytes EnvelopeDoc, SerdeBytes EntryTuple, SerdeBytes MappingTuple, SerdeBytes TagTuple}.
Context `{SerdeBytes CustodyTuple, SerdeBytes State, SerdeBytes Document}.
Context `{Bincode EncryptedEntry, BincodeSer EncryptedEntry, BincodeSer bytes}.
Context `{!EnvironmentLaws, !Sha256Laws, !HexDecodeLaws, !UuidTextLaws, !Base64Laws, !AeadLaws, !SerdeBytesLaws AadContext}.
Context `{!SerdeBytesLaws EnvelopeDoc, !EnvelopeJson, !SerdeBytesLaws Document}.
Context `{!SerdeBytesLaws EntryTuple, !SerdeBytesLaws MappingTuple, !SerdeBytesLaws TagTuple, !SerdeBytesLaws CustodyTuple}.

#[export] Instance guarded_upsert dek id c secret now : Guarded (upsert_equality_tag dek id c secret now).
Proof. unfold upsert_equality_tag, upsert_equality_tag_with_key, serialize_tag_cipher. guarded. Qed.

Lemma upsert_same_content dek id c secret now w r w' :
  upsert_equality_tag dek id c secret now w = (r, w') -> same_content (w_db w) (w_db w').
Proof.
  unfold upsert_equality_tag, upsert_equality_tag_with_key, serialize_tag_cipher, mbind, M_bind, lift, execute, query, mret, M_ret, draw_nonce.
  intros E. repeat (case_hyp; simplify_eq; simpl in *); simplify_eq; done.
Qed.

(** ** Reading in a world whose receipts agree *)

Lemma verify_snapshot_ok dek w : in_step dek w -> verify_snapshot dek w = (Ok tt, w).
Proof.
  intros Hs. unfold verify_snapshot. destruct (w_on_disk w) eqn:Hd; [|done].
  destruct (Hs Hd) as (k & v & cur & loaded & Hk & Hv & Hc & Hl & Hm). rewrite Hk, Hv. simpl. rewrite Hl. simpl.
  destruct loaded as [st|]; [|by rewrite Hm]. rewrite Hc. simpl. destruct Hm as [E|E].
  - by rewrite (bool_decide_true (cur = _)).
  - rewrite (bool_decide_true (pending st = _)) by done. by rewrite andb_false_r.
Qed.

Lemma verify_row_ok dek w r :
  in_step dek w -> keys_unique (w_db w) -> r ∈ entries (w_db w) -> is_deleted (e_sync r) = false ->
  verify_row dek r w = (Ok tt, w).
Proof.
  intros Hs Hu Hr Hdel. unfold verify_row, verify_stored_row. destruct (w_on_disk w) eqn:Hd; [|done].
  destruct (Hs Hd) as (k & v & cur & loaded & Hk & Hv & Hc & Hl & Hm). rewrite Hk, Hv. simpl. rewrite Hl. simpl.
  destruct loaded as [st|]; [|by rewrite Hm].
  assert (expected_receipts st (w_db w) = Ok cur) as ->.
  { unfold expected_receipts. destruct (pending st) as [p|]; [|destruct Hm; congruence]. rewrite Hc. simpl.
    destruct Hm as [<-|[= ->]]; [|by rewrite bool_decide_true]. case_bool_decide; [congruence|]. by rewrite bool_decide_true. }
  simpl. rewrite bool_decide_true; [done|]. apply (snapshot_lookup (w_db w)); [done|done|].
  exists (IEntry (entry_tuple r (is_deleted (e_sync r)))). split; [|by rewrite Hdel].
  unfold items. rewrite !elem_of_app. left. rewrite list_elem_of_In, in_map_iff. exists r. by rewrite <- list_elem_of_In.
Qed.

Lemma session_unlocked s dek : session_dek s = Ok dek -> is_unlocked (key_hierarchy s) = true.
Proof.
  unfold session_dek, hierarchy_dek, get_dek, is_unlocked. intros E%map_err_ok. result_inv. by rewrite E.
Qed.

Lemma require_unlocked_run s dek w : session_dek s = Ok dek -> require_unlocked s w = (Ok tt, w).
Proof. intros E. unfold require_unlocked, fail_if, lift. by rewrite (session_unlocked _ _ E). Qed.
Lemma session_dek_run s dek w : session_dek s = Ok dek -> lift (session_dek s) w = (Ok dek, w).
Proof. unfold lift. by intros ->. Qed.

(** What [get_entry] shows of the database. *)
Definition shown (s : Session) (now id : Z) (db : LocalDb) : Res Entry :=
  match get_raw id db with
  | Some r => open_row s now r
  | None => Err (entry_not_found id)
  end.

Lemma get_raw_inv id db r : get_raw id db = Some r -> r ∈ entries db /\ entry_id r = id /\ is_deleted (e_sync r) = false.
Proof.
  intros [Hr Hp]%find_some. propify. unfold visible in *. propify. rewrite list_elem_of_In. auto.
Qed.

Lemma get_entry_shows s dek now id w :
  session_dek s = Ok dek -> in_step dek w -> keys_unique (w_db w) -> get_entry s now id w = (shown s now id (w_db w), w).
Proof.
  intros Hdek Hs Hu. unfold get_entry. rewrite (M_bind_run _ _ _ _ _ (require_unlocked_run _ _ w Hdek)).
  rewrite (M_bind_run _ _ _ _ _ (session_dek_run _ _ w Hdek)), (M_bind_run _ _ _ _ _ (verify_snapshot_ok _ _ Hs)).
  rewrite (M_bind_run (query (get_raw id)) _ w (get_raw id (w_db w)) w eq_refl). unfold shown.
  destruct (get_raw id (w_db w)) as [r|] eqn:E; [|done]. apply get_raw_inv in E as (Hr & _ & Hdel).
  unfold decrypt_entry_row. rewrite (M_bind_run _ _ _ _ _ (session_dek_run _ _ w Hdek)).
  by rewrite (M_bind_run _ _ _ _ _ (verify_row_ok _ _ _ Hs Hu Hr Hdel)).
Qed.

(** ** Sealing an entry and opening its row *)

(** Only the environment's counter moves. *)
Definition quiet (w w' : World) : Prop :=
  w_db w' = w_db w /\ w_on_disk w' = w_on_disk w /\ w_contents w' = w_contents w.
#[export] Instance quiet_preorder : PreOrder quiet.
Proof. split; [by intros w|]. intros a b c (?&?&?) (?&?&?). unfold quiet. split_and!; congruence. Qed.

Lemma in_step_quiet dek w w' : quiet w w' -> in_step dek w -> in_step dek w'.
Proof. unfold in_step. intros (-> & -> & ->). done. Qed.

Section Fields.
Variables (dek : bytes) (v o : string) (t : ObjectType) (epoch : Z).

Definition seals (p : EnvelopePurpose) (text : string) (blob : bytes) : Prop :=
  exists n, length n = 12%nat /\ seal_object_field n dek v o t p text epoch = Ok blob.
Definition seals_opt (p : EnvelopePurpose) (text : option string) (blob : option bytes) : Prop :=
  match text, blob with
  | Some text, Some blob => seals p text blob
  | None, None => True
  | _, _ => False
  end.
Definition sealed_as (e : Entry) (f : SealedEntryFields) : Prop :=
  seals EntryTitle (en_title e) (sf_title f) /\ seals EntryUsername (en_username e) (sf_username f) /\
  seals EntryPassword (en_password e) (sf_password f) /\ seals_opt EntryUrl (en_url e) (sf_url f) /\
  seals_opt EntryNotes (en_notes e) (sf_notes f).

(** The contexts of the object's fields fit the size contract. *)
Definition contexts_fit : Prop :=
  forall vu ou p, uuid_parse_str v = Some vu -> uuid_parse_str o = Some ou -> aad_fits (field_context vu ou t p epoch).
Definition blob_fits (b : bytes) : Prop := Z.of_nat (length b) <= MAX_ENVELOPE_BYTES.

Lemma seal_field_ok p text w b w' :
  seal_field dek v o t p text epoch w = (Ok b, w') -> seals p text b /\ quiet w w'.
Proof.
  unfold seal_field. intros E. m_inv. split; [|done]. eexists. split; [apply env_nonce_length|eassumption].
Qed.

Lemma seal_opt_ok p text w b w' :
  seal_opt (fun x => seal_field dek v o t p x epoch) text w = (Ok b, w') -> seals_opt p text b /\ quiet w w'.
Proof.
  unfold seal_opt. destruct text as [x|]; intros E; m_inv; [|done].
  match goal with Es : seal_field _ _ _ _ _ _ _ _ = _ |- _ => by apply seal_field_ok in Es end.
Qed.

Lemma seals_open p text b :
  seals p text b -> utf8 (as_bytes text) = true -> contexts_fit -> blob_fits b ->
  open_object_field dek (Some v) (Some o) t p b = Ok text.
Proof. intros (n & Hn & Hs) U C B. eapply open_sealed_field; eauto. Qed.

Lemma seals_nonempty p text b : seals p text b -> b <> [].
Proof.
  intros (n & _ & (vu & ou & _ & _ & Hs)%seal_field_inv) ->. apply sealed_is_envelope in Hs. discriminate.
Qed.

Lemma seals_envelope p text b : seals p text b -> is_envelope_blob b = true.
Proof. intros (n & _ & (vu & ou & _ & _ & Hs)%seal_field_inv). by apply sealed_is_envelope in Hs. Qed.
End Fields.

Lemma seal_entry_fields_ok dek v o c e epoch w f w' :
  seal_entry_fields dek v o c e epoch w = (Ok f, w') ->
  sealed_as dek v o (envelope_object_type c) epoch e f /\ quiet w w'.
Proof.
  unfold seal_entry_fields. intros E. m_inv.
  repeat match goal with
  | Es : seal_field _ _ _ _ _ _ _ _ = (Ok _, _) |- _ => apply seal_field_ok in Es as [? ?]
  | Es : seal_opt _ _ _ = (Ok _, _) |- _ => apply seal_opt_ok in Es as [? ?]
  end.
  split; [by split_and!|]. do 4 (etrans; [eassumption|]). done.
Qed.

(** The entry is Rust text. *)
Definition text_ok (e : Entry) : Prop :=
  utf8 (as_bytes (en_title e)) = true /\ utf8 (as_bytes (en_username e)) = true /\ utf8 (as_bytes (en_password e)) = true /\
  (forall u, en_url e = Some u -> utf8 (as_bytes u) = true) /\ (forall n, en_notes e = Some n -> utf8 (as_bytes n) = true).
Definition row_fits (r : EntryRow) : Prop :=
  blob_fits (e_title r) /\ blob_fits (e_username r) /\ blob_fits (e_password r) /\
  (forall b, e_url r = Some b -> blob_fits b) /\ (forall b, e_notes r = Some b -> blob_fits b).

Lemma open_entry_sealed s v o c dek epoch p text b :
  session_dek s = Ok dek -> session_uuid s = Some v ->
  seals dek v o (envelope_object_type c) epoch p text b -> contexts_fit v o (envelope_object_type c) epoch ->
  utf8 (as_bytes text) = true -> blob_fits b -> open_entry_field s (Some o) c p b = Ok text.
Proof. intros Hd Hv Hs C U B. unfold open_entry_field. rewrite Hd, Hv. simpl. by apply (seals_open _ _ _ _ epoch). Qed.

Lemma open_opt_sealed s v o c dek epoch p text blob :
  session_dek s = Ok dek -> session_uuid s = Some v ->
  seals_opt dek v o (envelope_object_type c) epoch p text blob -> contexts_fit v o (envelope_object_type c) epoch ->
  (forall u, text = Some u -> utf8 (as_bytes u) = true) -> (forall b, blob = Some b -> blob_fits b) ->
  open_opt (fun b => open_entry_field s (Some o) c p b) blob = Ok text.
Proof.
  intros Hd Hv Hs C U B. destruct text as [text|], blob as [b|]; simpl in Hs; try done. simpl.
  rewrite bool_decide_false by (by eapply seals_nonempty).
  by rewrite (open_entry_sealed _ _ _ _ _ _ _ _ _ Hd Hv Hs C (U _ eq_refl) (B _ eq_refl)).
Qed.

(** The entry that comes back: the one that was stored, with the row's key and
    times. *)
Definition stored (now id created modified : Z) (e : Entry) : Entry := {|
  en_entry_id := Some id; en_title := en_title e; en_username := en_username e; en_password := en_password e;
  en_url := en_url e; en_notes := en_notes e; en_credential_type := en_credential_type e;
  en_created_at := datetime now created; en_modified_at := datetime now modified; en_favorite := en_favorite e |}.

Lemma open_sealed_row s dek v o epoch now e r :
  session_dek s = Ok dek -> session_uuid s = Some v -> text_ok e -> row_fits r ->
  contexts_fit v o (envelope_object_type (en_credential_type e)) epoch ->
  sealed_as dek v o (envelope_object_type (en_credential_type e)) epoch e
    {| sf_title := e_title r; sf_username := e_username r; sf_password := e_password r; sf_url := e_url r; sf_notes := e_notes r |} ->
  e_credential_type r = cred_str (en_credential_type e) -> sync_id (e_sync r) = Some o -> e_favorite r = en_favorite e ->
  open_row s now r = Ok (stored now (entry_id r) (e_created_at r) (e_modified_at r) e).
Proof.
  intros Hd Hv (U1 & U2 & U3 & U4 & U5) (F1 & F2 & F3 & F4 & F5) C (S1 & S2 & S3 & S4 & S5) Et Es Ef. simpl in *.
  unfold open_row. rewrite Et, cred_parse_str, Es. cbn -[open_entry_field open_opt].
  rewrite (open_entry_sealed _ _ _ _ _ _ _ _ _ Hd Hv S1 C U1 F1). cbn -[open_entry_field open_opt].
  rewrite (open_entry_sealed _ _ _ _ _ _ _ _ _ Hd Hv S2 C U2 F2). cbn -[open_entry_field open_opt].
  rewrite (open_entry_sealed _ _ _ _ _ _ _ _ _ Hd Hv S3 C U3 F3). cbn -[open_entry_field open_opt].
  rewrite (open_opt_sealed _ _ _ _ _ _ _ _ _ Hd Hv S4 C U4 F4), (open_opt_sealed _ _ _ _ _ _ _ _ _ Hd Hv S5 C U5 F5).
  simpl. by rewrite Ef.
Qed.

(** ** The operations on the rows *)

Definition vault_ok (dek : bytes) (w : World) : Prop := in_step dek w /\ keys_unique (w_db w).

#[export] Instance guarded_insert_entry_row p : Guarded (insert_entry_row p).
Proof. unfold insert_entry_row. guarded. Qed.
#[export] Instance guarded_update_entry_row id p : Guarded (update_entry_row id p).
Proof. unfold update_entry_row. guarded. Qed.

(** A guarded transaction that was acknowledged. *)
Lemma content_tx_run {A} dek (body : M A) w a w' :
  in_step dek w -> Guarded body -> content_tx dek body w = (Ok a, w') ->
  in_step dek w' /\ exists w1 w2, same_content (w_db w) (w_db w1) /\ body w1 = (Ok a, w2) /\ w_db w' = w_db w2.
Proof.
  intros Hs HG Ht. destruct (content_tx_safe _ _ _ _ _ _ Hs HG Ht) as (Hs' & _ & [[_ [=]]|(a' & w1 & w2 & E1 & Eb & E2 & Ea)]).
  split; [done|]. rewrite (Ea a eq_refl) in *. exists w1, w2. split_and!; try done. rewrite E1. by destruct (w_on_disk w).
Qed.

Lemma keys_unique_same db db' : same_content db db' -> keys_unique db -> keys_unique db'.
Proof. intros (E1 & _ & E2 & E3 & E4 & _). unfold keys_unique. by rewrite E1, E2, E3, E4. Qed.

Lemma shown_same s now id db db' : entries db' = entries db -> shown s now id db' = shown s now id db.
Proof. unfold shown, get_raw. by intros ->. Qed.

Lemma add_entry_rows s dek v now e w id w' :
  session_dek s = Ok dek -> session_uuid s = Some v -> vault_ok dek w -> add_entry s now e w = (Ok id, w') ->
  vault_ok dek w' /\ (forall r, r ∈ entries (w_db w) -> entry_id r <> id) /\
  exists row, entries (w_db w') = entries (w_db w) ++ [row] /\ entry_id row = id /\ is_deleted (e_sync row) = false /\
    sync_id (e_sync row) = Some (uuid_to_string (env_uuid (w_tick w))) /\ e_credential_type row = cred_str (en_credential_type e) /\
    e_favorite row = en_favorite e /\ e_created_at row = now /\ e_modified_at row = now /\
    sealed_as dek v (uuid_to_string (env_uuid (w_tick w))) (envelope_object_type (en_credential_type e)) (session_epoch s) e
      {| sf_title := e_title row; sf_username := e_username row; sf_password := e_password row; sf_url := e_url row; sf_notes := e_notes row |}.
Proof.
  intros Hd Hv [Hs Hu] Ha. unfold add_entry in Ha. apply M_bind_ok in Ha as (u & w0 & E0 & Ha).
  rewrite (require_unlocked_run _ _ w Hd) in E0. injection E0 as <- <-.
  apply M_bind_ok in Ha as (sid & w1 & E1 & Ha). injection E1 as <- <-. cbv zeta in Ha.
  rewrite (M_bind_run _ _ _ _ _ (session_dek_run _ _ _ Hd)) in Ha. unfold vault_uuid_str in Ha. rewrite Hv in Ha.
  apply M_bind_ok in Ha as (vu & w2 & E2 & Ha). injection E2 as <- <-.
  apply M_bind_ok in Ha as (f & w3 & E3 & Ha). apply seal_entry_fields_ok in E3 as [Hf Hq].
  assert (quiet w w3) as Hq' by (destruct Hq as (?&?&?); by split_and!).
  apply content_tx_run in Ha as (Hs' & w4 & w5 & Hc & Hb & Edb); [|by eapply in_step_quiet|guarded].
  apply M_bind_ok in Hb as (id' & w6 & Ei & Hb). apply M_bind_ok in Hb as (o & w7 & Eu & Hb). injection Hb as <- <-.
  apply upsert_same_content in Eu. unfold insert_entry_row in Ei. m_inv. result_inv. simplify_eq. simpl in *.
  destruct Eu as (U1 & _ & U2 & U3 & U4 & _), Hc as (C1 & C0 & C2 & C3 & C4 & _), Hq' as (Q & _). simpl in *.
  rewrite Q in C1, C2, C3, C4. split_and!.
  - split; [done|]. destruct Hu as (N1 & N2 & N3 & N4). unfold keys_unique. rewrite Edb, U1, U2, U3, U4, C2, C3, C4.
    split_and!; try done. rewrite C1. apply NoDup_key_snoc; [done|]. intros r Hr. by apply autoincrement_fresh.
  - intros r Hr. rewrite C1. by apply autoincrement_fresh.
  - eexists. rewrite Edb, U1, C1. by split_and!.
Qed.

(** With unique keys, the row an id selects is the visible one. *)
Lemma find_by_id db id r :
  keys_unique db -> get_raw id db = Some r -> List.find (fun r => entry_id r =? id) (entries db) = Some r.
Proof.
  intros (Hn & _) Hg. unfold get_raw in Hg. revert Hg Hn. induction (entries db) as [|x l IH]; simpl; [done|].
  intros Hg Hn. inversion_clear Hn as [|? ? Hx Hl]. destruct (entry_id x =? id) eqn:E; simpl in Hg; [|auto].
  destruct (visible x); [done|]. exfalso. apply find_some in Hg as [Hr Hp]. propify. apply Hx.
  rewrite list_elem_of_In, in_map_iff. exists r. split; [congruence|done].
Qed.

Lemma update_entry_rows s dek v now id e w out w' r o :
  session_dek s = Ok dek -> session_uuid s = Some v -> vault_ok dek w ->
  get_raw id (w_db w) = Some r -> is_envelope_blob (e_password r) = true -> sync_id (e_sync r) = Some o ->
  update_entry s now id e w = (Ok out, w') ->
  vault_ok dek w' /\ exists p,
    entries (w_db w') = update_where (fun r => entry_id r =? id) (set_entry p) (entries (w_db w)) /\
    e_created_at (set_entry p r) = e_created_at r /\ e_modified_at (set_entry p r) = now /\
    e_credential_type (set_entry p r) = cred_str (en_credential_type e) /\ e_favorite (set_entry p r) = en_favorite e /\
    sealed_as dek v o (envelope_object_type (en_credential_type e)) (session_epoch s) e
      (let r := set_entry p r in
       {| sf_title := e_title r; sf_username := e_username r; sf_password := e_password r; sf_url := e_url r; sf_notes := e_notes r |}).
Proof.
  intros Hd Hv [Hs Hu] Hr Hv2 Ho Ha. unfold update_entry in Ha.
  rewrite (M_bind_run _ _ _ _ _ (require_unlocked_run _ _ w Hd)), (M_bind_run _ _ _ _ _ (session_dek_run _ _ w Hd)) in Ha.
  apply M_bind_ok in Ha as (row & w0 & E0 & Ha). injection E0 as <- <-. rewrite (find_by_id _ _ _ Hu Hr) in Ha.
  apply M_bind_ok in Ha as (r' & w0 & E0 & Ha). injection E0 as <- <-.
  apply M_bind_ok in Ha as (u & w0 & E0 & Ha). apply (f_equal snd) in E0. simpl in E0. subst w0.
  rewrite Hv2, Ho in Ha. unfold vault_uuid_str in Ha. rewrite Hv in Ha.
  apply M_bind_ok in Ha as ([[f n] t] & w3 & E3 & Ha). apply M_bind_ok in E3 as (o' & w1 & E1 & E3). injection E1 as <- <-.
  apply M_bind_ok in E3 as (v' & w1 & E1 & E3). injection E1 as <- <-. apply M_bind_ok in E3 as (f' & w2 & E2 & E3).
  apply seal_entry_fields_ok in E2 as [Hf Hq]. injection E3 as <- <- <- <-.
  apply content_tx_run in Ha as (Hs' & w4 & w5 & Hc & Hb & Edb); [|by eapply in_step_quiet|guarded].
  apply M_bind_ok in Hb as (u' & w6 & Ei & Hb). apply upsert_same_content in Hb. unfold update_entry_row in Ei. m_inv.
  destruct Hb as (U1 & _ & U2 & U3 & U4 & _), Hc as (C1 & _ & C2 & C3 & C4 & _), Hq as (Q & _). simpl in *.
  rewrite Q in C1, C2, C3, C4. split.
  - split; [done|]. destruct Hu as (N1 & N2 & N3 & N4). unfold keys_unique. rewrite Edb, U1, U2, U3, U4, C1, C2, C3, C4.
    split_and!; try done. by rewrite map_update_where.
  - eexists. rewrite Edb, U1, C1. split_and!; [done..|]. exact Hf.
Qed.

#[export] Instance guarded_delete_body now id : Guarded (delete_body now id).
Proof.
  unfold delete_body. guarded. apply guarded_execute. intros db. by repeat case_match.
Qed.

Lemma delete_body_ok now id w u w' :
  delete_body now id w = (Ok u, w') ->
  is_Some (get_raw id (w_db w)) /\
  entries (w_db w') = update_where (fun r => (entry_id r =? id) && visible r) (tombstone_entry now) (entries (w_db w)) /\
  domain_mappings (w_db w') = delete_where (fun m => dm_entry_id m =? id) (domain_mappings (w_db w)) /\
  (exists p, domain_mapping_tags (w_db w') = delete_where p (domain_mapping_tags (w_db w))) /\
  custody_objects (w_db w') = custody_objects (w_db w).
Proof.
  unfold delete_body. intros E. m_inv. result_inv. propify. unfold exists_entry in *. propify. simpl.
  split; [done|]. destruct (mbind _ _) as [[sid ver]|]; simpl; eauto 10.
Qed.

Lemma delete_entry_rows s dek now id w u w' :
  session_dek s = Ok dek -> vault_ok dek w -> delete_entry s now id w = (Ok u, w') ->
  vault_ok dek w' /\ is_Some (get_raw id (w_db w)) /\
  entries (w_db w') = update_where (fun r => (entry_id r =? id) && visible r) (tombstone_entry now) (entries (w_db w)).
Proof.
  intros Hd [Hs Hu] Ha. unfold delete_entry in Ha.
  rewrite (M_bind_run _ _ _ _ _ (require_unlocked_run _ _ w Hd)), (M_bind_run _ _ _ _ _ (session_dek_run _ _ w Hd)) in Ha.
  apply content_tx_run in Ha as (Hs' & w1 & w2 & (C1 & _ & C2 & C3 & C4 & _) & Hb & Edb); [|done|apply _].
  apply delete_body_ok in Hb as (Hg & Ee & Em & (p & Et) & Eo). unfold get_raw in *.
  rewrite <- Edb, C1 in Ee. rewrite <- Edb, C2 in Em. rewrite <- Edb, C3 in Et. rewrite <- Edb, C4 in Eo. rewrite C1 in Hg.
  split_and!; [|done|done]. split; [done|]. destruct Hu as (N1 & N2 & N3 & N4). unfold keys_unique. rewrite Ee, Em, Et, Eo.
  rewrite map_update_where by done. split_and!; try done; by apply NoDup_delete_where.
Qed.

Lemma get_entry_fst s dek now id w :
  session_dek s = Ok dek -> vault_ok dek w -> (get_entry s now id w).1 = shown s now id (w_db w).
Proof. intros Hd [Hs Hu]. by rewrite (get_entry_shows _ _ _ _ _ Hd Hs Hu). Qed.

Lemma get_raw_fresh id db : (forall r, r ∈ entries db -> entry_id r <> id) -> get_raw id db = None.
Proof.
  intros Hf. destruct (get_raw id db) as [r|] eqn:E; [|done]. apply get_raw_inv in E as (Hr & E & _). by apply Hf in Hr.
Qed.

Lemma add_shows s dek v now e w id w' :
  session_dek s = Ok dek -> session_uuid s = Some v -> vault_ok dek w -> add_entry s now e w = (Ok id, w') -> text_ok e ->
  contexts_fit v (uuid_to_string (env_uuid (w_tick w))) (envelope_object_type (en_credential_type e)) (session_epoch s) ->
  (forall r, get_raw id (w_db w') = Some r -> row_fits r) ->
  vault_ok dek w' /\ forall now' id',
    (get_entry s now' id w).1 = Err (entry_not_found id) /\
    (get_entry s now' id' w').1 = if id' =? id then Ok (stored now' id now now e) else (get_entry s now' id' w).1.
Proof.
  intros Hd Hv Hok Ha T C F. destruct (add_entry_rows _ _ _ _ _ _ _ _ Hd Hv Hok Ha)
    as (Hok' & Hfresh & row & Er & Eid & Hvis & Esid & Ect & Efav & Ecr & Emod & Hsealed).
  split; [done|]. intros now' id'. rewrite !(get_entry_fst _ _ _ _ _ Hd) by done. unfold shown, get_raw in *. rewrite Er in *.
  pose proof (get_raw_fresh _ _ Hfresh) as En. unfold get_raw in En. rewrite En. split; [done|]. rewrite find_app in *. destruct (id' =? id) eqn:E; propify.
  - subst id'. rewrite En in *. simpl in *. rewrite Eid, Z.eqb_refl in *. unfold visible in *. rewrite Hvis in *. simpl in *.
    rewrite (open_sealed_row s dek v (uuid_to_string (env_uuid (w_tick w))) (session_epoch s) now' e row); auto.
    by rewrite Eid, Ecr, Emod.
  - clear En F. destruct (List.find _ (entries (w_db w))) as [r|]; [done|]. simpl. rewrite Eid.
    by rewrite (proj2 (Z.eqb_neq id id')) by congruence.
Qed.

Lemma update_shows s dek v now e w id out w' r o :
  session_dek s = Ok dek -> session_uuid s = Some v -> vault_ok dek w -> update_entry s now id e w = (Ok out, w') ->
  get_raw id (w_db w) = Some r -> is_envelope_blob (e_password r) = true -> sync_id (e_sync r) = Some o -> text_ok e ->
  contexts_fit v o (envelope_object_type (en_credential_type e)) (session_epoch s) ->
  (forall r, get_raw id (w_db w') = Some r -> row_fits r) ->
  vault_ok dek w' /\ forall now' id',
    (get_entry s now' id' w').1 =
      if id' =? id then Ok (stored now' id (e_created_at r) now e) else (get_entry s now' id' w).1.
Proof.
  intros Hd Hv Hok Ha Hr Hv2 Ho T C F.
  destruct (update_entry_rows _ _ _ _ _ _ _ _ _ _ _ Hd Hv Hok Hr Hv2 Ho Ha) as (Hok' & p & Er & Ecr & Emod & Ect & Efav & Hsealed).
  split; [done|]. intros now' id'. rewrite !(get_entry_fst _ _ _ _ _ Hd) by done. unfold shown, get_raw in *. rewrite Er in *.
  destruct (id' =? id) eqn:E; propify.
  - subst id'. assert (List.find (fun r => (entry_id r =? id) && visible r)
        (update_where (fun r => entry_id r =? id) (set_entry p) (entries (w_db w))) = Some (set_entry p r)) as Ef.
    { apply find_update_same; [|done|done]. intros y Hy. by apply andb_true_iff in Hy as [? _]. }
    rewrite Ef in *. apply find_some in Hr as [_ Hp]. propify.
    rewrite (open_sealed_row s dek v o (session_epoch s) now' e (set_entry p r)); auto. rewrite Ecr, Emod. simpl. congruence.
  - rewrite find_update_other; [done|]. intros x Hx. propify. simpl. rewrite Hx.
    by rewrite (proj2 (Z.eqb_neq id id')) by congruence.
Qed.

Lemma delete_shows s dek now w id u w' :
  session_dek s = Ok dek -> vault_ok dek w -> delete_entry s now id w = (Ok u, w') ->
  vault_ok dek w' /\ forall now' id',
    (get_entry s now' id' w').1 = if id' =? id then Err (entry_not_found id) else (get_entry s now' id' w).1.
Proof.
  intros Hd Hok Ha. destruct (delete_entry_rows _ _ _ _ _ _ _ Hd Hok Ha) as (Hok' & _ & Er).
  split; [done|]. intros now' id'. rewrite !(get_entry_fst _ _ _ _ _ Hd) by done. unfold shown, get_raw. rewrite Er.
  destruct (id' =? id) eqn:E; propify.
  - subst id'. rewrite find_update_gone; [done|done|]. intros y Hy. unfold visible. simpl. by rewrite andb_false_r.
  - rewrite find_update_other; [done|]. intros x [Hx%Z.eqb_eq _]%andb_true_iff. simpl. rewrite Hx.
    by rewrite (proj2 (Z.eqb_neq id id')) by congruence.
Qed.

(** ** The vault is a map *)

(** C10. The vault implements a finite map from ids to entries.  In a vault
    whose receipts agree with it: adding an entry returns an id that was not in
    use and [get_entry] then returns that entry, every text of it unchanged;
    updating a (current-format) entry replaces it and keeps its id and its
    creation time; deleting removes it.  Under any other id [get_entry] answers
    as before, and the vault stays readable after each of them. *)
Theorem entries_refine_map s dek v now w id :
  session_dek s = Ok dek -> session_uuid s = Some v -> vault_ok dek w ->
  (forall e w', add_entry s now e w = (Ok id, w') -> text_ok e ->
     contexts_fit v (uuid_to_string (env_uuid (w_tick w))) (envelope_object_type (en_credential_type e)) (session_epoch s) ->
     (forall r, get_raw id (w_db w') = Some r -> row_fits r) ->
     vault_ok dek w' /\ forall now' id',
       (get_entry s now' id w).1 = Err (entry_not_found id) /\
       (get_entry s now' id' w').1 = if id' =? id then Ok (stored now' id now now e) else (get_entry s now' id' w).1) /\
  (forall e out w' r o, update_entry s now id e w = (Ok out, w') ->
     get_raw id (w_db w) = Some r -> is_envelope_blob (e_password r) = true -> sync_id (e_sync r) = Some o -> text_ok e ->
     contexts_fit v o (envelope_object_type (en_credential_type e)) (session_epoch s) ->
     (forall r, get_raw id (w_db w') = Some r -> row_fits r) ->
     vault_ok dek w' /\ forall now' id',
       (get_entry s now' id' w').1 =
         if id' =? id then Ok (stored now' id (e_created_at r) now e) else (get_entry s now' id' w).1) /\
  (forall u w', delete_entry s now id w = (Ok u, w') ->
     vault_ok dek w' /\ forall now' id',
       (get_entry s now' id' w').1 = if id' =? id then Err (entry_not_found id) else (get_entry s now' id' w).1).
Proof.
  intros Hd Hv Hok. split_and!.
  - intros e w' Ha. by apply add_shows with (v := v).
  - intros e out w' r o Ha. by apply update_shows with (v := v) (out := out).
  - intros u w' Ha. by apply delete_shows with (u := u) (now := now).
Qed.
End Facts.
