(* ===== verification/EntriesDemo.v ===== *)
(** * Core: a concrete vault of entries

    Codecs for the rows and receipts, a small vault, and the witnesses of
    [ContentFacts] and [EntriesFacts].  Models no code. *)

From S2P Require Import Prelude Text ThirdParty Aad Envelope CoreDemo Keyring KeyDemo CoreError EnvelopeOps KeySlots VaultKeys LocalDb ContentGuard ContentFacts Registry Entries EntriesFacts.
From Stdlib Require Import ZArith Lia Strings.String Strings.Byte.
From stdpp Require Import base list option strings numbers gmap.
From S2P Require Import Text.
Open Scope Z_scope.

(** ** A self-delimiting codec *)

Class Flat (A : Type) := {
  put : A -> bytes;
  take_one : bytes -> option (A * bytes);
  take_put : forall a rest, take_one (put a ++ rest) = Some (a, rest);
}.

#[export] Instance flat_bool : Flat bool.
Proof.
  refine {| put (b : bool) := [if b then Byte.x01 else Byte.x00];
            take_one (b : bytes) := match b with x :: r => Some (Byte.eqb x Byte.x01, r) | [] => None end |}.
  by intros [] r.
Defined.
#[export] Instance flat_byte : Flat Byte.byte.
Proof. refine {| put (b : Byte.byte) := [b]; take_one (b : bytes) := match b with x :: r => Some (x, r) | [] => None end |}. done. Defined.

#[export] Instance flat_prod {A B} `{Flat A, Flat B} : Flat (A * B).
Proof.
  refine {| put (p : A * B) := put p.1 ++ put p.2;
            take_one (b : bytes) := '(x, r) ← take_one b; '(y, r) ← take_one r; Some ((x, y), r) |}.
  intros [a b] r. simpl. by rewrite <- app_assoc, take_put; simpl; rewrite take_put.
Defined.
#[export] Instance flat_option {A} `{Flat A} : Flat (option A).
Proof.
  refine {| put (o : option A) := match o with Some a => Byte.x01 :: put a | None => [Byte.x00] end;
            take_one (b : bytes) := match b with
                          | Byte.x01 :: r => '(x, r) ← take_one r; Some (Some x, r)
                          | _ :: r => Some (None, r)
                          | [] => None end |}.
  intros [a|] r; simpl; [by rewrite take_put|done].
Defined.

(** A list: each element behind a 1, and a 0. *)
Fixpoint take_list {A} `{Flat A} (fuel : nat) (b : bytes) : option (list A * bytes) :=
  match fuel, b with
  | S fuel, Byte.x01 :: r => '(x, r) ← take_one r; '(l, r) ← take_list fuel r; Some (x :: l, r)
  | _, Byte.x00 :: r => Some ([], r)
  | _, _ => None
  end.
Fixpoint put_list {A} `{Flat A} (l : list A) : bytes :=
  match l with [] => [Byte.x00] | x :: l => Byte.x01 :: put x ++ put_list l end.
#[export] Instance flat_list {A} `{Flat A} : Flat (list A).
Proof.
  refine {| put := put_list; take_one (b : bytes) := take_list (length b) b |}.
  intros l r. assert (forall n, (length l <= n)%nat -> take_list n (put_list l ++ r) = Some (l, r)) as G.
  { induction l as [|x l IH]; intros [|n] Hn; simpl in *; try done; try lia.
    rewrite <- app_assoc, take_put. simpl. by rewrite IH by lia. }
  apply G. clear G. rewrite length_app. induction l; simpl; [lia|]. rewrite length_app. lia.
Defined.

(** A type through another. *)
Definition flat_via {A B} `{Flat B} (to : A -> B) (from : B -> A) (E : forall a, from (to a) = a) : Flat A.
Proof.
  refine {| put (a : A) := put (to a); take_one (b : bytes) := '(x, r) ← take_one b; Some (from x, r) |}.
  intros a r. rewrite take_put. simpl. by rewrite E.
Defined.

Fixpoint pos_bits (p : positive) : list bool :=
  match p with xH => [] | xO p => false :: pos_bits p | xI p => true :: pos_bits p end.
Fixpoint bits_pos (l : list bool) : positive :=
  match l with [] => xH | false :: l => xO (bits_pos l) | true :: l => xI (bits_pos l) end.
Lemma bits_pos_bits p : bits_pos (pos_bits p) = p.
Proof. induction p; simpl; congruence. Qed.
#[export] Instance flat_pos : Flat positive := flat_via pos_bits bits_pos bits_pos_bits.
#[export] Instance flat_Z : Flat Z :=
  flat_via (fun z => match z with Z0 => None | Zpos p => Some (true, p) | Zneg p => Some (false, p) end)
    (fun o => match o with None => 0 | Some (true, p) => Zpos p | Some (false, p) => Zneg p end)
    (fun z => match z with Z0 => eq_refl | Zpos _ => eq_refl | Zneg _ => eq_refl end).
#[export] Instance flat_string : Flat string :=
  flat_via list_byte_of_string string_of_list_byte string_of_list_byte_of_string.
#[export] Instance flat_receipts : Flat Receipts :=
  flat_via (A := gmap string string) map_to_list list_to_map (fun m => list_to_map_to_list m).

(** The codec of a whole document. *)
#[export] Instance flat_serde A `{Flat A} : SerdeBytes A | 20 := {|
  to_vec := put; from_slice b := match take_one b with Some (a, []) => Some a | _ => None end |}.
#[export] Instance flat_serde_laws A `{Flat A} : SerdeBytesLaws A.
Proof.
  intros a. simpl. pose proof (take_put a []) as E. rewrite app_nil_r in E. by rewrite E.
Qed.

#[export] Instance flat_state : Flat State :=
  flat_via (fun s => (version s, vault s, stable s, pending s))
    (fun '(v, va, st, p) => {| version := v; vault := va; stable := st; pending := p |})
    (fun s => match s with Build_State _ _ _ _ => eq_refl end).
#[export] Instance flat_document : Flat Document :=
  flat_via (fun d => (doc_state d, doc_mac d, secondary_mac d))
    (fun '(s, m, n) => {| doc_state := s; doc_mac := m; secondary_mac := n |})
    (fun d => match d with Build_Document _ _ _ => eq_refl end).
#[export] Instance entry_tuple_serde : SerdeBytes EntryTuple := _.
#[export] Instance mapping_tuple_serde : SerdeBytes MappingTuple := _.
#[export] Instance tag_tuple_serde : SerdeBytes TagTuple := _.
#[export] Instance custody_tuple_serde : SerdeBytes CustodyTuple := _.
#[export] Instance ser_entry : BincodeSer EncryptedEntry := fun e => ee_ciphertext e.
#[export] Instance ser_nonce : BincodeSer bytes := fun b => b.
#[export] Instance calendar : Chrono := fun _ => true.

(** Every draw gives the same nonce, ids count up, and every file write
    succeeds. *)
#[export] Instance calm : Environment := {|
  env_nonce _ := demo_gcm_nonce; env_uuid n := from_u128 (N.of_nat n); env_io _ := Written |}.
#[export] Instance calm_laws : EnvironmentLaws.
Proof. done. Qed.

(** ** The vault *)

Definition demo_metadata : VaultDb := {| empty_db with vault_uuid_col := Some "7"%string |}.
Definition demo_tables : LocalDb := {|
  metadata := demo_metadata; entries := []; entries_seq := 0; domain_mappings := []; domain_mapping_tags := []; tags_seq := 0;
  custody_objects := Some []; ssh_keys := []; ssh_keys_seq := 0; totp_secrets := []; totp_seq := 0; sync_tombstones := ∅;
  sync_conflicts := ∅; sync_dead_letter := ∅; sync_metadata := None; secret_equality_index := ∅; entry_lifecycle := ∅;
  entity_memberships := ∅; registry_state := ∅ |}.
Definition world0 : World := {| w_db := demo_tables; w_on_disk := true; w_contents := None; w_tick := 1 |}.
Definition demo_session : Session := {|
  key_hierarchy := {| master_key := None; kh_dek := Some demo_dek |}; session_uuid := Some "7"%string; session_epoch := 1 |}.
Definition demo_entry : Entry := {|
  en_entry_id := None; en_title := "t"; en_username := "u"; en_password := "p"; en_url := None; en_notes := None;
  en_credential_type := CPassword; en_created_at := 0; en_modified_at := 0; en_favorite := true |}.

Lemma world0_ok : vault_ok demo_dek world0.
Proof.
  split.
  - intros _. eexists _, _, _, None. split_and!; [vm_compute; reflexivity..|reflexivity].
  - split_and!; apply NoDup_nil_2.
Qed.

(** One entry is added. *)
Abbreviation added := (add_entry demo_session 100 demo_entry world0).
Abbreviation world1 := (added.2).
Lemma added_ok : added = (Ok 1, world1).
Proof.
  assert (added.1 = Ok 1) as E by (vm_compute; reflexivity). destruct added as [r w]. simpl in *. by rewrite E.
Qed.

Definition blob_fits_b (b : bytes) : bool := Z.of_nat (length b) <=? MAX_ENVELOPE_BYTES.
Definition row_fits_b (r : EntryRow) : bool :=
  blob_fits_b (e_title r) && blob_fits_b (e_username r) && blob_fits_b (e_password r) &&
  match e_url r with Some b => blob_fits_b b | None => true end && match e_notes r with Some b => blob_fits_b b | None => true end.
Lemma row_fits_b_ok r : row_fits_b r = true -> row_fits r.
Proof.
  unfold row_fits_b, row_fits, blob_fits_b, blob_fits. rewrite !andb_true_iff, !Z.leb_le. intros [[[[? ?] ?] Hu] Hn].
  split_and!; try done; intros b E; rewrite E in *; by apply Z.leb_le.
Qed.

Lemma added_fits r : get_raw 1 (w_db world1) = Some r -> row_fits r.
Proof.
  assert (match get_raw 1 (w_db world1) with Some r => row_fits_b r | None => true end = true) as E by (vm_compute; reflexivity).
  intros Er. rewrite Er in E. by apply row_fits_b_ok.
Qed.

Lemma demo_contexts_fit : contexts_fit "7" "1" (envelope_object_type CPassword) 1.
Proof.
  intros vu ou p E1 E2. change "7"%string with (uuid_to_string (from_u128 7)) in E1.
  change "1"%string with (uuid_to_string (from_u128 1)) in E2. rewrite uuid_parse_to_string in E1, E2.
  injection E1 as <-. injection E2 as <-. destruct p; vm_compute; discriminate.
Qed.

(** ** Witnesses *)

Lemma entries_refine_map_witness :
  added = (Ok 1, world1) /\
  (get_entry demo_session 200 1 world0).1 = Err (entry_not_found 1) /\
  (get_entry demo_session 200 1 world1).1 = Ok (stored 200 1 100 100 demo_entry).
Proof.
  split; [exact added_ok|].
  refine (proj2 (proj1 (entries_refine_map demo_session demo_dek "7" 100 world0 1 eq_refl eq_refl world0_ok)
    demo_entry world1 added_ok _ demo_contexts_fit added_fits) 200 1).
  split_and!; done.
Defined.

Definition demo_body : M Z := insert_entry_row {|
  np_fields := {| sf_title := []; sf_username := []; sf_password := []; sf_url := None; sf_notes := None |};
  np_credential_type := "password"; np_entry_nonce := []; np_auth_tag := []; np_created_at := 5; np_modified_at := 5;
  np_favorite := false; np_sync_id := None |}.

(** Interrupted after the SQL commit. *)
Abbreviation cut := (content_tx_fault demo_dek 2 demo_body world0).
Lemma content_crash_safe_witness :
  cut.1 = Err refusal /\ w_db cut.2 <> w_db world0 /\ old_or_new demo_body world0 cut.1 cut.2 /\
  in_step demo_dek cut.2 /\ is_ok (begin demo_dek cut.2).1 = true /\ verify_snapshot demo_dek cut.2 = (Ok tt, cut.2).
Proof.
  split; [vm_compute; reflexivity|]. split.
  - intros E. apply (f_equal (fun db => length (entries db))) in E. vm_compute in E. discriminate.
  - exact (content_crash_safe demo_dek 2 demo_body world0 cut.1 cut.2 (proj1 world0_ok) (guarded_insert_entry_row _)
      (surjective_pairing cut)).
Defined.

(** Acknowledged, and verified as it stands; the database from before is refused. *)
Abbreviation kept := (content_tx demo_dek demo_body world0).
