(* ===== verification/DomainOps.v ===== *)
(** * Core: the sealed domain index of a vault ([vault/domain_ops.rs])

    Each mapping carries its domain in an envelope and keyed tags for every
    suffix of its host; a lookup goes through the tags and trusts only what
    the envelopes say. *)

From S2P Require Import Prelude Text ThirdParty Aad Envelope Keyring CoreError EnvelopeOps DomainTags KeySlots VaultKeys LocalDb ContentGuard Entries.
From Stdlib Require Import ZArith Lia Strings.String Strings.Byte.
From stdpp Require Import base list option strings numbers gmap.
From S2P Require Import Text.
Open Scope Z_scope.

Record MappingSealCtx := { mx_dek : bytes; mx_vault_uuid : string; mx_epoch : Z; mx_tag_key : bytes }.

(** [write_mapping_tags]: the tag rows of a mapping, replaced. *)
Definition insert_tag (mapping : Z) (db : LocalDb) (t : bytes * Z) : LocalDb :=
  let id := autoincrement tag_id (tags_seq db) (domain_mapping_tags db) in
  {| db with domain_mapping_tags := domain_mapping_tags db ++ [{| tag_id := id; t_mapping_id := mapping; t_tag := t.1;
       is_chain_root := t.2; t_equality_key_id := DOMAIN_TAG_KEY_ID |}]; tags_seq := id |}.
Definition write_mapping_tags `{UrlParse, Hmac} (mapping : Z) (domain : string) (tag_key : bytes) (db : LocalDb) : LocalDb :=
  let db := {| db with domain_mapping_tags := delete_where (fun t => t_mapping_id t =? mapping) (domain_mapping_tags db) |} in
  match compute_domain_chain_tags tag_key domain with
  | None => db
  | Some tags => fold_left (insert_tag mapping) ((root tags, 1) :: List.map (fun t => (t, 0)) (suffixes tags)) db
  end.

(** [stored_tags_match_expected]: exactly one root, and every stored tag where
    it belongs. *)
Definition stored_tags_match_expected (stored : list (bytes * bool)) (expected : ChainTags) : bool :=
  (length (List.filter snd stored) =? 1)%nat &&
  (length (List.filter (fun t => negb t.2) stored) =? length (suffixes expected))%nat &&
  forallb (fun t => if (t.2 : bool) then bool_decide (t.1 = root expected)
                    else bool_decide (t.1 ∈ suffixes expected) && negb (bool_decide (t.1 = root expected))) stored.

(** [load_stored_tags]. *)
Definition load_stored_tags (mapping : Z) (db : LocalDb) : list (bytes * bool) :=
  List.map (fun t => (t_tag t, negb (is_chain_root t =? 0)))
    (List.filter (fun t => t_mapping_id t =? mapping) (domain_mapping_tags db)).

(** [legacy_plaintext_candidate_entry_ids]: with the join on live entries. *)
Definition live_entry (id : Z) (db : LocalDb) : bool := existsb (fun r => (entry_id r =? id) && visible r) (entries db).
Definition legacy_plaintext_candidate_entry_ids (query_host : string) (db : LocalDb) : list Z :=
  List.map dm_entry_id (List.filter (fun m => live_entry (dm_entry_id m) db && String.eqb (dm_domain m) query_host
    && bool_decide (domain_enc m = None)) (domain_mappings db)).

(** [domain_backfill_needed], [set_domain_state]. *)
Definition TAG_KEY_STATE : string := "domain_tag_key_id".
Definition key_id_stale (db : LocalDb) : bool :=
  negb (bool_decide (registry_state db !! TAG_KEY_STATE = Some (i64_display DOMAIN_TAG_KEY_ID))).
Definition domain_backfill_needed (db : LocalDb) : bool :=
  existsb (fun m => bool_decide (domain_enc m = None) || negb (String.eqb (dm_domain m) "")) (domain_mappings db) || key_id_stale db.
Definition set_domain_state (key value : string) (db : LocalDb) : LocalDb :=
  {| db with registry_state := <[key := value]> (registry_state db) |}.

(** The candidates of [verified_tag_candidate_entry_ids]: the root tag of the
    query among the tags of the mapping, or the root tag of the mapping among
    the tags of the query. *)
Definition tag_candidate (query_tags : ChainTags) (db : LocalDb) (m : MappingRow) : bool :=
  live_entry (dm_entry_id m) db &&
  existsb (fun t => (t_mapping_id t =? mapping_id m) &&
    (bool_decide (t_tag t = root query_tags) || ((is_chain_root t =? 1) && bool_decide (t_tag t ∈ all query_tags))))
    (domain_mapping_tags db).

Section Domains.
Context `{Environment, Chrono, Hmac, Sha256, HexDecode, UuidText, Base64, Aead, UrlParse}.
Context `{SerdeBytes AadContext, SerdeBytes EnvelopeDoc, SerdeBytes EntryTuple, SerdeBytes MappingTuple, SerdeBytes TagTuple}.
Context `{SerdeBytes CustodyTuple, SerdeBytes State, SerdeBytes Document}.
Context `{Bincode EncryptedEntry, BincodeSer EncryptedEntry, BincodeSer bytes}.

(** The seal of a mapping's domain. *)
Definition seal_domain (ctx : MappingSealCtx) (sync_id domain : string) : M bytes :=
  seal_field (mx_dek ctx) (mx_vault_uuid ctx) sync_id DomainMapping Summary domain (mx_epoch ctx).
Definition open_domain (dek : bytes) (vault_uuid sync_id : string) (blob : bytes) : Res string :=
  open_object_field dek (Some vault_uuid) (Some sync_id) DomainMapping Summary blob.

(** [seal_mapping_and_write_tags]. *)
Definition set_sealed (enc : bytes) (sync_id : string) (m : MappingRow) : MappingRow :=
  {| m with domain_enc := Some enc; dm_sync_id := Some sync_id; dm_domain := ""%string |}.
Definition seal_mapping_and_write_tags (ctx : MappingSealCtx) (mapping : Z) (mapping_sync_id domain : string) : M unit :=
  enc ← seal_domain ctx mapping_sync_id domain;
  _ ← execute (fun db => {| db with domain_mappings :=
        update_where (fun m => mapping_id m =? mapping) (set_sealed enc mapping_sync_id) (domain_mappings db) |});
  execute (write_mapping_tags mapping domain (mx_tag_key ctx)).

(** [insert_sealed_domain_mapping]. *)
Definition insert_sealed_domain_mapping (ctx : MappingSealCtx) (entry : Z) (domain : string) (is_primary : bool) : M Z :=
  u ← draw_uuid;
  let mapping_sync_id := uuid_to_string u in
  enc ← seal_domain ctx mapping_sync_id domain;
  id ← query (fun db => next_rowid mapping_id (domain_mappings db));
  _ ← execute (fun db => {| db with domain_mappings := domain_mappings db ++ [{| mapping_id := id; dm_entry_id := entry;
        dm_domain := ""; dm_is_primary := is_primary; dm_sync_id := Some mapping_sync_id; domain_enc := Some enc |}] |});
  _ ← execute (write_mapping_tags id domain (mx_tag_key ctx));
  mret id.

(** [verify_mapping_seal]. *)
Definition inconsistent_tags (mapping : Z) : PasswordManagerError := InvalidInput ("domain mapping " +:+ i64_display mapping
  +:+ ": tag index does not match its sealed domain").
Definition verify_mapping_seal (dek : bytes) (vault_uuid : string) (tag_key : bytes) (mapping : Z) (sync_id : string) (enc : bytes)
    (db : LocalDb) : Res string :=
  domain ← open_domain dek vault_uuid sync_id enc;
  let stored := load_stored_tags mapping db in
  _ ← err_if (negb (match compute_domain_chain_tags tag_key domain with
                    | Some tags => stored_tags_match_expected stored tags
                    | None => bool_decide (stored = [])
                    end)) (inconsistent_tags mapping);
  Ok domain.

(** The loop of [verified_tag_candidate_entry_ids]. *)
Definition candidate_domain (dek : bytes) (vault_uuid : string) (tag_key : bytes) (db : LocalDb) (m : MappingRow) : Res string :=
  enc ← ok_or (domain_enc m) (InvalidInput "mapping matched the lookup tag index but carries no sealed domain");
  sid ← ok_or (dm_sync_id m) (InvalidInput "mapping carries a sealed domain but no stable identity");
  domain ← map_err (fun _ => InvalidInput "sealed domain failed to open during lookup") (open_domain dek vault_uuid sid enc);
  expected ← ok_or (compute_domain_chain_tags tag_key domain) (InvalidInput "sealed domain is not a normalizable host");
  _ ← err_if (negb (stored_tags_match_expected (load_stored_tags (mapping_id m) db) expected)) (inconsistent_tags (mapping_id m));
  Ok domain.
Fixpoint verified_ids (dek : bytes) (vault_uuid query_host : string) (tag_key : bytes) (db : LocalDb) (l : list MappingRow)
    : Res (list Z) :=
  match l with
  | [] => Ok []
  | m :: l =>
    domain ← candidate_domain dek vault_uuid tag_key db m;
    rest ← verified_ids dek vault_uuid query_host tag_key db l;
    Ok (if domains_match query_host domain then dm_entry_id m :: rest else rest)
  end.
Definition verified_tag_candidate_entry_ids (dek : bytes) (vault_uuid query_host : string) (query_tags : ChainTags) (tag_key : bytes)
    (db : LocalDb) : Res (list Z) :=
  verified_ids dek vault_uuid query_host tag_key db (List.filter (tag_candidate query_tags db) (domain_mappings db)).

(** [domain_lookup]. *)
Definition push_new (ids : list Z) (id : Z) : list Z := if bool_decide (id ∈ ids) then ids else ids ++ [id].
Fixpoint decrypt_rows (s : Session) (now : Z) (rows : list EntryRow) : M (list Entry) :=
  match rows with
  | [] => mret []
  | r :: rows => e ← decrypt_entry_row s now r; l ← decrypt_rows s now rows; mret (e :: l)
  end.
Definition domain_lookup (s : Session) (now : Z) (domain : string) : M (list Entry) :=
  _ ← require_unlocked s;
  match normalize_host domain with
  | None => mret []
  | Some query_host =>
    dek ← lift (session_dek s);
    vault_uuid ← lift (vault_uuid_str s);
    tag_key ← lift (map_err Crypto (derive_domain_tag_key dek));
    query_tags ← lift (ok_or (compute_chain_tags_for_normalized tag_key query_host)
                   (InvalidInput "query host did not normalize; refusing domain lookup"));
    _ ← verify_snapshot dek;
    db ← query (fun db => db);
    verified ← lift (verified_tag_candidate_entry_ids dek vault_uuid query_host query_tags tag_key db);
    let ids := fold_left push_new (legacy_plaintext_candidate_entry_ids query_host db) verified in
    decrypt_rows s now (omap (fun id => get_raw id db) ids)
  end.

(** [sweep_domain_mappings]; the column [domain] is NOT NULL. *)
Record DomainSweepReport := { scanned : Z; sealed : Z; retagged : Z }.
Definition sweep_row (ctx : MappingSealCtx) (stale : bool) (m : MappingRow) (rep : DomainSweepReport) : M DomainSweepReport :=
  match domain_enc m with
  | Some blob =>
    if negb stale && String.eqb (dm_domain m) "" then mret rep
    else
      sid ← lift (ok_or (dm_sync_id m) (InvalidInput "sealed domain mapping has no stable identity"));
      authenticated ← lift (open_domain (mx_dek ctx) (mx_vault_uuid ctx) sid blob);
      _ ← (if stale then execute (write_mapping_tags (mapping_id m) authenticated (mx_tag_key ctx)) else mret tt);
      _ ← execute (fun db => {| db with domain_mappings :=
            update_where (fun x => mapping_id x =? mapping_id m) (fun x => {| x with dm_domain := ""%string |}) (domain_mappings db) |});
      mret (if stale then {| rep with retagged := retagged rep + 1 |} else rep)
  | None =>
    sid ← (match dm_sync_id m with Some sid => mret sid | None => u ← draw_uuid; mret (uuid_to_string u) end : M string);
    _ ← seal_mapping_and_write_tags ctx (mapping_id m) sid (dm_domain m);
    mret {| rep with sealed := sealed rep + 1 |}
  end.
Fixpoint sweep_rows (ctx : MappingSealCtx) (stale : bool) (rows : list MappingRow) (rep : DomainSweepReport) : M DomainSweepReport :=
  match rows with
  | [] => mret rep
  | m :: rows => rep ← sweep_row ctx stale m rep; sweep_rows ctx stale rows rep
  end.
Definition sweep_body (ctx : MappingSealCtx) : M DomainSweepReport :=
  db ← query (fun db => db);
  rep ← sweep_rows ctx (key_id_stale db) (domain_mappings db)
    {| scanned := Z.of_nat (length (domain_mappings db)); sealed := 0; retagged := 0 |};
  _ ← execute (set_domain_state TAG_KEY_STATE (i64_display DOMAIN_TAG_KEY_ID));
  mret rep.
Definition sweep_domain_mappings (s : Session) : M DomainSweepReport :=
  _ ← require_unlocked s;
  dek ← lift (session_dek s);
  vault_uuid ← lift (vault_uuid_str s);
  tag_key ← lift (map_err Crypto (derive_domain_tag_key dek));
  content_tx dek (sweep_body {| mx_dek := dek; mx_vault_uuid := vault_uuid; mx_epoch := session_epoch s; mx_tag_key := tag_key |}).
End Domains.
