(* ===== verification/DomainFacts.v ===== *)
(** * Core: what a domain lookup returns *)

From S2P Require Import Prelude Text ThirdParty Aad Envelope CoreDemo Keyring KeyDemo CoreError EnvelopeOps DomainTags KeySlots VaultKeys LocalDb ContentGuard ContentFacts Entries EntriesFacts EntriesDemo DomainOps.
From Stdlib Require Import ZArith Lia Strings.String Strings.Byte.
From stdpp Require Import base list option strings numbers gmap.
From S2P Require Import Text.
Open Scope Z_scope.

(** The tag rows a mapping has, and those it has after it was written. *)
Definition tag_rows (mapping : Z) (db : LocalDb) : list (bytes * Z) :=
  List.map (fun t => (t_tag t, is_chain_root t)) (List.filter (fun t => t_mapping_id t =? mapping) (domain_mapping_tags db)).
Definition tagged `{UrlParse, Hmac} (tag_key : bytes) (domain : string) (mapping : Z) (db : LocalDb) : Prop :=
  tag_rows mapping db =
    match compute_domain_chain_tags tag_key domain with
    | None => []
    | Some tags => (root tags, 1) :: List.map (fun t => (t, 0)) (suffixes tags)
    end.

Lemma stored_tag_rows mapping db :
  load_stored_tags mapping db = List.map (fun t => (t.1, negb (t.2 =? 0))) (tag_rows mapping db).
Proof. unfold load_stored_tags, tag_rows. by rewrite map_map. Qed.

Lemma filter_delete_same {R} (p : R -> bool) (l : list R) : List.filter p (delete_where p l) = [].
Proof.
  unfold delete_where. induction l as [|x l IH]; simpl; [done|]. destruct (p x) eqn:E; simpl; [done|]. by rewrite E.
Qed.
Lemma filter_delete_other {R} (p q : R -> bool) (l : list R) :
  (forall x, q x = true -> p x = false) -> List.filter q (delete_where p l) = List.filter q l.
Proof.
  intros Hpq. unfold delete_where. induction l as [|x l IH]; simpl; [done|]. destruct (p x) eqn:E; simpl.
  - destruct (q x) eqn:Eq; [by rewrite Hpq in E|done].
  - destruct (q x); congruence.
Qed.

Section Tags.
Context `{UrlParse, Hmac}.

Lemma insert_tags_rows mapping l db : tag_rows mapping (fold_left (insert_tag mapping) l db) = tag_rows mapping db ++ l.
Proof.
  revert db. induction l as [|[t z] l IH]; intros db; simpl; [by rewrite app_nil_r|]. rewrite IH. unfold tag_rows. simpl.
  rewrite List.filter_app, map_app. simpl. rewrite Z.eqb_refl. simpl. by rewrite <- app_assoc.
Qed.
Lemma insert_tags_other mapping mapping' l db :
  mapping' <> mapping -> tag_rows mapping' (fold_left (insert_tag mapping) l db) = tag_rows mapping' db.
Proof.
  intros Hne. revert db. induction l as [|t l IH]; intros db; simpl; [done|]. rewrite IH. unfold tag_rows. simpl.
  rewrite List.filter_app, map_app. simpl. rewrite (proj2 (Z.eqb_neq _ _)) by congruence. simpl. by rewrite app_nil_r.
Qed.

(** Writing the tags of a mapping gives exactly its own, and leaves those of
    the other mappings. *)
Lemma write_mapping_tags_tagged tag_key domain mapping db :
  tagged tag_key domain mapping (write_mapping_tags mapping domain tag_key db).
Proof.
  unfold tagged, write_mapping_tags. destruct (compute_domain_chain_tags tag_key domain) as [tags|].
  - rewrite insert_tags_rows. unfold tag_rows. simpl. by rewrite filter_delete_same.
  - unfold tag_rows. simpl. by rewrite filter_delete_same.
Qed.
Lemma write_mapping_tags_other tag_key domain mapping mapping' db :
  mapping' <> mapping -> tag_rows mapping' (write_mapping_tags mapping domain tag_key db) = tag_rows mapping' db.
Proof.
  intros Hne. assert (tag_rows mapping' {| db with domain_mapping_tags :=
      delete_where (fun t => t_mapping_id t =? mapping) (domain_mapping_tags db) |} = tag_rows mapping' db) as E.
  { unfold tag_rows. simpl. f_equal. apply filter_delete_other. intros t Ht. propify. apply Z.eqb_neq. congruence. }
  unfold write_mapping_tags. destruct (compute_domain_chain_tags tag_key domain); [|exact E].
  rewrite insert_tags_other by done. exact E.
Qed.

Lemma tags_consistent tag_key domain tags mapping db :
  tagged tag_key domain mapping db -> compute_domain_chain_tags tag_key domain = Some tags -> root tags ∉ suffixes tags ->
  stored_tags_match_expected (load_stored_tags mapping db) tags = true.
Proof.
  unfold tagged. intros E Et Hr. rewrite stored_tag_rows, E, Et. unfold stored_tags_match_expected. simpl. rewrite !map_map. simpl.
  assert (forall l : list bytes, List.filter snd (List.map (fun t => (t, false)) l) = [] /\
    length (List.filter (fun t : bytes * bool => negb t.2) (List.map (fun t => (t, false)) l)) = length l) as G.
  { induction l as [|x l [I1 I2]]; simpl; [done|]. split; [done|]. by rewrite I2. }
  destruct (G (suffixes tags)) as [-> ->]. rewrite !Nat.eqb_refl, bool_decide_true by done. simpl.
  apply forallb_forall. intros x (t & <- & Ht%list_elem_of_In)%in_map_iff. simpl.
  rewrite bool_decide_true by done. rewrite bool_decide_false; [done|]. congruence.
Qed.

(** A tag of the mapping's chain is in the table. *)
Lemma tagged_row mapping db t z :
  (t, z) ∈ tag_rows mapping db ->
  exists r, r ∈ domain_mapping_tags db /\ t_mapping_id r = mapping /\ t_tag r = t /\ is_chain_root r = z.
Proof.
  unfold tag_rows. intros (r & Er & Hr)%list_elem_of_In%in_map_iff. apply filter_In in Hr as [Hr Em].
  injection Er as Er1 Er2. propify. exists r. by rewrite list_elem_of_In.
Qed.
End Tags.

Section Lookup.
Context `{Environment, Chrono, Hmac, Sha256, HexDecode, UuidText, Base64, Aead, UrlParse}.
Context `{SerdeBytes AadContext, SerdeBytes EnvelopeDoc, SerdeBytes EntryTuple, SerdeBytes MappingTuple, SerdeBytes TagTuple}.
Context `{SerdeBytes CustodyTuple, SerdeBytes State, SerdeBytes Document}.
Context `{Bincode EncryptedEntry, BincodeSer EncryptedEntry, BincodeSer bytes}.

(** Reading leaves the world as it is. *)
Lemma verify_row_world dek r w : (verify_row dek r w).2 = w.
Proof. done. Qed.
Lemma decrypt_entry_row_ok s now r w e w' :
  decrypt_entry_row s now r w = (Ok e, w') -> w' = w /\ en_entry_id e = Some (entry_id r).
Proof.
  unfold decrypt_entry_row. intros E. apply M_bind_ok in E as (dek & w1 & E1 & E). injection E1 as _ <-.
  apply M_bind_ok in E as (u & w2 & E2 & E). apply (f_equal snd) in E2. rewrite verify_row_world in E2. simpl in E2. subst w2.
  injection E as E <-. split; [done|]. unfold open_row in E. result_inv. by simplify_eq.
Qed.
Lemma decrypt_rows_ok s now rows w es w' :
  decrypt_rows s now rows w = (Ok es, w') ->
  w' = w /\ List.map en_entry_id es = List.map (fun r => Some (entry_id r)) rows.
Proof.
  revert w es w'. induction rows as [|r rows IH]; intros w es w' E; simpl in E; [by injection E as <- <-|].
  apply M_bind_ok in E as (e & w1 & E1 & E). apply decrypt_entry_row_ok in E1 as [-> He].
  apply M_bind_ok in E as (l & w2 & E2 & E). apply IH in E2 as [-> Hl]. injection E as <- <-. simpl. by rewrite He, Hl.
Qed.

Lemma verified_ids_spec dek v h k db l ids :
  verified_ids dek v h k db l = Ok ids ->
  (forall m, m ∈ l -> exists d, candidate_domain dek v k db m = Ok d) /\
  forall id, id ∈ ids <-> exists m d, m ∈ l /\ candidate_domain dek v k db m = Ok d /\ domains_match h d = true /\ dm_entry_id m = id.
Proof.
  revert ids. induction l as [|x l IH]; intros ids E; cbn [verified_ids] in E.
  - injection E as <-. split; [intros m Hm; by apply elem_of_nil in Hm|]. intros id. rewrite elem_of_nil. split; [done|].
    intros (m & d & Hm & _). by apply elem_of_nil in Hm.
  - apply result_bind_ok in E as (d & Ed & E). apply result_bind_ok in E as (rest & Er & E). apply IH in Er as [I1 I2].
    injection E as <-. split.
    + intros m [->|Hm]%elem_of_cons; eauto.
    + intros id. assert (id ∈ (if domains_match h d then dm_entry_id x :: rest else rest) <->
        (domains_match h d = true /\ dm_entry_id x = id) \/ id ∈ rest) as ->.
      { destruct (domains_match h d); rewrite ?elem_of_cons; naive_solver. }
      rewrite I2. split.
      * intros [[? ?]|(m & d' & ? & ? & ? & ?)]; [exists x, d|exists m, d']; rewrite elem_of_cons; repeat split; auto.
      * intros (m & d' & [->|Hm]%elem_of_cons & Em & Hmt & Hid); [left|right; exists m, d'; done].
        rewrite Ed in Em. injection Em as <-. done.
Qed.

Lemma candidate_domain_ok dek v k db m d :
  candidate_domain dek v k db m = Ok d ->
  exists sid enc, dm_sync_id m = Some sid /\ domain_enc m = Some enc /\ open_domain dek v sid enc = Ok d.
Proof.
  unfold candidate_domain. intros E. result_inv. simplify_eq.
  match goal with E : map_err _ _ = Ok _ |- _ => apply map_err_ok in E end. eauto 10.
Qed.

Lemma push_new_elem l ids id : id ∈ fold_left push_new l ids <-> id ∈ ids \/ id ∈ l.
Proof.
  revert ids. induction l as [|x l IH]; intros ids; simpl; [rewrite elem_of_nil; tauto|]. rewrite IH, elem_of_cons.
  unfold push_new. case_bool_decide; [naive_solver|]. rewrite elem_of_app, list_elem_of_singleton. naive_solver.
Qed.

(** Where the ids of a lookup come from. *)
Lemma domain_lookup_ok s dek v k now q h w es w' :
  session_dek s = Ok dek -> session_uuid s = Some v -> derive_domain_tag_key dek = Ok k -> normalize_host q = Some h ->
  domain_lookup s now q w = (Ok es, w') ->
  exists tags ids, compute_chain_tags_for_normalized k h = Some tags /\
    verified_tag_candidate_entry_ids dek v h tags k (w_db w) = Ok ids /\
    List.map en_entry_id es = List.map (fun r => Some (entry_id r))
      (omap (fun id => get_raw id (w_db w)) (fold_left push_new (legacy_plaintext_candidate_entry_ids h (w_db w)) ids)).
Proof.
  intros Hd Hv Hk Hq E. unfold domain_lookup in E. rewrite Hq in E.
  apply M_bind_ok in E as (u & w1 & E1 & E). apply (f_equal snd) in E1. change (w = w1) in E1. subst w1.
  apply M_bind_ok in E as (x & w1 & [E1 <-]%M_lift_ok & E). rewrite Hd in E1. injection E1 as <-.
  apply M_bind_ok in E as (x & w1 & [E1 <-]%M_lift_ok & E). unfold vault_uuid_str in E1. rewrite Hv in E1. injection E1 as <-.
  apply M_bind_ok in E as (x & w1 & [E1 <-]%M_lift_ok & E). rewrite Hk in E1. injection E1 as <-.
  apply M_bind_ok in E as (tags & w1 & [E1 <-]%M_lift_ok & E).
  apply M_bind_ok in E as (x & w1 & E2 & E). apply (f_equal snd) in E2. change (w = w1) in E2. subst w1.
  apply M_bind_ok in E as (x0 & w1 & E2 & E). injection E2 as <- <-.
  apply M_bind_ok in E as (ids & w1 & [E2 <-]%M_lift_ok & E).
  apply decrypt_rows_ok in E as [_ E]. apply ok_or_ok in E1. eauto 10.
Qed.

(** A credential is [offered] through a mapping: its sealed domain matches the
    host, or it has none and its plaintext is the host. *)
Definition offers (dek : bytes) (v h : string) (m : MappingRow) : Prop :=
  (exists sid enc d, dm_sync_id m = Some sid /\ domain_enc m = Some enc /\ open_domain dek v sid enc = Ok d /\ domains_match h d = true) \/
  (domain_enc m = None /\ dm_domain m = h).

Lemma lookup_sound s dek v k now q h w es w' e :
  session_dek s = Ok dek -> session_uuid s = Some v -> derive_domain_tag_key dek = Ok k -> normalize_host q = Some h ->
  domain_lookup s now q w = (Ok es, w') -> e ∈ es ->
  exists m, m ∈ domain_mappings (w_db w) /\ en_entry_id e = Some (dm_entry_id m) /\ offers dek v h m.
Proof.
  intros Hd Hv Hk Hq E He. destruct (domain_lookup_ok _ _ _ _ _ _ _ _ _ _ Hd Hv Hk Hq E) as (tags & ids & Ht & Hids & Em).
  assert (en_entry_id e ∈ List.map en_entry_id es) as Hin by (apply list_elem_of_In, in_map, list_elem_of_In, He).
  rewrite Em in Hin. apply list_elem_of_In, in_map_iff in Hin as (r & Er & Hr%list_elem_of_In).
  apply list_elem_of_omap in Hr as (id & Hid & (Hr & <- & _)%get_raw_inv). apply push_new_elem in Hid as [Hid|Hid].
  - apply verified_ids_spec in Hids as [_ Hs]. apply Hs in Hid as (m & d & Hm & Hc & Hmt & Hme).
    apply list_elem_of_In, filter_In in Hm as [Hm%list_elem_of_In _]. exists m. split; [done|]. split; [congruence|]. left.
    apply candidate_domain_ok in Hc as (sid & enc & ? & ? & ?). eauto 10.
  - unfold legacy_plaintext_candidate_entry_ids in Hid. apply list_elem_of_In, in_map_iff in Hid as (m & Hme & Hm).
    apply filter_In in Hm as [Hm%list_elem_of_In Hp]. propify. exists m. split; [done|]. split; [congruence|]. right.
    split; [done|by apply String.eqb_eq].
Qed.

(** The rows of a tagged mapping answer for every tag of its chain. *)
Lemma tagged_rows k d t mapping db x :
  tagged k d mapping db -> compute_domain_chain_tags k d = Some t -> x ∈ all t ->
  exists r, r ∈ domain_mapping_tags db /\ t_mapping_id r = mapping /\ t_tag r = x /\ (x = root t -> is_chain_root r = 1 \/ x ∈ suffixes t).
Proof.
  unfold tagged. intros E Et Hx. rewrite Et in E. apply elem_of_cons in Hx as [->|Hx].
  - assert ((root t, 1) ∈ tag_rows mapping db) as Hr by (rewrite E; left).
    apply tagged_row in Hr as (r & ? & ? & ? & ?). eauto 10.
  - assert ((x, 0) ∈ tag_rows mapping db) as Hr.
    { rewrite E. right. apply list_elem_of_In, (in_map (fun t => (t, 0))), list_elem_of_In, Hx. }
    apply tagged_row in Hr as (r & ? & ? & ? & ?). eauto 10.
Qed.

(** A tagged mapping whose domain matches the query is a candidate. *)
Lemma match_is_candidate k h d m tags db :
  compute_chain_tags_for_normalized k h = Some tags -> normalize_host h = Some h ->
  tagged k d (mapping_id m) db -> live_entry (dm_entry_id m) db = true ->
  (forall g, g = h \/ normalize_host d = Some g -> (length (split_char DOT g) <= MAX_CHAIN_TAGS)%nat) ->
  domains_match h d = true -> tag_candidate tags db m = true.
Proof.
  intros Et Hh Htag Hl Hlen Hm. unfold tag_candidate. rewrite Hl. simpl.
  assert (compute_domain_chain_tags k h = Some tags) as Eh by (unfold compute_domain_chain_tags; by rewrite Hh).
  destruct (compute_tags_inv _ _ _ Eh) as (h' & Hh' & Rh & Sh & Ah). rewrite Hh in Hh'. injection Hh' as <-.
  destruct (normalize_host d) as [g|] eqn:Hd; [|unfold domains_match in Hm; by rewrite Hh, Hd in Hm].
  apply (domains_match_spec _ _ _ _ Hh Hd) in Hm.
  destruct (compute_domain_chain_tags k d) as [t|] eqn:Ed.
  2:{ unfold compute_domain_chain_tags in Ed. rewrite Hd in Ed. simpl in Ed. unfold compute_chain_tags_for_normalized in *.
      destruct (domain_chain_suffixes g) eqn:Eg; [|done]. unfold domain_chain_suffixes in Eg.
      apply normalize_host_nonempty in Hd. apply String.eqb_neq in Hd. rewrite Hd in Eg.
      pose proof (split_char_nonempty DOT g). by destruct (split_char DOT g). }
  destruct (compute_tags_inv _ _ _ Ed) as (g' & Hg' & Rd & Sd & Ad). rewrite Hd in Hg'. injection Hg' as <-.
  apply existsb_exists. destruct Hm as [U|U].
  - (* the query is a suffix of the mapping *)
    apply (tags_of_under k) in U; [|by auto..]. rewrite <- Ad, <- Rh in U.
    destruct (tagged_rows _ _ _ _ _ _ Htag Ed U) as (r & Hr & Hrm & Hrt & _). exists r. rewrite <- list_elem_of_In.
    split; [done|]. by rewrite Hrm, Z.eqb_refl, bool_decide_true.
  - (* the mapping is a suffix of the query *)
    apply (tags_of_under k) in U; [|by auto..]. rewrite <- Ah, <- Rd in U. unfold tagged in Htag. rewrite Ed in Htag.
    assert ((root t, 1) ∈ tag_rows (mapping_id m) db) as Hr by (rewrite Htag; left).
    apply tagged_row in Hr as (r & Hr & Hrm & Hrt & Hz). exists r. rewrite <- list_elem_of_In.
    split; [done|]. rewrite Hrm, Z.eqb_refl, Hz, Hrt, (bool_decide_true (_ ∈ _)) by done. by rewrite orb_true_r.
Qed.

(** C23. A domain lookup offers exactly the credentials of the queried site.
    An entry comes back only through a mapping whose sealed domain matches the
    query host (or one not sealed yet that equals it), whatever the tag table
    says; and a live entry with a sealed mapping that matches is found through
    the tags [write_mapping_tags] stored, for hosts of at most
    [MAX_CHAIN_TAGS] labels. *)
Theorem lookup_exact s dek v k now q h w es w' :
  session_dek s = Ok dek -> session_uuid s = Some v -> derive_domain_tag_key dek = Ok k ->
  normalize_host q = Some h -> normalize_host h = Some h ->
  domain_lookup s now q w = (Ok es, w') ->
  (forall e, e ∈ es -> exists m, m ∈ domain_mappings (w_db w) /\ en_entry_id e = Some (dm_entry_id m) /\ offers dek v h m) /\
  (forall m sid enc d, m ∈ domain_mappings (w_db w) -> dm_sync_id m = Some sid -> domain_enc m = Some enc ->
     open_domain dek v sid enc = Ok d -> tagged k d (mapping_id m) (w_db w) -> live_entry (dm_entry_id m) (w_db w) = true ->
     (forall g, g = h \/ normalize_host d = Some g -> (length (split_char DOT g) <= MAX_CHAIN_TAGS)%nat) ->
     domains_match h d = true -> exists e, e ∈ es /\ en_entry_id e = Some (dm_entry_id m)).
Proof.
  intros Hd Hv Hk Hq Hh E. split; [intros e He; exact (lookup_sound _ _ _ _ _ _ _ _ _ _ _ Hd Hv Hk Hq E He)|]. intros m sid enc d Hm Hsid Henc Ho Ht Hl Hlen Hmt.
  destruct (domain_lookup_ok _ _ _ _ _ _ _ _ _ _ Hd Hv Hk Hq E) as (tags & ids & Htags & Hids & Em).
  pose proof (match_is_candidate _ _ _ _ _ _ Htags Hh Ht Hl Hlen Hmt) as Hc.
  unfold verified_tag_candidate_entry_ids in Hids. apply verified_ids_spec in Hids as [Hall Hs].
  assert (m ∈ List.filter (tag_candidate tags (w_db w)) (domain_mappings (w_db w))) as Hf
    by (by apply list_elem_of_In, filter_In; split; [apply list_elem_of_In|]).
  destruct (Hall m Hf) as [d' Hd']. pose proof Hd' as (sid' & enc' & ? & ? & ?)%candidate_domain_ok.
  assert (d' = d) as -> by congruence.
  assert (dm_entry_id m ∈ ids) as Hin by (apply Hs; by exists m, d).
  apply existsb_exists in Hl as (r0 & Hr0 & Hp). destruct (get_raw (dm_entry_id m) (w_db w)) as [r|] eqn:Er.
  2:{ unfold get_raw in Er. by rewrite (find_none _ _ Er _ Hr0) in Hp. }
  assert (Some (dm_entry_id m) ∈ List.map en_entry_id es) as Hin'.
  { rewrite Em. pose proof (get_raw_inv _ _ _ Er) as (_ & <- & _).
    apply list_elem_of_In, (in_map (fun r => Some (entry_id r))), list_elem_of_In, list_elem_of_omap.
    exists (dm_entry_id m). split; [apply push_new_elem; by left|done]. }
  apply list_elem_of_In, in_map_iff in Hin' as (e & He & Hin'%list_elem_of_In). eauto.
Qed.
End Lookup.

(** ** Witness *)

Module Demo.
Export DomainTags.Demo.

Definition tag_key : bytes := Eval vm_compute in match derive_domain_tag_key demo_dek with Ok k => k | Err _ => [] end.
Definition demo_ctx : MappingSealCtx := {| mx_dek := demo_dek; mx_vault_uuid := "7"; mx_epoch := 1; mx_tag_key := tag_key |}.

(** An entry for github.com in a vault in memory. *)
Definition fill : M Z := id ← add_entry demo_session 100 demo_entry; insert_sealed_domain_mapping demo_ctx id "github.com" true.
Abbreviation filled := ((fill {| world0 with w_on_disk := false |}).2).
Abbreviation found := (domain_lookup demo_session 200 "https://gist.github.com/x" filled).

Definition the_mapping : MappingRow := Eval vm_compute in
  match domain_mappings (w_db filled) with
  | m :: _ => m
  | [] => {| mapping_id := 0; dm_entry_id := 0; dm_domain := ""; dm_is_primary := false; dm_sync_id := None; domain_enc := None |}
  end.

Lemma lookup_exact_witness : exists es, found = (Ok es, found.2) /\ exists e, e ∈ es /\ en_entry_id e = Some 1.
Proof.
  assert (is_ok found.1 = true) as Hok by (vm_compute; reflexivity).
  destruct found.1 as [es|] eqn:E; [|done]. assert (found = (Ok es, found.2)) as Ef by (rewrite <- E; apply surjective_pairing).
  exists es. split; [done|].
  refine (proj2 (lookup_exact demo_session demo_dek "7" tag_key 200 "https://gist.github.com/x" "gist.github.com" filled es found.2
    eq_refl eq_refl _ _ _ Ef) the_mapping _ _ "github.com"%string _ eq_refl eq_refl _ _ _ _ _); try (vm_compute; reflexivity).
  - assert (domain_mappings (w_db filled) = [the_mapping]) as -> by (vm_compute; reflexivity). left.
  - intros g [->|E']; [vm_compute; lia|]. vm_compute in E'. injection E' as <-. vm_compute. lia.
Defined.
End Demo.
