(* ===== verification/SyncModels.v ===== *)
(** * Core: what the sync client exchanges and keeps ([sync/models.rs],
    [sync/crypto.rs], [sync/conflict.rs], [sync/config.rs], [sync/v2.rs])

    Payloads, their transport encryption and padding, the conflict rules and
    the sync configuration row. *)

From S2P Require Import Prelude Text ThirdParty Aad Envelope CoreError EnvelopeOps SyncWire LocalDb.
From Stdlib Require Import ZArith Lia Strings.String Strings.Byte.
From stdpp Require Import base list option strings numbers gmap.
From S2P Require Import Text.
Open Scope Z_scope.

(** ** Payloads *)

Record SyncEntryBlob := {
  b_sync_id : Uuid;
  b_entry_type : SyncEntryType;
  b_sync_version : Z;             (* u64 *)
  b_modified_at : Z;
  b_encrypted_payload : bytes;
  b_is_tombstone : bool;
  b_origin_device_id : Uuid;
}.

Record DomainPayload := { dp_domain : string; dp_is_primary : bool }.
Record CredentialPayload := {
  cp_title : string;
  cp_username : string;
  cp_password : string;
  cp_credential_type : CredentialType;
  cp_url : option string;
  cp_notes : option string;
  cp_favorite : bool;
  cp_domains : list DomainPayload;
  cp_created_at : Z;
  cp_modified_at : Z;
}.
Record SshKeyPayload := {
  sp_name : string;
  sp_comment : option string;
  sp_key_type : string;
  sp_key_size : option Z;
  sp_public_key : string;
  sp_private_key : string;
  sp_private_key_encrypted : option bytes;
  sp_legacy_nonce : option bytes;
  sp_legacy_auth_tag : option bytes;
  sp_fingerprint : string;
  sp_created_at : Z;
  sp_modified_at : Z;
}.
Record TotpPayload := {
  tp_secret : string;
  tp_secret_encrypted : option bytes;
  tp_legacy_nonce : option bytes;
  tp_legacy_auth_tag : option bytes;
  tp_algorithm : string;
  tp_digits : Z;                  (* u8 *)
  tp_period : Z;                  (* u32 *)
  tp_issuer : option string;
  tp_account_name : option string;
  tp_created_at : Z;
  tp_parent_credential_sync_id : option Uuid;
}.

(** [SyncState::as_str], [SyncState::parse]. *)
Definition state_str (s : SyncState) : string :=
  match s with Synced => "synced" | Pending => "pending" | Conflict => "conflict" end.
Definition state_parse (s : string) : SyncState :=
  if String.eqb s "synced" then Synced else if String.eqb s "conflict" then Conflict else Pending.

(** ** The v2 responses *)

Inductive RejectionReason :=
| VersionConflict (current_version : ObjectVersion)
| StaleEpoch (vault_epoch : Z)
| Malformed.
Inductive MutationOutcome :=
| Applied (resulting_version : ObjectVersion) (server_sequence : ServerCursor)
| Rejected (reason : RejectionReason).
Record MutationResult := { mr_mutation_id : Uuid; mr_object_id : Uuid; mr_outcome : MutationOutcome }.
Record PushRequestV2 := { pq_device_sequence : DeviceSequence; pq_mutations : list MutationV2 }.
Record PushResponseV2 := { pr_server_cursor : ServerCursor; pr_results : list MutationResult }.
Record PullRequestV2 := { since : ServerCursor; limit : option Z }.
Record MutationLogEntry := { server_sequence : ServerCursor; mutation : MutationV2 }.
Record PullResponseV2 := { pl_entries : list MutationLogEntry; pl_cursor : ServerCursor; pl_has_more : bool }.

(** ** Transport encryption ([sync/crypto.rs]) *)

(** [u64::from_le_bytes], [to_le_bytes]. *)
Definition to_le_bytes (n : nat) (z : Z) : bytes := rev (to_be_bytes n z).
Definition of_le_bytes (b : bytes) : Z := of_be_bytes (rev b).

(** [pad_payload]: the first bucket that fits, or a multiple of 8192. *)
Definition buckets : list Z := [256; 512; 1024; 2048; 4096; 8192].
Definition bucket_size (needed : Z) : Z :=
  match List.find (fun b => needed <=? b) buckets with
  | Some b => b
  | None => (needed / 8192 + 1) * 8192
  end.
Definition resize (n : nat) (b : bytes) : bytes := take n b ++ repeat Byte.x00 (n - length b).
Definition pad_payload (data : bytes) : bytes :=
  resize (Z.to_nat (bucket_size (Z.of_nat (length data) + 8))) (to_le_bytes 8 (Z.of_nat (length data)) ++ data).

(** [unpad_payload]; the sum wraps at 64 bits in a release build, and then the
    slice is out of range: [None] is that panic. *)
Definition unpad_payload (padded : bytes) : option (result CryptoError bytes) :=
  if (length padded <? 8)%nat then Some (Err (DecryptionFailed "Padded payload too short"))
  else
    let original_len := of_le_bytes (take 8 padded) in
    let stop := (original_len + 8) mod 2 ^ 64 in
    if Z.of_nat (length padded) <? stop then Some (Err (DecryptionFailed "Invalid padded payload length"))
    else if stop <? 8 then None
    else Some (Ok (take (Z.to_nat (stop - 8)) (drop 8 padded))).

Section Crypto.
Context `{Aead}.

(** [encrypt_for_sync], [decrypt_from_sync]. *)
Definition encrypt_for_sync (gcm_nonce dek plaintext : bytes) : result CryptoError bytes :=
  _ ← err_if (bool_decide (plaintext = [])) (EncryptionFailed "Cannot encrypt empty payload");
  ct ← ok_or (gcm_encrypt dek gcm_nonce [] plaintext) (EncryptionFailed "Sync encryption failed");
  Ok (gcm_nonce ++ ct).
Definition decrypt_from_sync (dek blob : bytes) : result CryptoError bytes :=
  _ ← err_if (length blob <? 29)%nat (DecryptionFailed "Sync blob too short");
  ok_or (gcm_decrypt dek (take 12 blob) [] (drop 12 blob)) AuthenticationFailed.
End Crypto.

(** ** Conflict resolution ([sync/conflict.rs]) *)

Inductive Resolution := AcceptRemote | KeepLocal.
#[global] Instance Resolution_eq_dec : EqDecision Resolution.
Proof. solve_decision. Defined.

(** [ConflictResolver::resolve], [ConflictResolver::accept_new]. *)
Definition resolve (local_sync_version local_modified_at : Z) (remote : SyncEntryBlob) : Resolution :=
  if local_sync_version <? b_sync_version remote then AcceptRemote
  else if b_sync_version remote =? local_sync_version then
    if local_modified_at <? b_modified_at remote then AcceptRemote else KeepLocal
  else KeepLocal.
Definition accept_new (remote : SyncEntryBlob) : bool := 0 <? b_sync_version remote.

(** A remote entry is accepted exactly when it is newer, so the stored entry
    never goes back and ties stay local. *)
Lemma resolve_spec v t b :
  resolve v t b = AcceptRemote <-> v < b_sync_version b \/ v = b_sync_version b /\ t < b_modified_at b.
Proof.
  unfold resolve. destruct (Z.ltb_spec v (b_sync_version b)); [naive_solver|].
  destruct (Z.eqb_spec (b_sync_version b) v); [|naive_solver lia].
  destruct (Z.ltb_spec t (b_modified_at b)); naive_solver lia.
Qed.

(** ** Configuration ([sync/config.rs]) *)

Record SyncConfig := {
  sync_enabled : bool;
  cfg_vault_id : option Uuid;
  cfg_device_id : option Uuid;
  cfg_device_name : option string;
  relay_url : option string;
  last_push_sequence : Z;          (* u64 *)
  last_pull_sequence : Z;
  last_sync_at : option Z;
  protocol_version : Z;            (* u32 *)
  lineage_high_water : Z;          (* u64 *)
}.
Definition default_config : SyncConfig := {|
  sync_enabled := false; cfg_vault_id := None; cfg_device_id := None; cfg_device_name := None; relay_url := None;
  last_push_sequence := 0; last_pull_sequence := 0; last_sync_at := None; protocol_version := 0; lineage_high_water := 0 |}.
Definition SYNC_PROTOCOL_VERSION : Z := 2.

Section Config.
Context `{UuidText}.

(** [SyncConfig::load]; the table exists. *)
Definition config_load (db : LocalDb) : SyncConfig :=
  match sync_metadata db with
  | None => default_config
  | Some r => {|
      sync_enabled := sm_sync_enabled r; cfg_vault_id := sm_vault_id r ≫= uuid_parse_str;
      cfg_device_id := sm_device_id r ≫= uuid_parse_str; cfg_device_name := sm_device_name r; relay_url := sm_relay_url r;
      last_push_sequence := i64_as_u64 (sm_last_push_sequence r); last_pull_sequence := i64_as_u64 (sm_last_pull_sequence r);
      last_sync_at := sm_last_sync_at r; protocol_version := Z.max (sm_protocol_version r) 0 mod 2 ^ 32;
      lineage_high_water := Z.max (sm_lineage_high_water r) 0 |}
  end.

(** [SyncConfig::save]. *)
Definition config_save (c : SyncConfig) (db : LocalDb) : LocalDb :=
  {| db with sync_metadata := Some {|
       sm_vault_id := uuid_to_string <$> cfg_vault_id c; sm_device_id := uuid_to_string <$> cfg_device_id c;
       sm_device_name := cfg_device_name c; sm_relay_url := relay_url c;
       sm_last_push_sequence := u64_as_i64 (last_push_sequence c); sm_last_pull_sequence := u64_as_i64 (last_pull_sequence c);
       sm_last_sync_at := last_sync_at c; sm_sync_enabled := sync_enabled c; sm_protocol_version := protocol_version c;
       sm_lineage_high_water := u64_as_i64 (lineage_high_water c) |} |}.
End Config.

(** [read_local_identity] ([vault/envelope_ops.rs]). *)
Definition read_local_identity : M (string * Z) :=
  db ← query (fun db => db);
  v ← lift (ok_or (KeySlots.vault_uuid_col (metadata db))
        (InvalidInput "vault identity (vault_uuid) is missing from db_metadata; refusing sync envelope operation"));
  mret (v, KeySlots.epoch_of (metadata db)).
