(* ===== verification/SyncOutbox.v ===== *)
(** * Core: the outbox of the sync client ([sync/change_tracker.rs],
    [sync/outbox.rs])

    Pending rows become mutations; the relay's results move them out of the
    outbox, mark them conflicted or send them again. *)

From S2P Require Import Prelude Text ThirdParty Aad Envelope CoreError EnvelopeOps SyncWire KeySlots LocalDb ContentGuard Entries Totp SyncModels.
From Stdlib Require Import ZArith Lia Strings.String Strings.Byte Strings.Ascii.
From stdpp Require Import base list option strings numbers gmap.
From S2P Require Import Text.
Open Scope Z_scope.

(** [ssh::SshKey::decrypt_private_key] ([ssh.rs]). *)
Definition decrypt_private_key `{Aead} (dek private_key_encrypted nonce auth_tag : bytes) : Res string :=
  _ ← err_if (negb (length nonce =? 12)%nat) (InvalidInput "Invalid nonce length");
  _ ← err_if (negb (length auth_tag =? 16)%nat) (InvalidInput "Invalid auth tag length");
  b ← map_err Crypto (decrypt_entry dek {| ee_nonce := nonce; ee_ciphertext := private_key_encrypted; ee_auth_tag := auth_tag |});
  ok_or (from_utf8 b) (InvalidInput "Invalid UTF-8 in private key").

(** [{"tombstone":true}]. *)
Definition dquote : string := String "034"%char EmptyString.
Definition tombstone_data : bytes := as_bytes ("{" +:+ dquote +:+ "tombstone" +:+ dquote +:+ ":true}").

(** A row is pushed unless it is skipped with a warning. *)
Fixpoint collect {R} (f : R -> M (option SyncEntryBlob)) (rows : list R) : M (list SyncEntryBlob) :=
  match rows with
  | [] => mret []
  | r :: rows =>
    b ← f r;
    l ← collect f rows;
    mret (match b with Some b => b :: l | None => l end)
  end.

Definition is_pending (c : SyncCols) : bool := bool_decide (sync_state c = Pending).

(** The column [sync_id], read as text and parsed. *)
Definition row_sync_id `{UuidText} (c : SyncCols) : Res (string * Uuid) :=
  s ← ok_or (sync_id c) sqlite_error;
  u ← ok_or (uuid_parse_str s) (InvalidInput "Invalid sync_id");
  Ok (s, u).

Section Collect.
Context `{Environment, Hmac, Sha256, HexDecode, UuidText, Base64, Base32, Aead}.
Context `{SerdeBytes AadContext, SerdeBytes EnvelopeDoc, SerdeBytes EntryTuple, SerdeBytes MappingTuple, SerdeBytes TagTuple}.
Context `{SerdeBytes CustodyTuple, SerdeBytes State, SerdeBytes Document}.
Context `{SerdeBytes CredentialPayload, SerdeBytes SshKeyPayload, SerdeBytes TotpPayload}.
Context `{Bincode EncryptedEntry}.

Definition seal_payload (dek plaintext : bytes) : M bytes :=
  n ← draw_nonce;
  lift (map_err Crypto (encrypt_for_sync n dek plaintext)).

(** [create_tombstone_blob]. *)
Definition create_tombstone_blob (dek : bytes) (sync_id : Uuid) (t : SyncEntryType) (sync_version modified_at : Z) (device_id : Uuid)
    : M SyncEntryBlob :=
  encrypted ← seal_payload dek tombstone_data;
  mret {| b_sync_id := sync_id; b_entry_type := t; b_sync_version := i64_as_u64 sync_version; b_modified_at := modified_at;
          b_encrypted_payload := encrypted; b_is_tombstone := true; b_origin_device_id := device_id |}.

(** [load_domain_mappings]: a mapping that does not open is left out. *)
Definition mapping_payload (dek : bytes) (vault_uuid : string) (r : MappingRow) : option DomainPayload :=
  let domain := match domain_enc r with
    | Some blob =>
      match open_metadata_text_field dek (Some vault_uuid) (dm_sync_id r) DomainMapping Summary (Some (VBlob blob)) with
      | Ok d => d
      | Err _ => None
      end
    | None => Some (dm_domain r)
    end in
  (fun d => {| dp_domain := d; dp_is_primary := dm_is_primary r |}) <$> domain.
Definition load_domain_mappings (dek : bytes) (vault_uuid : string) (id : Z) (db : LocalDb) : list DomainPayload :=
  omap (mapping_payload dek vault_uuid) (List.filter (fun m => dm_entry_id m =? id) (domain_mappings db)).

(** The payload of an entry; [None] where the row is skipped. *)
Definition option_of {A} (r : Res A) : option A := match r with Ok a => Some a | Err _ => None end.
Definition open_optional (open : bytes -> Res string) (b : option bytes) : option (option string) :=
  match b with
  | Some b => if bool_decide (b = []) then Some None else Some <$> option_of (open b)
  | None => Some None
  end.
Definition credential_payload (dek : bytes) (vault_uuid sync_id_str : string) (r : EntryRow) (domains : list DomainPayload)
    : option CredentialPayload :=
  cred ← option_of (cred_parse (e_credential_type r));
  let identity := {| id_vault_uuid := vault_uuid; id_sync_id := sync_id_str; id_cred := cred |} in
  let open p b := open_entry_field_for_migration dek identity p b in
  title ← option_of (open EntryTitle (e_title r));
  username ← option_of (open EntryUsername (e_username r));
  password ← option_of (open EntryPassword (e_password r));
  url ← open_optional (open EntryUrl) (e_url r);
  notes ← open_optional (open EntryNotes) (e_notes r);
  Some {| cp_title := title; cp_username := username; cp_password := password; cp_credential_type := cred; cp_url := url;
          cp_notes := notes; cp_favorite := e_favorite r; cp_domains := domains; cp_created_at := e_created_at r;
          cp_modified_at := e_modified_at r |}.

(** [collect_pending_credential_blobs]. *)
Definition credential_blob (dek : bytes) (device_id : Uuid) (vault_uuid : string) (r : EntryRow) : M (option SyncEntryBlob) :=
  '(sync_id_str, id) ← lift (row_sync_id (e_sync r));
  _ ← verify_stored_row dek r (is_deleted (e_sync r));
  if is_deleted (e_sync r) then
    b ← create_tombstone_blob dek id TCredential (sync_version (e_sync r)) (e_modified_at r) device_id; mret (Some b)
  else
    domains ← query (load_domain_mappings dek vault_uuid (entry_id r));
    match credential_payload dek vault_uuid sync_id_str r domains with
    | None => mret None
    | Some payload =>
      encrypted ← seal_payload dek (to_vec payload);
      mret (Some {| b_sync_id := id; b_entry_type := TCredential; b_sync_version := i64_as_u64 (sync_version (e_sync r));
                    b_modified_at := e_modified_at r; b_encrypted_payload := encrypted; b_is_tombstone := false;
                    b_origin_device_id := device_id |})
    end.
Definition collect_pending_credential_blobs (dek : bytes) (device_id : Uuid) : M (list SyncEntryBlob) :=
  _ ← verify_snapshot dek;
  rows ← query (fun db => List.filter (fun r => is_pending (e_sync r)) (entries db));
  '(vault_uuid, _) ← read_local_identity;
  collect (credential_blob dek device_id vault_uuid) rows.

(** [collect_pending_ssh_key_blobs]: an unreadable key is skipped, an
    unreadable comment fails the collection. *)
Definition ssh_private_key (dek : bytes) (vault_uuid sync_id_str : string) (r : SshKeyRow) : Res string :=
  if is_envelope_blob (private_key_encrypted r)
  then open_object_field dek (Some vault_uuid) (Some sync_id_str) SshKey Secret (private_key_encrypted r)
  else decrypt_private_key dek (private_key_encrypted r) (s_nonce r) (s_auth_tag r).
Definition ssh_key_blob (dek : bytes) (device_id : Uuid) (vault_uuid : string) (r : SshKeyRow) : M (option SyncEntryBlob) :=
  '(sync_id_str, id) ← lift (row_sync_id (s_sync r));
  if is_deleted (s_sync r) then
    b ← create_tombstone_blob dek id TSshKey (sync_version (s_sync r)) (s_modified_at r) device_id; mret (Some b)
  else
    match ssh_private_key dek vault_uuid sync_id_str r with
    | Err _ => mret None
    | Ok private_key =>
      n ← draw_nonce;
      legacy ← lift (map_err Crypto (encrypt_string n dek private_key));
      comment ← lift (open_metadata_text_field dek (Some vault_uuid) (Some sync_id_str) SshKey Summary (s_comment r));
      encrypted ← seal_payload dek (to_vec {|
        sp_name := s_name r; sp_comment := comment; sp_key_type := s_key_type r; sp_key_size := s_key_size r;
        sp_public_key := s_public_key r; sp_private_key := private_key; sp_private_key_encrypted := Some (ee_ciphertext legacy);
        sp_legacy_nonce := Some (ee_nonce legacy); sp_legacy_auth_tag := Some (ee_auth_tag legacy);
        sp_fingerprint := s_fingerprint r; sp_created_at := s_created_at r; sp_modified_at := s_modified_at r |});
      mret (Some {| b_sync_id := id; b_entry_type := TSshKey; b_sync_version := i64_as_u64 (sync_version (s_sync r));
                    b_modified_at := s_modified_at r; b_encrypted_payload := encrypted; b_is_tombstone := false;
                    b_origin_device_id := device_id |})
    end.
Definition collect_pending_ssh_key_blobs (dek : bytes) (device_id : Uuid) : M (list SyncEntryBlob) :=
  rows ← query (fun db => List.filter (fun r => is_pending (s_sync r)) (ssh_keys db));
  '(vault_uuid, _) ← read_local_identity;
  collect (ssh_key_blob dek device_id vault_uuid) rows.

(** [collect_pending_totp_blobs]: the [u8] and [u32] columns are checked as
    they are read. *)
Definition totp_secret (dek : bytes) (vault_uuid sync_id_str : string) (r : TotpRow) : Res string :=
  if is_envelope_blob (secret_encrypted r)
  then open_object_field dek (Some vault_uuid) (Some sync_id_str) TotpSecret Secret (secret_encrypted r)
  else decrypt_totp_secret dek (secret_encrypted r) (t_nonce r) (t_auth_tag r).
Definition parent_sync_id (r : TotpRow) (db : LocalDb) : option string :=
  e ← List.find (fun e => entry_id e =? t_entry_id r) (entries db); sync_id (e_sync e).
Definition totp_blob (dek : bytes) (device_id : Uuid) (vault_uuid : string) (r : TotpRow) : M (option SyncEntryBlob) :=
  _ ← fail_if (bool_decide (sync_id (t_sync r) = None)) sqlite_error;
  _ ← fail_if (negb ((0 <=? t_digits r) && (t_digits r <? 2 ^ 8)) || negb ((0 <=? t_period r) && (t_period r <? 2 ^ 32))) sqlite_error;
  '(sync_id_str, id) ← lift (row_sync_id (t_sync r));
  if is_deleted (t_sync r) then
    b ← create_tombstone_blob dek id TTotpSecret (sync_version (t_sync r)) (t_created_at r) device_id; mret (Some b)
  else
    parent ← query (parent_sync_id r);
    match totp_secret dek vault_uuid sync_id_str r with
    | Err _ => mret None
    | Ok secret =>
      n ← draw_nonce;
      legacy ← lift (map_err Crypto (encrypt_string n dek secret));
      issuer ← lift (open_metadata_text_field dek (Some vault_uuid) (Some sync_id_str) TotpSecret TotpIssuer (t_issuer r));
      account_name ← lift (open_metadata_text_field dek (Some vault_uuid) (Some sync_id_str) TotpSecret TotpAccount (t_account_name r));
      encrypted ← seal_payload dek (to_vec {|
        tp_secret := secret; tp_secret_encrypted := Some (ee_ciphertext legacy); tp_legacy_nonce := Some (ee_nonce legacy);
        tp_legacy_auth_tag := Some (ee_auth_tag legacy); tp_algorithm := t_algorithm r; tp_digits := t_digits r;
        tp_period := t_period r; tp_issuer := issuer; tp_account_name := account_name; tp_created_at := t_created_at r;
        tp_parent_credential_sync_id := parent ≫= uuid_parse_str |});
      mret (Some {| b_sync_id := id; b_entry_type := TTotpSecret; b_sync_version := i64_as_u64 (sync_version (t_sync r));
                    b_modified_at := t_created_at r; b_encrypted_payload := encrypted; b_is_tombstone := false;
                    b_origin_device_id := device_id |})
    end.
Definition collect_pending_totp_blobs (dek : bytes) (device_id : Uuid) : M (list SyncEntryBlob) :=
  rows ← query (fun db => List.filter (fun r => is_pending (t_sync r)) (totp_secrets db));
  '(vault_uuid, _) ← read_local_identity;
  collect (totp_blob dek device_id vault_uuid) rows.
End Collect.

(** ** Statements on the table of an object type *)

(** [UPDATE {table} SET .. WHERE sync_id = ?]. *)
Definition update_sync (t : SyncEntryType) (id : string) (f : SyncCols -> SyncCols) (db : LocalDb) : LocalDb :=
  match t with
  | TCredential => {| db with entries :=
      update_where (fun r => has_sync_id id (e_sync r)) (fun r => {| r with e_sync := f (e_sync r) |}) (entries db) |}
  | TSshKey => {| db with ssh_keys :=
      update_where (fun r => has_sync_id id (s_sync r)) (fun r => {| r with s_sync := f (s_sync r) |}) (ssh_keys db) |}
  | TTotpSecret => {| db with totp_secrets :=
      update_where (fun r => has_sync_id id (t_sync r)) (fun r => {| r with t_sync := f (t_sync r) |}) (totp_secrets db) |}
  end.

(** The sync columns of the rows of a type. *)
Definition sync_rows (t : SyncEntryType) (db : LocalDb) : list SyncCols :=
  match t with
  | TCredential => List.map e_sync (entries db)
  | TSshKey => List.map s_sync (ssh_keys db)
  | TTotpSecret => List.map t_sync (totp_secrets db)
  end.
Definition find_sync (t : SyncEntryType) (id : string) (db : LocalDb) : option SyncCols :=
  List.find (has_sync_id id) (sync_rows t db).

(** [acked_version_for]. *)
Definition acked_version_for (id : string) (t : SyncEntryType) (db : LocalDb) : Z :=
  Z.max (match find_sync t id db with Some c => sync_acked_version c | None => 0 end) 0.

Record OutboxMutation := { om_mutation : MutationV2; om_object_id : Uuid; om_object_type : SyncEntryType }.
Definition MAX_PUSH_MUTATIONS : nat := 500.

Section Outbox.
Context `{Environment, Hmac, Sha256, HexDecode, UuidText, Base64, Base32, Aead}.
Context `{SerdeBytes AadContext, SerdeBytes EnvelopeDoc, SerdeBytes EntryTuple, SerdeBytes MappingTuple, SerdeBytes TagTuple}.
Context `{SerdeBytes CustodyTuple, SerdeBytes State, SerdeBytes Document}.
Context `{SerdeBytes CredentialPayload, SerdeBytes SshKeyPayload, SerdeBytes TotpPayload}.
Context `{Bincode EncryptedEntry}.

(** The loop of [collect_pending_mutations]. *)
Definition mutation_input (relay_vault_id : Uuid) (epoch : Z) (device_id : Uuid) (acked : Z) (b : SyncEntryBlob) : MutationInput := {|
  mi_vault_id := relay_vault_id; mi_object_id := b_sync_id b; mi_object_type := b_entry_type b;
  mi_expected_version := {| ov := acked |}; mi_resulting_version := {| ov := b_sync_version b |}; mi_key_epoch := epoch;
  mi_origin_device_id := device_id; mi_is_tombstone := b_is_tombstone b; mi_encrypted_payload := b_encrypted_payload b |}.
Fixpoint mutations_of (mac_key : bytes) (relay_vault_id : Uuid) (epoch : Z) (device_id : Uuid) (db : LocalDb) (l : list SyncEntryBlob)
    : Res (list OutboxMutation) :=
  match l with
  | [] => Ok []
  | b :: l =>
    let acked := acked_version_for (uuid_to_string (b_sync_id b)) (b_entry_type b) db in
    if b_sync_version b <=? acked then mutations_of mac_key relay_vault_id epoch device_id db l
    else
      m ← map_err Crypto (build_mutation mac_key (mutation_input relay_vault_id epoch device_id acked b));
      rest ← mutations_of mac_key relay_vault_id epoch device_id db l;
      Ok ({| om_mutation := m; om_object_id := b_sync_id b; om_object_type := b_entry_type b |} :: rest)
  end.

(** [collect_pending_mutations]. *)
Definition collect_pending_mutations (dek : bytes) (device_id relay_vault_id : Uuid) (epoch : Z) : M (list OutboxMutation) :=
  mac_key ← lift (map_err Crypto (derive_metadata_mac_key dek));
  credentials ← collect_pending_credential_blobs dek device_id;
  ssh ← collect_pending_ssh_key_blobs dek device_id;
  totp ← collect_pending_totp_blobs dek device_id;
  db ← query (fun db => db);
  lift (mutations_of mac_key relay_vault_id epoch device_id db (credentials ++ ssh ++ totp)).

(** ** Acknowledgements *)

Record AckSummary := { applied : Z; conflicts : Z; rejected : Z; suspicious_acks : Z }.
Definition no_acks : AckSummary := {| applied := 0; conflicts := 0; rejected := 0; suspicious_acks := 0 |}.

(** What one result does to the row of its mutation. *)
Definition ack_synced (version now : Z) (c : SyncCols) : SyncCols :=
  {| c with sync_state := Synced; sync_acked_version := version; last_synced_at := Some now |}.
Definition mark_conflict (c : SyncCols) : SyncCols := {| c with sync_state := Conflict |}.
Definition rebase_row (acked version : Z) (c : SyncCols) : SyncCols :=
  {| c with sync_state := Pending; sync_acked_version := Z.max (sync_acked_version c) acked;
            sync_version := Z.max (sync_version c) version |}.
Definition delete_alternatives (id : string) (version : Z) (db : LocalDb) : LocalDb :=
  {| db with sync_conflicts := match sync_conflicts db !! id with
       | Some r => if remote_version r <=? version then delete id (sync_conflicts db) else sync_conflicts db
       | None => sync_conflicts db end |}.
Definition apply_ack (now : Z) (o : OutboxMutation) (outcome : MutationOutcome) (s : AckSummary) (db : LocalDb) : AckSummary * LocalDb :=
  let id := uuid_to_string (om_object_id o) in
  let t := om_object_type o in
  let sent_resulting := ov (resulting_version (om_mutation o)) in
  match outcome with
  | Applied v _ =>
    if negb (ov v =? sent_resulting) then ({| s with suspicious_acks := suspicious_acks s + 1 |}, db)
    else
      let version := u64_as_i64 (ov v) in
      ({| s with applied := applied s + 1 |}, delete_alternatives id version (update_sync t id (ack_synced version now) db))
  | Rejected (VersionConflict current_version) =>
    let current := u64_as_i64 (ov current_version) in
    let sent := u64_as_i64 sent_resulting in
    ({| s with conflicts := conflicts s + 1 |},
     if sent <=? current then update_sync t id mark_conflict db
     else update_sync t id (rebase_row current (i64_wrap (sent + 1))) db)
  | Rejected _ => ({| s with rejected := rejected s + 1 |}, db)
  end.

(** The loop over the results: a result for a mutation that was not sent is
    ignored. *)
Fixpoint apply_acks (now : Z) (mutations : list OutboxMutation) (results : list MutationResult) (s : AckSummary) (db : LocalDb)
    : AckSummary * LocalDb :=
  match results with
  | [] => (s, db)
  | r :: results =>
    let '(s, db) :=
      match List.find (fun o => bool_decide (mutation_id (om_mutation o) = mr_mutation_id r)) mutations with
      | Some o => apply_ack now o (mr_outcome r) s db
      | None => (s, db)
      end in
    apply_acks now mutations results s db
  end.

(** [apply_push_acks]: one transaction, nothing in it can fail. *)
Definition set_push_cursor (cursor : Z) (db : LocalDb) : LocalDb :=
  let c := config_load db in config_save {| c with last_push_sequence := cursor |} db.
Definition apply_push_acks (now : Z) (mutations : list OutboxMutation) (results : list MutationResult) (server_cursor : Z)
    : M AckSummary :=
  db ← query (fun db => db);
  let '(s, db) := apply_acks now mutations results no_acks db in
  _ ← execute (fun _ => set_push_cursor server_cursor db);
  mret s.

(** [mark_entries_synced_in], [mark_entries_synced], [mark_tombstone_pushed],
    [count_pending_changes], [count_sync_conflicts]; the flag [pushed] of a
    tombstone is not part of the model, nothing reads it. *)
Definition mark_synced (now : Z) (c : SyncCols) : SyncCols := {| c with sync_state := Synced; last_synced_at := Some now |}.
Definition mark_entry_synced (now : Z) (db : LocalDb) (id : Uuid) : LocalDb :=
  let s := uuid_to_string id in
  update_sync TTotpSecret s (mark_synced now) (update_sync TSshKey s (mark_synced now) (update_sync TCredential s (mark_synced now) db)).
Definition mark_entries_synced (now : Z) (ids : list Uuid) : M unit :=
  execute (fun db => fold_left (mark_entry_synced now) ids db).
End Outbox.

Definition count_state (st : SyncState) (db : LocalDb) : Z :=
  Z.of_nat (length (List.filter (fun c => bool_decide (sync_state c = st))
    (sync_rows TCredential db ++ sync_rows TSshKey db ++ sync_rows TTotpSecret db))).
Definition count_pending_changes (db : LocalDb) : Z := count_state Pending db.
Definition count_sync_conflicts (db : LocalDb) : Z := Z.max (Z.of_nat (size (sync_conflicts db))) (count_state Conflict db).
