(* ===== verification/SyncApply.v ===== *)
(** * Core: applying what other devices changed ([sync/engine.rs], first part)

    A pulled mutation is applied to its local row under the conflict rules,
    its content sealed again under the identity of this vault. *)

From S2P Require Import Prelude Text ThirdParty Aad Envelope Keyring CoreError EnvelopeOps SyncWire DomainTags KeySlots VaultKeys LocalDb ContentGuard Registry Entries DomainOps Totp SyncModels SyncOutbox.
From Stdlib Require Import ZArith Lia Strings.String Strings.Byte.
From stdpp Require Import base list option strings numbers gmap.
From S2P Require Import Text.
Open Scope Z_scope.

(** [as i32] of a [u32]. *)
Definition u32_as_i32 (z : Z) : Z := if z <? 2 ^ 31 then z else z - 2 ^ 32.

(** [format!("{:?}", entry_type)] and [parse_object_type]. *)
Definition type_debug (t : SyncEntryType) : string :=
  match t with TCredential => "Credential" | TSshKey => "SshKey" | TTotpSecret => "TotpSecret" end.
Definition parse_object_type (s : string) : Res SyncEntryType :=
  if String.eqb s "Credential" then Ok TCredential
  else if String.eqb s "SshKey" then Ok TSshKey
  else if String.eqb s "TotpSecret" then Ok TTotpSecret
  else Err (InvalidInput ("unknown sync object type " +:+ s)).

(** [ExistingLocalRow], and the query that fills it. *)
Record ExistingLocalRow := { lr_id : Z; lr_version : Z; lr_modified : Z; lr_state : SyncState }.
Definition existing_of (id modified : Z) (c : SyncCols) : ExistingLocalRow :=
  {| lr_id := id; lr_version := sync_version c; lr_modified := modified; lr_state := sync_state c |}.
Definition find_local (t : SyncEntryType) (sid : string) (db : LocalDb) : option ExistingLocalRow :=
  match t with
  | TCredential => (fun r => existing_of (entry_id r) (e_modified_at r) (e_sync r)) <$>
      List.find (fun r => has_sync_id sid (e_sync r)) (entries db)
  | TSshKey => (fun r => existing_of (key_id r) (s_modified_at r) (s_sync r)) <$>
      List.find (fun r => has_sync_id sid (s_sync r)) (ssh_keys db)
  | TTotpSecret => (fun r => existing_of (totp_id r) (t_created_at r) (t_sync r)) <$>
      List.find (fun r => has_sync_id sid (t_sync r)) (totp_secrets db)
  end.

(** The tombstone statements of the three tables. *)
Definition update_by_id (t : SyncEntryType) (id : Z) (f : SyncCols -> SyncCols) (db : LocalDb) : LocalDb :=
  match t with
  | TCredential => {| db with entries :=
      update_where (fun r => entry_id r =? id) (fun r => {| r with e_sync := f (e_sync r) |}) (entries db) |}
  | TSshKey => {| db with ssh_keys :=
      update_where (fun r => key_id r =? id) (fun r => {| r with s_sync := f (s_sync r) |}) (ssh_keys db) |}
  | TTotpSecret => {| db with totp_secrets :=
      update_where (fun r => totp_id r =? id) (fun r => {| r with t_sync := f (t_sync r) |}) (totp_secrets db) |}
  end.
Definition tombstoned (version now : Z) (c : SyncCols) : SyncCols :=
  {| c with is_deleted := true; deleted_at := Some now; sync_version := version; sync_acked_version := version;
            sync_state := Synced; last_synced_at := Some now |}.

(** What an applied payload leaves in the sync columns: the row is live and in
    step with the relay. *)
Definition landed (version now : Z) (c : SyncCols) : SyncCols :=
  {| c with sync_version := version; sync_acked_version := version; sync_state := Synced; last_synced_at := Some now;
            is_deleted := false; deleted_at := None |}.
Definition new_landed (sid : string) (version now : Z) : SyncCols := {|
  sync_id := Some sid; sync_version := version; sync_acked_version := version; sync_state := Synced;
  last_synced_at := Some now; is_deleted := false; deleted_at := None |}.

(** [record_conflict]: the latest alternative wins. *)
Definition record_conflict `{UuidText} (now : Z) (b : SyncEntryBlob) (db : LocalDb) : LocalDb :=
  {| db with sync_conflicts := <[uuid_to_string (b_sync_id b) := {|
       cf_object_type := type_debug (b_entry_type b); remote_version := u64_as_i64 (b_sync_version b);
       remote_payload := b_encrypted_payload b; cf_origin_device_id := uuid_to_string (b_origin_device_id b);
       cf_is_tombstone := b_is_tombstone b; cf_received_at := now |}]> (sync_conflicts db) |}.

(** [apply_existing_preamble]: [true] when nothing is left to do. *)
Definition unsynced (s : SyncState) : bool := match s with Synced => false | _ => true end.
Definition apply_existing_preamble `{UuidText} (now : Z) (local : ExistingLocalRow) (b : SyncEntryBlob) (t : SyncEntryType) : M bool :=
  if unsynced (lr_state local) && (i64_as_u64 (lr_version local) <=? b_sync_version b) then
    _ ← execute (record_conflict now b);
    _ ← execute (update_sync t (uuid_to_string (b_sync_id b)) mark_conflict);
    mret true
  else if bool_decide (resolve (i64_as_u64 (lr_version local)) (lr_modified local) b = KeepLocal) then mret true
  else if b_is_tombstone b then
    _ ← execute (update_by_id t (lr_id local) (tombstoned (u64_as_i64 (b_sync_version b)) now));
    mret true
  else mret false.

(** [skip_new_entry]. *)
Definition skip_new_entry (b : SyncEntryBlob) : bool := b_is_tombstone b || negb (accept_new b).

(** [resolve_sync_secret]. *)
Definition resolve_sync_secret (plaintext : string) (legacy_ct legacy_nonce legacy_auth_tag : option bytes)
    (decrypt_v1 : bytes -> bytes -> bytes -> Res string) : Res string :=
  if negb (String.eqb plaintext "") then Ok plaintext
  else match legacy_ct, legacy_nonce, legacy_auth_tag with
       | Some ct, Some nonce, Some tag => decrypt_v1 ct nonce tag
       | _, _, _ => Err (InvalidInput "sync payload carries neither the current plaintext field nor the complete legacy secret shape")
       end.

(** [blob_from_log_mutation]. *)
Definition blob_from_log_mutation (m : MutationV2) : SyncEntryBlob := {|
  b_sync_id := object_id m; b_entry_type := object_type m; b_sync_version := ov (resulting_version m); b_modified_at := 0;
  b_encrypted_payload := encrypted_payload m; b_is_tombstone := SyncWire.is_tombstone m; b_origin_device_id := origin_device_id m |}.

(** The parent of a one-time code: [SELECT entry_id FROM entries WHERE sync_id]. *)
Definition entry_of_sync_id (sid : string) (db : LocalDb) : option Z :=
  entry_id <$> List.find (fun r => has_sync_id sid (e_sync r)) (entries db).

Section Apply.
Context `{Environment, Hmac, Sha256, HexDecode, UuidText, Base64, Base32, Aead, UrlParse}.
Context `{SerdeBytes AadContext, SerdeBytes EnvelopeDoc, SerdeBytes EntryTuple, SerdeBytes MappingTuple, SerdeBytes TagTuple}.
Context `{SerdeBytes CustodyTuple, SerdeBytes State, SerdeBytes Document}.
Context `{SerdeBytes CredentialPayload, SerdeBytes SshKeyPayload, SerdeBytes TotpPayload}.
Context `{Bincode EncryptedEntry, BincodeSer EncryptedEntry, BincodeSer bytes}.

(** [decrypt_sync_payload]. *)
Definition decrypt_sync_payload {T} `{SerdeBytes T} (dek : bytes) (b : SyncEntryBlob) : Res T :=
  json ← map_err Crypto (decrypt_from_sync dek (b_encrypted_payload b));
  ok_or (from_slice json) (Database Serialization).

(** [seal_totp_identity_metadata]. *)
Definition seal_totp_identity_metadata (dek : bytes) (vault_uuid sid : string) (issuer account_name : option string) (epoch : Z)
    : M (option bytes * option bytes) :=
  issuer_blob ← seal_opt (fun c => seal_field dek vault_uuid sid TotpSecret TotpIssuer c epoch) issuer;
  account_blob ← seal_opt (fun c => seal_field dek vault_uuid sid TotpSecret TotpAccount c epoch) account_name;
  mret (issuer_blob, account_blob).

(** [prepare_credential_blobs]; the legacy columns are the zeroed ones. *)
Definition prepare_credential_blobs (dek : bytes) (p : CredentialPayload) (sid : string) : M SealedEntryFields :=
  '(vault_uuid, epoch) ← read_local_identity;
  let seal pu text := seal_field dek vault_uuid sid (envelope_object_type (cp_credential_type p)) pu text epoch in
  title ← seal EntryTitle (cp_title p);
  username ← seal EntryUsername (cp_username p);
  password ← seal EntryPassword (cp_password p);
  url ← seal_opt (seal EntryUrl) (cp_url p);
  notes ← seal_opt (seal EntryNotes) (cp_notes p);
  mret {| sf_title := title; sf_username := username; sf_password := password; sf_url := url; sf_notes := notes |}.

(** ** Credentials *)

Fixpoint insert_mappings (ctx : MappingSealCtx) (entry : Z) (l : list DomainPayload) : M unit :=
  match l with
  | [] => mret tt
  | d :: l => _ ← insert_sealed_domain_mapping ctx entry (dp_domain d) (dp_is_primary d); insert_mappings ctx entry l
  end.

(** The equality index is written as far as possible; a failure asks for a
    sweep. *)
Definition index_best_effort (dek : bytes) (entry : Z) (p : CredentialPayload) (now : Z) : M unit :=
  r ← try (upsert_equality_tag dek entry (cp_credential_type p) (cp_password p) now);
  match r with
  | Ok _ => mret tt
  | Err _ => execute mark_backfill_needed
  end.

(** The UPDATE of a row that exists and the INSERT of one that does not. *)
Definition write_entry (f : SealedEntryFields) (p : CredentialPayload) (version now : Z) (r : EntryRow) : EntryRow :=
  let '(nonce_blob, auth_tag_blob) := zeroed_legacy_v1_columns in {|
    entry_id := entry_id r; e_title := sf_title f; e_username := sf_username f; e_password := sf_password f; e_url := sf_url f;
    e_notes := sf_notes f; e_credential_type := cred_str (cp_credential_type p); entry_nonce := nonce_blob;
    e_auth_tag := auth_tag_blob; e_created_at := e_created_at r; e_modified_at := cp_modified_at p;
    e_favorite := cp_favorite p; e_sync := landed version now (e_sync r) |}.
Definition new_entry (id : Z) (sid : string) (f : SealedEntryFields) (p : CredentialPayload) (version now : Z) : EntryRow :=
  let '(nonce_blob, auth_tag_blob) := zeroed_legacy_v1_columns in {|
    entry_id := id; e_title := sf_title f; e_username := sf_username f; e_password := sf_password f; e_url := sf_url f;
    e_notes := sf_notes f; e_credential_type := cred_str (cp_credential_type p); entry_nonce := nonce_blob;
    e_auth_tag := auth_tag_blob; e_created_at := cp_created_at p; e_modified_at := cp_modified_at p;
    e_favorite := cp_favorite p; e_sync := new_landed sid version now |}.

(** [apply_credential]; the lookup just before the INSERT found no row with
    the id, so the unique index does not refuse it. *)
Definition apply_credential (now : Z) (dek : bytes) (b : SyncEntryBlob) : M unit :=
  let sid := uuid_to_string (b_sync_id b) in
  let version := u64_as_i64 (b_sync_version b) in
  '(vault_uuid, epoch) ← read_local_identity;
  tag_key ← lift (map_err Crypto (derive_domain_tag_key dek));
  let ctx := {| mx_dek := dek; mx_vault_uuid := vault_uuid; mx_epoch := epoch; mx_tag_key := tag_key |} in
  local ← query (find_local TCredential sid);
  match local with
  | Some local =>
    finished ← apply_existing_preamble now local b TCredential;
    if (finished : bool) then
      gone ← query (fun db => existsb (fun r => (entry_id r =? lr_id local) && is_deleted (e_sync r)) (entries db));
      if (gone : bool) then execute (purge_registry_rows (lr_id local)) else mret tt
    else
      p ← lift (decrypt_sync_payload (T := CredentialPayload) dek b);
      f ← prepare_credential_blobs dek p sid;
      _ ← execute (fun db => {| db with entries :=
            update_where (fun r => entry_id r =? lr_id local) (write_entry f p version now) (entries db) |});
      _ ← execute (delete_mappings (lr_id local));
      _ ← insert_mappings ctx (lr_id local) (cp_domains p);
      index_best_effort dek (lr_id local) p now
  | None =>
    if skip_new_entry b then mret tt
    else
      p ← lift (decrypt_sync_payload (T := CredentialPayload) dek b);
      f ← prepare_credential_blobs dek p sid;
      id ← query (fun db => autoincrement entry_id (entries_seq db) (entries db));
      _ ← execute (fun db => {| db with entries := entries db ++ [new_entry id sid f p version now]; entries_seq := id |});
      _ ← insert_mappings ctx id (cp_domains p);
      index_best_effort dek id p now
  end.

(** ** SSH keys *)

Definition seal_ssh (dek : bytes) (vault_uuid sid : string) (epoch : Z) (p : SshKeyPayload) : M (bytes * option bytes) :=
  private_key ← lift (resolve_sync_secret (sp_private_key p) (sp_private_key_encrypted p) (sp_legacy_nonce p) (sp_legacy_auth_tag p)
                  (decrypt_private_key dek));
  key_blob ← seal_field dek vault_uuid sid SshKey Secret private_key epoch;
  comment_blob ← seal_opt (fun c => seal_field dek vault_uuid sid SshKey Summary c epoch) (sp_comment p);
  mret (key_blob, comment_blob).
Definition write_ssh_key (key_blob : bytes) (comment_blob : option bytes) (p : SshKeyPayload) (id created : Z) (c : SyncCols) : SshKeyRow :=
  let '(nonce_blob, auth_tag_blob) := zeroed_legacy_v1_columns in {|
    key_id := id; s_name := sp_name p; s_comment := VBlob <$> comment_blob; s_key_type := sp_key_type p;
    s_key_size := sp_key_size p; s_public_key := sp_public_key p; private_key_encrypted := key_blob; s_nonce := nonce_blob;
    s_auth_tag := auth_tag_blob; s_fingerprint := sp_fingerprint p; s_created_at := created; s_modified_at := sp_modified_at p;
    s_sync := c |}.

(** [apply_ssh_key]. *)
Definition apply_ssh_key (now : Z) (dek : bytes) (b : SyncEntryBlob) : M unit :=
  let sid := uuid_to_string (b_sync_id b) in
  let version := u64_as_i64 (b_sync_version b) in
  '(vault_uuid, epoch) ← read_local_identity;
  local ← query (find_local TSshKey sid);
  match local with
  | Some local =>
    finished ← apply_existing_preamble now local b TSshKey;
    if (finished : bool) then mret tt
    else
      p ← lift (decrypt_sync_payload (T := SshKeyPayload) dek b);
      '(key_blob, comment_blob) ← seal_ssh dek vault_uuid sid epoch p;
      execute (fun db => {| db with ssh_keys := update_where (fun r => key_id r =? lr_id local)
        (fun r => write_ssh_key key_blob comment_blob p (key_id r) (s_created_at r) (landed version now (s_sync r))) (ssh_keys db) |})
  | None =>
    if skip_new_entry b then mret tt
    else
      p ← lift (decrypt_sync_payload (T := SshKeyPayload) dek b);
      '(key_blob, comment_blob) ← seal_ssh dek vault_uuid sid epoch p;
      execute (fun db =>
        let id := autoincrement key_id (ssh_keys_seq db) (ssh_keys db) in
        {| db with ssh_keys := ssh_keys db ++ [write_ssh_key key_blob comment_blob p id (sp_created_at p) (new_landed sid version now)];
                   ssh_keys_seq := id |})
  end.

(** ** One-time code secrets *)

Definition seal_totp (dek : bytes) (vault_uuid sid : string) (epoch : Z) (p : TotpPayload) : M (bytes * option bytes * option bytes) :=
  secret ← lift (resolve_sync_secret (tp_secret p) (tp_secret_encrypted p) (tp_legacy_nonce p) (tp_legacy_auth_tag p)
             (decrypt_totp_secret dek));
  secret_blob ← seal_field dek vault_uuid sid TotpSecret Secret secret epoch;
  '(issuer_blob, account_blob) ← seal_totp_identity_metadata dek vault_uuid sid (tp_issuer p) (tp_account_name p) epoch;
  mret (secret_blob, issuer_blob, account_blob).
Definition write_totp (blobs : bytes * option bytes * option bytes) (p : TotpPayload) (id entry created : Z) (c : SyncCols) : TotpRow :=
  let '(secret_blob, issuer_blob, account_blob) := blobs in
  let '(nonce_blob, auth_tag_blob) := zeroed_legacy_v1_columns in {|
    totp_id := id; t_entry_id := entry; secret_encrypted := secret_blob; t_nonce := nonce_blob; t_auth_tag := auth_tag_blob;
    t_algorithm := tp_algorithm p; t_digits := tp_digits p; t_period := u32_as_i32 (tp_period p);
    t_issuer := VBlob <$> issuer_blob; t_account_name := VBlob <$> account_blob; t_created_at := created; t_sync := c |}.
Definition parent_entry (p : TotpPayload) (db : LocalDb) : option Z :=
  pid ← tp_parent_credential_sync_id p; entry_of_sync_id (uuid_to_string pid) db.
Definition no_parent (sid : string) : PasswordManagerError :=
  SyncDeferred ("TOTP " +:+ sid +:+ ": parent credential not present locally yet").

(** [apply_totp]: the unique index on [entry_id] may refuse the row. *)
Definition apply_totp (now : Z) (dek : bytes) (b : SyncEntryBlob) : M unit :=
  let sid := uuid_to_string (b_sync_id b) in
  let version := u64_as_i64 (b_sync_version b) in
  '(vault_uuid, epoch) ← read_local_identity;
  local ← query (find_local TTotpSecret sid);
  match local with
  | Some local =>
    finished ← apply_existing_preamble now local b TTotpSecret;
    if (finished : bool) then mret tt
    else
      p ← lift (decrypt_sync_payload (T := TotpPayload) dek b);
      blobs ← seal_totp dek vault_uuid sid epoch p;
      parent ← query (parent_entry p);
      entry ← lift (ok_or parent (no_parent sid));
      execute_res (fun db =>
        _ ← err_if (existsb (fun r => (t_entry_id r =? entry) && negb (totp_id r =? lr_id local)) (totp_secrets db)) sqlite_error;
        Ok {| db with totp_secrets := update_where (fun r => totp_id r =? lr_id local)
          (fun r => write_totp blobs p (totp_id r) entry (t_created_at r) (landed version now (t_sync r))) (totp_secrets db) |})
  | None =>
    if skip_new_entry b then mret tt
    else
      p ← lift (decrypt_sync_payload (T := TotpPayload) dek b);
      blobs ← seal_totp dek vault_uuid sid epoch p;
      parent ← query (parent_entry p);
      entry ← lift (ok_or parent (no_parent sid));
      execute_res (fun db =>
        _ ← err_if (existsb (fun r => t_entry_id r =? entry) (totp_secrets db)) sqlite_error;
        let id := autoincrement totp_id (totp_seq db) (totp_secrets db) in
        Ok {| db with totp_secrets := totp_secrets db ++ [write_totp blobs p id entry (tp_created_at p) (new_landed sid version now)];
                      totp_seq := id |})
  end.

(** [apply_remote_entry_in_tx], [apply_remote_entry]. *)
Definition apply_remote_entry_in_tx (now : Z) (dek : bytes) (b : SyncEntryBlob) : M unit :=
  match b_entry_type b with
  | TCredential => apply_credential now dek b
  | TSshKey => apply_ssh_key now dek b
  | TTotpSecret => apply_totp now dek b
  end.
Definition apply_remote_entry (now : Z) (dek : bytes) (b : SyncEntryBlob) : M unit :=
  content_tx dek (apply_remote_entry_in_tx now dek b).
End Apply.

#[global] Arguments apply_remote_entry_in_tx : simpl never.
