(* ===== verification/SyncEngine.v ===== *)
(** * Core: a sync run ([sync/engine.rs], second part; [vault/sync_ops.rs])

    Push, the pull loop and its page transaction, and the two ways a conflict
    is resolved.  The transport is a parameter: a call may return anything and
    may change the world, since the database is not locked while it runs. *)

From S2P Require Import Prelude Text ThirdParty Aad Envelope Keyring CoreError EnvelopeOps SyncWire DomainTags KeySlots VaultKeys LocalDb ContentGuard Registry Entries DomainOps Totp SyncModels SyncOutbox SyncApply.
From Stdlib Require Import ZArith Lia Strings.String Strings.Byte.
From stdpp Require Import base list option strings numbers gmap.
From S2P Require Import Text SyncWire.
Open Scope Z_scope.

(** [SyncTransport] ([sync/client.rs]). *)
Class SyncTransport := {
  push_v2 : PushRequestV2 -> M PushResponseV2;
  pull_v2 : PullRequestV2 -> M PullResponseV2;
}.

(** [PasswordManagerError::to_string]. *)
Class ErrorText := error_text : PasswordManagerError -> string.

Record SyncStatus := {
  st_enabled : bool;
  st_device_id : option Uuid;
  st_device_name : option string;
  st_relay_url : option string;
  st_last_sync_at : option Z;
  pending_changes : Z;
  conflict_count : Z;
}.

Definition MAX_DEAD_LETTER : Z := 1000.

(** [dead_letter_entry]: the server sequence is the key of the table. *)
Definition entry_sequence (e : MutationLogEntry) : Z := u64_as_i64 (sc (server_sequence e)).
Definition dead_letter_entry `{UuidText} (now : Z) (e : MutationLogEntry) (reason : string) : M unit :=
  execute_res (fun db =>
    _ ← err_if (bool_decide (is_Some (sync_dead_letter db !! entry_sequence e))) sqlite_error;
    Ok {| db with sync_dead_letter := <[entry_sequence e := {|
      dl_mutation_id := uuid_to_string (mutation_id (mutation e)); dl_object_id := uuid_to_string (object_id (mutation e));
      dl_object_type := type_debug (object_type (mutation e)); dl_reason := reason; dl_received_at := now |}]> (sync_dead_letter db) |}).

(** [slice::chunks]; each round takes at least one element. *)
Fixpoint chunks_fuel {A} (fuel n : nat) (l : list A) : list (list A) :=
  match fuel, l with
  | S fuel, _ :: _ => take n l :: chunks_fuel fuel n (drop n l)
  | _, _ => []
  end.
Definition chunks {A} (n : nat) (l : list A) : list (list A) := chunks_fuel (length l) n l.

(** The greatest server sequence of a page. *)
Definition observed_max (l : list MutationLogEntry) : Z := fold_left (fun m e => Z.max m (sc (server_sequence e))) l 0.

(** The verdict on a foreign mutation before it is applied; [None] when it is
    authentic and current. *)
Definition auth_failed : string := "metadata authentication failed (relay tamper suspected)".
Definition id_mismatch : string := "mutation id does not match its content coordinates".
Definition stale_epoch (epoch local_epoch : Z) : string :=
  "mutation epoch " +:+ i64_display epoch +:+ " is below the local vault epoch " +:+ i64_display local_epoch.
Definition refuse_mutation `{Sha256, Hmac} (mac_key : bytes) (local_epoch : Z) (m : MutationV2) : Res (option string) :=
  authentic ← map_err Crypto (verify_mutation_mac mac_key m);
  Ok (if negb authentic then Some auth_failed
      else if negb (bool_decide (mutation_id m = mutation_id_for (SyncWire.vault_id m) (object_id m) (resulting_version m)))
      then Some id_mismatch
      else if key_epoch m <? local_epoch then Some (stale_epoch (key_epoch m) local_epoch)
      else None).

Section Engine.
Context `{Environment, Hmac, Sha256, HexDecode, UuidText, Base64, Base32, Aead, UrlParse}.
Context `{SerdeBytes AadContext, SerdeBytes EnvelopeDoc, SerdeBytes EntryTuple, SerdeBytes MappingTuple, SerdeBytes TagTuple}.
Context `{SerdeBytes CustodyTuple, SerdeBytes State, SerdeBytes Document}.
Context `{SerdeBytes CredentialPayload, SerdeBytes SshKeyPayload, SerdeBytes TotpPayload}.
Context `{Bincode EncryptedEntry, BincodeSer EncryptedEntry, BincodeSer bytes}.
Context `{SyncTransport, ErrorText}.

(** ** The pull page *)

(** One entry of the page; [Some] when it has to wait for its parent. *)
Definition pull_entry (now : Z) (dek : bytes) (device_id : Uuid) (mac_key : bytes) (local_epoch : Z) (e : MutationLogEntry)
    : M (option string) :=
  if bool_decide (origin_device_id (mutation e) = device_id) then mret None
  else
    refused ← lift (refuse_mutation mac_key local_epoch (mutation e));
    match refused with
    | Some reason => _ ← dead_letter_entry now e reason; mret None
    | None =>
      r ← try (transaction (apply_remote_entry_in_tx now dek (blob_from_log_mutation (mutation e))));
      match r with
      | Ok _ => mret None
      | Err (SyncDeferred reason) => mret (Some reason)
      | Err err => _ ← dead_letter_entry now e (error_text err); mret None
      end
    end.
Fixpoint pull_entries (now : Z) (dek : bytes) (device_id : Uuid) (mac_key : bytes) (local_epoch : Z) (l : list MutationLogEntry)
    : M (list (MutationLogEntry * string)) :=
  match l with
  | [] => mret []
  | e :: l =>
    r ← pull_entry now dek device_id mac_key local_epoch e;
    deferred ← pull_entries now dek device_id mac_key local_epoch l;
    mret (match r with Some reason => (e, reason) :: deferred | None => deferred end)
  end.

(** The one pass over what had to wait. *)
Fixpoint requeue (now : Z) (dek : bytes) (l : list (MutationLogEntry * string)) : M unit :=
  match l with
  | [] => mret tt
  | (e, reason) :: l =>
    r ← try (transaction (apply_remote_entry_in_tx now dek (blob_from_log_mutation (mutation e))));
    _ ← match r with
        | Ok _ => mret tt
        | Err other => dead_letter_entry now e ("unresolved after one requeue pass: " +:+ reason +:+ " (" +:+ error_text other +:+ ")")
        end;
    requeue now dek l
  end.

(** The body of the page transaction: applies, dispositions and the cursor. *)
Definition advance (response : PullResponseV2) (c : SyncConfig) : SyncConfig :=
  {| c with last_pull_sequence := sc (pl_cursor response);
            lineage_high_water := Z.max (lineage_high_water c) (observed_max (pl_entries response)) |}.
Definition page_body (now : Z) (dek : bytes) (device_id : Uuid) (response : PullResponseV2) : M Z :=
  mac_key ← lift (map_err Crypto (derive_metadata_mac_key dek));
  '(_, local_epoch) ← read_local_identity;
  deferred ← pull_entries now dek device_id mac_key local_epoch (pl_entries response);
  _ ← requeue now dek deferred;
  dead_lettered ← query (fun db => Z.of_nat (size (sync_dead_letter db)));
  _ ← fail_if (MAX_DEAD_LETTER <? dead_lettered) (InvalidInput "sync dead-letter exceeded its bound");
  config ← query (fun db => advance response (config_load db));
  _ ← execute (config_save config);
  mret (lineage_high_water config).

(** [pull_changes]: [None] when the fuel ends before the loop does. *)
Definition pull_request (cursor : Z) : PullRequestV2 := {| since := {| sc := cursor |}; limit := Some 500 |}.
Definition no_progress : PasswordManagerError := InvalidInput "Relay pull cursor did not advance".
Definition lineage_backwards (cursor high_water : Z) : PasswordManagerError :=
  InvalidInput ("relay lineage moved backwards: cursor " +:+ i64_display cursor +:+ " is below the trusted high-water "
    +:+ i64_display high_water).
Fixpoint pull_loop (fuel : nat) (now : Z) (dek : bytes) (device_id : Uuid) (cursor high_water total : Z) : M (option Z) :=
  match fuel with
  | O => mret None
  | S fuel =>
    response ← pull_v2 (pull_request cursor);
    match pl_entries response with
    | [] => mret (Some total)
    | _ :: _ =>
      let next := sc (pl_cursor response) in
      _ ← fail_if (next <=? cursor) no_progress;
      _ ← fail_if (next <? high_water) (lineage_backwards next high_water);
      let total := total + Z.of_nat (length (pl_entries response)) in
      high_water ← content_tx dek (page_body now dek device_id response);
      if pl_has_more response then pull_loop fuel now dek device_id next high_water total else mret (Some total)
    end
  end.
Definition pull_changes (fuel : nat) (now : Z) (dek : bytes) (device_id : Uuid) : M (option Z) :=
  config ← query config_load;
  pull_loop fuel now dek device_id (last_pull_sequence config) (lineage_high_water config) 0.

(** ** Push *)

(** [push_changes]; the sequence number is only diagnostic. *)
Fixpoint push_chunks (now : Z) (sequence : DeviceSequence) (l : list (list OutboxMutation)) : M unit :=
  match l with
  | [] => mret tt
  | chunk :: l =>
    response ← push_v2 {| pq_device_sequence := sequence; pq_mutations := List.map om_mutation chunk |};
    _ ← apply_push_acks now chunk (pr_results response) (sc (pr_server_cursor response));
    push_chunks now sequence l
  end.
Definition push_changes (now : Z) (dek : bytes) (device_id : Uuid) : M Z :=
  config ← query config_load;
  relay_vault_id ← lift (ok_or (cfg_vault_id config) (InvalidInput "Sync vault ID missing"));
  '(_, epoch) ← read_local_identity;
  mutations ← collect_pending_mutations dek device_id relay_vault_id epoch;
  _ ← push_chunks now {| ds := (last_push_sequence config + 1) mod 2 ^ 64 |} (chunks MAX_PUSH_MUTATIONS mutations);
  mret (Z.of_nat (length mutations)).

(** ** A run *)

(** [get_sync_status] and the end of [sync]; the checkpoint of the WAL is not
    part of the model. *)
Definition sync_status (db : LocalDb) : SyncStatus :=
  let c := config_load db in {|
    st_enabled := sync_enabled c; st_device_id := cfg_device_id c; st_device_name := cfg_device_name c; st_relay_url := relay_url c;
    st_last_sync_at := last_sync_at c; pending_changes := count_pending_changes db; conflict_count := count_sync_conflicts db |}.
Definition get_sync_status : M SyncStatus := query sync_status.

(** [sync]: [None] as in [pull_changes]. *)
Definition mixed_protocol : PasswordManagerError :=
  InvalidInput "this vault's sync configuration predates sync protocol v2".
Definition sync (fuel : nat) (now : Z) (dek : bytes) (device_id : Uuid) : M (option SyncStatus) :=
  config ← query config_load;
  _ ← fail_if (sync_enabled config && negb (protocol_version config =? SYNC_PROTOCOL_VERSION)) mixed_protocol;
  _ ← push_changes now dek device_id;
  pulled ← pull_changes fuel now dek device_id;
  match pulled with
  | None => mret None
  | Some _ =>
    _ ← execute (fun db => let c := config_load db in config_save {| c with last_sync_at := Some now |} db);
    s ← get_sync_status;
    mret (Some s)
  end.

(** ** Conflicts *)

Record ConflictAlternative := { alt_type : SyncEntryType; alt_version : Z; alt_payload : bytes; alt_origin : Uuid; alt_tombstone : bool }.

(** [resolve_conflict_keep_local]. *)
Definition drop_conflict (id : string) (db : LocalDb) : LocalDb := {| db with sync_conflicts := delete id (sync_conflicts db) |}.
Definition keep_local_row (version : Z) (c : SyncCols) : SyncCols :=
  {| c with sync_state := Pending; sync_acked_version := Z.max (sync_acked_version c) (u64_as_i64 version);
            sync_version := Z.max (sync_version c) (u64_as_i64 (Z.min (version + 1) (2 ^ 64 - 1))) |}.
Definition resolve_conflict_keep_local (object_id : Uuid) (t : SyncEntryType) (version : Z) : M unit :=
  transaction (
    _ ← execute (update_sync t (uuid_to_string object_id) (keep_local_row version));
    execute (drop_conflict (uuid_to_string object_id))).

(** [resolve_conflict_take_remote]. *)
Definition below_remote (version : Z) (c : SyncCols) : SyncCols :=
  {| c with sync_state := Synced; sync_version := Z.min (sync_version c) (u64_as_i64 (Z.max (version - 1) 0)) |}.
Definition alternative_blob (object_id : Uuid) (a : ConflictAlternative) : SyncEntryBlob := {|
  b_sync_id := object_id; b_entry_type := alt_type a; b_sync_version := alt_version a; b_modified_at := 0;
  b_encrypted_payload := alt_payload a; b_is_tombstone := alt_tombstone a; b_origin_device_id := alt_origin a |}.
Definition resolve_conflict_take_remote (now : Z) (dek : bytes) (object_id : Uuid) (a : ConflictAlternative) : M unit :=
  content_tx dek (
    _ ← execute (update_sync (alt_type a) (uuid_to_string object_id) (below_remote (alt_version a)));
    _ ← apply_remote_entry_in_tx now dek (alternative_blob object_id a);
    execute (drop_conflict (uuid_to_string object_id))).

(** [VaultManager::resolve_sync_conflict]; an origin that does not parse reads
    as the nil UUID. *)
Definition resolve_sync_conflict (s : Session) (now : Z) (object_id : Uuid) (take_remote : bool) : M unit :=
  row ← query (fun db => sync_conflicts db !! uuid_to_string object_id);
  match row with
  | None => fail (NotFound ("no stored conflict for object " +:+ uuid_to_string object_id))
  | Some r =>
    t ← lift (parse_object_type (cf_object_type r));
    let version := i64_as_u64 (remote_version r) in
    if take_remote then
      dek ← lift (session_dek s);
      resolve_conflict_take_remote now dek object_id {| alt_type := t; alt_version := version; alt_payload := remote_payload r;
        alt_origin := default (from_u128 0) (uuid_parse_str (cf_origin_device_id r)); alt_tombstone := cf_is_tombstone r |}
    else resolve_conflict_keep_local object_id t version
  end.
End Engine.
