(* ===== verification/SyncFacts.v ===== *)
(** * Core: what a pull page does to the vault

    A page is a run of whole applications and dead letters; local edits that
    were not pushed yet survive it. *)

From S2P Require Import Prelude Text ThirdParty Aad Envelope Keyring CoreError EnvelopeOps SyncWire DomainTags KeySlots VaultKeys LocalDb ContentGuard ContentFacts Registry Entries EntriesFacts DomainOps Totp SyncModels SyncOutbox SyncApply SyncEngine.
From Stdlib Require Import ZArith Lia Strings.String Strings.Byte.
From stdpp Require Import base list option strings numbers gmap.
From S2P Require Import Text SyncWire.
Open Scope Z_scope.

(** ** Computations that respect a relation on the database *)

Class Respects (R : LocalDb -> LocalDb -> Prop) {A} (m : M A) : Prop :=
  respects w : R (w_db w) (w_db (m w).2).

Section Respects.
Context (R : LocalDb -> LocalDb -> Prop) `{!PreOrder R}.
#[export] Instance respects_ret {A} (a : A) : Respects R (mret a : M A).
Proof. intros w. simpl. reflexivity. Qed.
#[export] Instance respects_bind {A B} (m : M A) (k : A -> M B) :
  Respects R m -> (forall a, Respects R (k a)) -> Respects R (m ≫= k).
Proof.
  intros Hm Hk w. specialize (Hm w). unfold mbind, M_bind. destruct (m w) as [[a|e] w1]; simpl in *; [|done].
  etrans; [exact Hm|apply Hk].
Qed.
#[export] Instance respects_query {A} (f : LocalDb -> A) : Respects R (query f).
Proof. intros w. simpl. reflexivity. Qed.
#[export] Instance respects_lift {A} (r : Res A) : Respects R (lift r).
Proof. intros w. simpl. reflexivity. Qed.
#[export] Instance respects_fail {A} e : Respects R (fail e : M A).
Proof. intros w. simpl. reflexivity. Qed.
#[export] Instance respects_fail_if b e : Respects R (fail_if b e).
Proof. intros w. simpl. reflexivity. Qed.
#[export] Instance respects_try {A} (m : M A) : Respects R m -> Respects R (try m).
Proof. intros Hm w. specialize (Hm w). unfold try. by destruct (m w). Qed.
#[export] Instance respects_nonce `{Environment} : Respects R draw_nonce.
Proof. intros w. simpl. reflexivity. Qed.
#[export] Instance respects_uuid `{Environment} : Respects R draw_uuid.
Proof. intros w. simpl. reflexivity. Qed.
Lemma respects_execute f : (forall db, R db (f db)) -> Respects R (execute f).
Proof. intros Hf w. simpl. apply Hf. Qed.
Lemma respects_step {A} (m : M A) w r w' : Respects R m -> m w = (r, w') -> R (w_db w) (w_db w').
Proof. intros Hm E. specialize (Hm w). by rewrite E in Hm. Qed.
End Respects.

(** Solve [Respects] of a body, like [guarded]. *)
Ltac respects_by tac :=
  repeat match goal with
  | |- Respects _ (match ?x with _ => _ end) => destruct x
  | |- Respects _ (_ ≫= _) => apply respects_bind; [apply _| |intros ?]
  | |- Respects _ (try _) => apply respects_try
  | |- Respects _ (execute _) => apply respects_execute; intros ?; tac
  | |- Respects _ _ => apply _
  end.

(** ** The rows that are synchronised *)

Inductive Row :=
| RowE (r : EntryRow)
| RowS (r : SshKeyRow)
| RowT (r : TotpRow).
Definition rows (t : SyncEntryType) (db : LocalDb) : list Row :=
  match t with
  | TCredential => List.map RowE (entries db)
  | TSshKey => List.map RowS (ssh_keys db)
  | TTotpSecret => List.map RowT (totp_secrets db)
  end.
Definition row_id (r : Row) : Z := match r with RowE r => entry_id r | RowS r => key_id r | RowT r => totp_id r end.
Definition row_cols (r : Row) : SyncCols := match r with RowE r => e_sync r | RowS r => s_sync r | RowT r => t_sync r end.
Definition with_cols (f : SyncCols -> SyncCols) (r : Row) : Row :=
  match r with
  | RowE r => RowE {| r with e_sync := f (e_sync r) |}
  | RowS r => RowS {| r with s_sync := f (s_sync r) |}
  | RowT r => RowT {| r with t_sync := f (t_sync r) |}
  end.
Definition set_state (s : SyncState) (c : SyncCols) : SyncCols := {| c with sync_state := s |}.

(** The tables' keys are keys. *)
Definition ids_unique (db : LocalDb) : Prop := forall t, NoDup (List.map row_id (rows t db)).

(** Content, version and tombstone as they were, still waiting for the user or
    the relay. *)
Definition kept (r r' : Row) : Prop := exists s, unsynced s = true /\ r' = with_cols (set_state s) r.
Definition keeps (db db' : LocalDb) : Prop :=
  ids_unique db -> ids_unique db' /\
  forall t r, r ∈ rows t db -> unsynced (sync_state (row_cols r)) = true -> exists r', r' ∈ rows t db' /\ kept r r'.

Lemma kept_refl r : unsynced (sync_state (row_cols r)) = true -> kept r r.
Proof. intros H. exists (sync_state (row_cols r)). split; [done|]. by destruct r as [[? ? ? ? ? ? ? ? ? ? ? ? []]|[? ? ? ? ? ? ? ? ? ? ? ? []]|[? ? ? ? ? ? ? ? ? ? ? []]]. Qed.
Lemma kept_trans a b c : kept a b -> kept b c -> kept a c.
Proof. intros (s & _ & ->) (s' & ? & ->). exists s'. split; [done|]. by destruct a. Qed.
Lemma kept_unsynced a b : kept a b -> unsynced (sync_state (row_cols b)) = true.
Proof. intros (s & ? & ->). by destruct a. Qed.
#[global] Instance keeps_preorder : PreOrder keeps.
Proof.
  split.
  - intros db Hu. split; [done|]. intros t r Hr Hs. exists r. split; [done|by apply kept_refl].
  - intros a b c Hab Hbc Hu. destruct (Hab Hu) as [Hu' Kab]. destruct (Hbc Hu') as [Hu'' Kbc]. split; [done|].
    intros t r Hr Hs. destruct (Kab t r Hr Hs) as (r' & Hr' & K). destruct (Kbc t r' Hr' (kept_unsynced _ _ K)) as (r'' & ? & ?).
    exists r''. split; [done|by eapply kept_trans].
Qed.

(** Writes that do not touch the synchronised tables. *)
Definition same_rows (db db' : LocalDb) : Prop := forall t, rows t db' = rows t db.
#[global] Instance same_rows_preorder : PreOrder same_rows.
Proof. split; [by intros ? ?|]. intros a b c H1 H2 t. by rewrite H2, H1. Qed.
Lemma same_rows_keeps db db' : same_rows db db' -> keeps db db'.
Proof.
  intros E Hu. split; [intros t; rewrite (E t); apply Hu|]. intros t r Hr Hs. exists r. rewrite (E t). by split; [|apply kept_refl].
Qed.

(** One table changed. *)
Lemma keeps_table t db db' f :
  (forall t', t' <> t -> rows t' db' = rows t' db) -> rows t db' = List.map f (rows t db) ->
  (forall r, row_id (f r) = row_id r) ->
  (forall r, ids_unique db -> r ∈ rows t db -> unsynced (sync_state (row_cols r)) = true -> kept r (f r)) -> keeps db db'.
Proof.
  intros Ho Et Hid Hk Hu. split.
  - intros t'. destruct (decide (t' = t)) as [->|Hne]; [|by rewrite Ho]. rewrite Et, map_map.
    rewrite (List.map_ext _ row_id) by done. apply Hu.
  - intros t' r Hr Hs. destruct (decide (t' = t)) as [->|Hne]; [|rewrite Ho by done; exists r; by split; [|apply kept_refl]].
    exists (f r). split; [|auto]. rewrite Et. by apply list_elem_of_In, in_map, list_elem_of_In.
Qed.
Lemma keeps_append t db db' r :
  (forall t', t' <> t -> rows t' db' = rows t' db) -> rows t db' = rows t db ++ [r] ->
  (forall x, x ∈ rows t db -> row_id x <> row_id r) -> keeps db db'.
Proof.
  intros Ho Et Hfresh Hu. split.
  - intros t'. destruct (decide (t' = t)) as [->|Hne]; [|by rewrite Ho]. rewrite Et. by apply NoDup_key_snoc.
  - intros t' x Hx Hs. exists x. split; [|by apply kept_refl].
    destruct (decide (t' = t)) as [->|Hne]; [rewrite Et, elem_of_app; by left|by rewrite Ho].
Qed.

Lemma ids_unique_inj t db r r' :
  ids_unique db -> r ∈ rows t db -> r' ∈ rows t db -> row_id r = row_id r' -> r = r'.
Proof.
  intros Hu. specialize (Hu t). revert Hu. generalize (rows t db). intros l. induction l as [|x l IH]; simpl; [by intros _ ?%elem_of_nil|].
  intros Hn Hr Hr' E. inversion_clear Hn as [|? ? Hx Hl]. rewrite elem_of_cons in Hr, Hr'.
  assert (forall y, y ∈ l -> row_id y <> row_id x) as G.
  { intros y Hy Ey. apply Hx. rewrite <- Ey. by apply list_elem_of_In, in_map, list_elem_of_In. }
  destruct Hr as [->|Hr], Hr' as [->|Hr']; auto; exfalso; [apply (G r')|apply (G r)]; congruence.
Qed.

(** The row [find_local] reports. *)
Lemma find_local_row t sid db l :
  find_local t sid db = Some l ->
  exists r, r ∈ rows t db /\ row_id r = lr_id l /\ sync_state (row_cols r) = lr_state l /\ sync_version (row_cols r) = lr_version l /\
    has_sync_id sid (row_cols r) = true.
Proof.
  destruct t; simpl; intros (r & Hf & ->)%fmap_Some; apply find_some in Hf as [Hin Hs];
    [exists (RowE r)|exists (RowS r)|exists (RowT r)]; (split; [by apply list_elem_of_In, in_map|done]).
Qed.
Lemma find_local_none t sid db : find_local t sid db = None -> forall r, r ∈ rows t db -> has_sync_id sid (row_cols r) = false.
Proof.
  destruct t; simpl; intros E%fmap_None r Hr; apply list_elem_of_In, in_map_iff in Hr as (x & <- & Hx); simpl;
    by apply (find_none _ _ E).
Qed.

(** Statements by sync id and by key, on the view of rows. *)
Lemma rows_update_sync t sid f db t' :
  rows t' (update_sync t sid f db) =
  if decide (t' = t) then List.map (fun r => if has_sync_id sid (row_cols r) then with_cols f r else r) (rows t db) else rows t' db.
Proof.
  destruct t, t'; try reflexivity; simpl; unfold update_where; rewrite !map_map; apply List.map_ext; intros r; simpl; by case_match.
Qed.
Lemma rows_update_by_id t id f db t' :
  rows t' (update_by_id t id f db) =
  if decide (t' = t) then List.map (fun r => if row_id r =? id then with_cols f r else r) (rows t db) else rows t' db.
Proof.
  destruct t, t'; try reflexivity; simpl; unfold update_where; rewrite !map_map; apply List.map_ext; intros r; simpl; by case_match.
Qed.

Lemma keeps_mark_conflict t sid db : keeps db (update_sync t sid mark_conflict db).
Proof.
  apply (keeps_table t _ _ (fun r => if has_sync_id sid (row_cols r) then with_cols mark_conflict r else r)).
  - intros t' Hne. rewrite rows_update_sync. by rewrite decide_False.
  - rewrite rows_update_sync. by rewrite decide_True.
  - intros r. case_match; [|done]. by destruct r.
  - intros r _ _ Hs. case_match; [|by apply kept_refl]. by exists Conflict.
Qed.

(** A row found in step with the relay may be rewritten. *)
Lemma keeps_rewrite t sid db db' l g :
  find_local t sid db = Some l -> lr_state l = Synced ->
  (forall t', t' <> t -> rows t' db' = rows t' db) ->
  rows t db' = List.map (fun r => if row_id r =? lr_id l then g r else r) (rows t db) ->
  (forall r, row_id (g r) = row_id r) -> keeps db db'.
Proof.
  intros Hf Hs Ho Et Hg. eapply (keeps_table t); [exact Ho|exact Et|intros r; simpl; by case_match|].
  intros r Hu Hr Hun. simpl. destruct (row_id r =? lr_id l) eqn:E; [|by apply kept_refl]. propify.
  destruct (find_local_row _ _ _ _ Hf) as (r0 & Hr0 & Hid & Hst & _).
  assert (r = r0) as -> by (eapply ids_unique_inj; eauto; congruence). by rewrite Hst, Hs in Hun.
Qed.

Section Preamble.
Context `{UuidText}.

Lemma same_rows_record now b db : same_rows db (record_conflict now b db).
Proof. by intros []. Qed.

(** The preamble ends the work without touching an unpushed edit, or the row
    is in step with the relay and older. *)
Lemma preamble_ok now t l b sid w r w' :
  find_local t sid (w_db w) = Some l -> apply_existing_preamble now l b t w = (Ok r, w') ->
  keeps (w_db w) (w_db w') /\ (r = false -> w' = w /\ lr_state l = Synced).
Proof.
  intros Hf E. unfold apply_existing_preamble in E.
  destruct (unsynced (lr_state l) && _) eqn:Eu.
  - m_inv. split; [|done]. simpl. etrans; [apply same_rows_keeps, (same_rows_record now b)|apply keeps_mark_conflict].
  - case_bool_decide as Er; [m_inv; by split|].
    assert (lr_state l = Synced) as Hs.
    { destruct (lr_state l); [done| |]; exfalso; simpl in Eu; apply Z.leb_gt in Eu; apply Er; unfold resolve;
        by rewrite (proj2 (Z.ltb_ge _ _)), (proj2 (Z.eqb_neq _ _)) by lia. }
    destruct (b_is_tombstone b); m_inv; [|by split]. split; [|done]. simpl.
    eapply keeps_rewrite; [exact Hf|exact Hs|..].
    + intros t' Hne. rewrite rows_update_by_id. by rewrite decide_False.
    + rewrite rows_update_by_id. by rewrite decide_True.
    + by intros [].
Qed.
End Preamble.

Section Landing.
Context `{UuidText}.

(** ** Where an applied mutation lands *)

(** The sync columns of a row in step with the relay at a version. *)
Definition level_with (v now : Z) (gone : bool) (c : SyncCols) : Prop :=
  sync_version c = u64_as_i64 v /\ sync_acked_version c = u64_as_i64 v /\ sync_state c = Synced /\
  last_synced_at c = Some now /\ is_deleted c = gone.

(** What applying a mutation does to the rows: a new object becomes a row at
    its version, a deletion (or the void version 0) of an object the vault does
    not have is nothing, an unpushed edit of an object is set against the
    peer's version, a version no newer than the row's leaves it, and otherwise
    the row takes the mutation's version and is deleted when it is a tombstone. *)
Inductive landing (now : Z) (m : MutationV2) (db db' : LocalDb) : Prop :=
| ld_unknown :
    (forall r, r ∈ rows (object_type m) db -> has_sync_id (uuid_to_string (object_id m)) (row_cols r) = false) ->
    SyncWire.is_tombstone m = true \/ ov (resulting_version m) <= 0 ->
    (forall t, rows t db' = rows t db) -> landing now m db db'
| ld_new r' :
    (forall r, r ∈ rows (object_type m) db -> has_sync_id (uuid_to_string (object_id m)) (row_cols r) = false) ->
    SyncWire.is_tombstone m = false -> 0 < ov (resulting_version m) ->
    rows (object_type m) db' = rows (object_type m) db ++ [r'] ->
    (forall t, t <> object_type m -> rows t db' = rows t db) ->
    sync_id (row_cols r') = Some (uuid_to_string (object_id m)) ->
    level_with (ov (resulting_version m)) now false (row_cols r') -> landing now m db db'
| ld_conflict r :
    r ∈ rows (object_type m) db -> has_sync_id (uuid_to_string (object_id m)) (row_cols r) = true ->
    unsynced (sync_state (row_cols r)) = true ->
    i64_as_u64 (sync_version (row_cols r)) <= ov (resulting_version m) ->
    sync_conflicts db' !! uuid_to_string (object_id m) = Some {|
      cf_object_type := type_debug (object_type m); remote_version := u64_as_i64 (ov (resulting_version m));
      remote_payload := encrypted_payload m; cf_origin_device_id := uuid_to_string (origin_device_id m);
      cf_is_tombstone := SyncWire.is_tombstone m; cf_received_at := now |} ->
    rows (object_type m) db' = List.map (fun x => if has_sync_id (uuid_to_string (object_id m)) (row_cols x)
                                             then with_cols (set_state Conflict) x else x) (rows (object_type m) db) ->
    (forall t, t <> object_type m -> rows t db' = rows t db) -> landing now m db db'
| ld_old r :
    r ∈ rows (object_type m) db -> has_sync_id (uuid_to_string (object_id m)) (row_cols r) = true ->
    ov (resulting_version m) <= i64_as_u64 (sync_version (row_cols r)) ->
    (forall t, rows t db' = rows t db) -> landing now m db db'
| ld_applied r g :
    r ∈ rows (object_type m) db -> has_sync_id (uuid_to_string (object_id m)) (row_cols r) = true ->
    sync_state (row_cols r) = Synced -> i64_as_u64 (sync_version (row_cols r)) <= ov (resulting_version m) ->
    rows (object_type m) db' = List.map (fun x => if row_id x =? row_id r then g x else x) (rows (object_type m) db) ->
    (forall t, t <> object_type m -> rows t db' = rows t db) ->
    (forall x, x ∈ rows (object_type m) db -> row_id (g x) = row_id x /\
       level_with (ov (resulting_version m)) now (SyncWire.is_tombstone m) (row_cols (g x))) -> landing now m db db'.

(** Writes after the row, or before it. *)
Lemma landing_then now m db db1 db2 :
  landing now m db db1 -> same_rows db1 db2 -> sync_conflicts db2 = sync_conflicts db1 -> landing now m db db2.
Proof.
  intros L S C. unfold same_rows in S.
  destruct L; [eapply ld_unknown|eapply ld_new|eapply ld_conflict|eapply ld_old|eapply ld_applied];
    first [eassumption | (intros; rewrite S; eauto) | (rewrite C; eassumption) | (rewrite S; eassumption)].
Qed.
Lemma landing_after now m db0 db db' : same_rows db0 db -> landing now m db db' -> landing now m db0 db'.
Proof.
  intros S L. assert (forall t, rows t db0 = rows t db) as S' by (intros t; by rewrite (S t)).
  destruct L; [eapply ld_unknown|eapply ld_new|eapply ld_conflict|eapply ld_old|eapply ld_applied];
    rewrite ?S'; try eassumption; intros; rewrite S'; eauto.
Qed.

Lemma preamble_lands now m l w fin w' :
  find_local (object_type m) (uuid_to_string (object_id m)) (w_db w) = Some l ->
  apply_existing_preamble now l (blob_from_log_mutation m) (object_type m) w = (Ok fin, w') ->
  (fin = true -> landing now m (w_db w) (w_db w')) /\
  (fin = false -> w' = w /\ SyncWire.is_tombstone m = false /\ lr_state l = Synced /\
    i64_as_u64 (lr_version l) <= ov (resulting_version m)).
Proof.
  intros Hf E. destruct (find_local_row _ _ _ _ Hf) as (r & Hr & Hid & Hst & Hv & Hs). unfold apply_existing_preamble in E. simpl in E.
  destruct (unsynced (lr_state l) && _) eqn:Eu.
  - m_inv. split; [|done]. intros _. propify. eapply ld_conflict; [exact Hr|exact Hs|congruence|congruence|..]; simpl.
    + transitivity (sync_conflicts (record_conflict now (blob_from_log_mutation m) (w_db w)) !! uuid_to_string (object_id m)).
      { f_equal. generalize (object_type m). by intros []. }
      apply lookup_insert_eq.
    + rewrite rows_update_sync, decide_True by done. by destruct (object_type m).
    + intros t Hne. rewrite rows_update_sync, decide_False by done. by destruct t.
  - case_bool_decide as Er.
    { m_inv. split; [|done]. intros _. eapply ld_old; [exact Hr|exact Hs| |done].
      rewrite Hv. destruct (Z.le_gt_cases (ov (resulting_version m)) (i64_as_u64 (lr_version l))) as [|Hlt]; [done|].
      exfalso. unfold resolve in Er. simpl in Er. by rewrite (proj2 (Z.ltb_lt _ _)) in Er by lia. }
    assert (i64_as_u64 (lr_version l) <= ov (resulting_version m)) as Hle.
    { unfold resolve in Er. simpl in Er. destruct (Z.ltb_spec (i64_as_u64 (lr_version l)) (ov (resulting_version m))); [lia|].
      destruct (Z.eqb_spec (ov (resulting_version m)) (i64_as_u64 (lr_version l))); [lia|done]. }
    assert (lr_state l = Synced) as Hsy.
    { destruct (lr_state l); [done| |]; simpl in Eu; propify; lia. }
    destruct (SyncWire.is_tombstone m) eqn:Et; m_inv; [|by split]. split; [|done]. intros _.
    apply (ld_applied _ _ _ _ r (with_cols (tombstoned (u64_as_i64 (ov (resulting_version m))) now))); try done; try congruence; simpl.
    + rewrite rows_update_by_id, decide_True by done. by rewrite Hid.
    + intros t Hne. by rewrite rows_update_by_id, decide_False.
    + intros x _. rewrite Et. split; [by destruct x|]. by destruct x.
Qed.

(** The row written from the payload. *)
Lemma landing_rewrite now m l db db' g :
  find_local (object_type m) (uuid_to_string (object_id m)) db = Some l -> lr_state l = Synced ->
  i64_as_u64 (lr_version l) <= ov (resulting_version m) ->
  (forall t', t' <> object_type m -> rows t' db' = rows t' db) ->
  rows (object_type m) db' = List.map (fun r => if row_id r =? lr_id l then g r else r) (rows (object_type m) db) ->
  (forall r, r ∈ rows (object_type m) db -> row_id (g r) = row_id r /\
     level_with (ov (resulting_version m)) now (SyncWire.is_tombstone m) (row_cols (g r))) -> landing now m db db'.
Proof.
  intros Hf Hs Hv Ho Et Hg. destruct (find_local_row _ _ _ _ Hf) as (r & Hr & Hid & Hst & Hver & Hsid).
  apply (ld_applied _ _ _ _ r g); try done; try congruence. by rewrite Hid.
Qed.

Lemma skip_new m : skip_new_entry (blob_from_log_mutation m) = true ->
  SyncWire.is_tombstone m = true \/ ov (resulting_version m) <= 0.
Proof. unfold skip_new_entry, accept_new. simpl. intros [?|?%negb_true_iff%Z.ltb_ge]%orb_true_iff; auto. Qed.
Lemma keep_new m : skip_new_entry (blob_from_log_mutation m) = false ->
  SyncWire.is_tombstone m = false /\ 0 < ov (resulting_version m).
Proof. unfold skip_new_entry, accept_new. simpl. intros [? ?%negb_false_iff%Z.ltb_lt]%orb_false_iff; auto. Qed.
End Landing.

Lemma same_rows_mappings id db : same_rows db (delete_mappings id db).
Proof. by intros []. Qed.
Lemma same_rows_tags mapping domain key db `{UrlParse, Hmac} : same_rows db (write_mapping_tags mapping domain key db).
Proof.
  unfold write_mapping_tags. destruct (compute_domain_chain_tags key domain) as [tags|]; [|by intros []].
  assert (forall l db, same_rows db (fold_left (insert_tag mapping) l db)) as G.
  { induction l as [|t l IH]; intros d; [done|]. simpl. etrans; [|apply IH]. by intros []. }
  etrans; [|apply G]. by intros [].
Qed.

(** Writes that leave the configuration and the dead letters. *)
Definition same_sync (db db' : LocalDb) : Prop :=
  sync_metadata db' = sync_metadata db /\ sync_dead_letter db' = sync_dead_letter db.
#[global] Instance same_sync_preorder : PreOrder same_sync.
Proof. split; [by intros ?|]. intros a b c [] []. split; congruence. Qed.
Lemma same_sync_tags `{UrlParse, Hmac} mapping domain key db : same_sync db (write_mapping_tags mapping domain key db).
Proof.
  unfold write_mapping_tags. destruct (compute_domain_chain_tags key domain) as [tags|]; [|done].
  assert (forall l db, same_sync db (fold_left (insert_tag mapping) l db)) as G.
  { induction l as [|t l IH]; intros d; [done|]. simpl. etrans; [|apply IH]. done. }
  etrans; [|apply G]. done.
Qed.
Lemma same_sync_update_sync t sid f db : same_sync db (update_sync t sid f db).
Proof. by destruct t. Qed.
Lemma same_sync_update_by_id t id f db : same_sync db (update_by_id t id f db).
Proof. by destruct t. Qed.
Lemma respects_execute_res (R : LocalDb -> LocalDb -> Prop) `{!PreOrder R} f :
  (forall db db', f db = Ok db' -> R db db') -> Respects R (execute_res f).
Proof. intros Hf w. specialize (Hf (w_db w)). unfold execute_res. destruct (f (w_db w)); [by apply Hf|reflexivity]. Qed.
Ltac same_sync_tac :=
  repeat (respects_by ltac:(first [done | apply same_sync_tags | apply same_sync_update_sync | apply same_sync_update_by_id]);
    try (match goal with
    | |- Respects _ (execute_res _) => apply respects_execute_res; [apply _|]; intros ? ? ?; result_inv; subst; done
    end)).

(** ** Bodies of a guarded transaction *)

Lemma vault_id_tags `{UrlParse, Hmac} mapping domain key db : ContentGuard.vault_id (write_mapping_tags mapping domain key db) = ContentGuard.vault_id db.
Proof.
  unfold write_mapping_tags. destruct (compute_domain_chain_tags key domain) as [tags|]; [|done].
  assert (forall l d, ContentGuard.vault_id (fold_left (insert_tag mapping) l d) = ContentGuard.vault_id d) as G
    by (induction l as [|t l IH]; intros d; simpl; [done|]; by rewrite IH).
  by rewrite G.
Qed.
Lemma vault_id_update_sync t sid f db : ContentGuard.vault_id (update_sync t sid f db) = ContentGuard.vault_id db.
Proof. by destruct t. Qed.
Lemma vault_id_update_by_id t sid f db : ContentGuard.vault_id (update_by_id t sid f db) = ContentGuard.vault_id db.
Proof. by destruct t. Qed.
Ltac guarded_sync :=
  repeat (guarded; try (match goal with
    | |- Guarded (execute _) => apply guarded_execute; intros ?;
        first [apply vault_id_tags | apply vault_id_update_sync | apply vault_id_update_by_id]
    | |- Guarded (try _) => apply guarded_try
    | |- Guarded (transaction _) => apply guarded_transaction
    end)).

Section Apply.
Context `{Environment, Hmac, Sha256, HexDecode, UuidText, Base64, Base32, Aead, UrlParse}.
Context `{SerdeBytes AadContext, SerdeBytes EnvelopeDoc, SerdeBytes EntryTuple, SerdeBytes MappingTuple, SerdeBytes TagTuple}.
Context `{SerdeBytes CustodyTuple, SerdeBytes State, SerdeBytes Document}.
Context `{SerdeBytes CredentialPayload, SerdeBytes SshKeyPayload, SerdeBytes TotpPayload}.
Context `{Bincode EncryptedEntry, BincodeSer EncryptedEntry, BincodeSer bytes}.

(** Sealing and indexing leave the rows. *)
Ltac same_rows_tac := respects_by ltac:(first [by intros [] | apply same_rows_tags | apply same_rows_mappings]).

#[local] Instance sr_identity : Respects same_rows read_local_identity.
Proof. unfold read_local_identity. same_rows_tac. Qed.
#[local] Instance sr_seal dek v o t p text e : Respects same_rows (seal_field dek v o t p text e).
Proof. unfold seal_field. same_rows_tac. Qed.
#[local] Instance sr_opt f x : (forall s, Respects same_rows (f s)) -> Respects same_rows (seal_opt f x).
Proof. intros. unfold seal_opt. same_rows_tac. Qed.
#[local] Instance sr_prepare dek p sid : Respects same_rows (prepare_credential_blobs dek p sid).
Proof. unfold prepare_credential_blobs. same_rows_tac. Qed.
#[local] Instance sr_mapping ctx e d p : Respects same_rows (insert_sealed_domain_mapping ctx e d p).
Proof. unfold insert_sealed_domain_mapping, seal_domain. same_rows_tac. Qed.
#[local] Instance sr_mappings ctx e l : Respects same_rows (insert_mappings ctx e l).
Proof. induction l; simpl; same_rows_tac. Qed.
#[local] Instance sr_index dek e p now : Respects same_rows (index_best_effort dek e p now).
Proof.
  unfold index_best_effort, upsert_equality_tag, upsert_equality_tag_with_key, serialize_tag_cipher. same_rows_tac.
Qed.
#[local] Instance sr_ssh dek v o e p : Respects same_rows (seal_ssh dek v o e p).
Proof. unfold seal_ssh. same_rows_tac. Qed.
#[local] Instance sr_totp dek v o e p : Respects same_rows (seal_totp dek v o e p).
Proof. unfold seal_totp, seal_totp_identity_metadata. same_rows_tac. Qed.

(** A step that leaves the rows, in the middle of a run. *)
Lemma sr_step {A} (m : M A) w r w' : Respects same_rows m -> m w = (r, w') -> same_rows (w_db w) (w_db w').
Proof. apply respects_step. Qed.

Lemma find_local_same t sid db db' :
  entries db' = entries db -> ssh_keys db' = ssh_keys db -> totp_secrets db' = totp_secrets db ->
  find_local t sid db' = find_local t sid db.
Proof. intros E1 E2 E3. destruct t; simpl; congruence. Qed.
Lemma rows_inj (db db' : LocalDb) :
  same_rows db db' -> entries db' = entries db /\ ssh_keys db' = ssh_keys db /\ totp_secrets db' = totp_secrets db.
Proof.
  assert (forall A (c : A -> Row) (l l' : list A), (forall x y, c x = c y -> x = y) -> List.map c l = List.map c l' -> l = l') as G.
  { intros A c l. induction l as [|x l IH]; intros [|y l'] Hc E; try done. injection E as E1 E2. f_equal; auto. }
  intros E. split_and!; [apply (G _ RowE)|apply (G _ RowS)|apply (G _ RowT)];
    try (by intros ? ? [=]); [apply (E TCredential)|apply (E TSshKey)|apply (E TTotpSecret)].
Qed.
Lemma find_local_sr t sid db db' : same_rows db db' -> find_local t sid db' = find_local t sid db.
Proof. intros (?&?&?)%rows_inj. by apply find_local_same. Qed.

Lemma apply_credential_keeps now dek b w u w' : apply_credential now dek b w = (Ok u, w') -> keeps (w_db w) (w_db w').
Proof.
  unfold apply_credential. intros E. apply M_bind_ok in E as ([v ep] & w1 & E1 & E). apply sr_step in E1; [|apply _].
  etrans; [exact (same_rows_keeps _ _ E1)|]. apply M_bind_ok in E as (k & w2 & [_ <-]%M_lift_ok & E). cbv zeta in E.
  apply M_bind_ok in E as (l & w2 & [-> <-]%M_query_ok & E).
  destruct (find_local TCredential _ (w_db w1)) as [l|] eqn:Hf.
  - apply M_bind_ok in E as (fin & w2 & Ep & E). destruct (preamble_ok _ _ _ _ _ _ _ _ Hf Ep) as [K Hfin].
    destruct fin.
    + etrans; [exact K|]. apply M_bind_ok in E as (gone & w3 & Eq & E). injection Eq as Eq <-. destruct gone; m_inv; [|done].
      by apply same_rows_keeps; intros [].
    + destruct (Hfin eq_refl) as [-> Hs]. apply M_bind_ok in E as (p & w2 & [_ <-]%M_lift_ok & E).
      apply M_bind_ok in E as (f & w2 & E2 & E). apply sr_step in E2; [|apply _]. rewrite <- (find_local_sr _ _ _ _ E2) in Hf.
      apply M_bind_ok in E as (x & w3 & E3 & E). injection E3 as <- <-.
      etrans; [exact (same_rows_keeps _ _ E2)|]. etrans.
      2:{ apply same_rows_keeps. eapply sr_step; [|exact E]. same_rows_tac. }
      simpl. apply (keeps_rewrite TCredential _ _ _ l (fun r => match r with
        | RowE r => RowE (write_entry f p (u64_as_i64 (b_sync_version b)) now r) | r => r end) Hf Hs).
      * intros [] ?; done.
      * simpl. unfold update_where. rewrite !map_map. apply List.map_ext. intros r. simpl. by case_match.
      * by intros [].
  - destruct (skip_new_entry b); [by m_inv|]. apply M_bind_ok in E as (p & w2 & [_ <-]%M_lift_ok & E).
    apply M_bind_ok in E as (f & w2 & E2 & E). apply sr_step in E2; [|apply _]. etrans; [exact (same_rows_keeps _ _ E2)|].
    apply M_bind_ok in E as (id & w3 & E3 & E). injection E3 as <- <-. apply M_bind_ok in E as (x & w3 & E3 & E). injection E3 as <- <-.
    etrans.
    2:{ apply same_rows_keeps. eapply sr_step; [|exact E]. same_rows_tac. }
    eapply (keeps_append TCredential).
    + intros [] ?; done.
    + simpl. rewrite map_app. reflexivity.
    + intros x Hx. apply list_elem_of_In, in_map_iff in Hx as (r & <- & Hr%list_elem_of_In). simpl. by apply autoincrement_fresh.
Qed.

Lemma apply_ssh_key_keeps now dek b w u w' : apply_ssh_key now dek b w = (Ok u, w') -> keeps (w_db w) (w_db w').
Proof.
  unfold apply_ssh_key. intros E. apply M_bind_ok in E as ([v ep] & w1 & E1 & E). apply sr_step in E1; [|apply _].
  etrans; [exact (same_rows_keeps _ _ E1)|]. apply M_bind_ok in E as (l & w2 & [-> <-]%M_query_ok & E).
  destruct (find_local TSshKey _ (w_db w1)) as [l|] eqn:Hf.
  - apply M_bind_ok in E as (fin & w2 & Ep & E). destruct (preamble_ok _ _ _ _ _ _ _ _ Hf Ep) as [K Hfin].
    destruct fin; [by m_inv|]. destruct (Hfin eq_refl) as [-> Hs]. apply M_bind_ok in E as (p & w2 & [_ <-]%M_lift_ok & E).
    apply M_bind_ok in E as ([key_blob comment] & w2 & E2 & E). apply sr_step in E2; [|apply _].
    rewrite <- (find_local_sr _ _ _ _ E2) in Hf. injection E as <- <-. etrans; [exact (same_rows_keeps _ _ E2)|]. simpl.
    apply (keeps_rewrite TSshKey _ _ _ l (fun r => match r with
      | RowS r => RowS (write_ssh_key key_blob comment p (key_id r) (s_created_at r) (landed (u64_as_i64 (b_sync_version b)) now (s_sync r)))
      | r => r end) Hf Hs).
    + intros [] ?; done.
    + simpl. unfold update_where. rewrite !map_map. apply List.map_ext. intros r. simpl. by case_match.
    + by intros [].
  - destruct (skip_new_entry b); [by m_inv|]. apply M_bind_ok in E as (p & w2 & [_ <-]%M_lift_ok & E).
    apply M_bind_ok in E as ([key_blob comment] & w2 & E2 & E). apply sr_step in E2; [|apply _].
    injection E as <- <-. etrans; [exact (same_rows_keeps _ _ E2)|]. eapply (keeps_append TSshKey).
    + intros [] ?; done.
    + simpl. rewrite map_app. reflexivity.
    + intros x Hx. apply list_elem_of_In, in_map_iff in Hx as (r & <- & Hr%list_elem_of_In). simpl. by apply autoincrement_fresh.
Qed.

Lemma apply_totp_keeps now dek b w u w' : apply_totp now dek b w = (Ok u, w') -> keeps (w_db w) (w_db w').
Proof.
  unfold apply_totp. intros E. apply M_bind_ok in E as ([v ep] & w1 & E1 & E). apply sr_step in E1; [|apply _].
  etrans; [exact (same_rows_keeps _ _ E1)|]. apply M_bind_ok in E as (l & w2 & [-> <-]%M_query_ok & E).
  destruct (find_local TTotpSecret _ (w_db w1)) as [l|] eqn:Hf.
  - apply M_bind_ok in E as (fin & w2 & Ep & E). destruct (preamble_ok _ _ _ _ _ _ _ _ Hf Ep) as [K Hfin].
    destruct fin; [by m_inv|]. destruct (Hfin eq_refl) as [-> Hs]. apply M_bind_ok in E as (p & w2 & [_ <-]%M_lift_ok & E).
    apply M_bind_ok in E as (blobs & w2 & E2 & E). apply sr_step in E2; [|apply _].
    rewrite <- (find_local_sr _ _ _ _ E2) in Hf. etrans; [exact (same_rows_keeps _ _ E2)|]. m_inv. result_inv. subst. simpl.
    apply (keeps_rewrite TTotpSecret _ _ _ l (fun r => match r with
      | RowT r => RowT (write_totp blobs p (totp_id r) a0 (t_created_at r) (landed (u64_as_i64 (b_sync_version b)) now (t_sync r)))
      | r => r end) Hf Hs).
    + intros [] ?; done.
    + simpl. unfold update_where. rewrite !map_map. apply List.map_ext. intros r. simpl. by case_match.
    + intros []; try done. simpl. by destruct blobs as [[? ?] ?].
  - destruct (skip_new_entry b); [by m_inv|]. apply M_bind_ok in E as (p & w2 & [_ <-]%M_lift_ok & E).
    apply M_bind_ok in E as (blobs & w2 & E2 & E). apply sr_step in E2; [|apply _].
    etrans; [exact (same_rows_keeps _ _ E2)|]. m_inv. result_inv. subst. eapply (keeps_append TTotpSecret).
    + intros [] ?; done.
    + simpl. rewrite map_app. reflexivity.
    + intros x Hx. apply list_elem_of_In, in_map_iff in Hx as (r & <- & Hr%list_elem_of_In). simpl.
      destruct blobs as [[? ?] ?]. by apply autoincrement_fresh.
Qed.

Lemma apply_keeps now dek b w u w' : apply_remote_entry_in_tx now dek b w = (Ok u, w') -> keeps (w_db w) (w_db w').
Proof.
  unfold apply_remote_entry_in_tx. destruct (b_entry_type b); [apply apply_credential_keeps|apply apply_ssh_key_keeps|apply apply_totp_keeps].
Qed.

Lemma apply_credential_lands now dek m w u w' :
  object_type m = TCredential -> apply_credential now dek (blob_from_log_mutation m) w = (Ok u, w') ->
  landing now m (w_db w) (w_db w').
Proof.
  intros Ht. unfold apply_credential. intros E. apply M_bind_ok in E as ([v ep] & w1 & E1 & E). apply sr_step in E1; [|apply _].
  eapply landing_after; [exact E1|]. clear E1. apply M_bind_ok in E as (k & w2 & [_ <-]%M_lift_ok & E). cbv zeta in E.
  apply M_bind_ok in E as (l & w2 & [-> <-]%M_query_ok & E).
  destruct (find_local TCredential _ (w_db w1)) as [l|] eqn:Hf.
  - apply M_bind_ok in E as (fin & w2 & Ep & E). rewrite <- Ht in Hf, Ep. destruct (preamble_lands _ _ _ _ _ _ Hf Ep) as [Hl Hfin].
    destruct fin.
    + specialize (Hl eq_refl). apply M_bind_ok in E as (gone & w3 & Eq & E). injection Eq as Eq <-. destruct gone; m_inv; [|done].
      by eapply landing_then; [exact Hl|intros []|].
    + destruct (Hfin eq_refl) as (-> & Htm & Hs & Hv). apply M_bind_ok in E as (p & w2 & [_ <-]%M_lift_ok & E).
      apply M_bind_ok in E as (f & w2 & E2 & E). apply sr_step in E2; [|apply _]. rewrite <- (find_local_sr _ _ _ _ E2) in Hf.
      eapply landing_after; [exact E2|]. apply M_bind_ok in E as (x & w3 & E3 & E). injection E3 as <- <-.
      match type of E with _ ?w0 = _ => assert (same_rows (w_db w0) (w_db w')) as S by (eapply sr_step; [|exact E]; same_rows_tac) end.
      apply (landing_rewrite _ _ l _ _ (fun r => match r with
        | RowE r => RowE (write_entry f p (u64_as_i64 (ov (resulting_version m))) now r) | r => r end) Hf Hs Hv); rewrite Ht.
      * intros t' Hne. rewrite (S t'). by destruct t'.
      * rewrite (S TCredential). simpl. unfold update_where. rewrite !map_map. apply List.map_ext. intros r. simpl. by case_match.
      * intros r (x & <- & _)%list_elem_of_In%in_map_iff. rewrite Htm. done.
  - rewrite <- Ht in Hf. pose proof (find_local_none _ _ _ Hf) as Hnone. destruct (skip_new_entry _) eqn:Esk.
    { m_inv. apply skip_new in Esk. by apply ld_unknown. }
    apply keep_new in Esk as [Htm Hv]. apply M_bind_ok in E as (p & w2 & [_ <-]%M_lift_ok & E).
    apply M_bind_ok in E as (f & w2 & E2 & E). apply sr_step in E2; [|apply _].
    apply M_bind_ok in E as (id & w3 & E3 & E). injection E3 as <- <-. apply M_bind_ok in E as (x & w3 & E3 & E). injection E3 as <- <-.
    match type of E with _ ?w0 = _ => assert (same_rows (w_db w0) (w_db w')) as S by (eapply sr_step; [|exact E]; same_rows_tac) end.
    eapply ld_new; [exact Hnone|exact Htm|exact Hv| | |..]; rewrite ?Ht.
    + rewrite (S TCredential). simpl. rewrite map_app. cbn [List.map]. rewrite (proj1 (rows_inj _ _ E2)). reflexivity.
    + intros t Hne. rewrite (S t). rewrite <- (E2 t). by destruct t.
    + done.
    + done.
Qed.

Lemma apply_ssh_key_lands now dek m w u w' :
  object_type m = TSshKey -> apply_ssh_key now dek (blob_from_log_mutation m) w = (Ok u, w') ->
  landing now m (w_db w) (w_db w').
Proof.
  intros Ht. unfold apply_ssh_key. intros E. apply M_bind_ok in E as ([v ep] & w1 & E1 & E). apply sr_step in E1; [|apply _].
  eapply landing_after; [exact E1|]. clear E1. apply M_bind_ok in E as (l & w2 & [-> <-]%M_query_ok & E).
  destruct (find_local TSshKey _ (w_db w1)) as [l|] eqn:Hf; rewrite <- Ht in Hf.
  - apply M_bind_ok in E as (fin & w2 & Ep & E). rewrite <- Ht in Ep. destruct (preamble_lands _ _ _ _ _ _ Hf Ep) as [Hl Hfin].
    destruct fin; [m_inv; by apply Hl|]. destruct (Hfin eq_refl) as (-> & Htm & Hs & Hv). apply M_bind_ok in E as (p & w2 & [_ <-]%M_lift_ok & E).
    apply M_bind_ok in E as ([key_blob comment] & w2 & E2 & E). apply sr_step in E2; [|apply _].
    rewrite <- (find_local_sr _ _ _ _ E2) in Hf. injection E as <- <-. eapply landing_after; [exact E2|]. simpl.
    apply (landing_rewrite _ _ l _ _ (fun r => match r with
      | RowS r => RowS (write_ssh_key key_blob comment p (key_id r) (s_created_at r) (landed (u64_as_i64 (ov (resulting_version m))) now (s_sync r)))
      | r => r end) Hf Hs Hv); rewrite Ht.
    + by intros [] ?.
    + simpl. unfold update_where. rewrite !map_map. apply List.map_ext. intros r. simpl. by case_match.
    + intros r (x & <- & _)%list_elem_of_In%in_map_iff. rewrite Htm. done.
  - pose proof (find_local_none _ _ _ Hf) as Hnone. destruct (skip_new_entry _) eqn:Esk.
    { m_inv. apply skip_new in Esk. by apply ld_unknown. }
    apply keep_new in Esk as [Htm Hv]. apply M_bind_ok in E as (p & w2 & [_ <-]%M_lift_ok & E).
    apply M_bind_ok in E as ([key_blob comment] & w2 & E2 & E). apply sr_step in E2; [|apply _].
    injection E as <- <-. eapply ld_new; [exact Hnone|exact Htm|exact Hv| | |..]; rewrite ?Ht.
    + simpl. rewrite map_app. cbn [List.map]. rewrite (proj1 (proj2 (rows_inj _ _ E2))). reflexivity.
    + intros t Hne. rewrite <- (E2 t). by destruct t.
    + done.
    + done.
Qed.

Lemma apply_totp_lands now dek m w u w' :
  object_type m = TTotpSecret -> apply_totp now dek (blob_from_log_mutation m) w = (Ok u, w') ->
  landing now m (w_db w) (w_db w').
Proof.
  intros Ht. unfold apply_totp. intros E. apply M_bind_ok in E as ([v ep] & w1 & E1 & E). apply sr_step in E1; [|apply _].
  eapply landing_after; [exact E1|]. clear E1. apply M_bind_ok in E as (l & w2 & [-> <-]%M_query_ok & E).
  destruct (find_local TTotpSecret _ (w_db w1)) as [l|] eqn:Hf; rewrite <- Ht in Hf.
  - apply M_bind_ok in E as (fin & w2 & Ep & E). rewrite <- Ht in Ep. destruct (preamble_lands _ _ _ _ _ _ Hf Ep) as [Hl Hfin].
    destruct fin; [m_inv; by apply Hl|]. destruct (Hfin eq_refl) as (-> & Htm & Hs & Hv). apply M_bind_ok in E as (p & w2 & [_ <-]%M_lift_ok & E).
    apply M_bind_ok in E as (blobs & w2 & E2 & E). apply sr_step in E2; [|apply _].
    rewrite <- (find_local_sr _ _ _ _ E2) in Hf. eapply landing_after; [exact E2|]. m_inv. result_inv. subst. simpl.
    apply (landing_rewrite _ _ l _ _ (fun r => match r with
      | RowT r => RowT (write_totp blobs p (totp_id r) a0 (t_created_at r) (landed (u64_as_i64 (ov (resulting_version m))) now (t_sync r)))
      | r => r end) Hf Hs Hv); rewrite Ht.
    + by intros [] ?.
    + simpl. unfold update_where. rewrite !map_map. apply List.map_ext. intros r. simpl. by case_match.
    + intros r (x & <- & _)%list_elem_of_In%in_map_iff. rewrite Htm. by destruct blobs as [[? ?] ?].
  - pose proof (find_local_none _ _ _ Hf) as Hnone. destruct (skip_new_entry _) eqn:Esk.
    { m_inv. apply skip_new in Esk. by apply ld_unknown. }
    apply keep_new in Esk as [Htm Hv]. apply M_bind_ok in E as (p & w2 & [_ <-]%M_lift_ok & E).
    apply M_bind_ok in E as (blobs & w2 & E2 & E). apply sr_step in E2; [|apply _].
    m_inv. result_inv. subst. eapply ld_new; [exact Hnone|exact Htm|exact Hv| | |..]; rewrite ?Ht.
    + simpl. rewrite map_app. cbn [List.map]. rewrite (proj2 (proj2 (rows_inj _ _ E2))). reflexivity.
    + intros t Hne. rewrite <- (E2 t). by destruct t.
    + by destruct blobs as [[? ?] ?].
    + by destruct blobs as [[? ?] ?].
Qed.

Lemma apply_lands now dek m w u w' :
  apply_remote_entry_in_tx now dek (blob_from_log_mutation m) w = (Ok u, w') -> landing now m (w_db w) (w_db w').
Proof.
  unfold apply_remote_entry_in_tx. simpl. destruct (object_type m) eqn:Ht;
    [by apply apply_credential_lands|by apply apply_ssh_key_lands|by apply apply_totp_lands].
Qed.

(** An application leaves the configuration and the dead letters. *)
#[local] Instance ss_identity : Respects same_sync read_local_identity.
Proof. unfold read_local_identity. same_sync_tac. Qed.
#[local] Instance ss_seal dek v o t p text e : Respects same_sync (seal_field dek v o t p text e).
Proof. unfold seal_field. same_sync_tac. Qed.
#[local] Instance ss_opt f x : (forall s, Respects same_sync (f s)) -> Respects same_sync (seal_opt f x).
Proof. intros. unfold seal_opt. same_sync_tac. Qed.
#[local] Instance ss_mapping ctx e d p : Respects same_sync (insert_sealed_domain_mapping ctx e d p).
Proof. unfold insert_sealed_domain_mapping, seal_domain. same_sync_tac. Qed.
#[local] Instance ss_mappings ctx e l : Respects same_sync (insert_mappings ctx e l).
Proof. induction l; simpl; same_sync_tac. Qed.
#[local] Instance ss_preamble now l b t : Respects same_sync (apply_existing_preamble now l b t).
Proof. unfold apply_existing_preamble. same_sync_tac. Qed.
#[local] Instance ss_index dek e p now : Respects same_sync (index_best_effort dek e p now).
Proof. unfold index_best_effort, upsert_equality_tag, upsert_equality_tag_with_key, serialize_tag_cipher. same_sync_tac. Qed.
#[export] Instance ss_apply now dek b : Respects same_sync (apply_remote_entry_in_tx now dek b).
Proof.
  unfold apply_remote_entry_in_tx, apply_credential, apply_ssh_key, apply_totp, prepare_credential_blobs, seal_ssh, seal_totp,
    seal_totp_identity_metadata. destruct (b_entry_type b); same_sync_tac.
Qed.

(** Guarded bodies. *)
#[local] Instance g_identity : Guarded read_local_identity.
Proof. unfold read_local_identity. guarded. Qed.
#[local] Instance g_seal dek v o t p text e : Guarded (seal_field dek v o t p text e).
Proof. unfold seal_field. guarded. Qed.
#[local] Instance g_opt f x : (forall s, Guarded (f s)) -> Guarded (seal_opt f x).
Proof. intros. unfold seal_opt. guarded. Qed.
#[local] Instance g_mapping ctx e d p : Guarded (insert_sealed_domain_mapping ctx e d p).
Proof. unfold insert_sealed_domain_mapping, seal_domain. guarded_sync. Qed.
#[local] Instance g_mappings ctx e l : Guarded (insert_mappings ctx e l).
Proof. induction l; simpl; guarded. Qed.
#[local] Instance g_preamble now l b t : Guarded (apply_existing_preamble now l b t).
Proof. unfold apply_existing_preamble. guarded_sync. Qed.
#[local] Instance g_index dek e p now : Guarded (index_best_effort dek e p now).
Proof. unfold index_best_effort, upsert_equality_tag, upsert_equality_tag_with_key, serialize_tag_cipher. guarded_sync. Qed.
#[export] Instance guarded_apply now dek b : Guarded (apply_remote_entry_in_tx now dek b).
Proof.
  unfold apply_remote_entry_in_tx, apply_credential, apply_ssh_key, apply_totp, prepare_credential_blobs, seal_ssh, seal_totp,
    seal_totp_identity_metadata. destruct (b_entry_type b); guarded_sync.
Qed.
End Apply.

(** ** The run of a page *)

(** What happens to a foreign mutation: it is applied as a whole, or kept as a
    dead letter. *)
Inductive Event :=
| EvApplied (e : MutationLogEntry)
| EvDead (e : MutationLogEntry) (reason : string).
Definition event_entry (x : Event) : MutationLogEntry := match x with EvApplied e => e | EvDead e _ => e end.
Definition foreign (device_id : Uuid) (e : MutationLogEntry) : bool := negb (bool_decide (origin_device_id (mutation e) = device_id)).

(** The fields a device of the vault authenticates, separated by bars. *)
Definition metadata_fields `{Sha256} (m : MutationV2) : list bytes := [
  METADATA_MAC_VERSION; uuid_as_bytes (SyncWire.vault_id m); uuid_as_bytes (object_id m);
  as_bytes (match object_type m with TCredential => "credential" | TSshKey => "ssh_key" | TTotpSecret => "totp_secret" end);
  to_be_bytes 8 (ov (expected_version m)); to_be_bytes 8 (ov (resulting_version m)); to_be_bytes 8 (key_epoch m);
  uuid_as_bytes (origin_device_id m); [if SyncWire.is_tombstone m then Byte.x01 else Byte.x00];
  uuid_as_bytes (mutation_id m); sha256 (encrypted_payload m)].
Fixpoint bar_joined (l : list bytes) : bytes :=
  match l with
  | [] => []
  | [x] => x
  | x :: l => x ++ Byte.x7c :: bar_joined l
  end.

(** A mutation of a device that holds the vault's key, under the id of its
    content coordinates, and not older than the keys of this vault. *)
Record authentic_mutation `{Sha256, Hmac} (mac_key : bytes) (epoch : Z) (m : MutationV2) : Prop := {
  am_mac : metadata_mac m = hmac_sha256 mac_key (bar_joined (metadata_fields m));
  am_id : mutation_id m = uuid_from_bytes (set_version_bits (take 16 (sha256 (uuid_as_bytes MUTATION_ID_NAMESPACE ++
            uuid_as_bytes (SyncWire.vault_id m) ++ uuid_as_bytes (object_id m) ++ to_be_bytes 8 (ov (resulting_version m))))));
  am_epoch : epoch <= key_epoch m;
}.

(** The configuration after a page: the cursor is the page's, the high-water
    mark is the highest server sequence seen so far, and what the user
    configured is as it was. *)
Record moved_to (response : PullResponseV2) (old : option SyncMetaRow) (row : SyncMetaRow) : Prop := {
  mv_cursor : sm_last_pull_sequence row = u64_as_i64 (sc (pl_cursor response));
  mv_high_water : exists hw, sm_lineage_high_water row = u64_as_i64 hw /\
    let before := match old with Some o => Z.max (sm_lineage_high_water o) 0 | None => 0 end in
    before <= hw /\ Forall (fun e => sc (server_sequence e) <= hw) (pl_entries response) /\
    (hw = before \/ exists e, e ∈ pl_entries response /\ hw = sc (server_sequence e));
  mv_others : forall o, old = Some o -> sm_sync_enabled row = sm_sync_enabled o /\ sm_device_name row = sm_device_name o /\
    sm_relay_url row = sm_relay_url o /\ sm_last_sync_at row = sm_last_sync_at o /\
    (in_i64 (sm_last_push_sequence o) -> sm_last_push_sequence row = sm_last_push_sequence o);
}.

Lemma observed_max_spec l :
  Forall (fun e => sc (server_sequence e) <= observed_max l) l /\
  (observed_max l = 0 \/ exists e, e ∈ l /\ observed_max l = sc (server_sequence e)).
Proof.
  unfold observed_max. assert (forall l m, m <= fold_left (fun m e => Z.max m (sc (server_sequence e))) l m /\
    Forall (fun e => sc (server_sequence e) <= fold_left (fun m e => Z.max m (sc (server_sequence e))) l m) l /\
    (fold_left (fun m e => Z.max m (sc (server_sequence e))) l m = m \/
     exists e, e ∈ l /\ fold_left (fun m e => Z.max m (sc (server_sequence e))) l m = sc (server_sequence e))) as G.
  { clear l. induction l as [|e l IH]; intros m; simpl; [split_and!; [lia|constructor|by left]|].
    destruct (IH (Z.max m (sc (server_sequence e)))) as (H1 & H2 & H3). split_and!; [lia|constructor; [lia|done]|].
    destruct H3 as [->|(x & Hx & ->)]; [|right; exists x; split; [by right|done]].
    destruct (Z.max_spec m (sc (server_sequence e))) as [[_ ->]|[_ ->]]; [right; exists e; split; [left|done]|by left]. }
  destruct (G l 0) as (_ & ? & ?). done.
Qed.

Section Page.
Context `{Environment, Hmac, Sha256, HexDecode, UuidText, Base64, Base32, Aead, UrlParse}.
Context `{SerdeBytes AadContext, SerdeBytes EnvelopeDoc, SerdeBytes EntryTuple, SerdeBytes MappingTuple, SerdeBytes TagTuple}.
Context `{SerdeBytes CustodyTuple, SerdeBytes State, SerdeBytes Document}.
Context `{SerdeBytes CredentialPayload, SerdeBytes SshKeyPayload, SerdeBytes TotpPayload}.
Context `{Bincode EncryptedEntry, BincodeSer EncryptedEntry, BincodeSer bytes}.
Context `{ErrorText}.

Section Run.
Context (now : Z) (dek : bytes) (device_id : Uuid) (mac_key : bytes) (epoch : Z).

(** Only an authentic mutation is applied, where it has to land; what is not
    authentic, or failed to apply and left the database as it was, is stored
    under its server sequence, which held nothing. *)
Inductive run : list Event -> World -> World -> Prop :=
| run_done w w' : w_db w' = w_db w -> run [] w w'
| run_undone tr w w1 w' : w_db w1 = w_db w -> run tr w1 w' -> run tr w w'
| run_applied e tr w w1 w' :
    authentic_mutation mac_key epoch (mutation e) ->
    apply_remote_entry_in_tx now dek (blob_from_log_mutation (mutation e)) w = (Ok tt, w1) ->
    landing now (mutation e) (w_db w) (w_db w1) -> same_sync (w_db w) (w_db w1) ->
    run tr w1 w' -> run (EvApplied e :: tr) w w'
| run_dead e reason tr w w1 w' :
    ~ authentic_mutation mac_key epoch (mutation e) \/
      (exists w2 w3 err, w_db w2 = w_db w /\
        apply_remote_entry_in_tx now dek (blob_from_log_mutation (mutation e)) w2 = (Err err, w3)) ->
    sync_dead_letter (w_db w) !! u64_as_i64 (sc (server_sequence e)) = None ->
    w_db w1 = {| (w_db w) with sync_dead_letter := <[u64_as_i64 (sc (server_sequence e)) := {|
      dl_mutation_id := uuid_to_string (mutation_id (mutation e)); dl_object_id := uuid_to_string (object_id (mutation e));
      dl_object_type := type_debug (object_type (mutation e)); dl_reason := reason; dl_received_at := now |}]>
      (sync_dead_letter (w_db w)) |} ->
    run tr w1 w' -> run (EvDead e reason :: tr) w w'.

Lemma refuse_none m : refuse_mutation mac_key epoch m = Ok None -> authentic_mutation mac_key epoch m.
Proof.
  unfold refuse_mutation, verify_mutation_mac, verify_mac. simpl. case_bool_decide as Em; [|done]. simpl.
  case_bool_decide as Ei; [|done]. simpl. destruct (Z.ltb_spec (key_epoch m) epoch); [done|]. intros _.
  constructor; [by rewrite <- Em|exact Ei|done].
Qed.
Lemma refuse_some m reason : refuse_mutation mac_key epoch m = Ok (Some reason) -> ~ authentic_mutation mac_key epoch m.
Proof.
  intros E [Hm Hi He]. revert E. unfold refuse_mutation, verify_mutation_mac, verify_mac. simpl.
  rewrite bool_decide_true by (symmetry; exact Hm). simpl. rewrite bool_decide_true by exact Hi. simpl.
  by rewrite (proj2 (Z.ltb_ge _ _) He).
Qed.
Lemma dead_letter_run e reason tr w w1 w' u :
  ~ authentic_mutation mac_key epoch (mutation e) \/
    (exists w2 w3 err, w_db w2 = w_db w /\
      apply_remote_entry_in_tx now dek (blob_from_log_mutation (mutation e)) w2 = (Err err, w3)) ->
  dead_letter_entry now e reason w = (Ok u, w1) -> run tr w1 w' -> run (EvDead e reason :: tr) w w'.
Proof.
  intros Hwhy Hd Hr. unfold dead_letter_entry in Hd. apply execute_res_ok in Hd as (db & E & ->). result_inv. subst.
  refine (run_dead e reason tr w _ w' Hwhy _ _ Hr); [|reflexivity]. propify. by apply eq_None_not_Some.
Qed.
Lemma applied_run e tr w w1 w' :
  authentic_mutation mac_key epoch (mutation e) ->
  apply_remote_entry_in_tx now dek (blob_from_log_mutation (mutation e)) w = (Ok tt, w1) ->
  run tr w1 w' -> run (EvApplied e :: tr) w w'.
Proof.
  intros Ha E Hr. eapply run_applied; [exact Ha|exact E|by eapply apply_lands|by eapply respects_step, E; apply _|exact Hr].
Qed.

Lemma run_app tr1 tr2 w w1 w' : run tr1 w w1 -> run tr2 w1 w' -> run (tr1 ++ tr2) w w'.
Proof.
  intros R1 R2. induction R1 as [w w1 E|tr w w2 w1 E _ IH|e tr w w2 w1 Hr Ha Hl Hs _ IH|e reason tr w w2 w1 Hwhy Hn Hd _ IH]; simpl.
  - by eapply run_undone.
  - eapply run_undone; eauto.
  - eapply run_applied; eauto.
  - eapply run_dead; eauto.
Qed.

(** A run keeps unpushed edits and the configuration. *)
Lemma run_keeps tr w w' : run tr w w' -> keeps (w_db w) (w_db w').
Proof.
  induction 1 as [w w1 E|tr w w2 w1 E _ IH|e tr w w2 w1 Hr Ha Hl Hs _ IH|e reason tr w w2 w1 Hwhy Hn Hd _ IH].
  - by rewrite E.
  - by rewrite E in IH.
  - etrans; [by eapply apply_keeps|done].
  - etrans; [|exact IH]. apply same_rows_keeps. rewrite Hd. by intros [].
Qed.
Lemma run_config tr w w' : run tr w w' -> sync_metadata (w_db w') = sync_metadata (w_db w).
Proof.
  induction 1 as [w w1 E|tr w w2 w1 E _ IH|e tr w w2 w1 Hr Ha Hl Hs _ IH|e reason tr w w2 w1 Hwhy Hn Hd _ IH].
  - by rewrite E.
  - by rewrite IH, E.
  - rewrite IH. apply Hs.
  - by rewrite IH, Hd.
Qed.

(** An attempt inside a savepoint. *)
Lemma attempt_cases b w r w' :
  try (transaction (apply_remote_entry_in_tx now dek b)) w = (Ok r, w') ->
  (r = Ok tt /\ apply_remote_entry_in_tx now dek b w = (Ok tt, w')) \/
  (exists e w2, r = Err e /\ apply_remote_entry_in_tx now dek b w = (Err e, w2) /\ w_db w' = w_db w).
Proof.
  unfold try, transaction. destruct (apply_remote_entry_in_tx now dek b w) as [[[]|e] w1]; intros [= <- <-]; eauto 6.
Qed.

(** The first pass. *)
Lemma pull_entry_run e w r w' :
  pull_entry now dek device_id mac_key epoch e w = (Ok r, w') ->
  match r with
  | Some reason => w_db w' = w_db w /\ foreign device_id e = true /\ authentic_mutation mac_key epoch (mutation e)
  | None => exists tr, run tr w w' /\ List.map event_entry tr = (if foreign device_id e then [e] else [])
  end.
Proof.
  unfold pull_entry, foreign. intros E. case_bool_decide as Ho; simpl.
  { m_inv. exists []. split; [by apply run_done|done]. }
  apply M_bind_ok in E as (refused & w1 & [Er <-]%M_lift_ok & E). destruct refused as [reason|].
  - apply refuse_some in Er. apply M_bind_ok in E as ([] & w1 & Ed & E). m_inv. exists [EvDead e reason]. split; [|done].
    eapply dead_letter_run; [by left|exact Ed|by apply run_done].
  - apply refuse_none in Er. apply M_bind_ok in E as (r' & w1 & Ea & E). apply attempt_cases in Ea as [[-> Ea]|(err & w2 & -> & Ea & Edb)].
    + m_inv. exists [EvApplied e]. split; [|done]. eapply applied_run; [done|exact Ea|by apply run_done].
    + assert ((exists m, err = SyncDeferred m) \/ (exists w2, dead_letter_entry now e (error_text err) w1 = (Ok tt, w2) /\ r = None /\ w' = w2)) as Hc.
      { destruct err; try (left; eexists; reflexivity); right; apply M_bind_ok in E as ([] & w3 & Ed & E); m_inv; eauto. }
      destruct Hc as [(m & ->)|(w3 & Ed & -> & ->)]; [by m_inv|]. exists [EvDead e (error_text err)]. split; [|done].
      eapply run_undone; [exact Edb|]. eapply dead_letter_run; [right; by exists w, w2, err|exact Ed|by apply run_done].
Qed.

Lemma pull_entries_run l w def w' :
  pull_entries now dek device_id mac_key epoch l w = (Ok def, w') ->
  exists tr, run tr w w' /\ List.map event_entry tr ++ List.map fst def ≡ₚ List.filter (foreign device_id) l /\
    Forall (fun x => authentic_mutation mac_key epoch (mutation x.1)) def.
Proof.
  revert w def. induction l as [|e l IH]; intros w def E; simpl in E.
  - m_inv. exists []. split_and!; [by apply run_done|done|constructor].
  - apply M_bind_ok in E as (r & w1 & E1 & E). apply M_bind_ok in E as (def' & w2 & E2 & E). m_inv.
    apply IH in E2 as (tr2 & R2 & P2 & F2). apply pull_entry_run in E1. destruct r as [reason|].
    + destruct E1 as (Edb & Hf & Hr). exists tr2. split_and!; [by eapply run_undone| |by constructor].
      simpl. rewrite Hf. simpl. rewrite <- P2. symmetry. apply Permutation_middle.
    + destruct E1 as (tr1 & R1 & P1). exists (tr1 ++ tr2). split_and!; [by eapply run_app| |done].
      rewrite map_app, P1, <- app_assoc, P2. simpl. by destruct (foreign device_id e).
Qed.

(** The second pass. *)
Lemma requeue_run def w u w' :
  Forall (fun x => authentic_mutation mac_key epoch (mutation x.1)) def ->
  requeue now dek def w = (Ok u, w') -> exists tr, run tr w w' /\ List.map event_entry tr = List.map fst def.
Proof.
  intros F. revert w. induction F as [|[e reason] def Hr _ IH]; intros w E; simpl in E.
  - m_inv. exists []. split; [by apply run_done|done].
  - apply M_bind_ok in E as (r & w1 & Ea & E). apply M_bind_ok in E as ([] & w2 & Ed & E). apply IH in E as (tr & R & P).
    apply attempt_cases in Ea as [[-> Ea]|(err & w3 & -> & Ea & Edb)].
    + injection Ed as <-. exists (EvApplied e :: tr). split; [eapply applied_run; [exact Hr|exact Ea|exact R]|]. simpl. by rewrite P.
    + exists (EvDead e ("unresolved after one requeue pass: " +:+ reason +:+ " (" +:+ error_text err +:+ ")") :: tr).
      split; [|simpl; by rewrite P]. eapply run_undone; [exact Edb|].
      eapply dead_letter_run; [right; by exists w, w3, err|exact Ed|exact R].
Qed.
End Run.

#[export] Instance guarded_dead now e reason : Guarded (dead_letter_entry now e reason).
Proof. unfold dead_letter_entry. guarded. Qed.
#[export] Instance guarded_page now dek device_id response : Guarded (page_body now dek device_id response).
Proof.
  assert (forall l k ep, Guarded (pull_entries now dek device_id k ep l)) as G1.
  { induction l as [|e l IH]; intros k ep; simpl; [apply _|]. unfold pull_entry. guarded_sync; apply IH. }
  assert (forall l, Guarded (requeue now dek l)) as G2.
  { induction l as [|[e reason] l IH]; simpl; [apply _|]. guarded_sync; apply IH. }
  unfold page_body, read_local_identity. guarded_sync; auto.
Qed.

Context `{!Sha256Laws, !HexDecodeLaws, !SerdeBytesLaws Document}.

Lemma page_body_run now dek device_id response w hw w' :
  page_body now dek device_id response w = (Ok hw, w') ->
  exists mac_key tr w1, derive_metadata_mac_key dek = Ok mac_key /\
    run now dek mac_key (epoch_of (metadata (w_db w))) tr w w1 /\
    List.map event_entry tr ≡ₚ List.filter (foreign device_id) (pl_entries response) /\
    Z.of_nat (size (sync_dead_letter (w_db w1))) <= MAX_DEAD_LETTER /\
    w_db w' = config_save (advance response (config_load (w_db w1))) (w_db w1) /\
    hw = lineage_high_water (advance response (config_load (w_db w1))).
Proof.
  unfold page_body, read_local_identity. intros E.
  apply M_bind_ok in E as (k & w1 & [Hk%map_err_ok <-]%M_lift_ok & E). apply M_bind_ok in E as ([v ep] & w1 & E1 & E).
  apply M_bind_ok in E1 as (db & w2 & [-> <-]%M_query_ok & E1). apply M_bind_ok in E1 as (v' & w2 & [_ <-]%M_lift_ok & E1).
  assert (ep = epoch_of (metadata (w_db w)) /\ w1 = w) as [-> ->] by (by inversion E1).
  apply M_bind_ok in E as (def & w1 & Ep & E). apply M_bind_ok in E as (u & w2 & Er & E).
  apply M_bind_ok in E as (n & w3 & [-> <-]%M_query_ok & E). apply M_bind_ok in E as (u' & w3 & Ef & E).
  apply M_lift_ok in Ef as [Ef%err_if_ok <-]. apply M_bind_ok in E as (c & w3 & [-> <-]%M_query_ok & E).
  apply pull_entries_run in Ep as (tr1 & R1 & P1 & F1). apply (requeue_run _ _ k (epoch_of (metadata (w_db w)))) in Er as (tr2 & R2 & P2); [|done].
  exists k, (tr1 ++ tr2), w2. apply Z.ltb_ge in Ef. inversion E. subst. split_and!; try done.
  - by eapply run_app.
  - by rewrite map_app, P2.
Qed.

Lemma i64_as_u64_as_i64 x : in_i64 x -> u64_as_i64 (i64_as_u64 x) = x.
Proof.
  unfold in_i64, i64_as_u64, u64_as_i64. intros. destruct (x <? 0) eqn:E; propify; case_goal; propify; lia.
Qed.

Lemma page_moved response db old :
  sync_metadata db = old ->
  exists row, config_save (advance response (config_load db)) db = {| db with sync_metadata := Some row |} /\
    moved_to response old row.
Proof.
  intros Hold. eexists. split; [reflexivity|]. destruct (observed_max_spec (pl_entries response)) as [Hall Hex].
  assert (forall hw0 before, hw0 = before -> 0 <= before -> let hw := Z.max hw0 (observed_max (pl_entries response)) in
    before <= hw /\ Forall (fun e => sc (server_sequence e) <= hw) (pl_entries response) /\
    (hw = before \/ exists e, e ∈ pl_entries response /\ hw = sc (server_sequence e))) as Hmax.
  { intros hw0 before -> Hge hw. split_and!; [unfold hw; lia|eapply Forall_impl; [exact Hall|]; intros e He; cbv beta in He; unfold hw; lia|].
    destruct (Z.max_spec before (observed_max (pl_entries response))) as [[Hlt E]|[_ E]]; unfold hw; rewrite E; [|by left].
    destruct Hex as [E0|(e & He & Ee)]; [left; lia|right; eauto]. }
  constructor.
  - reflexivity.
  - eexists. split; [reflexivity|]. apply Hmax; [|destruct old; lia]. unfold config_load. rewrite Hold. by destruct old.
  - intros o ->. unfold config_load. rewrite Hold. cbn. split_and!; [done..|]. intros Hp. by apply i64_as_u64_as_i64.
Qed.

(** C12. A pull page is applied as a unit and nothing in it is lost.  Either
    the database is as before and the pull fails, or every
    mutation of another device in the page was disposed of exactly once.  It
    was applied as a whole, and landed (see [landing]), only when its MAC
    under the vault's key covers all its coordinates and its payload, its id is
    the one of its content coordinates and its key epoch is not below the
    vault's; otherwise, or when its application failed, it was stored as a dead
    letter under its server sequence, where none was.  The dead letters stay
    within their bound; then only the row of the configuration changes: the
    cursor becomes the page's and the high-water mark the highest server
    sequence seen. *)
Theorem pull_page_disposed now dek device_id response w r w' :
  in_step dek w -> content_tx dek (page_body now dek device_id response) w = (r, w') ->
  (w_db w' = w_db w /\ is_ok r = false) \/
  exists w0 w1 mac_key tr row, w_db w0 = (if w_on_disk w then mark (w_db w) else w_db w) /\
    hkdf_expand dek METADATA_MAC_KEY_INFO 32 = Some mac_key /\
    run now dek mac_key (epoch_of (metadata (w_db w))) tr w0 w1 /\
    List.map event_entry tr ≡ₚ List.filter (foreign device_id) (pl_entries response) /\
    Z.of_nat (size (sync_dead_letter (w_db w1))) <= 1000 /\
    w_db w' = {| (w_db w1) with sync_metadata := Some row |} /\
    moved_to response (sync_metadata (w_db w)) row.
Proof.
  intros Hs Ht. destruct (content_tx_safe _ _ _ _ _ _ Hs (guarded_page _ _ _ _) Ht) as (_ & _ & [?|(a & w0 & w2 & E0 & Eb & Edb & Er)]);
    [by left|right].
  apply page_body_run in Eb as (k & tr & w1 & Hk & R & ? & ? & E & _). pose proof (run_config _ _ _ _ _ _ _ R) as Hc.
  destruct (page_moved response (w_db w1) (sync_metadata (w_db w))) as (row & Erow & Hm).
  { rewrite Hc, E0. by destruct (w_on_disk w). }
  exists w0, w1, k, tr, row. split_and!; try done; [| |congruence].
  - unfold derive_metadata_mac_key in Hk. destruct (hkdf_expand _ _ _); [by injection Hk as ->|done].
  - by replace (metadata (w_db w)) with (metadata (w_db w0)) by (rewrite E0; by destruct (w_on_disk w)).
Qed.

Lemma page_keeps now dek device_id response w r w' :
  in_step dek w -> content_tx dek (page_body now dek device_id response) w = (r, w') ->
  in_step dek w' /\ keeps (w_db w) (w_db w').
Proof.
  intros Hs Ht. destruct (content_tx_safe _ _ _ _ _ _ Hs (guarded_page _ _ _ _) Ht) as (Hs' & _ & Ho). split; [done|].
  destruct Ho as [[-> _]|(a & w0 & w2 & E0 & Eb & -> & _)]; [done|].
  apply page_body_run in Eb as (k & tr & w1 & _ & R & _ & _ & -> & _). etrans; [|etrans; [exact (run_keeps _ _ _ _ _ _ _ R)|]].
  - apply same_rows_keeps. rewrite E0. destruct (w_on_disk w); by intros [].
  - apply same_rows_keeps. by intros [].
Qed.

(** ** The pull *)

Context `{SyncTransport}.

(** A transport that talks to the relay only. *)
Definition quiet_transport : Prop := forall q w, quiet w (pull_v2 q w).2.

Lemma pull_loop_keeps fuel now dek device_id cursor hw total w r w' :
  quiet_transport -> in_step dek w -> pull_loop fuel now dek device_id cursor hw total w = (r, w') ->
  in_step dek w' /\ keeps (w_db w) (w_db w').
Proof.
  intros Hq. revert cursor hw total w. induction fuel as [|fuel IH]; intros cursor hw total w Hs E; simpl in E;
    [by injection E as <- <-|].
  pose proof (Hq (pull_request cursor) w) as Q. unfold mbind at 1, M_bind at 1 in E.
  destruct (pull_v2 (pull_request cursor) w) as [[response|e] w1] eqn:Ep; simpl in Q.
  2:{ injection E as <- <-. split; [by eapply in_step_quiet|]. by destruct Q as (-> & _). }
  pose proof (in_step_quiet _ _ _ Q Hs) as Hs1. assert (keeps (w_db w) (w_db w1)) as K1 by (by destruct Q as (-> & _)).
  destruct (pl_entries response) as [|e0 l0] eqn:El; [by injection E as <- <-|].
  rewrite !M_fail_if in E. destruct (_ <=? cursor); [by injection E as <- <-|]. destruct (_ <? hw); [by injection E as <- <-|].
  unfold mbind, M_bind in E.
  destruct (content_tx dek (page_body now dek device_id response) w1) as [r2 w2] eqn:Et.
  apply page_keeps in Et as [Hs2 K2]; [|done]. destruct r2 as [hw'|err]; [|injection E as <- <-; split; [done|by etrans]].
  destruct (pl_has_more response).
  - apply IH in E as [? K3]; [|done]. split; [done|]. by do 2 (etrans; [eassumption|]).
  - injection E as <- <-. split; [done|by etrans].
Qed.

(** C11. A pull never overwrites an edit that was not pushed.  However the
    pull ends, a row of any of the three tables that is pending or conflicted
    is still there with its content, its version and its tombstone as they
    were, and still pending or conflicted; at most the peer's version is
    recorded beside it. *)
Theorem unpushed_edits_survive fuel now dek device_id w r w' t x :
  quiet_transport -> in_step dek w -> ids_unique (w_db w) -> pull_changes fuel now dek device_id w = (r, w') ->
  x ∈ rows t (w_db w) -> unsynced (sync_state (row_cols x)) = true ->
  exists x', x' ∈ rows t (w_db w') /\ kept x x'.
Proof.
  intros Hq Hs Hu E Hx Hun. unfold pull_changes in E.
  rewrite (M_bind_run (query config_load) _ w _ w eq_refl) in E.
  apply pull_loop_keeps in E as [_ K]; [|done..]. exact (proj2 (K Hu) t x Hx Hun).
Qed.

(** C39. A pull ends, whatever the relay answers: every page that asks for
    another moves the cursor up, and the cursor is a 64-bit number. *)
Theorem pull_terminates fuel now dek device_id w :
  (forall q w1 p w2, pull_v2 q w1 = (Ok p, w2) -> in_u64 (sc (pl_cursor p))) ->
  0 <= last_pull_sequence (config_load (w_db w)) -> (Z.to_nat (2 ^ 64) < fuel)%nat ->
  (pull_changes fuel now dek device_id w).1 <> Ok None.
Proof.
  intros Hc Hge Hf. unfold pull_changes. rewrite (M_bind_run (query config_load) _ w _ w eq_refl).
  set (cursor := last_pull_sequence _) in *. set (hw := lineage_high_water _).
  assert (Z.to_nat (2 ^ 64 - cursor) < fuel)%nat as Hm by lia. clear Hf. clearbody cursor hw. generalize 0 at 1 as total.
  revert cursor hw w Hge Hm. induction fuel as [|fuel IH]; intros cursor hw w Hge Hm total; [lia|]. simpl.
  unfold mbind at 1, M_bind at 1. destruct (pull_v2 (pull_request cursor) w) as [[p|e] w1] eqn:Ep; [|done].
  destruct (pl_entries p) as [|e0 l0] eqn:El; [done|]. rewrite !M_fail_if.
  destruct (sc (pl_cursor p) <=? cursor) eqn:Ec; [done|]. destruct (_ <? hw); [done|]. unfold mbind, M_bind.
  destruct (content_tx dek _ w1) as [[hw'|err] w2]; [|done]. destruct (pl_has_more p); [|done].
  apply Hc in Ep. unfold in_u64 in Ep. apply Z.leb_gt in Ec. apply IH; lia.
Qed.
End Page.
