(* ===== verification/SyncDeliver.v ===== *)
(** * Core: an edit on one device reaches another

    The payload one device collects and encrypts is the entry another device
    shows after it has applied it. *)

From S2P Require Import Prelude Text ThirdParty Aad Envelope Keyring CoreError EnvelopeOps SyncWire DomainTags KeySlots VaultKeys LocalDb ContentGuard ContentFacts Registry Entries EntriesFacts DomainOps Totp SyncModels SyncOutbox SyncApply SyncEngine SyncFacts.
From Stdlib Require Import ZArith Lia Strings.String Strings.Byte.
From stdpp Require Import base list option strings numbers gmap.
From S2P Require Import Text SyncWire.
Open Scope Z_scope.

(** The entry a payload carries, and the payload of an entry. *)
Definition entry_of_payload (p : CredentialPayload) : Entry := {|
  en_entry_id := None; en_title := cp_title p; en_username := cp_username p; en_password := cp_password p; en_url := cp_url p;
  en_notes := cp_notes p; en_credential_type := cp_credential_type p; en_created_at := cp_created_at p;
  en_modified_at := cp_modified_at p; en_favorite := cp_favorite p |}.
Definition payload_of (e : Entry) (r : EntryRow) (domains : list DomainPayload) : CredentialPayload := {|
  cp_title := en_title e; cp_username := en_username e; cp_password := en_password e; cp_credential_type := en_credential_type e;
  cp_url := en_url e; cp_notes := en_notes e; cp_favorite := e_favorite r; cp_domains := domains; cp_created_at := e_created_at r;
  cp_modified_at := e_modified_at r |}.

(** The fields of a row. *)
Definition row_fields (r : EntryRow) : SealedEntryFields := {|
  sf_title := e_title r; sf_username := e_username r; sf_password := e_password r; sf_url := e_url r; sf_notes := e_notes r |}.

Section Deliver.
Context `{Environment, Chrono, Hmac, Sha256, HexDecode, UuidText, Base64, Base32, Aead, UrlParse}.
Context `{SerdeBytes AadContext, SerdeBytes EnvelopeDoc, SerdeBytes EntryTuple, SerdeBytes MappingTuple, SerdeBytes TagTuple}.
Context `{SerdeBytes CustodyTuple, SerdeBytes State, SerdeBytes Document}.
Context `{SerdeBytes CredentialPayload, SerdeBytes SshKeyPayload, SerdeBytes TotpPayload}.
Context `{Bincode EncryptedEntry, BincodeSer EncryptedEntry, BincodeSer bytes}.
Context `{!EnvironmentLaws, !Sha256Laws, !HexDecodeLaws, !UuidTextLaws, !Base64Laws, !AeadLaws, !SerdeBytesLaws AadContext}.
Context `{!SerdeBytesLaws EnvelopeDoc, !EnvelopeJson, !SerdeBytesLaws Document, !SerdeBytesLaws CredentialPayload}.
Context `{!SerdeBytesLaws EntryTuple, !SerdeBytesLaws MappingTuple, !SerdeBytesLaws TagTuple, !SerdeBytesLaws CustodyTuple}.

(** ** Transport encryption *)

Lemma sync_decrypt_encrypt n dek m ct :
  length n = 12%nat -> encrypt_for_sync n dek m = Ok ct -> decrypt_from_sync dek ct = Ok m.
Proof.
  intros Hn E. unfold encrypt_for_sync in E. result_inv. subst ct. unfold decrypt_from_sync.
  match goal with E : gcm_encrypt _ _ _ _ = Some ?c |- _ => pose proof (gcm_encrypt_length _ _ _ _ _ E) as Hl;
    pose proof (gcm_decrypt_encrypt _ _ _ _ _ E) as Hd end.
  assert (m <> []) as Hm by (intros ->; by rewrite bool_decide_true in * ).
  rewrite (proj2 (Nat.ltb_ge _ _)).
  - simpl. by rewrite take_app_length', drop_app_length', Hd.
  - rewrite length_app. destruct m; [done|simpl in *; lia].
Qed.

(** ** The sender *)

Section Sender.
Context (dek : bytes) (v o : string) (epoch : Z).

Lemma migration_open_sealed c p text b :
  seals dek v o (envelope_object_type c) epoch p text b -> utf8 (as_bytes text) = true ->
  contexts_fit v o (envelope_object_type c) epoch -> blob_fits b ->
  open_entry_field_for_migration dek {| id_vault_uuid := v; id_sync_id := o; id_cred := c |} p b = Ok text.
Proof.
  intros Hs U C B. pose proof (seals_envelope _ _ _ _ _ _ _ _ Hs) as He.
  assert (stored_purpose p b = Ok p) as Ep.
  { unfold stored_purpose. rewrite He. rewrite (proj2 (Z.ltb_ge _ _)) by exact B. simpl.
    destruct Hs as (n & _ & (vu & ou & _ & _ & Hs)%seal_field_inv). apply seal_ok in Hs as (ct & tag & _ & _ & _ & _ & _ & ->).
    rewrite from_slice_to_vec. simpl. case_bool_decide as E; [|by rewrite andb_false_r]. rewrite <- E. by case_match. }
  unfold open_entry_field_for_migration. rewrite Ep. simpl. by apply (seals_open _ _ _ _ epoch).
Qed.

Lemma open_optional_sealed c p text blob :
  seals_opt dek v o (envelope_object_type c) epoch p text blob -> contexts_fit v o (envelope_object_type c) epoch ->
  (forall u, text = Some u -> utf8 (as_bytes u) = true) -> (forall b, blob = Some b -> blob_fits b) ->
  open_optional (fun b => open_entry_field_for_migration dek {| id_vault_uuid := v; id_sync_id := o; id_cred := c |} p b) blob = Some text.
Proof.
  intros Hs C U B. destruct text as [text|], blob as [b|]; simpl in Hs; try done. simpl.
  rewrite bool_decide_false by (by eapply seals_nonempty).
  by rewrite (migration_open_sealed _ _ _ _ Hs (U _ eq_refl) C (B _ eq_refl)).
Qed.

Lemma payload_of_sealed e r domains :
  let t := envelope_object_type (en_credential_type e) in
  sealed_as dek v o t epoch e (row_fields r) -> text_ok e -> row_fits r -> contexts_fit v o t epoch ->
  e_credential_type r = cred_str (en_credential_type e) -> credential_payload dek v o r domains = Some (payload_of e r domains).
Proof.
  intros t (S1 & S2 & S3 & S4 & S5) (U1 & U2 & U3 & U4 & U5) (F1 & F2 & F3 & F4 & F5) C Et. simpl in *.
  unfold credential_payload. rewrite Et, cred_parse_str. cbn -[open_entry_field_for_migration open_optional].
  rewrite !(migration_open_sealed _ _ _ _ S1), !(migration_open_sealed _ _ _ _ S2), !(migration_open_sealed _ _ _ _ S3) by done.
  cbn -[open_entry_field_for_migration open_optional].
  by rewrite (open_optional_sealed _ _ _ _ S4), (open_optional_sealed _ _ _ _ S5).
Qed.
End Sender.

Lemma credential_blob_sealed dek dev v o epoch e r w b w' :
  let t := envelope_object_type (en_credential_type e) in
  sealed_as dek v o t epoch e (row_fields r) -> text_ok e -> row_fits r -> contexts_fit v o t epoch ->
  e_credential_type r = cred_str (en_credential_type e) -> sync_id (e_sync r) = Some o -> is_deleted (e_sync r) = false ->
  credential_blob dek dev v r w = (Ok (Some b), w') ->
  exists u n, uuid_parse_str o = Some u /\ length n = 12%nat /\
    encrypt_for_sync n dek (to_vec (payload_of e r (load_domain_mappings dek v (entry_id r) (w_db w)))) = Ok (b_encrypted_payload b) /\
    b_sync_id b = u /\ b_entry_type b = TCredential /\ b_sync_version b = i64_as_u64 (sync_version (e_sync r)) /\ b_is_tombstone b = false.
Proof.
  intros t Hs T F C Et Eo Ed E. unfold credential_blob in E. apply M_bind_ok in E as ([so u] & w1 & [E1 <-]%M_lift_ok & E).
  unfold row_sync_id in E1. rewrite Eo in E1. simpl in E1. result_inv. simplify_eq.
  apply M_bind_ok in E as (x & w1 & E1 & E). apply (f_equal snd) in E1. change (w = w1) in E1. subst w1. rewrite Ed in E.
  apply M_bind_ok in E as (domains & w1 & [-> <-]%M_query_ok & E). rewrite (payload_of_sealed _ _ _ _ _ _ _ Hs T F C Et) in E.
  apply M_bind_ok in E as (ct & w1 & E1 & E). unfold seal_payload in E1.
  apply M_bind_ok in E1 as (n & w2 & E2 & E1). injection E2 as <- <-. apply M_lift_ok in E1 as [E1%map_err_ok <-].
  injection E as <- <-. eexists _, _. split_and!; try done; try eassumption; apply env_nonce_length.
Qed.

(** ** The receiver *)

Lemma prepare_blobs_ok dek p sid w f w' :
  prepare_credential_blobs dek p sid w = (Ok f, w') ->
  exists v, vault_uuid_col (metadata (w_db w)) = Some v /\ quiet w w' /\
    sealed_as dek v sid (envelope_object_type (cp_credential_type p)) (epoch_of (metadata (w_db w))) (entry_of_payload p) f.
Proof.
  unfold prepare_credential_blobs, read_local_identity. intros E. apply M_bind_ok in E as ([v ep] & w1 & E1 & E).
  apply M_bind_ok in E1 as (db & w2 & [-> <-]%M_query_ok & E1). apply M_bind_ok in E1 as (v' & w2 & [Ev%ok_or_ok <-]%M_lift_ok & E1).
  assert (v = v' /\ ep = epoch_of (metadata (w_db w)) /\ w1 = w) as (-> & -> & ->) by (by inversion E1).
  exists v'. split; [done|]. m_inv.
  repeat match goal with
  | Es : seal_field _ _ _ _ _ _ _ _ = (Ok _, _) |- _ => apply seal_field_ok in Es as [? ?]
  | Es : seal_opt _ _ _ = (Ok _, _) |- _ => apply seal_opt_ok in Es as [? ?]
  end.
  split; [|by split_and!]. do 4 (etrans; [eassumption|]). done.
Qed.

(** Mappings are added under fresh keys, and entries stay. *)
Definition keys_grow (db db' : LocalDb) : Prop := entries db' = entries db /\ (keys_unique db -> keys_unique db').
#[local] Instance keys_grow_preorder : PreOrder keys_grow.
Proof. split; [by intros db|]. intros a b c [E1 K1] [E2 K2]. split; [congruence|auto]. Qed.

Lemma keys_grow_tags mapping domain key db : keys_grow db (write_mapping_tags mapping domain key db).
Proof.
  assert (forall l d, keys_grow d (fold_left (insert_tag mapping) l d)) as G.
  { induction l as [|[t z] l IH]; intros d; [done|]. simpl. etrans; [|apply IH]. split; [done|].
    intros (N1 & N2 & N3 & N4). unfold keys_unique. simpl. split_and!; try done. apply NoDup_key_snoc; [done|].
    intros r Hr. by apply autoincrement_fresh. }
  unfold write_mapping_tags. destruct (compute_domain_chain_tags key domain) as [tags|]; [etrans; [|apply G]|];
    (split; [done|]); intros (N1 & N2 & N3 & N4); unfold keys_unique; simpl; split_and!; try done; by apply NoDup_delete_where.
Qed.

Lemma insert_mapping_grows ctx entry d p w id w' :
  insert_sealed_domain_mapping ctx entry d p w = (Ok id, w') -> keys_grow (w_db w) (w_db w').
Proof.
  unfold insert_sealed_domain_mapping, seal_domain. intros E. m_inv.
  match goal with Es : seal_field _ _ _ _ _ _ _ _ = (Ok _, _) |- _ => apply seal_field_ok in Es as [_ (Q & _)] end.
  simpl in *. rewrite <- Q. etrans; [|apply keys_grow_tags]. split; [done|].
  intros (N1 & N2 & N3 & N4). unfold keys_unique. simpl. split_and!; try done. apply NoDup_key_snoc; [done|].
  intros r Hr. by apply next_rowid_fresh.
Qed.
Lemma insert_mappings_grows ctx entry l w u w' : insert_mappings ctx entry l w = (Ok u, w') -> keys_grow (w_db w) (w_db w').
Proof.
  revert w. induction l as [|d l IH]; intros w E; simpl in E; [by injection E as <- <-|].
  apply M_bind_ok in E as (x & w1 & E1 & E). etrans; [by eapply insert_mapping_grows|by apply IH].
Qed.
Lemma index_grows dek entry p now w r w' : index_best_effort dek entry p now w = (r, w') -> keys_grow (w_db w) (w_db w').
Proof.
  unfold index_best_effort, try, mbind, M_bind. destruct (upsert_equality_tag _ _ _ _ _ w) as [r1 w1] eqn:Eu.
  apply upsert_same_content in Eu. assert (keys_grow (w_db w) (w_db w1)) as G.
  { split; [apply Eu|]. by apply keys_unique_same. }
  destruct r1; intros [= <- <-]; [done|]. etrans; [exact G|done].
Qed.

Lemma identity_world w : (read_local_identity w).2 = w.
Proof. unfold read_local_identity, mbind, M_bind, query, lift. simpl. by destruct (vault_uuid_col _). Qed.

(** What a new credential leaves. *)
Lemma apply_new_credential now dek b p w u w' :
  find_local TCredential (uuid_to_string (b_sync_id b)) (w_db w) = None -> b_is_tombstone b = false -> 0 < b_sync_version b ->
  decrypt_sync_payload dek b = Ok p -> apply_credential now dek b w = (Ok u, w') -> keys_unique (w_db w) ->
  exists id v f, vault_uuid_col (metadata (w_db w)) = Some v /\ (forall r, r ∈ entries (w_db w) -> entry_id r <> id) /\
    keys_unique (w_db w') /\
    entries (w_db w') = entries (w_db w) ++ [new_entry id (uuid_to_string (b_sync_id b)) f p (u64_as_i64 (b_sync_version b)) now] /\
    sealed_as dek v (uuid_to_string (b_sync_id b)) (envelope_object_type (cp_credential_type p)) (epoch_of (metadata (w_db w)))
      (entry_of_payload p) f.
Proof.
  intros Hn Ht Hv Hp E Hu. unfold apply_credential in E. apply M_bind_ok in E as ([v0 ep] & w1 & E1 & E).
  apply (f_equal snd) in E1. rewrite identity_world in E1. simpl in E1. subst w1.
  apply M_bind_ok in E as (k & w2 & [_ <-]%M_lift_ok & E). cbv zeta in E.
  apply M_bind_ok in E as (l & w2 & [-> <-]%M_query_ok & E). rewrite Hn in E.
  assert (skip_new_entry b = false) as Hskip.
  { unfold skip_new_entry, accept_new. rewrite Ht. apply Z.ltb_lt in Hv. by rewrite Hv. }
  rewrite Hskip, Hp in E. apply M_bind_ok in E as (p' & w2 & [[= <-] <-]%M_lift_ok & E).
  apply M_bind_ok in E as (f & w2 & E2 & E). apply prepare_blobs_ok in E2 as (v & Ev & (Q & _) & Hs).
  apply M_bind_ok in E as (id & w3 & [-> <-]%M_query_ok & E). apply M_bind_ok in E as (x & w3 & E3 & E). injection E3 as <- <-.
  apply M_bind_ok in E as (y & w3 & E3 & E). apply insert_mappings_grows in E3. apply index_grows in E.
  assert (keys_grow (w_db w3) (w_db w')) as G by done. destruct (transitivity E3 G) as [Ee Ku]. simpl in Ee, Ku. rewrite Q in *.
  eexists _, v, f. split; [done|]. split; [intros r Hr; by apply autoincrement_fresh|]. split; [|split; [exact Ee|exact Hs]].
  apply Ku. destruct Hu as (N1 & N2 & N3 & N4). unfold keys_unique. simpl. split_and!; try done. apply NoDup_key_snoc; [done|].
  intros r Hr. by apply autoincrement_fresh.
Qed.

(** The pushed row: sealed on its device as the entry [e] under the id [u]. *)
Definition pushed_row (dek : bytes) (v : string) (u : Uuid) (epoch : Z) (e : Entry) (r : EntryRow) : Prop :=
  let t := envelope_object_type (en_credential_type e) in
  sealed_as dek v (uuid_to_string u) t epoch e (row_fields r) /\ text_ok e /\ row_fits r /\ contexts_fit v (uuid_to_string u) t epoch /\
  e_credential_type r = cred_str (en_credential_type e) /\ sync_id (e_sync r) = Some (uuid_to_string u) /\
  is_deleted (e_sync r) = false /\ e_favorite r = en_favorite e /\ 0 < sync_version (e_sync r).

(** C13. An entry travels between devices unchanged.  The blob one device
    collects for a row, applied on a device of the same vault that does not
    have the entry yet, adds one entry; reading it there gives the title, the
    user name, the password, the URL, the notes, the type, the times and the
    mark that were stored on the first device, and every other entry reads as
    before. *)
Theorem edit_reaches_peer dek dev va u epoch e r wa b wa' s vb now w w' :
  pushed_row dek va u epoch e r -> credential_blob dek dev va r wa = (Ok (Some b), wa') ->
  session_dek s = Ok dek -> session_uuid s = Some vb -> vault_uuid_col (metadata (w_db w)) = Some vb -> vault_ok dek w ->
  find_local TCredential (uuid_to_string u) (w_db w) = None ->
  contexts_fit vb (uuid_to_string u) (envelope_object_type (en_credential_type e)) (epoch_of (metadata (w_db w))) ->
  apply_remote_entry now dek b w = (Ok tt, w') -> (forall x, x ∈ entries (w_db w') -> row_fits x) ->
  exists id, forall now' id',
    (get_entry s now' id w).1 = Err (entry_not_found id) /\
    (get_entry s now' id' w').1 =
      if id' =? id then Ok (stored now' id (e_created_at r) (e_modified_at r) e) else (get_entry s now' id' w).1.
Proof.
  intros (Hs & T & F & C & Et & Eo & Ed & Ef & Hver) Hb Hd Hv Hvb Hok Hn Cb Ha Fits.
  destruct (credential_blob_sealed _ _ _ _ _ _ _ _ _ _ Hs T F C Et Eo Ed Hb) as (u' & n & Hu & Hlen & Henc & Eid & Ety & Ever & Etb).
  rewrite uuid_parse_to_string in Hu. injection Hu as <-. unfold apply_remote_entry, apply_remote_entry_in_tx in Ha. rewrite Ety in Ha.
  apply content_tx_run in Ha as (Hs' & w1 & w2 & Hc & Hbody & Edb);
    [|apply Hok|specialize (guarded_apply now dek b); unfold apply_remote_entry_in_tx; by rewrite Ety].
  pose proof Hc as (C1 & _ & _ & _ & _ & C6). set (p := payload_of _ _ _) in Henc.
  assert (decrypt_sync_payload dek b = Ok p) as Hp.
  { unfold decrypt_sync_payload. rewrite (sync_decrypt_encrypt _ _ _ _ Hlen Henc). simpl. by rewrite from_slice_to_vec. }
  apply (apply_new_credential _ _ _ p) in Hbody as (id & v & f & Ev & Hfresh & Ku & Ee & Hsealed).
  2:{ rewrite Eid. simpl in *. by rewrite C1. }
  2:{ done. }
  2:{ rewrite Ever. unfold i64_as_u64. rewrite (proj2 (Z.ltb_ge _ _)); lia. }
  2:{ done. }
  2:{ eapply keys_unique_same; [exact Hc|apply Hok]. }
  rewrite C6 in Ev, Hsealed. rewrite Hvb in Ev. injection Ev as <-. rewrite Eid in *. rewrite C1 in Hfresh, Ee. rewrite <- Edb in Ee, Ku.
  exists id. intros now' id'. rewrite !(get_entry_fst _ _ _ _ _ Hd) by done. unfold shown, get_raw. rewrite Ee.
  pose proof (get_raw_fresh _ _ Hfresh) as En. unfold get_raw in En. rewrite En. split; [done|]. rewrite find_app.
  destruct (id' =? id) eqn:E; propify.
  - subst id'. rewrite En. simpl. rewrite Z.eqb_refl. simpl.
    rewrite (open_sealed_row s dek vb (uuid_to_string u) (epoch_of (metadata (w_db w))) now' (entry_of_payload p)); try done.
    + unfold stored. simpl. by rewrite Ef.
    + apply Fits. rewrite Ee. apply elem_of_app. right. by apply list_elem_of_singleton.
  - clear En. destruct (List.find _ (entries (w_db w))) as [x|]; [done|]. simpl. by rewrite (proj2 (Z.eqb_neq id id')) by congruence.
Qed.
End Deliver.
