(* ===== verification/SyncAcks.v ===== *)
(** * Core: what acknowledgements, resolutions and the configuration keep

    A row leaves the outbox only under an acknowledgement of the version that
    was sent for it, and an edit made in the meantime leaves with it; resolving
    a conflict in favour of the local side makes it pushable; the sync
    configuration and the padded payloads read back as written. *)

From S2P Require Import Prelude Text ThirdParty Aad Envelope CoreError EnvelopeOps SyncWire KeySlots LocalDb EntriesFacts SyncModels SyncOutbox SyncApply SyncEngine SyncFacts.
From Stdlib Require Import ZArith Lia Strings.String Strings.Byte.
From stdpp Require Import base list option strings numbers gmap.
From S2P Require Import Text SyncWire.
Open Scope Z_scope.

(** The sync bookkeeping of a row moved, and nothing else of it. *)
Definition rebooked (x x' : Row) : Prop :=
  let c := row_cols x in let c' := row_cols x' in
  x' = with_cols (fun _ => c') x /\ sync_id c' = sync_id c /\ is_deleted c' = is_deleted c /\ deleted_at c' = deleted_at c /\
  sync_version c <= sync_version c'.

Section Acks.
Context `{UuidText}.
Context (now : Z) (mutations : list OutboxMutation) (results : list MutationResult).

(** A mutation was sent for the row. *)
Definition sent_for (t : SyncEntryType) (sid : option string) (o : OutboxMutation) : Prop :=
  o ∈ mutations /\ om_object_type o = t /\ sid = Some (uuid_to_string (om_object_id o)).

(** The relay reported a mutation this device sent for the row as applied, at
    the version it was sent. *)
Definition acknowledged (t : SyncEntryType) (sid : option string) (version : Z) : Prop :=
  exists o r seq, sent_for t sid o /\ r ∈ results /\ mr_mutation_id r = mutation_id (om_mutation o) /\
    mr_outcome r = Applied (resulting_version (om_mutation o)) seq /\
    version = u64_as_i64 (ov (resulting_version (om_mutation o))).
Record ack_step (t : SyncEntryType) (x x' : Row) : Prop := {
  as_rebooked : rebooked x x';
  as_frame : (forall o, ~ sent_for t (sync_id (row_cols x)) o) -> x' = x;
  as_leaves : sync_state (row_cols x') = Synced ->
    (sync_state (row_cols x) = Synced /\ sync_acked_version (row_cols x') = sync_acked_version (row_cols x)) \/
    acknowledged t (sync_id (row_cols x)) (sync_acked_version (row_cols x'));
}.
Definition ack_steps (db db' : LocalDb) : Prop := forall t, Forall2 (ack_step t) (rows t db) (rows t db').

Lemma ack_step_refl t x : ack_step t x x.
Proof. split; [|done|auto]. unfold rebooked. split_and!; try done. by destruct x as [[]|[]|[]]. Qed.
Lemma ack_step_trans t x y z : ack_step t x y -> ack_step t y z -> ack_step t x z.
Proof.
  intros [(E1 & I1 & D1 & A1 & V1) F1 S1] [(E2 & I2 & D2 & A2 & V2) F2 S2]. split.
  - unfold rebooked. split_and!; try congruence; [|lia]. rewrite E2, E1. by destruct x.
  - intros Hno. rewrite I1 in F2. by rewrite F2, F1.
  - intros Hz. rewrite I1 in S2. destruct (S2 Hz) as [[Hy ->]|?]; [auto|by right].
Qed.
Lemma ack_list_refl t l : Forall2 (ack_step t) l l.
Proof. induction l; constructor; auto using ack_step_refl. Qed.
#[local] Instance ack_steps_preorder : PreOrder ack_steps.
Proof.
  split.
  - intros db t. apply ack_list_refl.
  - intros a b c Hab Hbc t. specialize (Hab t). specialize (Hbc t). revert Hbc. generalize (rows t c). induction Hab as [|x y l l' Hxy _ IH];
      intros lc Hbc; inversion_clear Hbc; constructor; eauto using ack_step_trans.
Qed.
Lemma same_rows_ack db db' : same_rows db db' -> ack_steps db db'.
Proof. intros E t. rewrite (E t). apply ack_list_refl. Qed.

(** A statement on the rows of one id. *)
Lemma update_sync_ack t sid f db :
  (forall x, has_sync_id sid (row_cols x) = true -> ack_step t x (with_cols f x)) -> ack_steps db (update_sync t sid f db).
Proof.
  intros Hf t'. rewrite rows_update_sync. destruct (decide (t' = t)) as [->|]; [|apply ack_list_refl].
  induction (rows t db) as [|x l IH]; simpl; constructor; [|done]. destruct (has_sync_id sid (row_cols x)) eqn:E; [by apply Hf|apply ack_step_refl].
Qed.

Lemma row_cols_with f x : row_cols (with_cols f x) = f (row_cols x).
Proof. by destruct x. Qed.
Lemma rebooked_with f x :
  sync_id (f (row_cols x)) = sync_id (row_cols x) -> is_deleted (f (row_cols x)) = is_deleted (row_cols x) ->
  deleted_at (f (row_cols x)) = deleted_at (row_cols x) -> sync_version (row_cols x) <= sync_version (f (row_cols x)) ->
  rebooked x (with_cols f x).
Proof. intros. unfold rebooked. rewrite row_cols_with. split_and!; try done. by destruct x. Qed.
Lemma has_sync_id_some sid c : has_sync_id sid c = true -> sync_id c = Some sid.
Proof. unfold has_sync_id. destruct (sync_id c); [|done]. by intros ->%String.eqb_eq. Qed.

Lemma apply_ack_steps o r s db s' db' :
  o ∈ mutations -> r ∈ results -> mr_mutation_id r = mutation_id (om_mutation o) ->
  apply_ack now o (mr_outcome r) s db = (s', db') -> ack_steps db db'.
Proof.
  intros Ho Hr Eid E. unfold apply_ack in E.
  assert (forall x, has_sync_id (uuid_to_string (om_object_id o)) (row_cols x) = true ->
            sent_for (om_object_type o) (sync_id (row_cols x)) o) as Hsent.
  { intros x ->%has_sync_id_some. by split_and!. }
  destruct (mr_outcome r) as [v seq|[cv|ep|]] eqn:Er.
  - destruct (ov v =? ov (resulting_version (om_mutation o))) eqn:Ev; simpl in E; injection E as <- <-; [|reflexivity].
    etrans; [|apply same_rows_ack; by intros []]. apply update_sync_ack. intros x Hx. propify. split.
    + by apply rebooked_with.
    + intros Hno. destruct (Hno o (Hsent x Hx)).
    + intros _. right. rewrite row_cols_with. exists o, r, seq. split_and!; [by apply Hsent|done|done| |simpl; by rewrite Ev].
      rewrite Er. f_equal. destruct v, (resulting_version (om_mutation o)). simpl in Ev. by subst.
  - cbv zeta in E. case_match; injection E as <- <-; apply update_sync_ack; intros x Hx;
      (split; [apply rebooked_with; simpl; try done; lia|intros Hno; destruct (Hno o (Hsent x Hx))|]);
      rewrite row_cols_with; intros [=].
  - injection E as <- <-. reflexivity.
  - injection E as <- <-. reflexivity.
Qed.

Lemma apply_acks_steps l s db s' db' :
  (forall r, r ∈ l -> r ∈ results) -> apply_acks now mutations l s db = (s', db') -> ack_steps db db'.
Proof.
  revert s db. induction l as [|r l IH]; intros s db Hl E; simpl in E; [by injection E as <- <-|].
  destruct (List.find _ mutations) as [o|] eqn:Ef.
  - apply find_some in Ef as [Ho Em]. propify. destruct (apply_ack now o (mr_outcome r) s db) as [s1 db1] eqn:Ea. etrans.
    + eapply apply_ack_steps; [by apply list_elem_of_In|apply Hl; left|done|exact Ea].
    + eapply IH; [|exact E]. intros r' Hr'. apply Hl. by right.
  - eapply IH; [|exact E]. intros r' Hr'. apply Hl. by right.
Qed.
End Acks.

Section Push.
Context `{UuidText}.

(** C14. What an answer to a push does to the outbox, whatever the relay
    answers.  A row for which nothing was sent is as before.  No answer changes
    what a row holds, takes its version back or moves its tombstone.  A row
    that was waiting is marked synced only under a result for a mutation this
    device sent for it, that says it was applied at exactly the version that
    was sent; that version becomes the acknowledged one.  The version of the
    row itself is not compared: a row that was edited again after its mutation
    was collected is marked synced as well, with its version above the
    acknowledged one ([late_edit_leaves_outbox]). *)
Theorem outbox_leaves_on_ack now mutations results cursor w s w' t :
  apply_push_acks now mutations results cursor w = (Ok s, w') ->
  Forall2 (fun x x' => ack_step mutations results t x x' /\
      (sync_state (row_cols x) <> Synced -> sync_state (row_cols x') = Synced ->
       (forall o, sent_for mutations t (sync_id (row_cols x)) o ->
          u64_as_i64 (ov (resulting_version (om_mutation o))) = sync_version (row_cols x)) ->
       sync_acked_version (row_cols x') = sync_version (row_cols x)))
    (rows t (w_db w)) (rows t (w_db w')).
Proof.
  intros E. assert (Forall2 (ack_step mutations results t) (rows t (w_db w)) (rows t (w_db w'))) as F.
  2:{ eapply Forall2_impl; [exact F|]. intros x x' Hx. split; [done|]. intros Hn Hy Hall.
      destruct (as_leaves _ _ _ _ _ Hx Hy) as [[? _]|(o & r & seq & Ho & _ & _ & _ & ->)]; [done|by apply Hall]. }
  revert E. unfold apply_push_acks. intros E. apply M_bind_ok in E as (db & w1 & [-> <-]%M_query_ok & E).
  destruct (apply_acks now mutations results no_acks (w_db w)) as [s1 db1] eqn:Ea.
  apply apply_acks_steps with (results := results) in Ea; [|done].
  apply M_bind_ok in E as (u & w1 & Ex & E). injection Ex as <- <-. injection E as <- <-. specialize (Ea t). by destruct t.
Qed.

(** ** Resolution *)

(** A row pushes when its version is above what the relay acknowledged. *)
Definition pushable (c : SyncCols) : Prop := sync_state c = Pending /\ sync_acked_version c < sync_version c.

(** Keeping the local side of a conflict makes it win: the row is pending
    again, above the peer's version, and expects exactly that version (or one
    the relay acknowledged later), so the relay's compare-and-swap accepts it;
    the stored alternative is gone. *)
Theorem keep_local_pushes object t version w w' :
  0 <= version < 2 ^ 63 - 1 -> resolve_conflict_keep_local object t version w = (Ok tt, w') ->
  sync_conflicts (w_db w') !! uuid_to_string object = None /\
  Forall2 (fun x x' => if has_sync_id (uuid_to_string object) (row_cols x)
      then sync_state (row_cols x') = Pending /\ version < sync_version (row_cols x') /\
        sync_acked_version (row_cols x') = Z.max (sync_acked_version (row_cols x)) version /\
        (sync_acked_version (row_cols x) < sync_version (row_cols x) -> pushable (row_cols x')) /\ rebooked x x'
      else x' = x) (rows t (w_db w)) (rows t (w_db w')).
Proof.
  intros Hv E. apply transaction_ok in E. apply M_bind_ok in E as (u & w1 & Ex & E). injection Ex as <- <-. injection E as <-. simpl.
  split; [by rewrite lookup_delete_eq|]. change (rows t (drop_conflict ?i ?db)) with (rows t db).
  rewrite rows_update_sync, decide_True by done.
  assert (u64_as_i64 version = version /\ u64_as_i64 (Z.min (version + 1) (2 ^ 64 - 1)) = version + 1) as [E1 E2].
  { unfold u64_as_i64. rewrite Z.min_l by lia. split; rewrite (proj2 (Z.ltb_lt _ _)); lia. }
  induction (rows t (w_db w)) as [|x l IH]; simpl; constructor; [|done]. destruct (has_sync_id _ (row_cols x)); [|done].
  rewrite row_cols_with. unfold keep_local_row, pushable. simpl. rewrite E1, E2. split_and!; try done; try lia.
  - intros. split; [done|]. lia.
  - apply rebooked_with; simpl; try done. lia.
Qed.
End Push.

(** ** The configuration row *)

(** The ranges of its fields; the high-water is kept in a signed column. *)
Definition config_wf (c : SyncConfig) : Prop :=
  in_u64 (last_push_sequence c) /\ in_u64 (last_pull_sequence c) /\ 0 <= protocol_version c < 2 ^ 32 /\
  0 <= lineage_high_water c < 2 ^ 63.

(** The sync configuration reads back as it was saved. *)
Theorem config_load_save `{UuidText, !UuidTextLaws} c db : config_wf c -> config_load (config_save c db) = c.
Proof.
  intros (H1 & H2 & H3 & H4). unfold config_load, config_save. simpl. rewrite !u64_as_i64_as_u64 by done.
  assert (forall o : option Uuid, (uuid_to_string <$> o) ≫= uuid_parse_str = o) as Hu.
  { intros [u|]; [|done]. simpl. apply uuid_parse_to_string. }
  rewrite !Hu, Z.max_l, Z.mod_small by lia. unfold u64_as_i64 at 1. rewrite (proj2 (Z.ltb_lt _ _)), Z.max_l by lia. by destruct c.
Qed.

(** Above that range the high-water is lost: it loads as zero, and the next
    page is not checked against it. *)
Lemma high_water_lost `{UuidText} c db :
  2 ^ 63 <= lineage_high_water c < 2 ^ 64 -> lineage_high_water (config_load (config_save c db)) = 0.
Proof. intros Hr. simpl. unfold u64_as_i64. rewrite (proj2 (Z.ltb_ge _ _)), Z.max_r; lia. Qed.

(** ** Padding *)

Lemma bucket_fits n : 0 <= n -> n <= bucket_size n /\ (bucket_size n ∈ buckets \/ 8192 < bucket_size n /\ bucket_size n mod 8192 = 0).
Proof.
  intros Hn. unfold bucket_size. destruct (List.find _ buckets) as [b|] eqn:E.
  - apply find_some in E as [Hb Hle]. apply Z.leb_le in Hle. rewrite list_elem_of_In. auto.
  - assert (8192 < n) as Hbig.
    { pose proof (find_none _ _ E 8192) as G. apply Z.leb_gt. apply G. unfold buckets. simpl. tauto. }
    rewrite Z.mod_mul by lia. pose proof (Z.div_mod n 8192 ltac:(lia)). pose proof (Z.mod_pos_bound n 8192 ltac:(lia)). split; [lia|right; lia].
Qed.

(** Padding hides the length and loses nothing: a padded payload has the
    size of a bucket or a multiple of 8192 bytes, and unpadding returns the
    payload. *)
Theorem unpad_pad data :
  Z.of_nat (length data) < 2 ^ 63 ->
  unpad_payload (pad_payload data) = Some (Ok data) /\
  let n := Z.of_nat (length (pad_payload data)) in n ∈ buckets \/ 8192 < n /\ n mod 8192 = 0.
Proof.
  intros Hd. set (n := Z.of_nat (length data)) in *. destruct (bucket_fits (n + 8) ltac:(lia)) as [Hfit Hb].
  set (hd := to_le_bytes 8 n). assert (length hd = 8%nat) as Hhd by (unfold hd, to_le_bytes; by rewrite length_rev, to_be_bytes_length).
  assert (length (hd ++ data) <= Z.to_nat (bucket_size (n + 8)))%nat as Hl by (rewrite length_app, Hhd; lia).
  assert (pad_payload data = hd ++ data ++ repeat Byte.x00 (Z.to_nat (bucket_size (n + 8)) - length (hd ++ data))) as Ep.
  { unfold pad_payload, SyncModels.resize. fold n hd. rewrite take_ge by done. by rewrite <- app_assoc. }
  assert (length (pad_payload data) = Z.to_nat (bucket_size (n + 8))) as Elen.
  { rewrite Ep, !length_app, repeat_length. rewrite length_app in Hl. lia. }
  split; [|cbv zeta; rewrite Elen, Z2Nat.id by lia; exact Hb].
  unfold unpad_payload. rewrite (proj2 (Nat.ltb_ge _ _)) by (rewrite Elen; lia).
  assert (of_le_bytes (take 8 (pad_payload data)) = n) as ->.
  { rewrite Ep, take_app_length' by done. unfold of_le_bytes, hd, to_le_bytes. rewrite rev_involutive, of_to_be_bytes.
    change (256 ^ Z.of_nat 8) with (2 ^ 64). apply Z.mod_small. lia. }
  rewrite Z.mod_small by lia. rewrite Elen, Z2Nat.id by lia. rewrite (proj2 (Z.ltb_ge _ _)) by lia.
  rewrite (proj2 (Z.ltb_ge (n + 8) 8)) by lia. do 2 f_equal. rewrite Ep, drop_app_length' by done.
  apply take_app_length'. lia.
Qed.

(** A stored length near [2 ^ 64] passes the bound check and makes the slice
    start after its end. *)
Lemma unpad_wraps rest : unpad_payload (to_le_bytes 8 (2 ^ 64 - 8) ++ rest) = None.
Proof. reflexivity. Qed.

(** ** A late edit *)

(** The row was edited again after its mutation was collected: the
    acknowledgement of the older version takes it out of the outbox. *)
Lemma late_edit_leaves_outbox `{UuidText} now o v seq x :
  om_object_type o = TCredential -> ov v = ov (resulting_version (om_mutation o)) -> ov v < 2 ^ 63 ->
  has_sync_id (uuid_to_string (om_object_id o)) (e_sync x) = true -> ov v < sync_version (e_sync x) ->
  forall db s, exists y, RowE y ∈ rows TCredential (apply_ack now o (Applied v seq) s {| db with entries := [x] |}).2 /\
    sync_state (e_sync y) = Synced /\ sync_acked_version (e_sync y) < sync_version (e_sync y).
Proof.
  intros Et Ev Hr Hs Hv db s. unfold apply_ack. rewrite Et, Ev, Z.eqb_refl. simpl. rewrite Hs. eexists. split; [left|].
  split; [done|]. simpl. unfold u64_as_i64. rewrite <- Ev, (proj2 (Z.ltb_lt _ _)); lia.
Qed.
