(* ===== verification/SyncDemo.v ===== *)
(** * Core: a concrete sync run

    Codecs for the payloads, two devices of a small vault, and the witnesses
    of the sync theorems.  Models no code. *)

From S2P Require Import Prelude Text ThirdParty Aad Envelope CoreDemo Keyring KeyDemo CoreError EnvelopeOps SyncWire DomainTags KeySlots VaultKeys LocalDb ContentGuard ContentFacts Registry Entries EntriesFacts EntriesDemo DomainOps Totp SyncModels SyncOutbox SyncApply SyncEngine SyncFacts SyncDeliver SyncAcks.
From Stdlib Require Import ZArith Lia Strings.String Strings.Byte.
From stdpp Require Import base list option strings numbers gmap.
From S2P Require Import Text SyncWire.
Open Scope Z_scope.
Import DomainTags.Demo Totp.Demo.

(** ** Codecs *)

#[export] Instance flat_cred : Flat CredentialType :=
  flat_via (fun c => match c with CPassword => 0 | CApiKey => 1 | CPasskeyReference => 2 end)
    (fun z => if z =? 0 then CPassword else if z =? 1 then CApiKey else CPasskeyReference)
    (fun c => match c with CPassword => eq_refl | CApiKey => eq_refl | CPasskeyReference => eq_refl end).
#[export] Instance flat_uuid : Flat Uuid := flat_via uuid_to_string (fun s => default (from_u128 0) (uuid_parse_str s))
    (fun u => eq_trans (f_equal (default (from_u128 0)) (uuid_parse_to_string u)) eq_refl).
#[export] Instance flat_domain : Flat DomainPayload :=
  flat_via (fun d => (dp_domain d, dp_is_primary d)) (fun '(a, b) => {| dp_domain := a; dp_is_primary := b |})
    (fun d => match d with Build_DomainPayload _ _ => eq_refl end).
#[export] Instance flat_credential : Flat CredentialPayload :=
  flat_via (fun p => (cp_title p, cp_username p, cp_password p, cp_credential_type p, cp_url p, cp_notes p, cp_favorite p,
      cp_domains p, cp_created_at p, cp_modified_at p))
    (fun '(a, b, c, d, e, f, g, h, i, j) => {| cp_title := a; cp_username := b; cp_password := c; cp_credential_type := d; cp_url := e;
      cp_notes := f; cp_favorite := g; cp_domains := h; cp_created_at := i; cp_modified_at := j |})
    (fun p => match p with Build_CredentialPayload _ _ _ _ _ _ _ _ _ _ => eq_refl end).
#[export] Instance flat_ssh : Flat SshKeyPayload :=
  flat_via (fun p => (sp_name p, sp_comment p, sp_key_type p, sp_key_size p, sp_public_key p, sp_private_key p,
      sp_private_key_encrypted p, sp_legacy_nonce p, sp_legacy_auth_tag p, sp_fingerprint p, sp_created_at p, sp_modified_at p))
    (fun '(a, b, c, d, e, f, g, h, i, j, k, l) => {| sp_name := a; sp_comment := b; sp_key_type := c; sp_key_size := d; sp_public_key := e;
      sp_private_key := f; sp_private_key_encrypted := g; sp_legacy_nonce := h; sp_legacy_auth_tag := i; sp_fingerprint := j;
      sp_created_at := k; sp_modified_at := l |})
    (fun p => match p with Build_SshKeyPayload _ _ _ _ _ _ _ _ _ _ _ _ => eq_refl end).
#[export] Instance flat_totp : Flat TotpPayload :=
  flat_via (fun p => (tp_secret p, tp_secret_encrypted p, tp_legacy_nonce p, tp_legacy_auth_tag p, tp_algorithm p, tp_digits p,
      tp_period p, tp_issuer p, tp_account_name p, tp_created_at p, tp_parent_credential_sync_id p))
    (fun '(a, b, c, d, e, f, g, h, i, j, k) => {| tp_secret := a; tp_secret_encrypted := b; tp_legacy_nonce := c; tp_legacy_auth_tag := d;
      tp_algorithm := e; tp_digits := f; tp_period := g; tp_issuer := h; tp_account_name := i; tp_created_at := j;
      tp_parent_credential_sync_id := k |})
    (fun p => match p with Build_TotpPayload _ _ _ _ _ _ _ _ _ _ _ => eq_refl end).
#[export] Instance any_text : ErrorText := fun _ => "refused"%string.

(** ** Two devices *)

Definition memory : World := {| world0 with w_on_disk := false |}.
Definition phone : Uuid := from_u128 11.
Definition laptop : Uuid := from_u128 12.
Abbreviation on_phone := ((add_entry demo_session 100 demo_entry memory).2).
Definition phone_row : option EntryRow := Eval vm_compute in head (entries (w_db on_phone)).
Definition the_row : EntryRow := Eval vm_compute in match phone_row with
  | Some r => r
  | None => {| entry_id := 0; e_title := []; e_username := []; e_password := []; e_url := None; e_notes := None;
      e_credential_type := ""; entry_nonce := []; e_auth_tag := []; e_created_at := 0; e_modified_at := 0; e_favorite := false;
      e_sync := new_sync None |}
  end.
Definition the_blob : SyncEntryBlob := Eval vm_compute in match (credential_blob demo_dek phone "7" the_row on_phone).1 with
  | Ok (Some b) => b
  | _ => {| b_sync_id := phone; b_entry_type := TCredential; b_sync_version := 0; b_modified_at := 0; b_encrypted_payload := [];
            b_is_tombstone := false; b_origin_device_id := phone |}
  end.
Abbreviation delivered := (apply_remote_entry 500 demo_dek the_blob memory).

Lemma pair_fst {A B} (x : A * B) a : x.1 = a -> x = (a, x.2).
Proof. destruct x. by intros <-. Qed.

Lemma fits_all l : forallb row_fits_b l = true -> forall x, x ∈ l -> row_fits x.
Proof. intros E x Hx. apply row_fits_b_ok. rewrite forallb_forall in E. by apply E, list_elem_of_In. Qed.

Lemma the_row_pushed : pushed_row demo_dek "7" (from_u128 1) 1 demo_entry the_row.
Proof.
  assert (add_entry demo_session 100 demo_entry memory = (Ok 1, on_phone)) as Ea by (apply pair_fst; vm_compute; reflexivity).
  assert (vault_ok demo_dek memory) as Hok by (split; [done|apply world0_ok]).
  destruct (add_entry_rows demo_session demo_dek "7" _ _ _ _ _ eq_refl eq_refl Hok Ea)
    as (_ & _ & row & Er & _ & Hdel & Esid & Ect & Efav & _ & _ & Hsealed).
  assert (entries (w_db on_phone) = [the_row]) as Ee by (vm_compute; reflexivity). rewrite Ee in Er. injection Er as <-.
  change (env_uuid (w_tick memory)) with (from_u128 1) in Hsealed, Esid.
  split; [exact Hsealed|]. split; [by split_and!|]. split; [apply row_fits_b_ok; vm_compute; reflexivity|].
  split; [exact demo_contexts_fit|]. split; [exact Ect|]. split; [exact Esid|]. split; [exact Hdel|]. split; [exact Efav|].
  vm_compute. reflexivity.
Qed.

Lemma edit_reaches_peer_witness :
  exists id, (get_entry demo_session 900 id memory).1 = Err (entry_not_found id) /\
    (get_entry demo_session 900 id delivered.2).1 = Ok (stored 900 id 100 100 demo_entry).
Proof.
  assert (exists id, forall now' id', (get_entry demo_session now' id memory).1 = Err (entry_not_found id) /\
    (get_entry demo_session now' id' delivered.2).1 =
      if id' =? id then Ok (stored now' id (e_created_at the_row) (e_modified_at the_row) demo_entry)
      else (get_entry demo_session now' id' memory).1) as (id & G).
  { refine (edit_reaches_peer demo_dek phone "7" (from_u128 1) 1 demo_entry the_row on_phone the_blob
      (credential_blob demo_dek phone "7" the_row on_phone).2 demo_session "7" 500 memory delivered.2
      the_row_pushed _ eq_refl eq_refl eq_refl _ eq_refl demo_contexts_fit _ _).
    - apply pair_fst. vm_compute. reflexivity.
    - split; [done|apply world0_ok].
    - apply pair_fst. vm_compute. reflexivity.
    - apply fits_all. vm_compute. reflexivity. }
  exists id. destruct (G 900 id) as [G1 G2]. rewrite Z.eqb_refl in G2. auto.
Defined.

(** ** A page from the phone *)

Definition mac_key : bytes := Eval vm_compute in match derive_metadata_mac_key demo_dek with Ok k => k | Err _ => [] end.
Definition the_mutation : MutationV2 := Eval vm_compute in
  match build_mutation mac_key {| mi_vault_id := from_u128 9; mi_object_id := from_u128 1; mi_object_type := TCredential;
    mi_expected_version := {| ov := 0 |}; mi_resulting_version := {| ov := 3 |}; mi_key_epoch := 1; mi_origin_device_id := phone;
    mi_is_tombstone := false; mi_encrypted_payload := b_encrypted_payload the_blob |} with
  | Ok m => m
  | Err _ => {| mutation_id := phone; vault_id := phone; object_id := phone; object_type := TCredential; expected_version := {| ov := 0 |};
      resulting_version := {| ov := 0 |}; key_epoch := 0; origin_device_id := phone; is_tombstone := false; encrypted_payload := [];
      metadata_mac := [] |}
  end.
Definition the_page : PullResponseV2 := {|
  pl_entries := [{| server_sequence := {| sc := 1 |}; mutation := the_mutation |}]; pl_cursor := {| sc := 1 |}; pl_has_more := false |}.
Abbreviation paged := (content_tx demo_dek (page_body 600 demo_dek laptop the_page) memory).

Lemma pull_page_disposed_witness :
  exists w0 w1 k tr row, w_db w0 = w_db memory /\ hkdf_expand demo_dek METADATA_MAC_KEY_INFO 32 = Some k /\
    run 600 demo_dek k (epoch_of (metadata (w_db memory))) tr w0 w1 /\
    List.map event_entry tr ≡ₚ List.filter (foreign laptop) (pl_entries the_page) /\
    Z.of_nat (size (sync_dead_letter (w_db w1))) <= 1000 /\
    w_db paged.2 = {| (w_db w1) with sync_metadata := Some row |} /\
    moved_to the_page (sync_metadata (w_db memory)) row.
Proof.
  assert (is_ok paged.1 = true) as E by (vm_compute; reflexivity).
  destruct (pull_page_disposed 600 demo_dek laptop the_page memory paged.1 paged.2) as [[_ E']|G].
  - done.
  - apply surjective_pairing.
  - destruct (eq_true_false_abs _ E E').
  - exact G.
Defined.

(** A laptop with an entry still to push pulls an edit of it from the phone. *)
#[local] Instance one_page : SyncTransport := {|
  push_v2 _ w := (Ok {| pr_server_cursor := {| sc := 1 |}; pr_results := [] |}, w); pull_v2 _ w := (Ok the_page, w) |}.
Abbreviation pulled := (pull_changes 2 700 demo_dek laptop on_phone).

Lemma one_row : rows TCredential (w_db on_phone) = [RowE the_row] /\ rows TSshKey (w_db on_phone) = [] /\ rows TTotpSecret (w_db on_phone) = [].
Proof. vm_compute. done. Qed.
Lemma unpushed_edits_survive_witness :
  pulled.1 = Ok (Some 1) /\ exists x', x' ∈ rows TCredential (w_db pulled.2) /\ kept (RowE the_row) x'.
Proof.
  split; [vm_compute; reflexivity|].
  refine (unpushed_edits_survive 2 700 demo_dek laptop on_phone pulled.1 pulled.2 TCredential (RowE the_row) _ _ _ _ _ _).
  - done.
  - assert (w_on_disk on_phone = false) as E by (vm_compute; reflexivity). intros E'. destruct (eq_true_false_abs _ E' E).
  - destruct one_row as (E1 & E2 & E3). intros []; rewrite ?E1, ?E2, ?E3; [apply NoDup_singleton|apply NoDup_nil_2..].
  - apply surjective_pairing.
  - rewrite (proj1 one_row). left.
  - vm_compute. reflexivity.
Defined.

Lemma pull_terminates_witness : (pull_changes (S (Z.to_nat (2 ^ 64))) 700 demo_dek laptop memory).1 <> Ok None.
Proof.
  apply (pull_terminates (S (Z.to_nat (2 ^ 64))) 700 demo_dek laptop memory).
  - intros q w1 p w2 [= <- <-]. split; [discriminate|reflexivity].
  - vm_compute. discriminate.
  - apply Nat.lt_succ_diag_r.
Defined.

(** ** Acknowledgements *)

(** The phone's own mutation for its entry, and its result. *)
Definition own_mutation : MutationV2 := Eval vm_compute in
  match build_mutation mac_key (mutation_input (from_u128 9) 1 phone 0 the_blob) with Ok m => m | Err _ => the_mutation end.
Definition sent : OutboxMutation := {| om_mutation := own_mutation; om_object_id := from_u128 1; om_object_type := TCredential |}.
Definition its_result : MutationResult := {|
  mr_mutation_id := mutation_id own_mutation; mr_object_id := from_u128 1;
  mr_outcome := Applied (resulting_version own_mutation) {| sc := 1 |} |}.
Abbreviation acked := (apply_push_acks 800 [sent] [its_result] 1 on_phone).
Lemma the_row_waits : sync_state (e_sync the_row) = Pending /\ sync_version (e_sync the_row) = 1.
Proof. vm_compute. split; reflexivity. Qed.
Lemma outbox_leaves_on_ack_witness :
  exists x', rows TCredential (w_db acked.2) = [x'] /\ sync_state (row_cols x') = Synced /\
    ack_step [sent] [its_result] TCredential (RowE the_row) x' /\ sync_acked_version (row_cols x') = 1.
Proof.
  pose proof (outbox_leaves_on_ack 800 [sent] [its_result] 1 on_phone {| applied := 1; conflicts := 0; rejected := 0; suspicious_acks := 0 |}
    acked.2 TCredential (pair_fst _ _ eq_refl)) as G.
  rewrite (proj1 one_row) in G. apply Forall2_cons_inv_l in G as (x' & l' & [Hs Hc] & Hl & El).
  apply Forall2_nil_inv_l in Hl as ->.
  assert (match rows TCredential (w_db acked.2) with r :: _ => sync_state (row_cols r) | [] => Pending end = Synced) as Hy
    by (vm_compute; reflexivity).
  rewrite El in Hy. exists x'. split; [exact El|]. split.
  - exact Hy.
  - split; [exact Hs|]. destruct the_row_waits as [Hw Hv]. etransitivity; [apply Hc|exact Hv].
    + intros E. change (row_cols (RowE the_row)) with (e_sync the_row) in E. rewrite Hw in E. discriminate E.
    + exact Hy.
    + intros o (Ho%list_elem_of_singleton & _ & _). subst o. vm_compute. reflexivity.
Defined.

Lemma keep_local_pushes_witness :
  let w' := (resolve_conflict_keep_local (from_u128 1) TCredential 5 on_phone).2 in
  sync_conflicts (w_db w') !! uuid_to_string (from_u128 1) = None /\ length (rows TCredential (w_db w')) = 1%nat.
Proof.
  cbv zeta. split; [|vm_compute; reflexivity].
  refine (proj1 (keep_local_pushes (from_u128 1) TCredential 5 on_phone _ _ _)); [lia|]. apply pair_fst. reflexivity.
Defined.

Definition a_config : SyncConfig := {| default_config with cfg_vault_id := Some (from_u128 9); last_pull_sequence := 2 ^ 63; lineage_high_water := 7 |}.
Lemma config_load_save_witness : config_load (config_save a_config demo_tables) = a_config.
Proof. apply config_load_save. repeat split; vm_compute; congruence. Defined.

Lemma unpad_pad_witness : unpad_payload (pad_payload (as_bytes "secret")) = Some (Ok (as_bytes "secret")).
Proof. refine (proj1 (unpad_pad (as_bytes "secret") _)). vm_compute. reflexivity. Defined.
