(* ===== verification/Custody.v ===== *)
(** * Core: custody of personal secrets ([sentinelpass-protocol/src/custody.rs],
    [vault/custody_ops.rs])

    Thirty-two byte secrets that another program keeps in the vault, each under
    a scope and a reference with a revision.  Writing is a compare-and-swap on
    the reference, in a transaction under the content receipts; removing leaves
    an authenticated tombstone.  The closures [check] and [before_commit] of the
    caller are arguments: [check n] is the answer to its [n]th call.  The audit
    entries, zeroisation and the broker that owns approvals are not modelled. *)

From S2P Require Import Prelude Text ThirdParty Aad Envelope Keyring CoreError EnvelopeOps KeySlots VaultKeys LocalDb ContentGuard ContentFacts Entries EntriesFacts CoreDemo KeyDemo EntriesDemo.
From Stdlib Require Import ZArith Lia Strings.String Strings.Ascii Strings.Byte.
From stdpp Require Import base list option strings numbers gmap.
From S2P Require Import Text.
Open Scope Z_scope.

(** ** The metadata ([sentinelpass-protocol/src/custody.rs]) *)

Definition CUSTODY_PROTOCOL_VERSION : Z := 1.
Definition SECRET_BYTES : nat := 32.
Definition MAX_METADATA_BYTES : nat := 4096.

Inductive Purpose := MailRecovery | StorageRecovery.
#[global] Instance Purpose_eq_dec : EqDecision Purpose.
Proof. solve_decision. Defined.

Inductive CustodyError :=
| Unavailable | Unsupported | Locked | InteractionRequired | Denied | CustodyNotFound | StaleReference | CustodyConflict
| Cancelled | Expired | Capacity | Invalidated | IntegrityFailed.

Record CustodyScope := {
  cs_version : Z;            (* u32 *)
  namespace : string;
  issuer : string;
  subject : string;
  mailbox_id : string;
  cs_purpose : Purpose;
}.
#[global] Instance CustodyScope_eq_dec : EqDecision CustodyScope.
Proof. solve_decision. Defined.

Record ObjectRef := {
  object_id : string;
  revision : string;         (* decimal u64 *)
  key_epoch : string;
  binding_sha256 : string;
}.
#[global] Instance ObjectRef_eq_dec : EqDecision ObjectRef.
Proof. solve_decision. Defined.

(** [identity]: printable ASCII without the asterisk. *)
Definition identity (s : string) (max : nat) : bool :=
  negb (is_empty s) && (String.length s <=? max)%nat && all_chars (fun b => graphic b && negb (Ascii.eqb b "*"%char)) s.

(** [decimal]. *)
Definition decimal (s : string) : result CustodyError Z :=
  _ ← err_if (is_empty s || (20 <? String.length s)%nat || String.prefix "0" s || negb (all_chars is_ascii_digit s)) Denied;
  ok_or (parse_unsigned 64 s) Denied.

(** [CustodyScope::validate], [ObjectRef::validate]. *)
Definition scope_validate (s : CustodyScope) : result CustodyError unit :=
  err_if (negb (cs_version s =? CUSTODY_PROTOCOL_VERSION) || negb (identity (namespace s) 128) || negb (identity (issuer s) 512)
          || negb (identity (subject s) 512) || negb (identity (mailbox_id s) 512)) Denied.
Definition lower_hex (b : Ascii.ascii) : bool := is_ascii_digit b || in_range 97 102 b.
Definition ref_validate (r : ObjectRef) : result CustodyError unit :=
  _ ← decimal (revision r);
  _ ← decimal (key_epoch r);
  err_if (negb (identity (object_id r) 128) || negb (String.length (binding_sha256 r) =? 64)%nat
          || negb (all_chars lower_hex (binding_sha256 r))) Denied.

(** [decode]: the derived reader, then [validate]. *)
Definition decode {A} `{SerdeBytes A} (validate : A -> result CustodyError unit) (b : bytes) : result CustodyError A :=
  _ ← err_if (MAX_METADATA_BYTES <? length b)%nat Denied;
  a ← ok_or (from_slice b) Denied;
  _ ← validate a;
  Ok a.

(** ** A computation that fails with a custody error *)

Definition CM (A : Type) : Type := World -> result CustodyError A * World.
#[global] Instance CM_ret : MRet CM := fun A a w => (Ok a, w).
#[global] Instance CM_bind : MBind CM := fun A B k m w =>
  match m w with
  | (Ok a, w') => k a w'
  | (Err e, w') => (Err e, w')
  end.
Definition clift {A} (r : result CustodyError A) : CM A := fun w => (r, w).
Definition cquery {A} (f : LocalDb -> A) : CM A := fun w => (Ok (f (w_db w)), w).
(** [.map_err(denied)], [.map_err(unavailable)] on a step of the vault. *)
Definition cmap {A} (e : CustodyError) (m : M A) : CM A := fun w => let '(r, w') := m w in (map_err (fun _ => e) r, w').

(** [Row]. *)
Record Row := {
  row_object_id : string;
  row_scope : CustodyScope;
  row_reference : ObjectRef;
  row_envelope : bytes;
  row_deleted : bool;
}.

Definition text_of (b : bytes) : string := string_of_list_byte b.

Section Custody.
Context `{Environment, Hmac, Sha256, HexDecode, Base64, Aead}.
Context `{SerdeBytes AadContext, SerdeBytes EnvelopeDoc, SerdeBytes EntryTuple, SerdeBytes MappingTuple, SerdeBytes TagTuple}.
Context `{SerdeBytes CustodyTuple, SerdeBytes State, SerdeBytes Document}.
Context `{SerdeBytes CustodyScope, SerdeBytes ObjectRef, SerdeBytes (CustodyScope * ObjectRef)}.

(** [context]. *)
Definition custody_context (vault : string) (scope : CustodyScope) (reference : ObjectRef) (deleted : bool)
    : result CustodyError AadContext :=
  _ ← scope_validate scope;
  _ ← ref_validate reference;
  Ok {| aad_version := AAD_VERSION; Aad.vault := vault; object := hex_encode (sha256 (to_vec (scope, reference)));
        Aad.purpose := Secret; Aad.object_type := PersonalCustody; schema_version := 1;
        crypto_version := SUPPORTED_CRYPTO_VERSION; epoch := 1; tombstone := Some deleted |}.

(** [parse] of a stored row; its errors are those of the query. *)
Definition parse_row (r : CustodyRow) : option Row :=
  if negb (row_in_bounds r) then None
  else match decode scope_validate (as_bytes (scope_json r)), decode ref_validate (as_bytes (reference_json r)) with
       | Ok s, Ok o =>
         if String.eqb (c_object_id r) (object_id o)
         then Some {| row_object_id := c_object_id r; row_scope := s; row_reference := o; row_envelope := c_envelope r;
                      row_deleted := c_deleted r |}
         else None
       | _, _ => None
       end.

(** [find]: a missing table or a row that does not parse is denied. *)
Definition has_id (id : string) (r : CustodyRow) : bool := String.eqb (c_object_id r) id.
Definition find (id : string) (db : LocalDb) : result CustodyError (option Row) :=
  match custody_objects db with
  | None => Err Denied
  | Some rows =>
    match List.find (has_id id) rows with
    | None => Ok None
    | Some r => match parse_row r with Some row => Ok (Some row) | None => Err Denied end
    end
  end.

(** [open], [exact]. *)
Definition open_custody (dek : bytes) (vault : string) (row : Row) : result CustodyError bytes :=
  ctx ← custody_context vault (row_scope row) (row_reference row) (row_deleted row);
  value ← map_err (fun _ => Denied) (open_envelope dek ctx (row_envelope row));
  _ ← err_if (negb (length value =? (if row_deleted row then 0 else SECRET_BYTES))%nat) Denied;
  Ok value.
Definition exact (dek : bytes) (vault : string) (row : Row) (scope : CustodyScope) (reference : ObjectRef)
    : result CustodyError bytes :=
  value ← open_custody dek vault row;
  _ ← err_if (row_deleted row) CustodyNotFound;
  _ ← err_if (negb (bool_decide (row_scope row = scope))) Denied;
  _ ← err_if (negb (bool_decide (row_reference row = reference))) StaleReference;
  Ok value.

(** [ContentTransaction::begin], a body, [commit]. *)
Definition rolled_back {A} (w : World) (r : result CustodyError A * World) : result CustodyError A * World :=
  let w' := r.2 in (r.1, {| w' with w_db := w_db w |}).
Definition custody_tx {A} (dek : bytes) (body : CM A) : CM A := fun w =>
  match begin dek w with
  | (Err _, w1) => rolled_back w (Err Denied, w1)
  | (Ok guard, w1) =>
    match body w1 with
    | (Err e, w2) => rolled_back w (Err e, w2)
    | (Ok a, w2) =>
      match prepare_commit guard 0 w2 with
      | (Err _, w3) => rolled_back w (Err Unavailable, w3)
      | (Ok guard, w3) =>
        match finish_commit guard 0 w3 with
        | (Err _, w4) => (Err Unavailable, w4)
        | (Ok _, w4) => (Ok a, w4)
        end
      end
    end
  end.

Definition custody_dek (s : Session) : result CustodyError bytes := map_err (fun _ => Locked) (session_dek s).
Definition custody_vault (s : Session) : result CustodyError string := map_err (fun _ => Denied) (vault_uuid_str s).

(** [custody_read_checked]. *)
Definition custody_read (s : Session) (scope : CustodyScope) (reference : ObjectRef) (check : nat -> result CustodyError unit)
    : CM bytes :=
  _ ← clift (check 0%nat);
  _ ← clift (scope_validate scope);
  _ ← clift (ref_validate reference);
  dek ← clift (custody_dek s);
  _ ← clift (check 1%nat);
  _ ← cmap Denied (verify_snapshot dek);
  _ ← clift (check 2%nat);
  found ← cquery (find (object_id reference));
  found ← clift found;
  row ← clift (ok_or found CustodyNotFound);
  vault ← clift (custody_vault s);
  clift (exact dek vault row scope reference).

(** The successor rule of [custody_put_checked]. *)
Definition u64_checked_succ (z : Z) : option Z := if z + 1 <? 2 ^ 64 then Some (z + 1) else None.
Definition next_revision (old : ObjectRef) : option Z := parse_unsigned 64 (revision old) ≫= u64_checked_succ.
Definition follows (old reference : ObjectRef) : result CustodyError unit :=
  _ ← err_if (negb (String.eqb (object_id old) (object_id reference)) ||
              negb (bool_decide (next_revision old = parse_unsigned 64 (revision reference)))) CustodyConflict;
  e' ← ok_or (parse_unsigned 64 (key_epoch reference)) Denied;
  e ← ok_or (parse_unsigned 64 (key_epoch old)) Denied;
  err_if (e' <? e) CustodyConflict.

(** [INSERT .. ON CONFLICT(object_id) DO UPDATE], which leaves [deleted], and
    the checks of the table on the lengths. *)
Definition set_custody (scope_j ref_j : string) (env : bytes) (r : CustodyRow) : CustodyRow :=
  {| r with scope_json := scope_j; reference_json := ref_j; c_envelope := env |}.
Definition upsert_custody (id scope_j ref_j : string) (env : bytes) (rows : list CustodyRow) : list CustodyRow :=
  if existsb (has_id id) rows then update_where (has_id id) (set_custody scope_j ref_j env) rows
  else rows ++ [{| c_object_id := id; scope_json := scope_j; reference_json := ref_j; c_envelope := env; c_deleted := false |}].
Definition lengths_ok (scope_j ref_j : string) (env : bytes) : bool :=
  (String.length scope_j <=? MAX_DOCUMENT)%nat && (String.length ref_j <=? MAX_DOCUMENT)%nat && (length env <=? MAX_DOCUMENT)%nat.
Definition custody_upsert (id scope_j ref_j : string) (env : bytes) : CM unit := fun w =>
  match custody_objects (w_db w) with
  | Some rows =>
    if lengths_ok scope_j ref_j env
    then let db := w_db w in
         (Ok tt, {| w with w_db := {| db with custody_objects := Some (upsert_custody id scope_j ref_j env rows) |} |})
    else (Err Unavailable, w)
  | None => (Err Unavailable, w)
  end.

(** [seal_envelope] with the nonce it draws. *)
Definition seal_custody (dek : bytes) (ctx : AadContext) (value : bytes) (max : Z) : CM bytes :=
  n ← cmap Unavailable draw_nonce;
  clift (map_err (fun _ => Unavailable) (seal_envelope dek ctx value max n)).

(** The comparison of what is stored with what the caller expects. *)
Definition may_replace (dek : bytes) (vault : string) (scope : CustodyScope) (found : option Row) (expected : option ObjectRef)
    (reference : ObjectRef) : result CustodyError unit :=
  match found, expected with
  | None, None => Ok tt
  | Some row, Some old => _ ← exact dek vault row scope old; follows old reference
  | _, _ => Err CustodyConflict
  end.

(** [custody_put_checked]. *)
Definition put_body (dek : bytes) (vault : string) (scope : CustodyScope) (expected : option ObjectRef) (reference : ObjectRef)
    (value : bytes) (check : nat -> result CustodyError unit) (before_commit : result CustodyError unit) : CM unit :=
  _ ← clift (check 2%nat);
  found ← cquery (find (object_id reference));
  found ← clift found;
  _ ← clift (may_replace dek vault scope found expected reference);
  ctx ← clift (custody_context vault scope reference false);
  env ← seal_custody dek ctx value 32;
  _ ← custody_upsert (object_id reference) (text_of (to_vec scope)) (text_of (to_vec reference)) env;
  clift before_commit.
Definition custody_put (s : Session) (scope : CustodyScope) (expected : option ObjectRef) (reference : ObjectRef) (value : bytes)
    (check : nat -> result CustodyError unit) (before_commit : result CustodyError unit) : CM unit :=
  _ ← clift (check 0%nat);
  _ ← clift (scope_validate scope);
  _ ← clift (ref_validate reference);
  _ ← clift (match expected with Some old => ref_validate old | None => Ok tt end);
  dek ← clift (custody_dek s);
  vault ← clift (custody_vault s);
  _ ← clift (check 1%nat);
  custody_tx dek (put_body dek vault scope expected reference value check before_commit).

(** [custody_remove_checked]. *)
Definition set_removed (env : bytes) (r : CustodyRow) : CustodyRow := {| r with c_envelope := env; c_deleted := true |}.
Definition custody_set_removed (id : string) (env : bytes) : CM unit := fun w =>
  match custody_objects (w_db w) with
  | Some rows =>
    if existsb (has_id id) rows && negb (length env <=? MAX_DOCUMENT)%nat then (Err Unavailable, w)
    else let db := w_db w in
         (Ok tt, {| w with w_db := {| db with custody_objects := Some (update_where (has_id id) (set_removed env) rows) |} |})
  | None => (Err Unavailable, w)
  end.
Definition remove_body (dek : bytes) (vault : string) (scope : CustodyScope) (expected : ObjectRef)
    (check : nat -> result CustodyError unit) (before_commit : result CustodyError unit) : CM unit :=
  _ ← clift (check 2%nat);
  found ← cquery (find (object_id expected));
  found ← clift found;
  row ← clift (ok_or found CustodyNotFound);
  _ ← clift (exact dek vault row scope expected);
  ctx ← clift (custody_context vault scope expected true);
  env ← seal_custody dek ctx [] 0;
  _ ← custody_set_removed (object_id expected) env;
  clift before_commit.
Definition custody_remove (s : Session) (scope : CustodyScope) (expected : ObjectRef)
    (check : nat -> result CustodyError unit) (before_commit : result CustodyError unit) : CM unit :=
  _ ← clift (check 0%nat);
  _ ← clift (scope_validate scope);
  _ ← clift (ref_validate expected);
  dek ← clift (custody_dek s);
  vault ← clift (custody_vault s);
  _ ← clift (check 1%nat);
  custody_tx dek (remove_body dek vault scope expected check before_commit).

(** [verify] of the whole table, [version] being that of the schema
    ([table_exists]). *)
Definition custody_integrity : PasswordManagerError := InvalidInput "personal custody integrity verification failed".
Fixpoint verify_rows (dek : bytes) (vault : string) (seen : list string) (rows : list CustodyRow) : Res unit :=
  match rows with
  | [] => Ok tt
  | r :: rows =>
    row ← ok_or (parse_row r) custody_integrity;
    _ ← err_if (bool_decide (row_object_id row ∈ seen)) custody_integrity;
    _ ← map_err (fun _ => custody_integrity) (open_custody dek vault row);
    verify_rows dek vault (row_object_id row :: seen) rows
  end.
Definition custody_verify (dek : bytes) (vault : string) (schema_version : Z) (db : LocalDb) : Res unit :=
  match custody_objects db with
  | None => err_if (14 <=? schema_version) custody_integrity
  | Some rows => verify_rows dek vault [] rows
  end.
End Custody.

(** ** The transaction is a content transaction *)

(** The body with its errors forgotten. *)
Definition embed {A} (m : CM A) : M A := fun w => let '(r, w') := m w in (map_err (fun _ => refusal) r, w').

Lemma guarded_embed_bind {A B} (m : CM A) (k : A -> CM B) :
  Guarded (embed m) -> (forall a, Guarded (embed (k a))) -> Guarded (embed (m ≫= k)).
Proof.
  intros Hm Hk w. specialize (Hm w). unfold embed, mbind, CM_bind in *. destruct (m w) as [[a|e] w1]; simpl in *; [|done].
  destruct Hm as (E1 & E2 & E3). destruct (Hk a w1) as (F1 & F2 & F3). unfold embed in F1, F2, F3.
  destruct (k a w1); simpl in *. by rewrite F1, F2, F3.
Qed.
Lemma CM_bind_ok {A B} (m : CM A) (k : A -> CM B) w b w' :
  (m ≫= k) w = (Ok b, w') -> exists a w1, m w = (Ok a, w1) /\ k a w1 = (Ok b, w').
Proof. unfold mbind, CM_bind. destruct (m w) as [[a|e] w1]; [eauto|discriminate]. Qed.
Lemma CM_bind_run {A B} (m : CM A) (k : A -> CM B) w a w1 : m w = (Ok a, w1) -> (m ≫= k) w = k a w1.
Proof. unfold mbind, CM_bind. by intros ->. Qed.
Lemma clift_ok {A} (r : result CustodyError A) w a w' : clift r w = (Ok a, w') -> r = Ok a /\ w' = w.
Proof. unfold clift. intros [= -> ->]. done. Qed.

(** Take apart [m w = (Ok a, w')] for a sequence of steps. *)
Ltac cm_inv :=
  repeat match goal with
  | E : (_ ≫= _) _ = (Ok _, _) |- _ =>
      let a := fresh "a" in let w := fresh "w" in let F := fresh "F" in
      apply CM_bind_ok in E as (a & w & F & E)
  | E : clift _ _ = (Ok _, _) |- _ => apply clift_ok in E as [E ->]
  | E : cquery _ _ = (Ok _, _) |- _ => injection E as <- <-
  end.

Ltac guarded_embed :=
  repeat match goal with
  | |- Guarded (embed (_ ≫= _)) => apply guarded_embed_bind; [|intros ?]
  | |- Guarded (embed (match ?x with _ => _ end)) => destruct x
  end; try done.

Lemma embed_ok {A} (m : CM A) w a w' : embed m w = (Ok a, w') <-> m w = (Ok a, w').
Proof. unfold embed. destruct (m w) as [[x|e] w1]; simpl; split; intros E; try discriminate; congruence. Qed.

Section Facts.
Context `{Environment, Hmac, Sha256, HexDecode, Base64, Aead}.
Context `{SerdeBytes AadContext, SerdeBytes EnvelopeDoc, SerdeBytes EntryTuple, SerdeBytes MappingTuple, SerdeBytes TagTuple}.
Context `{SerdeBytes CustodyTuple, SerdeBytes State, SerdeBytes Document}.
Context `{SerdeBytes CustodyScope, SerdeBytes ObjectRef, SerdeBytes (CustodyScope * ObjectRef)}.
Context `{!EnvironmentLaws, !Sha256Laws, !HexDecodeLaws, !Base64Laws, !AeadLaws, !SerdeBytesLaws AadContext, !SerdeBytesLaws EnvelopeDoc}.
Context `{!EnvelopeJson, !SerdeBytesLaws Document, !SerdeBytesLaws CustodyScope, !SerdeBytesLaws ObjectRef}.

(** It leaves the world of the content transaction with that body, and
    succeeds when that one does. *)
Lemma custody_tx_content {A} dek (body : CM A) w r w' :
  custody_tx dek body w = (r, w') ->
  exists r', content_tx dek (embed body) w = (r', w') /\ forall a, r = Ok a <-> r' = Ok a.
Proof.
  unfold custody_tx, content_tx, content_tx_fault, transaction, rolled_back, mbind, M_bind.
  destruct (begin dek w) as [[g|e] w1].
  2:{ intros [= <- <-]. eexists. split; [done|]. by split. }
  unfold embed. destruct (body w1) as [[a|e] w2]; simpl.
  2:{ intros [= <- <-]. eexists. split; [done|]. by split. }
  destruct (prepare_commit g 0 w2) as [[g'|e] w3]; simpl.
  2:{ intros [= <- <-]. eexists. split; [done|]. by split. }
  destruct (finish_commit g' 0 w3) as [[[]|e] w4]; intros [= <- <-]; (eexists; split; [done|]); intros b; split; congruence.
Qed.

Lemma guarded_put dek vault scope expected reference value check bc :
  Guarded (embed (put_body dek vault scope expected reference value check bc)).
Proof.
  unfold put_body, seal_custody. guarded_embed. intros w. unfold embed, custody_upsert.
  destruct (custody_objects (w_db w)); [|done]. by destruct (lengths_ok _ _ _).
Qed.
Lemma guarded_remove dek vault scope expected check bc : Guarded (embed (remove_body dek vault scope expected check bc)).
Proof.
  unfold remove_body, seal_custody. guarded_embed. intros w. unfold embed, custody_set_removed.
  destruct (custody_objects (w_db w)); [|done]. by destruct (_ && _).
Qed.

(** ** What is held under an identifier *)

(** The scope, the reference and the secret, [None] for a tombstone. *)
Definition Held : Type := CustodyScope * ObjectRef * option bytes.
Definition custody_view (dek : bytes) (vault id : string) (db : LocalDb) : result CustodyError (option Held) :=
  found ← find id db;
  match (found : option Row) with
  | None => Ok None
  | Some row =>
    v ← open_custody dek vault row;
    Ok (Some (row_scope row, row_reference row, if row_deleted row then None else Some v))
  end.

(** When a put may replace what is held. *)
Definition may_put (before : option Held) (scope : CustodyScope) (expected : option ObjectRef) (reference : ObjectRef) : Prop :=
  match expected with
  | None => before = None
  | Some old => object_id old = object_id reference /\ (exists v, before = Some (scope, old, Some v)) /\
      (exists n, decimal (revision old) = Ok n /\ decimal (revision reference) = Ok (n + 1)) /\
      (exists e e', decimal (key_epoch old) = Ok e /\ decimal (key_epoch reference) = Ok e' /\ e <= e')
  end.

(** The contexts of the vault keep to the size contract of the reader. *)
Definition custody_fits (vault : string) : Prop :=
  forall scope reference d ctx, custody_context vault scope reference d = Ok ctx -> Z.of_nat (length (to_bytes ctx)) <= MAX_AAD_BYTES.

Lemma decimal_parse s n : decimal s = Ok n -> parse_unsigned 64 s = Some n.
Proof. unfold decimal. intros E. result_inv. done. Qed.

Lemma follows_ok old reference :
  ref_validate old = Ok tt -> ref_validate reference = Ok tt -> follows old reference = Ok tt ->
  object_id old = object_id reference /\
  (exists n, decimal (revision old) = Ok n /\ decimal (revision reference) = Ok (n + 1)) /\
  (exists e e', decimal (key_epoch old) = Ok e /\ decimal (key_epoch reference) = Ok e' /\ e <= e').
Proof.
  unfold ref_validate, follows. intros Ho Hr Hf.
  apply result_bind_ok in Ho as (n & En & Ho). apply result_bind_ok in Ho as (e & Ee & _).
  apply result_bind_ok in Hr as (n' & En' & Hr). apply result_bind_ok in Hr as (e' & Ee' & _).
  unfold next_revision in Hf. rewrite (decimal_parse _ _ En), (decimal_parse _ _ En'), (decimal_parse _ _ Ee), (decimal_parse _ _ Ee') in Hf.
  apply result_bind_ok in Hf as (u & Hc & Hf). apply err_if_ok in Hc. simpl in Hf. apply err_if_ok in Hf. propify.
  match goal with E : String.eqb _ _ = true |- _ => apply String.eqb_eq in E end. split; [done|]. split; [|by eauto 6].
  match goal with E : _ = Some n' |- _ => simpl in E; unfold u64_checked_succ in E; destruct (n + 1 <? 2 ^ 64); [|done]; injection E as <- end.
  eauto.
Qed.

Lemma text_of_bytes b : as_bytes (text_of b) = b.
Proof. apply list_byte_of_string_of_list_byte. Qed.
Lemma text_of_length b : String.length (text_of b) = length b.
Proof. induction b as [|x b IH]; [done|]. exact (f_equal S IH). Qed.

(** What [decode] reads back of its own text. *)
Lemma decode_own {A} `{SerdeBytesLaws A} (validate : A -> result CustodyError unit) a :
  validate a = Ok tt -> (String.length (text_of (to_vec a)) <= MAX_DOCUMENT)%nat ->
  decode validate (as_bytes (text_of (to_vec a))) = Ok a.
Proof.
  intros Hv Hl. rewrite text_of_length in Hl. rewrite text_of_bytes. unfold decode.
  rewrite (proj2 (Nat.ltb_ge _ _)) by exact Hl. simpl. rewrite from_slice_to_vec. simpl. by rewrite Hv.
Qed.

Lemma context_validated vault scope reference d ctx :
  custody_context vault scope reference d = Ok ctx -> scope_validate scope = Ok tt /\ ref_validate reference = Ok tt.
Proof.
  unfold custody_context. intros E. apply result_bind_ok in E as ([] & E1 & E). by apply result_bind_ok in E as ([] & E2 & _).
Qed.

(** The row that is written parses back, and its envelope opens. *)
Definition own_row (scope : CustodyScope) (reference : ObjectRef) (env : bytes) (d : bool) : CustodyRow := {|
  c_object_id := object_id reference; scope_json := text_of (to_vec scope); reference_json := text_of (to_vec reference);
  c_envelope := env; c_deleted := d |}.

Lemma sealed_row_opens dek vault row ctx value max n :
  custody_fits vault -> custody_context vault (row_scope row) (row_reference row) (row_deleted row) = Ok ctx -> length n = 12%nat ->
  seal_envelope dek ctx value max n = Ok (row_envelope row) -> length value = (if row_deleted row then 0 else SECRET_BYTES)%nat ->
  (length (row_envelope row) <= MAX_DOCUMENT)%nat -> open_custody dek vault row = Ok value.
Proof.
  intros Hf Hc Hn Hs Hv Hl. pose proof (Hf _ _ _ _ Hc) as Hfit. unfold open_custody. rewrite Hc. simpl.
  destruct (seal_ok _ _ _ _ _ _ Hs) as (ct & tag & Hcv & Hpl & Henc & Hct & Htag & E). rewrite E in *.
  unfold open_envelope. rewrite open_sealed; try done; [|lia|].
  2:{ revert Hl. unfold MAX_DOCUMENT, MAX_ENVELOPE_BYTES. lia. }
  cbv zeta. rewrite (proj2 (Z.ltb_ge _ _)) by exact Hfit. rewrite bool_decide_true by done.
  rewrite (gcm_decrypt_encrypt _ _ _ _ _ Henc). simpl. rewrite Hv. by rewrite Nat.eqb_refl.
Qed.

Lemma own_row_parses scope reference env d :
  scope_validate scope = Ok tt -> ref_validate reference = Ok tt ->
  lengths_ok (text_of (to_vec scope)) (text_of (to_vec reference)) env = true ->
  parse_row (own_row scope reference env d) = Some {| row_object_id := object_id reference; row_scope := scope;
    row_reference := reference; row_envelope := env; row_deleted := d |}.
Proof.
  intros V1 V2 Hl. unfold lengths_ok in Hl. propify.
  assert (identity (object_id reference) 128 = true) as Hid.
  { unfold ref_validate in V2. apply result_bind_ok in V2 as (? & _ & V2). apply result_bind_ok in V2 as (? & _ & V2).
    apply err_if_ok in V2. propify. done. }
  unfold identity in Hid. propify. unfold parse_row, row_in_bounds. simpl.
  repeat match goal with E : (_ <=? _)%nat = true |- _ => rewrite E; apply Nat.leb_le in E end. simpl.
  rewrite !decode_own by done. by rewrite String.eqb_refl.
Qed.

Lemma removed_row_parses r row env :
  parse_row r = Some row -> (length env <=? MAX_DOCUMENT)%nat = true ->
  parse_row (set_removed env r) = Some {| row_object_id := row_object_id row; row_scope := row_scope row;
    row_reference := row_reference row; row_envelope := env; row_deleted := true |}.
Proof.
  unfold parse_row, row_in_bounds. simpl. intros Hp ->. destruct (_ && _ && _ && _) eqn:E in Hp; [|done]. propify.
  repeat match goal with E : (_ <=? _)%nat = true |- _ => rewrite E end. simpl in *.
  destruct (decode scope_validate _) as [sc|]; [|done]. destruct (decode ref_validate _) as [o|]; [|done].
  destruct (String.eqb _ _); [|done]. by injection Hp as <-.
Qed.

Lemma seal_custody_ok dek ctx value max w env w' :
  seal_custody dek ctx value max w = (Ok env, w') ->
  w_db w' = w_db w /\ exists n, length n = 12%nat /\ seal_envelope dek ctx value max n = Ok env.
Proof.
  unfold seal_custody. intros E. apply CM_bind_ok in E as (n & w1 & E1 & E). injection E1 as <- <-.
  apply clift_ok in E as [E ->]. apply map_err_ok in E. split; [done|]. eexists. split; [|exact E]. apply env_nonce_length.
Qed.

(** ** One operation *)

Lemma exact_ok dek vault row scope reference v :
  exact dek vault row scope reference = Ok v ->
  open_custody dek vault row = Ok v /\ row_deleted row = false /\ row_scope row = scope /\ row_reference row = reference.
Proof. unfold exact. intros E. result_inv. propify. subst. done. Qed.

Lemma find_none_absent id db : find id db = Ok None -> exists rows, custody_objects db = Some rows /\ List.find (has_id id) rows = None.
Proof.
  unfold find. destruct (custody_objects db) as [rows|]; [|done]. destruct (List.find _ rows) as [r|] eqn:E; [|eauto].
  by destruct (parse_row r).
Qed.
Lemma find_some_row id db row :
  find id db = Ok (Some row) ->
  exists rows r, custody_objects db = Some rows /\ List.find (has_id id) rows = Some r /\ parse_row r = Some row.
Proof.
  unfold find. destruct (custody_objects db) as [rows|]; [|done]. destruct (List.find _ rows) as [r|] eqn:E; [|done].
  destruct (parse_row r) eqn:F; [|done]. intros [= <-]. eauto.
Qed.

Lemma has_id_other id id' (r : CustodyRow) : id' <> id -> has_id id r = true -> has_id id' r = false.
Proof. unfold has_id. intros Hn E. apply String.eqb_eq in E. apply String.eqb_neq. congruence. Qed.

Lemma find_existsb {A} (p : A -> bool) l : existsb p l = bool_decide (is_Some (List.find p l)).
Proof. induction l as [|x l IH]; simpl; [done|]. destruct (p x); [done|]. exact IH. Qed.

(** The upsert and the removal replace the row of their identifier and no
    other. *)
Lemma upsert_finds id sj rj env rows :
  List.find (has_id id) (upsert_custody id sj rj env rows) =
    Some (match List.find (has_id id) rows with
          | Some r => set_custody sj rj env r
          | None => {| c_object_id := id; scope_json := sj; reference_json := rj; c_envelope := env; c_deleted := false |}
          end) /\
  forall id', id' <> id -> List.find (has_id id') (upsert_custody id sj rj env rows) = List.find (has_id id') rows.
Proof.
  unfold upsert_custody. rewrite find_existsb. destruct (List.find (has_id id) rows) as [r|] eqn:E.
  - rewrite bool_decide_true by eauto. split.
    + by apply find_update_same.
    + intros id' Hn. apply find_update_other. intros x Hx. split; by eapply has_id_other.
  - rewrite bool_decide_false by (intros []; done). split.
    + rewrite find_app, E. simpl. unfold has_id. simpl. by rewrite String.eqb_refl.
    + intros id' Hn. rewrite find_app. destruct (List.find (has_id id') rows); [done|]. simpl. unfold has_id. simpl.
      by rewrite (proj2 (String.eqb_neq id id')).
Qed.

Lemma find_of_rows id db db' :
  (exists rows rows', custody_objects db = Some rows /\ custody_objects db' = Some rows' /\
     List.find (has_id id) rows = List.find (has_id id) rows') -> find id db' = find id db.
Proof. intros (rows & rows' & E1 & E2 & E3). unfold find. by rewrite E1, E2, E3. Qed.

Lemma parse_row_id r row : parse_row r = Some row -> c_object_id r = object_id (row_reference row) /\ row_deleted row = c_deleted r.
Proof.
  unfold parse_row. destruct (negb _); [done|]. destruct (decode _ _) as [s|]; [|done]. destruct (decode _ _) as [o|]; [|done].
  destruct (String.eqb_spec (c_object_id r) (object_id o)); [|done]. by intros [= <-].
Qed.

Lemma put_body_ok dek vault scope expected reference value check bc w u w' :
  custody_fits vault -> length value = SECRET_BYTES -> match expected with Some old => ref_validate old = Ok tt | None => True end ->
  put_body dek vault scope expected reference value check bc w = (Ok u, w') ->
  (exists before, custody_view dek vault (object_id reference) (w_db w) = Ok before /\ may_put before scope expected reference) /\
  custody_view dek vault (object_id reference) (w_db w') = Ok (Some (scope, reference, Some value)) /\
  forall id, id <> object_id reference -> find id (w_db w') = find id (w_db w).
Proof.
  intros Hf Hv Ho E. unfold put_body in E. cm_inv.
  match goal with F : seal_custody _ _ _ _ _ = _ |- _ => apply seal_custody_ok in F as (Edb & n & Hn & Hs) end.
  match goal with F : custody_context _ _ _ _ = Ok _ |- _ => rename F into Hc end.
  match goal with F : find _ _ = Ok ?f |- _ => rename F into Hfind; rename f into found end.
  match goal with F : may_replace _ _ _ _ _ _ = _ |- _ => rename F into Hm end.
  match goal with F : custody_upsert _ _ _ _ ?x = _ |- _ => rename F into Hu; rename x into w1 end.
  unfold custody_upsert in Hu. rewrite Edb in Hu. destruct (custody_objects (w_db w)) as [rows|] eqn:Er; [|done].
  destruct (lengths_ok _ _ _) eqn:Hl; [|done]. injection Hu as <- <-. simpl.
  destruct (upsert_finds (object_id reference) (text_of (to_vec scope)) (text_of (to_vec reference)) a4 rows) as [U1 U2].
  pose proof (context_validated _ _ _ _ _ Hc) as [V1 V2]. pose proof (own_row_parses _ _ _ false V1 V2 Hl) as Hp.
  split_and!.
  - unfold custody_view. rewrite Hfind. simpl. unfold may_replace in Hm.
    destruct found as [row0|], expected as [old|]; try done; [|by exists None].
    apply result_bind_ok in Hm as (v & He & Hfo). apply exact_ok in He as (He & Hd & Es & Eo). rewrite He. simpl. rewrite Hd, Es, Eo.
    eexists. split; [done|]. destruct a2.
    destruct (follows_ok _ _ Ho V2 Hfo) as (? & ? & ?). by eauto 10.
  - assert (List.find (has_id (object_id reference)) (upsert_custody (object_id reference) (text_of (to_vec scope)) (text_of (to_vec reference)) a4 rows)
      = Some (own_row scope reference a4 false)) as U3.
    { rewrite U1. f_equal. destruct found as [row0|].
      - apply find_some_row in Hfind as (rows' & r & E1 & E2 & E3). simplify_eq. rewrite E2.
        unfold may_replace in Hm. destruct expected as [old|]; [|done]. apply result_bind_ok in Hm as (v & He & Hfo).
        apply exact_ok in He as (_ & Hd & _ & Eo). apply parse_row_id in E3 as [E4 E5].
        apply List.find_some in E2 as [_ E2]. unfold has_id in E2. apply String.eqb_eq in E2.
        unfold set_custody, own_row. destruct r; simpl in *. congruence.
      - apply find_none_absent in Hfind as (rows' & E1 & E2). simplify_eq. by rewrite E2. }
    unfold custody_view, find. simpl. rewrite U3, Hp. simpl. unfold lengths_ok in Hl. propify.
    by erewrite sealed_row_opens by (simpl; eassumption || by apply Nat.leb_le).
  - intros id Hid. apply find_of_rows. simpl. do 2 eexists. split_and!; [exact Er|done|]. symmetry. by apply U2.
Qed.

Lemma remove_body_ok dek vault scope expected check bc w u w' :
  custody_fits vault -> remove_body dek vault scope expected check bc w = (Ok u, w') ->
  (exists v, custody_view dek vault (object_id expected) (w_db w) = Ok (Some (scope, expected, Some v))) /\
  custody_view dek vault (object_id expected) (w_db w') = Ok (Some (scope, expected, None)) /\
  forall id, id <> object_id expected -> find id (w_db w') = find id (w_db w).
Proof.
  intros Hf E. unfold remove_body in E. cm_inv.
  match goal with F : seal_custody _ _ _ _ _ = _ |- _ => apply seal_custody_ok in F as (Edb & n & Hn & Hs) end.
  match goal with F : custody_context _ _ _ _ = Ok _ |- _ => rename F into Hc end.
  match goal with F : exact _ _ _ _ _ = _ |- _ => apply exact_ok in F as (Ho & Hd & Es & Eo) end.
  match goal with F : ok_or _ _ = Ok ?x |- _ => apply ok_or_ok in F as ->; rename x into row end.
  match goal with F : find _ _ = Ok _ |- _ => pose proof F as Hfind; apply find_some_row in F as (rows & r & E1 & E2 & E3) end.
  match goal with F : custody_set_removed _ _ _ = _ |- _ => rename F into Hu end.
  unfold custody_set_removed in Hu. rewrite Edb, E1, find_existsb, E2, bool_decide_true in Hu by eauto. simpl in Hu.
  destruct (length _ <=? MAX_DOCUMENT)%nat eqn:Hl; [|done]. injection Hu as <- <-. simpl. split_and!.
  - unfold custody_view. rewrite Hfind. simpl. rewrite Ho. simpl. rewrite Hd, Es, Eo. eauto.
  - unfold custody_view, find. simpl. erewrite find_update_same by (done || exact E2).
    rewrite (removed_row_parses _ _ _ E3 Hl). simpl. subst scope expected.
    by erewrite sealed_row_opens by (simpl; eassumption || done || by apply Nat.leb_le).
  - intros id Hid. apply find_of_rows. simpl. do 2 eexists. split_and!; [exact E1|done|]. symmetry.
    apply find_update_other. intros x Hx. split; by eapply has_id_other.
Qed.

(** ** The operations, whatever becomes of them *)

Lemma clift_bind_cases {A B} (r : result CustodyError A) (k : A -> CM B) w x w' :
  (clift r ≫= k) w = (x, w') -> (is_ok x = false /\ w' = w) \/ exists a, r = Ok a /\ k a w = (x, w').
Proof. unfold clift, mbind, CM_bind. destruct r as [a|e]; [eauto|]. intros [= <- <-]. auto. Qed.

(** Peel the checks before the transaction: an error there changes nothing. *)
Ltac cm_prefix E :=
  repeat (apply clift_bind_cases in E as [[? ->]|(? & ? & E)];
    [by split; [|left; split; [|intros ?]]|]).

(** A transaction either leaves the objects as they were and fails, or did
    what its body does. *)
Lemma custody_tx_cases {A} dek (body : CM A) w r w' :
  in_step dek w -> Guarded (embed body) -> custody_tx dek body w = (r, w') ->
  in_step dek w' /\
  ((is_ok r = false /\ forall id, find id (w_db w') = find id (w_db w)) \/
   exists a w1 w2, body w1 = (Ok a, w2) /\ w_db w' = w_db w2 /\ (forall id, find id (w_db w1) = find id (w_db w))).
Proof.
  intros Hs HG E. apply custody_tx_content in E as (r' & E & Hr).
  destruct (content_tx_safe _ _ _ _ _ _ Hs HG E) as (Hs' & _ & [[Edb Hk]|(a & w1 & w2 & E1 & E2 & E3 & _)]); (split; [done|]).
  - left. split; [|by rewrite Edb]. destruct r as [a|]; [|done]. by rewrite (proj1 (Hr a) eq_refl) in Hk.
  - right. apply embed_ok in E2. exists a, w1, w2. split_and!; [done..|]. intros id. rewrite E1. by destruct (w_on_disk w).
Qed.

Context (s : Session) (dek : bytes) (vault : string).
Context (Hdek : session_dek s = Ok dek) (Hvault : vault_uuid_str s = Ok vault) (Hfits : custody_fits vault).

Lemma view_find id db db' : find id db' = find id db -> custody_view dek vault id db' = custody_view dek vault id db.
Proof. unfold custody_view. by intros ->. Qed.

(** What a put and a removal do to the views. *)
Definition put_effect (scope : CustodyScope) (expected : option ObjectRef) (reference : ObjectRef) (value : bytes) (w w' : World) : Prop :=
  (exists before, custody_view dek vault (object_id reference) (w_db w) = Ok before /\ may_put before scope expected reference) /\
  custody_view dek vault (object_id reference) (w_db w') = Ok (Some (scope, reference, Some value)) /\
  forall id, id <> object_id reference -> find id (w_db w') = find id (w_db w).
Definition remove_effect (scope : CustodyScope) (expected : ObjectRef) (w w' : World) : Prop :=
  (exists v, custody_view dek vault (object_id expected) (w_db w) = Ok (Some (scope, expected, Some v))) /\
  custody_view dek vault (object_id expected) (w_db w') = Ok (Some (scope, expected, None)) /\
  forall id, id <> object_id expected -> find id (w_db w') = find id (w_db w).

Lemma custody_put_cases scope expected reference value check bc w r w' :
  in_step dek w -> length value = SECRET_BYTES -> custody_put s scope expected reference value check bc w = (r, w') ->
  in_step dek w' /\
  ((is_ok r = false /\ forall id, find id (w_db w') = find id (w_db w)) \/ put_effect scope expected reference value w w').
Proof.
  intros Hs Hv E. unfold custody_put, custody_dek, custody_vault in E. rewrite Hdek, Hvault in E. cm_prefix E.
  simpl in *. simplify_eq.
  apply custody_tx_cases in E as (Hs' & Hc); [|done|apply guarded_put]. split; [done|].
  destruct Hc as [Hc|(a & w1 & w2 & E1 & E2 & E3)]; [by left|right].
  apply put_body_ok in E1 as ((before & B1 & B2) & B3 & B4); [|done|done|by destruct expected as [old|]; [destruct x2|]].
  split_and!.
  - exists before. by rewrite <- (view_find _ _ _ (E3 _)).
  - by rewrite E2.
  - intros id Hid. by rewrite E2, (B4 id Hid), E3.
Qed.

Lemma custody_remove_cases scope expected check bc w r w' :
  in_step dek w -> custody_remove s scope expected check bc w = (r, w') ->
  in_step dek w' /\
  ((is_ok r = false /\ forall id, find id (w_db w') = find id (w_db w)) \/ remove_effect scope expected w w').
Proof.
  intros Hs E. unfold custody_remove, custody_dek, custody_vault in E. rewrite Hdek, Hvault in E. cm_prefix E.
  simpl in *. simplify_eq.
  apply custody_tx_cases in E as (Hs' & Hc); [|done|apply guarded_remove]. split; [done|].
  destruct Hc as [Hc|(a & w1 & w2 & E1 & E2 & E3)]; [by left|right].
  apply remove_body_ok in E1 as ((v & B1) & B3 & B4); [|done].
  split_and!.
  - exists v. by rewrite <- (view_find _ _ _ (E3 _)).
  - by rewrite E2.
  - intros id Hid. by rewrite E2, (B4 id Hid), E3.
Qed.

(** The read, from what is held. *)
Definition read_of (before : option Held) (scope : CustodyScope) (reference : ObjectRef) : result CustodyError bytes :=
  match before with
  | Some (sc, r, Some v) =>
    if bool_decide (sc = scope) then if bool_decide (r = reference) then Ok v else Err StaleReference else Err Denied
  | _ => Err CustodyNotFound
  end.
Lemma custody_read_view scope reference w before :
  in_step dek w -> scope_validate scope = Ok tt -> ref_validate reference = Ok tt ->
  custody_view dek vault (object_id reference) (w_db w) = Ok before ->
  custody_read s scope reference (fun _ => Ok tt) w = (read_of before scope reference, w).
Proof.
  intros Hs V1 V2 Hb. unfold custody_read, custody_dek, custody_vault. rewrite V1, V2, Hdek, Hvault. simpl.
  do 5 (erewrite CM_bind_run by done). rewrite (CM_bind_run _ _ _ tt w) by (unfold cmap; by rewrite verify_snapshot_ok).
  do 2 (erewrite CM_bind_run by done). cbv beta.
  unfold custody_view in Hb. apply result_bind_ok in Hb as (found & Hf & Hb). rewrite Hf. erewrite CM_bind_run by done.
  destruct found as [row|]; [|by injection Hb as <-]. apply result_bind_ok in Hb as (v & Ho & Hb). injection Hb as <-.
  do 2 (erewrite CM_bind_run by done). unfold clift, exact, read_of. rewrite Ho. simpl. destruct (row_deleted row); [done|].
  unfold err_if. destruct (bool_decide (row_scope row = scope)); [|done]. by destruct (bool_decide (row_reference row = reference)).
Qed.

(** A run of puts and removals, that may fail anywhere. *)
Inductive custody_step : World -> World -> Prop :=
| put_step scope expected reference value check bc w r w' :
    length value = SECRET_BYTES -> custody_put s scope expected reference value check bc w = (r, w') -> custody_step w w'
| remove_step scope expected check bc w r w' :
    custody_remove s scope expected check bc w = (r, w') -> custody_step w w'.

(** What may become of what is held under an identifier: the scope stays, the
    revision never falls, equal revisions are equal references, and a tombstone
    stays what it is. *)
Definition revision_of (r : ObjectRef) : Z := default 0 (parse_unsigned 64 (revision r)).
Definition evolves (h h' : Held) : Prop :=
  h'.1.1 = h.1.1 /\ revision_of h.1.2 <= revision_of h'.1.2 /\
  (revision_of h'.1.2 = revision_of h.1.2 -> h'.1.2 = h.1.2 /\ (h'.2 = h.2 \/ h'.2 = None)) /\ (h.2 = None -> h' = h).

Lemma evolves_refl h : evolves h h.
Proof. unfold evolves. split_and!; auto; lia. Qed.
Lemma evolves_trans h1 h2 h3 : evolves h1 h2 -> evolves h2 h3 -> evolves h1 h3.
Proof.
  intros (A1 & A2 & A3 & A4) (B1 & B2 & B3 & B4). split_and!; [congruence|lia| |].
  - intros E. destruct A3 as [A3 A5]; [lia|]. destruct B3 as [B3 B5]; [lia|]. split; [congruence|].
    destruct B5 as [->|]; auto.
  - intros E. rewrite (A4 E) in *. auto.
Qed.

Lemma custody_step_evolves w w' id h :
  in_step dek w -> custody_step w w' -> custody_view dek vault id (w_db w) = Ok (Some h) ->
  in_step dek w' /\ exists h', custody_view dek vault id (w_db w') = Ok (Some h') /\ evolves h h'.
Proof.
  intros Hs Hstep Hv. assert ((forall id', find id' (w_db w') = find id' (w_db w)) -> exists h',
    custody_view dek vault id (w_db w') = Ok (Some h') /\ evolves h h') as Hsame.
  { intros Ef. exists h. split; [|apply evolves_refl]. by rewrite (view_find _ _ _ (Ef id)). }
  destruct Hstep as [scope expected reference value check bc w r w' Hl E|scope expected check bc w r w' E].
  - apply custody_put_cases in E as (Hs' & [[_ Ef]|((before & B1 & B2) & B3 & B4)]); [| |done..]; (split; [done|]); [auto|].
    destruct (decide (id = object_id reference)) as [->|Hn].
    2:{ exists h. split; [|apply evolves_refl]. by rewrite (view_find _ _ _ (B4 _ Hn)). }
    rewrite Hv in B1. injection B1 as <-. eexists. split; [exact B3|].
    destruct expected as [old|]; [|done]. destruct B2 as (_ & (v & [= ->]) & (n & R1 & R2) & _).
    apply decimal_parse in R1, R2. unfold evolves, revision_of. simpl. rewrite R1, R2. simpl. split_and!; [done|lia|lia|done].
  - apply custody_remove_cases in E as (Hs' & [[_ Ef]|((v & B1) & B3 & B4)]); [| |done..]; (split; [done|]); [auto|].
    destruct (decide (id = object_id expected)) as [->|Hn].
    2:{ exists h. split; [|apply evolves_refl]. by rewrite (view_find _ _ _ (B4 _ Hn)). }
    rewrite Hv in B1. injection B1 as ->. eexists. split; [exact B3|]. unfold evolves. simpl. split_and!; [done|lia|auto|done].
Qed.

Lemma custody_run_evolves w w' id h :
  rtc custody_step w w' -> in_step dek w -> custody_view dek vault id (w_db w) = Ok (Some h) ->
  exists h', custody_view dek vault id (w_db w') = Ok (Some h') /\ evolves h h'.
Proof.
  intros Hr. revert h. induction Hr as [w|w w1 w' Hst Hr IH]; intros h Hs Hv; [eauto using evolves_refl|].
  destruct (custody_step_evolves _ _ _ _ Hs Hst Hv) as (Hs1 & h1 & Hv1 & He1).
  destruct (IH h1 Hs1 Hv1) as (h' & Hv' & He'). eauto using evolves_trans.
Qed.

(** C25. A custody object is a register with compare-and-swap.  A put succeeds
    only when nothing is held under its identifier, or when what is held is the
    live object of exactly the expected reference and scope, with the next
    revision and a key epoch that does not fall; afterwards exactly the new
    secret is held, and no other identifier changed.  A removal succeeds only
    under the live reference and leaves a tombstone.  A read answers from what is
    held: the secret for its reference, or why not.  Over any run of puts and
    removals, failed ones included, the scope of an object stays, its revision
    never falls, one revision is one reference, and a removed object stays
    removed. *)
Theorem custody_register w :
  in_step dek w ->
  (forall scope expected reference value check bc w', length value = SECRET_BYTES ->
     custody_put s scope expected reference value check bc w = (Ok tt, w') -> put_effect scope expected reference value w w') /\
  (forall scope expected check bc w',
     custody_remove s scope expected check bc w = (Ok tt, w') -> remove_effect scope expected w w') /\
  (forall scope reference before, scope_validate scope = Ok tt -> ref_validate reference = Ok tt ->
     custody_view dek vault (object_id reference) (w_db w) = Ok before ->
     custody_read s scope reference (fun _ => Ok tt) w = (read_of before scope reference, w)) /\
  (forall w' id h, rtc custody_step w w' -> custody_view dek vault id (w_db w) = Ok (Some h) ->
     exists h', custody_view dek vault id (w_db w') = Ok (Some h') /\ evolves h h').
Proof.
  intros Hs. split_and!.
  - intros scope expected reference value check bc w' Hl E.
    apply custody_put_cases in E as (_ & [[[=] _]|E]); done.
  - intros scope expected check bc w' E. apply custody_remove_cases in E as (_ & [[[=] _]|E]); done.
  - intros scope reference before V1 V2. by apply custody_read_view.
  - intros w' id h Hr. by apply custody_run_evolves.
Qed.
End Facts.

(** ** Witness *)

Module Demo.

(** Compact documents: a self-delimiting codec, in hexadecimal where the text is
    scanned. *)
#[local] Instance flat_purpose : Flat EnvelopePurpose :=
  flat_via encode (fun p => default Summary (countable.decode p)) (fun p => f_equal (default Summary) (decode_encode p)).
#[local] Instance flat_type : Flat ObjectType :=
  flat_via encode (fun p => default Password (countable.decode p)) (fun p => f_equal (default Password) (decode_encode p)).
#[local] Instance flat_context : Flat AadContext := flat_via
  (fun c => (Aad.object c, Aad.vault c, (aad_version c, Aad.purpose c, Aad.object_type c,
             (schema_version c, crypto_version c, epoch c, tombstone c))))
  (fun '(ob, va, (v, p, t, (sv, cv, e, tb))) =>
     {| aad_version := v; Aad.vault := va; Aad.object := ob; Aad.purpose := p; Aad.object_type := t;
        schema_version := sv; crypto_version := cv; epoch := e; tombstone := tb |})
  (fun c => match c with Build_AadContext _ _ _ _ _ _ _ _ _ => eq_refl end).
#[local] Instance compact_context : SerdeBytes AadContext | 0 := flat_serde AadContext.
#[local] Instance flat_envelope : Flat EnvelopeDoc := flat_via
  (fun e => (env_ct e, (env_magic e, env_envelope_version e, env_crypto_version e, env_alg e, env_context e, Envelope.env_nonce e, env_tag e)))
  (fun '(ct, (m, v, cv, al, c, n, tg)) =>
       {| env_magic := m; env_envelope_version := v; env_crypto_version := cv; env_alg := al;
          env_context := c; Envelope.env_nonce := n; env_ct := ct; env_tag := tg |})
  (fun e => match e with Build_EnvelopeDoc _ _ _ _ _ _ _ _ => eq_refl end).
#[local] Instance compact_envelope : SerdeBytes EnvelopeDoc | 0 := {|
  to_vec e := ENVELOPE_MAGIC ++ as_bytes (Concrete.hex (put e));
  from_slice b := hex_decode (text_of (drop 16 b)) ≫= fun d => match take_one d with Some (e, []) => Some e | _ => None end |}.
#[local] Instance compact_envelope_laws : SerdeBytesLaws EnvelopeDoc.
Proof.
  intros e. cbn -[ENVELOPE_MAGIC put take_one hex_decode drop app as_bytes].
  rewrite (drop_app_length' ENVELOPE_MAGIC) by done. unfold text_of.
  change (as_bytes ?x) with (list_byte_of_string x). rewrite string_of_list_byte_of_string.
  change (Concrete.hex (put e)) with (hex_encode (put e)). rewrite hex_decode_encode.
  pose proof (take_put e []) as E. rewrite app_nil_r in E. cbn [mbind option_bind]. by rewrite E.
Qed.

Lemma hex_plain b : Forall plain (as_bytes (Concrete.hex b)).
Proof.
  assert (forall i, 0 <= i < 16 -> plain (byte_of_ascii (Concrete.hex_digit i))) as G.
  { intros i Hi. rewrite <- (Z2Nat.id i) by lia.
    assert (forallb (fun n => let x := byte_of_ascii (Concrete.hex_digit (Z.of_nat n)) in
              negb (Byte.eqb x quote) && negb (opens x) && negb (closes x)) (seq 0 16) = true) as F by (vm_compute; reflexivity).
    rewrite forallb_forall in F. specialize (F (Z.to_nat i) ltac:(apply in_seq; lia)). cbv zeta in F. propify. done. }
  induction b as [|x b IH]; [constructor|]. pose proof (Z_of_byte_range x).
  constructor; [|constructor; [|exact IH]]; apply G; Z.to_euclidean_division_equations; lia.
Qed.
Lemma hex_text_length b : length (as_bytes (Concrete.hex b)) = (2 * length b)%nat.
Proof. induction b as [|x b IH]; [done|]. change (S (S (length (as_bytes (Concrete.hex b)))) = (2 * S (length b))%nat). lia. Qed.
Lemma put_string_length (s : string) : length (put s) = (2 * length (as_bytes s) + 1)%nat.
Proof. change (length (put_list (as_bytes s)) = (2 * length (as_bytes s) + 1)%nat). induction (as_bytes s); simpl in *; lia. Qed.

#[local] Instance compact_envelope_text : EnvelopeJson.
Proof.
  constructor; intros e; cbn -[ENVELOPE_MAGIC put].
  - intros _. apply starts_with_app.
  - unfold json_depth_exceeds.
    assert (forall r, depth_scan MAX_ENVELOPE_DEPTH 0 false false (ENVELOPE_MAGIC ++ r) = depth_scan MAX_ENVELOPE_DEPTH 1 false false r) as G by done.
    rewrite G. apply depth_scan_plain, hex_plain.
  - rewrite length_app, hex_text_length.
    change (put e) with (put (env_ct e) ++ put (env_magic e, env_envelope_version e, env_crypto_version e, env_alg e, env_context e, Envelope.env_nonce e, env_tag e)).
    rewrite length_app, put_string_length. change (length ENVELOPE_MAGIC) with 16%nat.
    rewrite <- (string_of_list_byte_of_string (env_ct e)) at 1. fold (text_of (list_byte_of_string (env_ct e))).
    rewrite text_of_length. change (list_byte_of_string (env_ct e)) with (as_bytes (env_ct e)). lia.
Qed.

#[export] Instance flat_scope : Flat CustodyScope := flat_via
  (fun c => (cs_version c, namespace c, issuer c, subject c, mailbox_id c, bool_decide (cs_purpose c = MailRecovery)))
  (fun '(v, n, i, s, m, p) => {| cs_version := v; namespace := n; issuer := i; subject := s; mailbox_id := m;
     cs_purpose := if p : bool then MailRecovery else StorageRecovery |})
  (fun c => match c with Build_CustodyScope _ _ _ _ _ MailRecovery => eq_refl | Build_CustodyScope _ _ _ _ _ _ => eq_refl end).
#[export] Instance flat_ref : Flat ObjectRef := flat_via
  (fun r => (object_id r, revision r, key_epoch r, binding_sha256 r))
  (fun '(i, r, k, b) => {| object_id := i; revision := r; key_epoch := k; binding_sha256 := b |})
  (fun r => match r with Build_ObjectRef _ _ _ _ => eq_refl end).

Lemma demo_fits : custody_fits "7".
Proof.
  intros scope reference d ctx E. unfold custody_context in E. apply result_bind_ok in E as (u & _ & E).
  apply result_bind_ok in E as (u' & _ & E). remember (sha256 (to_vec (scope, reference))) as h eqn:Eh.
  assert (length h = 32%nat) as Hh by (rewrite Eh; apply sha256_length). clear Eh. injection E as <-. unfold to_bytes.
  match goal with |- Z.of_nat (length (to_vec ?c)) <= _ =>
    change (to_vec c) with ((put (Concrete.hex h) ++ put "7"%string) ++ put (AAD_VERSION, Secret, PersonalCustody,
      (1, SUPPORTED_CRYPTO_VERSION, 1, Some d))) end.
  rewrite !length_app, !put_string_length, hex_text_length, Hh. destruct d; vm_compute; discriminate.
Qed.

Definition scope : CustodyScope := {|
  cs_version := 1; namespace := "n"; issuer := "i"; subject := "s"; mailbox_id := "m"; cs_purpose := MailRecovery |}.
Definition reference (rev : string) : ObjectRef := {|
  object_id := "o"; revision := rev; key_epoch := "1";
  binding_sha256 := "0000000000000000000000000000000000000000000000000000000000000000" |}.
Definition secret : bytes := repeat Byte.x07 32.
Definition approve : nat -> result CustodyError unit := fun _ => Ok tt.

(** Stored, then replaced under its reference. *)
Definition first_put : CM unit := custody_put demo_session scope None (reference "1") secret approve (Ok tt).
Definition second_put : CM unit := custody_put demo_session scope (Some (reference "1")) (reference "2") secret approve (Ok tt).

Lemma custody_register_witness :
  (first_put world0).1 = Ok tt /\ put_effect demo_dek "7" scope None (reference "1") secret world0 (first_put world0).2 /\
  (custody_read demo_session scope (reference "1") approve world0).1 = Err CustodyNotFound.
Proof.
  assert ((first_put world0).1 = Ok tt) as E by (vm_compute; reflexivity). split; [done|].
  destruct (custody_register demo_session demo_dek "7" eq_refl eq_refl demo_fits world0 (proj1 world0_ok)) as (H1 & _ & H3 & _).
  split.
  - apply (H1 scope None (reference "1") secret approve (Ok tt)); [reflexivity|].
    rewrite <- E. apply surjective_pairing.
  - unfold approve. rewrite (H3 scope (reference "1") None) by reflexivity. reflexivity.
Defined.

(** The second revision is accepted, the first is stale then. *)
Example second_revision : (second_put (first_put world0).2).1 = Ok tt /\
  (custody_read demo_session scope (reference "1") approve (second_put (first_put world0).2).2).1 = Err StaleReference.
Proof. split; vm_compute; reflexivity. Qed.
End Demo.
