(* ===== verification/Activation.v ===== *)
(** * Core: verification of a whole vault and activation of the current format
    ([vault/activation_ops.rs], [database/schema.rs])

    A read-only pass opens every stored field under the identity of its row and
    reports what failed and what is still in the old format; a clean report lets
    the format of the vault be raised, in one transaction.  The loop body of each
    table is a function of the row that returns what it adds to the report; error
    texts inside reasons are left out.  The audit entry is not modelled. *)

From S2P Require Import Prelude Text ThirdParty Aad Envelope Keyring CoreError EnvelopeOps KeySlots VaultKeys LocalDb ContentGuard ContentFacts Entries EntriesFacts CoreDemo KeyDemo EntriesDemo.
From S2P Require Import Totp DomainTags DomainOps SyncModels SyncOutbox Custody.
From Stdlib Require Import ZArith Lia Strings.String Strings.Byte.
From stdpp Require Import base list option strings numbers gmap.
From S2P Require Import Text.
Open Scope Z_scope.

Definition CURRENT_SCHEMA_VERSION : Z := 14.
Definition CURRENT_VAULT_FORMAT_VERSION : Z := 3.
Definition V2_ACTIVATED_KEY : string := "v2_format_activated".
Definition V2_ACTIVATION_BLOCKED_KEY : string := "v2_activation_blocked".
Definition SWEEP_COMPLETE_KEY : string := "v2_field_binding_sweep_complete".

Record VaultVerificationFailure := {
  vf_table : string;
  vf_row_id : Z;
  vf_sync_id : option string;
  vf_column : string;
  vf_reason : string;
}.

Record VaultVerificationReport := {
  entries_scanned : Z;
  entry_fields_verified : Z;
  ssh_keys_scanned : Z;
  ssh_keys_verified : Z;
  totp_secrets_scanned : Z;
  totp_secrets_verified : Z;
  domain_mappings_scanned : Z;
  domain_mappings_verified : Z;
  rows_still_v1 : Z;
  failures : list VaultVerificationFailure;
}.
Definition empty_report : VaultVerificationReport := {|
  entries_scanned := 0; entry_fields_verified := 0; ssh_keys_scanned := 0; ssh_keys_verified := 0; totp_secrets_scanned := 0;
  totp_secrets_verified := 0; domain_mappings_scanned := 0; domain_mappings_verified := 0; rows_still_v1 := 0; failures := [] |}.

Definition is_clean (r : VaultVerificationReport) : bool := bool_decide (length (failures r) = 0%nat) && (rows_still_v1 r =? 0).
Definition summary_line (r : VaultVerificationReport) : string :=
  "entries=" +:+ i64_display (entries_scanned r) +:+ " (" +:+ i64_display (entry_fields_verified r) +:+ " fields), ssh="
  +:+ i64_display (ssh_keys_verified r) +:+ ", totp=" +:+ i64_display (totp_secrets_verified r) +:+ ", mappings="
  +:+ i64_display (domain_mappings_verified r) +:+ " verified; " +:+ i64_display (rows_still_v1 r) +:+ " rows still v1, "
  +:+ i64_display (Z.of_nat (length (failures r))) +:+ " failures".

Inductive V2ActivationOutcome :=
| Activated (verified_at : string)
| AlreadyActivated
| Blocked (report : VaultVerificationReport) (dead_lettered : bool).

(** What one row adds to the report. *)
Record RowResult := { rr_verified : Z; rr_v1 : Z; rr_failures : list VaultVerificationFailure }.
Definition row_failed (f : VaultVerificationFailure) : RowResult := {| rr_verified := 0; rr_v1 := 0; rr_failures := [f] |}.
Definition row_still_v1 : RowResult := {| rr_verified := 0; rr_v1 := 1; rr_failures := [] |}.
Definition row_verified : RowResult := {| rr_verified := 1; rr_v1 := 0; rr_failures := [] |}.
Definition row_plus (a b : RowResult) : RowResult := {|
  rr_verified := rr_verified a + rr_verified b; rr_v1 := rr_v1 a + rr_v1 b; rr_failures := rr_failures a ++ rr_failures b |}.
Definition row_zero : RowResult := {| rr_verified := 0; rr_v1 := 0; rr_failures := [] |}.
Definition row_sum (l : list RowResult) : RowResult := foldr row_plus row_zero l.

(** The columns of [db_metadata] that tell the format of the file. *)
Record FormatCols := { fc_version : Z; (* i32 *) fc_format_version : option Z }.

(** [stored_format_version]. *)
Definition stored_format_version (c : FormatCols) : Z := default 1 (fc_format_version c).

Section Activation.
Context `{Environment, Chrono, Hmac, Sha256, HexDecode, UuidText, Base64, Base32, Aead, UrlParse}.
Context `{SerdeBytes AadContext, SerdeBytes EnvelopeDoc, SerdeBytes EntryTuple, SerdeBytes MappingTuple, SerdeBytes TagTuple}.
Context `{SerdeBytes CustodyTuple, SerdeBytes State, SerdeBytes Document}.
Context `{SerdeBytes CustodyScope, SerdeBytes ObjectRef, SerdeBytes (CustodyScope * ObjectRef)}.
Context `{Bincode EncryptedEntry, BincodeSer EncryptedEntry, BincodeSer bytes}.

(** ** Entries *)

(** [open_entry_column]. *)
Definition open_entry_column (dek : bytes) (identity : EntryFieldIdentity) (purpose : EnvelopePurpose) (blob : bytes) : Res string :=
  if is_envelope_blob blob then open_entry_field_with_identity dek (Some identity) purpose blob
  else open_entry_field_for_migration dek identity purpose blob.

(** The columns that are not NULL. *)
Definition Column : Type := string * EnvelopePurpose * bytes.
Definition column_of (name : string) (p : EnvelopePurpose) (b : option bytes) : list Column :=
  match b with Some b => [(name, p, b)] | None => [] end.
Definition present (r : EntryRow) : list Column :=
  [("title"%string, EntryTitle, e_title r); ("username"%string, EntryUsername, e_username r);
   ("password"%string, EntryPassword, e_password r)]
  ++ column_of "url" EntryUrl (e_url r) ++ column_of "notes" EntryNotes (e_notes r).
Definition column_v2 (c : Column) : bool := is_envelope_blob c.2.

Definition entry_failure (r : EntryRow) (sync_id : option string) (column reason : string) : VaultVerificationFailure := {|
  vf_table := "entries"; vf_row_id := entry_id r; vf_sync_id := sync_id; vf_column := column; vf_reason := reason |}.

(** The columns that do not open, with the reason. *)
Definition unreadable (dek : bytes) (identity : EntryFieldIdentity) (r : EntryRow) (reason : string) (cols : list Column)
    : list VaultVerificationFailure :=
  List.map (fun c : Column => entry_failure r (sync_id (e_sync r)) c.1.1 reason)
    (List.filter (fun c : Column => negb (is_ok (open_entry_column dek identity c.1.2 c.2))) cols).

Definition verify_entry_row (dek : bytes) (vault_uuid : string) (r : EntryRow) : RowResult :=
  let sid := sync_id (e_sync r) in
  match cred_parse (e_credential_type r) with
  | Err _ => row_failed (entry_failure r sid "credential_type" "envelope identity class cannot be established")
  | Ok cred =>
    let identity s := {| id_vault_uuid := vault_uuid; id_sync_id := s; id_cred := cred |} in
    let cols := present r in
    let envelope_count := length (List.filter column_v2 cols) in
    let legacy_count := (length cols - envelope_count)%nat in
    if (0 <? envelope_count)%nat && (0 <? legacy_count)%nat then
      row_failed (entry_failure r sid (default "?"%string ((fun c : Column => c.1.1) <$> List.find (fun c => negb (column_v2 c)) cols))
        "row has mixed v1/v2 field formats")
    else if (legacy_count =? length cols)%nat then
      match unreadable dek (identity (default ""%string sid)) r "legacy blob failed to decrypt" cols with
      | [] => row_still_v1
      | fs => {| rr_verified := 0; rr_v1 := 0; rr_failures := fs |}
      end
    else
      match sid with
      | None => row_failed (entry_failure r None "sync_id" "row holds v2 envelopes but has no stable identity")
      | Some s =>
        let fs := unreadable dek (identity s) r "v2 envelope failed to open under the row identity" cols in
        {| rr_verified := Z.of_nat (length cols) - Z.of_nat (length fs); rr_v1 := 0; rr_failures := fs |}
      end
  end.

(** ** SSH keys and TOTP secrets *)

Record ThreePartRow := { tp_id : Z; tp_sync_id : option string; tp_blob : bytes; tp_nonce : bytes; tp_tag : bytes }.

Definition verify_three_part_row (dek : bytes) (vault_uuid table blob_column : string) (object_type : ObjectType)
    (v1_reader : bytes -> bytes -> bytes -> bytes -> Res string) (r : ThreePartRow) : RowResult :=
  let failure sid column reason := {| vf_table := table; vf_row_id := tp_id r; vf_sync_id := sid; vf_column := column; vf_reason := reason |} in
  if is_envelope_blob (tp_blob r) then
    match tp_sync_id r with
    | None => row_failed (failure None "sync_id"%string "row holds a v2 envelope but has no stable identity"%string)
    | Some sid =>
      if is_ok (open_object_field dek (Some vault_uuid) (Some sid) object_type Secret (tp_blob r)) then row_verified
      else row_failed (failure (tp_sync_id r) blob_column "v2 envelope failed to open under the row identity"%string)
    end
  else if is_ok (v1_reader dek (tp_blob r) (tp_nonce r) (tp_tag r)) then row_still_v1
  else row_failed (failure (tp_sync_id r) blob_column "legacy blob failed to decrypt"%string).

Definition ssh_part (r : SshKeyRow) : ThreePartRow := {|
  tp_id := key_id r; tp_sync_id := sync_id (s_sync r); tp_blob := private_key_encrypted r; tp_nonce := s_nonce r; tp_tag := s_auth_tag r |}.
Definition totp_part (r : TotpRow) : ThreePartRow := {|
  tp_id := totp_id r; tp_sync_id := sync_id (t_sync r); tp_blob := secret_encrypted r; tp_nonce := t_nonce r; tp_tag := t_auth_tag r |}.
Definition verify_ssh_row (dek : bytes) (vault_uuid : string) (r : SshKeyRow) : RowResult :=
  verify_three_part_row dek vault_uuid "ssh_keys" "private_key_encrypted" SshKey decrypt_private_key (ssh_part r).
Definition verify_totp_row (dek : bytes) (vault_uuid : string) (r : TotpRow) : RowResult :=
  verify_three_part_row dek vault_uuid "totp_secrets" "secret_encrypted" TotpSecret decrypt_totp_secret (totp_part r).

(** ** Domain mappings *)

Definition verify_domain_row (dek : bytes) (vault_uuid : string) (tag_key : bytes) (db : LocalDb) (m : MappingRow) : RowResult :=
  let failure sid column reason := {| vf_table := "domain_mappings"; vf_row_id := mapping_id m; vf_sync_id := sid; vf_column := column;
    vf_reason := reason |} in
  match domain_enc m with
  | Some blob =>
    if is_envelope_blob blob then
      match dm_sync_id m with
      | None => row_failed (failure None "sync_id"%string "row holds a sealed domain but has no stable identity"%string)
      | Some sid =>
        if is_ok (verify_mapping_seal dek vault_uuid tag_key (mapping_id m) sid blob db) then row_verified
        else row_failed (failure (dm_sync_id m) "domain_enc"%string "sealed domain/tag relation failed to verify"%string)
      end
    else row_failed (failure (dm_sync_id m) "domain_enc"%string "column holds a non-envelope blob"%string)
  | None =>
    if existsb (fun t => t_mapping_id t =? mapping_id m) (domain_mapping_tags db)
    then row_failed (failure (dm_sync_id m) "domain_mapping_tags"%string "tag rows exist without a sealed domain"%string)
    else row_still_v1
  end.

(** ** Metadata columns *)

(** A row of one column of [IDENTITY_METADATA_FIELDS], when it is not NULL. *)
Record MetadataField := {
  mf_table : string;
  mf_column : string;
  mf_row : Z;
  mf_sync_id : option string;
  mf_type : ObjectType;
  mf_purpose : EnvelopePurpose;
  mf_value : Value;
}.
Definition field_of (table column : string) (t : ObjectType) (p : EnvelopePurpose) (row : Z) (sid : option string) (v : option Value)
    : list MetadataField :=
  match v with
  | None | Some VNull => []
  | Some v => [{| mf_table := table; mf_column := column; mf_row := row; mf_sync_id := sid; mf_type := t; mf_purpose := p; mf_value := v |}]
  end.
Definition metadata_fields (db : LocalDb) : list MetadataField :=
  flat_map (fun r => field_of "totp_secrets" "issuer" TotpSecret TotpIssuer (totp_id r) (sync_id (t_sync r)) (t_issuer r)) (totp_secrets db) ++
  flat_map (fun r => field_of "totp_secrets" "account_name" TotpSecret TotpAccount (totp_id r) (sync_id (t_sync r)) (t_account_name r))
    (totp_secrets db) ++
  flat_map (fun r => field_of "ssh_keys" "comment" SshKey Summary (key_id r) (sync_id (s_sync r)) (s_comment r)) (ssh_keys db).
Definition value_v2 (v : Value) : bool := match v with VBlob b => starts_with ENVELOPE_MAGIC b | _ => false end.
Definition verify_metadata_field (dek : bytes) (vault : string) (f : MetadataField) : RowResult :=
  if negb (value_v2 (mf_value f)) then row_still_v1
  else if is_ok (open_metadata_text_field dek (Some vault) (mf_sync_id f) (mf_type f) (mf_purpose f) (Some (mf_value f))) then row_zero
  else row_failed {| vf_table := mf_table f; vf_row_id := mf_row f; vf_sync_id := mf_sync_id f; vf_column := mf_column f;
                     vf_reason := "metadata envelope failed column authentication" |}.

(** ** The pass *)

(** [verify_snapshot_envelopes]: the tables in order, then the custody objects,
    whose first error ends the pass. *)
Definition verify_snapshot_envelopes (dek : bytes) (vault_uuid : string) (cols : FormatCols) (db : LocalDb) : Res VaultVerificationReport :=
  tag_key ← map_err Crypto (derive_domain_tag_key dek);
  let e := row_sum (verify_entry_row dek vault_uuid <$> entries db) in
  let s := row_sum (verify_ssh_row dek vault_uuid <$> ssh_keys db) in
  let t := row_sum (verify_totp_row dek vault_uuid <$> totp_secrets db) in
  let d := row_sum (verify_domain_row dek vault_uuid tag_key db <$> domain_mappings db) in
  let m := row_sum (verify_metadata_field dek vault_uuid <$> metadata_fields db) in
  _ ← custody_verify dek vault_uuid (fc_version cols) db;
  let all := row_plus e (row_plus s (row_plus t (row_plus d m))) in
  Ok {| entries_scanned := Z.of_nat (length (entries db)); entry_fields_verified := rr_verified e;
        ssh_keys_scanned := Z.of_nat (length (ssh_keys db)); ssh_keys_verified := rr_verified s;
        totp_secrets_scanned := Z.of_nat (length (totp_secrets db)); totp_secrets_verified := rr_verified t;
        domain_mappings_scanned := Z.of_nat (length (domain_mappings db)); domain_mappings_verified := rr_verified d;
        rows_still_v1 := rr_v1 all; failures := rr_failures all |}.

(** [verify_vault_envelopes]. *)
Definition verify_vault_envelopes (s : Session) (cols : FormatCols) : M VaultVerificationReport :=
  _ ← require_unlocked s;
  dek ← lift (session_dek s);
  vault_uuid ← lift (vault_uuid_str s);
  _ ← lift (map_err Crypto (derive_domain_tag_key dek));
  _ ← verify_snapshot dek;
  report ← query (verify_snapshot_envelopes dek vault_uuid cols);
  lift report.

(** [registry_value], [set_registry_value], [v2_blob_sweep_complete]. *)
Definition set_registry_value (key value : string) (db : LocalDb) : LocalDb :=
  {| db with registry_state := <[key := value]> (registry_state db) |}.
Definition v2_blob_sweep_complete (db : LocalDb) : bool := bool_decide (is_Some (registry_state db !! SWEEP_COMPLETE_KEY)).

(** [is_v2_format_activated], [v2_activation_needed]. *)
Definition is_v2_format_activated (cols : FormatCols) : bool := CURRENT_VAULT_FORMAT_VERSION <=? stored_format_version cols.
Definition v2_activation_needed (cols : FormatCols) (db : LocalDb) : bool :=
  negb (is_v2_format_activated cols) && bool_decide (registry_state db !! V2_ACTIVATION_BLOCKED_KEY = None).

(** [activate_v2_format] on the vault and its format columns; [verified_at] is
    the clock in RFC 3339, and [commit] whether the transaction commits. *)
Definition activate_v2_format (s : Session) (verified_at : string) (commit : bool) (cols : FormatCols) (w : World)
    : Res V2ActivationOutcome * (FormatCols * World) :=
  if negb (is_unlocked (key_hierarchy s)) then (Err VaultLocked, (cols, w))
  else if is_v2_format_activated cols then (Ok AlreadyActivated, (cols, w))
  else
  match verify_vault_envelopes s cols w with
  | (Err e, w) => (Err e, (cols, w))
  | (Ok report, w) =>
    let db := w_db w in
    if negb (is_clean report) then
      let dead_letter := negb (bool_decide (length (failures report) = 0%nat)) || v2_blob_sweep_complete db in
      (Ok (Blocked report dead_letter),
       (cols, if dead_letter
              then {| w with w_db := set_registry_value V2_ACTIVATION_BLOCKED_KEY
                     ("blocked: " +:+ summary_line report +:+ " — clear this key to retry after repairing the vault") db |}
              else w))
    else if negb commit then (Err (Database Sqlite), (cols, w))
    else
      let w := {| w with w_db := set_registry_value V2_ACTIVATED_KEY verified_at db |} in
      if stored_format_version cols <? CURRENT_VAULT_FORMAT_VERSION
      then (Ok (Activated verified_at), ({| cols with fc_format_version := Some CURRENT_VAULT_FORMAT_VERSION |}, w))
      else (Ok AlreadyActivated, (cols, w))
  end.
End Activation.

(** ** What the report says *)

Lemma row_sum_failures l : rr_failures (row_sum l) = [] <-> Forall (fun r => rr_failures r = []) l.
Proof.
  induction l as [|r l IH]; simpl; [by split|]. rewrite Forall_cons, <- IH. split; [|by intros [-> ->]].
  intros E. by apply app_nil in E.
Qed.
Lemma row_sum_v1 l : Forall (fun r => 0 <= rr_v1 r) l ->
  0 <= rr_v1 (row_sum l) /\ (rr_v1 (row_sum l) = 0 <-> Forall (fun r => rr_v1 r = 0) l).
Proof.
  induction 1 as [|r l Hr Hl [IH1 IH2]]; simpl; [by split|]. split; [lia|]. rewrite Forall_cons, <- IH2. lia.
Qed.

(** A row whose fields are all in the current format, and one in the old
    format. *)
Definition row_clean (r : RowResult) : Prop := rr_failures r = [] /\ rr_v1 r = 0.

Section Facts.
Context `{Environment, Chrono, Hmac, Sha256, HexDecode, UuidText, Base64, Base32, Aead, UrlParse}.
Context `{SerdeBytes AadContext, SerdeBytes EnvelopeDoc, SerdeBytes EntryTuple, SerdeBytes MappingTuple, SerdeBytes TagTuple}.
Context `{SerdeBytes CustodyTuple, SerdeBytes State, SerdeBytes Document}.
Context `{SerdeBytes CustodyScope, SerdeBytes ObjectRef, SerdeBytes (CustodyScope * ObjectRef)}.
Context `{Bincode EncryptedEntry, BincodeSer EncryptedEntry, BincodeSer bytes}.
Variables (dek : bytes) (vault : string).

(** Every column is an envelope that opens under the identity of the row. *)
Definition entry_v2 (r : EntryRow) : Prop := exists cred sid,
  cred_parse (e_credential_type r) = Ok cred /\ sync_id (e_sync r) = Some sid /\
  Forall (fun c : Column => column_v2 c = true /\
    is_ok (open_object_field dek (Some vault) (Some sid) (envelope_object_type cred) c.1.2 c.2) = true) (present r).
(** Every column is a legacy blob that decrypts. *)
Definition entry_legacy (r : EntryRow) : Prop := exists cred,
  cred_parse (e_credential_type r) = Ok cred /\
  Forall (fun c : Column => column_v2 c = false /\
    is_ok (open_entry_field_for_migration dek {| id_vault_uuid := vault; id_sync_id := default ""%string (sync_id (e_sync r));
      id_cred := cred |} c.1.2 c.2) = true) (present r).

Lemma unreadable_nil identity r reason cols :
  unreadable dek identity r reason cols = [] <->
  Forall (fun c : Column => is_ok (open_entry_column dek identity c.1.2 c.2) = true) cols.
Proof.
  unfold unreadable. induction cols as [|c cols IH]; simpl; [by split|]. rewrite Forall_cons.
  destruct (is_ok (open_entry_column dek identity c.1.2 c.2)); simpl; [rewrite IH; tauto|]. split; [done|]. by intros [? _].
Qed.

Lemma count_all {A} (p : A -> bool) l : (length (List.filter p l) = length l)%nat <-> Forall (fun x => p x = true) l.
Proof.
  induction l as [|x l IH]; simpl; [by split|]. rewrite Forall_cons. pose proof (filter_length_le p l).
  destruct (p x); simpl; [rewrite <- IH; split; [intros; split; [done|lia]|intros []; lia]|]. split; [lia|]. by intros [].
Qed.
Lemma count_none {A} (p : A -> bool) l : (length (List.filter p l) = 0)%nat <-> Forall (fun x => p x = false) l.
Proof.
  induction l as [|x l IH]; simpl; [by split|]. rewrite Forall_cons, <- IH. destruct (p x); simpl; [|tauto]. split; [lia|]. by intros [].
Qed.
Lemma present_cons r : exists c l, present r = c :: l.
Proof. unfold present. simpl. eauto. Qed.

Lemma v2_column identity c : column_v2 c = true ->
  open_entry_column dek identity c.1.2 c.2 =
  open_object_field dek (Some (id_vault_uuid identity)) (Some (id_sync_id identity)) (envelope_object_type (id_cred identity)) c.1.2 c.2.
Proof. unfold open_entry_column, column_v2. by intros ->. Qed.
Lemma legacy_column identity c : column_v2 c = false ->
  open_entry_column dek identity c.1.2 c.2 = open_entry_field_for_migration dek identity c.1.2 c.2.
Proof. unfold open_entry_column, column_v2. by intros ->. Qed.

Lemma v2_not_legacy r : entry_v2 r -> entry_legacy r -> False.
Proof.
  intros (cred & sid & _ & _ & Hv) (cred' & _ & Hl). destruct (present_cons r) as (c & l & E). rewrite E in *.
  apply Forall_cons in Hv as [[Hv _] _], Hl as [[Hl _] _]. congruence.
Qed.

(** The two loops over the columns. *)
Lemma legacy_row_reads r cred reason :
  cred_parse (e_credential_type r) = Ok cred -> Forall (fun c => column_v2 c = false) (present r) ->
  unreadable dek {| id_vault_uuid := vault; id_sync_id := default ""%string (sync_id (e_sync r)); id_cred := cred |} r reason (present r) = []
  <-> entry_legacy r.
Proof.
  intros Ec En. rewrite unreadable_nil. rewrite Forall_forall in En. unfold entry_legacy. split.
  - intros Ho. exists cred. split; [done|]. rewrite Forall_forall in *. intros c Hc. split; [auto|].
    specialize (Ho c Hc). rewrite legacy_column in Ho by auto. done.
  - intros (cred' & E & Ho). replace cred' with cred in * by congruence. rewrite Forall_forall in *. intros c Hc.
    destruct (Ho c Hc) as [E1 E2]. by rewrite legacy_column.
Qed.
Lemma v2_row_reads r cred sid reason :
  cred_parse (e_credential_type r) = Ok cred -> sync_id (e_sync r) = Some sid -> Forall (fun c => column_v2 c = true) (present r) ->
  unreadable dek {| id_vault_uuid := vault; id_sync_id := sid; id_cred := cred |} r reason (present r) = [] <-> entry_v2 r.
Proof.
  intros Ec Es En. rewrite unreadable_nil. rewrite Forall_forall in En. unfold entry_v2. split.
  - intros Ho. exists cred, sid. split; [done|]. split; [done|]. rewrite Forall_forall in *. intros c Hc. split; [auto|].
    specialize (Ho c Hc). rewrite v2_column in Ho by auto. done.
  - intros (cred' & sid' & E & E' & Ho). replace cred' with cred in * by congruence. replace sid' with sid in * by congruence.
    rewrite Forall_forall in *. intros c Hc. destruct (Ho c Hc) as [E1 E2]. by rewrite v2_column.
Qed.
Lemma v2_columns r : entry_v2 r -> Forall (fun c => column_v2 c = true) (present r).
Proof. intros (? & ? & _ & _ & Ho). eapply Forall_impl; [exact Ho|]. by intros c []. Qed.
Lemma legacy_columns r : entry_legacy r -> Forall (fun c => column_v2 c = false) (present r).
Proof. intros (? & _ & Ho). eapply Forall_impl; [exact Ho|]. by intros c []. Qed.

(** The verdict on a row of entries. *)
Lemma verify_entry_row_verdict r :
  0 <= rr_v1 (verify_entry_row dek vault r) /\
  (row_clean (verify_entry_row dek vault r) <-> entry_v2 r) /\
  (rr_failures (verify_entry_row dek vault r) = [] <-> entry_v2 r \/ entry_legacy r).
Proof.
  assert (forall f, (row_clean (row_failed f) <-> False) /\ (rr_failures (row_failed f) = [] <-> False)) as Hf.
  { intros f. unfold row_clean. simpl. split; (split; [intros ?; by destruct_and?|done]). }
  pose proof (v2_not_legacy r) as Hx. unfold verify_entry_row. destruct (cred_parse _) as [cred|e] eqn:Ec.
  2:{ assert (~ entry_v2 r /\ ~ entry_legacy r) as [Hv Hl] by (split; [intros (? & ? & ? & _)|intros (? & ? & _)]; congruence).
      specialize (Hf (entry_failure r (sync_id (e_sync r)) "credential_type" "envelope identity class cannot be established")).
      split; [simpl; lia|]. tauto. }
  destruct (present_cons r) as (c0 & l0 & Ep). pose proof (filter_length_le column_v2 (present r)) as Hle.
  pose proof (count_none column_v2 (present r)) as Hnone. pose proof (count_all column_v2 (present r)) as Hall.
  pose proof (v2_columns r) as Hv2. pose proof (legacy_columns r) as Hlg.
  destruct (length (List.filter column_v2 (present r))) as [|n] eqn:En.
  - rewrite Nat.sub_0_r, Nat.eqb_refl. cbn [Nat.ltb Nat.leb andb].
    assert (~ entry_v2 r) as Hno by (intros F%Hv2%Hall; rewrite Ep in F; done).
    pose proof (legacy_row_reads r cred "legacy blob failed to decrypt" Ec (proj1 Hnone eq_refl)) as Hr.
    destruct (unreadable _ _ _ _ _) as [|f fs]; unfold row_clean; simpl; (split; [lia|]); split; try tauto; split; try tauto; intros ?; by destruct_and?.
  - destruct (length (present r) - S n)%nat as [|k] eqn:Ek; cbn [Nat.ltb Nat.leb andb].
    + rewrite (proj2 (Nat.eqb_neq _ _)) by (rewrite Ep; done).
      assert (~ entry_legacy r) as Hno by (intros F%Hlg%Hnone; done).
      assert (Forall (fun c => column_v2 c = true) (present r)) as Ha by (apply Hall; lia).
      destruct (sync_id (e_sync r)) as [sid|] eqn:Es.
      * pose proof (v2_row_reads r cred sid "v2 envelope failed to open under the row identity" Ec Es Ha) as Hr.
        unfold row_clean. simpl. split; [lia|]. tauto.
      * assert (~ entry_v2 r) by (intros (? & ? & _ & ? & _); congruence).
        specialize (Hf (entry_failure r None "sync_id" "row holds v2 envelopes but has no stable identity")).
        split; [simpl; lia|]. tauto.
    + assert (~ entry_v2 r) by (intros F%Hv2%Hall; lia). assert (~ entry_legacy r) by (intros F%Hlg%Hnone; done).
      match goal with |- context [row_failed ?f] => specialize (Hf f) end. split; [simpl; lia|]. tauto.
Qed.

(** The other tables. *)
Definition part_v2 (object_type : ObjectType) (r : ThreePartRow) : Prop :=
  is_envelope_blob (tp_blob r) = true /\ exists sid, tp_sync_id r = Some sid /\
    is_ok (open_object_field dek (Some vault) (Some sid) object_type Secret (tp_blob r)) = true.
Definition mapping_v2 (tag_key : bytes) (db : LocalDb) (m : MappingRow) : Prop := exists blob sid,
  domain_enc m = Some blob /\ is_envelope_blob blob = true /\ dm_sync_id m = Some sid /\
  is_ok (verify_mapping_seal dek vault tag_key (mapping_id m) sid blob db) = true.
Definition metadata_v2 (f : MetadataField) : Prop :=
  value_v2 (mf_value f) = true /\
  is_ok (open_metadata_text_field dek (Some vault) (mf_sync_id f) (mf_type f) (mf_purpose f) (Some (mf_value f))) = true.

(** Close [row_clean] of a verdict against its specification, branch by
    branch. *)
Ltac verdict :=
  unfold row_clean; repeat case_match; simpl; (split; [lia|]); split; intros ?;
  repeat match goal with E : _ /\ _ |- _ => destruct E | E : exists _, _ |- _ => destruct E end;
  simplify_eq; first [done | by eauto 10 | congruence].

Lemma verify_three_part_row_verdict table column t reader r :
  0 <= rr_v1 (verify_three_part_row dek vault table column t reader r) /\
  (row_clean (verify_three_part_row dek vault table column t reader r) <-> part_v2 t r).
Proof. unfold verify_three_part_row, part_v2. verdict. Qed.
Lemma verify_domain_row_verdict tag_key db m :
  0 <= rr_v1 (verify_domain_row dek vault tag_key db m) /\
  (row_clean (verify_domain_row dek vault tag_key db m) <-> mapping_v2 tag_key db m).
Proof. unfold verify_domain_row, mapping_v2. verdict. Qed.
Lemma verify_metadata_field_verdict f :
  0 <= rr_v1 (verify_metadata_field dek vault f) /\ (row_clean (verify_metadata_field dek vault f) <-> metadata_v2 f).
Proof. unfold verify_metadata_field, metadata_v2. destruct (value_v2 _); simpl; verdict. Qed.

(** Every stored field is in the current format and opens, and every relation
    holds. *)
Definition vault_v2 (cols : FormatCols) (db : LocalDb) : Prop :=
  Forall entry_v2 (entries db) /\ Forall (fun r => part_v2 SshKey (ssh_part r)) (ssh_keys db) /\
  Forall (fun r => part_v2 TotpSecret (totp_part r)) (totp_secrets db) /\
  (exists k, derive_domain_tag_key dek = Ok k /\ Forall (mapping_v2 k db) (domain_mappings db)) /\
  Forall metadata_v2 (metadata_fields db) /\ custody_verify dek vault (fc_version cols) db = Ok tt.

Lemma row_sum_clean {A} (f : A -> RowResult) (P : A -> Prop) l :
  (forall x, 0 <= rr_v1 (f x) /\ (row_clean (f x) <-> P x)) ->
  0 <= rr_v1 (row_sum (f <$> l)) /\ (row_clean (row_sum (f <$> l)) <-> Forall P l).
Proof.
  intros Hf. assert (Forall (fun r => 0 <= rr_v1 r) (f <$> l)) as Hn by (apply Forall_fmap, Forall_forall; intros x _; apply Hf).
  destruct (row_sum_v1 _ Hn) as [Hp Hz]. split; [done|]. unfold row_clean. rewrite row_sum_failures, Hz, !Forall_fmap, <- Forall_and.
  rewrite !Forall_forall. split; intros Hx x Hi; apply Hf; by apply (Hx x).
Qed.
Lemma row_plus_clean a b : 0 <= rr_v1 a -> 0 <= rr_v1 b ->
  0 <= rr_v1 (row_plus a b) /\ (row_clean (row_plus a b) <-> row_clean a /\ row_clean b).
Proof.
  intros Ha Hb. split; [simpl; lia|]. unfold row_clean. simpl. split.
  - intros [E1 E2]. apply app_nil in E1 as [-> ->]. split; split; done || lia.
  - intros [[-> E1] [-> E2]]. split; done || lia.
Qed.

(** The report is clean exactly when the vault is. *)
Lemma verify_clean_iff cols db :
  (exists rep, verify_snapshot_envelopes dek vault cols db = Ok rep /\ is_clean rep = true) <-> vault_v2 cols db.
Proof.
  unfold verify_snapshot_envelopes, vault_v2. destruct (derive_domain_tag_key dek) as [k|e]; simpl.
  2:{ split; [intros (rep & [=] & _)|]. intros (_ & _ & _ & (k & [=] & _) & _). }
  destruct (row_sum_clean (verify_entry_row dek vault) entry_v2 (entries db)) as [Ne Ce].
  { intros r. destruct (verify_entry_row_verdict r) as (? & ? & _). done. }
  destruct (row_sum_clean (verify_ssh_row dek vault) _ (ssh_keys db) (fun r => verify_three_part_row_verdict _ _ _ _ _)) as [Ns Cs].
  destruct (row_sum_clean (verify_totp_row dek vault) _ (totp_secrets db) (fun r => verify_three_part_row_verdict _ _ _ _ _)) as [Nt Ct].
  destruct (row_sum_clean (verify_domain_row dek vault k db) _ (domain_mappings db) (verify_domain_row_verdict k db)) as [Nd Cd].
  destruct (row_sum_clean (verify_metadata_field dek vault) _ (metadata_fields db) verify_metadata_field_verdict) as [Nm Cm].
  match type of Ne with _ <= rr_v1 ?x => set (re := x) in * end. match type of Ns with _ <= rr_v1 ?x => set (rs := x) in * end.
  match type of Nt with _ <= rr_v1 ?x => set (rt := x) in * end. match type of Nd with _ <= rr_v1 ?x => set (rd := x) in * end.
  match type of Nm with _ <= rr_v1 ?x => set (rm := x) in * end.
  destruct (row_plus_clean rd rm Nd Nm) as [N1 C1]. destruct (row_plus_clean rt _ Nt N1) as [N2 C2].
  destruct (row_plus_clean rs _ Ns N2) as [N3 C3]. destruct (row_plus_clean re _ Ne N3) as [N4 C4].
  set (all := row_plus re (row_plus rs (row_plus rt (row_plus rd rm)))) in *.
  assert (row_clean all <-> bool_decide (length (rr_failures all) = 0%nat) && (rr_v1 all =? 0) = true) as Hc.
  { unfold row_clean. rewrite andb_true_iff, bool_decide_eq_true, Z.eqb_eq, length_zero_iff_nil. done. }
  clearbody re rs rt rd rm. destruct (custody_verify _ _ _ _) as [[]|e]; simpl.
  - split.
    + intros (rep & [= <-] & Hcl). apply (proj2 Hc) in Hcl. rewrite C4, C3, C2, C1, Ce, Cs, Ct, Cd, Cm in Hcl.
      destruct Hcl as (? & ? & ? & ? & ?). split_and!; eauto.
    + intros (He & Hs & Ht & (k' & [= <-] & Hd) & Hm & _). eexists. split; [done|]. apply (proj1 Hc). rewrite C4, C3, C2, C1. tauto.
  - split; [by intros (rep & [=] & _)|]. by intros (_ & _ & _ & _ & _ & [=]).
Qed.

(** An entry in the current format is shown by the ordinary read. *)
Lemma entry_v2_opens s now r :
  session_dek s = Ok dek -> session_uuid s = Some vault -> entry_v2 r -> is_ok (open_row s now r) = true.
Proof.
  intros Hdek Hu (cred & sid & Ec & Es & Hf). unfold open_row. rewrite Ec. simpl. unfold open_entry_field. rewrite Hdek, Hu, Es. simpl.
  unfold present in Hf. rewrite !Forall_app in Hf. destruct Hf as (Hreq & Hurl & Hnotes).
  repeat match goal with X : Forall _ (_ :: _) |- _ => apply Forall_cons in X as [[_ ?] X] end. simpl in *.
  do 3 match goal with X : is_ok ?o = true |- context [?o ≫= _] => destruct o; [simpl; clear X|done] end.
  assert (forall n p b, Forall (fun c : Column => column_v2 c = true /\
    is_ok (open_object_field dek (Some vault) (Some sid) (envelope_object_type cred) c.1.2 c.2) = true) (column_of n p b) ->
    is_ok (open_opt (open_object_field dek (Some vault) (Some sid) (envelope_object_type cred) p) b) = true) as Ho.
  { intros n p [b|]; simpl; [|done]. intros [[_ X] _]%Forall_cons. simpl in X. case_bool_decide; [done|].
    by destruct (open_object_field _ _ _ _ _ _). }
  pose proof (Ho _ _ _ Hurl) as Ou. pose proof (Ho _ _ _ Hnotes) as On.
  destruct (open_opt _ (e_url r)); [simpl|done]. by destruct (open_opt _ (e_notes r)).
Qed.

(** ** Activation *)

Context `{!Sha256Laws, !HexDecodeLaws, !SerdeBytesLaws Document, !SerdeBytesLaws EntryTuple, !SerdeBytesLaws MappingTuple}.
Context `{!SerdeBytesLaws TagTuple, !SerdeBytesLaws CustodyTuple}.

(** A write to [registry_state] that is not the mark of the receipts. *)
Lemma in_step_registry w key value :
  key <> MARKER -> in_step dek w -> in_step dek {| w with w_db := set_registry_value key value (w_db w) |}.
Proof.
  intros Hk Hs Hd. destruct (Hs Hd) as (k & v & cur & loaded & E1 & E2 & E3 & E4 & E5). exists k, v, cur, loaded. split_and!; try done.
  destruct loaded as [st|]; [done|]. unfold marked in *. simpl. by rewrite lookup_insert_ne.
Qed.

Lemma verify_vault_run s cols w :
  session_dek s = Ok dek -> vault_uuid_str s = Ok vault -> in_step dek w ->
  verify_vault_envelopes s cols w = (verify_snapshot_envelopes dek vault cols (w_db w), w).
Proof.
  intros Hdek Hv Hs. unfold verify_vault_envelopes. rewrite (M_bind_run _ _ _ _ _ (require_unlocked_run _ _ w Hdek)).
  rewrite (M_bind_run _ _ _ _ _ (session_dek_run _ _ w Hdek)). rewrite Hv. rewrite (M_bind_run _ _ _ vault w eq_refl).
  unfold verify_snapshot_envelopes. destruct (derive_domain_tag_key dek) as [k|e]; [|done].
  rewrite (M_bind_run _ _ _ k w eq_refl), (M_bind_run _ _ _ _ _ (verify_snapshot_ok _ _ Hs)). done.
Qed.

(** C27. The current format is a certificate.  Activation raises the format of
    the vault only when every stored field of every row opens under the identity
    of its row and every relation holds; it then sets the format and the marker
    together, and every entry that exists is still shown by the ordinary read.
    When all of that holds and the transaction commits, it does raise it.  It
    touches nothing else: a blocked attempt leaves the format and changes at most
    the note that it was blocked, and a second attempt finds it done. *)
Theorem activation_certifies s verified_at commit cols w r cols' w' :
  session_dek s = Ok dek -> vault_uuid_str s = Ok vault -> vault_ok dek w -> is_v2_format_activated cols = false ->
  activate_v2_format s verified_at commit cols w = (r, (cols', w')) ->
  (vault_v2 cols (w_db w) -> commit = true -> r = Ok (Activated verified_at)) /\
  (forall t, r = Ok (Activated t) ->
     vault_v2 cols (w_db w) /\ cols' = {| fc_version := fc_version cols; fc_format_version := Some CURRENT_VAULT_FORMAT_VERSION |} /\
     w_db w' = set_registry_value V2_ACTIVATED_KEY t (w_db w) /\
     (forall now id, exists_entry id (w_db w) = true -> is_ok (get_entry s now id w').1 = true) /\
     forall at' commit', activate_v2_format s at' commit' cols' w' = (Ok AlreadyActivated, (cols', w'))) /\
  ((forall t, r <> Ok (Activated t)) -> cols' = cols /\
     (w_db w' = w_db w \/ exists v, w_db w' = set_registry_value V2_ACTIVATION_BLOCKED_KEY v (w_db w))) /\
  vault_ok dek w'.
Proof.
  intros Hdek Hv [Hs Hk] Hna E. pose proof (session_unlocked _ _ Hdek) as Hun.
  unfold activate_v2_format in E. rewrite Hun, Hna, (verify_vault_run s cols w Hdek Hv Hs) in E. cbn [negb] in E.
  pose proof (verify_clean_iff cols (w_db w)) as Hiff.
  destruct (verify_snapshot_envelopes dek vault cols (w_db w)) as [rep|e].
  2:{ injection E as <- <- <-. split; [by intros (rep & [=] & _)%Hiff|]. split; [done|]. by split; [auto|]. }
  destruct (is_clean rep) eqn:Hc; cbn [negb] in E.
  - assert (vault_v2 cols (w_db w)) as Hall by (apply Hiff; eauto).
    assert ((stored_format_version cols <? CURRENT_VAULT_FORMAT_VERSION) = true) as Hlt.
    { unfold is_v2_format_activated in Hna. apply Z.leb_gt in Hna. by apply Z.ltb_lt. }
    destruct commit; cbn [negb] in E.
    + rewrite Hlt in E. injection E as <- <- <-. cbn [w_db].
      assert (in_step dek {| w with w_db := set_registry_value V2_ACTIVATED_KEY verified_at (w_db w) |}) as Hs' by (by apply in_step_registry).
      split; [done|]. split; [|split; [intros Hno; by destruct (Hno verified_at)|by split]].
      intros t [= <-]. split_and!; try done.
      * intros now id Hex. erewrite get_entry_shows by done. unfold shown. cbn [fst].
        unfold exists_entry in Hex. apply bool_decide_eq_true_1 in Hex as [row Er].
        change (get_raw id (w_db w) = Some row) in Er.
        change (get_raw id (w_db {| w with w_db := set_registry_value V2_ACTIVATED_KEY verified_at (w_db w) |})) with (get_raw id (w_db w)).
        rewrite Er. apply get_raw_inv in Er as (Hin & _ & _). destruct Hall as (He & _). rewrite Forall_forall in He.
        apply entry_v2_opens; [done| |by apply He]. unfold vault_uuid_str in Hv. by apply ok_or_ok in Hv.
      * intros at' commit'. unfold activate_v2_format. by rewrite Hun.
    + injection E as <- <- <-. split; [done|]. split; [done|]. by split; [auto|].
  - assert (vault_v2 cols (w_db w) -> False) as Hno by (intros (rep' & [= <-] & Hc')%Hiff; congruence).
    match type of E with (_, (_, if ?b then _ else _)) = _ => destruct b end; injection E as <- <- <-; (split; [by intros ?%Hno|]); (split; [done|]); (split; [by eauto|]).
    + split; [by apply in_step_registry|done].
    + done.
Qed.
End Facts.

(** ** Witness *)

Module Demo.
Import CoreDemo KeyDemo EntriesDemo Totp.Demo DomainTags.Demo Custody.Demo.

Definition old_format : FormatCols := {| fc_version := 14; fc_format_version := Some 1 |}.
(** The vault of [EntriesDemo] with its one entry. *)
Definition one_entry : World := Eval vm_compute in world1.
Abbreviation activated := (activate_v2_format demo_session "2026-01-01T00:00:00Z" true old_format one_entry).

Definition in_step_b (w : World) : bool :=
  match key demo_dek, vault_id (w_db w), snapshot (w_db w) with
  | Ok k, Ok v, Ok current => match load (w_contents w) k v with Ok (Some st) => bool_decide (stable st = current) | _ => false end
  | _, _, _ => false
  end.
Lemma in_step_b_ok w : in_step_b w = true -> in_step demo_dek w.
Proof.
  unfold in_step_b. destruct (key demo_dek) as [k|] eqn:Ek; [|done]. destruct (vault_id (w_db w)) as [v|] eqn:Ev; [|done].
  destruct (snapshot (w_db w)) as [c|] eqn:Ec; [|done]. destruct (load (w_contents w) k v) as [[st|]|] eqn:El; [|done..].
  intros Hb _. exists k, v, c, (Some st). split_and!; [done..|]. left. by apply bool_decide_eq_true_1 in Hb.
Qed.
Lemma one_entry_ok : vault_ok demo_dek one_entry.
Proof.
  split; [|split_and!; vm_compute; repeat constructor; rewrite ?elem_of_nil; tauto].
  apply in_step_b_ok. vm_compute. reflexivity.
Qed.

Lemma activation_certifies_witness :
  activated.1 = Ok (Activated "2026-01-01T00:00:00Z") /\ fc_format_version activated.2.1 = Some 3 /\
  is_ok (get_entry demo_session 200 1 activated.2.2).1 = true.
Proof.
  assert (activated.1 = Ok (Activated "2026-01-01T00:00:00Z")) as E by (vm_compute; reflexivity). split; [exact E|].
  destruct activated as [r [cols' w']] eqn:Ea. cbn [fst snd] in *.
  destruct (activation_certifies demo_dek "7" demo_session "2026-01-01T00:00:00Z" true old_format one_entry r cols' w'
    eq_refl eq_refl one_entry_ok eq_refl Ea) as (_ & Hact & _).
  destruct (Hact _ E) as (_ & -> & _ & Hread & _). split; [reflexivity|]. apply Hread. vm_compute. reflexivity.
Defined.

(** A legacy row whose address is the empty blob, the old marker of absence that
    readers and the sweep skip: the pass reports it as corrupt, where the row with
    NULL counts as not yet converted. *)
#[local] Instance flat_encrypted : Flat EncryptedEntry := flat_via (fun e => (ee_nonce e, ee_ciphertext e, ee_auth_tag e))
  (fun '(n, c, t) => {| ee_nonce := n; ee_ciphertext := c; ee_auth_tag := t |}) (fun e => match e with Build_EncryptedEntry _ _ _ => eq_refl end).
#[local] Instance legacy_reader : Bincode EncryptedEntry | 0 := from_slice.
#[local] Instance legacy_writer : BincodeSer EncryptedEntry | 0 := to_vec.
Definition legacy_blob (text : string) : bytes :=
  match encrypt_string demo_gcm_nonce demo_dek text with Ok e => bincode_serialize e | Err _ => [] end.
Definition marked_row : EntryRow := {|
  entry_id := 1; e_title := legacy_blob "t"; e_username := legacy_blob "u"; e_password := legacy_blob "p"; e_url := Some [];
  e_notes := None; e_credential_type := "password"; entry_nonce := []; e_auth_tag := []; e_created_at := 0; e_modified_at := 0;
  e_favorite := false; e_sync := new_sync None |}.
Example empty_column_refused :
  vf_column <$> rr_failures (verify_entry_row demo_dek "7" marked_row) = ["url"%string] /\
  rr_failures (verify_entry_row demo_dek "7" {| marked_row with e_url := None |}) = [].
Proof. split; vm_compute; reflexivity. Qed.
End Demo.
