(* ===== verification/Sweep.v ===== *)
(** * Core: the sweep that binds every stored field to its row
    ([vault/migration_ops.rs])

    One transaction converts what is left of the old formats: the columns of
    entries, the secrets of SSH keys and TOTP rows, and their metadata columns.
    A row is read whole, sealed and opened again before it is written; a row that
    cannot be read or sealed stays as it is.  The loop body of a table returns
    the verdict the report counts.  Warnings and the audit entry are not
    modelled. *)

From S2P Require Import Prelude Text ThirdParty Aad Envelope Keyring CoreError EnvelopeOps KeySlots VaultKeys LocalDb ContentGuard ContentFacts Entries EntriesFacts CoreDemo KeyDemo EntriesDemo.
From S2P Require Import Totp DomainTags DomainOps SyncModels SyncOutbox Custody Activation.
From Stdlib Require Import ZArith Lia Strings.String Strings.Byte.
From stdpp Require Import base list option strings numbers gmap.
From S2P Require Import Text.
Open Scope Z_scope.

(** [V2BlobSweepReport]. *)
Record V2BlobSweepReport := {
  sw_scanned : Z;
  sw_converted : Z;
  sw_skipped_unreadable : Z;
  sw_failed : Z;
}.
Definition no_report : V2BlobSweepReport := {| sw_scanned := 0; sw_converted := 0; sw_skipped_unreadable := 0; sw_failed := 0 |}.

(** What the pass did with a row, and how the report counts it. *)
Inductive Verdict := Kept | Converted | SkippedUnreadable | SealFailed.
Definition tally (rep : V2BlobSweepReport) (v : Verdict) : V2BlobSweepReport :=
  let scanned := {| rep with sw_scanned := sw_scanned rep + 1 |} in
  match v with
  | Kept => scanned
  | Converted => {| scanned with sw_converted := sw_converted rep + 1 |}
  | SkippedUnreadable => {| scanned with sw_skipped_unreadable := sw_skipped_unreadable rep + 1 |}
  | SealFailed => {| scanned with sw_failed := sw_failed rep + 1 |}
  end.
Fixpoint sweep_rows {R} (step : R -> M Verdict) (rows : list R) (rep : V2BlobSweepReport) : M V2BlobSweepReport :=
  match rows with
  | [] => mret rep
  | r :: rows => v ← step r; sweep_rows step rows (tally rep v)
  end.

(** [OpenedEntryFields]. *)
Record OpenedEntryFields := {
  of_title : string;
  of_username : string;
  of_password : string;
  of_url : option string;
  of_notes : option string;
}.

Section Sweep.
Context `{Environment, Chrono, Hmac, Sha256, HexDecode, UuidText, Base64, Base32, Aead}.
Context `{SerdeBytes AadContext, SerdeBytes EnvelopeDoc, SerdeBytes EntryTuple, SerdeBytes MappingTuple, SerdeBytes TagTuple}.
Context `{SerdeBytes CustodyTuple, SerdeBytes State, SerdeBytes Document}.
Context `{Bincode EncryptedEntry, BincodeSer EncryptedEntry, BincodeSer bytes}.

(** [seal_and_verify_field]. *)
Definition seal_mismatch : PasswordManagerError := InvalidInput "v2 blob sweep: seal-verify mismatch".
Definition seal_and_verify_field (dek : bytes) (vault_uuid object_id : string) (object_type : ObjectType) (purpose : EnvelopePurpose)
    (epoch : Z) (plaintext : string) : M bytes :=
  sealed ← seal_field dek vault_uuid object_id object_type purpose plaintext epoch;
  reopened ← lift (open_object_field dek (Some vault_uuid) (Some object_id) object_type purpose sealed);
  _ ← fail_if (negb (bool_decide (as_bytes reopened = as_bytes plaintext))) seal_mismatch;
  mret sealed.

(** ** Entries *)

(** A legacy empty blob in an optional column stands for absence. *)
Definition nonempty (b : option bytes) : option bytes := b ≫= fun b => if bool_decide (b = []) then None else Some b.
Definition open_some (open : bytes -> Res string) (b : option bytes) : Res (option string) :=
  match b with Some b => t ← open b; Ok (Some t) | None => Ok None end.

(** [decrypt_entry_fields] of the scanned columns. *)
Definition decrypt_entry_fields (dek : bytes) (identity : EntryFieldIdentity) (r : EntryRow) : Res OpenedEntryFields :=
  let open p b := open_entry_field_for_migration dek identity p b in
  title ← open EntryTitle (e_title r);
  username ← open EntryUsername (e_username r);
  password ← open EntryPassword (e_password r);
  url ← open_some (open EntryUrl) (nonempty (e_url r));
  notes ← open_some (open EntryNotes) (nonempty (e_notes r));
  Ok {| of_title := title; of_username := username; of_password := password; of_url := url; of_notes := notes |}.

(** [seal_and_verify_entry_fields]. *)
Definition seal_and_verify_entry_fields (dek : bytes) (vault_uuid sync_id : string) (cred : CredentialType) (epoch : Z)
    (opened : OpenedEntryFields) : M SealedEntryFields :=
  let seal p := seal_and_verify_field dek vault_uuid sync_id (envelope_object_type cred) p epoch in
  title ← seal EntryTitle (of_title opened);
  username ← seal EntryUsername (of_username opened);
  password ← seal EntryPassword (of_password opened);
  url ← seal_opt (seal EntryUrl) (of_url opened);
  notes ← seal_opt (seal EntryNotes) (of_notes opened);
  mret {| sf_title := title; sf_username := username; sf_password := password; sf_url := url; sf_notes := notes |}.

Definition already_v2 (r : EntryRow) : bool :=
  has_field_binding (e_title r) EntryTitle && has_field_binding (e_username r) EntryUsername
  && has_field_binding (e_password r) EntryPassword
  && match e_url r with Some b => has_field_binding b EntryUrl | None => true end
  && match e_notes r with Some b => has_field_binding b EntryNotes | None => true end.

(** [UPDATE entries ..]; the unique index on [sync_id] may refuse it. *)
Definition with_sync_id (sid : string) (c : SyncCols) : SyncCols := {| c with sync_id := Some sid |}.
Definition set_swept (sid : string) (f : SealedEntryFields) (r : EntryRow) : EntryRow := {|
  entry_id := entry_id r; e_title := sf_title f; e_username := sf_username f; e_password := sf_password f; e_url := sf_url f;
  e_notes := sf_notes f; e_credential_type := e_credential_type r; entry_nonce := zeroed_legacy_v1_columns.1;
  e_auth_tag := zeroed_legacy_v1_columns.2; e_created_at := e_created_at r; e_modified_at := e_modified_at r;
  e_favorite := e_favorite r; e_sync := with_sync_id sid (e_sync r) |}.
Definition sync_taken {R} (key : R -> Z) (sync : R -> SyncCols) (id : Z) (sid : string) (t : list R) : bool :=
  existsb (fun r => negb (key r =? id) && has_sync_id sid (sync r)) t.
Definition update_swept_entry (id : Z) (sid : string) (f : SealedEntryFields) (db : LocalDb) : Res LocalDb :=
  _ ← err_if (sync_taken entry_id e_sync id sid (entries db)) sqlite_error;
  Ok {| db with entries := update_where (fun r => entry_id r =? id) (set_swept sid f) (entries db) |}.

(** The stored identity, or a fresh one. *)
Definition identity_of (sid : option string) : M string :=
  match sid with Some s => mret s | None => u ← draw_uuid; mret (uuid_to_string u) end.

(** The loop body of [sweep_entry_rows]. *)
Definition sweep_entry_row (dek : bytes) (vault_uuid : string) (epoch : Z) (r : EntryRow) : M Verdict :=
  if already_v2 r then mret Kept
  else match cred_parse (e_credential_type r) with
  | Err _ => mret SkippedUnreadable
  | Ok cred =>
    sid ← identity_of (sync_id (e_sync r));
    match decrypt_entry_fields dek {| id_vault_uuid := vault_uuid; id_sync_id := sid; id_cred := cred |} r with
    | Err _ => mret SkippedUnreadable
    | Ok opened =>
      sealed ← try (seal_and_verify_entry_fields dek vault_uuid sid cred epoch opened);
      match sealed with
      | Err _ => mret SealFailed
      | Ok f => _ ← execute_res (update_swept_entry (entry_id r) sid f); mret Converted
      end
    end
  end.

(** ** SSH keys and TOTP secrets *)

(** The loop body of [sweep_three_part_rows] for a table whose UPDATE is
    [update]. *)
Definition sweep_three_part_row (dek : bytes) (vault_uuid : string) (epoch : Z) (object_type : ObjectType)
    (decrypt : bytes -> bytes -> bytes -> bytes -> Res string) (update : Z -> string -> bytes -> LocalDb -> Res LocalDb)
    (r : ThreePartRow) : M Verdict :=
  if is_envelope_blob (tp_blob r) then mret Kept
  else
    sid ← identity_of (tp_sync_id r);
    match decrypt dek (tp_blob r) (tp_nonce r) (tp_tag r) with
    | Err _ => mret SkippedUnreadable
    | Ok plaintext =>
      sealed ← try (seal_and_verify_field dek vault_uuid sid object_type Secret epoch plaintext);
      match sealed with
      | Err _ => mret SealFailed
      | Ok b => _ ← execute_res (update (tp_id r) sid b); mret Converted
      end
    end.

Definition set_ssh_secret (sid : string) (b : bytes) (r : SshKeyRow) : SshKeyRow :=
  {| r with private_key_encrypted := b; s_nonce := zeroed_legacy_v1_columns.1; s_auth_tag := zeroed_legacy_v1_columns.2;
            s_sync := with_sync_id sid (s_sync r) |}.
Definition update_ssh_secret (id : Z) (sid : string) (b : bytes) (db : LocalDb) : Res LocalDb :=
  _ ← err_if (sync_taken key_id s_sync id sid (ssh_keys db)) sqlite_error;
  Ok {| db with ssh_keys := update_where (fun r => key_id r =? id) (set_ssh_secret sid b) (ssh_keys db) |}.
Definition set_totp_secret (sid : string) (b : bytes) (r : TotpRow) : TotpRow :=
  {| r with secret_encrypted := b; t_nonce := zeroed_legacy_v1_columns.1; t_auth_tag := zeroed_legacy_v1_columns.2;
            t_sync := with_sync_id sid (t_sync r) |}.
Definition update_totp_secret (id : Z) (sid : string) (b : bytes) (db : LocalDb) : Res LocalDb :=
  _ ← err_if (sync_taken totp_id t_sync id sid (totp_secrets db)) sqlite_error;
  Ok {| db with totp_secrets := update_where (fun r => totp_id r =? id) (set_totp_secret sid b) (totp_secrets db) |}.

(** ** Metadata columns *)

(** The purpose a stored value is read with; [None] when it is already bound to
    its column. *)
Definition metadata_plan (dek : bytes) (vault sid : string) (f : MetadataField) : Res (option EnvelopePurpose) :=
  match mf_value f with
  | VBlob b =>
    if starts_with ENVELOPE_MAGIC b then
      _ ← err_if (MAX_ENVELOPE_BYTES <? Z.of_nat (length b)) (InvalidInput "metadata envelope too large");
      doc ← ok_or (from_slice (A := EnvelopeDoc) b) (Database Serialization);
      if bool_decide (Aad.purpose (env_context doc) = mf_purpose f)
         && (negb (is_entry_field (mf_purpose f)) || (schema_version (env_context doc) =? 2)) then
        _ ← open_object_field dek (Some vault) (Some sid) (mf_type f) (mf_purpose f) b;
        Ok None
      else Ok (Some (legacy (mf_purpose f)))
    else Ok (Some (legacy (mf_purpose f)))
  | _ => Ok (Some (legacy (mf_purpose f)))
  end.

(** The closure of [sweep_identity_metadata] for one value, with the UPDATE of
    its column. *)
Definition sweep_metadata_field (dek : bytes) (vault : string) (epoch : Z) (update : Z -> bytes -> LocalDb -> LocalDb)
    (f : MetadataField) : M unit :=
  sid ← lift (ok_or (mf_sync_id f) (InvalidInput "metadata has no stable identity"));
  plan ← lift (metadata_plan dek vault sid f);
  match plan with
  | None => mret tt
  | Some read_purpose =>
    text ← lift (open_metadata_text_field dek (Some vault) (Some sid) (mf_type f) read_purpose (Some (mf_value f)));
    plain ← lift (ok_or text (InvalidInput "missing metadata"));
    sealed ← seal_and_verify_field dek vault sid (mf_type f) (mf_purpose f) epoch plain;
    execute (update (mf_row f) sealed)
  end.
Definition count_failure {A} (rep : V2BlobSweepReport) (r : Res A) : V2BlobSweepReport :=
  match r with Ok _ => rep | Err _ => {| rep with sw_failed := sw_failed rep + 1 |} end.
Fixpoint sweep_fields (step : MetadataField -> M unit) (fs : list MetadataField) (rep : V2BlobSweepReport) : M V2BlobSweepReport :=
  match fs with
  | [] => mret rep
  | f :: fs => r ← try (step f); sweep_fields step fs (count_failure rep r)
  end.

(** The three columns of [IDENTITY_METADATA_FIELDS]: what is selected, and the
    UPDATE. *)
Definition issuers (db : LocalDb) : list MetadataField :=
  flat_map (fun r => field_of "totp_secrets" "issuer" TotpSecret TotpIssuer (totp_id r) (sync_id (t_sync r)) (t_issuer r)) (totp_secrets db).
Definition accounts (db : LocalDb) : list MetadataField :=
  flat_map (fun r => field_of "totp_secrets" "account_name" TotpSecret TotpAccount (totp_id r) (sync_id (t_sync r)) (t_account_name r))
    (totp_secrets db).
Definition comments (db : LocalDb) : list MetadataField :=
  flat_map (fun r => field_of "ssh_keys" "comment" SshKey Summary (key_id r) (sync_id (s_sync r)) (s_comment r)) (ssh_keys db).
Definition set_issuer (b : bytes) (r : TotpRow) : TotpRow := {| r with t_issuer := Some (VBlob b) |}.
Definition set_account (b : bytes) (r : TotpRow) : TotpRow := {| r with t_account_name := Some (VBlob b) |}.
Definition set_comment (b : bytes) (r : SshKeyRow) : SshKeyRow := {| r with s_comment := Some (VBlob b) |}.
Definition update_issuer (id : Z) (b : bytes) (db : LocalDb) : LocalDb :=
  {| db with totp_secrets := update_where (fun r => totp_id r =? id) (set_issuer b) (totp_secrets db) |}.
Definition update_account (id : Z) (b : bytes) (db : LocalDb) : LocalDb :=
  {| db with totp_secrets := update_where (fun r => totp_id r =? id) (set_account b) (totp_secrets db) |}.
Definition update_comment (id : Z) (b : bytes) (db : LocalDb) : LocalDb :=
  {| db with ssh_keys := update_where (fun r => key_id r =? id) (set_comment b) (ssh_keys db) |}.
Definition sweep_identity_metadata (dek : bytes) (vault : string) (epoch : Z) (rep : V2BlobSweepReport) : M V2BlobSweepReport :=
  fs ← query issuers;
  rep ← sweep_fields (sweep_metadata_field dek vault epoch update_issuer) fs rep;
  fs ← query accounts;
  rep ← sweep_fields (sweep_metadata_field dek vault epoch update_account) fs rep;
  fs ← query comments;
  sweep_fields (sweep_metadata_field dek vault epoch update_comment) fs rep.

(** ** The pass *)

Definition residual_note (rep : V2BlobSweepReport) : string :=
  "residual: " +:+ i64_display (sw_skipped_unreadable rep) +:+ " unreadable + " +:+ i64_display (sw_failed rep)
  +:+ " failed rows left as-is (deterministic                      failures; clear this key to retry)".
(** The completion flag, when the pass sets one. *)
Definition completion (rep : V2BlobSweepReport) (now : string) : option string :=
  if (sw_converted rep =? 0) && ((0 <? sw_skipped_unreadable rep) || (0 <? sw_failed rep)) then Some (residual_note rep)
  else if (sw_converted rep =? 0) && (sw_skipped_unreadable rep =? 0) && (sw_failed rep =? 0) then Some now
  else None.
Definition set_sweep_complete_flag (note : string) (db : LocalDb) : LocalDb := set_registry_value SWEEP_COMPLETE_KEY note db.

(** The three tables, then the whole transaction. *)
Definition sweep_tables (dek : bytes) (vault_uuid : string) (epoch : Z) : M V2BlobSweepReport :=
  rows ← query entries;
  rep ← sweep_rows (sweep_entry_row dek vault_uuid epoch) rows no_report;
  rows ← query ssh_keys;
  rep ← sweep_rows (fun r => sweep_three_part_row dek vault_uuid epoch SshKey decrypt_private_key update_ssh_secret (ssh_part r)) rows rep;
  rows ← query totp_secrets;
  sweep_rows (fun r => sweep_three_part_row dek vault_uuid epoch TotpSecret decrypt_totp_secret update_totp_secret (totp_part r)) rows rep.
Definition sweep_body (dek : bytes) (vault_uuid : string) (epoch : Z) (now : string) : M V2BlobSweepReport :=
  rep ← sweep_tables dek vault_uuid epoch;
  rep ← sweep_identity_metadata dek vault_uuid epoch rep;
  _ ← match completion rep now with Some note => execute (set_sweep_complete_flag note) | None => mret tt end;
  mret rep.

(** [v2_blob_sweep_needed], [sweep_v1_blobs_to_v2]; [now] is the clock in
    RFC 3339. *)
Definition v2_blob_sweep_needed (db : LocalDb) : bool := negb (v2_blob_sweep_complete db).
Definition sweep_v1_blobs_to_v2 (s : Session) (now : string) : M V2BlobSweepReport :=
  _ ← require_unlocked s;
  dek ← lift (session_dek s);
  '(vault_uuid, epoch) ← read_local_identity;
  content_tx dek (sweep_body dek vault_uuid epoch now).
End Sweep.

(** ** Loops over a table *)

(** A part of the database that a statement replaces. *)
Record Table (R : Type) := {
  rows_of : LocalDb -> list R;
  with_rows : list R -> LocalDb -> LocalDb;
  row_key : R -> Z;
}.
Arguments rows_of {R}. Arguments with_rows {R}. Arguments row_key {R}.
Class TableLaws {R} (t : Table R) : Prop := {
  rows_of_with l db : rows_of t (with_rows t l db) = l;
  with_rows_of db : with_rows t (rows_of t db) db = db;
  with_rows_twice l l' db : with_rows t l (with_rows t l' db) = with_rows t l db;
}.
Definition entries_table : Table EntryRow := {|
  rows_of := entries; with_rows := fun l db => {| db with entries := l |}; row_key := entry_id |}.
Definition ssh_table : Table SshKeyRow := {|
  rows_of := ssh_keys; with_rows := fun l db => {| db with ssh_keys := l |}; row_key := key_id |}.
Definition totp_table : Table TotpRow := {|
  rows_of := totp_secrets; with_rows := fun l db => {| db with totp_secrets := l |}; row_key := totp_id |}.
#[export] Instance entries_table_laws : TableLaws entries_table.
Proof. split; try done. by intros []. Qed.
#[export] Instance ssh_table_laws : TableLaws ssh_table.
Proof. split; try done. by intros []. Qed.
#[export] Instance totp_table_laws : TableLaws totp_table.
Proof. split; try done. by intros []. Qed.

(** An update by key changes the one row that has it. *)
Lemma update_where_key {R} (key : R -> Z) f pre r post :
  NoDup (List.map key (pre ++ r :: post)) ->
  update_where (fun x => key x =? key r) f (pre ++ r :: post) = pre ++ f r :: post.
Proof.
  rewrite map_app. simpl. intros Hn. apply NoDup_app in Hn as (_ & Hd & [Hp _]%NoDup_cons). unfold update_where.
  rewrite map_app. simpl. rewrite Z.eqb_refl.
  assert (forall l, (forall x, x ∈ l -> key x <> key r) -> List.map (fun x => if key x =? key r then f x else x) l = l) as E.
  { intros l Hl. rewrite <- (map_id l) at 2. apply map_ext_in. intros x Hx. rewrite (proj2 (Z.eqb_neq _ _)); [done|].
    apply Hl. by apply list_elem_of_In. }
  rewrite !E; [done| |].
  - intros x Hx Ek. apply Hp. rewrite <- Ek. apply list_elem_of_In, in_map. by apply list_elem_of_In.
  - intros x Hx Ek. apply (Hd (key x)); [apply list_elem_of_In, in_map; by apply list_elem_of_In|]. rewrite Ek. left.
Qed.

Section Loop.
Context {R : Type} (t : Table R) `{!TableLaws t}.

(** What one step may do to its row, by verdict. *)
Definition row_step (step : R -> M Verdict) (rel : Verdict -> R -> R -> Prop) : Prop :=
  forall r w v w' pre post, step r w = (Ok v, w') -> rows_of t (w_db w) = pre ++ r :: post ->
    NoDup (List.map (row_key t) (pre ++ r :: post)) ->
    exists r', rel v r r' /\ row_key t r' = row_key t r /\ w_db w' = with_rows t (pre ++ r' :: post) (w_db w).

Lemma sweep_rows_ok step rel rows pre rep w rep' w' :
  row_step step rel -> sweep_rows step rows rep w = (Ok rep', w') -> rows_of t (w_db w) = pre ++ rows ->
  NoDup (List.map (row_key t) (pre ++ rows)) ->
  exists vs rows', Forall3 rel vs rows rows' /\ List.map (row_key t) rows' = List.map (row_key t) rows /\
    w_db w' = with_rows t (pre ++ rows') (w_db w) /\ rep' = fold_left tally vs rep.
Proof.
  intros Hstep. revert pre rep w. induction rows as [|r rows IH]; intros pre rep w E Hg Hn; simpl in E.
  - injection E as <- <-. exists [], []. split_and!; try done; [constructor|]. by rewrite <- Hg, with_rows_of.
  - apply M_bind_ok in E as (v & w1 & E1 & E). destruct (Hstep _ _ _ _ _ _ E1 Hg Hn) as (r' & Hrel & Hk & Hw).
    assert (pre ++ r' :: rows = (pre ++ [r']) ++ rows) as Ea by (by rewrite <- app_assoc).
    destruct (IH (pre ++ [r']) _ _ E) as (vs & rows' & Hf & Hk' & Hw' & Hr).
    { by rewrite Hw, rows_of_with. }
    { rewrite <- Ea, map_app. simpl. rewrite Hk. by rewrite map_app in Hn. }
    exists (v :: vs), (r' :: rows'). split_and!; [by constructor|simpl; congruence| |done].
    by rewrite Hw', Hw, with_rows_twice, <- app_assoc.
Qed.
End Loop.

(** ** The report *)

Definition counts_ok (rep : V2BlobSweepReport) : Prop :=
  0 <= sw_converted rep /\ 0 <= sw_skipped_unreadable rep /\ 0 <= sw_failed rep.
Lemma fold_tally vs rep :
  counts_ok rep -> counts_ok (fold_left tally vs rep) /\
  (sw_converted (fold_left tally vs rep) = 0 <-> sw_converted rep = 0 /\ Converted ∉ vs) /\
  (sw_skipped_unreadable (fold_left tally vs rep) = 0 <-> sw_skipped_unreadable rep = 0 /\ SkippedUnreadable ∉ vs) /\
  (sw_failed (fold_left tally vs rep) = 0 <-> sw_failed rep = 0 /\ SealFailed ∉ vs).
Proof.
  revert rep. induction vs as [|v vs IH]; intros rep Hc; simpl.
  - split; [done|]. rewrite !elem_of_nil. tauto.
  - destruct (IH (tally rep v)) as (H1 & H2 & H3 & H4).
    { destruct Hc as (?&?&?). destruct v; unfold counts_ok; simpl; lia. }
    assert (forall x, x ∉ v :: vs <-> x <> v /\ x ∉ vs) as Hn by (intros x; rewrite not_elem_of_cons; tauto).
    split; [done|]. rewrite H2, H3, H4, !Hn. destruct Hc as (?&?&?).
    destruct v; simpl; split_and!; (split; [intros [? ?]; first [exfalso; lia|split; [lia|by split]]|intros (? & Hne & ?); first [by destruct Hne|split; [lia|done]]]).
Qed.

(** Walking verdicts and rows together. *)
Lemma Forall3_pairs {V A} (P : V -> A -> A -> Prop) (X : A -> A -> Prop) vs l l' :
  Forall3 P vs l l' -> (forall v r r', v ∈ vs -> P v r r' -> X r r') -> Forall2 X l l'.
Proof.
  induction 1 as [|v r r' vs l l' Hp _ IH]; intros Hx; constructor; [eapply Hx; [left|done]|]. apply IH. intros v' a a' Hv. apply Hx. by right.
Qed.
Lemma Forall3_chain {V O A} (P : V -> A -> A -> Prop) (Q : O -> A -> A -> Prop) (X : A -> A -> Prop) vs os l l1 l' :
  Forall3 P vs l l1 -> Forall3 Q os l1 l' -> (forall v o r r1 r', v ∈ vs -> o ∈ os -> P v r r1 -> Q o r1 r' -> X r r') -> Forall2 X l l'.
Proof.
  intros Hp. revert os l'. induction Hp as [|v r r1 vs l l1 Hp _ IH]; intros os l' Hq Hx; inversion Hq; subst; constructor.
  - eapply Hx; [left|left|done..].
  - eapply IH; [done|]. intros v' o' a a1 a' Iv Io. apply Hx; by right.
Qed.
Lemma Forall3_chain3 {V O O' A} (P : V -> A -> A -> Prop) (Q : O -> A -> A -> Prop) (S : O' -> A -> A -> Prop) (X : A -> A -> Prop)
    vs os os' l l1 l2 l' :
  Forall3 P vs l l1 -> Forall3 Q os l1 l2 -> Forall3 S os' l2 l' ->
  (forall v o o' r r1 r2 r', v ∈ vs -> o ∈ os -> o' ∈ os' -> P v r r1 -> Q o r1 r2 -> S o' r2 r' -> X r r') -> Forall2 X l l'.
Proof.
  intros Hp. revert os os' l2 l'. induction Hp as [|v r r1 vs l l1 Hp _ IH]; intros os os' l2 l' Hq Hs Hx;
    inversion Hq; subst; inversion Hs; subst; constructor.
  - eapply Hx; [left|left|left|done..].
  - eapply IH; [done..|]. intros v' o1 o2 a a1 a2 a' Iv Io Io'. apply Hx; by right.
Qed.
Lemma Forall2_Forall_r {A B} (X : A -> B -> Prop) (P : B -> Prop) l l' : Forall2 X l l' -> (forall a b, X a b -> P b) -> Forall P l'.
Proof. induction 1; intros Hx; constructor; eauto. Qed.
Lemma Forall2_use {A B} (P : A -> Prop) (X : A -> B -> Prop) (Q : B -> Prop) l l' :
  Forall P l -> Forall2 X l l' -> (forall a b, P a -> X a b -> Q b) -> Forall Q l'.
Proof. intros Hp H2. induction H2; inversion Hp; subst; intros Hx; constructor; eauto. Qed.

(** ** One row *)

Section Facts.
Context `{Environment, Chrono, Hmac, Sha256, HexDecode, UuidText, Base64, Base32, Aead, UrlParse}.
Context `{SerdeBytes AadContext, SerdeBytes EnvelopeDoc, SerdeBytes EntryTuple, SerdeBytes MappingTuple, SerdeBytes TagTuple}.
Context `{SerdeBytes CustodyTuple, SerdeBytes State, SerdeBytes Document}.
Context `{SerdeBytes CustodyScope, SerdeBytes ObjectRef, SerdeBytes (CustodyScope * ObjectRef)}.
Context `{Bincode EncryptedEntry, BincodeSer EncryptedEntry, BincodeSer bytes}.
Context `{!EnvironmentLaws, !UuidTextLaws, !Base64Laws, !AeadLaws, !SerdeBytesLaws AadContext, !SerdeBytesLaws EnvelopeDoc, !EnvelopeJson}.
Variables (dek : bytes) (vault : string) (epoch : Z).

(** The document of an envelope that opened under an identity. *)
Lemma opened_doc v o t p b text :
  starts_with ENVELOPE_MAGIC b = true -> open_object_field dek (Some v) (Some o) t p b = Ok text ->
  Z.of_nat (length b) <= MAX_ENVELOPE_BYTES /\ exists doc, from_slice (A := EnvelopeDoc) b = Some doc /\
    Aad.purpose (env_context doc) = p /\ schema_version (env_context doc) = if is_entry_field p then 2 else ENTRY_ENVELOPE_SCHEMA.
Proof.
  unfold open_object_field. intros -> E.
  apply result_bind_ok in E as (c & Hc & E). apply identity_context_ok in Hc as (vu & ou & _ & _ & ->).
  apply result_bind_ok in E as (pt & Eo & _). apply map_err_ok in Eo. unfold open_envelope_relaxed_epoch, open_envelope_impl in Eo.
  result_inv. propify. split; [done|]. eexists. split; [eassumption|].
  match goal with X : env_context _ = _ |- _ => rewrite X end. done.
Qed.

Lemma opened_is_bound v o t p b text :
  is_entry_field p = true -> open_object_field dek (Some v) (Some o) t p b = Ok text ->
  is_envelope_blob b = true /\ has_field_binding b p = true.
Proof.
  intros Hp E. assert (starts_with ENVELOPE_MAGIC b = true) as Hm.
  { revert E. unfold open_object_field. rewrite Hp. by destruct (starts_with ENVELOPE_MAGIC b). }
  destruct (opened_doc _ _ _ _ _ _ Hm E) as (Hl & doc & Hd & Hpd & Hs). split; [done|].
  unfold has_field_binding. rewrite Hd, Hpd, Hs, Hp, bool_decide_true by done. by rewrite (proj2 (Z.leb_le _ _)).
Qed.

(** A sealed field was opened again before it is used. *)
Lemma seal_and_verify_run o t p text w r w' :
  seal_and_verify_field dek vault o t p epoch text w = (r, w') ->
  quiet w w' /\ forall b, r = Ok b -> is_envelope_blob b = true /\ open_object_field dek (Some vault) (Some o) t p b = Ok text.
Proof.
  unfold seal_and_verify_field, seal_field, mbind, M_bind, draw_nonce, lift, fail_if, err_if.
  destruct (seal_object_field _ _ _ _ _ _ _ _) as [b|e] eqn:Es; [|by intros [= <- <-]].
  destruct (open_object_field _ _ _ _ _ b) as [x|e] eqn:Eo; [|by intros [= <- <-]].
  case_bool_decide as Hx; simpl; intros [= <- <-]; [|done]. split; [done|]. intros b' [= <-].
  apply seal_field_inv in Es as (vu & ou & _ & _ & Es). apply sealed_is_envelope in Es. split; [done|].
  rewrite Eo. f_equal. by apply as_bytes_inj.
Qed.

Lemma seal_opt_verify_run o t p text w r w' :
  seal_opt (seal_and_verify_field dek vault o t p epoch) text w = (r, w') ->
  quiet w w' /\ forall b, r = Ok b -> (forall x, b = Some x -> is_envelope_blob x = true) /\
    open_some (open_object_field dek (Some vault) (Some o) t p) b = Ok text.
Proof.
  unfold seal_opt. destruct text as [x|]; [|by intros [= <- <-]; split; [done|]; intros b [= <-]].
  unfold mbind, M_bind. destruct (seal_and_verify_field _ _ _ _ _ _ _ _) as [[b|e] w1] eqn:E; apply seal_and_verify_run in E as [Hq Hb].
  - intros [= <- <-]. split; [done|]. intros b' [= <-]. destruct (Hb b eq_refl) as [He Ho]. split; [by intros y [= <-]|]. simpl. by rewrite Ho.
  - by intros [= <- <-].
Qed.

Lemma seal_entry_run sid cred opened w r w' :
  seal_and_verify_entry_fields dek vault sid cred epoch opened w = (r, w') ->
  quiet w w' /\ forall f, r = Ok f ->
    let reads p text b := is_envelope_blob b = true /\ open_object_field dek (Some vault) (Some sid) (envelope_object_type cred) p b = Ok text in
    let reads_opt p text b := (forall x, b = Some x -> is_envelope_blob x = true) /\
      open_some (open_object_field dek (Some vault) (Some sid) (envelope_object_type cred) p) b = Ok text in
    reads EntryTitle (of_title opened) (sf_title f) /\ reads EntryUsername (of_username opened) (sf_username f) /\
    reads EntryPassword (of_password opened) (sf_password f) /\ reads_opt EntryUrl (of_url opened) (sf_url f) /\
    reads_opt EntryNotes (of_notes opened) (sf_notes f).
Proof.
  unfold seal_and_verify_entry_fields. cbv zeta. unfold mbind, M_bind.
  do 3 (match goal with |- context [seal_and_verify_field ?d ?v ?o ?t ?p ?e ?x ?w] =>
    destruct (seal_and_verify_field d v o t p e x w) as [[?|?] ?] eqn:?E; apply seal_and_verify_run in E as [? ?] end;
    [|by intros [= <- <-]; (split; [by repeat (etrans; [eassumption|])|])]).
  do 2 (match goal with |- context [seal_opt ?f ?x ?w] =>
    destruct (seal_opt f x w) as [[?|?] ?] eqn:?E; apply seal_opt_verify_run in E as [? ?] end;
    [|by intros [= <- <-]; (split; [by repeat (etrans; [eassumption|])|])]).
  intros [= <- <-]. split; [by repeat (etrans; [eassumption|])|]. intros f [= <-]. simpl. eauto 10.
Qed.

(** The entry a converted row reads as. *)
Definition entry_of (now : Z) (r : EntryRow) (cred : CredentialType) (o : OpenedEntryFields) : Entry := {|
  en_entry_id := Some (entry_id r); en_title := of_title o; en_username := of_username o; en_password := of_password o;
  en_url := of_url o; en_notes := of_notes o; en_credential_type := cred; en_created_at := datetime now (e_created_at r);
  en_modified_at := datetime now (e_modified_at r); en_favorite := e_favorite r |}.

(** The identity a row is read and sealed under: its own, or a fresh one. *)
Definition own_identity (stored : option string) (sid : string) : Prop := forall x, stored = Some x -> sid = x.
Definition reads_legacy (r : EntryRow) (cred : CredentialType) (sid : string) : Res OpenedEntryFields :=
  decrypt_entry_fields dek {| id_vault_uuid := vault; id_sync_id := sid; id_cred := cred |} r.

(** What the pass does to an entry: a converted one has the current format and
    the ordinary read shows the text it was converted from. *)
Definition entry_swept (v : Verdict) (r r' : EntryRow) : Prop :=
  match v with
  | Kept => r' = r /\ already_v2 r = true
  | SkippedUnreadable => r' = r /\ (is_ok (cred_parse (e_credential_type r)) = false \/
      exists cred sid, cred_parse (e_credential_type r) = Ok cred /\ own_identity (sync_id (e_sync r)) sid /\
        is_ok (reads_legacy r cred sid) = false)
  | SealFailed => r' = r
  | Converted => exists cred sid f opened, cred_parse (e_credential_type r) = Ok cred /\ own_identity (sync_id (e_sync r)) sid /\
      reads_legacy r cred sid = Ok opened /\ r' = set_swept sid f r /\ entry_v2 dek vault r' /\
      forall s now, session_dek s = Ok dek -> session_uuid s = Some vault -> open_row s now r' = Ok (entry_of now r cred opened)
  end.

Lemma column_of_swept n p b cred sid text :
  (forall x, b = Some x -> is_envelope_blob x = true) ->
  open_some (open_object_field dek (Some vault) (Some sid) (envelope_object_type cred) p) b = Ok text ->
  Forall (fun c : Column => column_v2 c = true /\
    is_ok (open_object_field dek (Some vault) (Some sid) (envelope_object_type cred) c.1.2 c.2) = true) (column_of n p b).
Proof.
  destruct b as [b|]; simpl; [|by constructor]. intros He Ho. constructor; [|constructor]. split; [by apply He|]. simpl.
  by destruct (open_object_field _ _ _ _ _ _).
Qed.
Lemma open_opt_swept g open b text :
  (forall x, b = Some x -> is_envelope_blob x = true) -> open_some open b = Ok text -> (forall b, g b = open b) -> open_opt g b = Ok text.
Proof. destruct b as [b|]; simpl; [|done]. intros He Ho ->. revert Ho. rewrite bool_decide_false; [done|]. intros ->. by specialize (He [] eq_refl). Qed.

Lemma set_swept_reads r cred sid f opened w w' :
  cred_parse (e_credential_type r) = Ok cred ->
  seal_and_verify_entry_fields dek vault sid cred epoch opened w = (Ok f, w') ->
  entry_v2 dek vault (set_swept sid f r) /\
  forall s now, session_dek s = Ok dek -> session_uuid s = Some vault -> open_row s now (set_swept sid f r) = Ok (entry_of now r cred opened).
Proof.
  intros Ec E. apply seal_entry_run in E as [_ Hf]. specialize (Hf f eq_refl). cbv zeta beta in Hf.
  destruct Hf as ((T1 & T2) & (U1 & U2) & (P1 & P2) & (L1 & L2) & (N1 & N2)). split.
  - exists cred, sid. split; [done|]. split; [done|]. unfold present. simpl. unfold column_v2.
    apply Forall_cons. split; [simpl; by rewrite T1, T2|]. apply Forall_cons. split; [simpl; by rewrite U1, U2|].
    apply Forall_cons. split; [simpl; by rewrite P1, P2|]. apply Forall_app. split; by eapply column_of_swept.
  - intros s now Hd Hu. unfold open_row, open_entry_field. simpl. rewrite Ec. simpl. rewrite Hd, Hu. simpl.
    rewrite T2, U2, P2. simpl.
    by rewrite (open_opt_swept (fun b => _) _ _ _ L1 L2), (open_opt_swept (fun b => _) _ _ _ N1 N2).
Qed.

Lemma identity_of_run stored w r w' :
  identity_of stored w = (r, w') -> quiet w w' /\ exists sid, r = Ok sid /\ own_identity stored sid.
Proof.
  unfold identity_of, mbind, M_bind, draw_uuid, mret, M_ret. destruct stored as [x|]; intros [= <- <-]; (split; [done|]); eexists; (split; [done|]).
  - by intros y [= <-].
  - by intros y [=].
Qed.

Lemma sweep_entry_step : row_step entries_table (sweep_entry_row dek vault epoch) entry_swept.
Proof.
  intros r w v w' pre post E Hg Hn. simpl in Hg, Hn.
  assert (forall w1, w_db w1 = w_db w -> w_db w1 = with_rows entries_table (pre ++ r :: post) (w_db w)) as Hsame.
  { intros w1 ->. rewrite <- Hg. by destruct (w_db w). }
  unfold sweep_entry_row in E. destruct (already_v2 r) eqn:Ea.
  { injection E as <- <-. exists r. split; [by split|]. split; [done|]. by apply Hsame. }
  destruct (cred_parse (e_credential_type r)) as [cred|e] eqn:Ec.
  2:{ injection E as <- <-. exists r. split; [split; [done|]; left; by rewrite Ec|]. split; [done|]. by apply Hsame. }
  unfold mbind at 1, M_bind at 1 in E. destruct (identity_of _ w) as [x w1] eqn:Ei. apply identity_of_run in Ei as [Hq (sid & -> & Hid)].
  destruct (decrypt_entry_fields dek _ r) as [opened|e] eqn:Ed.
  2:{ injection E as <- <-. exists r. split; [split; [done|]; right; exists cred, sid; split_and!; [done..|]; unfold reads_legacy; by rewrite Ed|].
      split; [done|]. apply Hsame, Hq. }
  unfold mbind, M_bind, try in E. destruct (seal_and_verify_entry_fields _ _ _ _ _ _ w1) as [x w2] eqn:Es.
  pose proof (seal_entry_run _ _ _ _ _ _ Es) as [Hq2 _]. assert (w_db w2 = w_db w) as Hdb by (destruct Hq as [<- _], Hq2 as [<- _]; done).
  destruct x as [f|e].
  2:{ injection E as <- <-. exists r. split; [done|]. split; [done|]. by apply Hsame. }
  unfold execute_res, update_swept_entry, err_if in E. destruct (sync_taken _ _ _ _ _); simpl in E; [discriminate|]. injection E as <- <-.
  exists (set_swept sid f r). split.
  - exists cred, sid, f, opened. pose proof (set_swept_reads r cred sid f opened _ _ Ec Es) as [? ?]. split_and!; try done.
  - split; [done|]. simpl. rewrite Hdb, Hg. by rewrite (update_where_key entry_id).
Qed.

(** A secret as the dual readers see it: an envelope under the identity of the
    row, or the three legacy columns. *)
Definition secret_of (t : ObjectType) (decrypt : bytes -> bytes -> bytes -> bytes -> Res string) (p : ThreePartRow) : Res string :=
  if is_envelope_blob (tp_blob p) then open_object_field dek (Some vault) (tp_sync_id p) t Secret (tp_blob p)
  else decrypt dek (tp_blob p) (tp_nonce p) (tp_tag p).

Section ThreePart.
Context {R : Type} (tbl : Table R) `{!TableLaws tbl} (part : R -> ThreePartRow) (set : string -> bytes -> R -> R).
Context (update : Z -> string -> bytes -> LocalDb -> Res LocalDb) (t : ObjectType).
Context (decrypt : bytes -> bytes -> bytes -> bytes -> Res string).
Hypothesis (key_part : forall r, tp_id (part r) = row_key tbl r) (key_set : forall sid b r, row_key tbl (set sid b r) = row_key tbl r).
Hypothesis (part_set : forall sid b r, tp_blob (part (set sid b r)) = b /\ tp_sync_id (part (set sid b r)) = Some sid).
Hypothesis (update_set : forall id sid b db db', update id sid b db = Ok db' ->
  db' = with_rows tbl (update_where (fun r => row_key tbl r =? id) (set sid b) (rows_of tbl db)) db).

Definition part_swept (v : Verdict) (r r' : R) : Prop :=
  match v with
  | Kept => r' = r /\ is_envelope_blob (tp_blob (part r)) = true
  | SkippedUnreadable => r' = r /\ is_ok (secret_of t decrypt (part r)) = false
  | SealFailed => r' = r
  | Converted => exists sid b text, own_identity (tp_sync_id (part r)) sid /\ r' = set sid b r /\
      secret_of t decrypt (part r) = Ok text /\ secret_of t decrypt (part r') = Ok text /\ part_v2 dek vault t (part r')
  end.

Lemma sweep_part_step : row_step tbl (fun r => sweep_three_part_row dek vault epoch t decrypt update (part r)) part_swept.
Proof.
  intros r w v w' pre post E Hg Hn.
  assert (forall w1, w_db w1 = w_db w -> w_db w1 = with_rows tbl (pre ++ r :: post) (w_db w)) as Hsame.
  { intros w1 ->. by rewrite <- Hg, with_rows_of. }
  unfold sweep_three_part_row in E. destruct (is_envelope_blob (tp_blob (part r))) eqn:Ev.
  { injection E as <- <-. exists r. split; [by split|]. split; [done|]. by apply Hsame. }
  unfold mbind at 1, M_bind at 1 in E. destruct (identity_of _ w) as [x w1] eqn:Ei. apply identity_of_run in Ei as [Hq (sid & -> & Hid)].
  assert (secret_of t decrypt (part r) = decrypt dek (tp_blob (part r)) (tp_nonce (part r)) (tp_tag (part r))) as Hs
    by (unfold secret_of; by rewrite Ev).
  destruct (decrypt _ _ _ _) as [text|e].
  2:{ injection E as <- <-. exists r. split; [split; [done|]; by rewrite Hs|]. split; [done|]. apply Hsame, Hq. }
  unfold mbind, M_bind, try in E. destruct (seal_and_verify_field _ _ _ _ _ _ _ w1) as [x w2] eqn:Es.
  apply seal_and_verify_run in Es as [Hq2 Hb]. assert (w_db w2 = w_db w) as Hdb by (destruct Hq as [<- _], Hq2 as [<- _]; done).
  destruct x as [b|e].
  2:{ injection E as <- <-. exists r. split; [done|]. split; [done|]. by apply Hsame. }
  destruct (Hb b eq_refl) as [He Ho]. destruct (part_set sid b r) as [Pb Ps].
  unfold execute_res in E. destruct (update _ _ _ _) as [db'|e] eqn:Eu; [|discriminate]. injection E as <- <-. apply update_set in Eu.
  exists (set sid b r). split; [|split; [done|]].
  - exists sid, b, text. split_and!; try done.
    + unfold secret_of. by rewrite Pb, He, Ps.
    + unfold part_v2. rewrite Pb. split; [done|]. exists sid. rewrite Ps, Ho. done.
  - simpl. rewrite Eu, Hdb, Hg, key_part. by rewrite update_where_key.
Qed.
End ThreePart.

Definition ssh_swept : Verdict -> SshKeyRow -> SshKeyRow -> Prop := part_swept ssh_part set_ssh_secret SshKey decrypt_private_key.
Definition totp_swept : Verdict -> TotpRow -> TotpRow -> Prop := part_swept totp_part set_totp_secret TotpSecret decrypt_totp_secret.
Lemma sweep_ssh_step : row_step ssh_table
  (fun r => sweep_three_part_row dek vault epoch SshKey decrypt_private_key update_ssh_secret (ssh_part r)) ssh_swept.
Proof.
  apply (sweep_part_step ssh_table); try done. intros id sid b db db' E. unfold update_ssh_secret in E. result_inv. by subst.
Qed.
Lemma sweep_totp_step : row_step totp_table
  (fun r => sweep_three_part_row dek vault epoch TotpSecret decrypt_totp_secret update_totp_secret (totp_part r)) totp_swept.
Proof.
  apply (sweep_part_step totp_table); try done. intros id sid b db db' E. unfold update_totp_secret in E. result_inv. by subst.
Qed.

(** ** Metadata *)

(** The value is an envelope bound to its column; a value as it reads, bound or
    not. *)
Definition bound_to (p : EnvelopePurpose) (v : Value) : bool :=
  match v with
  | VBlob b => starts_with ENVELOPE_MAGIC b && match from_slice (A := EnvelopeDoc) b with
      | Some doc => bool_decide (Aad.purpose (env_context doc) = p) && (negb (is_entry_field p) || (schema_version (env_context doc) =? 2))
      | None => false
      end
  | _ => false
  end.
Definition metadata_text (sid : option string) (t : ObjectType) (p : EnvelopePurpose) (v : option Value) : Res (option string) :=
  match v with
  | None => Ok None
  | Some v => open_metadata_text_field dek (Some vault) sid t (if bound_to p v then p else legacy p) (Some v)
  end.

Lemma sealed_bound sid t p b text :
  is_envelope_blob b = true -> open_object_field dek (Some vault) (Some sid) t p b = Ok text ->
  bound_to p (VBlob b) = true /\ open_metadata_text_field dek (Some vault) (Some sid) t p (Some (VBlob b)) = Ok (Some text).
Proof.
  unfold is_envelope_blob. intros He Ho. destruct (opened_doc _ _ _ _ _ _ He Ho) as (_ & doc & Hd & Hp & Hs). split.
  - simpl. rewrite He, Hd, Hs, bool_decide_true by done. simpl. by destruct (is_entry_field p).
  - simpl. by rewrite He, Ho.
Qed.

#[local] Arguments open_metadata_text_field : simpl never.

Section Meta.
Context {R : Type} (tbl : Table R) `{!TableLaws tbl} (table column : string) (t : ObjectType) (p : EnvelopePurpose).
Context (sid_of : R -> option string) (value_of : R -> option Value) (set : bytes -> R -> R).
Context (update : Z -> bytes -> LocalDb -> LocalDb).
Hypothesis (key_set : forall b r, row_key tbl (set b r) = row_key tbl r) (sid_set : forall b r, sid_of (set b r) = sid_of r).
Hypothesis (value_set : forall b r, value_of (set b r) = Some (VBlob b)).
Hypothesis (update_set : forall id b db, update id b db = with_rows tbl (update_where (fun r => row_key tbl r =? id) (set b) (rows_of tbl db)) db).

Definition row_field (r : R) : list MetadataField := field_of table column t p (row_key tbl r) (sid_of r) (value_of r).
Definition row_text (r : R) : Res (option string) := metadata_text (sid_of r) t p (value_of r).

(** A field that was not refused is in the current format, with the text it
    had. *)
Definition field_swept (ok : bool) (r r' : R) : Prop :=
  (ok = true -> Forall (metadata_v2 dek vault) (row_field r')) /\
  (r' = r \/ exists b text, ok = true /\ r' = set b r /\ row_text r = Ok (Some text) /\ row_text r' = Ok (Some text)).

Lemma plan_bound sid f :
  metadata_plan dek vault sid f = Ok None -> mf_sync_id f = Some sid -> metadata_v2 dek vault f.
Proof.
  unfold metadata_plan, metadata_v2. destruct f as [tb co ro si ty pu v]; simpl. intros E ->. destruct v as [| | | |b]; try discriminate.
  simpl. unfold open_metadata_text_field. destruct (starts_with ENVELOPE_MAGIC b); [|discriminate]. result_inv.
  match type of E with (if ?c then _ else _) = _ => destruct c; [|discriminate] end. result_inv. split; [done|].
  by match goal with X : open_object_field _ _ _ _ _ _ = Ok _ |- _ => rewrite X end.
Qed.
Lemma plan_legacy sid f rp :
  metadata_plan dek vault sid f = Ok (Some rp) -> rp = legacy (mf_purpose f) /\ bound_to (mf_purpose f) (mf_value f) = false.
Proof.
  unfold metadata_plan. destruct (mf_value f) as [| | | |b]; try (by intros [= <-]). simpl.
  destruct (starts_with ENVELOPE_MAGIC b); [|by intros [= <-]]. intros E. result_inv.
  match goal with X : from_slice b = Some _ |- _ => rewrite X end.
  match type of E with (if ?c then _ else _) = _ => destruct c eqn:Ec end; [by apply result_bind_ok in E as (y & _ & [=])|].
  injection E as <-. done.
Qed.

Lemma sweep_field_run r f w x w' pre post :
  row_field r = [f] -> sweep_metadata_field dek vault epoch update f w = (x, w') -> rows_of tbl (w_db w) = pre ++ r :: post ->
  NoDup (List.map (row_key tbl) (pre ++ r :: post)) ->
  exists r', field_swept (is_ok x) r r' /\ row_key tbl r' = row_key tbl r /\ w_db w' = with_rows tbl (pre ++ r' :: post) (w_db w).
Proof.
  intros Hf E Hg Hn.
  assert (forall w1, w_db w1 = w_db w -> w_db w1 = with_rows tbl (pre ++ r :: post) (w_db w)) as Hsame.
  { intros w1 ->. by rewrite <- Hg, with_rows_of. }
  assert (exists v, value_of r = Some v /\ f = {| mf_table := table; mf_column := column; mf_row := row_key tbl r; mf_sync_id := sid_of r;
    mf_type := t; mf_purpose := p; mf_value := v |}) as (v & Hv & Ef).
  { unfold row_field, field_of in Hf. destruct (value_of r) as [[| | | |]|]; try discriminate; injection Hf as <-; eauto. }
  assert (forall w1 y, w_db w1 = w_db w -> (y = true -> metadata_v2 dek vault f) -> exists r', field_swept y r r' /\ row_key tbl r' = row_key tbl r /\
    w_db w1 = with_rows tbl (pre ++ r' :: post) (w_db w)) as Hstay.
  { intros w1 y Hw Hok. exists r. split; [|split; [done|by apply Hsame]]. split; [|by left]. intros Hy. rewrite Hf. constructor; auto. }
  unfold sweep_metadata_field, mbind, M_bind, lift in E.
  destruct (mf_sync_id f) as [sid|] eqn:Es; simpl in E; [|injection E as <- <-; by apply Hstay].
  destruct (metadata_plan dek vault sid f) as [[rp|]|e] eqn:Ep; simpl in E.
  3:{ injection E as <- <-. by apply Hstay. }
  2:{ injection E as <- <-. apply Hstay; [done|]. intros _. by eapply plan_bound. }
  apply plan_legacy in Ep as [-> Hb]. destruct (open_metadata_text_field _ _ _ _ _ _) as [[text|]|e] eqn:Eo; simpl in E.
  2-3: injection E as <- <-; by apply Hstay.
  destruct (seal_and_verify_field _ _ _ _ _ _ _ w) as [y w1] eqn:Ey. apply seal_and_verify_run in Ey as [[Hq _] Hy].
  destruct y as [b|e]; [|injection E as <- <-; by apply Hstay]. destruct (Hy b eq_refl) as [He Ho].
  subst f. simpl in *. injection E as <- <-. destruct (sealed_bound _ _ _ _ _ He Ho) as [B1 B2].
  exists (set b r). split; [|split; [done|]].
  - split.
    + intros _. unfold row_field, field_of. rewrite value_set. constructor; [|done]. unfold metadata_v2. simpl mf_value. simpl mf_sync_id.
      rewrite sid_set, Es. split; [done|]. simpl mf_type. simpl mf_purpose. by rewrite B2.
    + right. exists b, text. split_and!; try done; unfold row_text, metadata_text.
      * by rewrite Hv, Hb, Es.
      * by rewrite value_set, B1, sid_set, Es.
  - simpl. rewrite update_set, Hq, Hg. by rewrite update_where_key.
Qed.

Lemma sweep_fields_ok rows pre rep w rep' w' :
  sweep_fields (sweep_metadata_field dek vault epoch update) (flat_map row_field rows) rep w = (Ok rep', w') ->
  rows_of tbl (w_db w) = pre ++ rows -> NoDup (List.map (row_key tbl) (pre ++ rows)) ->
  exists oks rows', Forall3 field_swept oks rows rows' /\ List.map (row_key tbl) rows' = List.map (row_key tbl) rows /\
    w_db w' = with_rows tbl (pre ++ rows') (w_db w) /\
    exists n, rep' = {| rep with sw_failed := sw_failed rep + Z.of_nat n |} /\ (n = 0%nat <-> false ∉ oks).
Proof.
  revert pre rep w. induction rows as [|r rows IH]; intros pre rep w E Hg Hn.
  - injection E as <- <-. exists [], []. split_and!; try done; [constructor|by rewrite <- Hg, with_rows_of|]. exists 0%nat.
    split; [destruct rep; simpl; by rewrite Z.add_0_r|]. rewrite elem_of_nil. tauto.
  - assert (forall ok r' w1 rep1, field_swept ok r r' -> row_key tbl r' = row_key tbl r -> w_db w1 = with_rows tbl (pre ++ r' :: rows) (w_db w) ->
      sweep_fields (sweep_metadata_field dek vault epoch update) (flat_map row_field rows) rep1 w1 = (Ok rep', w') ->
      rep1 = (if ok then rep else {| rep with sw_failed := sw_failed rep + 1 |}) ->
      exists oks rows', Forall3 field_swept oks (r :: rows) rows' /\ List.map (row_key tbl) rows' = List.map (row_key tbl) (r :: rows) /\
        w_db w' = with_rows tbl (pre ++ rows') (w_db w) /\
        exists n, rep' = {| rep with sw_failed := sw_failed rep + Z.of_nat n |} /\ (n = 0%nat <-> false ∉ oks)) as Hgo.
    { intros ok r' w1 rep1 Hr Hk Hw E1 Hrep. destruct (IH (pre ++ [r']) rep1 w1 E1) as (oks & rows' & Hf & Hks & Hw' & n & Hrep' & Hc).
      { by rewrite Hw, rows_of_with, <- app_assoc. }
      { rewrite <- app_assoc, map_app. simpl. rewrite Hk. by rewrite map_app in Hn. }
      exists (ok :: oks), (r' :: rows'). split_and!; [by constructor|simpl; congruence|by rewrite Hw', Hw, with_rows_twice, <- app_assoc|].
      destruct ok; subst rep1; simpl in *.
      - exists n. split; [done|]. rewrite Hc, elem_of_cons. naive_solver.
      - exists (S n). split; [rewrite Hrep'; f_equal; lia|]. rewrite elem_of_cons. split; [done|]. intros Hx. exfalso. apply Hx. by left. }
    simpl in E. assert (row_field r = [] \/ exists f, row_field r = [f]) as [Ef|[f Ef]].
    { unfold row_field, field_of. destruct (value_of r) as [[| | | |]|]; eauto. }
    + rewrite Ef in E. simpl in E. apply (Hgo true r w rep); try done; [|by rewrite <- Hg, with_rows_of].
      split; [|by left]. intros _. rewrite Ef. constructor.
    + rewrite Ef in E. simpl in E. unfold mbind at 1, M_bind at 1, try at 1 in E.
      destruct (sweep_metadata_field _ _ _ _ f w) as [x w1] eqn:Ex.
      destruct (sweep_field_run _ _ _ _ _ _ _ Ef Ex Hg Hn) as (r' & Hr & Hk & Hw).
      eapply (Hgo (is_ok x) r' w1); [done..|]. by destruct x.
Qed.
End Meta.

Definition issuer_swept : bool -> TotpRow -> TotpRow -> Prop :=
  field_swept totp_table "totp_secrets" "issuer" TotpSecret TotpIssuer (fun r => sync_id (t_sync r)) t_issuer set_issuer.
Definition account_swept : bool -> TotpRow -> TotpRow -> Prop :=
  field_swept totp_table "totp_secrets" "account_name" TotpSecret TotpAccount (fun r => sync_id (t_sync r)) t_account_name set_account.
Definition comment_swept : bool -> SshKeyRow -> SshKeyRow -> Prop :=
  field_swept ssh_table "ssh_keys" "comment" SshKey Summary (fun r => sync_id (s_sync r)) s_comment set_comment.

(** ** The pass *)

Definition ids_unique (db : LocalDb) : Prop :=
  NoDup (List.map entry_id (entries db)) /\ NoDup (List.map key_id (ssh_keys db)) /\ NoDup (List.map totp_id (totp_secrets db)).
Definition flagged (rep : V2BlobSweepReport) (now : string) (db : LocalDb) : LocalDb :=
  match completion rep now with Some note => set_sweep_complete_flag note db | None => db end.

(** The tables before and after the pass, step by step, with its report. *)
Record swept (rep : V2BlobSweepReport) (db db' : LocalDb) (ve : list Verdict) : Prop := {
  swept_counts : counts_ok rep;
  swept_entries : Forall3 entry_swept ve (entries db) (entries db');
  swept_rest : exists vs vt oi oa oc ssh1 totp1 totp2,
    Forall3 ssh_swept vs (ssh_keys db) ssh1 /\ Forall3 comment_swept oc ssh1 (ssh_keys db') /\
    Forall3 totp_swept vt (totp_secrets db) totp1 /\ Forall3 issuer_swept oi totp1 totp2 /\
    Forall3 account_swept oa totp2 (totp_secrets db') /\
    (sw_skipped_unreadable rep = 0 -> sw_failed rep = 0 -> (forall v, v ∈ ve ++ vs ++ vt -> v = Kept \/ v = Converted) /\
       forall b, b ∈ oi ++ oa ++ oc -> b = true);
}.

Lemma counts_clean vs (oks : list bool) rep n :
  rep = {| (fold_left tally vs no_report) with sw_failed := sw_failed (fold_left tally vs no_report) + Z.of_nat n |} ->
  (n = 0%nat <-> false ∉ oks) ->
  counts_ok rep /\ (sw_skipped_unreadable rep = 0 -> sw_failed rep = 0 -> (forall v, v ∈ vs -> v = Kept \/ v = Converted) /\ forall b, b ∈ oks -> b = true).
Proof.
  intros -> Hn. destruct (fold_tally vs no_report) as ((? & ? & ?) & _ & Q2 & Q3); [unfold counts_ok; simpl; lia|].
  unfold counts_ok. simpl. split; [lia|]. intros Hs Hf. apply Q2 in Hs as [_ Hs].
  assert (n = 0%nat) as E by lia. assert (sw_failed (fold_left tally vs no_report) = 0) as Hf' by lia. apply Q3 in Hf' as [_ Hf'].
  rewrite E in Hn. assert (false ∉ oks) as Ho by (by apply Hn). split.
  - intros [| | |] Hv; auto; contradiction.
  - intros [|] Hb; [done|contradiction].
Qed.

Lemma sweep_tables_ok w rep w' :
  ids_unique (w_db w) -> sweep_tables dek vault epoch w = (Ok rep, w') ->
  exists ve vs vt es ss ts, Forall3 entry_swept ve (entries (w_db w)) es /\ Forall3 ssh_swept vs (ssh_keys (w_db w)) ss /\
    Forall3 totp_swept vt (totp_secrets (w_db w)) ts /\
    List.map entry_id es = List.map entry_id (entries (w_db w)) /\ List.map key_id ss = List.map key_id (ssh_keys (w_db w)) /\
    List.map totp_id ts = List.map totp_id (totp_secrets (w_db w)) /\
    w_db w' = {| (w_db w) with entries := es; ssh_keys := ss; totp_secrets := ts |} /\ rep = fold_left tally (ve ++ vs ++ vt) no_report.
Proof.
  intros (N1 & N2 & N3) E. unfold sweep_tables in E.
  apply M_bind_ok in E as (x & w0 & E0 & E). injection E0 as <- <-. apply M_bind_ok in E as (rep1 & w1 & E1 & E).
  destruct (sweep_rows_ok entries_table _ _ _ [] _ _ _ _ sweep_entry_step E1 eq_refl N1) as (ve & es & Fe & Ke & We & R1).
  apply M_bind_ok in E as (x & w0 & E0 & E). injection E0 as <- <-. apply M_bind_ok in E as (rep2 & w2 & E2 & E).
  assert (ssh_keys (w_db w1) = ssh_keys (w_db w)) as S1 by (by rewrite We). rewrite S1 in E2.
  destruct (sweep_rows_ok ssh_table _ _ _ [] _ _ _ _ sweep_ssh_step E2 S1 N2) as (vs & ss & Fs & Ks & Ws & R2).
  apply M_bind_ok in E as (x & w0 & E0 & E3). injection E0 as <- <-.
  assert (totp_secrets (w_db w2) = totp_secrets (w_db w)) as T1 by (by rewrite Ws, We). rewrite T1 in E3.
  destruct (sweep_rows_ok totp_table _ _ _ [] _ _ _ _ sweep_totp_step E3 T1 N3) as (vt & ts & Ft & Kt & Wt & R3).
  exists ve, vs, vt, es, ss, ts. split_and!; [assumption..| |by rewrite !fold_left_app, <- R1, <- R2].
  rewrite Wt, Ws, We. reflexivity.
Qed.

Lemma sweep_metadata_ok rep w rep' w' :
  NoDup (List.map key_id (ssh_keys (w_db w))) -> NoDup (List.map totp_id (totp_secrets (w_db w))) ->
  sweep_identity_metadata dek vault epoch rep w = (Ok rep', w') ->
  exists oi oa oc ss ts1 ts, Forall3 issuer_swept oi (totp_secrets (w_db w)) ts1 /\ Forall3 account_swept oa ts1 ts /\
    Forall3 comment_swept oc (ssh_keys (w_db w)) ss /\ w_db w' = {| (w_db w) with ssh_keys := ss; totp_secrets := ts |} /\
    exists n, rep' = {| rep with sw_failed := sw_failed rep + Z.of_nat n |} /\ (n = 0%nat <-> false ∉ oi ++ oa ++ oc).
Proof.
  intros N2 N3 E. unfold sweep_identity_metadata in E.
  apply M_bind_ok in E as (x & w0 & E0 & E). injection E0 as <- <-. apply M_bind_ok in E as (repi & w1 & E1 & E).
  destruct (sweep_fields_ok totp_table "totp_secrets" "issuer" TotpSecret TotpIssuer (fun r => sync_id (t_sync r)) t_issuer set_issuer update_issuer
    (fun _ _ => eq_refl) (fun _ _ => eq_refl) (fun _ _ => eq_refl) (fun _ _ _ => eq_refl) _ [] _ _ _ _ E1 eq_refl N3)
    as (oi & ts1 & Fi & Ki & Wi & n1 & Ri & C1).
  apply M_bind_ok in E as (x & w0 & E0 & E). injection E0 as <- <-. apply M_bind_ok in E as (repa & w2 & E2 & E).
  assert (totp_secrets (w_db w1) = ts1) as T1 by (by rewrite Wi). unfold accounts in E2. rewrite T1 in E2.
  destruct (sweep_fields_ok totp_table "totp_secrets" "account_name" TotpSecret TotpAccount (fun r => sync_id (t_sync r)) t_account_name set_account update_account
    (fun _ _ => eq_refl) (fun _ _ => eq_refl) (fun _ _ => eq_refl) (fun _ _ _ => eq_refl) _ [] _ _ _ _ E2 T1)
    as (oa & ts & Fa & Ka & Wa & n2 & Ra & C2); [by rewrite app_nil_l, Ki|].
  apply M_bind_ok in E as (x & w0 & E0 & E3). injection E0 as <- <-.
  assert (ssh_keys (w_db w2) = ssh_keys (w_db w)) as S1 by (by rewrite Wa, Wi). unfold comments in E3. rewrite S1 in E3.
  destruct (sweep_fields_ok ssh_table "ssh_keys" "comment" SshKey Summary (fun r => sync_id (s_sync r)) s_comment set_comment update_comment
    (fun _ _ => eq_refl) (fun _ _ => eq_refl) (fun _ _ => eq_refl) (fun _ _ _ => eq_refl) _ [] _ _ _ _ E3 S1 N2)
    as (oc & ss & Fc & Kc & Wc & n3 & Rc & C3).
  exists oi, oa, oc, ss, ts1, ts. split_and!; [assumption..|rewrite Wc, Wa, Wi; reflexivity|].
  exists (n1 + n2 + n3)%nat. split; [rewrite Rc, Ra, Ri; simpl; f_equal; lia|]. rewrite !elem_of_app.
  assert (n1 + n2 + n3 = 0 <-> n1 = 0 /\ n2 = 0 /\ n3 = 0)%nat as -> by lia. tauto.
Qed.

Lemma sweep_body_ok now w rep w' :
  ids_unique (w_db w) -> sweep_body dek vault epoch now w = (Ok rep, w') ->
  exists ve es ss ts, w_db w' = flagged rep now {| (w_db w) with entries := es; ssh_keys := ss; totp_secrets := ts |} /\
    swept rep (w_db w) (w_db w') ve /\ List.map entry_id es = List.map entry_id (entries (w_db w)).
Proof.
  intros Hu E. unfold sweep_body in E. apply M_bind_ok in E as (rep1 & w1 & E1 & E).
  destruct (sweep_tables_ok _ _ _ Hu E1) as (ve & vs & vt & es & ss1 & ts1 & Fe & Fs & Ft & Ke & Ks & Kt & W1 & R1).
  apply M_bind_ok in E as (rep2 & w2 & E2 & E). destruct Hu as (N1 & N2 & N3).
  destruct (sweep_metadata_ok _ _ _ _ ltac:(rewrite W1; simpl; by rewrite Ks) ltac:(rewrite W1; simpl; by rewrite Kt) E2)
    as (oi & oa & oc & ss & ts2 & ts & Fi & Fa & Fc & W2 & n & R2 & Cn).
  rewrite W1 in Fi, Fc. cbn [ssh_keys totp_secrets] in Fi, Fc.
  destruct (counts_clean (ve ++ vs ++ vt) (oi ++ oa ++ oc) rep2 n) as [Hc Hcl]; [by rewrite <- R1|done|].
  apply M_bind_ok in E as (u & w3 & E3 & E). injection E as <- <-.
  assert (w_db w3 = flagged rep2 now (w_db w2)) as W3 by (unfold flagged, execute, mret, M_ret in *; destruct (completion rep2 now); by simplify_eq).
  assert (forall db, entries (flagged rep2 now db) = entries db /\ ssh_keys (flagged rep2 now db) = ssh_keys db /\
    totp_secrets (flagged rep2 now db) = totp_secrets db) as Hfl by (intros db; unfold flagged; by destruct (completion rep2 now)).
  exists ve, es, ss, ts. split; [rewrite W3, W2, W1; reflexivity|]. split; [|done]. rewrite W3.
  destruct (Hfl (w_db w2)) as (F1 & F2 & F3). split; [done|rewrite F1, W2, W1; exact Fe|].
  exists vs, vt, oi, oa, oc, ss1, ts1, ts2. rewrite F2, F3, W2. split_and!; assumption.
Qed.

(** ** What the pass leaves *)

Lemma metadata_text_identity stored sid t p v text :
  own_identity stored sid -> metadata_text stored t p v = Ok text -> metadata_text (Some sid) t p v = Ok text.
Proof.
  intros Hid. destruct stored as [x|]; [by rewrite (Hid x eq_refl)|]. unfold metadata_text. destruct v as [v|]; [|done].
  generalize (if bound_to p v then p else legacy p). intros q. unfold open_metadata_text_field.
  destruct v as [| | |s|b]; try done. destruct (starts_with ENVELOPE_MAGIC b) eqn:Em; [|done].
  unfold open_object_field. by rewrite Em.
Qed.

(** A secret or a metadata column as it was, bytes included, or converted: it
    could be read, and reads the same. *)
Definition part_result (t : ObjectType) (decrypt : bytes -> bytes -> bytes -> bytes -> Res string) (p p' : ThreePartRow) : Prop :=
  p' = p \/ exists text, secret_of t decrypt p = Ok text /\ secret_of t decrypt p' = Ok text /\ part_v2 dek vault t p'.
Definition value_result (sid : option string) (t : ObjectType) (p : EnvelopePurpose) (v v' : option Value) : Prop :=
  v' = v \/ exists text, metadata_text sid t p v = Ok (Some text) /\ metadata_text sid t p v' = Ok (Some text).

(** A row keeps its other columns, its identity, its secret and its metadata
    text, and what could not be read or sealed keeps its bytes. *)
Definition same_sync (c c' : SyncCols) : Prop :=
  c' = {| c with sync_id := sync_id c' |} /\ forall x, sync_id c = Some x -> sync_id c' = Some x.
Definition ssh_result (r r' : SshKeyRow) : Prop :=
  r' = {| r with private_key_encrypted := private_key_encrypted r'; s_nonce := s_nonce r'; s_auth_tag := s_auth_tag r';
                 s_comment := s_comment r'; s_sync := s_sync r' |} /\ same_sync (s_sync r) (s_sync r') /\
  part_result SshKey decrypt_private_key (ssh_part r) (ssh_part r') /\
  value_result (sync_id (s_sync r')) SshKey Summary (s_comment r) (s_comment r') /\
  (forall text, secret_of SshKey decrypt_private_key (ssh_part r) = Ok text ->
     secret_of SshKey decrypt_private_key (ssh_part r') = Ok text) /\
  forall text, metadata_text (sync_id (s_sync r)) SshKey Summary (s_comment r) = Ok text ->
    metadata_text (sync_id (s_sync r')) SshKey Summary (s_comment r') = Ok text.
Definition totp_result (r r' : TotpRow) : Prop :=
  r' = {| r with secret_encrypted := secret_encrypted r'; t_nonce := t_nonce r'; t_auth_tag := t_auth_tag r';
                 t_issuer := t_issuer r'; t_account_name := t_account_name r'; t_sync := t_sync r' |} /\ same_sync (t_sync r) (t_sync r') /\
  part_result TotpSecret decrypt_totp_secret (totp_part r) (totp_part r') /\
  value_result (sync_id (t_sync r')) TotpSecret TotpIssuer (t_issuer r) (t_issuer r') /\
  value_result (sync_id (t_sync r')) TotpSecret TotpAccount (t_account_name r) (t_account_name r') /\
  (forall text, secret_of TotpSecret decrypt_totp_secret (totp_part r) = Ok text ->
     secret_of TotpSecret decrypt_totp_secret (totp_part r') = Ok text) /\
  (forall text, metadata_text (sync_id (t_sync r)) TotpSecret TotpIssuer (t_issuer r) = Ok text ->
     metadata_text (sync_id (t_sync r')) TotpSecret TotpIssuer (t_issuer r') = Ok text) /\
  forall text, metadata_text (sync_id (t_sync r)) TotpSecret TotpAccount (t_account_name r) = Ok text ->
    metadata_text (sync_id (t_sync r')) TotpSecret TotpAccount (t_account_name r') = Ok text.

Lemma same_sync_refl c : same_sync c c.
Proof. split; [by destruct c|done]. Qed.
Lemma same_sync_set c sid : own_identity (sync_id c) sid -> same_sync c (with_sync_id sid c).
Proof. intros Hid. split; [done|]. simpl. intros x Hx. by rewrite (Hid x Hx). Qed.

(** The first step of a row, seen through its secret. *)
Lemma part_swept_cases {R} (part : R -> ThreePartRow) set t decrypt v r r' :
  part_swept part set t decrypt v r r' ->
  (r' = r \/ exists sid b, own_identity (tp_sync_id (part r)) sid /\ r' = set sid b r) /\
  part_result t decrypt (part r) (part r') /\
  (forall text, secret_of t decrypt (part r) = Ok text -> secret_of t decrypt (part r') = Ok text) /\
  (v = Kept \/ v = Converted -> is_envelope_blob (tp_blob (part r')) = true /\
     ((is_envelope_blob (tp_blob (part r)) = true -> part_v2 dek vault t (part r)) -> part_v2 dek vault t (part r'))).
Proof.
  destruct v; simpl.
  - intros [-> Hv]. split; [by left|]. split; [by left|]. split; [done|]. intros _. split; auto.
  - intros (sid & b & text & Hid & Hr & H1' & H2' & Hp). split; [right; eauto|]. split; [right; by exists text|].
    split; [congruence|]. intros _. split; [apply Hp|done].
  - intros [-> _]. split; [by left|]. split; [by left|]. split; [done|]. by intros [?|?].
  - intros ->. split; [by left|]. split; [by left|]. split; [done|]. by intros [?|?].
Qed.

Lemma ssh_chain v ok r r1 r' :
  ssh_swept v r r1 -> comment_swept ok r1 r' ->
  ssh_result r r' /\ (v = Kept \/ v = Converted -> ok = true -> is_envelope_blob (private_key_encrypted r') = true /\
    ((is_envelope_blob (private_key_encrypted r) = true -> part_v2 dek vault SshKey (ssh_part r)) -> part_v2 dek vault SshKey (ssh_part r')) /\
    Forall (metadata_v2 dek vault) (field_of "ssh_keys" "comment" SshKey Summary (key_id r') (sync_id (s_sync r')) (s_comment r'))).
Proof.
  intros (Hr1 & Hpart & Hsec & Hcl)%part_swept_cases [Hm Hr'].
  assert (ssh_part r' = ssh_part r1 /\ r' = {| r1 with s_comment := s_comment r' |} /\ s_sync r' = s_sync r1 /\
    value_result (sync_id (s_sync r1)) SshKey Summary (s_comment r1) (s_comment r') /\
    (forall text, metadata_text (sync_id (s_sync r1)) SshKey Summary (s_comment r1) = Ok text ->
      metadata_text (sync_id (s_sync r')) SshKey Summary (s_comment r') = Ok text)) as (Ep & Er & Es & Ev & Et).
  { destruct Hr' as [->|(b & text & _ & -> & T1 & T2)]; [split_and!; [done|by destruct r1|done|by left|done]|].
    unfold row_text in *. simpl in *. split_and!; [done..|right; eauto|congruence]. }
  split.
  - assert (s_comment r1 = s_comment r) as Ec by (destruct Hr1 as [->|(? & ? & _ & ->)]; done). rewrite Ec in Ev.
    unfold ssh_result. rewrite Ep, Es. split; [|split; [|split; [exact Hpart|split; [exact Ev|split; [exact Hsec|]]]]].
    + destruct Hr1 as [->|(sid & b & _ & ->)]; [|rewrite Er; reflexivity]. rewrite Er. by destruct r.
    + destruct Hr1 as [->|(sid & b & Hid & ->)]; [apply same_sync_refl|]. by apply same_sync_set.
    + intros text Ht. rewrite <- Es. apply Et. destruct Hr1 as [->|(sid & b & Hid & ->)]; [done|]. simpl. by eapply metadata_text_identity.
  - intros Hv Ho. destruct (Hcl Hv) as [C1 C2]. rewrite Ep. split; [change (is_envelope_blob (tp_blob (ssh_part r')) = true); by rewrite Ep|].
    split; [exact C2|]. by apply Hm.
Qed.

Lemma totp_chain v oi oa r r1 r2 r' :
  totp_swept v r r1 -> issuer_swept oi r1 r2 -> account_swept oa r2 r' ->
  totp_result r r' /\ (v = Kept \/ v = Converted -> oi = true -> oa = true -> is_envelope_blob (secret_encrypted r') = true /\
    ((is_envelope_blob (secret_encrypted r) = true -> part_v2 dek vault TotpSecret (totp_part r)) -> part_v2 dek vault TotpSecret (totp_part r')) /\
    Forall (metadata_v2 dek vault) (field_of "totp_secrets" "issuer" TotpSecret TotpIssuer (totp_id r') (sync_id (t_sync r')) (t_issuer r')) /\
    Forall (metadata_v2 dek vault) (field_of "totp_secrets" "account_name" TotpSecret TotpAccount (totp_id r') (sync_id (t_sync r')) (t_account_name r'))).
Proof.
  intros (Hr1 & Hpart & Hsec & Hcl)%part_swept_cases [Hm Hr2] [Hn Hr'].
  assert (totp_part r2 = totp_part r1 /\ r2 = {| r1 with t_issuer := t_issuer r2 |} /\ t_sync r2 = t_sync r1 /\
    value_result (sync_id (t_sync r1)) TotpSecret TotpIssuer (t_issuer r1) (t_issuer r2) /\
    (forall text, metadata_text (sync_id (t_sync r1)) TotpSecret TotpIssuer (t_issuer r1) = Ok text ->
      metadata_text (sync_id (t_sync r2)) TotpSecret TotpIssuer (t_issuer r2) = Ok text)) as (Ep & Er & Es & Ev & Et).
  { destruct Hr2 as [->|(b & text & _ & -> & T1 & T2)]; [split_and!; [done|by destruct r1|done|by left|done]|].
    unfold row_text in *. simpl in *. split_and!; [done..|right; eauto|congruence]. }
  assert (totp_part r' = totp_part r2 /\ r' = {| r2 with t_account_name := t_account_name r' |} /\ t_sync r' = t_sync r2 /\
    value_result (sync_id (t_sync r2)) TotpSecret TotpAccount (t_account_name r2) (t_account_name r') /\
    (forall text, metadata_text (sync_id (t_sync r2)) TotpSecret TotpAccount (t_account_name r2) = Ok text ->
      metadata_text (sync_id (t_sync r')) TotpSecret TotpAccount (t_account_name r') = Ok text)) as (Ep' & Er' & Es' & Ev' & Et').
  { destruct Hr' as [->|(b & text & _ & -> & T1 & T2)]; [split_and!; [done|by destruct r2|done|by left|done]|].
    unfold row_text in *. simpl in *. split_and!; [done..|right; eauto|congruence]. }
  assert (t_issuer r' = t_issuer r2 /\ totp_id r' = totp_id r2) as [Ei Ek] by (by rewrite Er').
  assert (t_account_name r2 = t_account_name r1) as Ea by (by rewrite Er).
  split.
  - assert (t_issuer r1 = t_issuer r /\ t_account_name r1 = t_account_name r) as [Ei0 Ea0]
      by (destruct Hr1 as [->|(? & ? & _ & ->)]; done).
    assert (value_result (sync_id (t_sync r')) TotpSecret TotpIssuer (t_issuer r) (t_issuer r')) as Hvi by (by rewrite Es', Es, Ei, <- Ei0).
    assert (value_result (sync_id (t_sync r')) TotpSecret TotpAccount (t_account_name r) (t_account_name r')) as Hva
      by (by rewrite Es', <- Ea0, <- Ea).
    unfold totp_result. rewrite Ep', Ep.
    split; [|split; [|split; [exact Hpart|split; [exact Hvi|split; [exact Hva|split; [exact Hsec|split]]]]]].
    + destruct Hr1 as [->|(sid & b & _ & ->)]; [|rewrite Er', Er; reflexivity]. rewrite Er', Er. by destruct r.
    + rewrite Es', Es. destruct Hr1 as [->|(sid & b & Hid & ->)]; [apply same_sync_refl|]. by apply same_sync_set.
    + intros text Ht. rewrite Es', Ei. apply Et. destruct Hr1 as [->|(sid & b & Hid & ->)]; [done|]. simpl. by eapply metadata_text_identity.
    + intros text Ht. apply Et'. rewrite Es, Ea. destruct Hr1 as [->|(sid & b & Hid & ->)]; [done|]. simpl. by eapply metadata_text_identity.
  - intros Hv Hi Ho. destruct (Hcl Hv) as [C1 C2]. rewrite Ep', Ep.
    split; [change (is_envelope_blob (tp_blob (totp_part r')) = true); by rewrite Ep', Ep|]. split; [exact C2|].
    split; [|by apply Hn]. rewrite Es', Ei, Ek. by apply Hm.
Qed.

Lemma entry_v2_already r : entry_v2 dek vault r -> already_v2 r = true.
Proof.
  intros (cred & sid & _ & _ & Hf). unfold present in Hf. rewrite !Forall_app in Hf. destruct Hf as (Hreq & Hu & Hn).
  assert (forall p b, is_entry_field p = true -> is_ok (open_object_field dek (Some vault) (Some sid) (envelope_object_type cred) p b) = true ->
    has_field_binding b p = true) as Hb.
  { intros p b Hp. destruct (open_object_field _ _ _ _ _ _) as [text|] eqn:E; [|done]. intros _. by eapply opened_is_bound. }
  assert (forall n p b, is_entry_field p = true -> Forall (fun c : Column => column_v2 c = true /\
    is_ok (open_object_field dek (Some vault) (Some sid) (envelope_object_type cred) c.1.2 c.2) = true) (column_of n p b) ->
    match b with Some b => has_field_binding b p | None => true end = true) as Ho.
  { intros n p [b|] Hp; [|done]. intros [[_ X] _]%Forall_cons. by apply Hb. }
  repeat match goal with X : Forall _ (_ :: _) |- _ => apply Forall_cons in X as [[_ ?] X] end. simpl in *.
  unfold already_v2. apply Ho in Hu, Hn; [|done..]. by rewrite !Hb, Hu, Hn.
Qed.

(** Nothing is left to convert. *)
Definition current (db : LocalDb) : Prop :=
  Forall (fun r => already_v2 r = true) (entries db) /\
  Forall (fun r => is_envelope_blob (private_key_encrypted r) = true) (ssh_keys db) /\
  Forall (fun r => is_envelope_blob (secret_encrypted r) = true) (totp_secrets db) /\
  Forall (metadata_v2 dek vault) (metadata_fields db).
(** What is already in the current format opens. *)
Definition current_opens (db : LocalDb) : Prop :=
  Forall (fun r => already_v2 r = true -> entry_v2 dek vault r) (entries db) /\
  Forall (fun r => is_envelope_blob (private_key_encrypted r) = true -> part_v2 dek vault SshKey (ssh_part r)) (ssh_keys db) /\
  Forall (fun r => is_envelope_blob (secret_encrypted r) = true -> part_v2 dek vault TotpSecret (totp_part r)) (totp_secrets db).

Lemma swept_rows rep db db' ve :
  swept rep db db' ve ->
  Forall2 ssh_result (ssh_keys db) (ssh_keys db') /\ Forall2 totp_result (totp_secrets db) (totp_secrets db').
Proof.
  intros [_ _ (vs & vt & oi & oa & oc & ss & ts1 & ts2 & Fs & Fc & Ft & Fi & Fa & _)]. split.
  - eapply Forall3_chain; [done..|]. intros v o r r1 r' _ _ Hv Ho. by eapply ssh_chain.
  - eapply Forall3_chain3; [done..|]. intros v o o' r r1 r2 r' _ _ _ Hv Ho Ho'. by eapply totp_chain.
Qed.

Lemma metadata_fields_v2 db :
  Forall (fun r => Forall (metadata_v2 dek vault) (field_of "ssh_keys" "comment" SshKey Summary (key_id r) (sync_id (s_sync r)) (s_comment r)))
    (ssh_keys db) ->
  Forall (fun r => Forall (metadata_v2 dek vault) (field_of "totp_secrets" "issuer" TotpSecret TotpIssuer (totp_id r) (sync_id (t_sync r)) (t_issuer r)) /\
    Forall (metadata_v2 dek vault) (field_of "totp_secrets" "account_name" TotpSecret TotpAccount (totp_id r) (sync_id (t_sync r)) (t_account_name r)))
    (totp_secrets db) -> Forall (metadata_v2 dek vault) (metadata_fields db).
Proof.
  assert (forall R (g : R -> list MetadataField) l, Forall (fun r => Forall (metadata_v2 dek vault) (g r)) l ->
    Forall (metadata_v2 dek vault) (flat_map g l)) as G.
  { intros R g l. induction 1; simpl; [constructor|]. by apply Forall_app. }
  intros Hs Ht. unfold metadata_fields. rewrite !Forall_app. split_and!; apply G; try done; eapply Forall_impl; try exact Ht; by intros r [].
Qed.

(** A pass without refusals leaves nothing to convert, and everything opens when
    what was current before did. *)
Lemma swept_clean rep db db' ve :
  swept rep db db' ve -> sw_skipped_unreadable rep = 0 -> sw_failed rep = 0 ->
  current db' /\ (current_opens db ->
    Forall (entry_v2 dek vault) (entries db') /\ Forall (fun r => part_v2 dek vault SshKey (ssh_part r)) (ssh_keys db') /\
    Forall (fun r => part_v2 dek vault TotpSecret (totp_part r)) (totp_secrets db')).
Proof.
  intros [_ Fe (vs & vt & oi & oa & oc & ss & ts1 & ts2 & Fs & Fc & Ft & Fi & Fa & Hcl)] Hsk Hfa. destruct (Hcl Hsk Hfa) as [Hv Ho].
  assert (Forall2 (fun r r' => already_v2 r' = true /\ ((already_v2 r = true -> entry_v2 dek vault r) -> entry_v2 dek vault r'))
    (entries db) (entries db')) as Ge.
  { eapply Forall3_pairs; [exact Fe|]. intros v r r' Hin E. destruct (Hv v) as [->| ->]; [apply elem_of_app; by left| |]; simpl in E.
    - destruct E as [-> Ea]. auto.
    - destruct E as (? & ? & ? & ? & _ & _ & _ & _ & Hv2 & _). split; [by apply entry_v2_already|done]. }
  assert (Forall2 (fun r r' => is_envelope_blob (private_key_encrypted r') = true /\
    ((is_envelope_blob (private_key_encrypted r) = true -> part_v2 dek vault SshKey (ssh_part r)) -> part_v2 dek vault SshKey (ssh_part r')) /\
    Forall (metadata_v2 dek vault) (field_of "ssh_keys" "comment" SshKey Summary (key_id r') (sync_id (s_sync r')) (s_comment r')))
    (ssh_keys db) (ssh_keys db')) as Gs.
  { eapply Forall3_chain; [done..|]. intros v o r r1 r' Iv Io E1 E2. eapply ssh_chain; [done..|apply Hv|apply Ho]; rewrite !elem_of_app; auto. }
  assert (Forall2 (fun r r' => is_envelope_blob (secret_encrypted r') = true /\
    ((is_envelope_blob (secret_encrypted r) = true -> part_v2 dek vault TotpSecret (totp_part r)) -> part_v2 dek vault TotpSecret (totp_part r')) /\
    Forall (metadata_v2 dek vault) (field_of "totp_secrets" "issuer" TotpSecret TotpIssuer (totp_id r') (sync_id (t_sync r')) (t_issuer r')) /\
    Forall (metadata_v2 dek vault) (field_of "totp_secrets" "account_name" TotpSecret TotpAccount (totp_id r') (sync_id (t_sync r')) (t_account_name r')))
    (totp_secrets db) (totp_secrets db')) as Gt.
  { eapply Forall3_chain3; [done..|]. intros v o o' r r1 r2 r' Iv Io Io' E1 E2 E3. eapply totp_chain; [done..|apply Hv|apply Ho|apply Ho]; rewrite !elem_of_app; auto. }
  split.
  - unfold current. split_and!; [| | |apply metadata_fields_v2]; eapply Forall2_Forall_r; try (exact Ge || exact Gs || exact Gt);
      cbv beta; tauto.
  - intros (Oe & Os & Ot). split_and!;
      [eapply (Forall2_use _ _ _ _ _ Oe Ge)|eapply (Forall2_use _ _ _ _ _ Os Gs)|eapply (Forall2_use _ _ _ _ _ Ot Gt)]; cbv beta; tauto.
Qed.

(** ** A pass with nothing to do *)

Lemma sweep_rows_idle {R} (step : R -> M Verdict) rows rep w :
  Forall (fun r => step r w = (Ok Kept, w)) rows -> sweep_rows step rows rep w = (Ok (fold_left tally (repeat Kept (length rows)) rep), w).
Proof. intros Hi. revert rep. induction Hi as [|r rows Hr _ IH]; intros rep; simpl; [done|]. by rewrite (M_bind_run _ _ _ _ _ Hr), IH. Qed.
Lemma sweep_fields_idle update fs rep w :
  Forall (metadata_v2 dek vault) fs -> sweep_fields (sweep_metadata_field dek vault epoch update) fs rep w = (Ok rep, w).
Proof.
  induction 1 as [|f fs [Hv Ho] _ IH]; simpl; [done|].
  assert (sweep_metadata_field dek vault epoch update f w = (Ok tt, w)) as Hf.
  { destruct f as [tb co ro si ty pu v]. simpl in *. destruct v as [| | | |b]; try done. unfold open_metadata_text_field in Ho.
    simpl in Hv. rewrite Hv in Ho. destruct si as [sid|].
    2:{ exfalso. revert Ho. unfold open_object_field. by rewrite Hv. }
    destruct (open_object_field _ _ _ _ _ _) as [text|] eqn:Eo; [|done]. destruct (opened_doc _ _ _ _ _ _ Hv Eo) as (Hl & doc & Hd & Hp & Hs).
    unfold sweep_metadata_field, metadata_plan, mbind, M_bind, lift. simpl. rewrite Hv. simpl.
    rewrite (proj2 (Z.ltb_ge _ _) Hl). simpl. rewrite Hd. simpl. rewrite Hp, Hs, bool_decide_true by done. simpl. destruct (is_entry_field pu); simpl; by rewrite Eo. }
  unfold mbind, M_bind, try. rewrite Hf. exact IH.
Qed.

Lemma sweep_body_idle now w :
  current (w_db w) -> exists rep, sweep_body dek vault epoch now w = (Ok rep, {| w with w_db := set_sweep_complete_flag now (w_db w) |}) /\
    sw_converted rep = 0 /\ sw_skipped_unreadable rep = 0 /\ sw_failed rep = 0.
Proof.
  intros (He & Hs & Ht & Hm). unfold metadata_fields in Hm. rewrite !Forall_app in Hm. destruct Hm as (Hi & Ha & Hc).
  set (n := (length (entries (w_db w)) + (length (ssh_keys (w_db w)) + length (totp_secrets (w_db w))))%nat).
  set (rep := fold_left tally (repeat Kept n) no_report).
  assert (sweep_tables dek vault epoch w = (Ok rep, w)) as E1.
  { unfold sweep_tables. rewrite (M_bind_run _ _ _ _ _ (eq_refl : query entries w = (Ok _, w))). rewrite (M_bind_run _ _ _ _ _ (sweep_rows_idle
      (sweep_entry_row dek vault epoch) (entries (w_db w)) no_report w ltac:(eapply Forall_impl; [exact He|]; intros r Hr; unfold sweep_entry_row; by rewrite Hr))).
    rewrite (M_bind_run _ _ _ _ _ (eq_refl : query ssh_keys w = (Ok _, w))). erewrite M_bind_run.
    2:{ apply sweep_rows_idle. eapply Forall_impl; [exact Hs|]. intros r Hr. unfold sweep_three_part_row. simpl. by rewrite Hr. }
    rewrite (M_bind_run _ _ _ _ _ (eq_refl : query totp_secrets w = (Ok _, w))). rewrite sweep_rows_idle.
    2:{ eapply Forall_impl; [exact Ht|]. intros r Hr. unfold sweep_three_part_row. simpl. by rewrite Hr. }
    unfold rep, n. by rewrite !repeat_app, !fold_left_app. }
  assert (sweep_identity_metadata dek vault epoch rep w = (Ok rep, w)) as E2.
  { unfold sweep_identity_metadata. rewrite (M_bind_run _ _ _ _ _ (eq_refl : query issuers w = (Ok _, w))).
    rewrite (M_bind_run _ _ _ _ _ (sweep_fields_idle _ _ _ _ Hi)), (M_bind_run _ _ _ _ _ (eq_refl : query accounts w = (Ok _, w))).
    rewrite (M_bind_run _ _ _ _ _ (sweep_fields_idle _ _ _ _ Ha)), (M_bind_run _ _ _ _ _ (eq_refl : query comments w = (Ok _, w))).
    by apply sweep_fields_idle. }
  destruct (fold_tally (repeat Kept n) no_report) as (_ & Q1 & Q2 & Q3); [unfold counts_ok; simpl; lia|].
  assert (forall v, v ∈ repeat Kept n -> v = Kept) as Hr by (intros v Hv%list_elem_of_In; by apply repeat_spec in Hv).
  assert (sw_converted rep = 0) as C1 by (apply Q1; split; [done|]; by intros ?%Hr).
  assert (sw_skipped_unreadable rep = 0) as C2 by (apply Q2; split; [done|]; by intros ?%Hr).
  assert (sw_failed rep = 0) as C3 by (apply Q3; split; [done|]; by intros ?%Hr).
  exists rep. split; [|done]. unfold sweep_body. rewrite (M_bind_run _ _ _ _ _ E1), (M_bind_run _ _ _ _ _ E2). unfold completion.
  by rewrite C1, C2, C3.
Qed.

(** ** The claim *)

Context `{!Sha256Laws, !HexDecodeLaws, !SerdeBytesLaws Document, !SerdeBytesLaws EntryTuple, !SerdeBytesLaws MappingTuple}.
Context `{!SerdeBytesLaws TagTuple, !SerdeBytesLaws CustodyTuple}.

#[local] Instance guarded_seal o t p text : Guarded (seal_and_verify_field dek vault o t p epoch text).
Proof. unfold seal_and_verify_field, seal_field. guarded. Qed.
#[local] Instance guarded_seal_opt o t p text : Guarded (seal_opt (seal_and_verify_field dek vault o t p epoch) text).
Proof. unfold seal_opt. guarded. Qed.
#[local] Instance guarded_identity sid : Guarded (identity_of sid).
Proof. unfold identity_of. guarded. Qed.
#[local] Instance guarded_rows {R} (step : R -> M Verdict) rows rep : (forall r, Guarded (step r)) -> Guarded (sweep_rows step rows rep).
Proof. intros Hs. revert rep. induction rows; intros rep; simpl; guarded. Qed.
#[local] Instance guarded_fields (step : MetadataField -> M unit) fs rep : (forall f, Guarded (step f)) -> Guarded (sweep_fields step fs rep).
Proof. intros Hs. revert rep. induction fs; intros rep; simpl; guarded. Qed.
#[local] Instance guarded_entry r : Guarded (sweep_entry_row dek vault epoch r).
Proof. unfold sweep_entry_row, seal_and_verify_entry_fields, update_swept_entry. guarded. Qed.
#[local] Instance guarded_part t decrypt update r :
  (forall id sid b db db', update id sid b db = Ok db' -> vault_id db' = vault_id db) ->
  Guarded (sweep_three_part_row dek vault epoch t decrypt update r).
Proof. intros Hu. unfold sweep_three_part_row. guarded. apply guarded_execute_res. eauto. Qed.
#[local] Instance guarded_field update f :
  (forall id b db, vault_id (update id b db) = vault_id db) -> Guarded (sweep_metadata_field dek vault epoch update f).
Proof. intros Hu. unfold sweep_metadata_field. guarded. apply guarded_execute. auto. Qed.
#[export] Instance guarded_sweep now : Guarded (sweep_body dek vault epoch now).
Proof.
  unfold sweep_body, sweep_tables, sweep_identity_metadata. guarded.
  all: first [apply guarded_rows; intros ?; apply guarded_part; unfold update_ssh_secret, update_totp_secret; intros ? ? ? ? ? ?; result_inv; by subst
             |apply guarded_fields; intros ?; by apply guarded_field].
Qed.

(** A pass that was acknowledged or whose transaction committed. *)
Lemma sweep_run s now w r w' :
  session_dek s = Ok dek -> vault_id (w_db w) = Ok vault -> epoch = epoch_of (metadata (w_db w)) -> vault_ok dek w ->
  sweep_v1_blobs_to_v2 s now w = (r, w') ->
  in_step dek w' /\ w_on_disk w' = w_on_disk w /\ old_or_new (sweep_body dek vault epoch now) w r w'.
Proof.
  intros Hdek Hv He [Hs _] E. unfold sweep_v1_blobs_to_v2 in E. rewrite (M_bind_run _ _ _ _ _ (require_unlocked_run _ _ w Hdek)) in E.
  rewrite (M_bind_run _ _ _ _ _ (session_dek_run _ _ w Hdek)) in E. unfold vault_id in Hv. apply ok_or_ok in Hv.
  assert (read_local_identity w = (Ok (vault, epoch), w)) as Ei by (unfold read_local_identity, mbind, M_bind, query, lift; simpl; rewrite Hv; simpl; by subst).
  rewrite (M_bind_run _ _ _ _ _ Ei) in E. exact (content_tx_safe _ _ _ _ _ _ Hs (guarded_sweep now) E).
Qed.
End Facts.

Section Claim.
Context `{Environment, Chrono, Hmac, Sha256, HexDecode, UuidText, Base64, Base32, Aead, UrlParse}.
Context `{SerdeBytes AadContext, SerdeBytes EnvelopeDoc, SerdeBytes EntryTuple, SerdeBytes MappingTuple, SerdeBytes TagTuple}.
Context `{SerdeBytes CustodyTuple, SerdeBytes State, SerdeBytes Document}.
Context `{SerdeBytes CustodyScope, SerdeBytes ObjectRef, SerdeBytes (CustodyScope * ObjectRef)}.
Context `{Bincode EncryptedEntry, BincodeSer EncryptedEntry, BincodeSer bytes}.
Context `{!EnvironmentLaws, !UuidTextLaws, !Base64Laws, !AeadLaws, !SerdeBytesLaws AadContext, !SerdeBytesLaws EnvelopeDoc, !EnvelopeJson}.
Context `{!Sha256Laws, !HexDecodeLaws, !SerdeBytesLaws Document, !SerdeBytesLaws EntryTuple, !SerdeBytesLaws MappingTuple}.
Context `{!SerdeBytesLaws TagTuple, !SerdeBytesLaws CustodyTuple}.
Variables (dek : bytes) (vault : string).

(** Nothing but the three tables and the state of the registry differs. *)
Definition elsewhere (db db' : LocalDb) : Prop :=
  db' = {| db with entries := entries db'; ssh_keys := ssh_keys db'; totp_secrets := totp_secrets db'; registry_state := registry_state db' |}.
Definition mappings_v2 (db : LocalDb) : Prop :=
  exists k, derive_domain_tag_key dek = Ok k /\ Forall (mapping_v2 dek vault k db) (domain_mappings db).

Lemma elsewhere_v2 db db' : elsewhere db db' -> mappings_v2 db -> mappings_v2 db'.
Proof. unfold elsewhere. intros -> (k & Hk & Hm). exists k. split; [done|]. exact Hm. Qed.

(** The committed case of a pass. *)
Lemma swept_facts s now w a w1 w2 w' :
  session_dek s = Ok dek -> session_uuid s = Some vault -> vault_id (w_db w) = Ok vault -> keys_unique (w_db w) -> ids_unique (w_db w) ->
  w_db w1 = (if w_on_disk w then mark (w_db w) else w_db w) ->
  sweep_body dek vault (epoch_of (metadata (w_db w))) now w1 = (Ok a, w2) -> w_db w' = w_db w2 ->
  keys_unique (w_db w') /\ elsewhere (w_db w) (w_db w') /\ (exists ve, swept dek vault a (w_db w) (w_db w') ve) /\
  forall note, completion a now = Some note -> registry_state (w_db w') !! SWEEP_COMPLETE_KEY = Some note.
Proof.
  intros Hdek Hu Hv Hk Hi E1 Eb E2.
  assert (exists reg, w_db w1 = {| (w_db w) with registry_state := reg |}) as [reg E1'].
  { rewrite E1. destruct (w_on_disk w); [eexists; reflexivity|]. exists (registry_state (w_db w)). by destruct (w_db w). }
  clear E1. apply sweep_body_ok in Eb as (ve & es & ss & ts & Edb & Hs & Ke); [|by rewrite E1'].
  rewrite E2. rewrite E1' in *. rewrite Edb in *. split; [|split; [|split]].
  - destruct Hk as (K1 & K2). unfold keys_unique, flagged. destruct (completion a now); cbn; (split; [by rewrite Ke|done]).
  - unfold elsewhere, flagged. by destruct (completion a now).
  - exists ve. destruct Hs as [S1 S2 S3]. split; done.
  - intros note Hn. unfold flagged. rewrite Hn. cbn. by rewrite lookup_insert_eq.
Qed.

(** C26. The sweep loses nothing.  A pass either takes no effect and reports an
    error, or it left every row of the three tables as it was or in the current
    format: a converted entry is shown by the ordinary read with the texts the old
    columns held; an SSH key or TOTP row keeps its identity and every other
    column, and its secret and each of its metadata columns is either as it was,
    bytes included, or could be read, was converted and reads the same; no other
    table changes.  So what it cannot read or seal stays, bytes included.  A pass without refusals leaves
    a vault that passes the verification before activation, as far as what was
    already current, the domain mappings and the custody objects do, and a second
    pass changes no row and records completion. *)
Theorem sweep_faithful s now w r w' :
  session_dek s = Ok dek -> session_uuid s = Some vault -> vault_id (w_db w) = Ok vault -> vault_ok dek w -> ids_unique (w_db w) ->
  sweep_v1_blobs_to_v2 s now w = (r, w') ->
  vault_ok dek w' /\
  ((w_db w' = w_db w /\ is_ok r = false) \/
   exists rep ve, (forall rep', r = Ok rep' -> rep' = rep) /\
     Forall3 (entry_swept dek vault) ve (entries (w_db w)) (entries (w_db w')) /\
     Forall2 (ssh_result dek vault) (ssh_keys (w_db w)) (ssh_keys (w_db w')) /\
     Forall2 (totp_result dek vault) (totp_secrets (w_db w)) (totp_secrets (w_db w')) /\ elsewhere (w_db w) (w_db w') /\
     (forall note, completion rep now = Some note -> registry_state (w_db w') !! SWEEP_COMPLETE_KEY = Some note) /\
     (sw_skipped_unreadable rep = 0 -> sw_failed rep = 0 ->
        (forall cols, current_opens dek vault (w_db w) -> mappings_v2 (w_db w) -> custody_verify dek vault (fc_version cols) (w_db w) = Ok tt ->
           vault_v2 dek vault cols (w_db w')) /\
        forall now2 r2 w2, sweep_v1_blobs_to_v2 s now2 w' = (r2, w2) ->
          w_db w2 = {| (w_db w') with registry_state := registry_state (w_db w2) |} /\
          forall rep2, r2 = Ok rep2 -> sw_converted rep2 = 0 /\ registry_state (w_db w2) !! SWEEP_COMPLETE_KEY = Some now2)).
Proof.
  intros Hdek Hu Hv Hok Hi E. pose proof Hok as [_ Hk].
  destruct (sweep_run dek vault _ s now w r w' Hdek Hv eq_refl Hok E) as (Hs' & _ & [[Ed Er]|(a & w1 & w2 & E1 & Eb & E2 & Ea)]).
  { split; [split; [done|by rewrite Ed]|by left]. }
  destruct (swept_facts s now w a w1 w2 w' Hdek Hu Hv Hk Hi E1 Eb E2) as (Hk' & Hel & (ve & Hsw) & Hn).
  assert (vault_ok dek w') as Hok' by done. split; [done|]. right. exists a, ve.
  destruct (swept_rows _ _ _ _ _ _ Hsw) as [Rs Rt]. split_and!; try done; [apply Hsw|]. intros Hc1 Hc2.
  destruct (swept_clean _ _ _ _ _ _ Hsw Hc1 Hc2) as [Hcur Hv2]. split.
  - intros cols Ho Hm Hcu. destruct (Hv2 Ho) as (V1 & V2 & V3). pose proof (elsewhere_v2 _ _ Hel Hm) as Hm'. destruct Hcur as (_ & _ & _ & Hmeta).
    unfold vault_v2. split_and!; try done. by rewrite Hel.
  - intros now2 r2 w3 E'. assert (vault_id (w_db w') = Ok vault) as Hv' by (by rewrite Hel).
    destruct (sweep_run dek vault _ s now2 w' r2 w3 Hdek Hv' eq_refl Hok' E') as (_ & _ & [[Ed Er]|(a2 & v1 & v2 & F1 & Fb & F2 & Fa)]).
    { rewrite Ed. split; [by destruct (w_db w')|]. by destruct r2. }
    assert (exists reg, w_db v1 = {| (w_db w') with registry_state := reg |}) as [reg F1'].
    { rewrite F1. destruct (w_on_disk w'); [eexists; reflexivity|]. exists (registry_state (w_db w')). by destruct (w_db w'). }
    destruct (sweep_body_idle dek vault (epoch_of (metadata (w_db w'))) now2 v1) as (rep2 & Ei & C1 & C2 & C3); [by rewrite F1'|].
    rewrite Ei in Fb. injection Fb as <- <-. rewrite F2. cbn. rewrite F1'. split; [done|]. intros rep2' Hr2. rewrite (Fa _ Hr2).
    split; [done|]. by rewrite lookup_insert_eq.
Qed.
End Claim.

(** ** Witness *)

Module Demo.
Import CoreDemo KeyDemo EntriesDemo Totp.Demo DomainTags.Demo Custody.Demo Activation.Demo.

(** The vault of [EntriesDemo] when it held one entry in the old format, with an
    address marked as absent. *)
#[local] Instance legacy_reader : Bincode EncryptedEntry | 0 := Activation.Demo.legacy_reader.
#[local] Instance legacy_writer : BincodeSer EncryptedEntry | 0 := Activation.Demo.legacy_writer.
Definition old_row : EntryRow := Eval vm_compute in marked_row.
Definition old_world : World := Eval vm_compute in {|
  w_db := {| (w_db world0) with entries := [old_row]; registry_state := ∅ |}; w_on_disk := true; w_contents := None; w_tick := 0 |}.
Abbreviation swept_once := (sweep_v1_blobs_to_v2 demo_session "first" old_world).
Definition one_converted : V2BlobSweepReport := {| sw_scanned := 1; sw_converted := 1; sw_skipped_unreadable := 0; sw_failed := 0 |}.

Lemma old_world_ok : vault_ok demo_dek old_world /\ ids_unique (w_db old_world).
Proof.
  split; [|split_and!; vm_compute; repeat constructor; rewrite ?elem_of_nil; tauto].
  split; [|split_and!; vm_compute; repeat constructor; rewrite ?elem_of_nil; tauto].
  intros _. eexists _, _, _, None. split_and!; vm_compute; reflexivity.
Qed.

Lemma sweep_faithful_witness :
  swept_once.1 = Ok one_converted /\
  (exists ve, Forall3 (entry_swept demo_dek "7") ve [old_row] (entries (w_db swept_once.2))) /\
  registry_state (w_db (sweep_v1_blobs_to_v2 demo_session "second" swept_once.2).2) !! SWEEP_COMPLETE_KEY = Some "second"%string.
Proof.
  assert (swept_once.1 = Ok one_converted) as E by (vm_compute; reflexivity). split; [exact E|].
  assert (is_ok (sweep_v1_blobs_to_v2 demo_session "second" swept_once.2).1 = true) as E2 by (vm_compute; reflexivity).
  destruct swept_once as [r w'] eqn:Ea. cbn [fst snd] in *. destruct old_world_ok as [Hok Hi].
  destruct (sweep_faithful demo_dek "7" demo_session "first" old_world r w' eq_refl eq_refl eq_refl Hok Hi Ea)
    as (_ & [[_ Hr]|(rep & ve & Hrep & He & _ & _ & _ & _ & Hcl)]); [by rewrite E in Hr|].
  rewrite <- (Hrep _ E) in Hcl. destruct (Hcl eq_refl eq_refl) as [_ Hagain]. split; [by exists ve|].
  destruct (sweep_v1_blobs_to_v2 demo_session "second" w') as [r2 w2] eqn:Eb. cbn [fst snd] in *.
  destruct (Hagain _ _ _ Eb) as [_ Hf]. destruct r2 as [rep2|e]; [|discriminate]. by destruct (Hf rep2 eq_refl) as [_ ?].
Defined.

(** The entry reads as it did, without the address. *)
Example converted_reads :
  match (get_entry demo_session 0 1 swept_once.2).1 with
  | Ok e => (en_title e, en_username e, en_password e, en_url e) = ("t"%string, "u"%string, "p"%string, None)
  | Err _ => False
  end.
Proof. vm_compute. reflexivity. Qed.
End Demo.
