(* ===== verification/VaultLife.v ===== *)
(** * Core: the life of a vault's keys

    [healthy] is what a vault on disk satisfies between commands; [vstep] is one
    command, accepted or refused, with sidecar writes that may fail where the
    code tolerates it.  Healthy states stay healthy, and open. *)

From S2P Require Import Prelude Text ThirdParty Envelope Keyring DbWire CoreError SyncWire EpochGuard Recovery Lockout KeySlots VaultKeys.
From Stdlib Require Import ZArith Lia Strings.String Strings.Byte.
From stdpp Require Import base list option strings numbers relations.
Open Scope Z_scope.

(** Conjunctions in sight, not those inside definitions. *)
Ltac split_conj := repeat match goal with |- _ /\ _ => split end.

Section Life.
Context `{Hmac, Sha256, Aead, Argon2id, Base64}.
Context `{SerdeBytes KdfDocument, SerdeBytes WrapDocument, SerdeBytes NonceDocument}.
Context `{Bincode KdfParams, Bincode WrappedKey, Bincode LegacyWrappedKey, Bincode bytes}.
Context `{BincodeSer KdfParams, BincodeSer WrappedKey, BincodeSer bytes}.
Context `{!Sha256Laws, !AeadLaws, !Argon2idLaws, !Base64Laws}.
Context `{!SerdeBytesLaws KdfDocument, !SerdeBytesLaws WrapDocument, !SerdeBytesLaws NonceDocument}.
Context `{!FlatJson KdfDocument KDF_MAGIC_STR kd_magic kdf_strings kdf_in_range}.
Context `{!FlatJson WrapDocument WRAP_MAGIC_STR wd_magic wrap_strings (fun d => in_u32 (wd_v d))}.
Context `{!FlatJson NonceDocument NONCE_MAGIC_STR nd_magic nonce_strings (fun d => in_u32 (nd_v d))}.
Context `{!BincodeLaws WrappedKey wrapped_key_wf, !BincodeLaws bytes (fun n => length n = 12%nat)}.
Implicit Types (d : Disk) (db : VaultDb) (s : Session) (u : string) (pw rk dek : bytes).

(** ** States *)

(** The stored wrap opens to [dek] under a password. *)
Definition opens_to (pw dek : bytes) (db : VaultDb) : Prop :=
  exists params w h, decode_kdf_params (kdf_params_col db) = Ok params /\ decode_wrapped_key (wrapped_dek_col db) = Ok w /\
    unlock_vault_with_epoch pw params w (epoch_of db) new_hierarchy = (Ok tt, h) /\ kh_dek h = Some dek.

(** The registry carries its MAC, and somebody can unlock. *)
Definition registry_ok (dek : bytes) (db : VaultDb) : Prop :=
  exists key slots, derive_registry_mac_key dek = Ok key /\ load_key_slots db = Ok slots /\
    slot_registry_mac db = Some (compute_registry_mac key slots (epoch_of db)) /\ existsb is_usable (key_slots db) = true.

(** Every usable recovery slot opens under the recovery key. *)
Definition recovery_ok (u : string) (rk dek : bytes) (db : VaultDb) : Prop :=
  forall r, r ∈ key_slots db -> slot_type r = "recovery"%string -> is_usable r = true ->
    exists non, bincode_deserialize (A := bytes) (ks_dek_nonce r) = Some non /\
      unwrap_dek_via_recovery_slot (ks_wrapped_dek r) non rk u (slot_uuid r) (ks_key_epoch r) = Ok dek.

(** The sidecar records this very state, lags one rotation behind it, or is
    not there. *)
Definition anchored (u : string) (d : Disk) : Prop :=
  read_sidecar (d_sidecar d) = Some (mark u (epoch_of (d_db d)) (material_digest (d_db d))).
Definition lagging (u : string) (d : Disk) : Prop :=
  exists sc w, read_sidecar (d_sidecar d) = Some sc /\ sc_vault_uuid sc = u /\ sc_epoch sc + 1 = epoch_of (d_db d) /\
    decode_wrapped_key (wrapped_dek_col (d_db d)) = Ok w /\ epoch_bound w = true.
Definition unmarked (d : Disk) : Prop := read_sidecar (d_sidecar d) = None.

Record healthy (u : string) (dek pw rk : bytes) (d : Disk) : Prop := {
  h_uuid : vault_uuid_col (d_db d) = Some u;
  h_text : all_chars graphic u = true /\ u <> EmptyString;
  h_epoch : in_i64 (epoch_of (d_db d));
  h_opens : opens_to pw dek (d_db d);
  h_registry : registry_ok dek (d_db d);
  h_recovery : recovery_ok u rk dek (d_db d);
  h_mark : anchored u d \/ lagging u d \/ unmarked d;
}.

(** A session of this vault. *)
Definition session_of (u : string) (dek : bytes) (s : Session) : Prop :=
  kh_dek (key_hierarchy s) = Some dek /\ session_uuid s = Some u.

Lemma healthy_mark_wf u dek pw rk d :
  healthy u dek pw rk d -> mark_wf u (epoch_of (d_db d)) (material_digest (d_db d)).
Proof. intros []. split_and!; try apply h_text0; [done|]. unfold material_digest, digest_of. apply sha256_length. Qed.

(** ** The guard lets a healthy state through *)

Lemma guard_passes u dek pw rk d snap :
  healthy u dek pw rk d -> load_vault_snapshot (d_db d) = Ok snap ->
  exists v f, enforce_epoch_guard true snap (d_sidecar d) = (Ok (u, v), f) /\
    ((v = Current /\ f = d_sidecar d /\ anchored u d) \/
     (exists from, v = HealPending from (epoch_of (d_db d)) /\ f = d_sidecar d /\ lagging u d /\
        from + 1 = epoch_of (d_db d) /\ (sc_epoch <$> read_sidecar f) = Some from) \/
     (v = MintedFromAbsent (epoch_of (d_db d)) /\ anchored u {| d_db := d_db d; d_sidecar := f |})).
Proof.
  intros Hh Hs. pose proof (healthy_mark_wf _ _ _ _ _ Hh) as Hw. destruct Hh as [Hu Ht He _ _ _ Hm].
  unfold load_vault_snapshot in Hs. result_inv. subst snap. unfold enforce_epoch_guard. simpl. rewrite Hu. unfold check.
  destruct Hm as [Ha|[Hl|Hn]].
  - unfold anchored in Ha. rewrite Ha. simpl. rewrite String.eqb_refl, Z.compare_refl, String.eqb_refl. simpl. eauto 10.
  - destruct Hl as (sc & w & Hr & Hsu & Hse & Hrest). rewrite Hr, Hsu, String.eqb_refl. simpl.
    destruct (Z.compare_spec (epoch_of (d_db d)) (sc_epoch sc)); [lia..|].
    unfold i64_saturating_succ, in_i64 in *. rewrite (proj2 (Z.ltb_ge _ _)) by lia. simpl. do 2 eexists. split; [done|].
    right. left. exists (sc_epoch sc). rewrite Hr. split_and!; try done. exists sc, w. done.
  - unfold unmarked in Hn. rewrite Hn. simpl. do 2 eexists. split; [done|]. right. right. split; [done|].
    unfold anchored. simpl. by apply parse_sidecar_text.
Qed.

(** ** Opening *)

(** Databases that differ in the attempts only. *)
Definition same_keys (db db' : VaultDb) : Prop :=
  exists t, db' = {| kdf_params_col := kdf_params_col db; wrapped_dek_col := wrapped_dek_col db;
    dek_nonce_col := dek_nonce_col db; slot_registry_mac := slot_registry_mac db; vault_uuid_col := vault_uuid_col db;
    key_epoch_col := key_epoch_col db; key_slots := key_slots db; attempts := t |}.

Lemma same_keys_refl db : same_keys db db.
Proof. exists (attempts db). by destruct db. Qed.

Lemma same_keys_attempts t d : same_keys (d_db d) (d_db (with_attempts t d)).
Proof. by exists t. Qed.

(** Opening changes the attempts and the sidecar only. *)
Lemma healthy_ext u dek pw rk d d' :
  healthy u dek pw rk d -> same_keys (d_db d) (d_db d') ->
  d_sidecar d' = d_sidecar d \/ anchored u d' -> healthy u dek pw rk d'.
Proof.
  intros [Hu Ht He Ho Hr Hrec Hm] [t E] Hf. destruct d as [db f], d' as [db' f']; simpl in *; subst db'.
  constructor; simpl; try done. destruct Hf as [->|Ha]; [|by left]. exact Hm.
Qed.

(** The registry of a healthy vault verifies, and is not bootstrapped. *)
Lemma verify_healthy dek h db : kh_dek h = Some dek -> registry_ok dek db -> verify_slot_registry h db = Ok tt.
Proof.
  intros Hd (key & slots & Hk & Hl & Hm & _). unfold verify_slot_registry, hierarchy_dek, get_dek. rewrite Hd, Hm, Hl. simpl.
  rewrite Hk. simpl. by rewrite bool_decide_true.
Qed.

Lemma ensure_healthy io h snap uuid dek d :
  registry_ok dek (d_db d) ->
  ensure_or_verify_slot_registry io h snap uuid true d = (verify_slot_registry h (d_db d), d).
Proof. intros (key & slots & _ & _ & Hm & _). unfold ensure_or_verify_slot_registry. by rewrite Hm. Qed.

(** A heal of the pending transition anchors the state. *)
Lemma heal_anchors u from d :
  mark_wf u (epoch_of (d_db d)) (material_digest (d_db d)) -> from + 1 = epoch_of (d_db d) ->
  (exists sc, read_sidecar (d_sidecar d) = Some sc /\ sc_vault_uuid sc = u /\ sc_epoch sc = from) ->
  exists f, adopt_heal true u from (epoch_of (d_db d)) (material_digest (d_db d)) (d_sidecar d) = (Ok tt, f) /\
    anchored u {| d_db := d_db d; d_sidecar := f |}.
Proof.
  intros Hw Hfrom (sc & Hr & Hu & He). destruct Hw as (Hg & Hne & Hi & Hlen) eqn:E. clear E.
  unfold adopt_heal. rewrite Hr, Hu, He, String.eqb_refl, Z.eqb_refl.
  rewrite (proj2 (Z.eqb_neq from (epoch_of (d_db d)))) by lia. simpl.
  unfold i64_wrapping_succ, in_i64 in *. rewrite (proj2 (Z.ltb_lt (from + 1) _)) by lia. rewrite Hfrom, Z.eqb_refl. simpl.
  eexists. split; [done|]. unfold anchored. simpl. apply parse_sidecar_text. by split_and!.
Qed.

Lemma open_healthy u dek pw rk d now now' :
  healthy u dek pw rk d -> Vault.vault_remaining_lockout_seconds now (attempts (d_db d)) = None ->
  exists s d', open_vault now now' true true true pw d = (Ok s, d') /\ session_of u dek s /\ session_epoch s = epoch_of (d_db d) /\ same_keys (d_db d) (d_db d') /\ anchored u d' /\ attempts (d_db d') = [] /\
    healthy u dek pw rk d'.
Proof.
  intros Hh Hlock. pose proof (healthy_mark_wf _ _ _ _ _ Hh) as Hw.
  destruct (h_opens _ _ _ _ _ Hh) as (params & w & h & Hp & Hwr & Hun & Hdek).
  assert (load_vault_snapshot (d_db d) = Ok {| snap_kdf_params := params; snap_wrapped_dek := w;
    snap_key_epoch := epoch_of (d_db d); snap_vault_uuid := vault_uuid_col (d_db d); snap_digest := material_digest (d_db d);
    raw_kdf_params := kdf_params_col (d_db d); raw_wrapped_dek := wrapped_dek_col (d_db d);
    raw_dek_nonce := dek_nonce_col (d_db d) |}) as Hsnap by (unfold load_vault_snapshot; by rewrite Hp, Hwr).
  destruct (guard_passes _ _ _ _ _ _ Hh Hsnap) as (v & f & Hg & Hv).
  unfold open_vault. rewrite Hlock, Hsnap, Hg. simpl. rewrite Hun.
  enough (exists f', (match v with
      | HealPending from to => if epoch_bound w then adopt_heal true u from to (material_digest (d_db d)) f
                               else (Err (InvalidInput "vault is one epoch ahead on legacy (non-epoch-bound) key material"), f)
      | _ => (Ok tt, f) end) = (Ok tt, f') /\ anchored u {| d_db := d_db d; d_sidecar := f' |}) as (f' & -> & Ha).
  { rewrite (ensure_healthy _ _ _ _ dek) by apply Hh. rewrite (verify_healthy dek) by (done || apply Hh). simpl.
    do 2 eexists. split; [reflexivity|]. split_and!; try done; [by exists []|].
    eapply healthy_ext; [exact Hh|by exists []|by right]. }
  destruct Hv as [(-> & -> & Ha)|[(from & -> & -> & Hl & Hfrom & Hsc)|(-> & Ha)]]; [by eauto| |by eauto].
  destruct Hl as (sc & w' & Hr & Hsu & Hse & Hdw & Hb). simplify_eq. rewrite Hwr in Hdw. injection Hdw as <-. rewrite Hb.
  apply heal_anchors; [done|done|]. exists sc. split_and!; [done..|lia].
Qed.

(** A check leaves the sidecar as it was, or at this state. *)
Lemma check_file u d io r f :
  mark_wf u (epoch_of (d_db d)) (material_digest (d_db d)) ->
  check io u (epoch_of (d_db d)) (material_digest (d_db d)) (d_sidecar d) = (r, f) ->
  f = d_sidecar d \/ anchored u {| d_db := d_db d; d_sidecar := f |}.
Proof.
  intros Hw E. destruct (read_sidecar (d_sidecar d)) as [sc|] eqn:Hr.
  - eapply check_recorded in E as [-> _]; [|done]. by left.
  - apply check_absent in E as [[_ E]|[_ ->]]; [right; exact E|by left|done..].
Qed.

(** Whatever the password and whatever fails, the guard leaves the sidecar as
    it was or at this state. *)
Lemma guard_file u dek pw rk d snap io g f :
  healthy u dek pw rk d -> load_vault_snapshot (d_db d) = Ok snap ->
  enforce_epoch_guard io snap (d_sidecar d) = (g, f) ->
  (forall u' v, g = Ok (u', v) -> u' = u) /\
  (f = d_sidecar d \/ anchored u {| d_db := d_db d; d_sidecar := f |}).
Proof.
  intros Hh Hs Hg. pose proof (healthy_mark_wf _ _ _ _ _ Hh) as Hw. unfold load_vault_snapshot in Hs. result_inv. subst snap.
  unfold enforce_epoch_guard in Hg. simpl in Hg. rewrite (h_uuid _ _ _ _ _ Hh) in Hg.
  destruct (check _ _ _ _ _) as [r f0] eqn:E. injection Hg as <- <-. split.
  { intros u' v Hg. destruct r; simpl in Hg; congruence. }
  by eapply check_file.
Qed.

Lemma heal_file u d io from to r f0 f :
  mark_wf u (epoch_of (d_db d)) (material_digest (d_db d)) -> to = epoch_of (d_db d) ->
  adopt_heal io u from to (material_digest (d_db d)) f0 = (r, f) ->
  f = f0 \/ anchored u {| d_db := d_db d; d_sidecar := f |}.
Proof.
  intros Hw -> Ha. unfold adopt_heal in Ha. repeat case_hyp; try (injection Ha as <- <-; by left).
  apply write_io in Ha as [[_ E]|[_ ->]]; [right; exact E|by left|done].
Qed.

(** The pending transition ends at the epoch on disk. *)
Lemma guard_heal_to io snap f uuid from to f' :
  enforce_epoch_guard io snap f = (Ok (uuid, HealPending from to), f') -> to = snap_key_epoch snap.
Proof.
  unfold enforce_epoch_guard. destruct (snap_vault_uuid snap); [|done].
  destruct (check _ _ _ _ _) as [[v|] f0] eqn:E; [|done]. intros [= -> -> <-].
  unfold check, write in E. repeat case_hyp; naive_solver.
Qed.

Lemma open_any u dek pw rk d now now' i1 i2 i3 pw0 r d' :
  healthy u dek pw rk d -> open_vault now now' i1 i2 i3 pw0 d = (r, d') ->
  same_keys (d_db d) (d_db d') /\ (d_sidecar d' = d_sidecar d \/ anchored u d').
Proof.
  intros Hh Ho. pose proof (healthy_mark_wf _ _ _ _ _ Hh) as Hw. unfold open_vault in Ho.
  destruct (Vault.vault_remaining_lockout_seconds now (attempts (d_db d))); [injection Ho as <- <-; split; [apply same_keys_refl|by left]|].
  destruct (load_vault_snapshot (d_db d)) as [snap|] eqn:Hs; [|injection Ho as <- <-; split; [apply same_keys_refl|by left]].
  destruct (enforce_epoch_guard i1 snap (d_sidecar d)) as [g f] eqn:Hg.
  destruct (guard_file _ _ _ _ _ _ _ _ _ Hh Hs Hg) as [Hgu Hf].
  destruct g as [[uuid v]|]; [|injection Ho as <- <-; split; [apply same_keys_refl|exact Hf]].
  rewrite (Hgu _ _ eq_refl) in *. clear Hgu.
  destruct (unlock_vault_with_epoch _ _ _ _ _) as [[[]|e] h].
  2:{ injection Ho as <- <-. split; [apply (same_keys_attempts _ {| d_db := d_db d; d_sidecar := f |})|exact Hf]. }
  match type of Ho with context [let '(_, _) := ?x in _] => destruct x as [healed f'] eqn:Hheal end.
  assert (f' = d_sidecar d \/ anchored u {| d_db := d_db d; d_sidecar := f' |}) as Hf'.
  { assert (snap_digest snap = material_digest (d_db d) /\ snap_key_epoch snap = epoch_of (d_db d)) as [Ed Ee]
      by (unfold load_vault_snapshot in Hs; result_inv; by subst snap).
    destruct v as [|from to|ep]; [injection Hheal as <- <-; exact Hf| |injection Hheal as <- <-; exact Hf].
    destruct (epoch_bound _); [|injection Hheal as <- <-; exact Hf].
    apply guard_heal_to in Hg. simpl in Hheal. rewrite Ed in Hheal.
    apply heal_file in Hheal as [->|Ha]; [exact Hf|by right|done|congruence]. }
  destruct healed as [[]|e]; [|injection Ho as <- <-; split; [apply same_keys_refl|exact Hf']].
  rewrite (ensure_healthy _ _ _ _ dek) in Ho by apply Hh. injection Ho as <- <-.
  split; [apply (same_keys_attempts _ {| d_db := d_db d; d_sidecar := f' |})|exact Hf'].
Qed.

(** ** Changing the registry at a constant epoch *)

Lemma follow_healthy u s d dek pw rk :
  session_uuid s = Some u ->
  (forall f, anchored u {| d_db := d_db d; d_sidecar := f |} \/ lagging u {| d_db := d_db d; d_sidecar := f |} ->
     healthy u dek pw rk {| d_db := d_db d; d_sidecar := f |}) ->
  mark_wf u (epoch_of (d_db d)) (material_digest (d_db d)) ->
  (exists sc, read_sidecar (d_sidecar d) = Some sc /\ sc_vault_uuid sc = u /\ sc_epoch sc = epoch_of (d_db d)) \/
  lagging u d \/ unmarked d ->
  forall r d', follow_sidecar_at_constant_epoch true s d = (r, d') -> r = Ok tt /\ healthy u dek pw rk d'.
Proof.
  intros Hu Hok Hw Hm r d' Hf. unfold follow_sidecar_at_constant_epoch in Hf. rewrite Hu in Hf. unfold peek in Hf.
  assert (anchored u {| d_db := d_db d; d_sidecar := Some (sidecar_text u (epoch_of (d_db d)) (material_digest (d_db d))) |})
    as Ha by (unfold anchored; simpl; by apply parse_sidecar_text).
  destruct Hm as [(sc & Hr & Hsu & Hse)|[Hl|Hn]].
  - rewrite Hr in Hf. simpl in Hf. rewrite Hsu, Hse, String.eqb_refl, Z.eqb_refl in Hf. simpl in Hf. injection Hf as <- <-.
    split; [done|]. apply Hok. by left.
  - pose proof Hl as (sc & w & Hr & Hsu & Hse & _). rewrite Hr in Hf. simpl in Hf. rewrite Hsu, String.eqb_refl in Hf. simpl in Hf.
    rewrite (proj2 (Z.eqb_neq _ _)), (proj2 (Z.ltb_lt _ _)) in Hf by lia. injection Hf as <- <-.
    split; [done|]. destruct d. apply Hok. by right.
  - unfold unmarked in Hn. rewrite Hn in Hf. simpl in Hf. injection Hf as <- <-. split; [done|]. apply Hok. by left.
Qed.

(** A change of the registry that keeps the wrap, followed by the sidecar. *)
Definition same_wrap (db db' : VaultDb) : Prop :=
  kdf_params_col db' = kdf_params_col db /\ wrapped_dek_col db' = wrapped_dek_col db /\
  vault_uuid_col db' = vault_uuid_col db /\ key_epoch_col db' = key_epoch_col db.

Lemma registry_change_healthy u dek pw rk rk' s d db' r d' :
  healthy u dek pw rk d -> session_uuid s = Some u -> same_wrap (d_db d) db' ->
  registry_ok dek db' -> recovery_ok u rk' dek db' ->
  follow_sidecar_at_constant_epoch true s {| d_db := db'; d_sidecar := d_sidecar d |} = (r, d') ->
  r = Ok tt /\ healthy u dek pw rk' d'.
Proof.
  intros Hh Hu (Ek & Ew & Eu & Ee) Hr Hrec Hf. pose proof (healthy_mark_wf _ _ _ _ _ Hh) as (Hg & Hne & Hi & _).
  assert (epoch_of db' = epoch_of (d_db d)) as Eep by exact Ee.
  eapply follow_healthy in Hf; [exact Hf|exact Hu| | |]; simpl.
  - intros f Hm. destruct Hh as [H_u H_t H_e H_o _ _ _]. constructor; simpl; try done.
    + congruence.
    + by rewrite Eep.
    + unfold opens_to in *. by rewrite Ek, Ew, Eep.
    + tauto.
  - rewrite Eep. split_and!; try done. unfold material_digest, digest_of. apply sha256_length.
  - destruct (h_mark _ _ _ _ _ Hh) as [Ha|[(sc & w & Hl)|Hn]]; [left|right; left|by right; right].
    + exists (mark u (epoch_of (d_db d)) (material_digest (d_db d))). split_and!; [exact Ha|done|]. by rewrite Eep.
    + exists sc, w. simpl. by rewrite Eep, Ew.
Qed.

(** ** Committing a registry *)

Lemma commit_registry_ok h dek slots db db' :
  kh_dek h = Some dek -> load_key_slots db = Ok slots -> commit_slot_registry h slots db = Ok db' ->
  existsb is_usable (key_slots db) = true ->
  registry_ok dek db' /\ same_wrap db db' /\ key_slots db' = key_slots db /\ dek_nonce_col db' = dek_nonce_col db.
Proof.
  intros Hd Hl Hc Hu. unfold commit_slot_registry, hierarchy_dek, get_dek in Hc. rewrite Hd in Hc. simpl in Hc.
  result_inv. subst db'. split_and!; try done. eexists _, slots. simpl. split_and!; done.
Qed.

(** What loading keeps of a row. *)
Lemma load_rows_spec rows slots :
  load_rows rows = Ok slots ->
  Forall2 (fun r k => slot_uuid k = slot_uuid r /\ revoked_at k = revoked_at r /\ slot_type r = slot_type_str (slot_type k) /\
    ks_dek_nonce k = ks_dek_nonce r /\ ks_wrapped_dek k = ks_wrapped_dek r /\ ks_key_epoch k = ks_key_epoch r) rows slots.
Proof.
  revert slots. induction rows as [|r rows IH]; intros slots Hl; simpl in Hl; [injection Hl as <-; constructor|].
  result_inv. subst. constructor; [|by apply IH].
  match goal with E : load_slot r = Ok _ |- _ => unfold load_slot in E; result_inv; subst end. split_and!; try done.
  match goal with E : slot_type_from_db _ = Ok _ |- _ => unfold slot_type_from_db in E; repeat case_hyp; try discriminate;
    injection E as <- end; simpl; by apply String.eqb_eq.
Qed.

Lemma opens_dek_length pw dek db : opens_to pw dek db -> length dek = 32%nat.
Proof.
  intros (params & w & h & _ & _ & Hu & Hd). unfold unlock_vault_with_epoch in Hu.
  destruct (derive_master_key pw params); [|done]. destruct (unwrap_dek_under_key _ _ _) as [k|] eqn:E; [|done].
  injection Hu as <-. simpl in Hd. injection Hd as <-. unfold unwrap_dek_under_key in E. result_inv. subst. propify.
  by apply Nat.eqb_eq.
Qed.

(** A recovery wrap opens under its key and its identity. *)
Lemma recovery_wrap_roundtrip gcm_nonce dek rk u slot e w non :
  length gcm_nonce = 12%nat -> length dek = 32%nat ->
  wrap_dek_for_recovery_slot gcm_nonce dek rk u slot e = Ok (w, non) ->
  bincode_deserialize (A := bytes) non = Some gcm_nonce /\
  unwrap_dek_via_recovery_slot (bincode_serialize w) gcm_nonce rk u slot e = Ok dek.
Proof.
  intros Hn Hd Hw. unfold wrap_dek_for_recovery_slot in Hw. apply result_bind_ok in Hw as (c & Hc & Hw).
  apply ok_or_ok in Hc. injection Hw as <- <-. split; [by apply bincode_deserialize_serialize|].
  pose proof (gcm_encrypt_length _ _ _ _ _ Hc) as Hlen. unfold unwrap_dek_via_recovery_slot.
  rewrite bincode_deserialize_serialize by (split; simpl; [done|rewrite length_drop; lia]). simpl.
  rewrite bool_decide_true by done. simpl. rewrite take_drop. erewrite gcm_decrypt_encrypt by exact Hc. simpl. by rewrite Hd.
Qed.

Lemma usable_set_revoked now (r : SlotRow) : is_usable (set_revoked now r) = false.
Proof. by apply bool_decide_eq_false_2. Qed.

Lemma recovery_slot_healthy u dek pw rk rk' s d now gcm_nonce fresh r d' :
  healthy u dek pw rk d -> session_of u dek s -> length gcm_nonce = 12%nat ->
  create_recovery_slot now true gcm_nonce fresh rk' s d = (r, d') ->
  (exists e, r = Err e /\ d' = d) \/ (r = Ok tt /\ healthy u dek pw rk' d').
Proof.
  intros Hh [Hd Hu] Hn Hc. unfold create_recovery_slot, hierarchy_dek, get_dek in Hc. rewrite Hd in Hc. simpl in Hc.
  destruct (recovery_tx _ _ _ _ _ _ _) as [db'|e] eqn:Htx; [right|left; injection Hc as <- <-; eauto].
  pose proof (opens_dek_length _ _ _ (h_opens _ _ _ _ _ Hh)) as Hlen.
  unfold recovery_tx in Htx. rewrite (h_uuid _ _ _ _ _ Hh) in Htx. simpl in Htx.
  apply result_bind_ok in Htx as (_ & _ & Htx). apply result_bind_ok in Htx as ([w nb] & Hw & Htx).
  apply result_bind_ok in Htx as (db1 & Hi & Htx). apply result_bind_ok in Htx as (slots & Hl & Htx).
  unfold insert_slot in Hi. apply result_bind_ok in Hi as (_ & _ & Hi). injection Hi as Hi.
  assert (existsb is_usable (key_slots db1) = true) as Hus.
  { subst db1. simpl. rewrite existsb_app. simpl. by rewrite orb_true_r. }
  destruct (commit_registry_ok _ dek _ _ _ Hd Hl Htx Hus) as (Hreg & Hsw & Hks & _).
  eapply (registry_change_healthy u dek pw rk rk' s d db'); try done.
  - destruct Hsw as (?&?&?&?). subst db1. simpl in *. split_and!; congruence.
  - intros r0 Hr0 Ht Huse. rewrite Hks in Hr0. subst db1. simpl in Hr0. apply elem_of_app in Hr0 as [Hr0|Hr0].
    + apply list_elem_of_fmap in Hr0 as (r1 & -> & _). destruct (_ && is_usable r1) eqn:E.
      * by rewrite usable_set_revoked in Huse.
      * rewrite Ht, Huse in E. done.
    + apply list_elem_of_singleton in Hr0 as ->. simpl. exists gcm_nonce. by apply recovery_wrap_roundtrip.
Qed.

Lemma revoke_healthy u dek pw rk s d now target r d' :
  healthy u dek pw rk d -> session_of u dek s ->
  revoke_key_slot now true target s d = (r, d') ->
  (exists e, r = Err e /\ d' = d) \/ (r = Ok tt /\ healthy u dek pw rk d').
Proof.
  intros Hh [Hd Hu] Hc. unfold revoke_key_slot in Hc.
  destruct (revoke_in_tx _ _ _ _) as [[b db']|e] eqn:Htx; [right|left; injection Hc as <- <-; eauto].
  enough (same_wrap (d_db d) db' /\ registry_ok dek db' /\ recovery_ok u rk dek db') as (?&?&?)
    by (by eapply (registry_change_healthy u dek pw rk rk s d db')).
  unfold revoke_in_tx in Htx. apply result_bind_ok in Htx as (_ & _ & Htx).
  apply result_bind_ok in Htx as (slots & Hl & Htx). apply result_bind_ok in Htx as (t & Hf & Htx).
  destruct (negb (is_usable t)) eqn:Eu.
  { injection Htx as <- <-. split_and!; [done|apply Hh..]. }
  apply result_bind_ok in Htx as (_ & Hleft%err_if_ok & Htx). apply result_bind_ok in Htx as (fresh & Hl' & Htx).
  apply result_bind_ok in Htx as (db1 & Hcom & Htx). injection Htx as _ <-.
  eapply (commit_registry_ok _ dek) in Hcom as (Hreg & Hsw & Hks & _); [|done..|].
  - split_and!; [exact Hsw|exact Hreg|]. intros r0 Hr0 Ht Hus. rewrite Hks in Hr0. simpl in Hr0.
    apply list_elem_of_fmap in Hr0 as (r1 & -> & Hr1). destruct (String.eqb _ _); [by rewrite usable_set_revoked in Hus|].
    by apply (h_recovery _ _ _ _ _ Hh).
  - destruct (List.filter _ slots) as [|k l] eqn:Efil; [done|].
    assert (In k (k :: l)) as Hin by (by left). rewrite <- Efil in Hin. apply filter_In in Hin as [Hin Hk].
    apply andb_true_iff in Hk as [Hk1 Hk2]. apply negb_true_iff in Hk2.
    apply load_rows_spec in Hl. apply list_elem_of_In, list_elem_of_lookup in Hin as [i Hi].
    eapply Forall2_lookup_r in Hl as (r1 & Hr1%list_elem_of_lookup_2 & Eid & Erev & _); [|done].
    apply existsb_exists. exists r1. split.
    + apply list_elem_of_In, list_elem_of_fmap. exists r1. split; [|done]. by rewrite <- Eid, Hk2.
    + unfold is_usable in *. by rewrite <- Erev.
Qed.

(** ** A new wrap at the next epoch *)

Lemma wrap_shape gcm_nonce mk dek aad b w :
  wrap_dek_under_key gcm_nonce mk dek aad b = Ok w ->
  nonce w = gcm_nonce /\ length (auth_tag w) = 16%nat /\ length (wrapped_dek w) = length dek /\ epoch_bound w = b.
Proof.
  unfold wrap_dek_under_key. intros Hw. apply result_bind_ok in Hw as (c & Hc%ok_or_ok & Hw).
  apply gcm_encrypt_length in Hc. result_inv. subst w. simpl. rewrite length_drop, length_take. split_and!; try done; lia.
Qed.

(** A staged wrap: well shaped, bound to the epoch, and it opens to the key. *)
Definition staged_ok (dek new_password : bytes) (epoch : Z) (st : Staged) : Prop :=
  st_key_epoch st = epoch /\ st_new_epoch st = epoch + 1 /\ in_i64 (epoch + 1) /\ kdf_params_wf (st_params st) /\
  wrapped_key_wf (st_wrapped st) /\ Z.of_nat (length (wrapped_dek (st_wrapped st))) <= MAX_WRAPPED_DEK_BYTES /\
  epoch_bound (st_wrapped st) = true /\
  exists h, unlock_vault_with_epoch new_password (st_params st) (st_wrapped st) (epoch + 1) new_hierarchy = (Ok tt, h) /\
    kh_dek h = Some dek.

Lemma kdf_default_wf fresh_salt : length fresh_salt = 16%nat -> kdf_params_wf (kdf_default fresh_salt).
Proof. intros Hs. split; [done|]. unfold in_u32. simpl. lia. Qed.

Lemma checked_succ e e' : in_i64 e -> i64_checked_succ e = Some e' -> e' = e + 1 /\ in_i64 (e + 1).
Proof. unfold i64_checked_succ, in_i64. intros He. case_goal; [|done]. propify. intros [= <-]. lia. Qed.

Lemma rotate_stage_ok u dek pw rk s d now now' fresh_salt gcm_nonce cur new st d' :
  healthy u dek pw rk d -> session_of u dek s -> length fresh_salt = 16%nat -> length gcm_nonce = 12%nat ->
  rotate_stage now now' fresh_salt gcm_nonce cur new s d = (Ok st, d') ->
  d' = d /\ staged_ok dek new (epoch_of (d_db d)) st.
Proof.
  intros Hh [Hd Hu] Hs Hn Hr. pose proof (opens_dek_length _ _ _ (h_opens _ _ _ _ _ Hh)) as Hlen. unfold rotate_stage in Hr.
  do 2 (destruct (_ : bool); [done|]). destruct (Vault.vault_remaining_lockout_seconds _ _); [done|].
  destruct (load_vault_metadata (d_db d)) as [[[params w] e]|] eqn:Hl; [|done].
  assert (e = epoch_of (d_db d)) as -> by (unfold load_vault_metadata in Hl; by result_inv; simplify_eq).
  destruct (i64_checked_succ _) as [e'|] eqn:He; [|done]. apply checked_succ in He as [-> Hi]; [|apply Hh].
  destruct (rotate_master_password _ _ _ _ _ _ _ _) as [[[p' w'] mk]|er] eqn:Hrot; [|by destruct er].
  injection Hr as <- <-. split; [done|]. pose proof (rotation_facts _ _ _ _ _ _ _ _ _ _ _ new_hierarchy Hrot)
    as (dek' & mk0 & Hdk & _ & _ & _ & Hb & h3 & Hun & Hk & _).
  rewrite Hd in Hdk. injection Hdk as <-.
  assert (p' = kdf_default fresh_salt /\ nonce w' = gcm_nonce /\ length (auth_tag w') = 16%nat /\ length (wrapped_dek w') = 32%nat)
    as (-> & Hno & Hta & Hwl).
  { unfold rotate_master_password, get_dek in Hrot. rewrite Hd in Hrot. result_inv. simplify_eq.
    match goal with E : wrap_dek_under_key _ _ _ _ _ = Ok _ |- _ => apply wrap_shape in E as (?&?&?&_) end.
    split_and!; try done; congruence. }
  unfold staged_ok, MAX_WRAPPED_DEK_BYTES. simpl. split_conj; try done.
  - split; congruence.
  - lia.
  - eauto.
Qed.

Lemma recover_stage_ok fresh_salt gcm_nonce dek new e st :
  in_i64 e -> length dek = 32%nat -> length fresh_salt = 16%nat -> length gcm_nonce = 12%nat ->
  recover_stage fresh_salt gcm_nonce dek new e = Ok st -> staged_ok dek new e st.
Proof.
  intros He Hlen Hs Hn Hr. unfold recover_stage in Hr. apply result_bind_ok in Hr as (e' & Hc%ok_or_ok & Hr).
  apply checked_succ in Hc as [-> Hi]; [|done]. apply result_bind_ok in Hr as (mk & Hmk%map_err_ok & Hr).
  apply result_bind_ok in Hr as (w & Hw%map_err_ok & Hr). apply result_bind_ok in Hr as (v & Hv%map_err_ok & Hr).
  apply result_bind_ok in Hr as (_ & Hd%err_if_ok & Hr). injection Hr as <-. propify. subst v.
  apply wrap_shape in Hw as (Hno & Hta & Hwl & Hb). unfold staged_ok, MAX_WRAPPED_DEK_BYTES. simpl. split_conj; try done.
  - split; congruence.
  - lia.
  - unfold unlock_vault_with_epoch, wrap_aad. rewrite Hmk, Hb, Hv. eauto.
Qed.

(** The columns a rotation and a recovery write. *)
Definition rewrapped (st : Staged) (db : VaultDb) : Prop :=
  kdf_params_col db = to_vec (kdf_document (st_params st)) /\
  wrapped_dek_col db = to_vec (wrap_document (st_wrapped st)) /\ key_epoch_col db = st_new_epoch st.

Lemma rewrapped_healthy u dek pw rk rk' new d st db' f :
  healthy u dek pw rk d -> staged_ok dek new (epoch_of (d_db d)) st -> rewrapped st db' ->
  vault_uuid_col db' = vault_uuid_col (d_db d) -> registry_ok dek db' -> recovery_ok u rk' dek db' ->
  anchored u {| d_db := db'; d_sidecar := f |} \/
  (exists sc, read_sidecar f = Some sc /\ sc_vault_uuid sc = u /\ sc_epoch sc = epoch_of (d_db d)) ->
  healthy u dek new rk' {| d_db := db'; d_sidecar := f |}.
Proof.
  intros Hh (Hk & Hn & Hi & Hp & Hw & Hl & Hb & h & Hun & Hdek) (Ek & Ew & Ee) Eu Hr Hrec Hm.
  assert (epoch_of db' = epoch_of (d_db d) + 1) as Eep by (unfold epoch_of in *; congruence).
  assert (decode_wrapped_key (wrapped_dek_col db') = Ok (st_wrapped st)) as Hdw by (rewrite Ew; by apply wrapped_key_roundtrip).
  constructor; simpl; try done.
  - rewrite Eu. apply Hh.
  - apply Hh.
  - by rewrite Eep.
  - exists (st_params st), (st_wrapped st), h. rewrite Eep. split_and!; try done. rewrite Ek. by apply kdf_params_roundtrip.
  - destruct Hm as [Ha|(sc & Hrd & Hu & Hse)]; [by left|]. right. left. exists sc, (st_wrapped st). simpl.
    rewrite Eep. split_and!; try done. lia.
Qed.

(** The sidecar after a bump: at the new state, or where it was. *)
Lemma bump_marks u d io e digest r f :
  (anchored u d \/ lagging u d \/ unmarked d) -> epoch_of (d_db d) <= e -> mark_wf u e digest ->
  bump io u e digest (d_sidecar d) = (r, f) ->
  (r = Ok tt /\ read_sidecar f = Some (mark u e digest)) \/ (io = false /\ f = d_sidecar d).
Proof.
  intros Hm He Hw Hb. unfold bump in Hb.
  assert (bump io u e digest (d_sidecar d) = write io u e digest (d_sidecar d)) as E.
  { unfold bump. destruct Hm as [Ha|[(sc & w & Hr & Hu & Hs & _)|Hn]].
    - rewrite Ha. simpl. rewrite String.eqb_refl. simpl. by rewrite (proj2 (Z.ltb_ge _ _)).
    - rewrite Hr, Hu, String.eqb_refl. simpl. by rewrite (proj2 (Z.ltb_ge _ _)) by lia.
    - by rewrite Hn. }
  fold (bump io u e digest (d_sidecar d)) in Hb. rewrite E in Hb. destruct io; [left|right; by injection Hb as <- <-].
  injection Hb as <- <-. split; [done|]. simpl. by apply parse_sidecar_text.
Qed.

Lemma update_usable kdf w n e (rows : list SlotRow) :
  existsb is_usable (update_password_row kdf w n e <$> rows) = existsb is_usable rows.
Proof.
  induction rows as [|r rows IH]; [done|]. cbn [fmap list_fmap existsb]. f_equal; [|exact IH].
  unfold update_password_row. by destruct (_ && _).
Qed.

Lemma rotate_healthy u dek pw rk s d now now' io fresh_salt gcm_nonce cur new r s' d' :
  healthy u dek pw rk d -> session_of u dek s -> length fresh_salt = 16%nat -> length gcm_nonce = 12%nat ->
  io = true \/ anchored u d ->
  change_master_password now now' io fresh_salt gcm_nonce cur new s d = (r, s', d') ->
  session_of u dek s' /\
  ((exists e, r = Err e) /\ healthy u dek pw rk d' \/ r = Ok (epoch_of (d_db d) + 1) /\ healthy u dek new rk d').
Proof.
  intros Hh Hsess Hs Hn Hio Hc. unfold change_master_password in Hc.
  destruct (rotate_stage _ _ _ _ _ _ _ _) as [[st|e] d1] eqn:Hst.
  2:{ injection Hc as <- <- <-. split; [done|]. left. split; [eauto|]. unfold rotate_stage in Hst.
      repeat case_hyp; try discriminate; injection Hst as _ <-; first
      [exact Hh | eapply healthy_ext; [exact Hh|apply same_keys_attempts|by left]]. }
  eapply rotate_stage_ok in Hst as [-> Hok]; [|done..]. pose proof Hok as (Ekey & Enew & Hi & _).
  unfold rotate_commit in Hc. destruct (rotate_tx _ _ _ _) as [db'|e] eqn:Htx; [|injection Hc as <- <- <-; split; [done|left; eauto]].
  destruct Hsess as [Hd Hu]. simpl in Hc. rewrite Hu in Hc. injection Hc as <- <- <-.
  split; [by split|]. right. split; [by rewrite Ekey|].
  unfold rotate_tx in Htx. simpl in Htx. apply result_bind_ok in Htx as (_ & _ & Htx).
  apply result_bind_ok in Htx as (_ & _ & Htx). apply result_bind_ok in Htx as (slots & Hl & Htx). simpl in Hl.
  eapply (commit_registry_ok _ dek) in Htx as (Hreg & (E1 & E2 & E3 & E4) & Hks & _); [| |exact Hl|].
  2:{ exact Hd. }
  2:{ simpl. rewrite update_usable. destruct (h_registry _ _ _ _ _ Hh) as (?&?&_&_&_&Hus). exact Hus. }
  simpl in *. destruct (bump io u _ _ _) as [rb f] eqn:Hb. simpl.
  eapply rewrapped_healthy; try done.
  - intros r0 Hr0 Ht Hus. rewrite Hks in Hr0. apply list_elem_of_fmap in Hr0 as (r1 & -> & Hr1).
    assert (update_password_row (bincode_serialize (st_params st)) (bincode_serialize (st_wrapped st))
      (bincode_serialize (nonce (st_wrapped st))) (st_new_epoch st) r1 = r1) as E.
    { unfold update_password_row in *. destruct (String.eqb (slot_type r1) "password") eqn:Ep; [|done].
      apply String.eqb_eq in Ep. simpl in Ht. destruct (bool_decide _); simpl in Ht; congruence. }
    rewrite E in *. by apply (h_recovery _ _ _ _ _ Hh).
  - apply bump_marks in Hb as [[-> Hrd]|[-> ->]].
    + left. unfold anchored. simpl. rewrite Hrd. unfold epoch_of. by rewrite E4.
    + right. destruct Hio as [?|Ha]; [done|]. eexists. split; [exact Ha|done].
    + apply Hh.
    + rewrite Enew. lia.
    + split_and!; [apply Hh..|by rewrite Enew|]. unfold material_digest, digest_of. apply sha256_length.
Qed.

(** ** Recovery *)

Lemma newest_elem slots k :
  newest slots = Some k -> k ∈ slots /\ slot_type k = SRecovery /\ is_usable k = true.
Proof.
  unfold newest. set (l := List.filter _ slots).
  assert (forall k, k ∈ l -> k ∈ slots /\ slot_type k = SRecovery /\ is_usable k = true) as Hl.
  { intros k0 Hk. apply list_elem_of_In, filter_In in Hk as [Hk He]. apply list_elem_of_In in Hk. by propify. }
  assert (forall l0 best, foldl (fun best (s : KeySlot) => match best with
      | Some b => if created_at b <? created_at s then Some s else best | None => Some s end) best l0 = Some k ->
    k ∈ l0 \/ best = Some k) as Hf.
  { induction l0 as [|x l0 IH]; simpl; [by right|]. intros best E. apply IH in E as [E|E]; [left; by constructor|].
    destruct best as [b|]; [case_hyp|]; simplify_eq; auto; left; constructor. }
  intros E. apply Hf in E as [E|E]; [|done]. by apply Hl.
Qed.

(** The slot that recovery picks opens to the vault's key. *)
Lemma recovery_slot_opens u dek pw rk d slots k :
  healthy u dek pw rk d -> load_key_slots (d_db d) = Ok slots -> newest slots = Some k ->
  exists non, bincode_deserialize (A := bytes) (ks_dek_nonce k) = Some non /\
    unwrap_dek_via_recovery_slot (ks_wrapped_dek k) non rk u (slot_uuid k) (ks_key_epoch k) = Ok dek.
Proof.
  intros Hh Hl Hk. apply newest_elem in Hk as (Hk & Hkt & Hku). apply list_elem_of_lookup in Hk as [i Hi].
  apply load_rows_spec in Hl.
  eapply Forall2_lookup_r in Hl as (r & Hr%list_elem_of_lookup_2 & Eid & Erev & Ety & En & Ew & Ek); [|exact Hi].
  destruct (h_recovery _ _ _ _ _ Hh r) as (non & Hno & Hun); [done|by rewrite Ety, Hkt|unfold is_usable in *; by rewrite <- Erev|].
  exists non. rewrite En, Ew, Eid, Ek. done.
Qed.

Lemma recovery_unwraps u dek pw rk d slots k non dek' :
  healthy u dek pw rk d -> load_key_slots (d_db d) = Ok slots -> newest slots = Some k ->
  bincode_deserialize (A := bytes) (ks_dek_nonce k) = Some non ->
  unwrap_dek_via_recovery_slot (ks_wrapped_dek k) non rk u (slot_uuid k) (ks_key_epoch k) = Ok dek' -> dek' = dek.
Proof.
  intros Hh Hl Hk Hno Hd. destruct (recovery_slot_opens _ _ _ _ _ _ _ Hh Hl Hk) as (non' & Hno' & Hun). congruence.
Qed.

Lemma recover_tx_spec now fresh h dek st db db' :
  kh_dek h = Some dek -> recover_tx now fresh h st db = Ok db' ->
  registry_ok dek db' /\ rewrapped st db' /\ vault_uuid_col db' = vault_uuid_col db /\
  (forall r, r ∈ key_slots db' -> is_usable r = true -> slot_type r = "password"%string).
Proof.
  intros Hd Htx. unfold recover_tx in Htx. apply result_bind_ok in Htx as (_ & _ & Htx). simpl in Htx.
  apply result_bind_ok in Htx as (db2 & Hins & Htx). unfold insert_slot in Hins. apply result_bind_ok in Hins as (_ & _ & Hins).
  injection Hins as Hins. apply result_bind_ok in Htx as (_ & _ & Htx). apply result_bind_ok in Htx as (slots2 & Hl2 & Htx).
  eapply (commit_registry_ok _ dek) in Htx as (Hreg & (E1 & E2 & E3 & E4) & Hks & _); [|done|exact Hl2|].
  2:{ subst db2. simpl. rewrite existsb_app. simpl. by rewrite orb_true_r. }
  simpl in *. split_and!; [done|done| |].
  - subst db2. simpl in *. congruence.
  - intros r Hr Hus. rewrite Hks in Hr. subst db2. simpl in Hr. apply elem_of_app in Hr as [Hr|Hr].
    + apply list_elem_of_fmap in Hr as (r2 & -> & _). destruct (is_usable r2) eqn:E; [|congruence].
      by rewrite usable_set_revoked in Hus.
    + by apply list_elem_of_singleton in Hr as ->.
Qed.

Lemma recover_healthy u dek pw rk rk' d now io_check io fresh_salt gcm_nonce fresh new r d' :
  healthy u dek pw rk d -> length fresh_salt = 16%nat -> length gcm_nonce = 12%nat -> io = true \/ anchored u d ->
  recover_access now io_check io fresh_salt gcm_nonce fresh rk new d = (r, d') ->
  (exists e, r = Err e) /\ healthy u dek pw rk d' \/ r = Ok tt /\ healthy u dek new rk' d'.
Proof.
  intros Hh Hs Hn Hio Hc. pose proof (healthy_mark_wf _ _ _ _ _ Hh) as Hw.
  pose proof (opens_dek_length _ _ _ (h_opens _ _ _ _ _ Hh)) as Hlen. unfold recover_access in Hc.
  destruct (_ <? _)%nat; [injection Hc as <- <-; left; eauto|].
  destruct (load_vault_snapshot (d_db d)) as [snap|] eqn:Hsn; simpl in Hc; [|injection Hc as <- <-; left; eauto].
  assert (snap_vault_uuid snap = Some u /\ snap_key_epoch snap = epoch_of (d_db d) /\ snap_digest snap = material_digest (d_db d))
    as (Eu & Ee & Ed).
  { unfold load_vault_snapshot in Hsn. result_inv. subst snap. simpl. rewrite (h_uuid _ _ _ _ _ Hh). done. }
  rewrite Eu in Hc. simpl in Hc. rewrite Ee, Ed in Hc. destruct (check _ _ _ _ _) as [g f] eqn:Hg.
  apply check_file in Hg as Hf; [|done].
  set (d1 := {| d_db := d_db d; d_sidecar := f |}) in *.
  assert (healthy u dek pw rk d1) as Hh1 by (eapply healthy_ext; [exact Hh|apply same_keys_refl|exact Hf]).
  assert (io = true \/ anchored u d1) as Hio1.
  { destruct Hio as [?|Ha]; [by left|]. right. destruct Hf as [->|?]; done. }
  simpl in Hc. match type of Hc with (match ?x with _ => _ end) = _ => destruct x as [[st db']|e] eqn:Htx end;
    [|injection Hc as <- <-; left; split; [eauto|exact Hh1]].
  injection Hc as <- <-. right. split; [done|].
  apply result_bind_ok in Htx as (_ & _ & Htx). apply result_bind_ok in Htx as (slots & Hl & Htx).
  apply result_bind_ok in Htx as (k & Hk%ok_or_ok & Htx). apply result_bind_ok in Htx as (non & Hno%ok_or_ok & Htx).
  apply result_bind_ok in Htx as (dek' & Hdek'%map_err_ok & Htx). apply result_bind_ok in Htx as (st' & Hst & Htx).
  apply result_bind_ok in Htx as (_ & _ & Htx). apply result_bind_ok in Htx as (db1 & Htx & E). injection E as -> ->.
  assert (dek' = dek) as -> by (by eapply recovery_unwraps).
  apply recover_stage_ok in Hst; [|apply Hh|done..]. pose proof Hst as (Ekey & Enew & Hi64 & _).
  eapply (recover_tx_spec _ _ _ dek) in Htx as (Hreg & Hre & Eu' & Hpw); [|done].
  destruct (bump io u _ _ _) as [rb fb] eqn:Hb. simpl in *. pose proof Hre as (_ & _ & E4).
  eapply rewrapped_healthy; try done.
  - intros r0 Hr0 Ht Hus. rewrite (Hpw r0 Hr0 Hus) in Ht. done.
  - apply (bump_marks u d1) in Hb as [[-> Hrd]|[-> ->]].
    + left. unfold anchored. simpl. rewrite Hrd. unfold epoch_of. by rewrite E4.
    + right. destruct Hio1 as [?|Ha]; [done|]. eexists. split; [exact Ha|done].
    + apply Hh1.
    + rewrite Enew. simpl. lia.
    + split_and!; [apply Hh..|by rewrite Enew|]. unfold material_digest, digest_of. apply sha256_length.
Qed.

(** ** Creation *)

Lemma create_healthy now fresh_salt dek gcm_nonce u slot io pw f s d rk :
  length fresh_salt = 16%nat -> length dek = 32%nat -> length gcm_nonce = 12%nat ->
  all_chars graphic u = true -> u <> EmptyString -> io = true \/ read_sidecar f = None ->
  create_vault now fresh_salt dek gcm_nonce u slot io pw f = Ok (s, d) ->
  session_of u dek s /\ healthy u dek pw rk d.
Proof.
  intros Hs Hd Hn Hg Hne Hio Hc. unfold create_vault in Hc.
  destruct (initialize_vault _ _ _ _ _) as [[[params w]|e] h] eqn:Hi; [|done].
  pose proof (initialize_facts _ _ _ _ _ _ _ _ new_hierarchy Hd Hi) as (Hdek & h3 & Hun & Hk3 & _).
  assert (params = kdf_default fresh_salt /\ nonce w = gcm_nonce /\ length (auth_tag w) = 16%nat /\
    length (wrapped_dek w) = 32%nat /\ epoch_bound w = false) as (-> & Hno & Hta & Hwl & Hb).
  { unfold initialize_vault in Hi. destruct (derive_master_key _ _); [|done]. unfold wrap_dek in Hi. simpl in Hi.
    destruct (wrap_dek_under_key _ _ _ _ _) as [w0|] eqn:E; [|done]. injection Hi as <- <- <-.
    apply wrap_shape in E as (?&?&?&?). split_and!; try done; congruence. }
  cbn [map_err mbind result_bind encode_metadata_blobs encode_kdf_params encode_wrapped_key encode_dek_nonce] in Hc.
  apply result_bind_ok in Hc as (db0 & Hens & Hc). cbn in Hens. injection Hens as <-.
  apply result_bind_ok in Hc as (slots & Hl & Hc). apply result_bind_ok in Hc as (db & Hcom & Hc).
  eapply (commit_registry_ok _ dek) in Hcom as (Hreg & (E1 & E2 & E3 & E4) & Hks & _); [|done|exact Hl|done].
  destruct (rebase _ _ _ _ _) as [rr f'] eqn:Hrb. simpl in *. injection Hc as <- <-.
  split; [by split|]. constructor; simpl; try done.
  - unfold epoch_of, in_i64. rewrite E4. lia.
  - exists (kdf_default fresh_salt), w, h3. unfold epoch_of. rewrite E1, E2, E4. split_and!; try done.
    + by apply kdf_params_roundtrip, kdf_default_wf.
    + apply wrapped_key_roundtrip; [split; congruence|unfold MAX_WRAPPED_DEK_BYTES; lia].
    + unfold unlock_vault_with_epoch, wrap_aad. rewrite Hb. exact Hun.
  - intros r Hr Ht. rewrite Hks in Hr. by apply list_elem_of_singleton in Hr as ->.
  - unfold rebase, write in Hrb. destruct io; injection Hrb as <- <-; simpl.
    + left. unfold anchored, epoch_of. simpl. rewrite E4. apply parse_sidecar_text. split_and!; try done.
      unfold material_digest, digest_of. apply sha256_length.
    + right. right. by destruct Hio.
Qed.

(** ** Lives *)

Inductive vstep (u : string) (dek : bytes) : bytes * bytes * Disk -> bytes * bytes * Disk -> Prop :=
| step_open pw rk d now now' i1 i2 i3 tried r d' :
    open_vault now now' i1 i2 i3 tried d = (r, d') -> vstep u dek (pw, rk, d) (pw, rk, d')
| step_rotate pw rk d s now now' io fresh_salt gcm_nonce cur new r s' d' :
    session_of u dek s -> length fresh_salt = 16%nat -> length gcm_nonce = 12%nat -> io = true \/ anchored u d ->
    change_master_password now now' io fresh_salt gcm_nonce cur new s d = (r, s', d') ->
    vstep u dek (pw, rk, d) (if is_ok r then new else pw, rk, d')
| step_recovery_slot pw rk d s now gcm_nonce fresh rk' r d' :
    session_of u dek s -> length gcm_nonce = 12%nat ->
    create_recovery_slot now true gcm_nonce fresh rk' s d = (r, d') ->
    vstep u dek (pw, rk, d) (pw, if is_ok r then rk' else rk, d')
| step_revoke pw rk d s now target r d' :
    session_of u dek s -> (forall q, q ∈ key_slots (d_db d) -> slot_uuid q = target -> is_usable q = true -> slot_type q <> "password"%string) ->
    revoke_key_slot now true target s d = (r, d') -> vstep u dek (pw, rk, d) (pw, rk, d')
| step_recover pw rk d now io_check io fresh_salt gcm_nonce fresh new r d' :
    length fresh_salt = 16%nat -> length gcm_nonce = 12%nat -> io = true \/ anchored u d ->
    recover_access now io_check io fresh_salt gcm_nonce fresh rk new d = (r, d') ->
    vstep u dek (pw, rk, d) (if is_ok r then new else pw, rk, d').

Lemma vstep_healthy u dek pw rk d pw' rk' d' :
  vstep u dek (pw, rk, d) (pw', rk', d') -> healthy u dek pw rk d -> healthy u dek pw' rk' d'.
Proof.
  inversion 1; subst; intros Hh.
  - match goal with X : open_vault _ _ _ _ _ _ _ = _ |- _ => rename X into Hx end.
    eapply open_any in Hx as [? ?]; [|done]. by eapply healthy_ext.
  - match goal with X : change_master_password _ _ _ _ _ _ _ _ _ = _ |- _ => rename X into Hx end.
    eapply rotate_healthy in Hx as [_ Hx]; [|done..]. by destruct Hx as [[[e ->] ?]|[-> ?]].
  - match goal with X : create_recovery_slot _ _ _ _ _ _ _ = _ |- _ => rename X into Hx end.
    eapply recovery_slot_healthy in Hx; [|done..]. by destruct Hx as [[e [-> ->]]|[-> ?]].
  - match goal with X : revoke_key_slot _ _ _ _ _ = _ |- _ => rename X into Hx end.
    eapply revoke_healthy in Hx; [|done..]. by destruct Hx as [[e [-> ->]]|[-> ?]].
  - match goal with X : recover_access _ _ _ _ _ _ _ _ _ = _ |- _ => rename X into Hx end.
    eapply recover_healthy in Hx; [|done..]. by destruct Hx as [[[e ->] ?]|[-> ?]].
Qed.

(** The password keeps a slot that is not revoked. *)
Definition password_slot (rows : list SlotRow) : Prop := exists q, q ∈ rows /\ slot_type q = "password"%string /\ is_usable q = true.

Lemma password_slot_map (g : SlotRow -> SlotRow) rows :
  (forall q, q ∈ rows -> slot_type q = "password"%string -> is_usable q = true -> slot_type (g q) = "password"%string /\ is_usable (g q) = true) ->
  password_slot rows -> password_slot (g <$> rows).
Proof.
  intros Hg (q & Hq & Ht & Hu). destruct (Hg q Hq Ht Hu). exists (g q). split; [|done]. apply list_elem_of_fmap. by exists q.
Qed.
Lemma password_slot_app a b : password_slot a \/ password_slot b -> password_slot (a ++ b).
Proof. intros [(q & Hq & E)|(q & Hq & E)]; exists q; (split; [apply elem_of_app; auto|done]). Qed.
Lemma committed_slots h slots db db' : commit_slot_registry h slots db = Ok db' -> key_slots db' = key_slots db.
Proof. unfold commit_slot_registry. intros E. result_inv. by subst. Qed.
Lemma follow_keeps_db io s d r d' : follow_sidecar_at_constant_epoch io s d = (r, d') -> d_db d' = d_db d.
Proof. unfold follow_sidecar_at_constant_epoch. intros E. repeat case_hyp; simplify_eq; done. Qed.

Lemma rotate_keeps_slot now now' io fresh_salt gcm_nonce cur new s d r s' d' :
  change_master_password now now' io fresh_salt gcm_nonce cur new s d = (r, s', d') ->
  password_slot (key_slots (d_db d)) -> password_slot (key_slots (d_db d')).
Proof.
  unfold change_master_password. intros E Hp. destruct (rotate_stage _ _ _ _ _ _ _ _) as [st d1] eqn:Hst.
  assert (key_slots (d_db d1) = key_slots (d_db d)) as Ek by (unfold rotate_stage in Hst; repeat case_hyp; simplify_eq; done).
  rewrite <- Ek in Hp. destruct st as [st|e]; [|by injection E as <- <- <-]. unfold rotate_commit in E.
  destruct (rotate_tx _ _ _ _) as [db|e] eqn:Htx; [|by injection E as <- <- <-]. injection E as <- <- <-. cbn.
  unfold rotate_tx, sync_password_slot_after_material_change in Htx. apply result_bind_ok in Htx as ([[k b] n] & _ & Htx).
  do 2 apply result_bind_ok in Htx as (_ & _ & Htx). apply result_bind_ok in Htx as (db1 & [= <-] & Htx).
  apply result_bind_ok in Htx as (slots & _ & Htx). rewrite (committed_slots _ _ _ _ Htx). cbn. apply password_slot_map; [|done].
  intros q _ Ht Hu. unfold update_password_row. destruct (_ && _); by split.
Qed.
Lemma recovery_keeps_slot now io gcm_nonce fresh rk s d r d' :
  create_recovery_slot now io gcm_nonce fresh rk s d = (r, d') ->
  password_slot (key_slots (d_db d)) -> password_slot (key_slots (d_db d')).
Proof.
  unfold create_recovery_slot. intros E Hp. destruct (dek ← hierarchy_dek _; _) as [db|e] eqn:Htx in E; [|by injection E as <- <-].
  apply follow_keeps_db in E. rewrite E. cbn. clear E. apply result_bind_ok in Htx as (dek & _ & Htx). unfold recovery_tx in Htx.
  apply result_bind_ok in Htx as (_ & _ & Htx). apply result_bind_ok in Htx as ([w nb] & _ & Htx).
  apply result_bind_ok in Htx as (db1 & Hi & Htx). apply result_bind_ok in Htx as (slots & _ & Htx). rewrite (committed_slots _ _ _ _ Htx).
  unfold insert_slot in Hi. apply result_bind_ok in Hi as (_ & _ & [= <-]). cbn. apply password_slot_app. left.
  apply password_slot_map; [|done]. intros q _ Ht Hu. by rewrite Ht.
Qed.
Lemma revoke_keeps_slot now io target s d r d' :
  (forall q, q ∈ key_slots (d_db d) -> slot_uuid q = target -> is_usable q = true -> slot_type q <> "password"%string) ->
  revoke_key_slot now io target s d = (r, d') ->
  password_slot (key_slots (d_db d)) -> password_slot (key_slots (d_db d')).
Proof.
  unfold revoke_key_slot. intros Hn E Hp. destruct (revoke_in_tx _ _ _ _) as [[b db]|e] eqn:Htx; [|by injection E as <- <-].
  apply follow_keeps_db in E. rewrite E. cbn. clear E. unfold revoke_in_tx in Htx. apply result_bind_ok in Htx as (_ & _ & Htx).
  apply result_bind_ok in Htx as (slots & _ & Htx). apply result_bind_ok in Htx as (t & _ & Htx).
  destruct (negb _); [by injection Htx as <- <-|]. apply result_bind_ok in Htx as (_ & _ & Htx). apply result_bind_ok in Htx as (fresh & _ & Htx).
  apply result_bind_ok in Htx as (db1 & Hc & [= <- <-]). rewrite (committed_slots _ _ _ _ Hc). cbn. apply password_slot_map; [|done].
  intros q Hq Ht Hu. destruct (String.eqb_spec (slot_uuid q) target) as [Eq|_]; [by destruct (Hn q Hq Eq Hu)|done].
Qed.
Lemma recover_keeps_slot now io_check io fresh_salt gcm_nonce fresh rk new d r d' :
  recover_access now io_check io fresh_salt gcm_nonce fresh rk new d = (r, d') ->
  password_slot (key_slots (d_db d)) -> password_slot (key_slots (d_db d')).
Proof.
  unfold recover_access. intros E Hp. destruct (_ <? _)%nat; [by injection E as <- <-|].
  destruct (snap ← _; _) as [[snap uuid]|e]; [|by injection E as <- <-]. destruct (check _ _ _ _ _) as [g f].
  match type of E with (match ?x with _ => _ end) = _ => destruct x as [[st db]|e] eqn:Htx end; [|by injection E as <- <-].
  injection E as <- <-. cbn. do 6 apply result_bind_ok in Htx as (? & _ & Htx). apply result_bind_ok in Htx as (_ & _ & Htx).
  apply result_bind_ok in Htx as (db1 & Htx & [= <- <-]). unfold recover_tx in Htx. apply result_bind_ok in Htx as (_ & _ & Htx).
  apply result_bind_ok in Htx as ([[k b] n] & _ & Htx). apply result_bind_ok in Htx as (db2 & Hi & Htx).
  apply result_bind_ok in Htx as (_ & _ & Htx). apply result_bind_ok in Htx as (slots & _ & Htx). rewrite (committed_slots _ _ _ _ Htx).
  unfold insert_slot in Hi. apply result_bind_ok in Hi as (_ & _ & [= <-]). cbn. apply password_slot_app. right.
  eexists. split; [by apply list_elem_of_singleton|done].
Qed.

Definition owned (u : string) (dek : bytes) (st : bytes * bytes * Disk) : Prop :=
  healthy u dek st.1.1 st.1.2 st.2 /\ password_slot (key_slots (d_db st.2)).
Lemma vstep_owned u dek st st' : vstep u dek st st' -> owned u dek st -> owned u dek st'.
Proof.
  destruct st as [[pw rk] d], st' as [[pw' rk'] d']. intros Hs [Hh Hp]. split; [by eapply vstep_healthy|]. cbn in *.
  inversion Hs; subst.
  - match goal with X : open_vault _ _ _ _ _ _ _ = _ |- _ => rename X into Hx end.
    eapply open_any in Hx as [[t Et] _]; [|done]. by rewrite Et.
  - by eapply rotate_keeps_slot.
  - by eapply recovery_keeps_slot.
  - by eapply revoke_keeps_slot.
  - by eapply recover_keeps_slot.
Qed.
Lemma life_owned u dek st st' : rtc (vstep u dek) st st' -> owned u dek st -> owned u dek st'.
Proof. induction 1; eauto using vstep_owned. Qed.
Lemma create_slot now fresh_salt dek gcm_nonce u slot io pw f s d :
  create_vault now fresh_salt dek gcm_nonce u slot io pw f = Ok (s, d) -> password_slot (key_slots (d_db d)).
Proof.
  unfold create_vault. intros E. destruct (initialize_vault _ _ _ _ _) as [r h]. apply result_bind_ok in E as ([params w] & _ & E).
  apply result_bind_ok in E as ([[k b] n] & _ & E). apply result_bind_ok in E as (db0 & Hens & E). cbn in Hens. injection Hens as <-.
  apply result_bind_ok in E as (slots & _ & E). apply result_bind_ok in E as (db & Hc & E). destruct (rebase _ _ _ _ _) as [rr f'].
  injection E as <- <-. cbn. rewrite (committed_slots _ _ _ _ Hc). eexists. split; [by apply list_elem_of_singleton|done].
Qed.

(** C36. The password keeps opening the vault.  From its creation, through any
    sequence of commands (opens with any password, rotations, new recovery slots,
    revocations of any slot but the password's that is in use, recoveries;
    accepted or refused), the password keeps a slot that
    is not revoked, and whenever the vault is not locked out, opening it under
    the current master password succeeds, gives the very data key it was created
    with, clears the failed attempts and leaves the sidecar anchored to the state
    on disk.  The sidecar writes of the creation, of new recovery slots and of
    revocations succeed, and so do those of this opening; that of a rotation or of
    a recovery may be lost, but only over a sidecar that records the state before
    it.  Without these conditions it fails: two lost writes in a row make every
    later opening refuse ([two_lost_follows_refuse]). *)
Theorem vault_always_opens now0 fresh_salt dek gcm_nonce u slot pw0 f s0 d0 rk0 pw rk d now now' :
  length fresh_salt = 16%nat -> length dek = 32%nat -> length gcm_nonce = 12%nat ->
  all_chars graphic u = true -> u <> EmptyString ->
  create_vault now0 fresh_salt dek gcm_nonce u slot true pw0 f = Ok (s0, d0) ->
  rtc (vstep u dek) (pw0, rk0, d0) (pw, rk, d) ->
  Vault.vault_remaining_lockout_seconds now (attempts (d_db d)) = None ->
  (exists q, q ∈ key_slots (d_db d) /\ slot_type q = "password"%string /\ revoked_at q = None) /\
  exists s d', open_vault now now' true true true pw d = (Ok s, d') /\ kh_dek (key_hierarchy s) = Some dek /\
    session_epoch s = epoch_of (d_db d) /\ attempts (d_db d') = [] /\ anchored u d'.
Proof.
  intros Hs Hd Hn Hg Hne Hc Hr Hlock. pose proof (create_slot _ _ _ _ _ _ _ _ _ _ _ Hc) as Hp.
  apply (create_healthy _ _ _ _ _ _ _ _ _ _ _ rk0) in Hc as [_ Hh]; try done; [|by left].
  apply life_owned in Hr as [Hh' (q & Hq & Ht & Hu)]; [|by split]. cbn in *. split.
  - exists q. split_and!; [done..|]. by apply bool_decide_eq_true in Hu.
  - destruct (open_healthy _ _ _ _ _ now now' Hh' Hlock) as (s & d' & Ho & [Hk _] & He & _ & Ha & Hat & _). eauto 10.
Qed.

(** ** Recovery regains access *)

Lemma newest_some slots :
  (exists k, k ∈ slots /\ slot_type k = SRecovery /\ is_usable k = true) -> exists k, newest slots = Some k.
Proof.
  intros (k & Hk & Ht & Hu). unfold newest.
  assert (In k (List.filter (fun s : KeySlot => bool_decide (slot_type s = SRecovery) && is_usable s) slots)) as Hin.
  { apply filter_In. split; [by apply list_elem_of_In|]. rewrite bool_decide_true by done. exact Hu. }
  destruct (List.filter _ slots) as [|x l]; [done|]. simpl. clear Hin.
  assert (forall l0 b, exists k', foldl (fun best (s : KeySlot) => match best with
      | Some b => if created_at b <? created_at s then Some s else best | None => Some s end) (Some b) l0 = Some k') as Hf.
  { induction l0 as [|y l0 IH]; simpl; intros b; [eauto|]. destruct (_ <? _); apply IH. }
  apply Hf.
Qed.

(** A loaded registry gives the row behind a usable recovery row. *)
Lemma load_recovery_row rows slots r :
  load_rows rows = Ok slots -> r ∈ rows -> slot_type r = "recovery"%string -> is_usable r = true ->
  exists k, k ∈ slots /\ slot_type k = SRecovery /\ is_usable k = true.
Proof.
  intros Hl%load_rows_spec [i Hi]%list_elem_of_lookup Ht Hu.
  eapply Forall2_lookup_l in Hl as (k & Hk & _ & Erev & Ety & _); [|exact Hi].
  exists k. split_and!; [by eapply list_elem_of_lookup_2| |unfold is_usable in *; by rewrite Erev].
  rewrite Ht in Ety. by destruct (slot_type k).
Qed.

Lemma load_rows_app a b k l :
  load_rows a = Ok k -> load_rows b = Ok l -> load_rows (a ++ b) = Ok (k ++ l).
Proof.
  revert k. induction a as [|x a IH]; intros k Ha Hb; simpl in *; [by injection Ha as <-|].
  result_inv. subst. match goal with E : load_slot x = Ok _ |- _ => rewrite E end. simpl. by erewrite IH.
Qed.

Lemma load_rows_map (g : SlotRow -> SlotRow) rows slots :
  (forall r, slot_type (g r) = slot_type r) -> load_rows rows = Ok slots -> exists slots', load_rows (g <$> rows) = Ok slots'.
Proof.
  intros Hg. revert slots. induction rows as [|r rows IH]; intros slots Hl; [by eexists|]. simpl in Hl. result_inv. subst.
  match goal with E : load_rows rows = Ok _ |- _ => apply IH in E as [l' E]; rename E into Hl' end.
  match goal with E : load_slot r = Ok _ |- _ => unfold load_slot in E; result_inv; rename E into Hx end.
  cbn [fmap list_fmap load_rows]. unfold load_slot. rewrite Hg.
  match goal with E : slot_type_from_db _ = Ok _ |- _ => rewrite E end. simpl.
  change (list_fmap _ _ g rows) with (g <$> rows). rewrite Hl'. eauto.
Qed.

Lemma recover_tx_succeeds now fresh h dek st db :
  kh_dek h = Some dek -> registry_ok dek db -> st_key_epoch st = key_epoch_col db ->
  (forall q, q ∈ key_slots db -> slot_uuid q <> fresh) ->
  exists db', recover_tx now fresh h st db = Ok db' /\ key_epoch_col db' = st_new_epoch st /\ attempts db' = attempts db /\
    forall q, q ∈ key_slots db' -> slot_uuid q <> fresh -> is_usable q = false.
Proof.
  intros Hd Hreg Hke Hfresh. pose proof Hreg as (key & slots & Hk & Hl & _ & _). unfold recover_tx.
  rewrite (verify_healthy dek) by done. simpl. unfold insert_slot. simpl.
  destruct (existsb _ _) eqn:Ex.
  { exfalso. apply existsb_exists in Ex as (q & Hq & Eq). apply list_elem_of_In, list_elem_of_fmap in Hq as (q' & -> & Hq').
    apply String.eqb_eq in Eq. apply (Hfresh q' Hq'). by destruct (is_usable q'). }
  simpl. rewrite Hke, Z.eqb_refl. simpl.
  destruct (load_rows_map (fun r => if is_usable r then set_revoked now r else r) (key_slots db) slots) as [l' Hl'];
    [by intros r; destruct (is_usable r)|exact Hl|].
  unfold load_key_slots. simpl. erewrite load_rows_app by (done || reflexivity). simpl.
  unfold commit_slot_registry, hierarchy_dek, get_dek. rewrite Hd. simpl. rewrite Hk. simpl.
  eexists. split; [reflexivity|]. simpl. split_and!; try done. intros q Hq Hne. apply elem_of_app in Hq as [Hq|Hq].
  - apply list_elem_of_fmap in Hq as (q' & -> & _). destruct (is_usable q') eqn:E; [apply usable_set_revoked|done].
  - apply list_elem_of_singleton in Hq as ->. done.
Qed.

Lemma recover_stage_succeeds fresh_salt gcm_nonce dek new e mk w :
  length dek = 32%nat -> e + 1 < 2 ^ 63 -> derive_master_key new (kdf_default fresh_salt) = Ok mk ->
  wrap_dek_under_key gcm_nonce mk dek (Some (i64_to_le_bytes (e + 1))) true = Ok w ->
  recover_stage fresh_salt gcm_nonce dek new e = Ok {| st_key_epoch := e; st_new_epoch := e + 1;
    st_params := kdf_default fresh_salt; st_wrapped := w; st_master := mk |}.
Proof.
  intros Hlen He Hmk Hw. unfold recover_stage, i64_checked_succ. rewrite (proj2 (Z.ltb_lt _ _)) by done. simpl.
  rewrite Hmk. simpl. rewrite Hw. simpl. apply wrap_unwrap in Hw as [Hu _]; [|done]. rewrite Hu. simpl.
  by rewrite bool_decide_true.
Qed.

(** C37. Recovery.  While the vault has a usable recovery slot, its recovery
    key alone regains access from any healthy state, without the old password.
    The new password has at least twelve bytes, key derivation and sealing
    succeed, the epoch is not exhausted, the fresh slot identifier is new, and the
    two sidecar writes of the recovery succeed: then [recover_access] succeeds,
    whatever failed attempts there are, every slot that existed is revoked, the
    epoch advances by one, and the failed attempts are those of before.  When
    these do not lock the vault, an opening whose own writes succeed takes the new
    password and gives the same data key; while they do, it is refused with the
    time that is left, since recovery does not clear them. *)
Theorem recovery_regains_access u dek pw rk d now fresh_salt gcm_nonce fresh new r mk w now1 now2 :
  healthy u dek pw rk d -> length fresh_salt = 16%nat -> length gcm_nonce = 12%nat -> (12 <= length new)%nat ->
  r ∈ key_slots (d_db d) -> slot_type r = "recovery"%string -> is_usable r = true ->
  epoch_of (d_db d) + 1 < 2 ^ 63 ->
  derive_master_key new (kdf_default fresh_salt) = Ok mk ->
  wrap_dek_under_key gcm_nonce mk dek (Some (i64_to_le_bytes (epoch_of (d_db d) + 1))) true = Ok w ->
  (forall q, q ∈ key_slots (d_db d) -> slot_uuid q <> fresh) ->
  exists d', recover_access now true true fresh_salt gcm_nonce fresh rk new d = (Ok tt, d') /\
    epoch_of (d_db d') = epoch_of (d_db d) + 1 /\
    (forall q, q ∈ key_slots (d_db d') -> slot_uuid q <> fresh -> is_usable q = false) /\
    attempts (d_db d') = attempts (d_db d) /\
    match Vault.vault_remaining_lockout_seconds now1 (attempts (d_db d)) with
    | None => exists s d'', open_vault now1 now2 true true true new d' = (Ok s, d'') /\ kh_dek (key_hierarchy s) = Some dek
    | Some wait => open_vault now1 now2 true true true new d' = (Err (LockedOut wait), d')
    end.
Proof.
  intros Hh Hs Hn Hlen Hr Ht Hu He Hmk Hw Hfresh.
  pose proof (opens_dek_length _ _ _ (h_opens _ _ _ _ _ Hh)) as Hdl.
  destruct (h_opens _ _ _ _ _ Hh) as (params & w0 & h0 & Hp & Hwr & _ & _).
  assert (exists snap, load_vault_snapshot (d_db d) = Ok snap) as [snap Hsn]
    by (unfold load_vault_snapshot; rewrite Hp, Hwr; simpl; eauto).
  assert (snap_vault_uuid snap = Some u /\ snap_key_epoch snap = epoch_of (d_db d)) as (Eu & Ee).
  { unfold load_vault_snapshot in Hsn. result_inv. subst snap. simpl. by rewrite (h_uuid _ _ _ _ _ Hh). }
  destruct (guard_passes _ _ _ _ _ _ Hh Hsn) as (v & f & Hg & _). unfold enforce_epoch_guard in Hg. rewrite Eu in Hg.
  destruct (check _ _ _ _ _) as [g f0] eqn:Hc. destruct g as [v0|]; [|done]. injection Hg as -> ->.
  destruct (h_registry _ _ _ _ _ Hh) as (key & slots & Hk & Hl & Hmac & _).
  destruct (newest_some slots) as [k Hnew]; [by eapply load_recovery_row|].
  destruct (recovery_slot_opens _ _ _ _ _ _ _ Hh Hl Hnew) as (non & Hno & Hun).
  pose proof (recover_stage_succeeds _ _ _ _ _ _ _ Hdl He Hmk Hw) as Hst.
  destruct (recover_tx_succeeds now fresh (unlock_vault_with_dek dek new_hierarchy) dek _ (d_db d)
    eq_refl (h_registry _ _ _ _ _ Hh) (eq_refl : st_key_epoch {| st_key_epoch := epoch_of (d_db d);
      st_new_epoch := epoch_of (d_db d) + 1; st_params := kdf_default fresh_salt; st_wrapped := w; st_master := mk |} = _) Hfresh)
    as (db' & Htx & Hep & Hat & Hrev).
  assert (recover_access now true true fresh_salt gcm_nonce fresh rk new d =
    (Ok tt, {| d_db := db'; d_sidecar := snd (bump true u (epoch_of (d_db d) + 1) (material_digest db') f) |})) as Hrec.
  { unfold recover_access. rewrite (proj2 (Nat.ltb_ge _ _)) by exact Hlen. rewrite Hsn. simpl. rewrite Eu. simpl. rewrite Hc. simpl.
    rewrite Hl. simpl. rewrite Hnew. simpl. rewrite Hno. simpl. rewrite Hun. simpl. rewrite Ee, Hst. simpl.
    rewrite Hmac. simpl. rewrite Htx. done. }
  eexists. split; [exact Hrec|]. split_and!; [exact Hep|exact Hrev|exact Hat|].
  destruct (Vault.vault_remaining_lockout_seconds _ _) as [wait|] eqn:Hlock; [by unfold open_vault; cbn [d_db]; rewrite Hat, Hlock|].
  eapply (recover_healthy u dek pw rk rk) in Hrec as [[[? ?] _]|[_ Hh']]; [done| |done..|by left].
  eapply open_healthy in Hh' as (s & d'' & Ho & [Hd _] & _); [|simpl; by rewrite Hat]. eauto.
Qed.

(** ** What the commands do not give *)

Lemma revoke_in_tx_revokes now h target db b db' :
  revoke_in_tx now h target db = Ok (b, db') -> NoDup (slot_uuid <$> key_slots db) ->
  forall r, r ∈ key_slots db' -> slot_uuid r = target -> is_usable r = false.
Proof.
  intros Htx Hnd r Hr Ht. unfold revoke_in_tx in Htx. apply result_bind_ok in Htx as (_ & _ & Htx).
  apply result_bind_ok in Htx as (slots & Hl & Htx). apply result_bind_ok in Htx as (t & Hf%ok_or_ok & Htx).
  apply List.find_some in Hf as [Hin Hid%String.eqb_eq].
  destruct (is_usable t) eqn:Eu; simpl in Htx.
  - apply result_bind_ok in Htx as (_ & _ & Htx). apply result_bind_ok in Htx as (fresh & Hl' & Htx).
    apply result_bind_ok in Htx as (db1 & Hcom & Htx). injection Htx as _ <-.
    unfold commit_slot_registry in Hcom. result_inv. subst db1. simpl in Hr.
    apply list_elem_of_fmap in Hr as (r1 & -> & _). destruct (String.eqb_spec (slot_uuid r1) target) as [E|E].
    + apply usable_set_revoked.
    + congruence.
  - injection Htx as _ <-. apply load_rows_spec in Hl. apply list_elem_of_In, list_elem_of_lookup in Hin as [i Hi].
    apply list_elem_of_lookup in Hr as [j Hj]. eapply Forall2_lookup_r in Hl as (r0 & Hr0 & Eid & Erev & _); [|exact Hi].
    assert (i = j) as ->.
    { eapply NoDup_lookup; [exact Hnd| |]; rewrite list_lookup_fmap; [rewrite Hr0|rewrite Hj]; simpl; f_equal; congruence. }
    assert (r0 = r) as -> by congruence. unfold is_usable in *. by rewrite <- Erev.
Qed.

(** Revoking a password slot does not revoke the password.  After
    [revoke_key_slot] has succeeded on any slot, the password slot included, no
    row under that identifier is usable, and the vault still opens under its
    master password: [open] reads the wrap of [db_metadata] and only checks the
    MAC of the registry, never that a usable password slot is left. *)
Theorem revoked_password_slot_opens u dek pw rk s d now target d' now1 now2 :
  healthy u dek pw rk d -> session_of u dek s -> NoDup (slot_uuid <$> key_slots (d_db d)) ->
  revoke_key_slot now true target s d = (Ok tt, d') ->
  Vault.vault_remaining_lockout_seconds now1 (attempts (d_db d')) = None ->
  (forall r, r ∈ key_slots (d_db d') -> slot_uuid r = target -> is_usable r = false) /\
  exists s' d'', open_vault now1 now2 true true true pw d' = (Ok s', d'') /\ kh_dek (key_hierarchy s') = Some dek.
Proof.
  intros Hh Hs Hnd Hr Hlock. pose proof Hr as Hr'. eapply revoke_healthy in Hr as [[e [? _]]|[_ Hh']]; [done| |done..]. split.
  - unfold revoke_key_slot in Hr'. destruct (revoke_in_tx _ _ _ _) as [[b db']|] eqn:Htx; [|done].
    assert (key_slots (d_db d') = key_slots db') as ->.
    { unfold follow_sidecar_at_constant_epoch, rebase, write in Hr'. repeat case_hyp; by simplify_eq. }
    by eapply revoke_in_tx_revokes.
  - eapply open_healthy in Hh' as (s' & d'' & Ho & [Hd _] & _); [|exact Hlock]. eauto.
Qed.

(** A committed rotation whose follow is lost. *)
Lemma rotate_lost_follow now now' fresh_salt gcm_nonce cur new s d e s' d' :
  change_master_password now now' false fresh_salt gcm_nonce cur new s d = (Ok e, s', d') ->
  epoch_of (d_db d') = epoch_of (d_db d) + 1 /\ vault_uuid_col (d_db d') = vault_uuid_col (d_db d) /\
  d_sidecar d' = d_sidecar d.
Proof.
  intros Hc. unfold change_master_password in Hc.
  destruct (rotate_stage _ _ _ _ _ _ _ _) as [[st|] d1] eqn:Hst; [|done].
  assert (d1 = d /\ st_new_epoch st = st_key_epoch st + 1) as [-> Hn].
  { unfold rotate_stage, i64_checked_succ in Hst. repeat case_hyp; simplify_eq; done. }
  unfold rotate_commit in Hc. destruct (rotate_tx _ _ _ _) as [db'|] eqn:Htx; [|done]. injection Hc as <- <- <-.
  unfold rotate_tx in Htx. simpl in Htx. apply result_bind_ok in Htx as (_ & _ & Htx).
  apply result_bind_ok in Htx as (_ & He%err_if_ok & Htx). apply result_bind_ok in Htx as (slots & _ & Htx). propify.
  unfold commit_slot_registry in Htx. result_inv. subst db'. simpl. unfold epoch_of. simpl. split_and!; [lia|done|].
  destruct (session_uuid s); [|done]. unfold bump, write. repeat case_goal; done.
Qed.

Lemma rotate_snapshot u dek pw rk s d now now' io fresh_salt gcm_nonce cur new e s' d' :
  healthy u dek pw rk d -> session_of u dek s -> length fresh_salt = 16%nat -> length gcm_nonce = 12%nat ->
  change_master_password now now' io fresh_salt gcm_nonce cur new s d = (Ok e, s', d') ->
  exists snap, load_vault_snapshot (d_db d') = Ok snap.
Proof.
  intros Hh Hs Hsalt Hnon Hc. unfold change_master_password in Hc.
  destruct (rotate_stage _ _ _ _ _ _ _ _) as [[st|] d1] eqn:Hst; [|done].
  eapply rotate_stage_ok in Hst as [-> (_ & _ & _ & Hp & Hw & Hl & _)]; [|done..].
  unfold rotate_commit in Hc. destruct (rotate_tx _ _ _ _) as [db'|] eqn:Htx; [|done]. injection Hc as _ _ <-.
  unfold rotate_tx in Htx. simpl in Htx. apply result_bind_ok in Htx as (_ & _ & Htx).
  apply result_bind_ok in Htx as (_ & _ & Htx). apply result_bind_ok in Htx as (slots & _ & Htx).
  unfold commit_slot_registry in Htx. result_inv. subst db'. unfold load_vault_snapshot. simpl.
  rewrite kdf_params_roundtrip by done. simpl. rewrite wrapped_key_roundtrip by done. simpl. eauto.
Qed.

(** The self-healing covers one lost sidecar write, not two.  When a
    session rotates the master password twice and both times the sidecar is not
    written (the code reports both rotations as successful, since the sidecar
    heals at the next open), no open is possible any more, under any password:
    the epoch on disk is two ahead and is refused as a suspected tampering. *)
Theorem two_lost_follows_refuse u dek pw rk d s n1 n1' salt1 nonce1 cur1 new1 e1 s1 d1 n2 n2' salt2 nonce2 cur2 new2 e2 s2 d2 :
  healthy u dek pw rk d -> session_of u dek s -> anchored u d ->
  length salt1 = 16%nat -> length nonce1 = 12%nat -> length salt2 = 16%nat -> length nonce2 = 12%nat ->
  change_master_password n1 n1' false salt1 nonce1 cur1 new1 s d = (Ok e1, s1, d1) ->
  change_master_password n2 n2' false salt2 nonce2 cur2 new2 s1 d1 = (Ok e2, s2, d2) ->
  forall now now' i1 i2 i3 password, Vault.vault_remaining_lockout_seconds now (attempts (d_db d2)) = None ->
    exists m, open_vault now now' i1 i2 i3 password d2 = (Err (InvalidInput m), d2).
Proof.
  intros Hh Hses Ha L1 L2 L3 L4 R1 R2 now now' i1 i2 i3 password Hlock.
  pose proof R1 as (Hs1 & [[[? ?] _]|[_ Hh1]])%(rotate_healthy u dek pw rk); try done; [|by right].
  destruct (rotate_snapshot _ _ _ _ _ _ _ _ _ _ _ _ _ _ _ _ Hh1 Hs1 L3 L4 R2) as [snap Hs].
  apply rotate_lost_follow in R1 as (E1 & U1 & S1), R2 as (E2 & U2 & S2). unfold open_vault. rewrite Hlock, Hs.
  assert (snap_vault_uuid snap = Some u /\ snap_key_epoch snap = epoch_of (d_db d) + 2) as [Eu Ee].
  { unfold load_vault_snapshot in Hs. result_inv. subst snap. simpl. rewrite U2, U1, (h_uuid _ _ _ _ _ Hh). split; [done|lia]. }
  unfold enforce_epoch_guard. rewrite Eu, Ee, S2, S1. unfold check. rewrite Ha. simpl. rewrite String.eqb_refl. simpl.
  destruct (Z.compare_spec (epoch_of (d_db d) + 2) (epoch_of (d_db d))); [lia..|].
  unfold i64_saturating_succ. rewrite (proj2 (Z.ltb_lt _ _)) by lia. simpl. eexists. f_equal.
  rewrite <- S1, <- S2. by destruct d2.
Qed.

End Life.
