(* ===== verification/VaultDemo.v ===== *)
(** * Core: a concrete vault, and the witnesses of [VaultLife]

    A vault is created, gets a recovery slot, and is rotated and recovered
    under the concrete primitives of [KeyDemo].  Models no code. *)

From S2P Require Import Prelude Text ThirdParty Envelope Keyring DbWire CoreDemo KeyDemo CoreError SyncWire EpochGuard Recovery Lockout KeySlots VaultKeys VaultLife.
From Stdlib Require Import ZArith Lia Strings.String Strings.Byte.
From stdpp Require Import base list option strings numbers relations.
Open Scope Z_scope.

(** ** [bincode] for the shapes of the slots *)

#[export] Instance bincode_bytes : Bincode bytes | 0 := fun b => Some b.
#[export] Instance bincode_ser_bytes : BincodeSer bytes := fun b => b.
#[export] Instance bincode_bytes_laws : BincodeLaws bytes (fun n => length n = 12%nat).
Proof. by intros n _. Qed.

#[export] Instance bincode_ser_wrapped : BincodeSer WrappedKey := fun w =>
  nonce w ++ auth_tag w ++ (if epoch_bound w then Byte.x01 else Byte.x00) :: wrapped_dek w.
#[export] Instance bincode_wrapped : Bincode WrappedKey | 0 := fun b =>
  match drop 28 b with
  | x :: k => Some {| wrapped_dek := k; nonce := take 12 b; auth_tag := take 16 (drop 12 b);
                      epoch_bound := Byte.eqb x Byte.x01 |}
  | [] => None
  end.
#[export] Instance bincode_wrapped_laws : BincodeLaws WrappedKey wrapped_key_wf.
Proof.
  intros [k n t b] [Hn Ht]; simpl in *. unfold bincode_deserialize, bincode_serialize, bincode_wrapped, bincode_ser_wrapped. simpl.
  rewrite (drop_app_ge n) by lia. rewrite Hn. rewrite drop_app_length' by (simpl; lia).
  rewrite take_app_length' by lia. rewrite (drop_app_length' n) by lia. rewrite take_app_length' by lia. by destruct b.
Qed.
#[export] Instance bincode_ser_params : BincodeSer KdfParams := fun p => salt p.

(** ** The vault *)

Definition get {E A} (x : A) (r : result E A) : A := match r with Ok a => a | Err _ => x end.
Lemma get_ok {E A} (x : A) (r : result E A) : is_ok r = true -> r = Ok (get x r).
Proof. by destruct r. Qed.

Lemma pair_ok {A B} (p : A * B) a : p.1 = a -> p = (a, p.2).
Proof. by destruct p; simpl; intros ->. Qed.
Lemma triple_ok {A B C} (p : A * B * C) a : p.1.1 = a -> p = (a, p.1.2, p.2).
Proof. by destruct p as [[] ?]; simpl; intros ->. Qed.

Definition no_session : Session := {| key_hierarchy := new_hierarchy; session_uuid := None; session_epoch := 0 |}.
Definition no_disk : Disk := {| d_db := empty_db; d_sidecar := None |}.

Definition demo_uuid : string := "6b1f".
Definition demo_rk : bytes := repeat Byte.x33 32.
Definition password1 : bytes := repeat Byte.x71 12.
Definition password2 : bytes := repeat Byte.x72 12.
Definition password3 : bytes := repeat Byte.x73 12.

Abbreviation created :=
  (get (no_session, no_disk) (create_vault 100 demo_salt demo_dek demo_gcm_nonce demo_uuid "slot-p" true password1 None)).
Abbreviation session0 := (created.1).
Abbreviation disk0 := (created.2).

Lemma created_ok : create_vault 100 demo_salt demo_dek demo_gcm_nonce demo_uuid "slot-p" true password1 None = Ok (session0, disk0).
Proof. rewrite <- surjective_pairing. apply get_ok. vm_compute. reflexivity. Qed.

Lemma demo_lengths :
  length demo_salt = 16%nat /\ length demo_salt2 = 16%nat /\ length demo_dek = 32%nat /\ length demo_gcm_nonce = 12%nat.
Proof. done. Qed.

Lemma healthy0 : session_of demo_uuid demo_dek session0 /\ healthy demo_uuid demo_dek password1 demo_rk disk0.
Proof. eapply create_healthy; [| | | | | |apply created_ok]; try done. by left. Qed.

(** A recovery slot is added. *)
Abbreviation with_recovery := (create_recovery_slot 200 true demo_gcm_nonce "slot-r" demo_rk session0 disk0).
Abbreviation disk1 := (with_recovery.2).
Lemma with_recovery_ok : with_recovery = (Ok tt, disk1).
Proof. apply pair_ok. vm_compute. reflexivity. Qed.

Lemma healthy1 : healthy demo_uuid demo_dek password1 demo_rk disk1.
Proof.
  destruct healthy0 as [Hs Hh].
  destruct (recovery_slot_healthy demo_uuid demo_dek password1 demo_rk demo_rk session0 disk0 200 demo_gcm_nonce "slot-r"
    (Ok tt) disk1 Hh Hs eq_refl with_recovery_ok) as [(? & E & _)|[_ H]]; [discriminate E|exact H].
Qed.

(** Rotated once, and its sidecar write lost. *)
Abbreviation rotated :=
  (change_master_password 300 300 false demo_salt2 demo_gcm_nonce password1 password2 session0 disk0).
Abbreviation session2 := (rotated.1.2).
Abbreviation disk2 := (rotated.2).
Lemma rotated_ok : rotated = (Ok 2, session2, disk2).
Proof. apply triple_ok. vm_compute. reflexivity. Qed.
Abbreviation rotated3 :=
  (change_master_password 400 400 false demo_salt demo_gcm_nonce password2 password3 session2 disk2).
Abbreviation session3 := (rotated3.1.2).
Abbreviation disk3 := (rotated3.2).
Lemma rotated3_ok : rotated3 = (Ok 3, session3, disk3).
Proof. apply triple_ok. vm_compute. reflexivity. Qed.

(** The password slot revoked. *)
Abbreviation revoked := (revoke_key_slot 750 true "slot-p" session0 disk1).
Abbreviation disk4 := (revoked.2).
Lemma revoked_ok : revoked = (Ok tt, disk4).
Proof. apply pair_ok. vm_compute. reflexivity. Qed.

Lemma anchored0 : anchored demo_uuid disk0.
Proof. vm_compute. reflexivity. Qed.

(** ** Witnesses *)

Lemma vault_always_opens_witness :
  (exists q, q ∈ key_slots (d_db disk2) /\ slot_type q = "password"%string /\ revoked_at q = None) /\
  exists s d', open_vault 500 500 true true true password2 disk2 = (Ok s, d') /\ kh_dek (key_hierarchy s) = Some demo_dek /\
    session_epoch s = epoch_of (d_db disk2) /\ attempts (d_db d') = [] /\ anchored demo_uuid d'.
Proof.
  refine (vault_always_opens 100 demo_salt demo_dek demo_gcm_nonce demo_uuid "slot-p" password1 None session0 disk0
    demo_rk password2 demo_rk disk2 500 500 eq_refl eq_refl eq_refl eq_refl _ created_ok _ _).
  - discriminate.
  - apply rtc_once. exact (step_rotate demo_uuid demo_dek password1 demo_rk disk0 session0 300 300 false demo_salt2
      demo_gcm_nonce password1 password2 (Ok 2) session2 disk2 (proj1 healthy0) eq_refl eq_refl (or_intror anchored0) rotated_ok).
  - vm_compute. reflexivity.
Defined.

Definition recovery_row : SlotRow := default (password_row "" [] [] [] 0 0) (key_slots (d_db disk1) !! 1%nat).
Definition master3 : bytes := get [] (derive_master_key password3 (kdf_default demo_salt2)).
Definition wrap3 : WrappedKey :=
  get demo_wrap (wrap_dek_under_key demo_gcm_nonce master3 demo_dek (Some (i64_to_le_bytes (epoch_of (d_db disk1) + 1))) true).

Lemma fresh_slot : forall q, q ∈ key_slots (d_db disk1) -> slot_uuid q <> "slot-q"%string.
Proof.
  assert (existsb (fun q => String.eqb (slot_uuid q) "slot-q") (key_slots (d_db disk1)) = false) as E by (vm_compute; reflexivity).
  intros q Hq Eq. apply list_elem_of_In in Hq. rewrite <- not_true_iff_false in E. apply E, existsb_exists. exists q.
  split; [exact Hq|]. by apply String.eqb_eq.
Qed.

Lemma recovery_row_ok : recovery_row ∈ key_slots (d_db disk1).
Proof. apply (list_elem_of_lookup_2 _ 1). vm_compute. reflexivity. Qed.

Lemma recovery_regains_access_witness :
  exists d' s d'', recover_access 600 true true demo_salt2 demo_gcm_nonce "slot-q" demo_rk password3 disk1 = (Ok tt, d') /\
    open_vault 700 700 true true true password3 d' = (Ok s, d'') /\ kh_dek (key_hierarchy s) = Some demo_dek.
Proof.
  assert (Vault.vault_remaining_lockout_seconds 700 (attempts (d_db disk1)) = None) as L by (vm_compute; reflexivity).
  destruct (recovery_regains_access demo_uuid demo_dek password1 demo_rk disk1 600 demo_salt2 demo_gcm_nonce "slot-q"
    password3 recovery_row master3 wrap3 700 700 healthy1 eq_refl eq_refl) as (d' & R & _ & _ & _ & O).
  - simpl. lia.
  - exact recovery_row_ok.
  - vm_compute. reflexivity.
  - vm_compute. reflexivity.
  - vm_compute. reflexivity.
  - vm_compute. reflexivity.
  - vm_compute. reflexivity.
  - exact fresh_slot.
  - rewrite L in O. destruct O as (s & d'' & O & K). exists d', s, d''. split; [exact R|]. split; [exact O|exact K].
Defined.

Lemma revoked_password_slot_opens_witness :
  exists s' d'', open_vault 800 800 true true true password1 disk4 = (Ok s', d'') /\ kh_dek (key_hierarchy s') = Some demo_dek.
Proof.
  refine (proj2 (revoked_password_slot_opens demo_uuid demo_dek password1 demo_rk session0 disk1 750 "slot-p" disk4 800 800
    healthy1 (proj1 healthy0) _ revoked_ok _)).
  - apply (bool_decide_eq_true_1 (NoDup (slot_uuid <$> key_slots (d_db disk1)))). vm_compute. reflexivity.
  - vm_compute. reflexivity.
Defined.

Lemma two_lost_follows_refuse_witness :
  exists m, open_vault 900 900 true true true password3 disk3 = (Err (InvalidInput m), disk3).
Proof.
  refine (two_lost_follows_refuse demo_uuid demo_dek password1 demo_rk disk0 session0 300 300 demo_salt2 demo_gcm_nonce password1
    password2 2 session2 disk2 400 400 demo_salt demo_gcm_nonce password2 password3 3 session3 disk3 (proj2 healthy0)
    (proj1 healthy0) anchored0 eq_refl eq_refl eq_refl eq_refl rotated_ok rotated3_ok 900 900 true true true password3 _).
  vm_compute. reflexivity.
Defined.

(** Two slots, and an attacker that swaps their rows: accepted, and the slots
    are the committed ones. *)
Definition slot_a : KeySlot := with_type SPassword (password_row "a" [Byte.x01] [Byte.x02] [Byte.x03] 1 10).
Definition slot_b : KeySlot := with_type SRecovery (set_revoked 20 (password_row "b" [Byte.x04] [Byte.x05] [Byte.x06] 1 10)).
Definition rows_of (l : list KeySlot) : list SlotRow := List.map (fun s => with_type (slot_type_str (slot_type s)) s) l.
Definition registry_db (l : list KeySlot) : VaultDb := let db := empty_db in {| db with key_slots := rows_of l |}.
Definition open_hierarchy : KeyHierarchy := key_hierarchy session0.
Definition committed : VaultDb := get empty_db (commit_slot_registry open_hierarchy [slot_a; slot_b] (registry_db [slot_a; slot_b])).
Definition swapped : VaultDb := let db := committed in {| db with key_slots := rows_of [slot_b; slot_a] |}.
Definition registry_key : bytes := get [] (derive_registry_mac_key demo_dek).

Lemma slots_wf : slot_wf slot_a /\ slot_wf slot_b.
Proof.
  assert (forall n, 0 <= n < 100 -> in_i64 n) as I by (unfold in_i64; lia).
  unfold slot_wf, blob_ok; simpl. split_and!; try lia; try (apply I; lia).
  - intros ts [=].
  - intros ts [= <-]. apply I; lia.
Qed.

Lemma registry_tamper_detected_witness :
  verify_slot_registry open_hierarchy swapped = Ok tt /\
  (([slot_b; slot_a] ≡ₚ [slot_a; slot_b] /\ epoch_of swapped = epoch_of (registry_db [slot_a; slot_b])) \/
   collision (hmac_sha256 registry_key) (registry_message [slot_b; slot_a] (epoch_of swapped))
     (registry_message [slot_a; slot_b] (epoch_of (registry_db [slot_a; slot_b])))).
Proof.
  assert (verify_slot_registry open_hierarchy swapped = Ok tt) as V by (vm_compute; reflexivity).
  split; [exact V|].
  refine (registry_tamper_detected open_hierarchy demo_dek registry_key [slot_a; slot_b] (registry_db [slot_a; slot_b])
    committed swapped [slot_b; slot_a] _ _ _ _ _ _ _ _ _ _ _ V).
  - vm_compute. reflexivity.
  - vm_compute. reflexivity.
  - vm_compute. reflexivity.
  - reflexivity.
  - vm_compute. reflexivity.
  - apply Forall_cons; split; [apply slots_wf|]. apply Forall_cons; split; [apply slots_wf|]. by constructor.
  - apply Forall_cons; split; [apply slots_wf|]. apply Forall_cons; split; [apply slots_wf|]. by constructor.
  - vm_compute. by split.
  - vm_compute. by split.
  - reflexivity.
  - reflexivity.
Defined.
