(* ===== verification/Backup.v ===== *)
(** * Core: portable backups ([vault/backup_ops.rs])

    A backup is one file: a magic line, the manifest in JSON on one line, and a
    copy of the database.  The manifest carries the wrapped keys, so the password
    opens the key that authenticates it, and binds the digest of the copy.  Here
    are the writer, the bounded reader and the verification; restoring is in
    [Restore].  The directory the backup goes to is its files and subdirectories;
    the flags of [BackupIo] say which of the file operations succeed.  Links, file
    modes and the audit entry are left out. *)

From S2P Require Import Prelude Text ThirdParty Aad Envelope Keyring DbWire CoreError SyncWire EpochGuard Lockout KeySlots VaultKeys VaultLife.
From S2P Require Import EnvelopeOps LocalDb ContentGuard ContentFacts Entries EntriesFacts Activation CoreDemo KeyDemo EntriesDemo VaultDemo Custody.
From Stdlib Require Import ZArith Lia Strings.String Strings.Ascii Strings.Byte.
From stdpp Require Import base list option strings numbers sorting gmap.
From S2P Require Import Text.
Open Scope Z_scope.

Definition BUNDLE_MAGIC_LINE : string := "SENTINELPASS-BACKUP/1".
Definition BACKUP_MANIFEST_VERSION : Z := 1.
Definition MAX_MANIFEST_BYTES : Z := 16384.
Definition MAX_SNAPSHOT_BYTES : Z := 1024 * 1024 * 1024.
Definition BACKUP_MANIFEST_MAC_INFO : bytes := as_bytes "sentinelpass-backup-manifest-mac-v1".
Definition newline : Byte.byte := Byte.x0a.

(** [ManifestSlot], [ManifestSnapshot], [BackupManifest]. *)
Record ManifestSlot := {
  ms_slot_uuid : string;
  ms_slot_type : string;
  ms_key_epoch : Z;            (* i64 *)
  ms_revoked : bool;
}.
#[global] Instance ManifestSlot_eq_dec : EqDecision ManifestSlot.
Proof. solve_decision. Defined.
Record ManifestSnapshot := { sn_sha256 : string; sn_len : Z (* u64 *) }.
Record BackupManifest := {
  bm_magic : string;
  bm_v : Z;                    (* i32 *)
  bm_backup_id : string;
  bm_created_at : Z;           (* i64 *)
  bm_app_version : string;
  bm_vault_uuid : string;
  bm_epoch : Z;                (* i64 *)
  bm_schema_version : Z;       (* i32 *)
  bm_vault_format_version : Z; (* i64 *)
  bm_entry_count : Z;          (* i64 *)
  bm_tombstone_count : Z;      (* i64 *)
  bm_kdf_params : string;
  bm_wrapped_dek : string;
  bm_dek_nonce : string;
  bm_slot_registry_mac : option string;
  bm_slots : list ManifestSlot;
  bm_snapshot : ManifestSnapshot;
  bm_mac : string;
}.
Record ParsedBundle := { pb_manifest : BackupManifest; pb_snapshot : bytes }.
Record BackupSummary := { bs_output : string; bs_backup_id : string; bs_vault_uuid : string; bs_epoch : Z; bs_snapshot_bytes : Z }.

(** ** What is authenticated *)

(** [feed_u64], [feed_i64], [feed_manifest_fields]. *)
Definition feed_u64 (z : Z) : bytes := reverse (to_be_bytes 8 z).
Definition feed_i64 (z : Z) : bytes := i64_to_le_bytes z.
Definition manifest_slot_message (s : ManifestSlot) : bytes :=
  feed (as_bytes (ms_slot_uuid s)) ++ feed (as_bytes (ms_slot_type s)) ++ feed_i64 (ms_key_epoch s) ++
  feed [if ms_revoked s then Byte.x01 else Byte.x00].
Definition manifest_message (m : BackupManifest) : bytes :=
  feed (as_bytes (bm_magic m)) ++ feed_i64 (bm_v m) ++ feed (as_bytes (bm_backup_id m)) ++ feed_i64 (bm_created_at m) ++
  feed (as_bytes (bm_app_version m)) ++ feed (as_bytes (bm_vault_uuid m)) ++ feed_i64 (bm_epoch m) ++
  feed_i64 (bm_schema_version m) ++ feed_i64 (bm_vault_format_version m) ++ feed_i64 (bm_entry_count m) ++
  feed_i64 (bm_tombstone_count m) ++ feed (as_bytes (bm_kdf_params m)) ++ feed (as_bytes (bm_wrapped_dek m)) ++
  feed (as_bytes (bm_dek_nonce m)) ++ feed (match bm_slot_registry_mac m with Some v => as_bytes v | None => [] end) ++
  feed_u64 (Z.of_nat (length (bm_slots m))) ++ mjoin (manifest_slot_message <$> bm_slots m) ++
  feed (as_bytes (sn_sha256 (bm_snapshot m))) ++ feed_u64 (sn_len (bm_snapshot m)).

(** ** Files *)

(** What belongs to this device in the database: [biometric_ref] of
    [db_metadata], [device_signing_key_encrypted] of [sync_metadata], and the table
    [sync_devices]. *)
Record SyncDeviceRow := {
  sd_device_id : string;
  sd_device_name : string;
  sd_device_type : string;
  sd_public_key : bytes;
  sd_registered_at : Z;
  sd_last_sync : option Z;
  sd_revoked : bool;
  sd_revoked_at : option Z;
}.
Record DeviceCols := { biometric_ref : option string; signing_key : option bytes; sync_devices : list SyncDeviceRow }.
Record DbFile := { f_db : LocalDb; f_cols : FormatCols; f_device : DeviceCols }.

(** A SQLite file: [VACUUM INTO] writes a copy of the database, which opens as
    it. *)
Class SqliteFile := {
  vacuum_into : DbFile -> bytes;
  sqlite_open : bytes -> option DbFile;
}.
Class SqliteFileLaws `{SqliteFile} : Prop :=
  open_vacuumed : forall x, sqlite_open (vacuum_into x) = Some x.

(** What the reader relies on of the JSON text of a manifest: one line, nested at
    most four deep. *)
Class ManifestJson `{SerdeBytes BackupManifest} : Prop := {
  manifest_one_line : forall m, (newline ∉ to_vec m) /\ (Byte.x0d ∉ to_vec m);
  manifest_depth : forall m, json_depth_exceeds (to_vec m) 4 = false;
}.

Record Dir := { dir_files : gmap string bytes; dir_dirs : gset string }.
Record BackupIo := { io_parent : bool; io_staging : bool; io_vacuum : bool; io_read : bool; io_write : bool; io_rename : bool }.

Section Backup.
Context `{Environment, Hmac, Sha256, HexDecode, UuidText, Base64, Aead, Argon2id, SqliteFile}.
Context `{SerdeBytes EntryTuple, SerdeBytes MappingTuple, SerdeBytes TagTuple, SerdeBytes CustodyTuple, SerdeBytes State, SerdeBytes Document}.
Context `{SerdeBytes KdfDocument, SerdeBytes WrapDocument, SerdeBytes BackupManifest}.
Context `{Bincode KdfParams, Bincode WrappedKey, Bincode LegacyWrappedKey}.

(** [compute_manifest_mac], [derive_backup_mac_key]. *)
Definition compute_manifest_mac (mac_key : bytes) (m : BackupManifest) : bytes := hmac_sha256 mac_key (manifest_message m).
Definition derive_backup_mac_key (dek : bytes) : Res bytes :=
  ok_or (hkdf_expand dek BACKUP_MANIFEST_MAC_INFO 32) (InvalidInput "backup MAC key derivation failed").

(** ** Reading *)

(** The loop over the manifest line; [n] bytes were read before. *)
Fixpoint read_manifest_line (n : Z) (b : bytes) : Res (bytes * bytes) :=
  match b with
  | [] => Err (InvalidInput "backup bundle is truncated inside the manifest line")
  | x :: b =>
    if bool_decide (x = newline) then Ok ([], b)
    else
      _ ← err_if (MAX_MANIFEST_BYTES <? n + 1) (InvalidInput "backup manifest exceeds the size cap");
      '(line, rest) ← read_manifest_line (n + 1) b;
      Ok (x :: line, rest)
  end.

(** [read_bundle] of the bytes of the file. *)
Definition read_bundle (b : bytes) : Res ParsedBundle :=
  let magic := as_bytes BUNDLE_MAGIC_LINE ++ [newline] in
  _ ← err_if (length b <? length magic)%nat (InvalidInput "backup bundle is shorter than the fixed magic line");
  _ ← err_if (negb (bool_decide (take (length magic) b = magic))) (InvalidInput "not a SentinelPass backup bundle");
  '(line, rest) ← read_manifest_line 0 (drop (length magic) b);
  _ ← err_if (bool_decide (newline ∈ line) || bool_decide (Byte.x0d ∈ line)) (InvalidInput "backup manifest line contains a newline");
  _ ← err_if (json_depth_exceeds line 4) (InvalidInput "backup manifest exceeds the maximum nesting depth (4)");
  m ← ok_or (from_slice (A := BackupManifest) line) (InvalidInput "malformed backup manifest");
  _ ← err_if (negb (bm_v m =? BACKUP_MANIFEST_VERSION)) (Crypto (UnsupportedCryptoVersion (bm_v m) BACKUP_MANIFEST_VERSION));
  _ ← err_if (negb (String.eqb (bm_magic m) "SPBACKUP")) (InvalidInput "backup manifest magic mismatch");
  _ ← err_if (MAX_SNAPSHOT_BYTES <? sn_len (bm_snapshot m)) (InvalidInput "backup snapshot length exceeds the cap");
  let n := Z.to_nat (sn_len (bm_snapshot m)) in
  _ ← err_if (length rest <? n)%nat (InvalidInput "backup bundle is truncated inside the snapshot payload");
  _ ← err_if (n <? length rest)%nat (InvalidInput "backup bundle carries trailing bytes after the snapshot");
  Ok {| pb_manifest := m; pb_snapshot := take n rest |}.

(** [unwrap_manifest_dek]. *)
Definition manifest_b64 (s : string) : Res bytes := ok_or (b64_decode s) (InvalidInput "backup manifest field is not valid standard base64").
Definition unwrap_manifest_dek (m : BackupManifest) (password : bytes) : Res (KeyHierarchy * bytes) :=
  k ← manifest_b64 (bm_kdf_params m);
  params ← map_err Crypto (decode_kdf_params k);
  w ← manifest_b64 (bm_wrapped_dek m);
  wrapped ← map_err Crypto (decode_wrapped_key w);
  let '(r, h) := unlock_vault_with_epoch password params wrapped (bm_epoch m) new_hierarchy in
  _ ← map_err (fun _ => Crypto (DecryptionFailed "backup bundle did not unlock with this master password")) r;
  dek ← hierarchy_dek h;
  Ok (h, dek).

(** [verify_bundle_authenticity].  The digest is hexadecimal, so the Unicode
    lower case the code takes and the ASCII one agree on whether it matches. *)
Definition verify_bundle_authenticity (p : ParsedBundle) (password : bytes) : Res BackupManifest :=
  let m := pb_manifest p in
  _ ← err_if (negb (String.eqb (Text.hex (sha256 (pb_snapshot p))) (to_ascii_lowercase (sn_sha256 (bm_snapshot m)))))
        (InvalidInput "backup snapshot digest does not match the manifest");
  '(_, dek) ← unwrap_manifest_dek m password;
  mac_key ← derive_backup_mac_key dek;
  tag ← manifest_b64 (bm_mac m);
  _ ← err_if (negb (bool_decide (compute_manifest_mac mac_key m = tag))) (InvalidInput "backup manifest MAC verification FAILED");
  Ok m.

(** ** Writing *)

(** The usable slots in the order of their identifiers. *)
Definition manifest_slot (r : SlotRow) : ManifestSlot := {|
  ms_slot_uuid := slot_uuid r; ms_slot_type := slot_type r; ms_key_epoch := ks_key_epoch r; ms_revoked := false |}.
Definition manifest_slot_le (a b : ManifestSlot) : Prop := String.leb (ms_slot_uuid a) (ms_slot_uuid b) = true.
#[global] Instance manifest_slot_le_dec : RelDecision manifest_slot_le.
Proof. intros a b. unfold manifest_slot_le. apply _. Defined.
Definition slot_inventory (db : VaultDb) : list ManifestSlot :=
  merge_sort manifest_slot_le (manifest_slot <$> List.filter is_usable (key_slots db)).

(** The manifest of a copy, before its MAC. *)
Definition manifest_of (backup_id app_version : string) (created_at : Z) (uuid : string) (copy : LocalDb) (cols : FormatCols)
    (snapshot_bytes : bytes) : BackupManifest :=
  let md := metadata copy in {|
  bm_magic := "SPBACKUP"; bm_v := BACKUP_MANIFEST_VERSION; bm_backup_id := backup_id; bm_created_at := created_at;
  bm_app_version := app_version; bm_vault_uuid := uuid; bm_epoch := epoch_of md; bm_schema_version := fc_version cols;
  bm_vault_format_version := default 1 (fc_format_version cols); bm_entry_count := Z.of_nat (length (entries copy));
  bm_tombstone_count := Z.of_nat (length (List.filter (fun r => is_deleted (e_sync r)) (entries copy)));
  bm_kdf_params := b64_encode (kdf_params_col md); bm_wrapped_dek := b64_encode (wrapped_dek_col md);
  bm_dek_nonce := b64_encode (dek_nonce_col md); bm_slot_registry_mac := b64_encode <$> slot_registry_mac md;
  bm_slots := slot_inventory md;
  bm_snapshot := {| sn_sha256 := Text.hex (sha256 snapshot_bytes); sn_len := Z.of_nat (length snapshot_bytes) |}; bm_mac := "" |}.

Definition bundle_text (json snapshot_bytes : bytes) : bytes := as_bytes BUNDLE_MAGIC_LINE ++ [newline] ++ json ++ [newline] ++ snapshot_bytes.

(** Everything between the creation of the staging directory and the write of
    the bundle. *)
Definition stage_backup (s : Session) (io : BackupIo) (vault_uuid backup_id app_version : string) (created_at : Z) (cols : FormatCols)
    (dev : DeviceCols) (w : World) : Res (BackupManifest * bytes) :=
  dek ← session_dek s;
  _ ← (verify_snapshot dek w).1;
  _ ← err_if (negb (io_vacuum io)) (Database Sqlite);
  let snap := vacuum_into {| f_db := w_db w; f_cols := cols; f_device := dev |} in
  copied ← ok_or (sqlite_open snap) (Database Sqlite);
  let copy := f_db copied in
  _ ← verify_copy dek copy w;
  _ ← err_if (negb (io_read io)) IoError;
  _ ← err_if (MAX_SNAPSHOT_BYTES <? Z.of_nat (length snap)) (InvalidInput "vault snapshot exceeds the bundle size cap");
  uuid ← ok_or (vault_uuid_col (metadata copy)) (InvalidInput "snapshot has no vault identity; refusing to back up");
  _ ← err_if (negb (String.eqb uuid vault_uuid)) (InvalidInput "snapshot identity does not match the live vault");
  let m := manifest_of backup_id app_version created_at uuid copy (f_cols copied) snap in
  _ ← err_if (negb (bm_epoch m =? session_epoch s)) (InvalidInput "snapshot epoch differs from the session key epoch");
  mac_key ← derive_backup_mac_key dek;
  let m := {| m with bm_mac := b64_encode (compute_manifest_mac mac_key m) |} in
  _ ← err_if (MAX_MANIFEST_BYTES <? Z.of_nat (length (to_vec m))) (InvalidInput "backup manifest exceeds the size cap");
  Ok (m, snap).

(** [create_backup]: [output] is a name in the directory; the names of the
    staging directory and the temporary file are fresh.  Both are gone on every
    path. *)
Definition create_backup (s : Session) (io : BackupIo) (staging tmp output app_version : string) (backup_id : Uuid) (created_at : Z)
    (cols : FormatCols) (dev : DeviceCols) (w : World) (dir : Dir) : Res BackupSummary * Dir :=
  match
    (_ ← err_if (negb (is_unlocked (key_hierarchy s))) VaultLocked;
     _ ← err_if (negb (w_on_disk w)) (InvalidInput "an in-memory vault has no durable state to back up");
     vault_uuid ← ok_or (session_uuid s) (InvalidInput "vault identity (vault_uuid) is missing");
     _ ← err_if (negb (io_parent io)) (InvalidInput "backup output directory does not exist");
     _ ← err_if (bool_decide (is_Some (dir_files dir !! output)) || bool_decide (output ∈ dir_dirs dir))
           (InvalidInput "backup output already exists");
     _ ← err_if (negb (io_staging io)) IoError;
     Ok vault_uuid)
  with
  | Err e => (Err e, dir)
  | Ok vault_uuid =>
    let staged := {| dir with dir_dirs := {[ staging ]} ∪ dir_dirs dir |} in
    let cleanup (d : Dir) := {| d with dir_dirs := dir_dirs d ∖ {[ staging ]} |} in
    match stage_backup s io vault_uuid (uuid_to_string backup_id) app_version created_at cols dev w with
    | Err e => (Err e, cleanup staged)
    | Ok (m, snap) =>
      let file := bundle_text (to_vec m) snap in
      let written := {| staged with dir_files := <[tmp := if io_write io then file else []]> (dir_files staged) |} in
      let removed := {| written with dir_files := delete tmp (dir_files written) |} in
      if negb (io_write io) then (Err IoError, cleanup removed)
      else if negb (io_rename io) then (Err IoError, cleanup removed)
      else (Ok {| bs_output := output; bs_backup_id := bm_backup_id m; bs_vault_uuid := bm_vault_uuid m; bs_epoch := bm_epoch m;
                  bs_snapshot_bytes := sn_len (bm_snapshot m) |},
            cleanup {| removed with dir_files := <[output := file]> (dir_files removed) |})
    end
  end.

(** [verify_bundle_file] without [deep]. *)
Definition verify_bundle_file (file password : bytes) : Res BackupManifest :=
  parsed ← read_bundle file; verify_bundle_authenticity parsed password.
End Backup.

#[global] Arguments MAX_SNAPSHOT_BYTES : simpl never.
#[global] Arguments MAX_MANIFEST_BYTES : simpl never.

(** ** The message determines the manifest *)

Definition manifest_slot_wf (s : ManifestSlot) : Prop :=
  blob_ok (as_bytes (ms_slot_uuid s)) /\ blob_ok (as_bytes (ms_slot_type s)) /\ in_i64 (ms_key_epoch s).
(** The ranges of the types of the fields. *)
Definition manifest_wf (m : BackupManifest) : Prop :=
  Forall (fun t => blob_ok (as_bytes t)) [bm_magic m; bm_backup_id m; bm_app_version m; bm_vault_uuid m; bm_kdf_params m;
    bm_wrapped_dek m; bm_dek_nonce m; default EmptyString (bm_slot_registry_mac m); sn_sha256 (bm_snapshot m)] /\
  Forall in_i64 [bm_v m; bm_created_at m; bm_epoch m; bm_schema_version m; bm_vault_format_version m; bm_entry_count m; bm_tombstone_count m] /\
  in_u64 (sn_len (bm_snapshot m)) /\ in_u64 (Z.of_nat (length (bm_slots m))) /\ Forall manifest_slot_wf (bm_slots m).
(** Equal but for the tag, and for a registry MAC that is empty or absent. *)
Definition same_manifest (m m' : BackupManifest) : Prop :=
  m' = {| m with bm_slot_registry_mac := bm_slot_registry_mac m'; bm_mac := bm_mac m' |} /\
  default EmptyString (bm_slot_registry_mac m') = default EmptyString (bm_slot_registry_mac m).

(** With a registry MAC there is nothing to exchange. *)
Lemma same_with_registry m m' :
  default EmptyString (bm_slot_registry_mac m) <> EmptyString -> same_manifest m m' -> m' = {| m with bm_mac := bm_mac m' |}.
Proof.
  intros Hm [E1 E2]. assert (bm_slot_registry_mac m' = bm_slot_registry_mac m) as Er.
  { destruct (bm_slot_registry_mac m), (bm_slot_registry_mac m'); simpl in *; congruence. }
  rewrite Er in E1. exact E1.
Qed.

Lemma feed_i64_inj x y (r s : bytes) : in_i64 x -> in_i64 y -> feed_i64 x ++ r = feed_i64 y ++ s -> x = y /\ r = s.
Proof.
  intros Hx Hy E. apply app_inj_length in E as [E1 E2]; [|by unfold feed_i64; rewrite !i64_le_length]. split; [|done]. by apply i64_le_inj.
Qed.
Lemma feed_u64_inj x y (r s : bytes) : in_u64 x -> in_u64 y -> feed_u64 x ++ r = feed_u64 y ++ s -> x = y /\ r = s.
Proof.
  intros Hx Hy E. apply app_inj_length in E as [E1 E2]; [|by unfold feed_u64; rewrite !length_reverse, !to_be_bytes_length].
  split; [|done]. by apply reverse_inj', u64_be_inj in E1.
Qed.
Lemma feed_text_inj s t (r r' : bytes) :
  blob_ok (as_bytes s) -> blob_ok (as_bytes t) -> feed (as_bytes s) ++ r = feed (as_bytes t) ++ r' -> s = t /\ r = r'.
Proof. intros Hs Ht E. apply feed_inj in E as [E1 E2]; [|done..]. split; [by apply as_bytes_inj|done]. Qed.

Lemma manifest_slot_message_inj s t (r r' : bytes) :
  manifest_slot_wf s -> manifest_slot_wf t -> manifest_slot_message s ++ r = manifest_slot_message t ++ r' -> s = t /\ r = r'.
Proof.
  intros (S1 & S2 & S3) (T1 & T2 & T3) E. unfold manifest_slot_message in E. rewrite <- !app_assoc in E.
  apply feed_text_inj in E as [E1 E]; [|done..]. apply feed_text_inj in E as [E2 E]; [|done..].
  apply feed_i64_inj in E as [E3 E]; [|done..]. apply feed_inj in E as [E4 E]; [|done..]. split; [|done].
  destruct s as [? ? ? b], t as [? ? ? b']; simpl in *. subst. f_equal. by destruct b, b'.
Qed.
Lemma manifest_slots_inj l k (r r' : bytes) :
  Forall manifest_slot_wf l -> Forall manifest_slot_wf k -> length l = length k ->
  mjoin (manifest_slot_message <$> l) ++ r = mjoin (manifest_slot_message <$> k) ++ r' -> l = k /\ r = r'.
Proof.
  intros Hl. revert k. induction Hl as [|s l Hs Hl IH]; intros [|t k] Hk Hn E; try done.
  inversion_clear Hk. cbn [fmap list_fmap mjoin list_join] in E. rewrite <- !app_assoc in E.
  apply manifest_slot_message_inj in E as [-> E]; [|done..]. apply IH in E as [-> ->]; [done|done|]. by injection Hn.
Qed.

Lemma manifest_message_inj m m' : manifest_wf m -> manifest_wf m' -> manifest_message m = manifest_message m' -> same_manifest m m'.
Proof.
  intros (W1 & W2 & W3 & W4 & W5) (V1 & V2 & V3 & V4 & V5) E. rewrite !Forall_cons in W1. rewrite !Forall_cons in W2.
  rewrite !Forall_cons in V1. rewrite !Forall_cons in V2. cbv beta in *. destruct_and?.
  assert (forall o : option string, match o with Some v => as_bytes v | None => [] end = as_bytes (default EmptyString o)) as Ho by (by intros []).
  unfold manifest_message in E. rewrite !Ho in E.
  repeat first [apply feed_text_inj in E as [?E E]; [|assumption..] | apply feed_i64_inj in E as [?E E]; [|assumption..]].
  apply feed_u64_inj in E as [En E]; [|assumption..]. apply manifest_slots_inj in E as [Es E]; [|assumption|assumption|lia].
  apply feed_text_inj in E as [Eh E]; [|assumption..]. rewrite <- (app_nil_r (feed_u64 _)), <- (app_nil_r (feed_u64 (sn_len (bm_snapshot m')))) in E.
  apply feed_u64_inj in E as [El _]; [|assumption..]. split; [|done].
  destruct m as [? ? ? ? ? ? ? ? ? ? ? ? ? ? ? ? [? ?] ?], m' as [? ? ? ? ? ? ? ? ? ? ? ? ? ? ? ? [? ?] ?]. simpl in *. subst. reflexivity.
Qed.

Section Facts.
Context `{Environment, Hmac, Sha256, HexDecode, UuidText, Base64, Aead, Argon2id, SqliteFile}.
Context `{SerdeBytes EntryTuple, SerdeBytes MappingTuple, SerdeBytes TagTuple, SerdeBytes CustodyTuple, SerdeBytes State, SerdeBytes Document}.
Context `{SerdeBytes KdfDocument, SerdeBytes WrapDocument, SerdeBytes BackupManifest}.
Context `{Bincode KdfParams, Bincode WrappedKey, Bincode LegacyWrappedKey}.
Context `{!Base64Laws, !SqliteFileLaws, !SerdeBytesLaws BackupManifest, !ManifestJson}.

(** ** The reader takes the writer's text apart *)

Lemma read_written_line n json rest :
  newline ∉ json -> n + Z.of_nat (length json) <= MAX_MANIFEST_BYTES -> read_manifest_line n (json ++ newline :: rest) = Ok (json, rest).
Proof.
  revert n. induction json as [|x json IH]; intros n Hn Hl; cbn [read_manifest_line app]; [by rewrite bool_decide_true|].
  apply not_elem_of_cons in Hn as [Hx Hn]. rewrite bool_decide_false by congruence.
  rewrite (proj2 (Z.ltb_ge _ _)) by (simpl in Hl; lia). simpl. rewrite IH; [done|done|]. simpl in Hl. lia.
Qed.

Lemma read_bundle_written m snap :
  bm_v m = BACKUP_MANIFEST_VERSION -> bm_magic m = "SPBACKUP"%string -> Z.of_nat (length (to_vec m)) <= MAX_MANIFEST_BYTES ->
  sn_len (bm_snapshot m) = Z.of_nat (length snap) -> Z.of_nat (length snap) <= MAX_SNAPSHOT_BYTES ->
  read_bundle (bundle_text (to_vec m) snap) = Ok {| pb_manifest := m; pb_snapshot := snap |}.
Proof.
  intros Hv Hm Hl Hs Hc. unfold read_bundle, bundle_text. cbv zeta. rewrite (app_assoc (as_bytes _) [newline]).
  set (magic := as_bytes BUNDLE_MAGIC_LINE ++ [newline]). rewrite length_app, (proj2 (Nat.ltb_ge _ _)) by lia. cbn [err_if mbind result_bind].
  rewrite take_app_length, bool_decide_true by done. cbn [negb err_if mbind result_bind]. rewrite drop_app_length. cbn [app].
  destruct (manifest_one_line m) as [N1 N2]. rewrite read_written_line by (done || lia). cbn [mbind result_bind].
  rewrite !bool_decide_false by done. cbn [err_if mbind result_bind ok_or negb orb]. rewrite manifest_depth. cbn [err_if mbind result_bind ok_or negb orb].
  rewrite from_slice_to_vec. cbn [err_if mbind result_bind ok_or negb orb]. rewrite Hv, Z.eqb_refl. cbn [err_if mbind result_bind ok_or negb orb]. rewrite Hm, String.eqb_refl. cbn [err_if mbind result_bind ok_or negb orb].
  rewrite Hs, (proj2 (Z.ltb_ge _ _)) by done. cbn [err_if mbind result_bind].
  rewrite Nat2Z.id, Nat.ltb_irrefl. cbn [err_if mbind result_bind]. by rewrite take_ge.
Qed.

(** ** Staging *)

Lemma stage_backup_ok s io uuid id app now cols dev w m snap :
  stage_backup s io uuid id app now cols dev w = Ok (m, snap) ->
  exists dek k, session_dek s = Ok dek /\ derive_backup_mac_key dek = Ok k /\ snap = vacuum_into {| f_db := w_db w; f_cols := cols; f_device := dev |} /\
    vault_uuid_col (metadata (w_db w)) = Some uuid /\ epoch_of (metadata (w_db w)) = session_epoch s /\
    (let m0 := manifest_of id app now uuid (w_db w) cols snap in m = {| m0 with bm_mac := b64_encode (compute_manifest_mac k m0) |}) /\
    Z.of_nat (length snap) <= MAX_SNAPSHOT_BYTES /\ Z.of_nat (length (to_vec m)) <= MAX_MANIFEST_BYTES.
Proof.
  unfold stage_backup. intros E. apply result_bind_ok in E as (dek & Hd & E). apply result_bind_ok in E as (? & _ & E).
  apply result_bind_ok in E as (? & _ & E). cbv zeta in E. rewrite open_vacuumed in E. simpl in E.
  set (m0 := manifest_of id app now) in *. result_inv. propify. simplify_eq.
  match goal with X : String.eqb _ uuid = true |- _ => apply String.eqb_eq in X; subst end.
  eexists _, _. split_and!; try done; subst m0; simpl; assumption.
Qed.

Lemma mac_not_fed m t : manifest_message {| m with bm_mac := t |} = manifest_message m.
Proof. done. Qed.

(** A bundle is accepted under the password its keys open with. *)
Lemma written_verifies k pw dek m snap :
  derive_backup_mac_key dek = Ok k -> bm_mac m = b64_encode (compute_manifest_mac k m) ->
  sn_sha256 (bm_snapshot m) = Text.hex (sha256 snap) ->
  (exists h, unwrap_manifest_dek m pw = Ok (h, dek)) ->
  verify_bundle_authenticity {| pb_manifest := m; pb_snapshot := snap |} pw = Ok m.
Proof.
  intros Hk Hm Hs [h Hu]. unfold verify_bundle_authenticity. simpl. rewrite Hs, (proj2 (proj2 (hex_text _))), String.eqb_refl. simpl.
  rewrite Hu. simpl. rewrite Hk. simpl. unfold manifest_b64. rewrite Hm, b64_decode_encode. simpl. by rewrite bool_decide_true.
Qed.
Lemma manifest_unlocks pw dek id app now uuid copy cols snap t :
  opens_to pw dek (metadata copy) ->
  exists h, unwrap_manifest_dek {| (manifest_of id app now uuid copy cols snap) with bm_mac := t |} pw = Ok (h, dek).
Proof.
  intros (params & wr & h & Hp & Hw & Hu & Hd). exists h. unfold unwrap_manifest_dek, manifest_b64. simpl. rewrite !b64_decode_encode. simpl.
  rewrite Hp. simpl. rewrite Hw. simpl. rewrite Hu. simpl. unfold hierarchy_dek, get_dek. by rewrite Hd.
Qed.

(** C28. A backup can be read back.  When a backup is reported as created, the
    directory holds exactly one file more, under a name that was free: the reader
    accepts it, the password that opens the vault verifies it, and the copy in it
    opens as the database the vault had, with the summary's identifier, identity,
    epoch and size.  When it is not, the directory is as it was: no partial file
    and no staging directory is left. *)
Theorem backup_roundtrip s io staging tmp output app id now cols dev w dir pw dek r dir' :
  session_dek s = Ok dek -> opens_to pw dek (metadata (w_db w)) ->
  staging ∉ dir_dirs dir -> dir_files dir !! tmp = None -> tmp <> output ->
  create_backup s io staging tmp output app id now cols dev w dir = (r, dir') ->
  match r with
  | Err _ => dir' = dir
  | Ok sum => exists file m snap, dir_files dir !! output = None /\
      dir' = {| dir with dir_files := <[output := file]> (dir_files dir) |} /\
      read_bundle file = Ok {| pb_manifest := m; pb_snapshot := snap |} /\ verify_bundle_file file pw = Ok m /\
      sqlite_open snap = Some {| f_db := w_db w; f_cols := cols; f_device := dev |} /\
      sum = {| bs_output := output; bs_backup_id := bm_backup_id m; bs_vault_uuid := bm_vault_uuid m; bs_epoch := bm_epoch m;
               bs_snapshot_bytes := sn_len (bm_snapshot m) |} /\
      Some (bm_vault_uuid m) = session_uuid s /\ bm_epoch m = session_epoch s
  end.
Proof.
  intros Hdek Hop Hst Htmp Hne E. unfold create_backup in E.
  assert (forall d, dir_files d = dir_files dir -> {| dir_files := dir_files d; dir_dirs := ({[staging]} ∪ dir_dirs dir) ∖ {[staging]} |} = dir) as Hclean.
  { intros d Hd. destruct dir as [fs ds]. simpl in *. rewrite Hd. f_equal. set_solver. }
  match type of E with context [match ?x with Ok _ => _ | Err _ => _ end = _] => destruct x as [uuid|e] eqn:Ex end; [|by injection E as <- <-].
  apply result_bind_ok in Ex as (? & _ & Ex). apply result_bind_ok in Ex as (? & _ & Ex). apply result_bind_ok in Ex as (u & Hu & Ex).
  apply ok_or_ok in Hu. apply result_bind_ok in Ex as (? & _ & Ex). apply result_bind_ok in Ex as (? & Hout & Ex).
  apply result_bind_ok in Ex as (? & _ & Ex). injection Ex as ->. apply err_if_ok in Hout. apply orb_false_iff in Hout as [Hout _].
  apply bool_decide_eq_false_1 in Hout. apply eq_None_not_Some in Hout.
  destruct (stage_backup _ _ _ _ _ _ _ _ _) as [[m snap]|e] eqn:Es.
  2:{ injection E as <- <-. exact (Hclean dir eq_refl). }
  cbn in E. destruct (io_write io), (io_rename io); cbn in E; injection E as <- <-; cbn; rewrite ?delete_insert_id by done;
    try (exact (Hclean dir eq_refl)).
  destruct (stage_backup_ok _ _ _ _ _ _ _ _ _ _ _ Es) as (dek' & k & Hd' & Hk & Hsnap & Huu & Hep & Hm & Hl1 & Hl2).
  replace dek' with dek in * by congruence. cbv zeta in Hm.
  assert (read_bundle (bundle_text (to_vec m) snap) = Ok {| pb_manifest := m; pb_snapshot := snap |}) as Hr by (apply read_bundle_written; by subst m).
  exists (bundle_text (to_vec m) snap), m, snap. split_and!; try done.
  - f_equal. destruct dir as [fs ds]. simpl. set_solver.
  - unfold verify_bundle_file. rewrite Hr. simpl. subst m. apply (written_verifies k pw dek); try done. by apply manifest_unlocks.
  - rewrite Hsnap. apply open_vacuumed.
  - subst m. simpl. congruence.
  - subst m. simpl. congruence.
Qed.

(** C29. A backup cannot be altered.  Let a manifest and copy be those of a backup
    the vault made, with the MAC of its key-slot registry, which a vault gets when
    it is first opened.  Whatever file is offered, when it is read and verified
    under a password that opens the key of the vault, then its manifest is the
    original in every field but the tag and its copy is the original copy, byte
    for byte; or two copies with one SHA-256 digest are at hand; or its tag is a
    valid MAC under the backup key of the vault over a message that is not the
    original's.  (In a backup of a vault that has no registry MAC yet, an absent
    and an empty MAC can be exchanged: [same_manifest].) *)
Theorem backup_tamper_evident s io uuid id app now cols dev w m snap file pw dek p h m' :
  stage_backup s io uuid id app now cols dev w = Ok (m, snap) -> session_dek s = Ok dek ->
  default EmptyString (bm_slot_registry_mac m) <> EmptyString ->
  read_bundle file = Ok p -> verify_bundle_file file pw = Ok m' -> unwrap_manifest_dek m' pw = Ok (h, dek) ->
  manifest_wf m -> manifest_wf m' ->
  (m' = {| m with bm_mac := bm_mac m' |} /\ pb_snapshot p = snap) \/ collision sha256 (pb_snapshot p) snap \/
  exists k, derive_backup_mac_key dek = Ok k /\ manifest_message m' <> manifest_message m /\
    b64_decode (bm_mac m') = Some (hmac_sha256 k (manifest_message m')).
Proof.
  intros Hst Hd Hreg Hr Hv Hu W W'. unfold verify_bundle_file in Hv. rewrite Hr in Hv. cbn [mbind result_bind] in Hv. destruct (stage_backup_ok _ _ _ _ _ _ _ _ _ _ _ Hst) as (dek' & k & Hd' & Hk & _ & _ & _ & Hm & _ & _).
  replace dek' with dek in * by congruence. unfold verify_bundle_authenticity in Hv.
  apply result_bind_ok in Hv as (? & Hsha & Hv). apply result_bind_ok in Hv as ([h' dek''] & Hu' & Hv).
  apply result_bind_ok in Hv as (k' & Hk' & Hv). apply result_bind_ok in Hv as (tag & Ht & Hv). apply result_bind_ok in Hv as (? & Hc & Hv).
  injection Hv as Hp. rewrite Hp in *. assert (dek'' = dek) as -> by congruence. assert (k' = k) as -> by congruence.
  apply ok_or_ok in Ht. apply err_if_ok in Hc. propify. apply err_if_ok in Hsha. propify. apply String.eqb_eq in Hsha.
  destruct (decide (manifest_message m' = manifest_message m)) as [Em|Em].
  - apply manifest_message_inj in Em as Hsame; [|done..]. assert (same_manifest m m') as [S1 S2] by (by apply manifest_message_inj).
    destruct (decide (pb_snapshot p = snap)) as [E|E]; [left; split; [by apply same_with_registry|done]|]. right. left. split; [done|].
    apply hex_inj. rewrite Hsha, S1. cbn. rewrite Hm. cbn. by apply hex_text.
  - right. right. exists k. split_and!; try done. by rewrite Ht, <- Hc.
Qed.
End Facts.

(** ** Witnesses *)

Module Demo.
Import CoreDemo KeyDemo EntriesDemo VaultDemo.

(** A codec for whole databases. *)
#[local] Instance flat_nat_map {A} `{Flat A} : Flat (gmap Z A) := flat_via map_to_list list_to_map (fun m => list_to_map_to_list m).
#[local] Instance flat_text_map {A} `{Flat A} : Flat (gmap string A) := flat_via map_to_list list_to_map (fun m => list_to_map_to_list m).
#[local] Instance flat_sync_state : Flat SyncState := flat_via (fun s => match s with Synced => (false, false) | Pending => (false, true) | Conflict => (true, true) end)
  (fun '(a, b) => if a : bool then Conflict else if b : bool then Pending else Synced)
  (fun s => match s with Synced => eq_refl | Pending => eq_refl | Conflict => eq_refl end).
#[local] Instance flat_sync_cols : Flat SyncCols := flat_via
  (fun c => (sync_id c, sync_version c, sync_acked_version c, sync_state c, last_synced_at c, is_deleted c, deleted_at c))
  (fun '(a, b, c, d, e, f, g) => Build_SyncCols a b c d e f g) (fun c => match c with Build_SyncCols _ _ _ _ _ _ _ => eq_refl end).
#[local] Instance flat_value : Flat Value := flat_via
  (fun v => match v with VNull => (0, None, None) | VInteger z => (z, Some 0, None) | VReal => (0, Some 1, None)
            | VText s => (0, Some 2, Some (list_byte_of_string s)) | VBlob b => (0, Some 3, Some b) end)
  (fun '(z, k, b) => match k with None => VNull | Some 0 => VInteger z | Some 1 => VReal | Some 2 => VText (string_of_list_byte (default [] b))
                     | _ => VBlob (default [] b) end)
  (fun v => match v with VNull => eq_refl | VInteger _ => eq_refl | VReal => eq_refl
            | VText s => f_equal VText (string_of_list_byte_of_string s) | VBlob _ => eq_refl end).
#[local] Instance flat_entry_row : Flat EntryRow := flat_via
  (fun r => (entry_id r, e_title r, e_username r, e_password r, e_url r, e_notes r, e_credential_type r, entry_nonce r, e_auth_tag r,
             e_created_at r, e_modified_at r, e_favorite r, e_sync r))
  (fun '(a, b, c, d, e, f, g, h, i, j, k, l, m) => Build_EntryRow a b c d e f g h i j k l m)
  (fun r => match r with Build_EntryRow _ _ _ _ _ _ _ _ _ _ _ _ _ => eq_refl end).
#[local] Instance flat_mapping_row : Flat MappingRow := flat_via
  (fun r => (mapping_id r, dm_entry_id r, dm_domain r, dm_is_primary r, dm_sync_id r, domain_enc r))
  (fun '(a, b, c, d, e, f) => Build_MappingRow a b c d e f) (fun r => match r with Build_MappingRow _ _ _ _ _ _ => eq_refl end).
#[local] Instance flat_tag_row : Flat TagRow := flat_via
  (fun r => (tag_id r, t_mapping_id r, t_tag r, is_chain_root r, t_equality_key_id r))
  (fun '(a, b, c, d, e) => Build_TagRow a b c d e) (fun r => match r with Build_TagRow _ _ _ _ _ => eq_refl end).
#[local] Instance flat_custody_row : Flat CustodyRow := flat_via
  (fun r => (c_object_id r, scope_json r, reference_json r, c_envelope r, c_deleted r))
  (fun '(a, b, c, d, e) => Build_CustodyRow a b c d e) (fun r => match r with Build_CustodyRow _ _ _ _ _ => eq_refl end).
#[local] Instance flat_ssh_row : Flat SshKeyRow := flat_via
  (fun r => (key_id r, s_name r, s_comment r, s_key_type r, s_key_size r, s_public_key r, private_key_encrypted r, s_nonce r, s_auth_tag r,
             s_fingerprint r, s_created_at r, s_modified_at r, s_sync r))
  (fun '(a, b, c, d, e, f, g, h, i, j, k, l, m) => Build_SshKeyRow a b c d e f g h i j k l m)
  (fun r => match r with Build_SshKeyRow _ _ _ _ _ _ _ _ _ _ _ _ _ => eq_refl end).
#[local] Instance flat_totp_row : Flat TotpRow := flat_via
  (fun r => (totp_id r, t_entry_id r, secret_encrypted r, t_nonce r, t_auth_tag r, t_algorithm r, t_digits r, t_period r, t_issuer r,
             t_account_name r, t_created_at r, t_sync r))
  (fun '(a, b, c, d, e, f, g, h, i, j, k, l) => Build_TotpRow a b c d e f g h i j k l)
  (fun r => match r with Build_TotpRow _ _ _ _ _ _ _ _ _ _ _ _ => eq_refl end).
#[local] Instance flat_tombstone : Flat TombstoneRow := flat_via
  (fun r => (tb_entry_type r, tb_sync_version r, tb_deleted_at r, tb_origin_device_id r))
  (fun '(a, b, c, d) => Build_TombstoneRow a b c d) (fun r => match r with Build_TombstoneRow _ _ _ _ => eq_refl end).
#[local] Instance flat_conflict : Flat ConflictRow := flat_via
  (fun r => (cf_object_type r, remote_version r, remote_payload r, cf_origin_device_id r, cf_is_tombstone r, cf_received_at r))
  (fun '(a, b, c, d, e, f) => Build_ConflictRow a b c d e f) (fun r => match r with Build_ConflictRow _ _ _ _ _ _ => eq_refl end).
#[local] Instance flat_dead_letter : Flat DeadLetterRow := flat_via
  (fun r => (dl_mutation_id r, dl_object_id r, dl_object_type r, dl_reason r, dl_received_at r))
  (fun '(a, b, c, d, e) => Build_DeadLetterRow a b c d e) (fun r => match r with Build_DeadLetterRow _ _ _ _ _ => eq_refl end).
#[local] Instance flat_sync_meta : Flat SyncMetaRow := flat_via
  (fun r => (sm_vault_id r, sm_device_id r, sm_device_name r, sm_relay_url r, sm_last_push_sequence r, sm_last_pull_sequence r,
             sm_last_sync_at r, sm_sync_enabled r, sm_protocol_version r, sm_lineage_high_water r))
  (fun '(a, b, c, d, e, f, g, h, i, j) => Build_SyncMetaRow a b c d e f g h i j)
  (fun r => match r with Build_SyncMetaRow _ _ _ _ _ _ _ _ _ _ => eq_refl end).
#[local] Instance flat_equality : Flat EqualityRow := flat_via
  (fun r => (tag_cipher r, algorithm_version r, equality_key_id r, updated_at r))
  (fun '(a, b, c, d) => Build_EqualityRow a b c d) (fun r => match r with Build_EqualityRow _ _ _ _ => eq_refl end).
#[local] Instance flat_lifecycle : Flat LifecycleRow := flat_via
  (fun r => (password_rotated_at r, expires_at r, lc_rotation_interval_days_override r, lc_source r))
  (fun '(a, b, c, d) => Build_LifecycleRow a b c d) (fun r => match r with Build_LifecycleRow _ _ _ _ => eq_refl end).
#[local] Instance flat_membership : Flat MembershipRow := flat_via
  (fun r => (mb_entity_id r, mb_label r, mb_created_at r))
  (fun '(a, b, c) => Build_MembershipRow a b c) (fun r => match r with Build_MembershipRow _ _ _ => eq_refl end).
#[local] Instance flat_slot : Flat SlotRow := flat_via
  (fun r : SlotRow => (slot_uuid r, slot_type r, ks_kdf_params r, ks_wrapped_dek r, ks_dek_nonce r, ks_key_epoch r, created_at r, revoked_at r,
             format_version r))
  (fun '(a, b, c, d, e, f, g, h, i) => Build_Slot string a b c d e f g h i)
  (fun r => match r with Build_Slot _ _ _ _ _ _ _ _ _ _ => eq_refl end).
#[local] Instance flat_attempt : Flat Attempt := flat_via (fun a => (attempt_time a, ip_address a)) (fun '(a, b) => Build_Attempt a b)
  (fun a => match a with Build_Attempt _ _ => eq_refl end).
#[local] Instance flat_vault_db : Flat VaultDb := flat_via
  (fun d => (kdf_params_col d, wrapped_dek_col d, dek_nonce_col d, slot_registry_mac d, vault_uuid_col d, key_epoch_col d, key_slots d,
             (attempts d : list Attempt)))
  (fun '(a, b, c, d, e, f, g, h) => Build_VaultDb a b c d e f g h) (fun d => match d with Build_VaultDb _ _ _ _ _ _ _ _ => eq_refl end).
#[local] Instance flat_local_db : Flat LocalDb := flat_via
  (fun d => (metadata d, entries d, entries_seq d, domain_mappings d, domain_mapping_tags d, tags_seq d, custody_objects d, ssh_keys d,
             ssh_keys_seq d, totp_secrets d, totp_seq d, (sync_tombstones d, sync_conflicts d, sync_dead_letter d, sync_metadata d,
             secret_equality_index d, entry_lifecycle d, entity_memberships d, registry_state d)))
  (fun '(a, b, c, d, e, f, g, h, i, j, k, (l, m, n, o, p, q, r, s)) => Build_LocalDb a b c d e f g h i j k l m n o p q r s)
  (fun d => match d with Build_LocalDb _ _ _ _ _ _ _ _ _ _ _ _ _ _ _ _ _ _ _ => eq_refl end).
#[local] Instance flat_cols : Flat FormatCols := flat_via (fun c => (fc_version c, fc_format_version c)) (fun '(a, b) => Build_FormatCols a b)
  (fun c => match c with Build_FormatCols _ _ => eq_refl end).
#[local] Instance flat_device : Flat SyncDeviceRow := flat_via
  (fun r => (sd_device_id r, sd_device_name r, sd_device_type r, sd_public_key r, sd_registered_at r, sd_last_sync r, sd_revoked r, sd_revoked_at r))
  (fun '(a, b, c, d, e, f, g, h) => Build_SyncDeviceRow a b c d e f g h) (fun r => match r with Build_SyncDeviceRow _ _ _ _ _ _ _ _ => eq_refl end).
#[local] Instance flat_db_file : Flat DbFile := flat_via
  (fun x => (f_db x, f_cols x, (biometric_ref (f_device x), signing_key (f_device x), sync_devices (f_device x))))
  (fun '(a, b, (c, d, e)) => Build_DbFile a b (Build_DeviceCols c d e)) (fun x => match x with Build_DbFile _ _ (Build_DeviceCols _ _ _) => eq_refl end).
#[local] Instance sqlite_file : SqliteFile := {|
  vacuum_into x := put x; sqlite_open b := match take_one b with Some (x, []) => Some x | _ => None end |}.
#[local] Instance sqlite_file_laws : SqliteFileLaws.
Proof. intros x. cbn [sqlite_open vacuum_into sqlite_file]. pose proof (take_put x []) as E. rewrite app_nil_r in E. rewrite E. reflexivity. Qed.

(** A manifest in hexadecimal: one line without brackets. *)
#[local] Instance flat_manifest_slot : Flat ManifestSlot := flat_via
  (fun s => (ms_slot_uuid s, ms_slot_type s, ms_key_epoch s, ms_revoked s)) (fun '(a, b, c, d) => Build_ManifestSlot a b c d)
  (fun s => match s with Build_ManifestSlot _ _ _ _ => eq_refl end).
#[local] Instance flat_manifest : Flat BackupManifest := flat_via
  (fun m => (bm_magic m, bm_v m, bm_backup_id m, bm_created_at m, bm_app_version m, bm_vault_uuid m, bm_epoch m, bm_schema_version m,
             bm_vault_format_version m, bm_entry_count m, bm_tombstone_count m, (bm_kdf_params m, bm_wrapped_dek m, bm_dek_nonce m,
             bm_slot_registry_mac m, bm_slots m, (sn_sha256 (bm_snapshot m), sn_len (bm_snapshot m)), bm_mac m)))
  (fun '(a, b, c, d, e, f, g, h, i, j, k, (l, m, n, o, p, (q, r), s)) => Build_BackupManifest a b c d e f g h i j k l m n o p (Build_ManifestSnapshot q r) s)
  (fun m => match m with Build_BackupManifest _ _ _ _ _ _ _ _ _ _ _ _ _ _ _ _ (Build_ManifestSnapshot _ _) _ => eq_refl end).
#[local] Instance manifest_text : SerdeBytes BackupManifest | 0 := {|
  to_vec m := as_bytes (Concrete.hex (put m));
  from_slice b := hex_decode (string_of_list_byte b) ≫= fun d => match take_one d with Some (m, []) => Some m | _ => None end |}.
#[local] Instance manifest_text_laws : SerdeBytesLaws BackupManifest.
Proof.
  intros m. cbn [from_slice to_vec manifest_text]. change (as_bytes ?x) with (list_byte_of_string x). rewrite string_of_list_byte_of_string.
  change (Concrete.hex (put m)) with (hex_encode (put m)). rewrite hex_decode_encode.
  pose proof (take_put m []) as E. rewrite app_nil_r in E. cbn [mbind option_bind]. by rewrite E.
Qed.
Lemma hex_one_line b : Forall (fun c => c <> newline /\ c <> Byte.x0d) (as_bytes (Concrete.hex b)).
Proof.
  assert (forall i, 0 <= i < 16 -> byte_of_ascii (Concrete.hex_digit i) <> newline /\ byte_of_ascii (Concrete.hex_digit i) <> Byte.x0d) as G.
  { intros i Hi. rewrite <- (Z2Nat.id i) by lia.
    assert (forallb (fun n => let x := byte_of_ascii (Concrete.hex_digit (Z.of_nat n)) in
              negb (Byte.eqb x newline) && negb (Byte.eqb x Byte.x0d)) (seq 0 16) = true) as F by (vm_compute; reflexivity).
    rewrite forallb_forall in F. specialize (F (Z.to_nat i) ltac:(apply in_seq; lia)). cbv zeta in F. apply andb_true_iff in F as [F1 F2].
    split; intros Eq; rewrite Eq in *; discriminate. }
  induction b as [|x b IH]; [constructor|]. pose proof (Z_of_byte_range x).
  constructor; [|constructor; [|exact IH]]; apply G; Z.to_euclidean_division_equations; lia.
Qed.
#[local] Instance manifest_text_json : ManifestJson.
Proof.
  split; intros m.
  - pose proof (hex_one_line (put m)) as F. rewrite Forall_forall in F. split; intros Hc; by apply F in Hc as [? ?].
  - cbn [to_vec manifest_text]. unfold json_depth_exceeds. apply depth_scan_plain, Custody.Demo.hex_plain.
Qed.

(** A backup of the vault that [VaultDemo] creates, without entries yet. *)
Definition kept_world : World := {|
  w_db := {| (w_db world0) with metadata := d_db disk0; registry_state := ∅ |}; w_on_disk := true; w_contents := None; w_tick := 0 |}.
Definition format : FormatCols := {| fc_version := 14; fc_format_version := Some 3 |}.
Definition device : DeviceCols := {| biometric_ref := None; signing_key := None; sync_devices := [] |}.
Definition working : BackupIo := {| io_parent := true; io_staging := true; io_vacuum := true; io_read := true; io_write := true; io_rename := true |}.
Definition documents : Dir := {| dir_files := ∅; dir_dirs := ∅ |}.
Abbreviation backed_up := (create_backup session0 working "staging" "tmp" "vault.spbackup" "0.9.0" (from_u128 9) 500 format device kept_world documents).
Abbreviation staged := (stage_backup session0 working demo_uuid "9" "0.9.0" 500 format device kept_world).

Lemma kept_opens : session_dek session0 = Ok demo_dek /\ opens_to password1 demo_dek (metadata (w_db kept_world)).
Proof. destruct healthy0 as [Hs Hh]. split; [reflexivity|]. exact (h_opens _ _ _ _ _ Hh). Qed.

Lemma backup_roundtrip_witness : exists sum file m snap,
  backed_up = (Ok sum, {| documents with dir_files := <["vault.spbackup" := file]> ∅ |}) /\
  read_bundle file = Ok {| pb_manifest := m; pb_snapshot := snap |} /\ verify_bundle_file file password1 = Ok m /\
  sqlite_open snap = Some {| f_db := w_db kept_world; f_cols := format; f_device := device |}.
Proof.
  destruct kept_opens as [Hd Ho].
  assert (match backed_up.1 with Ok _ => true | Err _ => false end = true) as Hok by (vm_compute; reflexivity).
  destruct backed_up as [[sum|e] dir'] eqn:E; [|discriminate].
  destruct (backup_roundtrip session0 working "staging" "tmp" "vault.spbackup" "0.9.0" (from_u128 9) 500 format device kept_world documents
    password1 demo_dek (Ok sum) dir' Hd Ho ltac:(apply not_elem_of_empty) eq_refl ltac:(discriminate) E)
    as (file & m & snap & _ & Hdir & Hr & Hv & Hs & _). exists sum, file, m, snap.
  split; [exact (f_equal (pair (Ok sum)) Hdir)|]. split; [exact Hr|]. split; [exact Hv|exact Hs].
Defined.

(** [manifest_wf], decided. *)
Definition small (n : nat) : bool := Z.of_nat n <? 2 ^ 64.
Definition fits (z : Z) : bool := (- 2 ^ 63 <=? z) && (z <? 2 ^ 63).
Definition wf_manifest (m : BackupManifest) : bool :=
  forallb (fun t => small (length (as_bytes t))) [bm_magic m; bm_backup_id m; bm_app_version m; bm_vault_uuid m; bm_kdf_params m;
    bm_wrapped_dek m; bm_dek_nonce m; default EmptyString (bm_slot_registry_mac m); sn_sha256 (bm_snapshot m)] &&
  forallb fits [bm_v m; bm_created_at m; bm_epoch m; bm_schema_version m; bm_vault_format_version m; bm_entry_count m; bm_tombstone_count m] &&
  ((0 <=? sn_len (bm_snapshot m)) && (sn_len (bm_snapshot m) <? 2 ^ 64)) && small (length (bm_slots m)) &&
  forallb (fun s => small (length (as_bytes (ms_slot_uuid s))) && small (length (as_bytes (ms_slot_type s))) && fits (ms_key_epoch s)) (bm_slots m).
Lemma small_sound n : small n = true -> Z.of_nat n < 2 ^ 64.
Proof. unfold small. lia. Qed.
Lemma fits_sound z : fits z = true -> in_i64 z.
Proof. unfold fits, in_i64. lia. Qed.
Lemma wf_manifest_sound m : wf_manifest m = true -> manifest_wf m.
Proof.
  unfold wf_manifest. rewrite !andb_true_iff. intros [[[[A B] [C1 C2]] D] F]. rewrite forallb_forall in A, B, F. split_and!.
  - apply Forall_forall. intros t Ht. apply small_sound, A. by apply list_elem_of_In.
  - apply Forall_forall. intros t Ht. apply fits_sound, B. by apply list_elem_of_In.
  - unfold in_u64. lia.
  - apply small_sound in D. unfold in_u64. lia.
  - apply Forall_forall. intros t Ht. apply list_elem_of_In, F in Ht. rewrite !andb_true_iff in Ht. destruct Ht as [[X Y] W].
    split; [by apply small_sound|]. split; [by apply small_sound|by apply fits_sound].
Qed.

(** The genuine bundle is one file that verifies. *)
Lemma backup_tamper_evident_witness : exists m snap file p m', staged = Ok (m, snap) /\ read_bundle file = Ok p /\
  verify_bundle_file file password1 = Ok m' /\ m' = {| m with bm_mac := bm_mac m' |} /\ pb_snapshot p = snap.
Proof.
  destruct kept_opens as [Hd Ho].
  assert (match staged with
          | Ok (m, _) => wf_manifest m && negb (String.eqb (default EmptyString (bm_slot_registry_mac m)) EmptyString)
          | Err _ => false end = true) as Hok by (vm_compute; reflexivity).
  destruct staged as [[m snap]|e] eqn:E; [|discriminate]. apply andb_true_iff in Hok as [Hok Hreg%negb_true_iff].
  apply String.eqb_neq in Hreg. apply wf_manifest_sound in Hok.
  destruct (stage_backup_ok _ _ _ _ _ _ _ _ _ _ _ E) as (dek' & k & Hd' & Hk & _ & _ & _ & Hm & Hl1 & Hl2).
  assert (dek' = demo_dek) as -> by congruence. cbv zeta in Hm.
  assert (read_bundle (bundle_text (to_vec m) snap) = Ok {| pb_manifest := m; pb_snapshot := snap |}) as Hr
    by (apply read_bundle_written; first [assumption | rewrite Hm; reflexivity]).
  destruct (manifest_unlocks password1 demo_dek "9" "0.9.0" 500 demo_uuid (w_db kept_world) format snap (bm_mac m) Ho) as [h Hh].
  assert (unwrap_manifest_dek m password1 = Ok (h, demo_dek)) as Hu by (rewrite Hm in Hh |- *; exact Hh).
  assert (verify_bundle_file (bundle_text (to_vec m) snap) password1 = Ok m) as Hv.
  { unfold verify_bundle_file. rewrite Hr. cbn [mbind result_bind].
    apply (written_verifies k password1 demo_dek); [exact Hk | rewrite Hm; reflexivity | rewrite Hm; reflexivity | exists h; exact Hu]. }
  exists m, snap, (bundle_text (to_vec m) snap), {| pb_manifest := m; pb_snapshot := snap |}, m.
  split; [reflexivity|]. split; [exact Hr|]. split; [exact Hv|].
  destruct (backup_tamper_evident session0 working demo_uuid "9" "0.9.0" 500 format device kept_world m snap _ password1 demo_dek _ h m
    E Hd Hreg Hr Hv Hu Hok Hok) as [Hsame|[[Hne _]|(k' & _ & Hne & _)]].
  - exact Hsame.
  - destruct (Hne eq_refl).
  - destruct (Hne eq_refl).
Defined.
End Demo.
