(* ===== verification/Restore.v ===== *)
(** * Core: opening a whole vault, and restoring a backup onto it
    ([vault/mod.rs], [vault/registry_ops.rs], [vault/backup_ops.rs],
    [database/schema.rs])

    [open_manager] is [VaultManager::open]: the schema gate, the keys, the content
    receipts and the maintenance passes of the other files in the order the code
    runs them.  [restore_bundle] verifies a backup, checks it in a staged copy,
    keeps the vault it replaces, swaps the file and opens the result.

    A [Place] is the vault file and the files beside it, its write-ahead log
    among them: [p_vault] is what a reader of the path sees, and [p_bare] what the
    file alone holds while a log has frames that it lacks.  The removal of a log
    is taken to succeed, and a checkpoint to fold all of it or nothing.  The
    migrations of an older schema are an argument.  Tracing and the audit entries
    are left out; the flags of [RestoreIo] say which of the file operations and
    which of the probes of the live vault succeed. *)

From S2P Require Import Prelude Text ThirdParty Aad Envelope Keyring DbWire CoreError SyncWire EpochGuard Lockout KeySlots VaultKeys VaultLife.
From S2P Require Import EnvelopeOps LocalDb ContentGuard ContentFacts Registry Entries EntriesFacts Totp DomainTags DomainOps SyncModels SyncOutbox Custody Activation Sweep Backup.
From S2P Require Import CoreDemo KeyDemo EntriesDemo VaultDemo.
From Stdlib Require Import ZArith Lia Strings.String Strings.Byte.
From stdpp Require Import base list option strings numbers gmap.
From S2P Require Import Text.
Open Scope Z_scope.

(** ** The files *)

(** A SQLite file with the tables of a vault, one without them (an empty file
    too), or bytes that are not a database. *)
Inductive VaultFile := Vault (f : DbFile) | Blank | Foreign (b : bytes).

(** A staging directory that is still there. *)
Record StagingDir := { st_staged : option VaultFile; st_pre : option VaultFile }.

Record Place := {
  p_vault : option VaultFile;      (* as it reads, with its log *)
  p_bare : option VaultFile;       (* the file alone, when there is a log *)
  p_epoch : File;                  (* the epoch sidecar *)
  p_contents : option bytes;       (* the content receipts *)
  p_retained : option VaultFile;   (* <vault>.pre-restore *)
  p_staging : list StagingDir;
  p_keychain : gset string;        (* biometric entries of the system *)
  p_tick : nat;
}.

(** ** Registry index *)

(** [registry_backfill_needed], [set_registry_state]. *)
Definition registry_backfill_needed (db : LocalDb) : bool :=
  negb (bool_decide (registry_state db !! "backfill_complete"%string = Some "1"%string)) ||
  negb (bool_decide (registry_state db !! "equality_key_id"%string = Some (i64_display EQUALITY_KEY_ID))).

Record SweepReport := {
  rs_scanned : Z; rs_inserted : Z; rs_unchanged : Z; rs_rotated : Z; rs_rekeyed : Z; rs_removed : Z; rs_failed : Z; rs_orphans_pruned : Z }.
Definition empty_sweep : SweepReport := {|
  rs_scanned := 0; rs_inserted := 0; rs_unchanged := 0; rs_rotated := 0; rs_rekeyed := 0; rs_removed := 0; rs_failed := 0; rs_orphans_pruned := 0 |}.
Definition count_upsert (rep : SweepReport) (u : TagUpsert) : SweepReport :=
  match u with
  | Inserted => {| rep with rs_inserted := rs_inserted rep + 1 |}
  | Unchanged => {| rep with rs_unchanged := rs_unchanged rep + 1 |}
  | Rotated => {| rep with rs_rotated := rs_rotated rep + 1 |}
  | Rekeyed => {| rep with rs_rekeyed := rs_rekeyed rep + 1 |}
  | Removed => {| rep with rs_removed := rs_removed rep + 1 |}
  end.

(** The rows of a registry table whose entry is missing or deleted. *)
Definition orphan (db : LocalDb) (id : Z) : bool := negb (existsb (fun r => (entry_id r =? id) && visible r) (entries db)).
Definition prune {A} (db : LocalDb) (t : gmap Z A) : gmap Z A := filter (fun p => orphan db p.1 = false) t.
Definition prune_orphans (db : LocalDb) : LocalDb :=
  {| db with secret_equality_index := prune db (secret_equality_index db); entry_lifecycle := prune db (entry_lifecycle db);
             entity_memberships := prune db (entity_memberships db) |}.
Definition orphan_count (db : LocalDb) : Z :=
  let gone {A} (t : gmap Z A) := Z.of_nat (size t) - Z.of_nat (size (prune db t)) in
  gone (secret_equality_index db) + gone (entry_lifecycle db) + gone (entity_memberships db).

(** ** Schema *)

(** [validate_schema_version]. *)
Definition validate_schema_version (run_migrations : DbFile -> Res unit * DbFile) (f : DbFile) : Res unit * DbFile :=
  let format := stored_format_version (f_cols f) in
  let version := fc_version (f_cols f) in
  if CURRENT_VAULT_FORMAT_VERSION <? format then (Err (Database (UnsupportedFutureFormat format CURRENT_VAULT_FORMAT_VERSION)), f)
  else if version =? CURRENT_SCHEMA_VERSION then (Ok tt, f)
  else if version <? CURRENT_SCHEMA_VERSION then
    let '(r, f) := run_migrations f in
    (_ ← r;
     err_if (negb (fc_version (f_cols f) =? CURRENT_SCHEMA_VERSION))
       (Database (SchemaMismatch CURRENT_SCHEMA_VERSION (fc_version (f_cols f)))), f)
  else (Err (Database (UnsupportedFutureSchema version CURRENT_SCHEMA_VERSION)), f).

(** ** Restoring: data *)

Record RestoreOptions := { allow_replace : bool; allow_epoch_rewind : bool; disable_sync : bool }.
Record RestoreReport := {
  rr_bundle_backup_id : string;
  rr_vault_uuid : string;
  rr_from_epoch : option Z;
  rr_to_epoch : Z;
  rr_epoch_rewound : bool;
  rr_sync_disabled : bool;
  rr_retained : bool;              (* pre_restore_snapshot is there *)
  rr_entries : Z;
}.
Inductive SwapPhase := PreRestoreSnapshot | SidecarRemoval | Swap | SidecarRebaseline.
#[global] Instance SwapPhase_eq_dec : EqDecision SwapPhase.
Proof. solve_decision. Defined.

Record LiveState := { ls_key_epoch : option Z; ls_sync_enabled : bool; ls_openable : bool }.

(** What the system answers.  [ri_target] refuses a link, a directory or a file
    with loose permissions; [ri_open], [ri_config] and [ri_authority] are the three
    reads of the probe, and [ri_fold] says that closing it folds the log into the
    file, as SQLite does when no other process has the file open; [ri_checkpoint]
    and [ri_exclusive] fail when another process uses the vault. *)
Record RestoreIo := {
  ri_target : Res unit;
  ri_open : bool;
  ri_config : bool;
  ri_authority : bool;
  ri_fold : bool;
  ri_staging : bool;
  ri_stage : bool;
  ri_checkpoint : bool;
  ri_exclusive : bool;
  ri_preserve : bool;
  ri_swap : bool;
  ri_keychain : bool;
  ri_reopen : bool;
  ri_rebase : bool;
  ri_reopen_again : bool;
  ri_finalize : bool;
}.

(** The arguments of an opening: clocks, sidecar writes, the commit of the
    activation. *)
Record OpenIo := {
  oi_now : Z; oi_now' : Z; oi_clock : string; oi_check : bool; oi_heal : bool; oi_boot : bool; oi_activate : bool }.

(** The log folded into the file, and removed. *)
Definition checkpointed (p : Place) : Place := {| p with p_bare := None |}.
Definition bare_file (p : Place) : option VaultFile :=
  match p_vault p, p_bare p with Some _, Some b => Some b | v, _ => v end.
Definition drop_log (p : Place) : Place := {| p with p_vault := bare_file p; p_bare := None |}.

(** [classify_live_target]: the facts of the file at the path.  [SyncConfig::load]
    reads columns that came with schema 10 and 13, and no table before schema 2;
    the columns of the second query came with schemas 5 and 6. *)
Definition SYNC_TABLE_SCHEMA : Z := 2.
Definition LINEAGE_SCHEMA : Z := 13.
Definition sync_on (db : LocalDb) : bool := match sync_metadata db with Some r => sm_sync_enabled r | None => false end.
Definition unknowable : LiveState := {| ls_key_epoch := None; ls_sync_enabled := true; ls_openable := false |}.
Definition live_state (io : RestoreIo) (v : VaultFile) : LiveState :=
  if negb (ri_open io) then unknowable
  else if negb (ri_config io) then unknowable
  else
    match v with
    | Vault f =>
      if fc_version (f_cols f) <? SYNC_TABLE_SCHEMA then {| ls_key_epoch := None; ls_sync_enabled := false; ls_openable := false |}
      else if fc_version (f_cols f) <? LINEAGE_SCHEMA then unknowable
      else if ri_authority io then
        {| ls_key_epoch := Some (epoch_of (metadata (f_db f))); ls_sync_enabled := sync_on (f_db f); ls_openable := true |}
      else {| ls_key_epoch := None; ls_sync_enabled := sync_on (f_db f); ls_openable := false |}
    | Blank => {| ls_key_epoch := None; ls_sync_enabled := false; ls_openable := false |}
    | Foreign _ => unknowable
    end.
Definition classify_live_target (io : RestoreIo) (p : Place) : Res (option LiveState) * Place :=
  match p_vault p with
  | None => (Ok None, p)
  | Some v =>
    match ri_target io with
    | Err e => (Err e, p)
    | Ok _ => (Ok (Some (live_state io v)), if ri_fold io then checkpointed p else p)
    end
  end.

(** [take_pre_restore_snapshot]: a copy of the database after a checkpoint, or of
    the bytes of the file, without its log. *)
Definition take_pre_restore_snapshot (io : RestoreIo) (openable : bool) (p : Place) : Res (option VaultFile) * Place :=
  if openable then
    if negb (ri_checkpoint io) then (Err (InvalidInput "the live vault could not be checkpointed"), p)
    else
      (_ ← err_if (negb (ri_exclusive io)) (InvalidInput "vault appears to be in use by another SentinelPass process");
       _ ← err_if (negb (ri_preserve io)) (Database Sqlite);
       Ok (p_vault p), checkpointed p)
  else (_ ← err_if (negb (ri_preserve io)) IoError; Ok (bare_file p), p).

(** [neutralize_snapshot_sync_and_biometric]. *)
Definition had_sync_state (f : DbFile) : bool :=
  match sync_metadata (f_db f) with
  | Some r => sm_sync_enabled r || bool_decide (is_Some (sm_relay_url r)) || bool_decide (is_Some (signing_key (f_device f)))
  | None => false
  end.
Definition unpaired (r : SyncMetaRow) : SyncMetaRow := {|
  sm_vault_id := None; sm_device_id := None; sm_device_name := None; sm_relay_url := None; sm_last_push_sequence := 0;
  sm_last_pull_sequence := 0; sm_last_sync_at := None; sm_sync_enabled := false; sm_protocol_version := sm_protocol_version r;
  sm_lineage_high_water := sm_lineage_high_water r |}.
Definition neutralize (f : DbFile) : DbFile := {|
  f_db := {| (f_db f) with sync_metadata := unpaired <$> sync_metadata (f_db f); sync_tombstones := ∅ |};
  f_cols := f_cols f;
  f_device := {| biometric_ref := None;
                 signing_key := match sync_metadata (f_db f) with Some _ => None | None => signing_key (f_device f) end;
                 sync_devices := [] |} |}.

Section Operations.
Context `{Environment, Chrono, Hmac, Sha256, HexDecode, UuidText, Base64, Base32, Aead, UrlParse, Argon2id, SqliteFile}.
Context `{SerdeBytes AadContext, SerdeBytes EnvelopeDoc, SerdeBytes EntryTuple, SerdeBytes MappingTuple, SerdeBytes TagTuple}.
Context `{SerdeBytes CustodyTuple, SerdeBytes State, SerdeBytes Document}.
Context `{SerdeBytes CustodyScope, SerdeBytes ObjectRef, SerdeBytes (CustodyScope * ObjectRef)}.
Context `{SerdeBytes KdfDocument, SerdeBytes WrapDocument, SerdeBytes NonceDocument, SerdeBytes BackupManifest}.
Context `{Bincode KdfParams, Bincode WrappedKey, Bincode LegacyWrappedKey, Bincode bytes}.
Context `{BincodeSer KdfParams, BincodeSer WrappedKey, BincodeSer bytes, Bincode EncryptedEntry, BincodeSer EncryptedEntry}.
Variable run_migrations : DbFile -> Res unit * DbFile.

(** ** Opening *)

(** [sweep_registry_index]. *)
Definition index_row (s : Session) (dek equality_key : bytes) (now : Z) (r : EntryRow) (rep : SweepReport) : M SweepReport :=
  _ ← verify_row dek r;
  match cred_parse (e_credential_type r) with
  | Err _ => mret rep
  | Ok cred =>
    if negb (is_retrievable_secret cred) then mret rep
    else
      match open_entry_field s (sync_id (e_sync r)) cred EntryPassword (e_password r) with
      | Err _ => mret {| rep with rs_failed := rs_failed rep + 1 |}
      | Ok secret =>
        outcome ← upsert_equality_tag_with_key dek equality_key (entry_id r) cred secret now;
        mret (count_upsert rep outcome)
      end
  end.
Fixpoint index_rows (s : Session) (dek equality_key : bytes) (now : Z) (rows : list EntryRow) (rep : SweepReport) : M SweepReport :=
  match rows with
  | [] => mret rep
  | r :: rows => rep ← index_row s dek equality_key now r rep; index_rows s dek equality_key now rows rep
  end.
Definition sweep_registry_index (s : Session) (now : Z) : M SweepReport :=
  _ ← require_unlocked s;
  dek ← lift (session_dek s);
  key ← lift (map_err Crypto (equality_key (key_hierarchy s)));
  transaction (
    _ ← verify_snapshot dek;
    rows ← query (list_raw default_filter);
    rep ← index_rows s dek key now rows {| empty_sweep with rs_scanned := Z.of_nat (length rows) |};
    pruned ← query orphan_count;
    _ ← execute prune_orphans;
    _ ← execute (set_registry_value "backfill_complete" "1");
    _ ← execute (set_registry_value "equality_key_id" (i64_display EQUALITY_KEY_ID));
    mret {| rep with rs_orphans_pruned := pruned |}).

(** A statement on the vault at the path. *)
Definition world_of (f : DbFile) (p : Place) : World := {|
  w_db := f_db f; w_on_disk := true; w_contents := p_contents p; w_tick := p_tick p |}.
Definition keep_world (f : DbFile) (w : World) (p : Place) : Place := {| p with
  p_vault := Some (Vault {| f with f_db := w_db w |}); p_contents := w_contents w; p_tick := w_tick w |}.
Definition run_vault {A} (m : M A) (f : DbFile) (p : Place) : Res A * (DbFile * Place) :=
  let '(r, w) := m (world_of f p) in (r, ({| f with f_db := w_db w |}, keep_world f w p)).

(** The passes after the unlock: their errors are logged and ignored. *)
Definition domain_pass (s : Session) (f : DbFile) (p : Place) : DbFile * Place :=
  if domain_backfill_needed (f_db f) then (run_vault (sweep_domain_mappings s) f p).2 else (f, p).
Definition blob_pass (s : Session) (clock : string) (f : DbFile) (p : Place) : DbFile * Place :=
  if v2_blob_sweep_needed (f_db f) then (run_vault (sweep_v1_blobs_to_v2 s clock) f p).2 else (f, p).
Definition registry_pass (s : Session) (now : Z) (f : DbFile) (p : Place) : DbFile * Place :=
  if registry_backfill_needed (f_db f) then (run_vault (sweep_registry_index s now) f p).2 else (f, p).
Definition activation_pass (s : Session) (clock : string) (commit : bool) (f : DbFile) (p : Place) : DbFile * Place :=
  if v2_activation_needed (f_cols f) (f_db f) then
    let '(_, (cols, w)) := activate_v2_format s clock commit (f_cols f) (world_of f p) in
    let f := {| f with f_cols := cols |} in
    ({| f with f_db := w_db w |}, keep_world f w p)
  else (f, p).
Definition maintain (o : OpenIo) (s : Session) (f : DbFile) (p : Place) : Res Session * Place :=
  match session_dek s with
  | Err e => (Err e, p)
  | Ok dek =>
    match run_vault (initialize dek) f p with
    | (Err e, (_, p)) => (Err e, p)
    | (Ok _, (f, p)) =>
      let '(f, p) := domain_pass s f p in
      let '(f, p) := blob_pass s (oi_clock o) f p in
      let '(f, p) := registry_pass s (oi_now o) f p in
      let '(f, p) := activation_pass s (oi_clock o) (oi_activate o) f p in
      let '(r, (_, p)) := run_vault (initialize dek) f p in
      (_ ← r; Ok s, p)
    end
  end.

(** [VaultManager::open]; a missing file is created empty before the gate finds
    no vault in it. *)
Definition open_manager (o : OpenIo) (password : bytes) (p : Place) : Res Session * Place :=
  match p_vault p with
  | None => (Err (Database Sqlite), {| p with p_vault := Some Blank |})
  | Some Blank | Some (Foreign _) => (Err (Database Sqlite), p)
  | Some (Vault f) =>
    let '(r, f) := validate_schema_version run_migrations f in
    let p := {| p with p_vault := Some (Vault f) |} in
    match r with
    | Err e => (Err e, p)
    | Ok _ =>
      let '(r, d) := open_vault (oi_now o) (oi_now' o) (oi_check o) (oi_heal o) (oi_boot o) password
                       {| d_db := metadata (f_db f); d_sidecar := p_epoch p |} in
      let f := {| f with f_db := {| (f_db f) with metadata := d_db d |} |} in
      let p := {| p with p_vault := Some (Vault f); p_epoch := d_sidecar d |} in
      match r with
      | Err e => (Err e, p)
      | Ok s => maintain o s f p
      end
    end
  end.

(** ** Checking the staged copy *)

(** [validate_staged_snapshot]: the copy after the migrations.  Every copy has
    the tables of the keys, so the probes for them are left out. *)
Definition same_provenance (m : BackupManifest) (f : DbFile) : Res unit :=
  let md := metadata (f_db f) in
  _ ← err_if (negb (bool_decide (vault_uuid_col md = Some (bm_vault_uuid m)))) (InvalidInput "staged snapshot identity does not match the manifest");
  _ ← err_if (negb (epoch_of md =? bm_epoch m)) (InvalidInput "staged snapshot epoch does not match the manifest epoch");
  _ ← err_if (negb (fc_version (f_cols f) =? bm_schema_version m)) (InvalidInput "staged snapshot schema version does not match the manifest");
  err_if (negb (stored_format_version (f_cols f) =? bm_vault_format_version m))
    (InvalidInput "staged snapshot format version does not match the manifest").
Definition same_key_material (m : BackupManifest) (f : DbFile) : Res unit :=
  let md := metadata (f_db f) in
  kdf ← manifest_b64 (bm_kdf_params m);
  wrap ← manifest_b64 (bm_wrapped_dek m);
  nonce ← manifest_b64 (bm_dek_nonce m);
  mac ← (match bm_slot_registry_mac m with Some v => b ← manifest_b64 v; Ok (Some b) | None => Ok None end : Res (option bytes));
  err_if (negb (bool_decide (kdf_params_col md = kdf) && bool_decide (wrapped_dek_col md = wrap) &&
                bool_decide (dek_nonce_col md = nonce) && bool_decide (slot_registry_mac md = mac)))
    (InvalidInput "staged snapshot key material does not match the authenticated manifest").
Definition validate_staged_snapshot (m : BackupManifest) (password : bytes) (f : DbFile) : Res DbFile :=
  '(h, dek) ← unwrap_manifest_dek m password;
  _ ← same_provenance m f;
  _ ← same_key_material m f;
  _ ← err_if (negb (bool_decide (slot_inventory (metadata (f_db f)) = bm_slots m)))
        (InvalidInput "staged snapshot key-slot inventory does not match the manifest");
  let '(r, f) := validate_schema_version run_migrations f in
  _ ← r;
  let md := metadata (f_db f) in
  _ ← (if bool_decide (is_Some (slot_registry_mac md)) then verify_slot_registry h md else Ok tt : Res unit);
  _ ← err_if (negb (existsb is_usable (key_slots md))) (InvalidInput "staged snapshot has no usable key slot after migration");
  report ← verify_snapshot_envelopes dek (bm_vault_uuid m) (f_cols f) (f_db f);
  _ ← err_if (negb (bool_decide (length (failures report) = 0%nat))) (InvalidInput "staged snapshot failed the full decryption check");
  Ok f.

(** ** Restoring *)

(** [epoch_rewound]: the sidecar records a state that the restored one would be
    refused against. *)
Definition manifest_digest (m : BackupManifest) : Res bytes :=
  mac ← (match bm_slot_registry_mac m with Some v => manifest_b64 v | None => Ok [] end : Res bytes);
  kdf ← manifest_b64 (bm_kdf_params m);
  wrap ← manifest_b64 (bm_wrapped_dek m);
  nonce ← manifest_b64 (bm_dek_nonce m);
  Ok (digest_of kdf wrap nonce mac (bm_epoch m)).
Definition rewinds (m : BackupManifest) (digest : bytes) (f : File) : bool :=
  match peek_full f with
  | Some (uuid, sc_epoch, sc_digest) =>
    String.eqb uuid (bm_vault_uuid m) &&
    ((bm_epoch m <? sc_epoch) || ((bm_epoch m =? sc_epoch) && negb (String.eqb sc_digest (Text.hex digest))))
  | None => false
  end.

(** Steps 1 to 3: what the bundle, the target and the user allow. *)
Definition gates (opts : RestoreOptions) (m : BackupManifest) (live : option LiveState) (p : Place) : Res bool :=
  _ ← (match live with
       | Some state =>
         _ ← err_if (negb (allow_replace opts)) (InvalidInput "a file exists; restoring replaces it");
         err_if (ls_sync_enabled state && negb (disable_sync opts)) (InvalidInput "the live vault has sync enabled")
       | None => Ok tt
       end : Res unit);
  digest ← manifest_digest m;
  let epoch_rewound := rewinds m digest (p_epoch p) in
  _ ← err_if (epoch_rewound && negb (allow_epoch_rewind opts)) (InvalidInput "bundle epoch would re-base the epoch high-water record");
  Ok epoch_rewound.
Definition admit_restore (io : RestoreIo) (opts : RestoreOptions) (parsed : ParsedBundle) (password : bytes) (p : Place)
    : Res (BackupManifest * option LiveState * bool) * Place :=
  match verify_bundle_authenticity parsed password with
  | Err e => (Err e, p)
  | Ok m =>
    let '(live, p) := classify_live_target io p in
    (live ← live; epoch_rewound ← gates opts m live p; Ok (m, live, epoch_rewound), p)
  end.

(** Steps 4 and 5: the staged copy, checked and without its sync lineage. *)
Definition stage_restore (io : RestoreIo) (m : BackupManifest) (password snapshot : bytes) : Res (DbFile * bool * option string) :=
  _ ← err_if (negb (ri_staging io)) IoError;
  _ ← err_if (negb (ri_stage io)) IoError;
  f ← ok_or (sqlite_open snapshot) (Database Sqlite);
  f ← validate_staged_snapshot m password f;
  Ok (neutralize f, had_sync_state f, biometric_ref (f_device f)).

(** [verify_bundle_file] with [deep]: the dry run of the staging. *)
Definition verify_bundle_deep (io : RestoreIo) (file password : bytes) : Res BackupManifest :=
  parsed ← read_bundle file;
  m ← verify_bundle_authenticity parsed password;
  _ ← err_if (negb (ri_staging io)) IoError;
  _ ← err_if (negb (ri_stage io)) IoError;
  f ← ok_or (sqlite_open (pb_snapshot parsed)) (Database Sqlite);
  _ ← validate_staged_snapshot m password f;
  Ok m.

(** Steps 6 and 7 up to the rename. *)
Definition interrupted (abort : option SwapPhase) (phase : SwapPhase) : Res unit :=
  err_if (bool_decide (abort = Some phase)) (InvalidInput "restore interrupted").
Definition before_swap (io : RestoreIo) (abort : option SwapPhase) (live : option LiveState) (p : Place) : Res (option VaultFile) * Place :=
  let '(pre, p) := match live with Some state => take_pre_restore_snapshot io (ls_openable state) p | None => (Ok None, p) end in
  match (pre ← pre; _ ← interrupted abort PreRestoreSnapshot; Ok pre) with
  | Err e => (Err e, p)
  | Ok pre =>
    (_ ← interrupted abort SidecarRemoval;
     _ ← err_if (negb (ri_swap io)) IoError;
     Ok pre, drop_log p)
  end.

(** The rename, and the keychain entry that the restored file named. *)
Definition swap (io : RestoreIo) (f : DbFile) (pre : option VaultFile) (bio : option string) (p : Place) : Place := {| p with
  p_vault := Some (Vault f); p_staging := {| st_staged := None; st_pre := pre |} :: p_staging p;
  p_keychain := match bio with Some b => if ri_keychain io then p_keychain p ∖ {[ b ]} else p_keychain p | None => p_keychain p end |}.

(** Step 8: the epoch sidecar, then the content receipts. *)
Definition needs_rebase (m : BackupManifest) (epoch_rewound : bool) (f : File) : bool :=
  match peek f with
  | None => true
  | Some (uuid, sc_epoch) => negb (String.eqb uuid (bm_vault_uuid m)) || (sc_epoch <? bm_epoch m) || epoch_rewound
  end.
Definition rebase_sidecar (io : RestoreIo) (m : BackupManifest) (epoch_rewound : bool) (f : DbFile) (p : Place) : Res unit * Place :=
  if negb (ri_reopen io) then (Err (Database Sqlite), p)
  else if needs_rebase m epoch_rewound (p_epoch p) then
    let '(r, e) := rebase (ri_rebase io) (bm_vault_uuid m) (bm_epoch m) (material_digest (metadata (f_db f))) (p_epoch p) in
    (map_err (fun _ => InvalidInput "the restore committed, but re-baselining the epoch sidecar failed") r, {| p with p_epoch := e |})
  else (Ok tt, p).
Definition rebase_receipts (io : RestoreIo) (m : BackupManifest) (password : bytes) (f : DbFile) (p : Place) : Res unit * Place :=
  if negb (ri_reopen_again io) then (Err (Database Sqlite), p)
  else
    match unwrap_manifest_dek m password with
    | Err e => (Err e, p)
    | Ok (_, dek) => let '(r, (_, p)) := run_vault (rebase_verified_restore dek) f p in (r, p)
    end.

(** Step 10: the copy of the replaced vault takes its place.  Without one the
    staging directory stays. *)
Definition finalize (io : RestoreIo) (pre : option VaultFile) (p : Place) : Res bool * Place :=
  match pre with
  | Some v =>
    if negb (ri_finalize io) then (Err IoError, p)
    else (Ok true, {| p with p_retained := Some v; p_staging := tail (p_staging p) |})
  | None => (Ok false, p)
  end.

(** From the rename on. *)
Definition after_swap (io : RestoreIo) (o : OpenIo) (abort : option SwapPhase) (m : BackupManifest) (epoch_rewound : bool)
    (password : bytes) (f : DbFile) (pre : option VaultFile) (p : Place) : Res bool * Place :=
  match interrupted abort Swap with
  | Err e => (Err e, p)
  | Ok _ =>
    match rebase_sidecar io m epoch_rewound f p with
    | (Err e, p) => (Err e, p)
    | (Ok _, p) =>
      match rebase_receipts io m password f p with
      | (Err e, p) => (Err e, p)
      | (Ok _, p) =>
        match interrupted abort SidecarRebaseline with
        | Err e => (Err e, p)
        | Ok _ =>
          match open_manager o password p with
          | (Err e, p) => (Err e, p)
          | (Ok _, p) => finalize io pre p
          end
        end
      end
    end
  end.

(** [restore_from_parsed] with its interruption points; production code passes
    [None].  An error before the rename removes the staging directory. *)
Definition restore_from_parsed (io : RestoreIo) (o : OpenIo) (opts : RestoreOptions) (abort : option SwapPhase)
    (parsed : ParsedBundle) (password : bytes) (p : Place) : Res RestoreReport * Place :=
  match admit_restore io opts parsed password p with
  | (Err e, p) => (Err e, p)
  | (Ok (m, live, epoch_rewound), p) =>
    match stage_restore io m password (pb_snapshot parsed) with
    | Err e => (Err e, p)
    | Ok (f, had, bio) =>
      match before_swap io abort live p with
      | (Err e, p) => (Err e, p)
      | (Ok pre, p) =>
        let '(r, p) := after_swap io o abort m epoch_rewound password f pre (swap io f pre bio p) in
        (retained ← r;
         Ok {| rr_bundle_backup_id := bm_backup_id m; rr_vault_uuid := bm_vault_uuid m;
               rr_from_epoch := live ≫= ls_key_epoch; rr_to_epoch := bm_epoch m; rr_epoch_rewound := epoch_rewound;
               rr_sync_disabled := had || disable_sync opts; rr_retained := retained; rr_entries := bm_entry_count m |}, p)
      end
    end
  end.

(** [restore_bundle] of the bytes of a bundle at another path. *)
Definition restore_bundle (io : RestoreIo) (o : OpenIo) (opts : RestoreOptions) (file password : bytes) (p : Place)
    : Res RestoreReport * Place :=
  match read_bundle file with
  | Err e => (Err e, p)
  | Ok parsed => restore_from_parsed io o opts None parsed password p
  end.
End Operations.

(** ** What opening leaves alone *)

(** The rows that tie the vault to other devices. *)
Definition sync_side (db : LocalDb) := (sync_metadata db, sync_tombstones db).
Class KeepsSync {A} (m : M A) : Prop := keeps_sync w : sync_side (w_db (m w).2) = sync_side (w_db w).

#[export] Instance keeps_bind {A B} (m : M A) (k : A -> M B) : KeepsSync m -> (forall a, KeepsSync (k a)) -> KeepsSync (m ≫= k).
Proof.
  intros Hm Hk w. specialize (Hm w). unfold mbind, M_bind. destruct (m w) as [[a|e] w1]; simpl in *; [|done]. by rewrite (Hk a w1).
Qed.
#[export] Instance keeps_ret {A} (a : A) : KeepsSync (mret a : M A).
Proof. done. Qed.
#[export] Instance keeps_query {A} (f : LocalDb -> A) : KeepsSync (query f).
Proof. done. Qed.
#[export] Instance keeps_lift {A} (r : Res A) : KeepsSync (lift r).
Proof. done. Qed.
#[export] Instance keeps_fail_if b e : KeepsSync (fail_if b e).
Proof. done. Qed.
#[export] Instance keeps_try {A} (m : M A) : KeepsSync m -> KeepsSync (try m).
Proof. intros Hm w. specialize (Hm w). unfold try. by destruct (m w). Qed.
#[export] Instance keeps_transaction {A} (m : M A) : KeepsSync m -> KeepsSync (transaction m).
Proof. intros Hm w. specialize (Hm w). unfold transaction. by destruct (m w) as [[a|e] w1]. Qed.
#[export] Instance keeps_draw_nonce `{Environment} : KeepsSync draw_nonce.
Proof. done. Qed.
#[export] Instance keeps_draw_uuid `{Environment} : KeepsSync draw_uuid.
Proof. done. Qed.
#[export] Instance keeps_draw_io `{Environment} : KeepsSync draw_io.
Proof. done. Qed.
Lemma keeps_execute f : (forall db, sync_side (f db) = sync_side db) -> KeepsSync (execute f).
Proof. intros Hf w. apply Hf. Qed.
Lemma keeps_execute_res f : (forall db db', f db = Ok db' -> sync_side db' = sync_side db) -> KeepsSync (execute_res f).
Proof. intros Hf w. unfold execute_res. destruct (f (w_db w)) eqn:E; simpl; eauto. Qed.

(** Solve [KeepsSync] along the structure of a computation. *)
Ltac keeps :=
  repeat match goal with
  | |- KeepsSync (match ?x with _ => _ end) => destruct x
  | |- KeepsSync (_ ≫= _) => apply keeps_bind; [|intros ?]
  | |- KeepsSync (transaction _) => apply keeps_transaction
  | |- KeepsSync (try _) => apply keeps_try
  | |- KeepsSync (execute _) => apply keeps_execute; intros ?; reflexivity
  | |- KeepsSync (execute_res _) => apply keeps_execute_res; intros ? ? ?; result_inv; subst; reflexivity
  | |- KeepsSync _ => apply _
  end.

Section Keeps.
Context `{Environment, Chrono, Hmac, Sha256, HexDecode, UuidText, Base64, Base32, Aead, UrlParse}.
Context `{SerdeBytes AadContext, SerdeBytes EnvelopeDoc, SerdeBytes EntryTuple, SerdeBytes MappingTuple, SerdeBytes TagTuple}.
Context `{SerdeBytes CustodyTuple, SerdeBytes State, SerdeBytes Document}.
Context `{SerdeBytes CustodyScope, SerdeBytes ObjectRef, SerdeBytes (CustodyScope * ObjectRef)}.
Context `{Bincode EncryptedEntry, BincodeSer EncryptedEntry, BincodeSer bytes}.

#[local] Instance keeps_write b io : KeepsSync (write_contents b io).
Proof. intros w. by destruct io. Qed.
#[local] Instance keeps_save st k sec : KeepsSync (save_with_secondary st k sec).
Proof. unfold save_with_secondary. keeps. Qed.
#[local] Instance keeps_begin dek : KeepsSync (begin dek).
Proof. intros w. unfold begin. destruct (w_on_disk w); [|done]. by destruct (begin_guard _ _ _). Qed.
#[local] Instance keeps_verify dek : KeepsSync (verify_snapshot dek).
Proof. done. Qed.
#[local] Instance keeps_verify_row dek r : KeepsSync (verify_row dek r).
Proof. done. Qed.
#[export] Instance keeps_content {A} dek (body : M A) : KeepsSync body -> KeepsSync (content_tx dek body).
Proof. intros Hb. unfold content_tx, content_tx_fault, prepare_commit, finish_commit, save. keeps. Qed.

#[export] Instance keeps_initialize dek : KeepsSync (initialize dek).
Proof. unfold initialize. keeps. Qed.
#[export] Instance keeps_rebase dek : KeepsSync (rebase_verified_restore dek).
Proof. intros w. unfold rebase_verified_restore. destruct (w_on_disk w); [|done]. unfold save. apply keeps_sync. Qed.

Lemma insert_tags_sync mapping l db : sync_side (fold_left (insert_tag mapping) l db) = sync_side db.
Proof. revert db. induction l as [|t l IH]; intros db; [done|]. cbn [fold_left]. by rewrite IH. Qed.
#[local] Instance keeps_tags mapping domain k : KeepsSync (execute (write_mapping_tags mapping domain k)).
Proof.
  apply keeps_execute. intros db. unfold write_mapping_tags. destruct (compute_domain_chain_tags k domain); [|done].
  by rewrite insert_tags_sync.
Qed.
#[local] Instance keeps_domain_rows ctx stale rows rep : KeepsSync (DomainOps.sweep_rows ctx stale rows rep).
Proof.
  revert rep. induction rows as [|m rows IH]; intros rep; cbn [DomainOps.sweep_rows]; [keeps|]. apply keeps_bind; [|intros ?; apply IH].
  unfold sweep_row, seal_mapping_and_write_tags, seal_domain, seal_field. keeps; apply keeps_tags.
Qed.
#[export] Instance keeps_domain s : KeepsSync (sweep_domain_mappings s).
Proof. unfold sweep_domain_mappings, DomainOps.sweep_body, require_unlocked. keeps. apply keeps_content. keeps. Qed.

#[local] Instance keeps_seal dek vault epoch o t p text : KeepsSync (seal_and_verify_field dek vault o t p epoch text).
Proof. unfold seal_and_verify_field, seal_field. keeps. Qed.
#[local] Instance keeps_seal_opt dek vault epoch o t p text : KeepsSync (seal_opt (seal_and_verify_field dek vault o t p epoch) text).
Proof. unfold seal_opt. keeps. Qed.
#[local] Instance keeps_rows {R} (step : R -> M Verdict) rows rep : (forall r, KeepsSync (step r)) -> KeepsSync (Sweep.sweep_rows step rows rep).
Proof. intros Hs. revert rep. induction rows; intros rep; simpl; keeps. Qed.
#[local] Instance keeps_fields (step : MetadataField -> M unit) fs rep : (forall f, KeepsSync (step f)) -> KeepsSync (sweep_fields step fs rep).
Proof. intros Hs. revert rep. induction fs; intros rep; simpl; keeps. Qed.
#[local] Instance keeps_entry dek vault epoch r : KeepsSync (sweep_entry_row dek vault epoch r).
Proof. unfold sweep_entry_row, identity_of, seal_and_verify_entry_fields, update_swept_entry. keeps. Qed.
#[local] Instance keeps_part dek vault epoch t decrypt update r :
  (forall id sid b db db', update id sid b db = Ok db' -> sync_side db' = sync_side db) ->
  KeepsSync (sweep_three_part_row dek vault epoch t decrypt update r).
Proof. intros Hu. unfold sweep_three_part_row, identity_of. keeps; apply keeps_execute_res; eauto. Qed.
#[local] Instance keeps_field dek vault epoch update f :
  (forall id b db, sync_side (update id b db) = sync_side db) -> KeepsSync (sweep_metadata_field dek vault epoch update f).
Proof. intros Hu. unfold sweep_metadata_field. keeps. apply keeps_execute. auto. Qed.
#[export] Instance keeps_blobs s now : KeepsSync (sweep_v1_blobs_to_v2 s now).
Proof.
  unfold sweep_v1_blobs_to_v2, require_unlocked, read_local_identity, Sweep.sweep_body, sweep_tables, sweep_identity_metadata. keeps.
  all: apply keeps_content; keeps.
  all: first [apply keeps_rows; intros ?; apply keeps_part; unfold update_ssh_secret, update_totp_secret; intros ? ? ? ? ? ?; result_inv; by subst
             |apply keeps_fields; intros ?; by apply keeps_field].
Qed.

#[local] Instance keeps_upsert dek k id c secret now : KeepsSync (upsert_equality_tag_with_key dek k id c secret now).
Proof. unfold upsert_equality_tag_with_key, serialize_tag_cipher. keeps. Qed.
#[local] Instance keeps_index s dek k now rows rep : KeepsSync (index_rows s dek k now rows rep).
Proof. revert rep. induction rows as [|r rows IH]; intros rep; cbn [index_rows]; [keeps|]. unfold index_row. keeps. Qed.
#[export] Instance keeps_registry s now : KeepsSync (sweep_registry_index s now).
Proof. unfold sweep_registry_index, require_unlocked. keeps. Qed.

Lemma activate_sync s clock commit cols w :
  sync_side (w_db (activate_v2_format s clock commit cols w).2.2) = sync_side (w_db w).
Proof.
  unfold activate_v2_format. destruct (negb _); [done|]. destruct (is_v2_format_activated cols); [done|].
  assert (KeepsSync (verify_vault_envelopes s cols)) as Hv by (unfold verify_vault_envelopes, require_unlocked; keeps).
  specialize (Hv w). destruct (verify_vault_envelopes s cols w) as [[rep|e] w1]; [|exact Hv]. cbn [snd] in Hv.
  destruct (negb (is_clean rep)); [destruct (_ || _); exact Hv|]. destruct (negb commit); [exact Hv|].
  by destruct (_ <? _).
Qed.
End Keeps.

(** [g] in [q] is the vault [f] of [p] but for its content, and nothing else
    beside it moved. *)
Record kept (f : DbFile) (p : Place) (g : DbFile) (q : Place) : Prop := {
  k_vault : p_vault q = Some (Vault g);
  k_sync : sync_side (f_db g) = sync_side (f_db f);
  k_device : f_device g = f_device f;
  k_retained : p_retained q = p_retained p;
  k_staging : p_staging q = p_staging p;
  k_keychain : p_keychain q = p_keychain p;
}.
Lemma vault_kept_refl f p : p_vault p = Some (Vault f) -> kept f p f p.
Proof. by split. Qed.
Lemma vault_kept_trans f p g q h r : kept f p g q -> kept g q h r -> kept f p h r.
Proof. intros [] []. split; congruence. Qed.
Lemma run_vault_kept {A} (m : M A) f p : KeepsSync m -> kept f p (run_vault m f p).2.1 (run_vault m f p).2.2.
Proof. intros Hm. specialize (Hm (world_of f p)). unfold run_vault. destruct (m _) as [r w]. by split. Qed.

Section Facts.
Context `{Environment, Chrono, Hmac, Sha256, HexDecode, UuidText, Base64, Base32, Aead, UrlParse, Argon2id, SqliteFile}.
Context `{SerdeBytes AadContext, SerdeBytes EnvelopeDoc, SerdeBytes EntryTuple, SerdeBytes MappingTuple, SerdeBytes TagTuple}.
Context `{SerdeBytes CustodyTuple, SerdeBytes State, SerdeBytes Document}.
Context `{SerdeBytes CustodyScope, SerdeBytes ObjectRef, SerdeBytes (CustodyScope * ObjectRef)}.
Context `{SerdeBytes KdfDocument, SerdeBytes WrapDocument, SerdeBytes NonceDocument, SerdeBytes BackupManifest}.
Context `{Bincode KdfParams, Bincode WrappedKey, Bincode LegacyWrappedKey, Bincode bytes}.
Context `{BincodeSer KdfParams, BincodeSer WrappedKey, BincodeSer bytes, Bincode EncryptedEntry, BincodeSer EncryptedEntry}.
Variable migrate : DbFile -> Res unit * DbFile.

Lemma pass_kept (b : bool) {A} (m : M A) f p g q :
  KeepsSync m -> p_vault p = Some (Vault f) -> (if b then (run_vault m f p).2 else (f, p)) = (g, q) -> kept f p g q.
Proof.
  intros Hm Hp E. destruct b.
  - pose proof (run_vault_kept m f p Hm) as K. by rewrite E in K.
  - injection E as <- <-. by apply vault_kept_refl.
Qed.
Lemma activation_kept s clock commit f p g q : p_vault p = Some (Vault f) -> activation_pass s clock commit f p = (g, q) -> kept f p g q.
Proof.
  intros Hp E. unfold activation_pass in E. destruct (v2_activation_needed _ _); [|injection E as <- <-; by apply vault_kept_refl].
  pose proof (activate_sync s clock commit (f_cols f) (world_of f p)) as Hs.
  destruct (activate_v2_format _ _ _ _ _) as [r [cols w]]. cbn in E, Hs. injection E as <- <-. by split.
Qed.

Lemma maintain_kept o s f p r q : p_vault p = Some (Vault f) -> maintain o s f p = (r, q) -> exists g, kept f p g q.
Proof.
  intros Hp E. unfold maintain in E. destruct (session_dek s) as [dek|e]; [|injection E as <- <-; exists f; by apply vault_kept_refl].
  pose proof (run_vault_kept (initialize dek) f p _) as K0.
  destruct (run_vault (initialize dek) f p) as [[[]|e] [f0 p0]]; cbn in K0; [|injection E as <- <-; eauto].
  destruct (domain_pass s f0 p0) as [f1 p1] eqn:E1. apply pass_kept in E1 as K1; [|apply _|apply K0].
  destruct (blob_pass s _ f1 p1) as [f2 p2] eqn:E2. apply pass_kept in E2 as K2; [|apply _|apply K1].
  destruct (registry_pass s _ f2 p2) as [f3 p3] eqn:E3. apply pass_kept in E3 as K3; [|apply _|apply K2].
  destruct (activation_pass s _ _ f3 p3) as [f4 p4] eqn:E4. apply activation_kept in E4 as K4; [|apply K3].
  pose proof (run_vault_kept (initialize dek) f4 p4 _) as K5.
  destruct (run_vault (initialize dek) f4 p4) as [r5 [f5 p5]]. injection E as <- <-. exists f5.
  do 5 (eapply vault_kept_trans; [eassumption|]). exact K5.
Qed.

(** Opening a vault of the current schema. *)
Lemma open_kept o pw p f r q :
  p_vault p = Some (Vault f) -> fc_version (f_cols f) = CURRENT_SCHEMA_VERSION -> open_manager migrate o pw p = (r, q) -> exists g, kept f p g q.
Proof.
  intros Hp Hv E. unfold open_manager in E. rewrite Hp in E. unfold validate_schema_version in E. rewrite Hv in E. cbn [Z.eqb] in E.
  destruct (_ <? stored_format_version _); [injection E as <- <-; exists f; by split|]. rewrite Z.eqb_refl in E.
  destruct (open_vault _ _ _ _ _ _ _) as [[s|e] d]; [|injection E as <- <-; eexists; by split].
  apply maintain_kept in E as [g K]; [|done]. exists g. destruct K. by split.
Qed.

(** ** A restore is all or nothing *)

(** The files beside the vault that a restore moves last. *)
Definition still (p q : Place) : Prop := p_vault q = p_vault p /\ p_retained q = p_retained p /\ p_staging q = p_staging p.

Lemma rebase_sidecar_still io m rew f p r q : rebase_sidecar io m rew f p = (r, q) -> still p q /\ p_contents q = p_contents p /\ p_tick q = p_tick p.
Proof.
  unfold rebase_sidecar. intros E. destruct (negb (ri_reopen io)); [by injection E as <- <-|].
  destruct (needs_rebase _ _ _); [|by injection E as <- <-]. destruct (rebase _ _ _ _ _) as [r0 e]. by injection E as <- <-.
Qed.
Lemma rebase_restore_db dek w r w' : rebase_verified_restore dek w = (r, w') -> w_db w' = w_db w.
Proof.
  unfold rebase_verified_restore. destruct (w_on_disk w); [|by intros [= <- <-]]. unfold mbind, M_bind, lift.
  destruct (key dek); [|by intros [= <- <-]]. destruct (vault_id (w_db w)); [|by intros [= <- <-]].
  destruct (snapshot (w_db w)); [|by intros [= <- <-]]. intros E. by apply save_cases in E as (-> & _).
Qed.
Lemma rebase_receipts_still io m pw f p r q :
  p_vault p = Some (Vault f) -> rebase_receipts io m pw f p = (r, q) -> still p q /\ p_epoch q = p_epoch p.
Proof.
  intros Hp E. unfold rebase_receipts in E. destruct (negb (ri_reopen_again io)); [by injection E as <- <-|].
  destruct (unwrap_manifest_dek m pw) as [[h dek]|e]; [|by injection E as <- <-]. unfold run_vault in E.
  destruct (rebase_verified_restore dek (world_of f p)) as [r0 w] eqn:Er. apply rebase_restore_db in Er. injection E as <- <-.
  unfold still. cbn. rewrite Er, Hp. by destruct f.
Qed.

(** What became of the restored copy [f] in the place [p]. *)
Definition opened_as (o : OpenIo) (pw : bytes) (f g : DbFile) (ok : bool) : Prop :=
  exists q q' r, p_vault q = Some (Vault f) /\ open_manager migrate o pw q = (r, q') /\ p_vault q' = Some (Vault g) /\ is_ok r = ok.

Lemma after_swap_cases io o abort m rew pw f pre p r p' :
  p_vault p = Some (Vault f) -> fc_version (f_cols f) = CURRENT_SCHEMA_VERSION ->
  after_swap migrate io o abort m rew pw f pre p = (r, p') ->
  exists g, p_vault p' = Some (Vault g) /\ sync_side (f_db g) = sync_side (f_db f) /\ f_device g = f_device f /\
    match r with
    | Ok b => opened_as o pw f g true /\ b = bool_decide (is_Some pre) /\
        match pre with
        | Some v => p_retained p' = Some v /\ p_staging p' = tail (p_staging p)
        | None => p_retained p' = p_retained p /\ p_staging p' = p_staging p
        end
    | Err _ => (g = f \/ exists ok, opened_as o pw f g ok) /\ p_retained p' = p_retained p /\ p_staging p' = p_staging p
    end.
Proof.
  intros Hp Hv E. unfold after_swap in E. destruct (interrupted abort Swap); [|injection E as <- <-; eauto 10].
  destruct (rebase_sidecar _ _ _ _ _) as [r1 p1] eqn:E1. apply rebase_sidecar_still in E1 as [(V1 & R1 & S1) _].
  destruct r1; [|injection E as <- <-; exists f; rewrite V1; eauto 10].
  destruct (rebase_receipts _ _ _ _ _) as [r2 p2] eqn:E2. apply rebase_receipts_still in E2 as [(V2 & R2 & S2) _]; [|congruence].
  destruct r2; [|injection E as <- <-; exists f; rewrite V2, V1; split_and!; try done; [by left|congruence..]].
  destruct (interrupted abort SidecarRebaseline); [|injection E as <- <-; exists f; rewrite V2, V1; split_and!; try done; [by left|congruence..]].
  destruct (open_manager migrate o pw p2) as [r3 p3] eqn:E3. pose proof E3 as E3'.
  apply open_kept with (f := f) in E3 as [g [K1 K2 K3 K4 K5 _]]; [|congruence|done].
  assert (opened_as o pw f g (is_ok r3)) as Hop by (exists p2, p3, r3; split_and!; try done; congruence).
  destruct r3 as [s|e].
  - unfold finalize in E. destruct pre as [v|].
    + destruct (negb (ri_finalize io)); injection E as <- <-; exists g; cbn.
      * split_and!; try done; [eauto|congruence..].
      * split_and!; try done. congruence.
    + injection E as <- <-. exists g. split_and!; try done; congruence.
  - injection E as <- <-. exists g. split_and!; try done; [eauto|congruence..].
Qed.

Lemma schema_checked f g : validate_schema_version migrate f = (Ok tt, g) -> fc_version (f_cols g) = CURRENT_SCHEMA_VERSION.
Proof.
  unfold validate_schema_version. destruct (_ <? stored_format_version _); [discriminate|].
  destruct (_ =? CURRENT_SCHEMA_VERSION) eqn:E; [intros [= <-]; by apply Z.eqb_eq|]. destruct (_ <? CURRENT_SCHEMA_VERSION); [|discriminate].
  destruct (migrate f) as [r f1]. intros [= Er <-]. apply result_bind_ok in Er as ([] & _ & Er). apply err_if_ok in Er. propify. done.
Qed.
Lemma validated_current m pw f g : validate_staged_snapshot migrate m pw f = Ok g -> fc_version (f_cols g) = CURRENT_SCHEMA_VERSION.
Proof.
  unfold validate_staged_snapshot. intros E. apply result_bind_ok in E as ([h dek] & _ & E). do 3 apply result_bind_ok in E as ([] & _ & E).
  destruct (validate_schema_version migrate f) as [r f1] eqn:Es. apply result_bind_ok in E as ([] & -> & E). cbv zeta in E.
  do 2 apply result_bind_ok in E as ([] & _ & E). apply result_bind_ok in E as (rep & _ & E). apply result_bind_ok in E as ([] & _ & E).
  injection E as <-. exact (schema_checked _ _ Es).
Qed.

(** A vault that no longer belongs to a group of devices. *)
Definition offline (f : DbFile) : Prop :=
  had_sync_state f = false /\ sync_tombstones (f_db f) = ∅ /\ biometric_ref (f_device f) = None /\ sync_devices (f_device f) = [].
Lemma neutralized_offline f g : sync_side (f_db g) = sync_side (f_db (neutralize f)) -> f_device g = f_device (neutralize f) -> offline g.
Proof.
  intros [= E1 E2] Ed. unfold offline, had_sync_state. rewrite E1, E2, Ed. cbn. by destruct (sync_metadata (f_db f)).
Qed.

(** What the dry run accepts, the restore stages. *)
Lemma dry_run_stages io file pw m :
  verify_bundle_deep migrate io file pw = Ok m ->
  exists parsed x, read_bundle file = Ok parsed /\ stage_restore migrate io m pw (pb_snapshot parsed) = Ok x.
Proof.
  unfold verify_bundle_deep. intros E. apply result_bind_ok in E as (parsed & Hp & E). apply result_bind_ok in E as (m' & _ & E).
  apply result_bind_ok in E as ([] & E1 & E). apply result_bind_ok in E as ([] & E2 & E). apply result_bind_ok in E as (f & E3 & E).
  apply result_bind_ok in E as (g & E4 & E). injection E as ->. exists parsed. unfold stage_restore.
  rewrite E1, E2. cbn [mbind result_bind]. rewrite E3. cbn [mbind result_bind]. rewrite E4. by eexists.
Qed.

(** What was acknowledged before anything moved. *)
Definition acknowledged (io : RestoreIo) (opts : RestoreOptions) (m : BackupManifest) (p : Place) : Prop :=
  (forall v, p_vault p = Some v -> allow_replace opts = true /\ (ls_sync_enabled (live_state io v) = true -> disable_sync opts = true)) /\
  (forall d, manifest_digest m = Ok d -> rewinds m d (p_epoch p) = true -> allow_epoch_rewind opts = true).

(** The file at the path is a vault that the three reads of the probe read. *)
Definition readable (io : RestoreIo) (p : Place) : bool :=
  match p_vault p with
  | Some (Vault f) => ri_open io && ri_config io && ri_authority io && (LINEAGE_SCHEMA <=? fc_version (f_cols f))
  | _ => false
  end.
Lemma live_openable io p v : p_vault p = Some v -> ls_openable (live_state io v) = readable io p.
Proof.
  intros Hv. unfold readable, live_state, LINEAGE_SCHEMA, SYNC_TABLE_SCHEMA. rewrite Hv. destruct (ri_open io), (ri_config io), v; try done.
  cbn [negb andb]. destruct (Z.ltb_spec (fc_version (f_cols f)) 2); [|destruct (Z.ltb_spec (fc_version (f_cols f)) 13)];
    destruct (ri_authority io); cbn; lia.
Qed.
Lemma live_epoch io p v :
  p_vault p = Some v ->
  ls_key_epoch (live_state io v) = match v with Vault f => if readable io p then Some (epoch_of (metadata (f_db f))) else None | _ => None end.
Proof.
  intros Hv. rewrite <- (live_openable io p v Hv). unfold live_state. destruct (ri_open io), (ri_config io), v; try done. cbn [negb].
  destruct (fc_version (f_cols f) <? SYNC_TABLE_SCHEMA), (fc_version (f_cols f) <? LINEAGE_SCHEMA); try done. by destruct (ri_authority io).
Qed.

(** The place after the probe, and the copy of the file that is kept. *)
Definition probed (io : RestoreIo) (p : Place) : Place :=
  if bool_decide (is_Some (p_vault p)) && ri_fold io then checkpointed p else p.
Definition preserved (io : RestoreIo) (p : Place) : option VaultFile := if readable io p || ri_fold io then p_vault p else bare_file p.

Lemma classified io p r q :
  classify_live_target io p = (r, q) ->
  match r with Ok live => live = live_state io <$> p_vault p /\ q = probed io p | Err _ => q = p end.
Proof.
  unfold classify_live_target, probed. intros E. destruct (p_vault p) as [v|]; [|by injection E as <- <-].
  destruct (ri_target io); injection E as <- <-; [|done]. by rewrite bool_decide_true.
Qed.
Lemma admitted io opts parsed pw p r q :
  admit_restore io opts parsed pw p = (r, q) ->
  match r with
  | Ok (m, live, rew) => verify_bundle_authenticity parsed pw = Ok m /\ live = live_state io <$> p_vault p /\ acknowledged io opts m p /\ q = probed io p
  | Err _ => q = p \/ q = probed io p
  end.
Proof.
  unfold admit_restore. intros E. destruct (verify_bundle_authenticity parsed pw) as [m|e]; [|injection E as <- <-; by left].
  destruct (classify_live_target io p) as [live q0] eqn:Ec. apply classified in Ec. destruct live as [live|e]; [|injection E as <- <-; by left].
  destruct Ec as [-> ->]. injection E as <- <-. cbn [mbind result_bind].
  destruct (gates opts m _ _) as [rew|e] eqn:Eg; [|by right]. cbn [mbind result_bind]. split_conj; try done.
  assert (p_epoch (probed io p) = p_epoch p) as Ee by (unfold probed; by destruct (_ && _)).
  unfold gates in Eg. rewrite Ee in Eg. apply result_bind_ok in Eg as ([] & Hg & E). apply result_bind_ok in E as (d & Hd & E). cbv zeta in E.
  apply result_bind_ok in E as ([] & Hr & E). injection E as <-. apply err_if_ok in Hr. split.
  - intros v Hv. rewrite Hv in Hg. cbn in Hg. apply result_bind_ok in Hg as ([] & Ha & Hg). apply err_if_ok in Ha, Hg.
    split; [by destruct (allow_replace opts)|]. intros Hs. rewrite Hs in Hg. by destruct (disable_sync opts).
  - intros d' Hd' Hw. assert (d' = d) as -> by congruence. rewrite Hw in Hr. by destruct (allow_epoch_rewind opts).
Qed.

(** What happens to the place before the rename: the log may be folded into the
    file; of a file that could not be read, and whose log was not folded, the log
    may be gone. *)
Definition folded_or_bare (io : RestoreIo) (p q : Place) : Prop :=
  q = p \/ q = checkpointed p \/ (readable io p = false /\ ri_fold io = false /\ q = drop_log p).
Lemma drop_checkpointed p : drop_log (checkpointed p) = checkpointed p.
Proof. unfold drop_log, bare_file, checkpointed. cbn. by destruct (p_vault p). Qed.
Lemma probed_cases io p : probed io p = p \/ probed io p = checkpointed p.
Proof. unfold probed. destruct (_ && _); auto. Qed.

Lemma snapshot_taken io p pre q :
  match live_state io <$> p_vault p with
  | Some state => take_pre_restore_snapshot io (ls_openable state) (probed io p)
  | None => (Ok None, probed io p)
  end = (pre, q) ->
  (q = p \/ q = checkpointed p) /\ match pre with Ok v => v = preserved io p /\ folded_or_bare io p (drop_log q) | Err _ => True end.
Proof.
  intros E. pose proof (probed_cases io p) as Hpc. unfold preserved, folded_or_bare.
  destruct (p_vault p) as [v|] eqn:Hv; cbn [fmap option_fmap option_map] in E.
  - rewrite (live_openable io p v Hv) in E. unfold take_pre_restore_snapshot in E. destruct (readable io p) eqn:Er.
    + destruct (ri_checkpoint io); cbn [negb] in E; [|by injection E as <- <-].
      assert (checkpointed (probed io p) = checkpointed p) as Ec by (by destruct Hpc as [->| ->]). rewrite Ec in E.
      injection E as <- <-. split; [by right|]. destruct (ri_exclusive io), (ri_preserve io); cbn; try done.
      assert (p_vault (probed io p) = Some v) as -> by (by destruct Hpc as [->| ->]). rewrite drop_checkpointed. auto.
    + injection E as <- <-. split; [done|]. destruct (ri_preserve io); [|done]. cbn [negb err_if mbind result_bind orb].
      unfold probed. rewrite Hv, bool_decide_true by done. destruct (ri_fold io); cbn [andb]; [|auto 6].
      rewrite drop_checkpointed. split; [|auto]. unfold bare_file, checkpointed. cbn. by rewrite Hv.
  - injection E as <- <-. split; [done|]. assert (drop_log (probed io p) = checkpointed p) as ->.
    { unfold probed, drop_log, bare_file, checkpointed. rewrite Hv. cbn. by rewrite Hv. }
    split; [|auto]. unfold bare_file. rewrite Hv. by destruct (_ || _).
Qed.
Lemma prepared io abort p r q :
  before_swap io abort (live_state io <$> p_vault p) (probed io p) = (r, q) ->
  match r with
  | Ok pre => pre = preserved io p /\ p_retained q = p_retained p /\ p_staging q = p_staging p
  | Err _ => folded_or_bare io p q
  end.
Proof.
  unfold before_swap. intros E.
  destruct (match _ <$> _ with Some _ => _ | None => _ end) as [pre q0] eqn:E0 in E. apply snapshot_taken in E0 as (Hq & Hpre).
  assert (folded_or_bare io p q0) as Hf by (destruct Hq as [->| ->]; unfold folded_or_bare; auto).
  destruct pre as [pre|e]; cbn [mbind result_bind] in E; [destruct Hpre as [-> Hd]|by injection E as <- <-].
  destruct (interrupted abort PreRestoreSnapshot); cbn [mbind result_bind] in E; [|by injection E as <- <-].
  destruct (interrupted abort SidecarRemoval); cbn [mbind result_bind] in E; [|by injection E as <- <-].
  destruct (ri_swap io); cbn [negb err_if mbind result_bind] in E; injection E as <- <-; [|done].
  by destruct Hq as [->| ->].
Qed.

(** A restore that failed before the rename, or what it brought to the rename. *)
Lemma restore_cases io o opts abort parsed pw p r p' :
  restore_from_parsed migrate io o opts abort parsed pw p = (r, p') ->
  (is_ok r = false /\ folded_or_bare io p p') \/
  exists m rew f0 f q r1, verify_bundle_authenticity parsed pw = Ok m /\ acknowledged io opts m p /\
    sqlite_open (pb_snapshot parsed) = Some f0 /\ validate_staged_snapshot migrate m pw f0 = Ok f /\
    p_retained q = p_retained p /\ p_staging q = p_staging p /\
    after_swap migrate io o abort m rew pw (neutralize f) (preserved io p)
      (swap io (neutralize f) (preserved io p) (biometric_ref (f_device f)) q) = (r1, p') /\
    r = (retained ← r1;
         Ok {| rr_bundle_backup_id := bm_backup_id m; rr_vault_uuid := bm_vault_uuid m;
               rr_from_epoch := (live_state io <$> p_vault p) ≫= ls_key_epoch; rr_to_epoch := bm_epoch m; rr_epoch_rewound := rew;
               rr_sync_disabled := had_sync_state f || disable_sync opts; rr_retained := retained; rr_entries := bm_entry_count m |}).
Proof.
  intros E. unfold restore_from_parsed in E. assert (forall q, q = p \/ q = probed io p -> folded_or_bare io p q) as Hp.
  { intros q [->| ->]; unfold folded_or_bare; destruct (probed_cases io p); auto. }
  destruct (admit_restore _ _ _ _ _) as [ra q0] eqn:Ea. apply admitted in Ea. destruct ra as [[[m live] rew]|e]; [|injection E as <- <-; auto].
  destruct Ea as (Hm & -> & Hack & ->). destruct (stage_restore _ _ _ _ _) as [[[f1 had] bio]|e] eqn:Es; [|injection E as <- <-; auto].
  destruct (before_swap _ _ _ _) as [pre q] eqn:Eb. apply prepared in Eb. destruct pre as [pre|e]; [|injection E as <- <-; auto].
  destruct Eb as (-> & Hr & Hs). unfold stage_restore in Es. do 2 apply result_bind_ok in Es as ([] & _ & Es).
  apply result_bind_ok in Es as (f0 & Hf0 & Es). apply ok_or_ok in Hf0. apply result_bind_ok in Es as (f & Hf & Es). injection Es as <- <- <-.
  destruct (after_swap _ _ _ _ _ _ _ _ _ _) as [r1 p1] eqn:Ew. injection E as <- <-. right. exists m, rew, f0, f, q, r1. by split_and!.
Qed.

(** C30. A restore is all or nothing, and keeps what it replaces.  Whatever bundle
    and password are given, whichever step fails and wherever it is cut short, one
    of three things holds.  It failed before the rename, and a reader of the path
    sees what was there.  Or it failed there over a file that could not be read as
    a vault of a recent schema, while another process kept its log from being
    folded in: then the file is left without its log.  Or the bundle was authentic,
    its copy passed every check, the user acknowledged the replacement, the loss of
    sync (on or unknown) and any rewind of the epoch, and the path holds the checked
    copy, cut off from its sync group, or what an opening made of it; the replaced
    file is kept, without its log in the second case only.  After a success it is
    the retained snapshot, the password has opened the restored vault, and the
    report names the epoch of a vault that was read; after an error it is in the
    staging directory and the retained snapshot is the old one. *)
Theorem restore_all_or_nothing io o opts abort parsed pw p r p' :
  restore_from_parsed migrate io o opts abort parsed pw p = (r, p') ->
  (is_ok r = false /\ (p' = p \/ p' = {| p with p_bare := None |})) \/
  (is_ok r = false /\ readable io p = false /\ ri_fold io = false /\ p' = {| p with p_vault := bare_file p; p_bare := None |}) \/
  exists m f0 f g, verify_bundle_authenticity parsed pw = Ok m /\ sqlite_open (pb_snapshot parsed) = Some f0 /\
    validate_staged_snapshot migrate m pw f0 = Ok f /\ acknowledged io opts m p /\
    p_vault p' = Some (Vault g) /\ offline g /\
    let kept_copy := if readable io p || ri_fold io then p_vault p else bare_file p in
    match r with
    | Ok rep => opened_as o pw (neutralize f) g true /\
        rr_vault_uuid rep = bm_vault_uuid m /\ rr_to_epoch rep = bm_epoch m /\
        rr_from_epoch rep = match p_vault p with
                            | Some (Vault old) => if readable io p then Some (epoch_of (metadata (f_db old))) else None
                            | _ => None
                            end /\
        rr_sync_disabled rep = had_sync_state f || disable_sync opts /\
        match kept_copy with
        | Some v => p_retained p' = Some v /\ p_staging p' = p_staging p
        | None => p_vault p = None /\ p_retained p' = p_retained p
        end
    | Err _ => (g = neutralize f \/ exists ok, opened_as o pw (neutralize f) g ok) /\ p_retained p' = p_retained p /\
        p_staging p' = {| st_staged := None; st_pre := kept_copy |} :: p_staging p
    end.
Proof.
  intros E. apply restore_cases in E as [[He Hq]|(m & rew & f0 & f & q & r1 & Hm & Hack & Hf0 & Hf & Hr & Hs & Ea & ->)].
  { destruct Hq as [->|[->|(Hr & Hi & ->)]]; [by left; split; [|left]|by left; split; [|right]|by right; left]. }
  right; right. apply after_swap_cases in Ea as (g & V & S & D & Hc); [|done|exact (validated_current _ _ _ _ Hf)].
  exists m, f0, f, g. split_and!; try done; [exact (neutralized_offline _ _ S D)|]. fold (preserved io p). cbv zeta.
  destruct r1 as [b|e]; cbn [mbind result_bind].
  - destruct Hc as (Hop & -> & Hk). cbn [swap p_retained p_staging tail] in Hk. rewrite Hr, Hs in Hk.
    split_conj; try done.
    + cbn. destruct (p_vault p) as [v|] eqn:Hv; [|done]. cbn. exact (live_epoch io p v Hv).
    + destruct (preserved io p) eqn:Ep; [exact Hk|split; [|exact (proj1 Hk)]]. unfold preserved, bare_file in Ep.
      destruct (_ || _); [done|]. by destruct (p_vault p), (p_bare p).
  - destruct Hc as (C1 & C2 & C3). cbn in C2, C3. rewrite Hr in C2. rewrite Hs in C3. by split_and!.
Qed.

(** ** A backup can be restored *)

Context `{!Sha256Laws, !HexDecodeLaws, !AeadLaws, !Argon2idLaws, !Base64Laws, !SqliteFileLaws, !SerdeBytesLaws Document}.
Context `{!SerdeBytesLaws KdfDocument, !SerdeBytesLaws WrapDocument, !SerdeBytesLaws NonceDocument, !SerdeBytesLaws BackupManifest, !ManifestJson}.
Context `{!FlatJson KdfDocument KDF_MAGIC_STR kd_magic kdf_strings kdf_in_range}.
Context `{!FlatJson WrapDocument WRAP_MAGIC_STR wd_magic wrap_strings (fun d => in_u32 (wd_v d))}.
Context `{!FlatJson NonceDocument NONCE_MAGIC_STR nd_magic nonce_strings (fun d => in_u32 (nd_v d))}.
Context `{!BincodeLaws WrappedKey wrapped_key_wf, !BincodeLaws bytes (fun n => length n = 12%nat)}.

(** The receipts of a database, as written. *)
Definition receipts (u : string) (c : Receipts) (pend : option Receipts) : State := {| version := 1; vault := u; stable := c; pending := pend |}.
Definition receipts_file (k : bytes) (st : State) : bytes := to_vec (document st k None).
Definition room (dek : bytes) (u : string) (db : LocalDb) : Prop :=
  exists k c, key dek = Ok k /\ vault_id db = Ok u /\ snapshot db = Ok c /\
    Z.of_nat (length (receipts_file k (receipts u c None))) <= MAX_BYTES /\
    Z.of_nat (length (receipts_file k (receipts u c (Some c)))) <= MAX_BYTES.
Definition acked (dek : bytes) (u : string) (w : World) : Prop :=
  exists k c, key dek = Ok k /\ snapshot (w_db w) = Ok c /\ w_contents w = Some (receipts_file k (receipts u c None)).

Lemma save_runs st k w :
  (forall n, env_io n = Written) -> Z.of_nat (length (receipts_file k st)) <= MAX_BYTES ->
  save st k w = (Ok tt, {| w_db := w_db w; w_on_disk := w_on_disk w; w_contents := Some (receipts_file k st); w_tick := S (w_tick w) |}).
Proof.
  intros Hio Hl. unfold receipts_file in *. unfold save, save_with_secondary, mbind, M_bind, fail_if, lift, err_if.
  rewrite (proj2 (Z.ltb_ge _ _)) by done. unfold draw_io, write_contents. by rewrite Hio.
Qed.
Lemma initialize_runs dek u w :
  (forall n, env_io n = Written) -> w_on_disk w = true -> room dek u (w_db w) -> acked dek u w ->
  exists w', initialize dek w = (Ok tt, w') /\ w_db w' = ContentGuard.mark (w_db w) /\ w_on_disk w' = true /\ acked dek u w'.
Proof.
  intros Hio Hd (k & c & Hk & Hv & Hc & R1 & R2) (k' & c' & Hk' & Hc' & Hw).
  assert (k' = k) as -> by congruence. assert (c' = c) as -> by congruence.
  assert (in_step dek w) as Hs by (intros _; exists k, u, c, (Some (receipts u c None)); split_and!; [done..| |by left];
    rewrite Hw; apply load_saved; auto).
  pose proof (begin_guard_ok _ _ _ _ _ Hs Hd Hk Hv Hc) as Hb.
  unfold initialize, content_tx, content_tx_fault, transaction, begin, mbind, M_bind, prepare_commit, finish_commit, query, lift, fail_if, err_if.
  rewrite Hd, Hb. cbn [mret M_ret]. unfold mbind, M_bind. cbn [w_db]. rewrite snapshot_mark, Hc.
  change (set_pending _ c) with (receipts u c (Some c)). rewrite save_runs by done. cbn.
  change {| version := 1; vault := u; stable := c; pending := None |} with (receipts u c None). rewrite save_runs by done.
  eexists. split; [reflexivity|]. split_and!; [done|done|]. exists k, c. split_and!; [done|exact Hc|done].
Qed.
Lemma rebase_runs dek u w :
  (forall n, env_io n = Written) -> w_on_disk w = true -> room dek u (w_db w) ->
  exists w', rebase_verified_restore dek w = (Ok tt, w') /\ w_db w' = w_db w /\ acked dek u w'.
Proof.
  intros Hio Hd (k & c & Hk & Hv & Hc & R1 & R2). unfold rebase_verified_restore. rewrite Hd. unfold mbind, M_bind, lift. rewrite Hk, Hv, Hc.
  change {| version := 1; vault := u; stable := c; pending := None |} with (receipts u c None). rewrite save_runs by done.
  eexists. split; [reflexivity|]. split; [done|]. exists k, c. by split_and!.
Qed.

(** No pass has anything left to do, as after an opening. *)
Definition maintained (f : DbFile) : Prop :=
  domain_backfill_needed (f_db f) = false /\ v2_blob_sweep_needed (f_db f) = false /\ registry_backfill_needed (f_db f) = false /\
  v2_activation_needed (f_cols f) (f_db f) = false.
Lemma marked_lookup db k : k <> MARKER -> registry_state (ContentGuard.mark db) !! k = registry_state db !! k.
Proof. intros Hk. cbn. destruct (registry_state db !! MARKER); [done|]. by rewrite lookup_insert_ne. Qed.
Lemma maintained_mark f : maintained f -> maintained {| f with f_db := ContentGuard.mark (f_db f) |}.
Proof.
  intros (M1 & M2 & M3 & M4). unfold maintained, domain_backfill_needed, key_id_stale, v2_blob_sweep_needed, v2_blob_sweep_complete,
    registry_backfill_needed, v2_activation_needed in *. cbn [f_db f_cols]. rewrite !marked_lookup by done. by split_and!.
Qed.
Lemma mark_twice db : ContentGuard.mark (ContentGuard.mark db) = ContentGuard.mark db.
Proof.
  assert (exists v, registry_state (ContentGuard.mark db) !! MARKER = Some v) as [v Hv].
  { cbn. destruct (registry_state db !! MARKER) eqn:E; [by eauto|]. rewrite lookup_insert_eq. by eauto. }
  unfold ContentGuard.mark at 1. rewrite Hv. by destruct (ContentGuard.mark db).
Qed.

Lemma run_initialize dek u f p :
  (forall n, env_io n = Written) -> room dek u (f_db f) -> acked dek u (world_of f p) ->
  exists q, run_vault (initialize dek) f p = (Ok tt, ({| f with f_db := ContentGuard.mark (f_db f) |}, q)) /\
    p_vault q = Some (Vault {| f with f_db := ContentGuard.mark (f_db f) |}) /\
    acked dek u (world_of {| f with f_db := ContentGuard.mark (f_db f) |} q) /\ p_epoch q = p_epoch p /\ p_retained q = p_retained p /\
    p_staging q = p_staging p.
Proof.
  intros Hio Hr Ha. destruct (initialize_runs dek u (world_of f p) Hio eq_refl Hr Ha) as (w & E & Hw & _ & Ha').
  unfold run_vault. rewrite E, Hw. eexists. split; [reflexivity|]. cbn. rewrite Hw. split_and!; try done.
  destruct Ha' as (k & c & K1 & K2 & K3). exists k, c. split_and!; [done| |exact K3]. rewrite Hw in K2. exact K2.
Qed.

Lemma maintain_runs o s u dek f p :
  (forall n, env_io n = Written) -> session_of u dek s -> room dek u (f_db f) -> acked dek u (world_of f p) -> maintained f ->
  exists q, maintain o s f p = (Ok s, q) /\ p_vault q = Some (Vault {| f with f_db := ContentGuard.mark (f_db f) |}) /\
    acked dek u (world_of {| f with f_db := ContentGuard.mark (f_db f) |} q) /\ p_epoch q = p_epoch p /\ p_retained q = p_retained p /\
    p_staging q = p_staging p.
Proof.
  intros Hio [Hd _] Hr Ha Hm. unfold maintain. assert (session_dek s = Ok dek) as -> by (unfold session_dek, hierarchy_dek, get_dek; by rewrite Hd).
  destruct (run_initialize dek u f p Hio Hr Ha) as (q & -> & Q1 & Q2 & Q3 & Q4 & Q5).
  destruct (maintained_mark _ Hm) as (M1 & M2 & M3 & M4). cbn [f_db f_cols] in M1, M2, M3, M4.
  unfold domain_pass. cbn [f_db f_cols]. rewrite M1. unfold blob_pass. cbn [f_db f_cols]. rewrite M2. unfold registry_pass. cbn [f_db f_cols].
  rewrite M3. unfold activation_pass. cbn [f_db f_cols]. rewrite M4.
  set (g := {| f with f_db := ContentGuard.mark (f_db f) |}) in *.
  destruct (run_initialize dek u g q Hio Hr Q2) as (q' & -> & T1 & T2 & T3 & T4 & T5).
  assert ({| g with f_db := ContentGuard.mark (f_db g) |} = g) as Eg by (subst g; cbn [f_db f_cols f_device]; by rewrite mark_twice).
  rewrite Eg in T1, T2. exists q'. split_and!; try done; congruence.
Qed.

(** What an opening leaves of the database: the failed attempts are cleared, and
    the receipts are announced. *)
Definition opened (db : LocalDb) : LocalDb :=
  ContentGuard.mark {| db with metadata := {| (metadata db) with attempts := [] |} |}.
Definition current_schema (f : DbFile) : Prop :=
  fc_version (f_cols f) = CURRENT_SCHEMA_VERSION /\ stored_format_version (f_cols f) <= CURRENT_VAULT_FORMAT_VERSION.
Lemma schema_passes f : current_schema f -> validate_schema_version migrate f = (Ok tt, f).
Proof. intros [E1 E2]. unfold validate_schema_version. by rewrite (proj2 (Z.ltb_ge _ _)), E1, Z.eqb_refl. Qed.

Definition opens_freely (o : OpenIo) (db : LocalDb) : Prop :=
  oi_check o = true /\ oi_heal o = true /\ oi_boot o = true /\ Vault.vault_remaining_lockout_seconds (oi_now o) (attempts (metadata db)) = None.

Lemma open_runs o u dek pw rk f p :
  (forall n, env_io n = Written) -> p_vault p = Some (Vault f) -> current_schema f -> opens_freely o (f_db f) ->
  healthy u dek pw rk {| d_db := metadata (f_db f); d_sidecar := p_epoch p |} -> room dek u (f_db f) -> acked dek u (world_of f p) -> maintained f ->
  exists s q, open_manager migrate o pw p = (Ok s, q) /\ session_of u dek s /\ p_vault q = Some (Vault {| f with f_db := opened (f_db f) |}) /\
    healthy u dek pw rk {| d_db := metadata (opened (f_db f)); d_sidecar := p_epoch q |} /\
    acked dek u (world_of {| f with f_db := opened (f_db f) |} q) /\ p_retained q = p_retained p /\ p_staging q = p_staging p.
Proof.
  intros Hio Hp Hs (O1 & O2 & O3 & O4) Hh Hr Ha Hm. unfold open_manager. rewrite Hp, (schema_passes _ Hs). cbn [p_epoch].
  destruct (open_healthy u dek pw rk _ (oi_now o) (oi_now' o) Hh O4) as (s & d & E & Hse & _ & [t Ht] & _ & Hat & Hh').
  rewrite O1, O2, O3, E. cbn [d_db d_sidecar] in *. assert (t = []) as -> by (by rewrite Ht in Hat).
  assert (d_db d = {| (metadata (f_db f)) with attempts := [] |}) as Emd by exact Ht.
  match goal with |- context [maintain o s ?x ?y] => set (f1 := x); set (p1 := y) end.
  assert (room dek u (f_db f1)) as Hr1.
  { destruct Hr as (k & c & R1 & R2 & R3 & R4). exists k, c. split_and!; [done| |exact R3|apply R4|apply R4].
    unfold vault_id. subst f1. cbn [f_db metadata]. by rewrite Emd. }
  destruct (maintain_runs o s u dek f1 p1 Hio Hse Hr1) as (q & Eq & Q1 & Q2 & Q3 & Q4 & Q5); [| |].
  { destruct Ha as (k & c & A). exists k, c. exact A. }
  { exact Hm. }
  exists s, q. assert (ContentGuard.mark (f_db f1) = opened (f_db f)) as Eo by (unfold opened; subst f1; cbn [f_db]; by rewrite Emd).
  rewrite Eo in Q1, Q2. split; [exact Eq|]. split; [done|]. split; [exact Q1|]. split; [|split; [exact Q2|done]].
  rewrite Q3. replace (metadata (opened (f_db f))) with (d_db d) by exact Emd. subst p1. cbn [p_epoch]. by destruct d.
Qed.

(** The backup: what [stage_backup] made of a database. *)
Definition backup_of (dek : bytes) (u : string) (f : DbFile) (m : BackupManifest) (snap : bytes) : Prop :=
  snap = vacuum_into f /\ vault_uuid_col (metadata (f_db f)) = Some u /\
  exists id app now k, derive_backup_mac_key dek = Ok k /\
    let m0 := manifest_of id app now u (f_db f) (f_cols f) snap in m = {| m0 with bm_mac := b64_encode (compute_manifest_mac k m0) |}.

Lemma unwrapped_dek m pw h dek : unwrap_manifest_dek m pw = Ok (h, dek) -> kh_dek h = Some dek.
Proof.
  unfold unwrap_manifest_dek. intros E. do 4 apply result_bind_ok in E as (? & _ & E). destruct (unlock_vault_with_epoch _ _ _ _ _) as [r h'].
  apply result_bind_ok in E as (? & _ & E). apply result_bind_ok in E as (d & Hd & E). injection E as -> ->.
  unfold hierarchy_dek, get_dek in Hd. by destruct (kh_dek h); [injection Hd as ->|].
Qed.

Lemma backup_validates dek u pw f m snap rep :
  backup_of dek u f m snap -> opens_to pw dek (metadata (f_db f)) -> registry_ok dek (metadata (f_db f)) -> current_schema f ->
  verify_snapshot_envelopes dek u (f_cols f) (f_db f) = Ok rep -> failures rep = [] ->
  validate_staged_snapshot migrate m pw f = Ok f.
Proof.
  intros (_ & Hu & id & app & now & k & _ & Hm) Ho Hr Hs Hv Hf. cbv zeta in Hm.
  destruct (manifest_unlocks pw dek id app now u (f_db f) (f_cols f) snap (bm_mac m) Ho) as [h Hh].
  assert (unwrap_manifest_dek m pw = Ok (h, dek)) as E1 by (rewrite Hm in Hh |- *; exact Hh).
  unfold validate_staged_snapshot. rewrite E1. cbn [mbind result_bind].
  assert (same_provenance m f = Ok tt) as ->.
  { unfold same_provenance. rewrite Hm. cbn. rewrite Hu, bool_decide_true, !Z.eqb_refl by done. done. }
  assert (same_key_material m f = Ok tt) as ->.
  { unfold same_key_material, manifest_b64. rewrite Hm. cbn. rewrite !b64_decode_encode. cbn.
    destruct (slot_registry_mac (metadata (f_db f))) as [t|]; cbn; rewrite ?b64_decode_encode; cbn; by rewrite !bool_decide_true. }
  cbn [mbind result_bind]. rewrite bool_decide_true by (by rewrite Hm). cbn [negb err_if mbind result_bind].
  rewrite (schema_passes _ Hs). cbn [mbind result_bind]. rewrite (verify_healthy dek h _ (unwrapped_dek _ _ _ _ E1) Hr).
  destruct Hr as (key & slots & _ & _ & Hmac & Hus). rewrite (bool_decide_true (is_Some _)) by eauto. cbn [mbind result_bind]. rewrite Hus.
  cbn [negb err_if mbind result_bind]. assert (bm_vault_uuid m = u) as -> by (by rewrite Hm). rewrite Hv. cbn [mbind result_bind].
  by rewrite Hf.
Qed.

(** After the second step the sidecar records the restored state. *)
Lemma rebased_anchors io m rew f p u d :
  ri_reopen io = true -> ri_rebase io = true -> bm_vault_uuid m = u -> bm_epoch m = epoch_of (metadata (f_db f)) ->
  mark_wf u (epoch_of (metadata (f_db f))) (material_digest (metadata (f_db f))) -> d = material_digest (metadata (f_db f)) ->
  rew = rewinds m d (p_epoch p) ->
  exists q, rebase_sidecar io m rew f p = (Ok tt, q) /\ anchored u {| d_db := metadata (f_db f); d_sidecar := p_epoch q |} /\
    p_vault q = p_vault p /\ p_contents q = p_contents p /\ p_tick q = p_tick p /\ p_retained q = p_retained p /\ p_staging q = p_staging p.
Proof.
  intros I1 I2 Hu He Hw -> Hr. unfold rebase_sidecar. rewrite I1. cbn [negb]. destruct (needs_rebase m rew (p_epoch p)) eqn:En.
  - unfold rebase, write. rewrite I2. eexists. split; [reflexivity|]. split; [|done]. unfold anchored. cbn. rewrite Hu, He.
    by apply parse_sidecar_text.
  - exists p. split; [done|]. split; [|done]. unfold needs_rebase, peek in En. unfold rewinds, peek_full in Hr. unfold anchored. cbn [d_db d_sidecar].
    destruct (read_sidecar (p_epoch p)) as [[su se sd]|]; [|discriminate]. cbn in En, Hr.
    apply orb_false_iff in En as [En ->]. apply orb_false_iff in En as [En1 En2]. apply negb_false_iff in En1. rewrite En1 in Hr. cbn in Hr.
    symmetry in Hr. apply orb_false_iff in Hr as [Hr1 Hr2]. apply Z.ltb_ge in En2, Hr1. assert (se = bm_epoch m) as -> by lia.
    rewrite Z.eqb_refl in Hr2. cbn in Hr2. apply negb_false_iff in Hr2. apply String.eqb_eq in En1, Hr2.
    unfold EpochGuard.mark. congruence.
Qed.

(** The vault after a restore of [f]. *)
Definition restored (f : DbFile) : DbFile := {| (neutralize f) with f_db := opened (f_db (neutralize f)) |}.

Definition everything_works (io : RestoreIo) : Prop :=
  ri_target io = Ok tt /\ ri_fold io = true /\ ri_staging io = true /\ ri_stage io = true /\ ri_checkpoint io = true /\ ri_exclusive io = true /\
  ri_preserve io = true /\ ri_swap io = true /\ ri_reopen io = true /\ ri_rebase io = true /\ ri_reopen_again io = true /\ ri_finalize io = true.
Definition acknowledges_all (opts : RestoreOptions) : Prop :=
  allow_replace opts = true /\ allow_epoch_rewind opts = true /\ disable_sync opts = true.

Lemma admit_backup io opts m snap pw p d :
  everything_works io -> acknowledges_all opts -> verify_bundle_authenticity {| pb_manifest := m; pb_snapshot := snap |} pw = Ok m ->
  manifest_digest m = Ok d ->
  admit_restore io opts {| pb_manifest := m; pb_snapshot := snap |} pw p =
    (Ok (m, live_state io <$> p_vault p, rewinds m d (p_epoch p)), probed io p).
Proof.
  intros (I & If & _) (A1 & A2 & A3) Hv Hd. unfold admit_restore, classify_live_target, gates, probed. rewrite Hv, I, If, Hd, A1, A2, A3.
  destruct (p_vault p) as [v|]; [rewrite bool_decide_true by done|]; cbn [mbind result_bind negb err_if fmap option_fmap option_map andb];
    rewrite ?andb_false_r; cbn [mbind result_bind negb err_if]; rewrite ?andb_false_r; done.
Qed.
Lemma before_swap_runs io p :
  everything_works io -> before_swap io None (live_state io <$> p_vault p) (probed io p) = (Ok (p_vault p), checkpointed p).
Proof.
  intros (_ & If & _ & _ & I1 & I2 & I3 & I4 & _). unfold before_swap, take_pre_restore_snapshot, interrupted, probed. rewrite I1, I2, I3, I4, If.
  destruct (p_vault p) as [v|] eqn:Hv; cbn [fmap option_fmap option_map].
  - rewrite bool_decide_true by done. cbn [andb negb err_if mbind result_bind]. unfold drop_log, bare_file, checkpointed. cbn. rewrite Hv.
    by destruct (ls_openable _).
  - cbn. unfold drop_log, bare_file, checkpointed. by rewrite Hv.
Qed.

(** The second half, for the vault of a backup. *)
Lemma after_swap_runs io o m rew d u dek pw rk sc f pre p :
  everything_works io -> (forall n, env_io n = Written) -> p_vault p = Some (Vault f) ->
  bm_vault_uuid m = u -> bm_epoch m = epoch_of (metadata (f_db f)) -> (exists h, unwrap_manifest_dek m pw = Ok (h, dek)) ->
  d = material_digest (metadata (f_db f)) -> rew = rewinds m d (p_epoch p) ->
  current_schema f -> opens_freely o (f_db f) -> healthy u dek pw rk {| d_db := metadata (f_db f); d_sidecar := sc |} -> room dek u (f_db f) ->
  maintained f ->
  exists b q, after_swap migrate io o None m rew pw f pre p = (Ok b, q) /\ p_vault q = Some (Vault {| f with f_db := opened (f_db f) |}) /\
    healthy u dek pw rk {| d_db := metadata (opened (f_db f)); d_sidecar := p_epoch q |} /\
    acked dek u (world_of {| f with f_db := opened (f_db f) |} q) /\
    p_retained q = match pre with Some v => Some v | None => p_retained p end.
Proof.
  intros I Hio Hp Hu He [h Hh] Hd Hrew Hs Ho Hhe Hr Hm. pose proof I as (_ & _ & _ & _ & _ & _ & _ & _ & I1 & I2 & I3 & I4).
  pose proof (healthy_mark_wf _ _ _ _ _ Hhe) as Hw. unfold after_swap. cbn [interrupted err_if bool_decide].
  change (interrupted None Swap) with (Ok (E := PasswordManagerError) tt). cbv iota.
  destruct (rebased_anchors io m rew f p u d I1 I2 Hu He Hw Hd Hrew) as (p1 & -> & Ha & V1 & C1 & T1 & R1 & S1).
  unfold rebase_receipts. rewrite I3, Hh. cbn [negb]. unfold run_vault.
  destruct (rebase_runs dek u (world_of f p1) Hio eq_refl Hr) as (w2 & E2 & D2 & A2). rewrite E2.
  change (interrupted None SidecarRebaseline) with (Ok (E := PasswordManagerError) tt). cbv iota.
  set (p2 := keep_world f w2 p1).
  assert ({| f with f_db := w_db w2 |} = f) as Ef by (rewrite D2; by destruct f).
  destruct (open_runs o u dek pw rk f p2) as (s & q & E3 & _ & Q1 & Q2 & Q3 & Q4 & _); try done.
  - subst p2. unfold keep_world. cbn. by rewrite Ef.
  - eapply healthy_ext; [exact Hhe|apply same_keys_refl|right; exact Ha].
  - destruct A2 as (k & c & K1 & K2 & K3). exists k, c. split_and!; [done| |exact K3]. rewrite D2 in K2. exact K2.
  - rewrite E3. unfold finalize. rewrite I4. cbn [negb].
    assert (p_retained q = p_retained p) as Eq by (rewrite Q4; exact R1).
    destruct pre as [v|]; eexists _, _; (split; [reflexivity|]); split_and!; try done.
Qed.

(** C31. A backup can be restored.  Take the bundle of a healthy vault whose
    columns all open and whose maintenance is done.  With its password and every
    acknowledgement, onto any place, whatever file or sidecars are there (none,
    another vault, rubble, or what an interrupted restore left), when every file
    operation succeeds, the restore succeeds: the path holds the vault that was
    backed up, cut off from its sync group and with no failed attempts, healthy
    under the same password and recovery key and in step with its receipts, and
    the file that was there is the retained snapshot. *)
Theorem backup_restores s bio u id app now cols dev w m snap sc rk pw dek rep io o opts p :
  let f := {| f_db := w_db w; f_cols := cols; f_device := dev |} in
  stage_backup s bio u id app now cols dev w = Ok (m, snap) -> session_dek s = Ok dek ->
  healthy u dek pw rk {| d_db := metadata (w_db w); d_sidecar := sc |} ->
  verify_snapshot_envelopes dek u cols (w_db w) = Ok rep -> failures rep = [] ->
  current_schema f -> maintained f -> room dek u (w_db w) -> opens_freely o (w_db w) ->
  everything_works io -> acknowledges_all opts -> (forall n, env_io n = Written) ->
  exists report q, restore_bundle migrate io o opts (bundle_text (to_vec m) snap) pw p = (Ok report, q) /\
    p_vault q = Some (Vault (restored f)) /\ offline (restored f) /\
    healthy u dek pw rk {| d_db := metadata (f_db (restored f)); d_sidecar := p_epoch q |} /\
    in_step dek (world_of (restored f) q) /\
    entries (f_db (restored f)) = entries (w_db w) /\ ssh_keys (f_db (restored f)) = ssh_keys (w_db w) /\
    totp_secrets (f_db (restored f)) = totp_secrets (w_db w) /\
    p_retained q = match p_vault p with Some v => Some v | None => p_retained p end.
Proof.
  intros f Hst Hd Hh Hv Hf Hs Hm Hr Ho I A Hio.
  destruct (stage_backup_ok _ _ _ _ _ _ _ _ _ _ _ Hst) as (dek' & k & Hd' & Hk & Hsnap & Huu & _ & Hman & Hl1 & Hl2).
  assert (dek' = dek) as -> by congruence. clear Hd'. cbv zeta in Hman. change (w_db w) with (f_db f) in Hman.
  assert (backup_of dek u f m snap) as Hb by (split_and!; [done|done|]; exists id, app, now, k; by split).
  destruct (manifest_unlocks pw dek id app now u (f_db f) (f_cols f) snap (bm_mac m) (h_opens _ _ _ _ _ Hh)) as [h Hun].
  assert (exists h, unwrap_manifest_dek m pw = Ok (h, dek)) as Hu by (exists h; rewrite Hman in Hun |- *; exact Hun).
  assert (verify_bundle_authenticity {| pb_manifest := m; pb_snapshot := snap |} pw = Ok m) as Hver
    by (apply (written_verifies k pw dek); [exact Hk|by rewrite Hman..|exact Hu]).
  assert (manifest_digest m = Ok (material_digest (metadata (f_db f)))) as Hdig.
  { unfold manifest_digest, manifest_b64. rewrite Hman. cbn. rewrite !b64_decode_encode. unfold material_digest.
    destruct (slot_registry_mac (metadata (w_db w))); cbn; by rewrite ?b64_decode_encode. }
  unfold restore_bundle, restore_from_parsed. rewrite read_bundle_written by (done || by rewrite Hman).
  rewrite (admit_backup io opts m snap pw p _ I A Hver Hdig). cbn [mbind result_bind]. unfold stage_restore.
  pose proof I as (_ & _ & I1 & I2 & _). rewrite I1, I2. cbn [negb err_if mbind result_bind pb_snapshot]. rewrite Hsnap, open_vacuumed. cbn [ok_or mbind result_bind].
  change {| f_db := w_db w; f_cols := cols; f_device := dev |} with f.
  rewrite (backup_validates dek u pw f m snap rep Hb (h_opens _ _ _ _ _ Hh) (h_registry _ _ _ _ _ Hh) Hs Hv Hf). cbn [mbind result_bind].
  rewrite before_swap_runs by done. cbn [mbind result_bind].
  destruct (after_swap_runs io o m (rewinds m (material_digest (metadata (f_db f))) (p_epoch p)) (material_digest (metadata (f_db f))) u dek pw rk sc (neutralize f) (p_vault p)
    (swap io (neutralize f) (p_vault p) (biometric_ref (f_device f)) (checkpointed p))) as (b & q & -> & Q1 & Q2 & (k' & c & Q3) & Q4); try done.
  { by rewrite Hman. }
  { by rewrite Hman. }
  cbn [mbind result_bind]. eexists _, q. split; [reflexivity|]. split_conj; try done.
  - exact (neutralized_offline f (restored f) eq_refl eq_refl).
  - destruct Q3 as (K1 & K2 & K3), Hr as (k0 & c0 & R1 & R2 & R3 & R4 & R5). intros _.
    assert (k0 = k') as -> by congruence. assert (c0 = c) as -> by (change (snapshot (w_db w) = Ok c) in K2; congruence).
    exists k', u, c, (Some (receipts u c None)). split_and!; [done|exact R2|exact K2| |by left].
    change (w_contents (world_of (restored f) q)) with (p_contents q). cbn in K3. rewrite K3. apply load_saved; auto.
Qed.
End Facts.

(** ** Witnesses *)

Module Demo.
Import CoreDemo KeyDemo EntriesDemo VaultDemo Totp.Demo DomainTags.Demo Custody.Demo Backup.Demo.
#[local] Existing Instance Backup.Demo.sqlite_file.
#[local] Existing Instance Backup.Demo.sqlite_file_laws.
#[local] Instance manifest_text : SerdeBytes BackupManifest | 0 := Backup.Demo.manifest_text.
#[local] Instance manifest_text_laws : SerdeBytesLaws BackupManifest | 0 := Backup.Demo.manifest_text_laws.
#[local] Existing Instance Backup.Demo.manifest_text_json.

(** The vault of [VaultDemo] after an opening: nothing to maintain. *)
Definition ready_db : LocalDb := {| (w_db kept_world) with registry_state :=
  <[SWEEP_COMPLETE_KEY := "first"%string]> (<[TAG_KEY_STATE := i64_display DOMAIN_TAG_KEY_ID]>
  (<["backfill_complete"%string := "1"%string]> {["equality_key_id"%string := i64_display EQUALITY_KEY_ID]})) |}.
Definition ready_world : World := {| w_db := ready_db; w_on_disk := true; w_contents := None; w_tick := 0 |}.
Definition no_migrations (f : DbFile) : Res unit * DbFile := (Err (Database Sqlite), f).
Definition all_works : RestoreIo := {| ri_target := Ok tt; ri_open := true; ri_config := true; ri_authority := true; ri_fold := true; ri_staging := true; ri_stage := true; ri_checkpoint := true; ri_exclusive := true;
  ri_preserve := true; ri_swap := true; ri_keychain := true; ri_reopen := true; ri_rebase := true; ri_reopen_again := true; ri_finalize := true |}.
Definition now_open : OpenIo := {| oi_now := 600; oi_now' := 600; oi_clock := "now"; oi_check := true; oi_heal := true; oi_boot := true; oi_activate := true |}.
Definition acks : RestoreOptions := {| allow_replace := true; allow_epoch_rewind := true; disable_sync := true |}.
(** A path with rubble, and a sidecar that nothing is known of. *)
Definition rubble : VaultFile := Foreign (as_bytes "rubble").
Definition wreck : Place := {| p_vault := Some rubble; p_bare := None; p_epoch := Some "rubble"%string; p_contents := None; p_retained := None; p_staging := [];
  p_keychain := ∅; p_tick := 0 |}.
Abbreviation taken := (stage_backup session0 working demo_uuid "9" "0.9.0" 500 format device ready_world).
Definition ready_file : DbFile := {| f_db := ready_db; f_cols := format; f_device := device |}.

Definition room_b (u : string) (db : LocalDb) : bool :=
  match key demo_dek, vault_id db, snapshot db with
  | Ok k, Ok v, Ok c => String.eqb v u && (Z.of_nat (length (receipts_file k (receipts u c None))) <=? MAX_BYTES) &&
      (Z.of_nat (length (receipts_file k (receipts u c (Some c)))) <=? MAX_BYTES)
  | _, _, _ => false
  end.
Lemma room_b_ok u db : room_b u db = true -> room demo_dek u db.
Proof.
  unfold room_b, room. generalize (key demo_dek) as kr, (vault_id db) as vr, (snapshot db) as cr. intros [k|] [v|] [c|]; try discriminate. intros E. apply andb_true_iff in E as [E E2]. apply andb_true_iff in E as [E E1].
  apply String.eqb_eq in E as ->. exists k, c.
  split; [reflexivity|]. split; [reflexivity|]. split; [reflexivity|]. split; [exact (proj1 (Z.leb_le _ _) E1)|exact (proj1 (Z.leb_le _ _) E2)].
Qed.
Lemma ready_healthy : session_dek session0 = Ok demo_dek /\
  healthy demo_uuid demo_dek password1 demo_rk {| d_db := metadata ready_db; d_sidecar := d_sidecar disk0 |}.
Proof.
  destruct healthy0 as [Hs Hh]. split; [reflexivity|].
  assert (forall d, healthy demo_uuid demo_dek password1 demo_rk d -> healthy demo_uuid demo_dek password1 demo_rk {| d_db := d_db d; d_sidecar := d_sidecar d |}) as G by (by intros []).
  exact (G _ Hh).
Qed.
Lemma ready_maintained : current_schema ready_file /\ maintained ready_file /\ room demo_dek demo_uuid ready_db /\ opens_freely now_open ready_db.
Proof.
  split; [by split|]. split; [split_and!; vm_compute; reflexivity|]. split; [apply room_b_ok; vm_compute; reflexivity|].
  split_and!; vm_compute; reflexivity.
Qed.
Lemma ready_verifies : exists rep, verify_snapshot_envelopes demo_dek demo_uuid format ready_db = Ok rep /\ failures rep = [].
Proof. eexists. split; vm_compute; reflexivity. Qed.
Lemma taken_ok : match taken with Ok _ => true | Err _ => false end = true.
Proof. vm_compute. reflexivity. Qed.

Lemma backup_restores_witness : exists m snap report q, taken = Ok (m, snap) /\
  restore_bundle no_migrations all_works now_open acks (bundle_text (to_vec m) snap) password1 wreck = (Ok report, q) /\
  p_vault q = Some (Vault (restored ready_file)) /\ p_retained q = Some rubble.
Proof.
  pose proof taken_ok as Hok. destruct taken as [[m snap]|e] eqn:E; [|discriminate]. destruct ready_healthy as [Hd Hh].
  destruct ready_maintained as (M1 & M2 & M3 & M4). destruct ready_verifies as (rep & V1 & V2).
  destruct (backup_restores no_migrations session0 working demo_uuid "9" "0.9.0" 500 format device ready_world m snap (d_sidecar disk0) demo_rk
    password1 demo_dek rep all_works now_open acks wreck E Hd Hh V1 V2 M1 M2 M3 M4)
    as (report & q & R1 & R2 & _ & _ & _ & _ & _ & _ & R3).
  - split_and!; reflexivity.
  - split_and!; reflexivity.
  - intros n. reflexivity.
  - exists m, snap, report, q. split; [reflexivity|]. split; [exact R1|]. split; [exact R2|exact R3].
Defined.

(** The same restore, cut short after the rename. *)
Lemma restore_all_or_nothing_witness : exists m snap p' g, taken = Ok (m, snap) /\
  restore_from_parsed no_migrations all_works now_open acks (Some Swap) {| pb_manifest := m; pb_snapshot := snap |} password1 wreck =
    (Err (InvalidInput "restore interrupted"), p') /\
  p_vault p' = Some (Vault g) /\ offline g /\ p_staging p' = [{| st_staged := None; st_pre := Some rubble |}].
Proof.
  assert (match taken with
          | Ok (m, snap) =>
            match restore_from_parsed no_migrations all_works now_open acks (Some Swap) {| pb_manifest := m; pb_snapshot := snap |} password1 wreck with
            | (Err (InvalidInput e), p') => String.eqb e "restore interrupted" && (length (p_staging p') =? 1)%nat
            | _ => false
            end
          | Err _ => false
          end = true) as Hok by (vm_compute; reflexivity).
  destruct taken as [[m snap]|e] eqn:E; [|discriminate].
  destruct (restore_from_parsed _ _ _ _ _ _ _ _) as [r p'] eqn:Er. destruct r as [rep|e]; [exact (False_ind _ (diff_false_true Hok))|].
  destruct e as [| | | |e| | | | | | |]; try exact (False_ind _ (diff_false_true Hok)).
  apply andb_true_iff in Hok as [Hm Hl]. apply String.eqb_eq in Hm. subst e. apply Nat.eqb_eq in Hl.
  destruct (restore_all_or_nothing no_migrations all_works now_open acks (Some Swap) {| pb_manifest := m; pb_snapshot := snap |} password1 wreck _ p' Er)
    as [[_ [-> | ->]]|[(_ & _ & Hf & _)|(m' & f0 & f & g & _ & _ & _ & _ & Hv & Hoff & _ & _ & Hst)]]; [discriminate..|].
  exists m, snap, p', g. split; [reflexivity|]. split; [exact Er|]. split; [exact Hv|]. split; [exact Hoff|exact Hst].
Defined.

(** A vault of an older schema, of which only an empty file is outside of its log,
    while another process keeps the log open: its facts are not read, the copy is
    that of the empty file, and a rename that then fails leaves the path empty. *)
Definition logged : Place := {|
  p_vault := Some (Vault {| f_db := ready_db; f_cols := {| fc_version := 12; fc_format_version := Some 3 |}; f_device := device |});
  p_bare := Some Blank; p_epoch := None; p_contents := None; p_retained := None; p_staging := []; p_keychain := ∅; p_tick := 0 |}.
Definition shared_no_rename : RestoreIo := {| all_works with ri_fold := false; ri_swap := false |}.
Example unread_vault_loses_log :
  match taken with
  | Ok (m, snap) =>
    let '(r, q) := restore_bundle no_migrations shared_no_rename now_open acks (bundle_text (to_vec m) snap) password1 logged in
    negb (is_ok r) && match p_vault q with Some Blank => true | _ => false end && (length (p_staging q) =? 0)%nat
  | Err _ => false
  end = true.
Proof. vm_compute. reflexivity. Qed.

(** A restore onto an empty path leaves its staging directory. *)
Definition nothing : Place := {| p_vault := None; p_bare := None; p_epoch := None; p_contents := None; p_retained := None; p_staging := []; p_keychain := ∅; p_tick := 0 |}.
Example fresh_restore_leaves_directory :
  match taken with
  | Ok (m, snap) =>
    let '(r, q) := restore_bundle no_migrations all_works now_open acks (bundle_text (to_vec m) snap) password1 nothing in
    is_ok r && (length (p_staging q) =? 1)%nat
  | Err _ => false
  end = true.
Proof. vm_compute. reflexivity. Qed.
End Demo.
