(* ===== verification/Policy.v ===== *)
(** * Core: rotation policy ([registry/policy.rs])

    Pure functions over values.  A reason is a constructor with the numbers its
    text shows.  Day counts are exact integers: with the vault's inputs the
    [i64] arithmetic stays in range. *)

From S2P Require Import Prelude.
From Stdlib Require Import ZArith Lia.
From stdpp Require Import base list option numbers sorting.
Open Scope Z_scope.

Definition DUE_SOON_WINDOW_DAYS : Z := 14.
Definition REUSE_FLOOR_COUNT : Z := 2.
Definition SECONDS_PER_DAY : Z := 86400.

Inductive EntityKind :=
| Broker | MarketData | RegulatoryData | Notification | Database | Infrastructure | Application | Other.
Inductive Criticality := Low | Medium | High.

(** [base_interval_days]. *)
Definition base_interval_days (kind : EntityKind) : Z :=
  match kind with
  | Database | Broker => 90
  | RegulatoryData => 365
  | _ => 180
  end.

(** [RotationStatus]; the derived order is the order of declaration. *)
Inductive RotationStatus := StOk | DueSoon | Weak | Reused | Overdue.
Definition severity (s : RotationStatus) : Z :=
  match s with StOk => 0 | DueSoon => 1 | Weak => 2 | Reused => 3 | Overdue => 4 end.

Inductive Reason :=
| WeakScore (score threshold : Z)
| SharedAcross (n : Z)
| PastExpiry
| ExpiresIn (days : Z)
| PastInterval (days interval : Z)
| DueIn (days interval : Z).

Record RecommendationInput := {
  kind : EntityKind;
  criticality : Criticality;
  entry_override_days : option Z;
  entity_override_days : option Z;
  age_days : Z;
  reuse_count : Z;               (* usize *)
  strength_score : option Z;     (* u8 *)
  weak_threshold_score : Z;      (* u8 *)
  expires_at : option Z;
  now : Z;
  suppress_age : bool;
}.

Record RotationRecommendation := {
  status : RotationStatus;
  reasons : list Reason;
  resolved_interval : Z;
}.

(** [resolved_interval_days]: [/] truncates. *)
Definition resolved_interval_days (i : RecommendationInput) : Z :=
  let base := default (base_interval_days (kind i))
                (match entry_override_days i with Some d => Some d | None => entity_override_days i end) in
  let interval := match criticality i with High => Z.quot base 2 | Low => base * 2 | Medium => base end in
  let interval := if REUSE_FLOOR_COUNT <=? reuse_count i then Z.quot interval 2 else interval in
  Z.max interval 1.

(** The closure [set_floor]: the more severe status, and one more reason. *)
Definition set_floor (floor : RotationStatus) (r : Reason) (st : RotationStatus * list Reason) :=
  (if severity st.1 <? severity floor then floor else st.1, st.2 ++ [r]).

(** [recommend]. *)
Definition recommend (i : RecommendationInput) : RotationRecommendation :=
  let interval := resolved_interval_days i in
  let st := (StOk, []) in
  let st := match strength_score i with
    | Some score => if score <? weak_threshold_score i then set_floor Weak (WeakScore score (weak_threshold_score i)) st else st
    | None => st
    end in
  let st := if REUSE_FLOOR_COUNT <=? reuse_count i then set_floor Reused (SharedAcross (reuse_count i)) st else st in
  let st := match expires_at i with
    | Some e =>
      let days_left := (e - now i) / SECONDS_PER_DAY in
      if days_left <=? 0 then set_floor Overdue PastExpiry st
      else if days_left <=? DUE_SOON_WINDOW_DAYS then set_floor DueSoon (ExpiresIn days_left) st
      else st
    | None => st
    end in
  let st := if negb (suppress_age i) then
      let days_remaining := interval - age_days i in
      if days_remaining <=? 0 then set_floor Overdue (PastInterval (- days_remaining) interval) st
      else if days_remaining <=? DUE_SOON_WINDOW_DAYS then set_floor DueSoon (DueIn days_remaining interval) st
      else st
    else st in
  {| status := st.1; reasons := st.2; resolved_interval := interval |}.

(** ** Properties *)

(** The status a reason stands for. *)
Definition floor_of (r : Reason) : RotationStatus :=
  match r with
  | WeakScore _ _ => Weak
  | SharedAcross _ => Reused
  | PastExpiry | PastInterval _ _ => Overdue
  | ExpiresIn _ | DueIn _ _ => DueSoon
  end.

(** The most severe of a list of floors. *)
Definition worst (l : list Reason) : Z := foldr (fun r m => Z.max (severity (floor_of r)) m) 0 l.

(** A state of the closure: its status is the worst of its reasons. *)
Definition coherent (st : RotationStatus * list Reason) : Prop := severity st.1 = worst st.2.

Lemma severity_nonneg s : 0 <= severity s.
Proof. destruct s; simpl; lia. Qed.

Lemma worst_snoc l r : worst (l ++ [r]) = Z.max (worst l) (severity (floor_of r)).
Proof.
  unfold worst. induction l as [|x l IH]; simpl; [pose proof (severity_nonneg (floor_of r)); lia|]. rewrite IH. lia.
Qed.

Lemma set_floor_coherent f r st : floor_of r = f -> coherent st -> coherent (set_floor f r st).
Proof.
  unfold coherent, set_floor. intros <- Hc. simpl. rewrite worst_snoc, <- Hc.
  destruct (_ <? _) eqn:E; propify; lia.
Qed.

Lemma recommend_coherent i : severity (status (recommend i)) = worst (reasons (recommend i)).
Proof.
  unfold recommend. cbn [status reasons].
  match goal with |- severity (?st.1) = _ => change (coherent st) end.
  repeat match goal with
  | |- coherent (if ?b then _ else _) => destruct b
  | |- coherent (match ?o with _ => _ end) => destruct o
  | |- coherent (set_floor _ _ _) => apply set_floor_coherent; [done|]
  end; done.
Qed.

(** The reasons, check by check. *)
Definition strength_reasons (i : RecommendationInput) : list Reason :=
  match strength_score i with
  | Some score => if score <? weak_threshold_score i then [WeakScore score (weak_threshold_score i)] else []
  | None => []
  end.
Definition reuse_reasons (i : RecommendationInput) : list Reason :=
  if REUSE_FLOOR_COUNT <=? reuse_count i then [SharedAcross (reuse_count i)] else [].
Definition days_left_reasons (overdue : Reason) (due_soon : Z -> Reason) (days : Z) : list Reason :=
  if days <=? 0 then [overdue] else if days <=? DUE_SOON_WINDOW_DAYS then [due_soon days] else [].
Definition expiry_reasons (i : RecommendationInput) : list Reason :=
  match expires_at i with
  | Some e => days_left_reasons PastExpiry ExpiresIn ((e - now i) / SECONDS_PER_DAY)
  | None => []
  end.
Definition age_reasons (i : RecommendationInput) : list Reason :=
  if suppress_age i then []
  else let d := resolved_interval_days i - age_days i in
    days_left_reasons (PastInterval (- d) (resolved_interval_days i)) (fun d => DueIn d (resolved_interval_days i)) d.

Lemma recommend_reasons i :
  reasons (recommend i) = strength_reasons i ++ reuse_reasons i ++ expiry_reasons i ++ age_reasons i.
Proof.
  unfold recommend, strength_reasons, reuse_reasons, expiry_reasons, age_reasons, days_left_reasons. cbn [reasons].
  destruct (strength_score i) as [s|]; [destruct (s <? _)|]; (destruct (_ <=? reuse_count i));
    (destruct (expires_at i) as [e|]; [destruct (_ / _ <=? 0); [|destruct (_ / _ <=? _)]|]);
    (destruct (suppress_age i); simpl; [|destruct (_ - _ <=? 0); [|destruct (_ - _ <=? _)]]); done.
Qed.

Lemma worst_app l k : worst (l ++ k) = Z.max (worst l) (worst k).
Proof.
  induction k as [|r k IH] using rev_ind.
  - rewrite app_nil_r. unfold worst at 3. simpl. rewrite Z.max_l; [done|].
    induction l as [|x l IHl]; simpl; [done|]. unfold worst in *. simpl. lia.
  - rewrite app_assoc, !worst_snoc, IH. lia.
Qed.

Lemma status_parts i :
  severity (status (recommend i)) =
  Z.max (worst (strength_reasons i)) (Z.max (worst (reuse_reasons i))
    (Z.max (worst (expiry_reasons i)) (worst (age_reasons i)))).
Proof. by rewrite recommend_coherent, recommend_reasons, !worst_app. Qed.

(** Fewer days left is never less severe. *)
Lemma days_left_worst o1 s1 o2 s2 d1 d2 :
  floor_of o1 = Overdue -> floor_of o2 = Overdue ->
  (forall d, floor_of (s1 d) = DueSoon) -> (forall d, floor_of (s2 d) = DueSoon) ->
  d2 <= d1 -> worst (days_left_reasons o1 s1 d1) <= worst (days_left_reasons o2 s2 d2).
Proof.
  intros O1 O2 S1 S2 Hd. unfold days_left_reasons, worst, DUE_SOON_WINDOW_DAYS.
  destruct (Z.leb_spec d1 0), (Z.leb_spec d2 0), (Z.leb_spec d1 14), (Z.leb_spec d2 14); simpl;
    rewrite ?O1, ?O2, ?S1, ?S2; simpl; lia.
Qed.

Lemma worst_nonneg l : 0 <= worst l.
Proof. unfold worst. induction l; simpl; lia. Qed.

(** [j] is no safer than [i]: the same entry and policy, but used in at least
    as many places, at least as old, at least as weak, at least as close to
    its expiry, and tracked wherever [i] is. *)
Record riskier (i j : RecommendationInput) : Prop := {
  rk_kind : kind j = kind i;
  rk_criticality : criticality j = criticality i;
  rk_entry : entry_override_days j = entry_override_days i;
  rk_entity : entity_override_days j = entity_override_days i;
  rk_threshold : weak_threshold_score j = weak_threshold_score i;
  rk_reuse : reuse_count i <= reuse_count j;
  rk_age : age_days i <= age_days j;
  rk_strength : forall s, strength_score i = Some s -> exists s', strength_score j = Some s' /\ s' <= s;
  rk_expiry : forall e, expires_at i = Some e -> exists e', expires_at j = Some e' /\ e' - now j <= e - now i;
  rk_suppress : suppress_age j = true -> suppress_age i = true;
}.

Lemma riskier_interval i j : riskier i j -> resolved_interval_days j <= resolved_interval_days i.
Proof.
  intros [Hk Hc He Hy _ Hr _ _ _ _]. unfold resolved_interval_days. rewrite Hk, Hc, He, Hy.
  set (base := default _ _). set (x := match criticality i with High => _ | _ => _ end).
  destruct (Z.leb_spec REUSE_FLOOR_COUNT (reuse_count j)), (Z.leb_spec REUSE_FLOOR_COUNT (reuse_count i));
    try lia. Z.to_euclidean_division_equations. lia.
Qed.

(** The recommendation is monotone: an entry that is older, weaker, more
    shared or closer to its expiry never gets a milder status, for every
    override, criticality and kind. *)
Theorem recommend_monotone i j :
  riskier i j -> severity (status (recommend i)) <= severity (status (recommend j)).
Proof.
  intros Hr. pose proof (riskier_interval i j Hr) as Hint. destruct Hr as [_ _ _ _ Ht Hre Ha Hs He Hsup].
  rewrite !status_parts. apply Z.max_le_compat; [|apply Z.max_le_compat; [|apply Z.max_le_compat]].
  - unfold strength_reasons. destruct (strength_score i) as [s|]; [|apply worst_nonneg].
    destruct (Hs s eq_refl) as (s' & -> & Hle). rewrite Ht.
    destruct (Z.ltb_spec s (weak_threshold_score i)), (Z.ltb_spec s' (weak_threshold_score i)); simpl; lia.
  - unfold reuse_reasons.
    destruct (Z.leb_spec REUSE_FLOOR_COUNT (reuse_count i)), (Z.leb_spec REUSE_FLOOR_COUNT (reuse_count j)); simpl; lia.
  - unfold expiry_reasons. destruct (expires_at i) as [e|]; [|apply worst_nonneg].
    destruct (He e eq_refl) as (e' & -> & Hle). apply days_left_worst; [done..|]. by apply Z.div_le_mono.
  - unfold age_reasons. destruct (suppress_age i); [apply worst_nonneg|].
    destruct (suppress_age j); [by specialize (Hsup eq_refl)|]. apply days_left_worst; [done..|]. lia.
Qed.

Definition demo_input (age : Z) (score : Z) : RecommendationInput := {|
  kind := Broker; criticality := High; entry_override_days := None; entity_override_days := None;
  age_days := age; reuse_count := 1; strength_score := Some score; weak_threshold_score := 3;
  expires_at := None; now := 0; suppress_age := false |}.

Lemma recommend_monotone_witness :
  severity (status (recommend (demo_input 40 4))) <= severity (status (recommend (demo_input 45 2))).
Proof.
  apply (recommend_monotone (demo_input 40 4) (demo_input 45 2)).
  constructor; simpl; try reflexivity; try lia; try discriminate. intros s [= <-]. exists 2. split; [reflexivity|lia].
Defined.

Example demo_due_soon : status (recommend (demo_input 40 4)) = DueSoon.
Proof. reflexivity. Qed.
Example demo_overdue : status (recommend (demo_input 45 2)) = Overdue.
Proof. reflexivity. Qed.
