(* ===== verification/AuditLog.v ===== *)
(** * The audit log ([audit.rs])

    One JSON record per line in [audit.log], rotated into [audit.log.1],
    [audit.log.2] and so on.  Every record carries the hash of its
    predecessor; [append_entry] finds the head of the chain in the files
    themselves, and [verify_audit_chain] walks all of them.

    The log directory is a map from file names to their bytes.  An append and
    a verification hold the directory lock, so each is one step.  The disk
    itself does not fail in the model; the failures the code can meet on a
    working disk (a missing file, bytes that are not UTF-8, a digest of the
    wrong length) are there, a panic as the value [Panics]. *)

From S2P Require Import Prelude Text ThirdParty Envelope CoreError Keyring SyncWire.
From Stdlib Require Import ZArith Lia Strings.String Strings.Ascii Strings.Byte.
From stdpp Require Import base list option strings numbers gmap sorting.
From S2P Require Import Text.
Open Scope Z_scope.

(** ** [data_encoding::HEXLOWER]: lower-case hexadecimal, which it documents
    as a canonical encoding. *)

Class HexLower := {
  hexlower_encode : bytes -> string;
  hexlower_decode : string -> option bytes;
}.
Class HexLowerLaws `{HexLower} : Prop := {
  hexlower_decode_encode : forall b, hexlower_decode (hexlower_encode b) = Some b;
  hexlower_encode_decode : forall s b, hexlower_decode s = Some b -> hexlower_encode b = s;
  hexlower_encode_length : forall b, String.length (hexlower_encode b) = (2 * length b)%nat;
}.

(** ** Data *)

Definition AUDIT_CHAIN_FORMAT_VERSION : Z := 1.
Definition AUDIT_ID_LABEL_ENTRY : string := "entry-id".
Definition AUDIT_ID_LABEL_ENTITY : string := "entity-id".
Definition AUDIT_ID_LABEL_DOMAIN : string := "domain".
Definition AUDIT_LOG_FILE_NAME : string := "audit.log".
Definition REDACTED_DOMAIN_NO_KEY : string := "opq:domain:redacted-locked".
Definition GENESIS_DOMAIN : bytes := as_bytes "sentinelpass-audit-chain-genesis-v1".
Definition CHAIN_TAIL_SCAN_BYTES : Z := 64 * 1024.

Inductive CustodyAuditOperation := Put | Remove | Grant | Deliver.

Module E.
Inductive AuditEventType :=
| PersonalCustody (operation : CustodyAuditOperation) (success : bool)
| VaultCreated
| VaultUnlocked (success : bool)
| VaultLocked
| MasterPasswordChanged (success : bool) (from_epoch to_epoch : Z)
| EpochHighWaterRebased (refused : bool)
| SlotRegistryIntegrityRefused
| RecoveryPerformed (from_epoch to_epoch : Z)
| RecoverySlotCreated
| SlotRevoked
| V2BlobMigration
| CredentialCreated (entry_id : Z)
| CredentialViewed (entry_id : Z)
| CredentialModified (entry_id : Z)
| CredentialDeleted (entry_id : Z)
| CredentialsListed (count : Z)
| ExternalSecretAccess (client_id : option string) (domain : string) (field purpose : option string) (success : bool)
| ExternalSecretWrite (client_id : option string) (domain : string) (purpose : option string) (success : bool)
| AuthenticationAttempt (success : bool)
| AuthenticationFailure (reason : string)
| BruteForceDetected (ip_address : option string)
| VaultAutoLocked
| VaultLockedManually
| DataExported (format : string)
| DataImported (format : string) (count : Z)
| BackupCreated
| VaultRestored (from_epoch : option Z) (to_epoch : Z) (epoch_rewound sync_disabled : bool)
| VaultRestoreRefused
| RegistryEntityCreated (entity_id : string)
| RegistryEntityDeleted (entity_id : string)
| EntryAssignedToEntity (entry_id : Z) (entity_id : string)
| SecretRotated (entry_id : Z)
| RegistryIndexRebuilt (entries : Z)
| DaemonStarted
| DaemonStopped
| IpcServerStarted
| IpcClientConnected
| BiometricUnlockRequested (success : bool).
End E.

Record AuditChain := {
  ac_v : Z;
  ac_seq : Z;
  ac_prev : string;
  ac_hash : string;
  ac_sealed : bool;
}.

(** Timestamps count nanoseconds. *)
Record AuditEntry := {
  ae_timestamp : Z;
  ae_event_type : E.AuditEventType;
  ae_severity : Z;
  ae_context : string;
  ae_pid : option Z;
  ae_tid : option Z;
  ae_chain : option AuditChain;
}.

Definition with_chain (e : AuditEntry) (c : option AuditChain) : AuditEntry :=
  {| ae_timestamp := ae_timestamp e; ae_event_type := ae_event_type e; ae_severity := ae_severity e;
     ae_context := ae_context e; ae_pid := ae_pid e; ae_tid := ae_tid e; ae_chain := c |}.

Record AuditPolicy := { max_file_bytes : Z; max_files : nat }.

Definition AuditPolicy_default : AuditPolicy := {| max_file_bytes := 8 * 1024 * 1024; max_files := 8 |}.

Definition sanitized (p : AuditPolicy) : AuditPolicy :=
  {| max_file_bytes := Z.max (max_file_bytes p) 256; max_files := Nat.max (max_files p) 1 |}.

Inductive AuditChainStart := Genesis | CarriedOver.

Inductive AuditVerifyFailure :=
| MissingChainKey
| UnsupportedVersion (found : Z)
| SequenceGap (expected found : Z)
| LinkMismatch
| HashMismatch
| SuspectedSplice (count : Z)
| MalformedChainFields.

Inductive AuditVerifyOutcome :=
| Verified
| Failed (file : string) (line : Z) (seq : option Z) (reason : AuditVerifyFailure).

Record AuditVerifyReport := {
  rp_files : list string;
  rp_total_records : Z;
  rp_chained_records : Z;
  rp_legacy_records : Z;
  rp_suspected_splices : Z;
  rp_unsealed_records : Z;
  rp_malformed_lines : Z;
  rp_chain_start : option AuditChainStart;
  rp_oldest_record : option Z;
  rp_newest_record : option Z;
  rp_outcome : AuditVerifyOutcome;
}.

Definition report_is_ok (r : AuditVerifyReport) : bool :=
  match rp_outcome r with Verified => true | Failed _ _ _ _ => false end.

Record AuditKeys := { id_key : bytes; chain_key : bytes }.

(** How a call ends when it does not return: with an error, or a panic. *)
Inductive Abnormal := Fails (e : PasswordManagerError) | Panics.

Definition file_io {A} (m : string) : result Abnormal A := Err (Fails (Database (OtherDb m))).

(** ** The directory *)

Abbreviation Dir := (gmap string bytes).

(** [Path::exists], [fs::remove_file], [fs::rename] ([None]: not found). *)
Definition file_exists (d : Dir) (n : string) : bool := match d !! n with Some _ => true | None => false end.
Definition rename (d : Dir) (from to : string) : option Dir := (fun c => <[to := c]> (delete from d)) <$> d !! from.

Definition rotated_sibling (n : nat) : string := AUDIT_LOG_FILE_NAME +:+ "." +:+ i64_display (Z.of_nat n).

(** The number of a rotated file: a name [audit.log.<u64>]. *)
Definition rotation_number (name : string) : option Z :=
  suffix ← strip_prefix (AUDIT_LOG_FILE_NAME +:+ ".") name; parse_unsigned 64 suffix.

Definition newer (a b : Z * string) : Prop := b.1 <= a.1.
#[global] Instance newer_dec : RelDecision newer.
Proof. intros a b. unfold newer. apply _. Defined.

Definition rotated_files (d : Dir) : list (Z * string) :=
  merge_sort newer (omap (fun f : string * bytes => n ← rotation_number f.1; Some (n, f.1)) (map_to_list d)).

Definition chain_files_oldest_first (d : Dir) : list string := (rotated_files d).*2 ++ [AUDIT_LOG_FILE_NAME].

(** [str::is_empty] of the trimmed line. *)
Definition blank (line : string) : bool := is_empty (trim line).

Section AuditLog.
Context `{Sha256, Hmac, HexLower, SerdeJson AuditEntry, Aead, Argon2id}.

(** ** Hashes and tokens *)

Definition genesis_prev : bytes := sha256 GENESIS_DOMAIN.

Definition canonical_record_bytes (entry : AuditEntry) : bytes := as_bytes (to_json (with_chain entry None)).

Definition hmac_tag (idk : bytes) (label : string) (value : bytes) : bytes :=
  hmac_sha256 idk (as_bytes label ++ as_bytes ":" ++ value).

Definition entry_token_from_key (idk : bytes) (entry_id : Z) : Z :=
  let tag := hmac_tag idk AUDIT_ID_LABEL_ENTRY (i64_to_le_bytes entry_id) in
  let raw := u64_as_i64 (of_be_bytes (take 8 tag)) in
  Z.land raw (2 ^ 63 - 1).

Definition string_token_from_key (idk : bytes) (label value : string) : string :=
  let tag := hmac_tag idk label (as_bytes value) in
  "opq:" +:+ label +:+ ":" +:+ hexlower_encode (take 16 tag).

Definition chain_hash (sealed : bool) (key : option bytes) (prev record : bytes) : result Abnormal bytes :=
  let input := prev ++ record in
  if sealed then
    match key with
    | None => file_io "audit chain key unavailable for sealed record"
    | Some k => Ok (hmac_sha256 k input)
    end
  else Ok (sha256 input).

(** [HEXLOWER.decode_mut] into a buffer of [n] bytes, which panics when the
    text is not [2 * n] long; [None] is its error. *)
Definition decode_mut (s : string) (n : nat) : result Abnormal (option bytes) :=
  if (String.length s =? 2 * n)%nat then Ok (hexlower_decode s) else Err Panics.

(** ** Finding the head of the chain *)

(** The lines from the newest; the last of them is the first of the buffer. *)
Fixpoint scan_back (drop_first_fragment : bool) (newest_first : list string) : result Abnormal (option (bytes * Z)) :=
  match newest_first with
  | [] => Ok None
  | line :: older =>
    if drop_first_fragment && match older with [] => true | _ => false end then scan_back drop_first_fragment older
    else
    let line := trim line in
    if is_empty line then scan_back drop_first_fragment older
    else
    match from_json line with
    | None => scan_back drop_first_fragment older
    | Some entry =>
      match ae_chain entry with
      | None => scan_back drop_first_fragment older
      | Some chain =>
        hash ← decode_mut (ac_hash chain) 32;
        match hash with
        | Some hash => Ok (Some (hash, ac_seq chain))
        | None => scan_back drop_first_fragment older
        end
      end
    end
  end.

Definition ends_with_newline (b : bytes) : bool :=
  match last b with Some x => Byte.eqb x x0a | None => false end.

Definition last_chained_in_buffer (buf : bytes) (drop_first_fragment : bool) : result Abnormal (option (bytes * Z)) :=
  match from_utf8 buf with
  | None => Ok None
  | Some text =>
    let fragments := split_char NL text in
    let fragments := if ends_with_newline buf then fragments else removelast fragments in
    scan_back drop_first_fragment (rev fragments)
  end.

Definition last_chained_record_in_file (d : Dir) (path : string) : result Abnormal (option (bytes * Z)) :=
  match d !! path with
  | None => Ok None
  | Some content =>
    let len := Z.of_nat (length content) in
    if len =? 0 then Ok None else
    let scan_len := Z.min len CHAIN_TAIL_SCAN_BYTES in
    let start := len - scan_len in
    let tail := drop (Z.to_nat start) content in
    found ← last_chained_in_buffer tail (0 <? start);
    match found with
    | Some found => Ok (Some found)
    | None =>
      if scan_len =? len then Ok None
      else
        match from_utf8 content with
        | None => file_io "Failed to read audit log"
        | Some all => last_chained_in_buffer (as_bytes all) false
        end
    end
  end.

Fixpoint recover_in (d : Dir) (newest_first : list string) : result Abnormal (bytes * Z) :=
  match newest_first with
  | [] => Ok (genesis_prev, 0)
  | path :: older =>
    found ← last_chained_record_in_file d path;
    match found with
    | Some found => Ok found
    | None => recover_in d older
    end
  end.

Definition recover_chain_head (d : Dir) : result Abnormal (bytes * Z) :=
  recover_in d (rev (chain_files_oldest_first d)).

(** ** Recording *)

(** [AuditLogger::with_policy]: the log file exists afterwards. *)
Definition with_policy (d : Dir) : Dir :=
  if file_exists d AUDIT_LOG_FILE_NAME then d else <[AUDIT_LOG_FILE_NAME := []]> d.

Definition install_keys (dek : bytes) : result CryptoError AuditKeys :=
  idk ← derive_audit_id_key dek;
  ck ← derive_audit_chain_key dek;
  Ok {| id_key := idk; chain_key := ck |}.

Definition opaque_event_type (event : E.AuditEventType) (keys : option AuditKeys) : E.AuditEventType :=
  match keys with
  | None =>
    match event with
    | E.ExternalSecretAccess client_id _ field purpose success =>
      E.ExternalSecretAccess client_id REDACTED_DOMAIN_NO_KEY field purpose success
    | E.ExternalSecretWrite client_id _ purpose success =>
      E.ExternalSecretWrite client_id REDACTED_DOMAIN_NO_KEY purpose success
    | other => other
    end
  | Some keys =>
    let idk := id_key keys in
    match event with
    | E.CredentialCreated entry_id => E.CredentialCreated (entry_token_from_key idk entry_id)
    | E.CredentialViewed entry_id => E.CredentialViewed (entry_token_from_key idk entry_id)
    | E.CredentialModified entry_id => E.CredentialModified (entry_token_from_key idk entry_id)
    | E.CredentialDeleted entry_id => E.CredentialDeleted (entry_token_from_key idk entry_id)
    | E.SecretRotated entry_id => E.SecretRotated (entry_token_from_key idk entry_id)
    | E.EntryAssignedToEntity entry_id entity_id =>
      E.EntryAssignedToEntity (entry_token_from_key idk entry_id)
        (string_token_from_key idk AUDIT_ID_LABEL_ENTITY entity_id)
    | E.RegistryEntityCreated entity_id =>
      E.RegistryEntityCreated (string_token_from_key idk AUDIT_ID_LABEL_ENTITY entity_id)
    | E.RegistryEntityDeleted entity_id =>
      E.RegistryEntityDeleted (string_token_from_key idk AUDIT_ID_LABEL_ENTITY entity_id)
    | E.ExternalSecretAccess client_id domain field purpose success =>
      E.ExternalSecretAccess client_id (string_token_from_key idk AUDIT_ID_LABEL_DOMAIN domain) field purpose success
    | E.ExternalSecretWrite client_id domain purpose success =>
      E.ExternalSecretWrite client_id (string_token_from_key idk AUDIT_ID_LABEL_DOMAIN domain) purpose success
    | other => other
    end
  end.

Definition severity_for_event (event : E.AuditEventType) : Z :=
  match event with
  | E.VaultCreated | E.DataExported _ | E.EpochHighWaterRebased true | E.SlotRegistryIntegrityRefused
  | E.RecoveryPerformed _ _ | E.VaultRestored _ _ _ _ | E.VaultRestoreRefused => 5
  | E.V2BlobMigration => 3
  | E.PersonalCustody _ _ | E.CredentialDeleted _ | E.BruteForceDetected _ => 4
  | E.VaultUnlocked true | E.CredentialModified _ | E.SecretRotated _ | E.ExternalSecretAccess _ _ _ _ true
  | E.ExternalSecretWrite _ _ _ true | E.MasterPasswordChanged true _ _ | E.BiometricUnlockRequested true
  | E.EpochHighWaterRebased false | E.RecoverySlotCreated => 3
  | E.SlotRevoked => 4
  | E.VaultLocked | E.CredentialCreated _ | E.CredentialViewed _ | E.VaultAutoLocked | E.RegistryEntityCreated _
  | E.RegistryEntityDeleted _ | E.ExternalSecretAccess _ _ _ _ false | E.ExternalSecretWrite _ _ _ false
  | E.MasterPasswordChanged false _ _ | E.BiometricUnlockRequested false | E.BackupCreated => 2
  | E.CredentialsListed _ | E.DataImported _ _ | E.EntryAssignedToEntity _ _ | E.RegistryIndexRebuilt _ => 1
  | E.AuthenticationAttempt _ | E.VaultLockedManually | E.AuthenticationFailure _ | E.VaultUnlocked false
  | E.DaemonStarted | E.DaemonStopped | E.IpcServerStarted | E.IpcClientConnected => 0
  end.

(** One shift of [rotate]: [audit.log.i] to [audit.log.i+1]. *)
Definition shift (d : Dir) (i : nat) : Dir :=
  let from := rotated_sibling i in
  let to := rotated_sibling (S i) in
  if file_exists d from then default d (rename (delete to d) from to) else d.

Definition rotate (policy : AuditPolicy) (d : Dir) : Dir :=
  let d := foldl shift d (rev (seq 1 (max_files policy - 1))) in
  default d (rename d AUDIT_LOG_FILE_NAME (rotated_sibling 1)).

(** The chained record that [append_entry] writes after the head [(prev, seq)]. *)
Definition chain_entry (entry : AuditEntry) (keys : option AuditKeys) (prev : bytes) (seq : Z)
    : result Abnormal AuditEntry :=
  let record := canonical_record_bytes entry in
  let sealed := match keys with Some _ => true | None => false end in
  hash ← chain_hash sealed (chain_key <$> keys) prev record;
  Ok (with_chain entry (Some {| ac_v := AUDIT_CHAIN_FORMAT_VERSION; ac_seq := (seq + 1) mod 2 ^ 64;
                                ac_prev := hexlower_encode prev; ac_hash := hexlower_encode hash;
                                ac_sealed := sealed |})).

(** The torn tail of a file is closed with a newline before the record. *)
Definition repair_tail (content : bytes) : bytes :=
  if (0 <? Z.of_nat (length content)) && negb (ends_with_newline content) then content ++ [x0a] else content.

Definition append_entry (policy : AuditPolicy) (d : Dir) (entry : AuditEntry) (keys : option AuditKeys)
    : result Abnormal Dir :=
  '(prev, seq) ← recover_chain_head d;
  entry ← chain_entry entry keys prev seq;
  let line := to_json entry +:+ String NL EmptyString in
  let content := repair_tail (default [] (d !! AUDIT_LOG_FILE_NAME)) ++ as_bytes line in
  let d := <[AUDIT_LOG_FILE_NAME := content]> d in
  Ok (if max_file_bytes policy <=? Z.of_nat (length content) then rotate policy d else d).

(** [AuditLogger::log]: the record of an event, then the append. *)
Definition entry_for (now pid : Z) (event : E.AuditEventType) (context : string) (keys : option AuditKeys) : AuditEntry :=
  {| ae_timestamp := now; ae_event_type := opaque_event_type event keys; ae_severity := severity_for_event event;
     ae_context := context; ae_pid := Some pid; ae_tid := None; ae_chain := None |}.

Definition log (policy : AuditPolicy) (now pid : Z) (d : Dir) (event : E.AuditEventType) (context : string)
    (keys : option AuditKeys) : result Abnormal Dir :=
  append_entry policy d (entry_for now pid event context keys) keys.

(** ** Reading *)

Definition read_rotated (d : Dir) (file : string) : bytes :=
  match d !! file ≫= from_utf8 with
  | Some _ => let rotated := default [] (d !! file) in
              if ends_with_newline rotated then rotated else rotated ++ [x0a]
  | None => []
  end.

Definition read_all_entries (d : Dir) : result Abnormal (list AuditEntry) :=
  current ← match d !! AUDIT_LOG_FILE_NAME with
            | None => Ok []
            | Some c => match from_utf8 c with Some _ => Ok c | None => file_io "Failed to read audit log" end
            end;
  let rotated := List.filter (fun f => negb (String.eqb f AUDIT_LOG_FILE_NAME)) (chain_files_oldest_first d) in
  let text := String.string_of_list_byte (mjoin (read_rotated d <$> rotated) ++ current) in
  Ok (omap (fun line => if blank line then None else from_json line) (lines text)).

Definition get_entries (d : Dir) (limit : nat) : result Abnormal (list AuditEntry) :=
  entries ← read_all_entries d; Ok (take limit (rev entries)).

Definition get_entries_since (d : Dir) (since : Z) : result Abnormal (list AuditEntry) :=
  entries ← read_all_entries d; Ok (List.filter (fun e => since <? ae_timestamp e) entries).

Definition get_entries_by_severity (d : Dir) (min_severity : Z) : result Abnormal (list AuditEntry) :=
  entries ← read_all_entries d; Ok (List.filter (fun e => min_severity <=? ae_severity e) entries).
End AuditLog.
