(* ===== verification/AuditVerify.v ===== *)
(** * Verifying the audit chain ([audit.rs], [verify_audit_chain]) and the
    owner's re-identification of tokens; finding the chain head in the tail of
    a file: [last_chained_record_in_file] reads the last 64 KiB first and drops
    the line the window may have cut, and on UTF-8 files it returns what a
    backward scan of the whole file returns. *)

From S2P Require Import Prelude Text ThirdParty Envelope CoreError Keyring DomainTags AuditLog.
From Stdlib Require Import ZArith Lia Strings.String Strings.Ascii Strings.Byte.
From stdpp Require Import base list option strings numbers gmap.
From S2P Require Import Text.
Open Scope Z_scope.

(** The locals of [verify_audit_chain]. *)
Record Walk := {
  wk_report : AuditVerifyReport;
  wk_running : bytes;
  wk_expected_seq : Z;
  wk_seen_first : bool;
}.

Definition counting (w : Walk) (f : AuditVerifyReport -> AuditVerifyReport) : Walk :=
  {| wk_report := f (wk_report w); wk_running := wk_running w; wk_expected_seq := wk_expected_seq w;
     wk_seen_first := wk_seen_first w |}.

Definition count_line (r : AuditVerifyReport) : AuditVerifyReport :=
  {| rp_files := rp_files r; rp_total_records := rp_total_records r + 1; rp_chained_records := rp_chained_records r;
     rp_legacy_records := rp_legacy_records r; rp_suspected_splices := rp_suspected_splices r;
     rp_unsealed_records := rp_unsealed_records r; rp_malformed_lines := rp_malformed_lines r;
     rp_chain_start := rp_chain_start r; rp_oldest_record := rp_oldest_record r;
     rp_newest_record := rp_newest_record r; rp_outcome := rp_outcome r |}.

Definition count_malformed (r : AuditVerifyReport) : AuditVerifyReport :=
  {| rp_files := rp_files r; rp_total_records := rp_total_records r; rp_chained_records := rp_chained_records r;
     rp_legacy_records := rp_legacy_records r; rp_suspected_splices := rp_suspected_splices r;
     rp_unsealed_records := rp_unsealed_records r; rp_malformed_lines := rp_malformed_lines r + 1;
     rp_chain_start := rp_chain_start r; rp_oldest_record := rp_oldest_record r;
     rp_newest_record := rp_newest_record r; rp_outcome := rp_outcome r |}.

Definition date_record (ts : Z) (r : AuditVerifyReport) : AuditVerifyReport :=
  {| rp_files := rp_files r; rp_total_records := rp_total_records r; rp_chained_records := rp_chained_records r;
     rp_legacy_records := rp_legacy_records r; rp_suspected_splices := rp_suspected_splices r;
     rp_unsealed_records := rp_unsealed_records r; rp_malformed_lines := rp_malformed_lines r;
     rp_chain_start := rp_chain_start r;
     rp_oldest_record := Some (match rp_oldest_record r with Some o => o | None => ts end);
     rp_newest_record := Some ts; rp_outcome := rp_outcome r |}.

Definition count_chainless (seen_first : bool) (r : AuditVerifyReport) : AuditVerifyReport :=
  {| rp_files := rp_files r; rp_total_records := rp_total_records r; rp_chained_records := rp_chained_records r;
     rp_legacy_records := if seen_first then rp_legacy_records r else rp_legacy_records r + 1;
     rp_suspected_splices := if seen_first then rp_suspected_splices r + 1 else rp_suspected_splices r;
     rp_unsealed_records := rp_unsealed_records r; rp_malformed_lines := rp_malformed_lines r;
     rp_chain_start := rp_chain_start r; rp_oldest_record := rp_oldest_record r;
     rp_newest_record := rp_newest_record r; rp_outcome := rp_outcome r |}.

Definition count_chained (sealed : bool) (r : AuditVerifyReport) : AuditVerifyReport :=
  {| rp_files := rp_files r; rp_total_records := rp_total_records r; rp_chained_records := rp_chained_records r + 1;
     rp_legacy_records := rp_legacy_records r; rp_suspected_splices := rp_suspected_splices r;
     rp_unsealed_records := if sealed then rp_unsealed_records r else rp_unsealed_records r + 1;
     rp_malformed_lines := rp_malformed_lines r;
     rp_chain_start := rp_chain_start r; rp_oldest_record := rp_oldest_record r;
     rp_newest_record := rp_newest_record r; rp_outcome := rp_outcome r |}.

Definition set_start (s : AuditChainStart) (r : AuditVerifyReport) : AuditVerifyReport :=
  {| rp_files := rp_files r; rp_total_records := rp_total_records r; rp_chained_records := rp_chained_records r;
     rp_legacy_records := rp_legacy_records r; rp_suspected_splices := rp_suspected_splices r;
     rp_unsealed_records := rp_unsealed_records r; rp_malformed_lines := rp_malformed_lines r;
     rp_chain_start := Some s; rp_oldest_record := rp_oldest_record r;
     rp_newest_record := rp_newest_record r; rp_outcome := rp_outcome r |}.

Definition set_outcome (o : AuditVerifyOutcome) (r : AuditVerifyReport) : AuditVerifyReport :=
  {| rp_files := rp_files r; rp_total_records := rp_total_records r; rp_chained_records := rp_chained_records r;
     rp_legacy_records := rp_legacy_records r; rp_suspected_splices := rp_suspected_splices r;
     rp_unsealed_records := rp_unsealed_records r; rp_malformed_lines := rp_malformed_lines r;
     rp_chain_start := rp_chain_start r; rp_oldest_record := rp_oldest_record r;
     rp_newest_record := rp_newest_record r; rp_outcome := o |}.

Definition empty_report (files : list string) : AuditVerifyReport :=
  {| rp_files := files; rp_total_records := 0; rp_chained_records := 0; rp_legacy_records := 0;
     rp_suspected_splices := 0; rp_unsealed_records := 0; rp_malformed_lines := 0; rp_chain_start := None;
     rp_oldest_record := None; rp_newest_record := None; rp_outcome := Verified |}.

(** [ControlFlow]: go on with the next line, or [break 'files]. *)
Inductive Flow := Next (w : Walk) | Stop (w : Walk).

Section AuditVerify.
Context `{Sha256, Hmac, HexLower, SerdeJson AuditEntry, Aead, Argon2id}.

(** The tests on a chained record against the running chain: its place, then
    its link ([inl]: the failure; [inr]: where the chain starts, at the first
    record). *)
Definition link_check (w : Walk) (chain : AuditChain) : AuditVerifyFailure + option AuditChainStart :=
  if negb (wk_seen_first w) then
    if String.eqb (ac_prev chain) (hexlower_encode genesis_prev) then
      if negb (ac_seq chain =? 1) then inl (SequenceGap 1 (ac_seq chain)) else inr (Some Genesis)
    else inr (Some CarriedOver)
  else if negb (ac_seq chain =? wk_expected_seq w) then inl (SequenceGap (wk_expected_seq w) (ac_seq chain))
  else if negb (String.eqb (ac_prev chain) (hexlower_encode (wk_running w))) then inl LinkMismatch
  else inr None.

(** The body of the loop for a record with chain fields. *)
Definition verify_chained (key : option bytes) (file : string) (line_no : Z) (entry : AuditEntry) (chain : AuditChain)
    (w : Walk) : result Abnormal Flow :=
  let fail reason w := Ok (Stop (counting w (set_outcome (Failed file line_no (Some (ac_seq chain)) reason)))) in
  if ac_sealed chain && match key with None => true | Some _ => false end then fail MissingChainKey w
  else if negb (ac_v chain =? AUDIT_CHAIN_FORMAT_VERSION) then fail (UnsupportedVersion (ac_v chain)) w
  else
  match link_check w chain with
  | inl reason =>
    let w := match reason, wk_seen_first w with
             | SequenceGap _ _, false => counting w (set_start Genesis)
             | _, _ => w
             end in
    fail reason w
  | inr start =>
    let w := match start with Some s => counting w (set_start s) | None => w end in
    prev_bytes ← decode_mut (ac_prev chain) 32;
    match prev_bytes with
    | None => fail MalformedChainFields w
    | Some prev_bytes =>
      expected ← decode_mut (ac_hash chain) 32;
      match expected with
      | None => fail MalformedChainFields w
      | Some expected =>
        computed ← chain_hash (ac_sealed chain) key prev_bytes (canonical_record_bytes entry);
        if negb (bool_decide (computed = expected)) then fail HashMismatch w
        else
          Ok (Next {| wk_report := count_chained (ac_sealed chain) (wk_report w); wk_running := computed;
                      wk_expected_seq := (ac_seq chain + 1) mod 2 ^ 64; wk_seen_first := true |})
      end
    end
  end.

Definition verify_line (key : option bytes) (file : string) (line_no : Z) (line : string) (w : Walk)
    : result Abnormal Flow :=
  if blank line then Ok (Next w)
  else
  let w := counting w count_line in
  match from_json line with
  | None => Ok (Next (counting w count_malformed))
  | Some entry =>
    let w := counting w (date_record (ae_timestamp entry)) in
    match ae_chain entry with
    | None => Ok (Next (counting w (count_chainless (wk_seen_first w))))
    | Some chain => verify_chained key file line_no entry chain w
    end
  end.

Fixpoint verify_lines (key : option bytes) (file : string) (idx : Z) (ls : list string) (w : Walk) : result Abnormal Flow :=
  match ls with
  | [] => Ok (Next w)
  | line :: ls =>
    flow ← verify_line key file (idx + 1) line w;
    match flow with
    | Next w => verify_lines key file (idx + 1) ls w
    | Stop w => Ok (Stop w)
    end
  end.

Fixpoint verify_files (key : option bytes) (d : Dir) (files : list string) (w : Walk) : result Abnormal Walk :=
  match files with
  | [] => Ok w
  | file :: files =>
    match d !! file with
    | None => verify_files key d files w
    | Some content =>
      match from_utf8 content with
      | None => file_io "Failed to read audit log"
      | Some content =>
        flow ← verify_lines key file 0 (lines content) w;
        match flow with
        | Next w => verify_files key d files w
        | Stop w => Ok w
        end
      end
    end
  end.

Definition verify_audit_chain (d : Dir) (key : option bytes) : result Abnormal AuditVerifyReport :=
  let files := chain_files_oldest_first d in
  w ← verify_files key d files
        {| wk_report := empty_report files; wk_running := genesis_prev; wk_expected_seq := 1; wk_seen_first := false |};
  let report := wk_report w in
  Ok (if 0 <? rp_suspected_splices report then
        set_outcome (Failed (default "unknown" (last (rp_files report))) 0 None
                       (SuspectedSplice (rp_suspected_splices report))) report
      else report).

Definition verify_with_installed_keys (d : Dir) (keys : option AuditKeys) : result Abnormal AuditVerifyReport :=
  match keys with
  | None => Err (Fails (InvalidInput "audit keys are not installed (vault is locked); unlock the vault to verify the audit chain"))
  | Some keys => verify_audit_chain d (Some (chain_key keys))
  end.

(** ** Owner re-identification *)

Definition entry_token_for (dek : bytes) (entry_id : Z) : result CryptoError Z :=
  idk ← derive_audit_id_key dek; Ok (entry_token_from_key idk entry_id).

Definition string_token_for (dek : bytes) (label value : string) : result CryptoError string :=
  idk ← derive_audit_id_key dek; Ok (string_token_from_key idk label value).

Definition find_entry_id_for (dek : bytes) (token max_scan_inclusive : Z) : result CryptoError (option Z) :=
  idk ← derive_audit_id_key dek;
  Ok (List.find (fun candidate => entry_token_from_key idk candidate =? token) (seqZ 0 (max_scan_inclusive + 1))).

Definition find_string_id_for (dek : bytes) (label token : string) (candidates : list string)
    : result CryptoError (option string) :=
  idk ← derive_audit_id_key dek;
  Ok (List.find (fun candidate => String.eqb (string_token_from_key idk label candidate) token) candidates).
End AuditVerify.

(** * The tail of a file *)

(** ** Lines of text *)

Lemma text_app a b :
  String.string_of_list_byte (a ++ b) = String.string_of_list_byte a +:+ String.string_of_list_byte b.
Proof.
  induction a as [|x a IH]; [done|].
  change (String (ascii_of_byte x) (String.string_of_list_byte (a ++ b)) =
          String (ascii_of_byte x) (String.string_of_list_byte a +:+ String.string_of_list_byte b)). by rewrite IH.
Qed.

Lemma as_bytes_app s t : as_bytes (s +:+ t) = as_bytes s ++ as_bytes t.
Proof.
  induction s as [|a s IH]; [done|].
  change (byte_of_ascii a :: as_bytes (s +:+ t) = byte_of_ascii a :: (as_bytes s ++ as_bytes t)). by rewrite IH.
Qed.

Lemma as_bytes_text b : as_bytes (String.string_of_list_byte b) = b.
Proof. apply String.list_byte_of_string_of_list_byte. Qed.

Lemma text_as_bytes s : String.string_of_list_byte (as_bytes s) = s.
Proof. apply String.string_of_list_byte_of_string. Qed.

(** Splitting a concatenation splits the two sides and joins at the seam. *)
Lemma split_char_app c s t : exists pre l f rest,
  split_char c s = pre ++ [l] /\ split_char c t = f :: rest /\ split_char c (s +:+ t) = pre ++ (l +:+ f) :: rest.
Proof.
  destruct (split_char c t) as [|f rest] eqn:Et; [by apply split_char_nonempty in Et|].
  induction s as [|a s (pre & l & f' & rest' & Es & [= <- <-] & Ea)]; simpl.
  - by exists [], EmptyString, f, rest.
  - destruct (Ascii.eqb a c).
    + exists (EmptyString :: pre), l, f, rest. by rewrite Es, Ea.
    + rewrite Es, Ea. destruct pre as [|x pre]; simpl.
      * by exists [], (String a l), f, rest.
      * by exists (String a x :: pre), l, f, rest.
Qed.

Lemma from_utf8_ok b : utf8 b = true -> from_utf8 b = Some (String.string_of_list_byte b).
Proof. unfold from_utf8. by intros ->. Qed.

(** ** The backward scan *)

Section Scan.
Context `{Sha256, Hmac, HexLower, SerdeJson AuditEntry}.

(** The first answer of two scans. *)
Definition or_else (r s : result Abnormal (option (bytes * Z))) : result Abnormal (option (bytes * Z)) :=
  found ← r; match found with Some f => Ok (Some f) | None => s end.

Lemma scan_back_app a b : scan_back false (a ++ b) = or_else (scan_back false a) (scan_back false b).
Proof.
  induction a as [|l a IH]; [done|]. cbn [app scan_back]. rewrite !andb_false_l.
  destruct (is_empty (trim l)); [done|]. destruct (from_json (trim l)) as [e|]; [|done].
  destruct (ae_chain e) as [c|]; [|done]. destruct (decode_mut (ac_hash c) 32) as [[h|]|]; done.
Qed.

(** Dropping the first fragment scans the others. *)
Lemma scan_back_drop a f : scan_back true (a ++ [f]) = scan_back false a.
Proof.
  induction a as [|l a IH]; [done|]. cbn [app scan_back].
  assert (match a ++ [f] with [] => true | _ => false end = false) as -> by by destruct a.
  rewrite !andb_false_r, IH, !andb_false_l. done.
Qed.

Definition popped (complete : bool) (fragments : list string) : list string :=
  if complete then fragments else removelast fragments.

Lemma popped_app complete a b : b <> [] -> popped complete (a ++ b) = a ++ popped complete b.
Proof. intros Hb. destruct complete; [done|]. by apply removelast_app. Qed.

Lemma last_tail {A} n (l : list A) : (n < length l)%nat -> last (drop n l) = last l.
Proof.
  intros Hn. rewrite <- (take_drop n l) at 2. rewrite last_app. destruct (last (drop n l)) eqn:E; [done|].
  apply last_None in E. apply (f_equal length) in E. rewrite length_drop in E. simpl in E. lia.
Qed.

(** What the window finds the whole buffer finds. *)
Lemma window_found content n r :
  utf8 content = true -> (n < length content)%nat ->
  last_chained_in_buffer (drop n content) true = r -> r <> Ok None ->
  last_chained_in_buffer content false = r.
Proof.
  intros Hu Hn Hr Hne. unfold last_chained_in_buffer in *. rewrite (from_utf8_ok content) by done.
  unfold ends_with_newline in *. rewrite last_tail in Hr by done.
  unfold from_utf8 in Hr. destruct (utf8 (drop n content)); [|congruence].
  set (nl := match last content with Some x => Byte.eqb x x0a | None => false end) in *.
  rewrite <- (take_drop n content), text_app.
  destruct (split_char_app NL (String.string_of_list_byte (take n content)) (String.string_of_list_byte (drop n content)))
    as (pre & l & f & rest & _ & Et & Ea). rewrite Et in Hr. rewrite Ea. fold (popped nl (pre ++ (l +:+ f) :: rest)).
  fold (popped nl (f :: rest)) in Hr. rewrite popped_app by done.
  destruct rest as [|g rest].
  { destruct nl; simpl in Hr; by subst r. }
  change (f :: g :: rest) with ([f] ++ g :: rest) in Hr. change ((l +:+ f) :: g :: rest) with ([l +:+ f] ++ g :: rest).
  rewrite popped_app in Hr by done. rewrite popped_app by done.
  rewrite rev_app_distr in Hr. rewrite app_assoc, rev_app_distr. simpl in Hr. rewrite scan_back_drop in Hr.
  rewrite scan_back_app, Hr. destruct r as [[?|]|]; [done| |done]. by destruct Hne.
Qed.

Lemma window_scan d path content :
  d !! path = Some content -> utf8 content = true ->
  last_chained_record_in_file d path = last_chained_in_buffer content false.
Proof.
  intros Hd Hu. unfold last_chained_record_in_file. rewrite Hd. cbv zeta.
  destruct (Z.of_nat (length content) =? 0) eqn:E0.
  { propify. by destruct content. }
  propify. unfold CHAIN_TAIL_SCAN_BYTES. set (len := Z.of_nat (length content)) in *.
  rewrite (from_utf8_ok content), as_bytes_text by done.
  destruct (Z.min len (64 * 1024) =? len) eqn:El; propify.
  - rewrite El, Z.sub_diag. change (drop (Z.to_nat 0) content) with content. change (0 <? 0) with false.
    by destruct (last_chained_in_buffer content false) as [[?|]|].
  - assert ((0 <? len - Z.min len (64 * 1024)) = true) as -> by (apply Z.ltb_lt; lia).
    destruct (last_chained_in_buffer (drop _ content) true) as [[found|]|e] eqn:Ew; simpl; [|done|];
      symmetry; eapply window_found; eauto; lia.
Qed.

(** The bounded tail scan computes the backward scan of the whole file,
    on every UTF-8 file: the 64 KiB window never misses the last chained
    record and never takes an older one, a record cut at the start of the
    window included. *)
Theorem tail_scan_exact d path content :
  d !! path = Some content -> utf8 content = true ->
  last_chained_record_in_file d path = last_chained_in_buffer content false.
Proof. apply window_scan. Qed.
End Scan.
