(* ===== verification/AuditFacts.v ===== *)
(** * Audit log: what a verified chain means

    [chain k p x es q y]: the records [es] are linked under the key [k] from the
    digest [p] and the sequence number [x] to [q] and [y].  A log verifies
    exactly when its records are a chainless prefix followed by such a chain
    ([verify_sound], [verify_complete]); two chains that share a record agree
    before it, or the hash functions collide on inputs of theirs. *)

From S2P Require Import Prelude Text ThirdParty CoreError DomainTags AuditLog AuditVerify.
From Stdlib Require Import ZArith Lia Strings.String Strings.Ascii Strings.Byte.
From stdpp Require Import base list option strings numbers gmap.
From S2P Require Import Text.
Open Scope Z_scope.

(** HMAC-SHA256 has 32 bytes. *)
Class HmacLaws `{Hmac} : Prop := hmac_length : forall k m, length (hmac_sha256 k m) = 32%nat.

(** [serde_json] on audit records: [seq] is a [u64]; a record reads back, and
    is one line of UTF-8 between braces, its control characters escaped; a text
    cut short is no record. *)
Definition seq_u64 (e : AuditEntry) : Prop := forall c, ae_chain e = Some c -> in_u64 (ac_seq c).

Class AuditJsonLaws `{SerdeJson AuditEntry} : Prop := {
  line_roundtrip : forall e : AuditEntry, seq_u64 e -> from_json (to_json e) = Some e;
  line_utf8 : forall e : AuditEntry, utf8 (as_bytes (to_json e)) = true;
  line_plain : forall e : AuditEntry, all_chars (fun a => 32 <=? code a) (to_json e) = true;
  line_braces : forall e : AuditEntry, exists s, to_json e = "{" +:+ s +:+ "}";
  line_whole : forall (e : AuditEntry) p r, to_json e = p +:+ r -> r <> "" -> (from_json p : option AuditEntry) = None;
  parsed_seq : forall s (e : AuditEntry), from_json s = Some e -> seq_u64 e;
}.

Section Facts.
Context `{Sha256, Hmac, HexLower, SerdeJson AuditEntry, Aead, Argon2id}.

Definition next_seq (x : Z) : Z := (x + 1) mod 2 ^ 64.

(** [link_hash k s]: the hash of a record, keyed when it is sealed. *)
Definition link_hash (k : bytes) (sealed : bool) (input : bytes) : bytes :=
  if sealed then hmac_sha256 k input else sha256 input.

Lemma chain_hash_key sealed k p r : chain_hash sealed (Some k) p r = Ok (link_hash k sealed (p ++ r)).
Proof. by destruct sealed. Qed.

Definition linked (k : bytes) (p : bytes) (x : Z) (e : AuditEntry) (h : bytes) : Prop :=
  exists sealed,
    ae_chain e = Some {| ac_v := AUDIT_CHAIN_FORMAT_VERSION; ac_seq := x; ac_prev := hexlower_encode p;
                         ac_hash := hexlower_encode h; ac_sealed := sealed |} /\
    h = link_hash k sealed (p ++ canonical_record_bytes e) /\ length p = 32%nat /\ length h = 32%nat.

Inductive chain (k : bytes) : bytes -> Z -> list AuditEntry -> bytes -> Z -> Prop :=
| chain_nil p x : chain k p x [] p x
| chain_cons p x e h es q y :
    linked k p x e h -> chain k h (next_seq x) es q y -> chain k p x (e :: es) q y.

Definition chainless (e : AuditEntry) : Prop := ae_chain e = None.

(** The records of a log: chainless ones, then a chain that starts anywhere
    but may only start at the genesis digest with number 1. *)
Definition verifies (k : bytes) (es : list AuditEntry) : Prop :=
  exists legacy c p x q y, es = legacy ++ c /\ Forall chainless legacy /\ chain k p x c q y /\
    (p = genesis_prev -> x = 1).

(** ** Reading lines *)

Definition line_entry (l : string) : option AuditEntry := if blank l then None else from_json l.
Definition entries_of (c : bytes) : list AuditEntry := omap line_entry (lines (String.string_of_list_byte c)).
Definition file_entries (d : Dir) (f : string) : list AuditEntry := default [] (entries_of <$> d !! f).
Definition dir_entries (d : Dir) : list AuditEntry := mjoin (file_entries d <$> chain_files_oldest_first d).
Definition utf8_dir (d : Dir) : Prop :=
  forall f c, f ∈ chain_files_oldest_first d -> d !! f = Some c -> utf8 c = true.

(** ** Chains *)

Lemma chain_app k p x a b q y :
  chain k p x (a ++ b) q y <-> exists r z, chain k p x a r z /\ chain k r z b q y.
Proof.
  split.
  - revert p x. induction a as [|e a IH]; intros p x Hc; simpl in Hc.
    + exists p, x. split; [constructor|done].
    + inversion Hc; subst. destruct (IH _ _ ltac:(eassumption)) as (r & z & Ha & Hb).
      exists r, z. split; [by econstructor|done].
  - intros (r & z & Ha & Hb). induction Ha; simpl; [done|]. econstructor; eauto.
Qed.

Lemma chain_snoc k p x a e q y :
  chain k p x (a ++ [e]) q y <-> exists r z, chain k p x a r z /\ linked k r z e q /\ y = next_seq z.
Proof.
  rewrite chain_app. split.
  - intros (r & z & Ha & Hb). inversion Hb as [|? ? ? ? ? ? ? Hl Hn]; subst. inversion Hn; subst. eauto 6.
  - intros (r & z & Ha & Hl & ->). exists r, z. split; [done|]. econstructor; [done|constructor].
Qed.

Lemma linked_chained k p x e h : linked k p x e h -> ~ chainless e.
Proof. unfold chainless. intros (s & E & _). by rewrite E. Qed.

Lemma chain_chained k p x es q y : chain k p x es q y -> Forall (fun e => ~ chainless e) es.
Proof. induction 1; constructor; eauto using linked_chained. Qed.

(** ** One line *)

Definition no_worse (w w' : Walk) : Prop :=
  rp_outcome (wk_report w') = rp_outcome (wk_report w) /\
  rp_suspected_splices (wk_report w') = rp_suspected_splices (wk_report w).

(** Where the walk is on the chain, once a chained record was seen. *)
Definition pos (w : Walk) : option (bytes * Z) :=
  if wk_seen_first w then Some (wk_running w, wk_expected_seq w) else None.

(** What the walk accepts from there. *)
Inductive advance (k : bytes) : option (bytes * Z) -> list AuditEntry -> option (bytes * Z) -> Prop :=
| adv_nil o : advance k o [] o
| adv_legacy e es o : chainless e -> advance k None es o -> advance k None (e :: es) o
| adv_first p x e h es o :
    linked k p x e h -> (p = genesis_prev -> x = 1) ->
    advance k (Some (h, next_seq x)) es o -> advance k None (e :: es) o
| adv_next p x e h es o :
    linked k p x e h -> advance k (Some (h, next_seq x)) es o -> advance k (Some (p, x)) (e :: es) o.

Lemma advance_app k o a o1 b o2 : advance k o a o1 -> advance k o1 b o2 -> advance k o (a ++ b) o2.
Proof. induction 1; simpl; eauto using advance. Qed.

Lemma advance_split k o a b o2 : advance k o (a ++ b) o2 -> exists o1, advance k o a o1 /\ advance k o1 b o2.
Proof.
  revert o. induction a as [|e a IH]; intros o Ha; simpl in Ha; [exists o; split; [constructor|done]|].
  inversion Ha; subst; destruct (IH _ ltac:(eassumption)) as (o1 & H1' & H2'); exists o1;
    (split; [eauto using advance|done]).
Qed.

Lemma advance_chain k p x es o : advance k (Some (p, x)) es o <-> exists q y, o = Some (q, y) /\ chain k p x es q y.
Proof.
  split.
  - revert p x. induction es as [|e es IH]; intros p x Ha; inversion Ha; subst.
    + eexists _, _. split; [done|constructor].
    + destruct (IH _ _ ltac:(eassumption)) as (q & y & -> & Hc). exists q, y. split; [done|]. by econstructor.
  - intros (q & y & -> & Hc). induction Hc; econstructor; eauto.
Qed.

Lemma advance_verifies k es : (exists o, advance k None es o) <-> verifies k es.
Proof.
  split.
  - intros [o Ha]. remember None as o0 eqn:E in Ha. induction Ha as [o|e es o He Ha IH|p x e h es o Hl Hg Ha _|]; subst.
    + exists [], [], [], 1, [], 1. repeat split; constructor.
    + destruct (IH eq_refl) as (l & c & p & x & q & y & -> & Hf & Hc & Hg).
      exists (e :: l), c, p, x, q, y. repeat split; [by constructor|done|done].
    + apply advance_chain in Ha as (q & y & -> & Hc).
      exists [], (e :: es), p, x, q, y. repeat split; [constructor|by econstructor|done].
    + done.
  - intros (l & c & p & x & q & y & -> & Hf & Hc & Hg). induction Hf as [|e l He Hf [o IH]]; simpl.
    + inversion Hc as [|? ? e h es ? ? Hl Hr]; subst; [eexists; constructor|].
      eexists. eapply adv_first; [done..|]. apply advance_chain. eauto.
    + exists o. by constructor.
Qed.

Context `{!HexLowerLaws}.

Lemma decode_mut_ok s n b :
  decode_mut s n = Ok (Some b) -> s = hexlower_encode b /\ length b = n.
Proof.
  unfold decode_mut. destruct (String.length s =? 2 * n)%nat eqn:E; [|done]. intros [= Hd].
  apply hexlower_encode_decode in Hd as <-. apply Nat.eqb_eq in E. rewrite hexlower_encode_length in E.
  split; [done|lia].
Qed.

Lemma decode_mut_encode b n : length b = n -> decode_mut (hexlower_encode b) n = Ok (Some b).
Proof.
  intros Hb. unfold decode_mut. rewrite hexlower_encode_length, Hb, Nat.eqb_refl. by rewrite hexlower_decode_encode.
Qed.

Lemma hexlower_inj a b : hexlower_encode a = hexlower_encode b -> a = b.
Proof. intros E%(f_equal hexlower_decode). rewrite !hexlower_decode_encode in E. congruence. Qed.

Lemma verify_chained_next k f n e c w w' :
  ae_chain e = Some c ->
  verify_chained (Some k) f n e c w = Ok (Next w') ->
  exists p, linked k p (ac_seq c) e (wk_running w') /\
    (wk_seen_first w = true -> p = wk_running w /\ ac_seq c = wk_expected_seq w) /\
    (wk_seen_first w = false -> p = genesis_prev -> ac_seq c = 1) /\
    pos w' = Some (wk_running w', next_seq (ac_seq c)) /\ no_worse w w'.
Proof.
  intros Ec. unfold verify_chained. rewrite andb_false_r.
  destruct (negb (ac_v c =? _)) eqn:Ev; [done|]. propify.
  destruct (link_check w c) as [|start] eqn:El; [done|]. intros E.
  apply result_bind_ok in E as ([p|] & Ep & E); [|done]. apply decode_mut_ok in Ep as [Ep Hp].
  apply result_bind_ok in E as ([h|] & Eh & E); [|done]. apply decode_mut_ok in Eh as [Eh Hh].
  rewrite chain_hash_key in E. cbn -[bool_decide] in E.
  destruct (bool_decide _) eqn:Ed in E; [|done]. propify. injection E as <-. cbn.
  exists p. split.
  { exists (ac_sealed c). rewrite Ec, Ed. destruct c; simpl in *. subst. done. }
  unfold link_check in El. destruct (wk_seen_first w); simpl in El.
  - destruct (negb (ac_seq c =? wk_expected_seq w)) eqn:E1 in El; [done|].
    destruct (negb (String.eqb (ac_prev c) _)) eqn:E2 in El; [done|]. propify. injection El as <-.
    apply String.eqb_eq in E2. rewrite Ep in E2. apply hexlower_inj in E2. subst p. done.
  - split; [done|]. rewrite Ep in El. split; [intros _ ->|].
    + rewrite String.eqb_refl in El. destruct (negb (ac_seq c =? 1)) eqn:E1 in El; [done|]. by propify.
    + repeat case_hyp; simplify_eq; done.
Qed.

Lemma verify_chained_complete k f n e c w p h :
  ae_chain e = Some c -> linked k p (ac_seq c) e h ->
  (wk_seen_first w = true -> p = wk_running w /\ ac_seq c = wk_expected_seq w) ->
  (wk_seen_first w = false -> p = genesis_prev -> ac_seq c = 1) ->
  exists w', verify_chained (Some k) f n e c w = Ok (Next w') /\ wk_running w' = h /\
    rp_chained_records (wk_report w') = rp_chained_records (wk_report w) + 1.
Proof.
  intros Ec (s & Ec' & Eh & Hp & Hh) Hs Hf. rewrite Ec in Ec'. destruct c as [v x pv hs s']. cbn [ac_seq] in *.
  injection Ec' as -> -> -> ->.
  unfold verify_chained. cbn [ac_sealed ac_v ac_prev ac_hash ac_seq]. rewrite andb_false_r, Z.eqb_refl. cbn [negb].
  assert (exists start, link_check w {| ac_v := AUDIT_CHAIN_FORMAT_VERSION; ac_seq := x; ac_prev := hexlower_encode p;
            ac_hash := hexlower_encode h; ac_sealed := s |} = inr start) as [start ->].
  { unfold link_check. cbn [ac_prev ac_seq]. destruct (wk_seen_first w); simpl.
    - destruct Hs as [-> ->]; [done|]. rewrite Z.eqb_refl, String.eqb_refl. eauto.
    - destruct (String.eqb_spec (hexlower_encode p) (hexlower_encode genesis_prev)) as [E|]; [|eauto].
      apply hexlower_inj in E. rewrite Hf, Z.eqb_refl by done. eauto. }
  rewrite !decode_mut_encode by done. cbn [mbind result_bind]. rewrite chain_hash_key, <- Eh. cbn -[bool_decide].
  rewrite bool_decide_true by done. simpl. eexists. split; [done|]. cbn. split; [done|]. by destruct start.
Qed.

Definition dated (w : Walk) (e : AuditEntry) : Walk :=
  counting (counting w count_line) (date_record (ae_timestamp e)).

Lemma verify_line_none key f n l w :
  line_entry l = None ->
  exists w', verify_line key f n l w = Ok (Next w') /\ pos w' = pos w /\ no_worse w w' /\
    rp_chained_records (wk_report w') = rp_chained_records (wk_report w).
Proof.
  unfold line_entry, verify_line. destruct (blank l); [intros _; by exists w|].
  intros ->. eexists. done.
Qed.

Lemma verify_line_some key f n l w e :
  line_entry l = Some e ->
  verify_line key f n l w =
    match ae_chain e with
    | None => Ok (Next (counting (dated w e) (count_chainless (wk_seen_first w))))
    | Some c => verify_chained key f n e c (dated w e)
    end.
Proof. unfold line_entry, verify_line. destruct (blank l); [done|]. by intros ->. Qed.

Lemma verify_line_sound k f n l w w' :
  verify_line (Some k) f n l w = Ok (Next w') ->
  rp_outcome (wk_report w') = rp_outcome (wk_report w) /\
  rp_suspected_splices (wk_report w) <= rp_suspected_splices (wk_report w') /\
  (rp_suspected_splices (wk_report w') <= rp_suspected_splices (wk_report w) ->
   advance k (pos w) (option_list (line_entry l)) (pos w')).
Proof.
  destruct (line_entry l) as [e|] eqn:El.
  - rewrite (verify_line_some _ _ _ _ _ _ El). destruct (ae_chain e) as [c|] eqn:Ec.
    + intros E. destruct (verify_chained_next _ _ _ _ _ _ _ Ec E) as (p & Hl & Hs & Hf & Hp & Ho & Hspl). cbn in *.
      rewrite Ho, Hspl. split; [done|]. split; [lia|]. intros _. rewrite Hp. unfold pos.
      destruct (wk_seen_first w).
      * destruct Hs as [-> Es]; [done|]. rewrite <- Es in *. eapply adv_next; [done|constructor].
      * eapply adv_first; [done|auto|constructor].
    + intros [= <-]. cbn. split; [done|]. unfold pos. cbn. destruct (wk_seen_first w); [lia|].
      split; [lia|]. intros _. by repeat constructor.
  - destruct (verify_line_none (Some k) f n l w El) as (w1 & -> & Hp & [Ho Hspl] & _). intros [= <-].
    rewrite Ho, Hspl, Hp. repeat split; [lia|]. constructor.
Qed.

Lemma verify_line_stop key f n l w w' :
  verify_line key f n l w = Ok (Stop w') -> rp_outcome (wk_report w') <> Verified.
Proof.
  unfold verify_line. destruct (blank l); [done|]. destruct (from_json l) as [e|]; [|done].
  destruct (ae_chain e) as [c|]; [|done]. unfold verify_chained. cbv zeta.
  destruct (ac_sealed c && _); [intros [= <-]; done|].
  destruct (negb (ac_v c =? _)); [intros [= <-]; done|]. destruct (link_check _ c) as [r|start].
  { intros [= <-]. cbn. by destruct r, (wk_seen_first w). }
  intros E. apply result_bind_ok in E as ([p|] & _ & E); [|injection E as <-; by destruct start].
  apply result_bind_ok in E as ([h|] & _ & E); [|injection E as <-; by destruct start].
  apply result_bind_ok in E as (x & _ & E). case_match; [|done]. injection E as <-. by destruct start.
Qed.

Definition chained_count (es : list AuditEntry) : Z :=
  Z.of_nat (length (List.filter (fun e => match ae_chain e with Some _ => true | None => false end) es)).

Lemma chained_count_nil : chained_count [] = 0.
Proof. done. Qed.

Lemma chained_count_app a b : chained_count (a ++ b) = chained_count a + chained_count b.
Proof. unfold chained_count. rewrite List.filter_app, length_app. lia. Qed.

Lemma verify_line_complete k f n l w o :
  advance k (pos w) (option_list (line_entry l)) o ->
  exists w', verify_line (Some k) f n l w = Ok (Next w') /\ pos w' = o /\ no_worse w w' /\
    rp_chained_records (wk_report w') =
      rp_chained_records (wk_report w) + chained_count (option_list (line_entry l)).
Proof.
  destruct (line_entry l) as [e|] eqn:El; simpl; intros Ha.
  - rewrite (verify_line_some _ _ _ _ _ _ El). destruct (ae_chain e) as [c|] eqn:Ec.
    + assert (exists p h, linked k p (ac_seq c) e h /\ o = Some (h, next_seq (ac_seq c)) /\
        (wk_seen_first w = true -> p = wk_running w /\ ac_seq c = wk_expected_seq w) /\
        (wk_seen_first w = false -> p = genesis_prev -> ac_seq c = 1)) as (p & h & Hl & -> & Hs & Hf).
      { unfold pos in Ha. destruct (wk_seen_first w) eqn:Es; inversion Ha as [|? ? ? Hc|? ? ? ? ? ? Hl Hg Hr|? ? ? ? ? ? Hl Hr]; subst.
        - inversion Hr; subst. destruct Hl as (s & Ec' & Hl). rewrite Ec in Ec'. injection Ec' as ->.
          eexists _, _. split; [exists s; split; [exact Ec|exact Hl]|]. done.
        - by unfold chainless in Hc; rewrite Ec in Hc.
        - inversion Hr; subst. destruct Hl as (s & Ec' & Hl). rewrite Ec in Ec'. injection Ec' as ->.
          eexists _, _. split; [exists s; split; [exact Ec|exact Hl]|]. done. }
      destruct (verify_chained_complete k f n e c (dated w e) p h Ec Hl Hs Hf) as (w' & E & Er & Hn).
      destruct (verify_chained_next _ _ _ _ _ _ _ Ec E) as (_ & _ & _ & _ & Hp & Hw).
      exists w'. rewrite Hp, Er. split; [done|]. split; [done|]. split; [exact Hw|].
      rewrite Hn. unfold chained_count. simpl. by rewrite Ec.
    + exists (counting (dated w e) (count_chainless (wk_seen_first w))). split; [done|].
      unfold pos in *. cbn. destruct (wk_seen_first w); inversion Ha as [|? ? ? Hc Hr|? ? ? ? ? ? Hl|? ? ? ? ? ? Hl]; subst;
        try (by apply linked_chained in Hl).
      inversion Hr; subst. repeat split; cbn. unfold chained_count. simpl. rewrite Ec. simpl. lia.
  - inversion Ha; subst. destruct (verify_line_none (Some k) f n l w El) as (w' & -> & Hp & Hw & Hn).
    exists w'. rewrite Hn, chained_count_nil. repeat split; [done|apply Hw|apply Hw|lia].
Qed.

Lemma omap_cons_list {A B} (g : A -> option B) x l : omap g (x :: l) = option_list (g x) ++ omap g l.
Proof. simpl. by destruct (g x). Qed.

Lemma verify_lines_complete k f i ls w o :
  advance k (pos w) (omap line_entry ls) o ->
  exists w', verify_lines (Some k) f i ls w = Ok (Next w') /\ pos w' = o /\ no_worse w w' /\
    rp_chained_records (wk_report w') = rp_chained_records (wk_report w) + chained_count (omap line_entry ls).
Proof.
  revert i w. induction ls as [|l ls IH]; intros i w Ha.
  - inversion Ha; subst. exists w. repeat split. simpl. rewrite chained_count_nil. lia.
  - rewrite omap_cons_list in *. apply advance_split in Ha as (o1 & Ha & Hb).
    destruct (verify_line_complete k f (i + 1) l w o1 Ha) as (w1 & E1 & <- & Hw1 & Hn1).
    destruct (IH (i + 1) w1 Hb) as (w2 & E2 & <- & Hw2 & Hn2).
    exists w2. cbn. rewrite E1. cbn. rewrite E2, chained_count_app, Hn2, Hn1. destruct Hw1, Hw2.
    repeat split; [congruence..|lia].
Qed.

Lemma verify_lines_sound k f i ls w w' :
  verify_lines (Some k) f i ls w = Ok (Next w') ->
  rp_outcome (wk_report w') = rp_outcome (wk_report w) /\
  rp_suspected_splices (wk_report w) <= rp_suspected_splices (wk_report w') /\
  (rp_suspected_splices (wk_report w') <= rp_suspected_splices (wk_report w) ->
   advance k (pos w) (omap line_entry ls) (pos w')).
Proof.
  revert i w. induction ls as [|l ls IH]; intros i w E.
  - injection E as <-. repeat split; [lia|constructor].
  - rewrite omap_cons_list. cbn [verify_lines] in E. apply result_bind_ok in E as ([w1|w1] & E1 & E); [|done].
    destruct (verify_line_sound _ _ _ _ _ _ E1) as (Ho1 & Hs1 & Ha1). destruct (IH _ _ E) as (Ho2 & Hs2 & Ha2).
    split; [congruence|]. split; [lia|]. intros Hle. eapply advance_app; [apply Ha1|apply Ha2]; lia.
Qed.

Lemma verify_lines_stop key f i ls w w' :
  verify_lines key f i ls w = Ok (Stop w') -> rp_outcome (wk_report w') <> Verified.
Proof.
  revert i w. induction ls as [|l ls IH]; intros i w E; [done|].
  cbn [verify_lines] in E. apply result_bind_ok in E as ([w1|w1] & E1 & E); [eauto|].
  injection E as <-. eauto using verify_line_stop.
Qed.

Lemma verify_files_complete k d fs w o :
  (forall f c, f ∈ fs -> d !! f = Some c -> utf8 c = true) ->
  advance k (pos w) (mjoin (file_entries d <$> fs)) o ->
  exists w', verify_files (Some k) d fs w = Ok w' /\ pos w' = o /\ no_worse w w' /\
    rp_chained_records (wk_report w') =
      rp_chained_records (wk_report w) + chained_count (mjoin (file_entries d <$> fs)).
Proof.
  revert w. induction fs as [|f fs IH]; intros w Hu Ha.
  - inversion Ha; subst. exists w. repeat split. simpl. rewrite chained_count_nil. lia.
  - cbn [fmap list_fmap mjoin list_join] in *. rewrite chained_count_app.
    apply advance_split in Ha as (o1 & Ha & Hb).
    assert (forall g c, g ∈ fs -> d !! g = Some c -> utf8 c = true) as Hu' by eauto using list_elem_of_further.
    cbn [verify_files]. unfold file_entries at 1 in Ha. unfold file_entries at 1.
    destruct (d !! f) as [c|] eqn:Ef; simpl in Ha |- *.
    + rewrite from_utf8_ok by (eapply Hu; [constructor|exact Ef]).
      destruct (verify_lines_complete k f 0 _ w o1 Ha) as (w1 & E1 & <- & Hw1 & Hn1). rewrite E1. cbn.
      destruct (IH w1 Hu' Hb) as (w2 & E2 & <- & Hw2 & Hn2). exists w2. rewrite E2, Hn2, Hn1.
      destruct Hw1, Hw2. unfold entries_of. repeat split; [congruence..|].
      rewrite Z.add_assoc. done.
    + inversion Ha; subst. destruct (IH w Hu' Hb) as (w2 & E2 & <- & Hw2 & Hn2). exists w2.
      rewrite E2, Hn2. repeat split; apply Hw2.
Qed.

Lemma verify_files_sound k d fs w w' :
  verify_files (Some k) d fs w = Ok w' -> rp_outcome (wk_report w') = Verified ->
  rp_suspected_splices (wk_report w) <= rp_suspected_splices (wk_report w') /\
  (rp_suspected_splices (wk_report w') <= rp_suspected_splices (wk_report w) ->
   advance k (pos w) (mjoin (file_entries d <$> fs)) (pos w')).
Proof.
  revert w. induction fs as [|f fs IH]; intros w E Hv; cbn [verify_files] in E.
  - injection E as <-. split; [lia|constructor].
  - cbn [fmap list_fmap mjoin list_join]. unfold file_entries at 1. destruct (d !! f) as [c|]; [|eauto].
    unfold from_utf8 in E. destruct (utf8 c); [|done].
    apply result_bind_ok in E as ([w1|w1] & E1 & E).
    + destruct (verify_lines_sound _ _ _ _ _ _ E1) as (_ & Hs1 & Ha1). destruct (IH _ E Hv) as (Hs2 & Ha2).
      split; [lia|]. intros Hle. eapply advance_app; [apply Ha1|apply Ha2]; lia.
    + injection E as <-. by apply verify_lines_stop in E1.
Qed.

Definition start_walk (fs : list string) : Walk :=
  {| wk_report := empty_report fs; wk_running := genesis_prev; wk_expected_seq := 1; wk_seen_first := false |}.

(** A log that verifies is a chainless prefix and a chain. *)
Lemma verify_sound k d r :
  verify_audit_chain d (Some k) = Ok r -> rp_outcome r = Verified -> verifies k (dir_entries d).
Proof.
  unfold verify_audit_chain. intros E Hv. apply result_bind_ok in E as (w & E & [= <-]).
  destruct (0 <? rp_suspected_splices (wk_report w)) eqn:Hs; [done|]. propify.
  apply advance_verifies. exists (pos w). destruct (verify_files_sound _ _ _ _ _ E Hv) as [_ Ha]. by apply Ha.
Qed.

(** ... and such a log verifies, every chained record counted. *)
Lemma verify_complete k d :
  utf8_dir d -> verifies k (dir_entries d) ->
  exists r, verify_audit_chain d (Some k) = Ok r /\ rp_outcome r = Verified /\
    rp_chained_records r = chained_count (dir_entries d).
Proof.
  intros Hu [o Ha]%advance_verifies.
  destruct (verify_files_complete k d _ (start_walk (chain_files_oldest_first d)) o Hu Ha) as (w & E & _ & [Ho Hs] & Hn).
  exists (wk_report w). unfold verify_audit_chain. fold (start_walk (chain_files_oldest_first d)). rewrite E. cbn.
  rewrite Hs. cbn. rewrite Ho, Hn. done.
Qed.

(** ** Tampering *)

Definition chained (es : list AuditEntry) : list AuditEntry :=
  List.filter (fun e => match ae_chain e with Some _ => true | None => false end) es.

(** What was hashed for a record. *)
Definition link_input (e : AuditEntry) : option (bool * bytes) :=
  c ← ae_chain e; p ← hexlower_decode (ac_prev c); Some (ac_sealed c, p ++ canonical_record_bytes e).

(** Two different hashed inputs of records of [a] and [b] with one digest. *)
Definition chain_collision (k : bytes) (a b : list AuditEntry) : Prop :=
  exists e e' s i s' i', e ∈ a /\ e' ∈ b /\ link_input e = Some (s, i) /\ link_input e' = Some (s', i') /\
    (s, i) <> (s', i') /\ link_hash k s i = link_hash k s' i'.

Lemma linked_input k p x e h : linked k p x e h ->
  exists s, link_input e = Some (s, p ++ canonical_record_bytes e) /\ link_hash k s (p ++ canonical_record_bytes e) = h.
Proof.
  intros (s & Ec & -> & _). exists s. split; [|done]. unfold link_input. rewrite Ec. cbn [mbind option_bind ac_prev].
  rewrite hexlower_decode_encode. done.
Qed.

Lemma same_record e e' : with_chain e None = with_chain e' None -> ae_chain e = ae_chain e' -> e = e'.
Proof. destruct e, e'. unfold with_chain. simpl. intros [= -> -> -> -> -> ->] ->. done. Qed.

Lemma record_bytes_inj `{!AuditJsonLaws} e e' :
  canonical_record_bytes e = canonical_record_bytes e' -> with_chain e None = with_chain e' None.
Proof.
  unfold canonical_record_bytes. intros E%(f_equal String.string_of_list_byte). rewrite !text_as_bytes in E.
  apply (f_equal from_json) in E. rewrite !line_roundtrip in E by done. congruence.
Qed.

Lemma next_seq_inj x y : in_u64 x -> in_u64 y -> next_seq x = next_seq y -> x = y.
Proof. unfold in_u64, next_seq. intros. Z.to_euclidean_division_equations. lia. Qed.

(** Chains that end alike agree backwards from their ends. *)
Lemma chain_agree `{!AuditJsonLaws} k c : forall c' p x p' x' q y,
  chain k p x c q y -> chain k p' x' c' q y -> Forall seq_u64 c -> Forall seq_u64 c' ->
  c `suffix_of` c' \/ c' `suffix_of` c \/ chain_collision k c c'.
Proof.
  induction c as [|e c IH] using rev_ind; intros c' p x p' x' q y Hc Hc' Hu Hu'; [left; apply suffix_nil|].
  destruct c' as [|e' c' _] using rev_ind; [right; left; apply suffix_nil|].
  apply Forall_app in Hu as [Hu [He _]%Forall_cons_1]. apply Forall_app in Hu' as [Hu' [He' _]%Forall_cons_1].
  apply chain_snoc in Hc as (r & z & Hc & Hl & ->). apply chain_snoc in Hc' as (r' & z' & Hc' & Hl' & Ez).
  destruct (linked_input _ _ _ _ _ Hl) as (s & Hi & Hh). destruct (linked_input _ _ _ _ _ Hl') as (s' & Hi' & Hh').
  destruct (decide ((s, r ++ canonical_record_bytes e) = (s', r' ++ canonical_record_bytes e'))) as [Ei|Hne].
  2: { right; right. exists e, e', s, (r ++ canonical_record_bytes e), s', (r' ++ canonical_record_bytes e').
       rewrite !elem_of_app, !list_elem_of_singleton, Hh, Hh'. tauto. }
  destruct Hl as (s0 & Ec & _ & Hr & _). destruct Hl' as (s0' & Ec' & _ & Hr' & _).
  assert (s0 = s) as -> by (unfold link_input in Hi; rewrite Ec in Hi; simpl in Hi; rewrite hexlower_decode_encode in Hi; by injection Hi).
  assert (s0' = s') as -> by (unfold link_input in Hi'; rewrite Ec' in Hi'; simpl in Hi'; rewrite hexlower_decode_encode in Hi'; by injection Hi').
  injection Ei as <- Ei. apply app_inj_length in Ei as [<- Ee%record_bytes_inj]; [|congruence].
  apply next_seq_inj in Ez as <-; [|apply (He _ Ec)|apply (He' _ Ec')].
  assert (e = e') as <-.
  { apply same_record; [done|]. by rewrite Ec, Ec'. }
  destruct (IH c' _ _ _ _ _ _ Hc Hc' Hu Hu') as [[t ->]|[[t ->]|(f & f' & s1 & i1 & s2 & i2 & Hf & Hf' & Hrest)]].
  - left. exists t. by rewrite app_assoc.
  - right; left. exists t. by rewrite app_assoc.
  - right; right. exists f, f', s1, i1, s2, i2. rewrite !elem_of_app. tauto.
Qed.

Lemma chained_app a b : chained (a ++ b) = chained a ++ chained b.
Proof. apply List.filter_app. Qed.

Lemma chained_legacy l : Forall chainless l -> chained l = [].
Proof. induction 1 as [|e l He Hl IH]; [done|]. simpl. by rewrite He. Qed.

Lemma chained_all l : Forall (fun e => ~ chainless e) l -> chained l = l.
Proof.
  induction 1 as [|e l He Hl IH]; [done|]. simpl. unfold chainless in He. destruct (ae_chain e); [by rewrite IH|done].
Qed.

(** The part of a verified log before one of its chained records. *)
Lemma verifies_split k a e b :
  verifies k (a ++ e :: b) -> ~ chainless e ->
  exists p x r z h, chain k p x (chained a) r z /\ linked k r z e h.
Proof.
  intros (l & c & p & x & q & y & E & Hl & Hc & _) He.
  assert (exists a0, a = l ++ a0 /\ c = a0 ++ e :: b) as (a0 & -> & ->).
  { revert a E. induction Hl as [|f l Hf Hl IH]; intros a E; [by exists a|].
    destruct a as [|g a]; simpl in E; [by simplify_eq|]. injection E as -> E.
    destruct (IH a E) as (a0 & -> & ->). by exists a0. }
  rewrite chained_app, chained_legacy by done. simpl. apply chain_app in Hc as (r & z & Ha & Hb).
  inversion Hb; subst. exists p, x, r, z. eexists. rewrite chained_all by eauto using chain_chained. eauto.
Qed.

Lemma dir_entries_seq `{!AuditJsonLaws} d : Forall seq_u64 (dir_entries d).
Proof.
  apply Forall_forall. intros e He c Ec. unfold dir_entries in He. apply list_elem_of_join in He as (es & He & Hf).
  apply list_elem_of_fmap in Hf as (f & -> & _). unfold file_entries in He. destruct (d !! f) as [b|]; [|by apply elem_of_nil in He].
  simpl in He. unfold entries_of in He. apply list_elem_of_omap in He as (l & _ & El).
  unfold line_entry in El. destruct (blank l); [done|]. eapply parsed_seq; eauto.
Qed.

Lemma chained_sub e a : e ∈ chained a -> e ∈ a.
Proof. rewrite !list_elem_of_In. intros [Hi _]%List.filter_In. done. Qed.

(** C15. Tamper evidence: two logs that both verify under the chain key and
    share a chained record agree on the chained records before it, as far back
    as both reach; otherwise two different inputs the verification hashed have
    one digest.  Editing, deleting, inserting or reordering records before a
    record that is kept cannot go unnoticed. *)
Theorem audit_tamper_evident `{!AuditJsonLaws} k d d' r r' a e b a' b' :
  verify_audit_chain d (Some k) = Ok r -> rp_outcome r = Verified ->
  verify_audit_chain d' (Some k) = Ok r' -> rp_outcome r' = Verified ->
  dir_entries d = a ++ e :: b -> dir_entries d' = a' ++ e :: b' -> ~ chainless e ->
  chained a `suffix_of` chained a' \/ chained a' `suffix_of` chained a \/ chain_collision k (chained a) (chained a').
Proof.
  intros E V E' V' Ea Ea' He. apply verify_sound in E; [|done]. apply verify_sound in E'; [|done].
  pose proof (dir_entries_seq d) as Hu. pose proof (dir_entries_seq d') as Hu'. rewrite Ea in *. rewrite Ea' in *.
  destruct (verifies_split _ _ _ _ E He) as (p & x & q & y & h & Hc & Hl).
  destruct (verifies_split _ _ _ _ E' He) as (p' & x' & q' & y' & h' & Hc' & Hl').
  destruct Hl as (s & Ec & _). destruct Hl' as (s' & Ec' & _). rewrite Ec in Ec'. injection Ec' as <- Ep _ _.
  apply hexlower_inj in Ep as <-.
  apply Forall_app in Hu as [Hu _]. apply Forall_app in Hu' as [Hu' _].
  eapply chain_agree; [exact Hc|exact Hc'|..]; rewrite Forall_forall in *; intros f Hf; [apply Hu|apply Hu']; by apply chained_sub.
Qed.

(** Removing the newest records leaves a log that verifies: the chain has no
    record of its own end. *)
Lemma truncated_log_verifies k a b : verifies k (a ++ b) -> verifies k a.
Proof. rewrite <- !advance_verifies. intros [o Ha]. apply advance_split in Ha as (o1 & Ha & _). eauto. Qed.

(** A line that is not UTF-8, such as a record cut inside a character, makes
    the next append start a new chain at the genesis digest, and no
    verification returns. *)
Lemma broken_text_restarts d c key :
  rotated_files d = [] -> d !! AUDIT_LOG_FILE_NAME = Some c -> utf8 c = false ->
  Z.of_nat (length c) <= CHAIN_TAIL_SCAN_BYTES ->
  recover_chain_head d = Ok (genesis_prev, 0) /\ verify_audit_chain d key = file_io "Failed to read audit log".
Proof.
  intros Hr Hd Hu Hl. unfold recover_chain_head, verify_audit_chain, chain_files_oldest_first. rewrite Hr. cbn [app rev fmap list_fmap].
  split.
  - cbn [recover_in]. unfold last_chained_record_in_file. rewrite Hd. cbv zeta.
    destruct (Z.of_nat (length c) =? 0); [done|]. rewrite Z.min_l by done. rewrite Z.sub_diag.
    change (drop (Z.to_nat 0) c) with c. unfold last_chained_in_buffer, from_utf8. rewrite Hu. cbn [mbind result_bind].
    by rewrite Z.eqb_refl.
  - cbn [verify_files]. rewrite Hd. unfold from_utf8. by rewrite Hu.
Qed.

(** ... and in a longer file whose last 64 KiB are not text, every append
    fails. *)
Lemma broken_text_blocks policy d c entry keys :
  d !! AUDIT_LOG_FILE_NAME = Some c -> utf8 c = false -> CHAIN_TAIL_SCAN_BYTES < Z.of_nat (length c) ->
  utf8 (drop (Z.to_nat (Z.of_nat (length c) - CHAIN_TAIL_SCAN_BYTES)) c) = false ->
  append_entry policy d entry keys = file_io "Failed to read audit log".
Proof.
  intros Hd Hu Hl Hw. unfold append_entry, recover_chain_head, chain_files_oldest_first. rewrite rev_app_distr. cbn [app rev recover_in].
  unfold last_chained_record_in_file. rewrite Hd. cbv zeta.
  assert (0 < CHAIN_TAIL_SCAN_BYTES) as Hpos by (vm_compute; reflexivity).
  destruct (Z.eqb_spec (Z.of_nat (length c)) 0); [lia|]. rewrite Z.min_r by lia.
  unfold last_chained_in_buffer, from_utf8. rewrite Hw. cbn [mbind result_bind].
  destruct (Z.eqb_spec CHAIN_TAIL_SCAN_BYTES (Z.of_nat (length c))); [lia|]. by rewrite Hu.
Qed.
End Facts.
