(* ===== verification/AuditFiles.v ===== *)
(** * Audit log: the files of the log and their rotation

    In a directory whose rotated files are numbered 1 to [n], the walk visits
    them from [n] down to 1 and then [audit.log] ([dir_entries_slots]);
    [rotate] moves every record one file up and can only drop the oldest file
    ([rotate_entries]). *)

From S2P Require Import Prelude Text ThirdParty CoreError AuditLog AuditVerify AuditFacts.
From Stdlib Require Import ZArith Lia Strings.String Strings.Ascii Strings.Byte.
From stdpp Require Import base list option strings numbers gmap sorting.
From S2P Require Import Text AuditLog.
Open Scope Z_scope.

(** ** Names *)

Lemma strip_prefix_app p s : strip_prefix p (p +:+ s) = Some s.
Proof. induction p as [|a p IH]; [done|]. simpl. by rewrite Ascii.eqb_refl. Qed.

Lemma parse_unsigned_display w z : 0 <= z < 2 ^ w -> parse_unsigned w (i64_display z) = Some z.
Proof.
  intros Hz. destruct z as [|p|p]; [|unfold parse_unsigned, i64_display; simpl|lia].
  - change (parse_unsigned w (i64_display 0)) with (if 0 <? 2 ^ w then Some 0 else None).
    destruct (0 <? 2 ^ w) eqn:E; [done|]. propify. lia.
  - destruct (pos_text p) as (a & s & -> & Hd & Hp & _). apply digit_not_sign in Hd. propify.
    match goal with H : Ascii.eqb a "+"%char = false |- _ => rewrite H end.
    rewrite Hp. simpl. destruct (Z.pos p <? 2 ^ w) eqn:E; [done|]. propify. lia.
Qed.

Lemma rotation_number_sibling i : (Z.of_nat i < 2 ^ 64) -> rotation_number (rotated_sibling i) = Some (Z.of_nat i).
Proof.
  intros Hi. unfold rotation_number, rotated_sibling.
  change (AUDIT_LOG_FILE_NAME +:+ "." +:+ i64_display (Z.of_nat i))
    with ((AUDIT_LOG_FILE_NAME +:+ ".") +:+ i64_display (Z.of_nat i)).
  rewrite strip_prefix_app. simpl. apply parse_unsigned_display. lia.
Qed.

Lemma rotation_number_log : rotation_number AUDIT_LOG_FILE_NAME = None.
Proof. reflexivity. Qed.

Lemma NoDup_omap_keyed {A B K} (ka : A -> K) (kb : B -> K) (g : A -> option B) l :
  (forall a b, g a = Some b -> kb b = ka a) -> NoDup (ka <$> l) -> NoDup (omap g l).
Proof.
  intros Hg. induction l as [|a l IH]; simpl; intros Hl; [constructor|]. apply NoDup_cons in Hl as [Ha Hl].
  destruct (g a) as [b|] eqn:E; [|auto]. constructor; [|auto]. intros (a' & Ha' & Eb)%list_elem_of_omap.
  apply Ha. rewrite <- (Hg _ _ E), (Hg _ _ Eb). by apply list_elem_of_fmap_2.
Qed.

Lemma mjoin_cons {A} (x : list A) l : mjoin (x :: l) = x ++ mjoin l.
Proof. done. Qed.

Section Files.
Context (n : nat) (Hn : Z.of_nat n < 2 ^ 64).

(** The only numbered files are [audit.log.1] to [audit.log.n]. *)
Definition names_ok (d : Dir) : Prop :=
  forall f z, is_Some (d !! f) -> rotation_number f = Some z -> exists i, (1 <= i <= n)%nat /\ f = rotated_sibling i.

Lemma sibling_inj i j : (i <= n)%nat -> (j <= n)%nat -> rotated_sibling i = rotated_sibling j -> i = j.
Proof.
  intros Hi Hj E%(f_equal rotation_number). rewrite !rotation_number_sibling in E by lia. injection E. lia.
Qed.

Lemma sibling_not_log i : (i <= n)%nat -> rotated_sibling i <> AUDIT_LOG_FILE_NAME.
Proof. intros Hi E%(f_equal rotation_number). rewrite rotation_number_sibling, rotation_number_log in E by lia. done. Qed.

Definition numbered (i : nat) : Z * string := (Z.of_nat i, rotated_sibling i).

Definition present (d : Dir) : list nat := filter (fun i => is_Some (d !! rotated_sibling i)) (rev (seq 1 n)).

Lemma elem_of_present d i : i ∈ present d <-> (1 <= i <= n)%nat /\ is_Some (d !! rotated_sibling i).
Proof.
  unfold present. rewrite list_elem_of_filter, list_elem_of_In, <- in_rev, in_seq. intuition lia.
Qed.

Lemma present_sorted d : StronglySorted (fun i j => (j < i)%nat) (present d).
Proof.
  unfold present. apply StronglySorted_filter'. clear Hn. induction n as [|m IH]; [constructor|].
  rewrite seq_S, rev_app_distr. simpl. constructor; [done|]. apply Forall_forall.
  intros i. rewrite list_elem_of_In, <- in_rev, in_seq. lia.
Qed.

Lemma NoDup_present d : NoDup (present d).
Proof.
  pose proof (present_sorted d) as Hs. induction Hs as [|i l Hl IH Hf]; constructor; [|done].
  intros Hi. rewrite Forall_forall in Hf. specialize (Hf i Hi). lia.
Qed.

Lemma rotated_files_present d : names_ok d -> rotated_files d = numbered <$> present d.
Proof.
  intros Hok. unfold rotated_files.
  set (l := omap _ (map_to_list d)).
  assert (forall a, a ∈ l <-> a ∈ numbered <$> present d) as Hmem.
  { intros [z f]. unfold l. rewrite list_elem_of_omap, list_elem_of_fmap. split.
    - intros ((g & c) & Hg & E). apply elem_of_map_to_list in Hg. simpl in E.
      destruct (rotation_number g) as [z'|] eqn:Er; [|done]. simpl in E. injection E as -> ->.
      destruct (Hok f z) as (i & Hi & ->); [by rewrite Hg|done|]. exists i. rewrite elem_of_present, Hg.
      rewrite rotation_number_sibling in Er by lia. unfold numbered. split; [congruence|]. eauto.
    - intros (i & [= -> ->] & [Hi [c Hc]]%elem_of_present). exists (rotated_sibling i, c).
      rewrite elem_of_map_to_list. split; [done|]. simpl. rewrite rotation_number_sibling by lia. done. }
  assert (NoDup l) as Hnd.
  { apply (NoDup_omap_keyed fst snd); [|apply NoDup_fst_map_to_list]. intros [g c] [z f] E. simpl in E.
    destruct (rotation_number g); by simplify_eq/=. }
  assert (l ≡ₚ numbered <$> present d) as Hp.
  { apply NoDup_Permutation; [done| |done]. apply NoDup_fmap_2_strong, NoDup_present. intros i j _ _ [= E _]. lia. }
  apply (StronglySorted_unique_strong newer); [|apply StronglySorted_merge_sort; unfold newer; [intros ???|intros ??]; lia| |].
  - intros a b Ha Hb Hab Hba. rewrite merge_sort_Permutation in Ha. apply Hmem in Ha.
    apply list_elem_of_fmap in Ha as (i & -> & _), Hb as (j & -> & _). unfold newer, numbered in *. simpl in *.
    f_equal; [lia|]. f_equal. lia.
  - clear Hmem Hp. pose proof (present_sorted d) as Hs. induction Hs as [|i m Hm IH Hf]; [constructor|].
    simpl. constructor; [done|].
    apply Forall_fmap. eapply Forall_impl; [exact Hf|]. unfold newer. simpl. lia.
  - by rewrite merge_sort_Permutation.
Qed.

(** ** The records of the directory, file by file *)

Section Entries.
Context `{Sha256, Hmac, HexLower, SerdeJson AuditEntry}.

Definition slot_entries (d : Dir) (i : nat) : list AuditEntry := file_entries d (rotated_sibling i).

Lemma join_present d l :
  mjoin (slot_entries d <$> filter (fun i => is_Some (d !! rotated_sibling i)) l) = mjoin (slot_entries d <$> l).
Proof.
  induction l as [|i l IH]; [done|]. rewrite filter_cons. case_decide as Hi; rewrite !fmap_cons, !mjoin_cons.
  - by rewrite IH.
  - rewrite IH. unfold slot_entries at 2, file_entries. destruct (d !! rotated_sibling i); [by destruct Hi|done].
Qed.

Lemma dir_entries_slots d :
  names_ok d ->
  dir_entries d = mjoin (slot_entries d <$> rev (seq 1 n)) ++ file_entries d AUDIT_LOG_FILE_NAME.
Proof.
  intros Hok. unfold dir_entries, chain_files_oldest_first. rewrite rotated_files_present by done.
  rewrite fmap_app, join_app. simpl. rewrite app_nil_r. f_equal. rewrite <- join_present. fold (present d).
  f_equal. rewrite <- !list_fmap_compose. done.
Qed.

(** ** Rotation *)

(** The records of the files [m] down to 1. *)
Definition older (d : Dir) (m : nat) : list AuditEntry := mjoin (slot_entries d <$> rev (seq 1 m)).

Lemma older_S d m : older d (S m) = slot_entries d (S m) ++ older d m.
Proof. unfold older. rewrite seq_S, rev_app_distr. done. Qed.

Lemma older_first d m : older d (S m) = mjoin (slot_entries d <$> rev (seq 2 m)) ++ slot_entries d 1.
Proof.
  unfold older. change (seq 1 (S m)) with ([1%nat] ++ seq 2 m).
  rewrite rev_app_distr, fmap_app, join_app. simpl. by rewrite app_nil_r.
Qed.

Lemma slot_ext d d' i : d !! rotated_sibling i = d' !! rotated_sibling i -> slot_entries d i = slot_entries d' i.
Proof. unfold slot_entries, file_entries. by intros ->. Qed.

Lemma older_ext d d' m :
  (forall i, (1 <= i <= m)%nat -> d !! rotated_sibling i = d' !! rotated_sibling i) -> older d m = older d' m.
Proof.
  induction m as [|m IH]; intros He; [done|]. rewrite !older_S. f_equal; [apply slot_ext, He; lia|].
  apply IH. intros. apply He. lia.
Qed.

Lemma slot_none d i : d !! rotated_sibling i = None -> slot_entries d i = [].
Proof. unfold slot_entries, file_entries. by intros ->. Qed.

Lemma shift_lookup d i f : (S i <= n)%nat ->
  shift d i !! f =
    if decide (f = rotated_sibling (S i)) then
      match d !! rotated_sibling i with Some c => Some c | None => d !! f end
    else if decide (f = rotated_sibling i) then None else d !! f.
Proof.
  intros Hi. assert (rotated_sibling i <> rotated_sibling (S i)) as Hne.
  { intros E%sibling_inj; lia. }
  unfold shift, file_exists, rename. rewrite lookup_delete_ne by done.
  destruct (d !! rotated_sibling i) as [c|] eqn:E; simpl.
  - destruct (decide (f = rotated_sibling (S i))) as [->|H1']; [by rewrite lookup_insert_eq|].
    rewrite lookup_insert_ne by done. destruct (decide (f = rotated_sibling i)) as [->|H2']; [by rewrite lookup_delete_eq|].
    by rewrite !lookup_delete_ne by done.
  - repeat case_decide; congruence.
Qed.

Definition shifts (d : Dir) (m : nat) : Dir := foldl shift d (rev (seq 1 m)).

Lemma shifts_S d m : shifts d (S m) = shifts (shift d (S m)) m.
Proof. unfold shifts. rewrite seq_S, rev_app_distr. done. Qed.

Lemma shifts_other m d f : (S m <= n)%nat ->
  (forall i, (1 <= i <= S m)%nat -> f <> rotated_sibling i) -> shifts d m !! f = d !! f.
Proof.
  revert d. induction m as [|m IH]; intros d Hm Hf; [done|]. rewrite shifts_S, IH by (intros; try apply Hf; lia).
  rewrite shift_lookup by lia. by rewrite !decide_False by (apply Hf; lia).
Qed.

Lemma shifts_above m d i : (S m < i <= n)%nat -> shifts d m !! rotated_sibling i = d !! rotated_sibling i.
Proof. intros Hi. apply shifts_other; [lia|]. intros j Hj E%sibling_inj; lia. Qed.

Lemma shift_below d m i : (S m <= n)%nat -> (i < m)%nat -> shift d m !! rotated_sibling i = d !! rotated_sibling i.
Proof.
  intros Hm Hi. rewrite shift_lookup by lia.
  rewrite !decide_False by (intros E%sibling_inj; lia). done.
Qed.

Lemma shifts_one d m : (S (S m) <= n)%nat -> shifts d (S m) !! rotated_sibling 1 = None.
Proof.
  revert d. induction m as [|m IH]; intros d Hm; rewrite shifts_S; [|apply IH; lia].
  change (shift d 1 !! rotated_sibling 1 = None). rewrite shift_lookup by lia.
  rewrite decide_False by (intros E%sibling_inj; lia). by rewrite decide_True.
Qed.

(** Into a free place the files move without loss. *)
Lemma shifts_entries d m : (S m <= n)%nat -> d !! rotated_sibling (S m) = None -> older (shifts d m) (S m) = older d m.
Proof.
  revert d. induction m as [|m IH]; intros d Hm Hd.
  - rewrite older_S. cbn [shifts]. change (shifts d 0) with d. by rewrite slot_none.
  - rewrite older_S, shifts_S, IH; [|lia|].
    + rewrite (slot_ext _ (shift d (S m)) (S (S m))) by (apply shifts_above; lia). rewrite (older_S d). f_equal.
      * unfold slot_entries, file_entries. rewrite shift_lookup by lia. rewrite decide_True by done.
        rewrite Hd. by destruct (d !! rotated_sibling (S m)).
      * apply older_ext. intros. apply shift_below; lia.
    + rewrite shift_lookup by lia. rewrite decide_False by (intros E%sibling_inj; lia). by rewrite decide_True.
Qed.

Lemma shifts_drop d m : (S m = n)%nat ->
  exists dropped, older d n = dropped ++ older (shifts d m) n \/ m = 0%nat.
Proof.
  intros Hm. destruct m as [|m]; [exists []; by right|]. rewrite <- Hm, shifts_S.
  exists (match d !! rotated_sibling (S m) with Some _ => slot_entries d (S (S m)) | None => [] end). left.
  rewrite (older_S d). rewrite (older_S (shifts _ _)), shifts_entries; [|lia|].
  2: { rewrite shift_lookup by lia. rewrite decide_False by (intros E%sibling_inj; lia). by rewrite decide_True. }
  rewrite (slot_ext (shifts _ m) (shift d (S m)) (S (S m))) by (apply shifts_above; lia).
  rewrite (older_ext (shift d (S m)) d m) by (intros; apply shift_below; lia). rewrite (older_S d m).
  assert (slot_entries (shift d (S m)) (S (S m)) =
    match d !! rotated_sibling (S m) with Some _ => slot_entries d (S m) | None => slot_entries d (S (S m)) end) as ->.
  { unfold slot_entries, file_entries. rewrite shift_lookup by lia. rewrite decide_True by done.
    destruct (d !! rotated_sibling (S m)) eqn:E; by rewrite ?E. }
  destruct (d !! rotated_sibling (S m)) eqn:E; [done|]. by rewrite (slot_none d (S m)).
Qed.

(** A rotation keeps the records in order, all those of [audit.log], and may
    drop the oldest. *)
Lemma rotate_entries policy d c :
  max_files policy = n -> (1 <= n)%nat -> d !! AUDIT_LOG_FILE_NAME = Some c ->
  exists dropped, older d n = dropped ++ mjoin (slot_entries (rotate policy d) <$> rev (seq 2 (n - 1))) /\
    slot_entries (rotate policy d) 1 = entries_of c /\ rotate policy d !! AUDIT_LOG_FILE_NAME = None.
Proof.
  intros Hp H1n Hc. unfold rotate. rewrite Hp. fold (shifts d (n - 1)).
  assert (shifts d (n - 1) !! AUDIT_LOG_FILE_NAME = Some c) as Hl.
  { rewrite shifts_other; [done|lia|]. intros i Hi E. symmetry in E. apply sibling_not_log in E; [done|lia]. }
  unfold rename. rewrite Hl. simpl. set (d' := <[_ := c]> _).
  assert (forall i, (2 <= i <= n)%nat -> d' !! rotated_sibling i = shifts d (n - 1) !! rotated_sibling i) as Hi.
  { intros i Hi. unfold d'. rewrite lookup_insert_ne by (intros E%sibling_inj; lia).
    apply lookup_delete_ne. intros E. symmetry in E. apply sibling_not_log in E; [done|lia]. }
  assert (mjoin (slot_entries d' <$> rev (seq 2 (n - 1))) = mjoin (slot_entries (shifts d (n - 1)) <$> rev (seq 2 (n - 1)))) as ->.
  { f_equal. apply list_fmap_ext. intros j i Hj. apply slot_ext, Hi. apply list_elem_of_lookup_2 in Hj.
    rewrite list_elem_of_In, <- in_rev, in_seq in Hj. lia. }
  destruct (shifts_drop d (n - 1)) as [dropped Hd]; [lia|].
  exists (match (n - 1)%nat with O => older d 1 | S _ => dropped end). split; [|split].
  - destruct (n - 1)%nat as [|m] eqn:Em; [by replace n with 1%nat by lia; rewrite app_nil_r|]. destruct Hd as [Hd|]; [|done].
    rewrite Hd. replace n with (S (S m)) at 1 by lia.
    rewrite older_first, (slot_none _ 1), app_nil_r by (apply shifts_one; lia). done.
  - unfold slot_entries, file_entries, d'. by rewrite lookup_insert_eq.
  - unfold d'. rewrite lookup_insert_ne by (apply sibling_not_log; lia). apply lookup_delete_eq.
Qed.

(** Named as it should be, the files of the log satisfying [P]. *)
Definition dir_ok (P : bytes -> Prop) (d : Dir) : Prop :=
  names_ok d /\ (forall c, d !! AUDIT_LOG_FILE_NAME = Some c -> P c) /\
  (forall i c, (1 <= i <= n)%nat -> d !! rotated_sibling i = Some c -> P c).

Lemma shift_ok P d i : (1 <= i)%nat -> (S i <= n)%nat -> dir_ok P d -> dir_ok P (shift d i).
Proof.
  intros H1i Hi (Hnames & Hlog & Hsib). split; [|split].
  - intros f z Hf Hz. rewrite shift_lookup in Hf by done. destruct (decide (f = rotated_sibling (S i))) as [->|].
    + exists (S i). split; [lia|done].
    + destruct (decide _); [by destruct Hf|]. eauto.
  - intros c Hc. rewrite shift_lookup in Hc by done.
    rewrite !decide_False in Hc by (intros E; symmetry in E; revert E; apply sibling_not_log; lia). eauto.
  - intros j c Hj Hc. rewrite shift_lookup in Hc by done. destruct (decide _) in Hc.
    + destruct (d !! rotated_sibling i) eqn:E; simplify_eq; [eapply (Hsib i)|eapply (Hsib j)]; eauto; lia.
    + destruct (decide _) in Hc; [done|]. eauto.
Qed.

Lemma shifts_ok P d m : (S m <= n)%nat -> dir_ok P d -> dir_ok P (shifts d m).
Proof.
  revert d. induction m as [|m IH]; intros d Hm Hd; [done|]. rewrite shifts_S. apply IH; [lia|]. apply shift_ok; [lia..|done].
Qed.

Lemma rotate_ok P policy d c :
  max_files policy = n -> (1 <= n)%nat -> d !! AUDIT_LOG_FILE_NAME = Some c -> dir_ok P d -> dir_ok P (rotate policy d).
Proof.
  intros Hp H1n Hc Hd. assert (P c) as HP by (destruct Hd as (_ & Hl & _); eauto).
  unfold rotate. rewrite Hp. fold (shifts d (n - 1)). apply (shifts_ok P d (n - 1)) in Hd as (Hnames & Hlog & Hsib); [|lia].
  assert (shifts d (n - 1) !! AUDIT_LOG_FILE_NAME = Some c) as Hl.
  { rewrite shifts_other; [done|lia|]. intros i Hi E. symmetry in E. apply sibling_not_log in E; [done|lia]. }
  unfold rename. rewrite Hl. simpl. split; [|split].
  - intros f z Hf Hz. destruct (decide (f = rotated_sibling 1)) as [->|Hne]; [exists 1%nat; split; [lia|done]|].
    rewrite lookup_insert_ne in Hf by done. destruct Hf as [x Hf]. apply lookup_delete_Some in Hf as [_ Hf]. eauto.
  - intros x Hx. rewrite lookup_insert_ne, lookup_delete_eq in Hx by (apply sibling_not_log; lia). done.
  - intros i x Hi Hx. destruct (decide (i = 1%nat)) as [->|Hne].
    + rewrite lookup_insert_eq in Hx. by simplify_eq.
    + rewrite lookup_insert_ne in Hx by (intros E%sibling_inj; lia).
      apply lookup_delete_Some in Hx as [_ Hx]. eauto.
Qed.

(** Writing [audit.log]. *)
Lemma write_ok P d c : P c -> dir_ok P d -> dir_ok P (<[AUDIT_LOG_FILE_NAME := c]> d).
Proof.
  intros HP (Hnames & Hlog & Hsib). split; [|split].
  - intros f z Hf Hz. destruct (decide (f = AUDIT_LOG_FILE_NAME)) as [->|]; [by rewrite rotation_number_log in Hz|].
    rewrite lookup_insert_ne in Hf by done. eauto.
  - intros x. rewrite lookup_insert_eq. by intros [= <-].
  - intros i x Hi. rewrite lookup_insert_ne by (intros E; symmetry in E; revert E; apply sibling_not_log; lia). eauto.
Qed.

Lemma write_older d c : older (<[AUDIT_LOG_FILE_NAME := c]> d) n = older d n.
Proof.
  apply older_ext. intros i Hi. apply lookup_insert_ne. intros E. symmetry in E. apply sibling_not_log in E; [done|lia].
Qed.

Lemma dir_entries_older d : names_ok d -> dir_entries d = older d n ++ file_entries d AUDIT_LOG_FILE_NAME.
Proof. apply dir_entries_slots. Qed.

Lemma rotate_dir policy d c :
  max_files policy = n -> (1 <= n)%nat -> d !! AUDIT_LOG_FILE_NAME = Some c -> names_ok d ->
  exists dropped kept, dir_entries d = dropped ++ kept ++ entries_of c /\
    dir_entries (rotate policy d) = kept ++ entries_of c.
Proof.
  intros Hp H1n Hc Hd. destruct (rotate_entries policy d c Hp H1n Hc) as (dropped & Ho & E1 & El).
  exists dropped, (mjoin (slot_entries (rotate policy d) <$> rev (seq 2 (n - 1)))). split.
  - rewrite dir_entries_older, Ho, <- app_assoc by done. do 2 f_equal. unfold file_entries. by rewrite Hc.
  - rewrite dir_entries_older.
    + unfold file_entries at 1. rewrite El. simpl. rewrite app_nil_r. replace n with (S (n - 1)) at 1 by lia.
      by rewrite older_first, E1.
    + assert (dir_ok (fun _ => True) d) as Hok by done. by apply (rotate_ok _ policy d c Hp H1n Hc) in Hok as [? _].
Qed.
End Entries.
End Files.
