(* ===== verification/AuditRun.v ===== *)
(** * Audit log: the text of its files and the head of its chain

    A file of the log is complete lines and what a crash may have left of one
    more ([wf_file]).  [recover_chain_head] finds the last chained record of
    such files ([recover_head]). *)

From S2P Require Import Prelude Text ThirdParty CoreError AuditLog AuditVerify AuditFacts AuditFiles.
From Stdlib Require Import ZArith Lia Strings.String Strings.Ascii Strings.Byte.
From stdpp Require Import base list option strings numbers gmap.
From S2P Require Import Text AuditLog.
Open Scope Z_scope.

(** ** Text files *)

Lemma text_assoc (a b c : string) : (a +:+ b) +:+ c = a +:+ (b +:+ c).
Proof. induction a as [|x a IH]; [done|]. change (String x ((a +:+ b) +:+ c) = String x (a +:+ (b +:+ c))). by rewrite IH. Qed.

Lemma text_nil (a : string) : a +:+ "" = a.
Proof. induction a as [|x a IH]; [done|]. change (String x (a +:+ "") = String x a). by rewrite IH. Qed.

Lemma utf8_app a b : utf8 a = true -> utf8 b = true -> utf8 (a ++ b) = true.
Proof.
  intros Ha Hb. revert Ha. induction a as [a IH] using (induction_ltof1 _ (@length _)); unfold ltof in IH.
  destruct a as [|x a]; [done|]. cbn [utf8 app]. destruct (between 0 0x7F x); [apply IH; simpl; lia|].
  destruct a as [|y a]; [done|]. cbn [app].
  destruct (between 0xC2 0xDF x).
  { intros [-> Ha]%andb_true_iff. simpl. apply IH; [simpl; lia|done]. }
  destruct a as [|z a]; [done|]. cbn [app]. destruct (between 0xE0 0xEF x).
  { intros [-> Ha]%andb_true_iff. simpl. apply IH; [simpl; lia|done]. }
  destruct a as [|w a]; [done|]. cbn [app]. intros [-> Ha]%andb_true_iff. simpl. apply IH; [simpl; lia|done].
Qed.

Definition plain (a : ascii) : bool := 32 <=? code a.

Lemma plain_not_nl a : plain a = true -> negb (Ascii.eqb a NL) = true.
Proof. revert a. apply implb_intro. by_chars. Qed.
Lemma plain_not_cr a : plain a = true -> negb (Ascii.eqb a CR) = true.
Proof. revert a. apply implb_intro. by_chars. Qed.

Lemma lines_plain l s : all_chars plain l = true -> lines (l +:+ String NL s) = l :: lines s.
Proof.
  intros Hl. unfold lines. rewrite split_inclusive_line by eauto using all_chars_impl, plain_not_nl.
  simpl. f_equal. unfold line_of. rewrite strip_last_app, strip_last_none; [done|].
  eauto using all_chars_impl, plain_not_cr.
Qed.

Lemma lines_last l : all_chars plain l = true -> lines l = if is_empty l then [] else [l].
Proof.
  intros Hl. assert (split_inclusive l = if is_empty l then [] else [l]) as E.
  { induction l as [|a l IH]; [done|]. cbn [all_chars] in Hl. apply andb_true_iff in Hl as [Ha Hl].
    apply plain_not_nl, negb_true_iff in Ha. cbn [split_inclusive]. rewrite Ha, IH by done. by destruct l. }
  unfold lines. rewrite E. destruct l as [|a l]; [done|].
  change (is_empty (String a l)) with false. cbn [fmap list_fmap]. unfold line_of.
  rewrite strip_last_none; [done|]. eauto using all_chars_impl, plain_not_nl.
Qed.

Lemma split_plain l s : all_chars plain l = true -> split_char NL (l +:+ String NL s) = l :: split_char NL s.
Proof.
  induction l as [|a l IH]; intros Hl; [done|]. cbn [all_chars] in Hl. apply andb_true_iff in Hl as [Ha Hl].
  apply plain_not_nl, negb_true_iff in Ha. simpl. rewrite Ha. by rewrite IH.
Qed.

Lemma split_last l : all_chars plain l = true -> split_char NL l = [l].
Proof.
  induction l as [|a l IH]; intros Hl; [done|]. cbn [all_chars] in Hl. apply andb_true_iff in Hl as [Ha Hl].
  apply plain_not_nl, negb_true_iff in Ha. simpl. rewrite Ha. by rewrite IH.
Qed.

(** The bytes of complete lines. *)
Definition encode_lines (ls : list string) : bytes := mjoin ((fun l => as_bytes l ++ [x0a]) <$> ls).

Lemma encode_lines_app a b : encode_lines (a ++ b) = encode_lines a ++ encode_lines b.
Proof. unfold encode_lines. by rewrite fmap_app, join_app. Qed.

Lemma encode_lines_text l ls torn :
  String.string_of_list_byte (encode_lines (l :: ls) ++ as_bytes torn) =
  l +:+ String NL (String.string_of_list_byte (encode_lines ls ++ as_bytes torn)).
Proof.
  unfold encode_lines. rewrite fmap_cons, mjoin_cons, <- !app_assoc, text_app, text_as_bytes. done.
Qed.

Lemma lines_encode ls torn :
  Forall (fun l => all_chars plain l = true) ls -> all_chars plain torn = true ->
  lines (String.string_of_list_byte (encode_lines ls ++ as_bytes torn)) = ls ++ if is_empty torn then [] else [torn].
Proof.
  intros Hl Ht. induction Hl as [|l ls Hl _ IH].
  - change (encode_lines [] ++ as_bytes torn) with (as_bytes torn). rewrite text_as_bytes. by apply lines_last.
  - rewrite encode_lines_text, lines_plain by done. simpl. by rewrite IH.
Qed.

Lemma split_encode ls torn :
  Forall (fun l => all_chars plain l = true) ls -> all_chars plain torn = true ->
  split_char NL (String.string_of_list_byte (encode_lines ls ++ as_bytes torn)) = ls ++ [torn].
Proof.
  intros Hl Ht. induction Hl as [|l ls Hl _ IH].
  - change (encode_lines [] ++ as_bytes torn) with (as_bytes torn). rewrite text_as_bytes. by apply split_last.
  - rewrite encode_lines_text, split_plain by done. simpl. by rewrite IH.
Qed.

Lemma encode_lines_utf8 ls : Forall (fun l => utf8 (as_bytes l) = true) ls -> utf8 (encode_lines ls) = true.
Proof.
  induction 1 as [|l ls Hl _ IH]; [done|]. unfold encode_lines. rewrite fmap_cons, mjoin_cons.
  apply utf8_app; [|done]. by apply utf8_app.
Qed.

Lemma ends_with_newline_snoc b x : ends_with_newline (b ++ [x]) = Byte.eqb x x0a.
Proof. unfold ends_with_newline. by rewrite last_snoc. Qed.

Lemma encode_lines_ends ls l : ends_with_newline (encode_lines (ls ++ [l])) = true.
Proof.
  rewrite encode_lines_app. change (encode_lines [l]) with ((as_bytes l ++ [x0a]) ++ []).
  rewrite app_nil_r, app_assoc. apply ends_with_newline_snoc.
Qed.

Lemma plain_ends l : all_chars plain l = true -> l <> "" -> forall b, ends_with_newline (b ++ as_bytes l) = false.
Proof.
  intros Hl Hne b. destruct (exists_last (l := as_bytes l)) as (r & x & E).
  { destruct l; [done|]. discriminate. }
  rewrite E, app_assoc, ends_with_newline_snoc.
  assert (l = String.string_of_list_byte r +:+ String (ascii_of_byte x) "") as El.
  { rewrite <- (text_as_bytes l), E, text_app. done. }
  rewrite El, all_chars_app in Hl. simpl in Hl. propify.
  match goal with H : plain _ = true |- _ => apply plain_not_nl, negb_true_iff in H end.
  by destruct x.
Qed.

(** ** Files the log writes *)

Section Run.
Context `{Sha256, Hmac, HexLower, SerdeJson AuditEntry, !Sha256Laws, !HmacLaws, !HexLowerLaws, !AuditJsonLaws}.

Definition good_line (l : string) : Prop :=
  all_chars plain l = true /\ utf8 (as_bytes l) = true /\ (from_json (trim l) : option AuditEntry) = from_json l.

(** Complete lines, then what a crash may have left of one more. *)
Definition wf_file (c : bytes) : Prop :=
  exists ls torn, c = encode_lines ls ++ as_bytes torn /\ Forall good_line ls /\ good_line torn /\
    (torn = "" \/ (from_json torn : option AuditEntry) = None).

Lemma good_lines_plain ls : Forall good_line ls -> Forall (fun l => all_chars plain l = true) ls.
Proof. intros Hl. eapply Forall_impl; [exact Hl|]. by intros l [? _]. Qed.

Lemma wf_utf8 c : wf_file c -> utf8 c = true.
Proof.
  intros (ls & torn & -> & Hl & (_ & Ht & _) & _). apply utf8_app; [|done]. apply encode_lines_utf8.
  eapply Forall_impl; [exact Hl|]. by intros l (_ & ? & _).
Qed.

Lemma torn_none torn :
  torn = "" \/ (from_json torn : option AuditEntry) = None ->
  omap line_entry (if is_empty torn then [] else [torn]) = [].
Proof.
  intros Ht. unfold is_empty. destruct (String.eqb_spec torn "") as [|Hne]; [done|]. destruct Ht as [|Ht]; [done|].
  simpl. unfold line_entry. rewrite Ht. by destruct (blank torn).
Qed.

Lemma wf_entries ls torn :
  Forall good_line ls -> good_line torn -> torn = "" \/ (from_json torn : option AuditEntry) = None ->
  entries_of (encode_lines ls ++ as_bytes torn) = omap line_entry ls.
Proof.
  intros Hl [Ht _] Hn. unfold entries_of. rewrite lines_encode, omap_app, torn_none by auto using good_lines_plain.
  by rewrite app_nil_r.
Qed.

Lemma good_empty : good_line "".
Proof. by repeat split. Qed.

(** After the repair of its tail a file has complete lines only. *)
Lemma repair_lines c : wf_file c ->
  exists ls, repair_tail c = encode_lines ls /\ Forall good_line ls /\ omap line_entry ls = entries_of c.
Proof.
  intros (ls & torn & -> & Hl & Ht & Hn). rewrite wf_entries by done. unfold repair_tail.
  destruct (String.eqb_spec torn "") as [->|Hne].
  - exists ls. change (as_bytes "") with (@nil Byte.byte). rewrite app_nil_r. split; [|done].
    destruct ls as [|l ls _] using rev_ind; [done|]. rewrite encode_lines_ends, andb_false_r. done.
  - exists (ls ++ [torn]). rewrite plain_ends by (destruct Ht; done). simpl.
    assert ((0 <? Z.of_nat (length (encode_lines ls ++ as_bytes torn))) = true) as ->.
    { apply Z.ltb_lt. rewrite length_app. destruct torn; [done|]. simpl. lia. }
    split; [|split].
    + rewrite encode_lines_app, <- app_assoc. f_equal. unfold encode_lines. simpl. by rewrite app_nil_r.
    + apply Forall_app. split; [done|]. by constructor.
    + rewrite omap_app. destruct Hn as [|Hn]; [done|]. simpl. unfold line_entry at 2. rewrite Hn.
      destruct (blank torn); by rewrite app_nil_r.
Qed.

(** *** The text of a record *)

Lemma strip_any_suffix fuel ws b : exists x, b = x ++ strip_any fuel ws b.
Proof.
  revert b. induction fuel as [|fuel IH]; intros b; [by exists []|]. simpl.
  destruct (List.find _ ws) as [w|] eqn:E; [|by exists []]. destruct (IH (drop (length w) b)) as [x Hx].
  exists (take (length w) b ++ x). rewrite <- app_assoc, <- Hx. by rewrite take_drop.
Qed.

(** A text that starts with a brace is only trimmed at its end. *)
Lemma trim_brace s : exists r, String "{" s = trim (String "{" s) +:+ r.
Proof.
  unfold trim. cbv zeta. rewrite (strip_any_graphic _ whitespace); [|vm_compute; reflexivity|exact eq_refl].
  set (b := as_bytes (String "{" s)).
  destruct (strip_any_suffix (length b) (List.map reverse whitespace) (reverse b)) as [x Hx].
  exists (String.string_of_list_byte (reverse x)). rewrite <- text_app, <- reverse_app, <- Hx, reverse_involutive.
  symmetry. apply text_as_bytes.
Qed.

Lemma trim_braces s : trim ("{" +:+ s +:+ "}") = "{" +:+ s +:+ "}".
Proof.
  unfold trim. cbv zeta. rewrite (strip_any_graphic _ whitespace); [|vm_compute; reflexivity|exact eq_refl].
  rewrite strip_any_graphic; [|vm_compute; reflexivity|].
  - rewrite reverse_involutive. apply text_as_bytes.
  - rewrite !as_bytes_app, !reverse_app. exact eq_refl.
Qed.

Lemma record_line e : seq_u64 e -> good_line (to_json e) /\ line_entry (to_json e) = Some e.
Proof.
  intros Hu.
  destruct (line_braces e) as [s Es]. assert (trim (to_json e) = to_json e) as Et by (rewrite Es; apply trim_braces).
  split; [repeat split|].
  - apply line_plain.
  - apply line_utf8.
  - by rewrite Et.
  - unfold line_entry, blank. rewrite Et, line_roundtrip, Es by done. done.
Qed.

Lemma as_bytes_length s : length (as_bytes s) = String.length s.
Proof.
  induction s as [|a s IH]; [done|]. change (as_bytes (String a s)) with (byte_of_ascii a :: as_bytes s).
  simpl. by rewrite IH.
Qed.

(** A record cut short is no record, also when it is trimmed. *)
Lemma cut_line e m :
  (m < String.length (to_json e))%nat -> utf8 (take m (as_bytes (to_json e))) = true ->
  exists torn, take m (as_bytes (to_json e)) = as_bytes torn /\ good_line torn /\
    (torn = "" \/ (from_json torn : option AuditEntry) = None).
Proof.
  intros Hm Hu. set (b := as_bytes (to_json e)) in *.
  set (torn := String.string_of_list_byte (take m b)). set (rest := String.string_of_list_byte (drop m b)).
  assert (to_json e = torn +:+ rest) as E.
  { unfold torn, rest. rewrite <- text_app, take_drop. symmetry. apply text_as_bytes. }
  assert (as_bytes torn = take m b) as Eb by apply as_bytes_text.
  assert (forall p r, torn = p +:+ r -> (from_json p : option AuditEntry) = None) as Hcut.
  { intros p r Ep. apply (line_whole e p (r +:+ rest)).
    - by rewrite E, Ep, text_assoc.
    - intros Er. apply (f_equal String.length) in E. rewrite Ep in E.
      assert (String.length rest = 0%nat) as Hr.
      { apply (f_equal (fun s => length (as_bytes s))) in Er. rewrite as_bytes_app, length_app, !as_bytes_length in Er.
        simpl in Er. lia. }
      unfold rest in Hr. rewrite <- as_bytes_length, as_bytes_text, length_drop in Hr. unfold b in Hr.
      rewrite as_bytes_length in Hr. lia. }
  exists torn. split; [done|]. split; [split; [|split]|].
  - pose proof (line_plain e) as Hp. rewrite E, all_chars_app in Hp. by apply andb_true_iff in Hp as [? _].
  - by rewrite Eb.
  - assert (from_json torn = None) as -> by (apply (Hcut torn ""); by rewrite text_nil).
    destruct torn as [|a t] eqn:Et; [apply (Hcut "" ""); done|].
    assert (a = "{"%char) as ->.
    { destruct (line_braces e) as [s Es]. rewrite E in Es. by injection Es. }
    destruct (trim_brace t) as [r Hr]. by eapply Hcut.
  - right. apply (Hcut torn ""). by rewrite text_nil.
Qed.

(** ** The head of the chain *)

Definition entry_head (e : AuditEntry) : option (bytes * Z) :=
  c ← ae_chain e; h ← hexlower_decode (ac_hash c); Some (h, ac_seq c).

Fixpoint head_of (es : list AuditEntry) : option (bytes * Z) :=
  match es with
  | [] => None
  | e :: es => match head_of es with Some x => Some x | None => entry_head e end
  end.

Lemma head_of_app a b : head_of (a ++ b) = match head_of b with Some x => Some x | None => head_of a end.
Proof. induction a as [|e a IH]; simpl; [by destruct (head_of b)|]. rewrite IH. by destruct (head_of b). Qed.

(** The digest of a chained record can be read. *)
Definition hashed (e : AuditEntry) : Prop :=
  forall c, ae_chain e = Some c -> exists h, ac_hash c = hexlower_encode h /\ length h = 32%nat.

Lemma scan_line l :
  good_line l -> Forall hashed (option_list (line_entry l)) ->
  scan_back false [l] = Ok (head_of (option_list (line_entry l))).
Proof.
  intros (_ & _ & Ht) Hh. simpl. unfold line_entry, blank in *. destruct (is_empty (trim l)); [done|].
  rewrite Ht. destruct (from_json l) as [e|]; [|done]. simpl in *. apply Forall_cons_1 in Hh as [Hh _].
  unfold entry_head. destruct (ae_chain e) as [c|] eqn:Ec; [|done].
  destruct (Hh c Ec) as (h & Eh & Hl). cbn [mbind option_bind]. rewrite Eh, decode_mut_encode, hexlower_decode_encode by done. done.
Qed.

Lemma scan_lines ls :
  Forall good_line ls -> Forall hashed (omap line_entry ls) ->
  scan_back false (rev ls) = Ok (head_of (omap line_entry ls)).
Proof.
  induction 1 as [|l ls Hl _ IH]; intros Hh; [done|]. rewrite omap_cons_list in *. apply Forall_app in Hh as [H1h Hh].
  cbn [rev]. rewrite scan_back_app, IH, scan_line by done. rewrite head_of_app. by destruct (head_of (omap line_entry ls)).
Qed.

Lemma file_head c : wf_file c -> Forall hashed (entries_of c) -> last_chained_in_buffer c false = Ok (head_of (entries_of c)).
Proof.
  intros Hw Hh. pose proof (wf_utf8 c Hw) as Hu. destruct Hw as (ls & torn & -> & Hl & Ht & Hn).
  rewrite wf_entries in * by done. unfold last_chained_in_buffer. rewrite from_utf8_ok by done.
  rewrite split_encode by (try apply Ht; auto using good_lines_plain).
  destruct (String.eqb_spec torn "") as [->|Hne].
  - change (as_bytes "") with (@nil Byte.byte). rewrite app_nil_r.
    destruct ls as [|l ls _] using rev_ind; [done|]. rewrite encode_lines_ends, rev_app_distr.
    change (scan_back false (rev [""] ++ rev (ls ++ [l]))) with (scan_back false ("" :: rev (ls ++ [l]))).
    rewrite <- scan_lines by done. reflexivity.
  - rewrite plain_ends by (destruct Ht; done). rewrite removelast_last. by apply scan_lines.
Qed.

Section Heads.
Context (n : nat) (Hn : Z.of_nat n < 2 ^ 64).

Lemma chain_files_ok P d f c : dir_ok n P d -> f ∈ chain_files_oldest_first d -> d !! f = Some c -> P c.
Proof.
  intros (Hnames & Hlog & Hsib) Hf Hc. unfold chain_files_oldest_first in Hf.
  rewrite (rotated_files_present n) in Hf by done. apply elem_of_app in Hf as [Hf| ->%list_elem_of_singleton]; [|eauto].
  rewrite <- list_fmap_compose in Hf. apply list_elem_of_fmap in Hf as (i & -> & Hi).
  apply elem_of_present in Hi as [Hi _]. simpl in Hc. eauto.
Qed.

Lemma recover_files d fs rest :
  (forall f, f ∈ fs -> last_chained_record_in_file d f = Ok (head_of (file_entries d f))) ->
  recover_in d (rev fs ++ rest) =
    match head_of (mjoin (file_entries d <$> fs)) with Some x => Ok x | None => recover_in d rest end.
Proof.
  revert rest. induction fs as [|f fs IH]; intros rest Hf; [done|].
  cbn [rev]. rewrite <- app_assoc. simpl ([f] ++ rest). rewrite IH by (intros; apply Hf; by constructor).
  rewrite fmap_cons, mjoin_cons, head_of_app. destruct (head_of (mjoin _)); [done|].
  cbn [recover_in]. rewrite Hf by constructor. simpl. by destruct (head_of (file_entries d f)).
Qed.

Lemma recover_head d :
  dir_ok n wf_file d -> Forall hashed (dir_entries d) ->
  recover_chain_head d = Ok (default (genesis_prev, 0) (head_of (dir_entries d))).
Proof.
  intros Hd Hh. unfold recover_chain_head. rewrite <- (app_nil_r (rev _)), recover_files.
  { fold (dir_entries d). by destruct (head_of (dir_entries d)). }
  intros f Hf. destruct (d !! f) as [c|] eqn:Ec.
  - assert (wf_file c) as Hw by (eapply chain_files_ok; eauto).
    rewrite (window_scan d f c Ec) by by apply wf_utf8. unfold file_entries. rewrite Ec. simpl.
    apply file_head; [done|]. unfold dir_entries in Hh. rewrite Forall_forall in Hh |- *. intros e He. apply Hh.
    apply list_elem_of_join. exists (file_entries d f). unfold file_entries at 1. rewrite Ec.
    split; [done|]. by apply list_elem_of_fmap_2.
  - unfold last_chained_record_in_file, file_entries. by rewrite Ec.
Qed.
End Heads.
End Run.
