(* ===== verification/AuditLife.v ===== *)
(** * Audit log: the chain survives appends, rotations and crashes

    A run of the log is a sequence of [log] calls, under the vault's keys or
    while it is locked, of openings of the log, and of appends that a crash
    cuts after any byte.  Unless a crash cut a record inside a character or
    took nothing but its newline, the log verifies after the run, the next
    append succeeds, and the chained records are the newest of those logged. *)

From S2P Require Import Prelude Text ThirdParty CoreError AuditLog AuditVerify AuditFacts AuditFiles AuditRun.
From Stdlib Require Import ZArith Lia Strings.String Strings.Ascii Strings.Byte.
From stdpp Require Import base list option strings numbers gmap.
From S2P Require Import Text AuditLog.
Open Scope Z_scope.

Section Life.
Context `{Sha256, Hmac, HexLower, SerdeJson AuditEntry}.
Context (policy : AuditPolicy) (K : AuditKeys).

(** Keys of this vault, or none while it is locked. *)
Definition vault_keys (keys : option AuditKeys) : Prop := keys = None \/ keys = Some K.

(** The directory, the events logged so far, and the cuts: the text of the
    record a crash interrupted and how many of its bytes reached the file.  A
    crash may leave any number of them; when the newline after the record is
    there as well, the event is logged.  A rotation runs to its end. *)
Definition State : Type := Dir * list AuditEntry * list (string * nat).
Inductive audit_step : State -> State -> Prop :=
| step_log now pid event context keys d logged cuts d' :
    vault_keys keys -> log policy now pid d event context keys = Ok d' ->
    audit_step (d, logged, cuts) (d', logged ++ [entry_for now pid event context keys], cuts)
| step_open d logged cuts : audit_step (d, logged, cuts) (with_policy d, logged, cuts)
| step_crash now pid event context keys d logged cuts prev seq e m :
    vault_keys keys -> recover_chain_head d = Ok (prev, seq) ->
    chain_entry (entry_for now pid event context keys) keys prev seq = Ok e ->
    (m <= String.length (to_json e))%nat ->
    audit_step (d, logged, cuts)
      (<[AUDIT_LOG_FILE_NAME := repair_tail (default [] (d !! AUDIT_LOG_FILE_NAME)) ++ take m (as_bytes (to_json e))]> d,
       logged, (to_json e, m) :: cuts)
| step_crash_logged now pid event context keys d logged cuts prev seq e :
    vault_keys keys -> recover_chain_head d = Ok (prev, seq) ->
    chain_entry (entry_for now pid event context keys) keys prev seq = Ok e ->
    audit_step (d, logged, cuts)
      (<[AUDIT_LOG_FILE_NAME := repair_tail (default [] (d !! AUDIT_LOG_FILE_NAME)) ++
           as_bytes (to_json e +:+ String NL EmptyString)]> d,
       logged ++ [entry_for now pid event context keys], cuts).

(** A cut that leaves a text, and not the whole record. *)
Definition clean_cut (cut : string * nat) : Prop :=
  (cut.2 < String.length cut.1)%nat /\ utf8 (take cut.2 (as_bytes cut.1)) = true.

(** A log directory without chained records, such as a new one or one of an
    older release. *)
Definition legacy_dir (d : Dir) : Prop := dir_ok (max_files policy) wf_file d /\ Forall chainless (dir_entries d).

(** The digest of a logged record is the genesis digest, though what was
    hashed for it is not the genesis text. *)
Definition hits_genesis (logged : list AuditEntry) : Prop :=
  exists e sealed prev, e ∈ logged /\
    (sealed, prev ++ canonical_record_bytes e) <> (false, GENESIS_DOMAIN) /\
    link_hash (chain_key K) sealed (prev ++ canonical_record_bytes e) = sha256 GENESIS_DOMAIN.

Definition stripped (e : AuditEntry) : AuditEntry := with_chain e None.

(** The chained records of the directory are the newest of a chain [c] that
    starts at the genesis digest and holds all that was logged. *)
Record Inv (d : Dir) (logged : list AuditEntry) (legacy c : list AuditEntry) (q : bytes) (y : Z) : Prop := {
  inv_dir : dir_ok (max_files policy) wf_file d;
  inv_legacy : Forall chainless legacy;
  inv_chain : chain (chain_key K) genesis_prev 1 c q y;
  inv_logged : stripped <$> c = logged;
  inv_suffix : dir_entries d `suffix_of` (legacy ++ c);
  inv_newest : c <> [] -> dir_entries d <> [];
}.

Context `{!Sha256Laws, !HmacLaws, !HexLowerLaws, !AuditJsonLaws}.
Context (Hfiles : (1 <= max_files policy)%nat) (Hmax : Z.of_nat (max_files policy) < 2 ^ 64).

Lemma linked_hashed k p x e h : linked k p x e h -> hashed e.
Proof. intros (s & Ec & _ & _ & Hh) c E. rewrite Ec in E. injection E as <-. eauto. Qed.

Lemma chain_hashed k p x c q y : chain k p x c q y -> Forall hashed c.
Proof. induction 1; constructor; eauto using linked_hashed. Qed.

Lemma chainless_hashed e : chainless e -> hashed e.
Proof. intros E c Ec. unfold chainless in E. congruence. Qed.

Lemma head_chainless l : Forall chainless l -> head_of l = None.
Proof. induction 1 as [|e l He _ IH]; [done|]. simpl. rewrite IH. unfold entry_head. by rewrite He. Qed.

Lemma linked_head k p x e h l : linked k p x e h -> head_of (l ++ [e]) = Some (h, x).
Proof.
  intros (s & Ec & _). rewrite head_of_app. simpl. unfold entry_head. rewrite Ec. simpl.
  by rewrite hexlower_decode_encode.
Qed.

Lemma chain_end k p x c q y : length p = 32%nat -> chain k p x c q y -> length q = 32%nat.
Proof. intros Hp Hc. induction Hc as [|p x e h es q y Hl _ IH]; [done|]. apply IH. by destruct Hl as (s & _ & _ & _ & ?). Qed.

Lemma Inv_hashed d logged legacy c q y : Inv d logged legacy c q y -> Forall hashed (dir_entries d).
Proof.
  intros [_ Hl Hc _ [pre Hs] _]. assert (Forall hashed (legacy ++ c)) as Ha.
  { apply Forall_app. split; [|eauto using chain_hashed]. eapply Forall_impl; [exact Hl|]. apply chainless_hashed. }
  rewrite Hs in Ha. by apply Forall_app in Ha as [_ ?].
Qed.

(** The append finds the end of the chain. *)
Lemma Inv_head d logged legacy c q y :
  Inv d logged legacy c q y -> exists s, recover_chain_head d = Ok (q, s) /\ next_seq s = y.
Proof.
  intros Hi. rewrite (recover_head (max_files policy) Hmax d (inv_dir _ _ _ _ _ _ Hi) (Inv_hashed _ _ _ _ _ _ Hi)).
  destruct Hi as [_ Hl Hc _ [pre Hs] Hn].
  destruct c as [|e c _] using rev_ind.
  - inversion Hc; subst. rewrite app_nil_r in Hs. rewrite Hs in Hl. apply Forall_app in Hl as [_ Hl].
    rewrite head_chainless by done. by exists 0.
  - apply chain_snoc in Hc as (r & z & _ & Hlk & ->). exists z. split; [|done].
    destruct (dir_entries d) as [|f es _] using rev_ind; [by destruct c; destruct Hn|].
    rewrite !app_assoc in Hs. apply app_inj_tail in Hs as [_ <-]. by erewrite linked_head.
Qed.

(** The new record continues it. *)
Lemma chain_entry_linked entry keys q s :
  vault_keys keys -> ae_chain entry = None -> length q = 32%nat ->
  exists e h, chain_entry entry keys q s = Ok e /\ linked (chain_key K) q (next_seq s) e h /\ stripped e = entry.
Proof.
  intros Hk Hn Hq. unfold chain_entry.
  assert (exists h sealed, sealed = (match keys with Some _ => true | None => false end) /\
    chain_hash sealed (chain_key <$> keys) q (canonical_record_bytes entry) = Ok h /\
    h = link_hash (chain_key K) sealed (q ++ canonical_record_bytes entry) /\ length h = 32%nat) as (h & sl & <- & E & Eh & Hh).
  { destruct Hk as [-> | ->]; simpl; do 2 eexists; (split; [done|]); (split; [done|]); (split; [done|]);
      [apply sha256_length|apply hmac_length]. }
  rewrite E. simpl. do 2 eexists. split; [done|]. split.
  - exists sl. split; [done|]. by split.
  - unfold stripped, with_chain. destruct entry. simpl in *. by subst.
Qed.

(** [audit.log] after the repair of its tail. *)
Lemma repaired d : dir_ok (max_files policy) wf_file d ->
  exists ls, repair_tail (default [] (d !! AUDIT_LOG_FILE_NAME)) = encode_lines ls /\ Forall good_line ls /\
    omap line_entry ls = file_entries d AUDIT_LOG_FILE_NAME.
Proof.
  intros (_ & Hlog & _). unfold file_entries. destruct (d !! AUDIT_LOG_FILE_NAME) as [c|] eqn:Ec; simpl; [|by exists []].
  by apply repair_lines, Hlog.
Qed.

(** The new record is written at the end of [audit.log]. *)
Lemma written_file d e :
  dir_ok (max_files policy) wf_file d -> seq_u64 e ->
  let content := repair_tail (default [] (d !! AUDIT_LOG_FILE_NAME)) ++ as_bytes (to_json e +:+ String NL EmptyString) in
  wf_file content /\ entries_of content = file_entries d AUDIT_LOG_FILE_NAME ++ [e].
Proof.
  intros Hd Hu content.
  destruct (repaired d Hd) as (ls & El & Hl & Ee).
  destruct (record_line e Hu) as [Hg Hr].
  assert (content = encode_lines (ls ++ [to_json e]) ++ as_bytes "") as ->.
  { unfold content. rewrite El, encode_lines_app, as_bytes_app, <- app_assoc. f_equal.
    change (encode_lines [to_json e]) with ((as_bytes (to_json e) ++ [x0a]) ++ []). by rewrite !app_nil_r. }
  assert (Forall good_line (ls ++ [to_json e])) as Hg' by (apply Forall_app; split; [done|by constructor]).
  split.
  - exists (ls ++ [to_json e]), "". split; [done|]. split; [done|]. split; [apply good_empty|by left].
  - rewrite wf_entries by (done || apply good_empty || by left). rewrite omap_app, Ee. simpl. by rewrite Hr.
Qed.

(** Writing the record, and the rotation that may follow, continue the run. *)
Lemma write_inv d logged legacy c q y entry keys :
  Inv d logged legacy c q y -> vault_keys keys -> ae_chain entry = None ->
  exists s e h d1, recover_chain_head d = Ok (q, s) /\ chain_entry entry keys q s = Ok e /\
    d1 = <[AUDIT_LOG_FILE_NAME := repair_tail (default [] (d !! AUDIT_LOG_FILE_NAME)) ++
             as_bytes (to_json e +:+ String NL EmptyString)]> d /\
    Inv d1 (logged ++ [entry]) legacy (c ++ [e]) h (next_seq y) /\
    Inv (rotate policy d1) (logged ++ [entry]) legacy (c ++ [e]) h (next_seq y).
Proof.
  intros Hi Hk Hn. destruct (Inv_head _ _ _ _ _ _ Hi) as (s & Hr & Es).
  assert (length q = 32%nat) as Hq by (eapply chain_end; [|apply Hi]; apply sha256_length).
  destruct (chain_entry_linked entry keys q s Hk Hn Hq) as (e & h & Ee & Hl & Hst). rewrite Es in Hl.
  destruct Hi as [Hd Hle Hc Hlg [pre Hs] Hne].
  assert (seq_u64 e) as Hu.
  { destruct Hl as (sl & Ec & _). intros x E. rewrite Ec in E. injection E as <-. cbn. subst y.
    unfold next_seq, in_u64. pose proof (Z.mod_pos_bound (s + 1) (2 ^ 64) ltac:(lia)). lia. }
  destruct (written_file d e Hd Hu) as [Hw Hent]. set (content := repair_tail _ ++ _) in *.
  assert (dir_ok (max_files policy) wf_file (<[AUDIT_LOG_FILE_NAME := content]> d)) as Hd1 by (by apply write_ok).
  assert (dir_entries (<[AUDIT_LOG_FILE_NAME := content]> d) = dir_entries d ++ [e]) as He1.
  { rewrite (dir_entries_older (max_files policy) Hmax) by apply Hd1.
    rewrite (dir_entries_older (max_files policy) Hmax d) by apply Hd.
    rewrite (write_older (max_files policy) Hmax). unfold file_entries at 1. rewrite lookup_insert_eq. simpl.
    by rewrite Hent, app_assoc. }
  assert (forall d', dir_ok (max_files policy) wf_file d' -> (exists dropped kept, dir_entries d ++ [e] = dropped ++ kept ++ [e] /\
      dir_entries d' = kept ++ [e]) -> Inv d' (logged ++ [entry]) legacy (c ++ [e]) h (next_seq y)) as Hfin.
  { intros d' Hok (dropped & kept & Ed & Ed'). split; [done..| | | |].
    - apply chain_snoc. eauto.
    - rewrite fmap_app, Hlg. simpl. by rewrite Hst.
    - exists (pre ++ dropped). rewrite app_assoc, Hs, Ed', <- !app_assoc. by rewrite Ed.
    - intros _. rewrite Ed'. by destruct kept. }
  exists s, e, h, (<[AUDIT_LOG_FILE_NAME := content]> d). split_and!; [done..| |]; apply Hfin.
  - done.
  - by exists [], (dir_entries d).
  - apply (rotate_ok _ Hmax _ _ _ content); [done|done|apply lookup_insert_eq|done].
  - destruct (rotate_dir _ Hmax policy (<[AUDIT_LOG_FILE_NAME := content]> d) content) as (dropped & kept & E1 & E2);
      [done|done|apply lookup_insert_eq|apply Hd1|].
    exists dropped, (kept ++ file_entries d AUDIT_LOG_FILE_NAME). rewrite <- He1, E1, E2, Hent, !app_assoc. done.
Qed.

Lemma append_inv d logged legacy c q y entry keys :
  Inv d logged legacy c q y -> vault_keys keys -> ae_chain entry = None ->
  exists e h d', append_entry policy d entry keys = Ok d' /\ Inv d' (logged ++ [entry]) legacy (c ++ [e]) h (next_seq y).
Proof.
  intros Hi Hk Hn. destruct (write_inv _ _ _ _ _ _ entry keys Hi Hk Hn) as (s & e & h & d1 & Hr & Ee & -> & H1i & H2i).
  exists e, h. unfold append_entry. rewrite Hr. cbn [mbind result_bind]. rewrite Ee. cbn [mbind result_bind].
  case_match; eexists; (split; [reflexivity|done]).
Qed.

(** Rewriting [audit.log] with the same records. *)
Lemma rewrite_inv d logged legacy c q y content :
  Inv d logged legacy c q y -> wf_file content -> entries_of content = file_entries d AUDIT_LOG_FILE_NAME ->
  Inv (<[AUDIT_LOG_FILE_NAME := content]> d) logged legacy c q y.
Proof.
  intros [Hd Hle Hc Hlg Hs Hne] Hw He.
  assert (dir_ok (max_files policy) wf_file (<[AUDIT_LOG_FILE_NAME := content]> d)) as Hd1 by (by apply write_ok).
  assert (dir_entries (<[AUDIT_LOG_FILE_NAME := content]> d) = dir_entries d) as E.
  { rewrite (dir_entries_older (max_files policy) Hmax) by apply Hd1.
    rewrite (dir_entries_older (max_files policy) Hmax d) by apply Hd.
    rewrite (write_older (max_files policy) Hmax). unfold file_entries at 1. rewrite lookup_insert_eq. simpl. by rewrite He. }
  split; rewrite ?E; done.
Qed.

(** A crash that leaves a fragment leaves the records. *)
Lemma cut_inv d logged legacy c q y e m :
  Inv d logged legacy c q y -> clean_cut (to_json e, m) ->
  Inv (<[AUDIT_LOG_FILE_NAME := repair_tail (default [] (d !! AUDIT_LOG_FILE_NAME)) ++ take m (as_bytes (to_json e))]> d)
    logged legacy c q y.
Proof.
  intros Hi [Hm Hu]. destruct (cut_line e m Hm Hu) as (torn & Et & Hg & Hn). rewrite Et.
  destruct (repaired d (inv_dir _ _ _ _ _ _ Hi)) as (ls & El & Hl & Ee).
  apply rewrite_inv; [done| |]; rewrite El; [by exists ls, torn|by rewrite wf_entries].
Qed.

(** The records of a state whose cuts were clean. *)
Definition state_ok (legacy : list AuditEntry) (st : State) : Prop :=
  (exists cut, cut ∈ st.2 /\ ~ clean_cut cut) \/ exists c q y, Inv st.1.1 st.1.2 legacy c q y.

Lemma step_inv st st' legacy : state_ok legacy st -> audit_step st st' -> state_ok legacy st'.
Proof.
  intros [(cut & Hcut & Hbad)|(c & q & y & Hi)] Hst.
  { left. exists cut. split; [|done]. destruct Hst; simpl in *; try done. by right. }
  destruct Hst as [now pid ev ctx keys d lg cuts d' Hk E|d lg cuts|now pid ev ctx keys d lg cuts prev sq e m Hk _ _ Hm
    |now pid ev ctx keys d lg cuts prev sq e Hk Er Ee]; unfold state_ok; simpl in *.
  - right. destruct (append_inv _ _ _ _ _ _ (entry_for now pid ev ctx keys) keys Hi Hk eq_refl) as (e & h & d1 & E1 & Hi1).
    unfold log in E. rewrite E in E1. injection E1 as <-. eauto.
  - right. exists c, q, y. unfold with_policy, file_exists. destruct (d !! AUDIT_LOG_FILE_NAME) as [x|] eqn:Ed; [done|].
    apply rewrite_inv; [done| |unfold file_entries; rewrite Ed; done].
    exists [], "". split; [done|]. split; [done|]. split; [apply good_empty|by left].
  - destruct (decide (m < String.length (to_json e))%nat) as [Hlt|Hge].
    2: { left. exists (to_json e, m). split; [left|]. by intros [? _]. }
    destruct (utf8 (take m (as_bytes (to_json e)))) eqn:Hu.
    2: { left. exists (to_json e, m). split; [left|]. intros [_ Hu']. simpl in Hu'. congruence. }
    right. exists c, q, y. by apply cut_inv.
  - right. destruct (write_inv _ _ _ _ _ _ (entry_for now pid ev ctx keys) keys Hi Hk eq_refl) as (s & e' & h & d1 & Er' & Ee' & -> & Hi1 & _).
    rewrite Er in Er'. injection Er' as -> ->. rewrite Ee in Ee'. injection Ee' as <-. eauto.
Qed.

Lemma run_inv st st' legacy : state_ok legacy st -> rtc audit_step st st' -> state_ok legacy st'.
Proof. intros Hi Hr. induction Hr as [st|st st1 st' H1s _ IH]; [done|]. by apply IH, (step_inv st). Qed.

Lemma cuts_short st st' :
  rtc audit_step st st' -> Forall (fun cut : string * nat => (cut.2 <= String.length cut.1)%nat) st.2 ->
  Forall (fun cut : string * nat => (cut.2 <= String.length cut.1)%nat) st'.2.
Proof.
  induction 1 as [|st st1 st' H1s _ IH]; intros Hf; [done|]. apply IH. destruct H1s; simpl in *; [done..| |done]. by constructor.
Qed.

Lemma legacy_inv d : legacy_dir d -> Inv d [] (dir_entries d) [] genesis_prev 1.
Proof.
  intros [Hd Hl]. split; [done|done|constructor|done| |done]. by rewrite app_nil_r.
Qed.

(** The records of the directory: a rest of the legacy ones and the chain, or
    an end of the chain. *)
Lemma suffix_cases (legacy c t : list AuditEntry) :
  t `suffix_of` (legacy ++ c) -> (exists l, l `suffix_of` legacy /\ t = l ++ c) \/ (exists a, c = a ++ t /\ a <> []).
Proof.
  intros [pre E]. apply app_eq_app in E as [k [[-> ->]|[-> ->]]].
  - left. exists k. split; [by exists pre|done].
  - destruct k as [|e k]; [left; exists []; split; [apply suffix_nil|done]|]. right. by exists (e :: k).
Qed.

(** What is hashed for a record is not the genesis text: the record's text
    starts with a brace. *)
Lemma not_genesis (p : bytes) e : length p = 32%nat -> p ++ canonical_record_bytes e <> GENESIS_DOMAIN.
Proof.
  intros Hp E. unfold canonical_record_bytes in E. destruct (line_braces (with_chain e None)) as [s Es]. rewrite Es in E.
  apply (f_equal (fun l => l !! 32%nat)) in E. rewrite lookup_app_r, Hp in E by lia.
  change (Some (byte_of_ascii "{") = GENESIS_DOMAIN !! 32%nat) in E. by vm_compute in E.
Qed.

Lemma chain_last_digest p x a q y :
  chain (chain_key K) p x a q y -> a <> [] -> q = genesis_prev -> hits_genesis (stripped <$> a).
Proof.
  intros Hc Ha Hq. destruct a as [|e a _] using rev_ind; [done|]. apply chain_snoc in Hc as (r & z & _ & Hl & _).
  destruct Hl as (sl & Ec & Eh & Hr & _). exists (stripped e), sl, r. split; [|split].
  - rewrite fmap_app. apply elem_of_app. right. constructor.
  - intros [= _ E]. by apply not_genesis in E.
  - change (canonical_record_bytes (stripped e)) with (canonical_record_bytes e). by rewrite <- Eh, Hq.
Qed.

Lemma chained_suffix d logged legacy c q y :
  Inv d logged legacy c q y -> exists a, c = a ++ chained (dir_entries d) /\
    (verifies (chain_key K) (dir_entries d) \/ hits_genesis logged) /\ (c <> [] -> chained (dir_entries d) <> []).
Proof.
  intros Hi. destruct Hi as [Hd Hle Hc Hlg Hs Hne]. pose proof (chain_chained _ _ _ _ _ _ Hc) as Hch.
  destruct (suffix_cases _ _ _ Hs) as [(l & [pre Hl] & E)|(a & E & Ha)]; rewrite E in *.
  - assert (Forall chainless l) as Hl' by (rewrite Hl in Hle; by apply Forall_app in Hle as [_ ?]).
    exists []. rewrite chained_app, chained_legacy, chained_all by done. split; [done|]. split; [|done].
    left. exists l, c, genesis_prev, 1, q, y. done.
  - set (t := dir_entries d) in *. pose proof Hch as Hch'. apply Forall_app in Hch' as [_ Ht].
    exists a. rewrite (chained_all t Ht). split; [done|]. split; [|done].
    apply chain_app in Hc as (r & z & Hca & Hct). destruct (decide (r = genesis_prev)) as [Er|Er].
    + right. apply chain_last_digest in Hca; [|done..]. rewrite <- Hlg, fmap_app.
      destruct Hca as (e & sl & p & He & Hrest). exists e, sl, p. rewrite elem_of_app. tauto.
    + left. exists [], t, r, z, q, y. done.
Qed.

(** C16. The audit log survives: from a directory without chained records,
    after any run of logged events (sealed or locked), rotations, openings and
    crashes that cut an append after any byte, the next append succeeds; the
    chained records in the files are the newest of those logged, in order, the
    last one always among them; and the chain verifies with all of them, unless
    the digest of a logged record is the genesis digest.  Two kinds of cut are
    excepted, and do break the log: a crash that left the whole record without
    its newline ([cut_at_newline]), and one that left a part which is not text,
    cut inside a character ([broken_text_restarts], [broken_text_blocks]). *)
Theorem audit_log_survives d0 d logged cuts :
  legacy_dir d0 -> rtc audit_step (d0, [], []) (d, logged, cuts) ->
  (exists line m, (line, m) ∈ cuts /\ (m = String.length line \/ utf8 (take m (as_bytes line)) = false)) \/
  ((forall now pid event context keys, vault_keys keys -> is_ok (log policy now pid d event context keys) = true) /\
   (stripped <$> chained (dir_entries d)) `suffix_of` logged /\
   (logged <> [] -> chained (dir_entries d) <> []) /\
   ((exists r, verify_audit_chain d (Some (chain_key K)) = Ok r /\ rp_outcome r = Verified /\
       rp_chained_records r = Z.of_nat (length (chained (dir_entries d)))) \/ hits_genesis logged)).
Proof.
  intros Hl Hr.
  assert (state_ok (dir_entries d0) (d0, [], [])) as H0s by (right; do 3 eexists; exact (legacy_inv _ Hl)).
  pose proof (cuts_short _ _ Hr (Forall_nil_2 _)) as Hshort. simpl in Hshort.
  destruct (run_inv _ _ _ H0s Hr) as [([line m] & Hin & Hbad)|(c & q & y & Hi)]; simpl in *.
  { left. exists line, m. split; [done|]. rewrite Forall_forall in Hshort. specialize (Hshort _ Hin). simpl in Hshort.
    unfold clean_cut in Hbad. simpl in Hbad. destruct (utf8 _); [left|by right].
    destruct (decide (m < String.length line)%nat); [by destruct Hbad|lia]. }
  right. clear Hr H0s.
  destruct (chained_suffix _ _ _ _ _ _ Hi) as (a & Ec & Hv & Hne). pose proof (inv_logged _ _ _ _ _ _ Hi) as Hlg.
  split; [|split; [|split]].
  - intros now pid ev ctx keys Hk.
    destruct (append_inv _ _ _ _ _ _ (entry_for now pid ev ctx keys) keys Hi Hk eq_refl) as (e & h & d1 & E1 & _).
    unfold log. by rewrite E1.
  - exists (stripped <$> a). by rewrite <- fmap_app, <- Ec.
  - intros Hn. apply Hne. intros ->. by apply Hn.
  - destruct Hv as [Hv|Hv]; [left|by right]. apply verify_complete; [|done].
    intros f b Hf Hb. apply wf_utf8. eapply chain_files_ok; [exact Hmax|apply Hi|done..].
Qed.
End Life.
