(* ===== verification/AuditDemo.v ===== *)
(** * Audit log: a concrete log

    Records as text over two digits between braces, with the laws the log
    relies on; runs of the log on it, the witnesses of its theorems, and the
    runs that break a chain. *)

From S2P Require Import Prelude Text ThirdParty CoreError AuditLog AuditVerify AuditFacts AuditFiles AuditRun AuditLife.
From Stdlib Require Import ZArith Lia Strings.String Strings.Ascii Strings.Byte.
From stdpp Require Import base list option strings numbers gmap countable.
From S2P Require Import Text AuditLog.
Open Scope Z_scope.

(** ** A codec for records *)

Definition op_code (o : CustodyAuditOperation) : Z := match o with Put => 0 | Remove => 1 | Grant => 2 | Deliver => 3 end.
Definition op_of (z : Z) : CustodyAuditOperation :=
  match z with 0 => Put | 1 => Remove | 2 => Grant | _ => Deliver end.

Definition raw_event (ev : E.AuditEventType) : Z * list (option Z) * list (option string) :=
  match ev with
  | E.PersonalCustody a0 a1 => (0, [Some (op_code a0); Some (Z.b2z a1)], [])
  | E.VaultCreated => (1, [], [])
  | E.VaultUnlocked a0 => (2, [Some (Z.b2z a0)], [])
  | E.VaultLocked => (3, [], [])
  | E.MasterPasswordChanged a0 a1 a2 => (4, [Some (Z.b2z a0); Some a1; Some a2], [])
  | E.EpochHighWaterRebased a0 => (5, [Some (Z.b2z a0)], [])
  | E.SlotRegistryIntegrityRefused => (6, [], [])
  | E.RecoveryPerformed a0 a1 => (7, [Some a0; Some a1], [])
  | E.RecoverySlotCreated => (8, [], [])
  | E.SlotRevoked => (9, [], [])
  | E.V2BlobMigration => (10, [], [])
  | E.CredentialCreated a0 => (11, [Some a0], [])
  | E.CredentialViewed a0 => (12, [Some a0], [])
  | E.CredentialModified a0 => (13, [Some a0], [])
  | E.CredentialDeleted a0 => (14, [Some a0], [])
  | E.CredentialsListed a0 => (15, [Some a0], [])
  | E.ExternalSecretAccess a0 a1 a2 a3 a4 => (16, [Some (Z.b2z a4)], [a0; Some a1; a2; a3])
  | E.ExternalSecretWrite a0 a1 a2 a3 => (17, [Some (Z.b2z a3)], [a0; Some a1; a2])
  | E.AuthenticationAttempt a0 => (18, [Some (Z.b2z a0)], [])
  | E.AuthenticationFailure a0 => (19, [], [Some a0])
  | E.BruteForceDetected a0 => (20, [], [a0])
  | E.VaultAutoLocked => (21, [], [])
  | E.VaultLockedManually => (22, [], [])
  | E.DataExported a0 => (23, [], [Some a0])
  | E.DataImported a0 a1 => (24, [Some a1], [Some a0])
  | E.BackupCreated => (25, [], [])
  | E.VaultRestored a0 a1 a2 a3 => (26, [a0; Some a1; Some (Z.b2z a2); Some (Z.b2z a3)], [])
  | E.VaultRestoreRefused => (27, [], [])
  | E.RegistryEntityCreated a0 => (28, [], [Some a0])
  | E.RegistryEntityDeleted a0 => (29, [], [Some a0])
  | E.EntryAssignedToEntity a0 a1 => (30, [Some a0], [Some a1])
  | E.SecretRotated a0 => (31, [Some a0], [])
  | E.RegistryIndexRebuilt a0 => (32, [Some a0], [])
  | E.DaemonStarted => (33, [], [])
  | E.DaemonStopped => (34, [], [])
  | E.IpcServerStarted => (35, [], [])
  | E.IpcClientConnected => (36, [], [])
  | E.BiometricUnlockRequested a0 => (37, [Some (Z.b2z a0)], [])
  end.

Definition event_of (r : Z * list (option Z) * list (option string)) : option E.AuditEventType :=
  match r with
  | (0, [Some a0; Some a1], []) => Some (E.PersonalCustody (op_of a0) (a1 =? 1))
  | (1, [], []) => Some (E.VaultCreated)
  | (2, [Some a0], []) => Some (E.VaultUnlocked (a0 =? 1))
  | (3, [], []) => Some (E.VaultLocked)
  | (4, [Some a0; Some a1; Some a2], []) => Some (E.MasterPasswordChanged (a0 =? 1) a1 a2)
  | (5, [Some a0], []) => Some (E.EpochHighWaterRebased (a0 =? 1))
  | (6, [], []) => Some (E.SlotRegistryIntegrityRefused)
  | (7, [Some a0; Some a1], []) => Some (E.RecoveryPerformed a0 a1)
  | (8, [], []) => Some (E.RecoverySlotCreated)
  | (9, [], []) => Some (E.SlotRevoked)
  | (10, [], []) => Some (E.V2BlobMigration)
  | (11, [Some a0], []) => Some (E.CredentialCreated a0)
  | (12, [Some a0], []) => Some (E.CredentialViewed a0)
  | (13, [Some a0], []) => Some (E.CredentialModified a0)
  | (14, [Some a0], []) => Some (E.CredentialDeleted a0)
  | (15, [Some a0], []) => Some (E.CredentialsListed a0)
  | (16, [Some a4], [a0; Some a1; a2; a3]) => Some (E.ExternalSecretAccess a0 a1 a2 a3 (a4 =? 1))
  | (17, [Some a3], [a0; Some a1; a2]) => Some (E.ExternalSecretWrite a0 a1 a2 (a3 =? 1))
  | (18, [Some a0], []) => Some (E.AuthenticationAttempt (a0 =? 1))
  | (19, [], [Some a0]) => Some (E.AuthenticationFailure a0)
  | (20, [], [a0]) => Some (E.BruteForceDetected a0)
  | (21, [], []) => Some (E.VaultAutoLocked)
  | (22, [], []) => Some (E.VaultLockedManually)
  | (23, [], [Some a0]) => Some (E.DataExported a0)
  | (24, [Some a1], [Some a0]) => Some (E.DataImported a0 a1)
  | (25, [], []) => Some (E.BackupCreated)
  | (26, [a0; Some a1; Some a2; Some a3], []) => Some (E.VaultRestored a0 a1 (a2 =? 1) (a3 =? 1))
  | (27, [], []) => Some (E.VaultRestoreRefused)
  | (28, [], [Some a0]) => Some (E.RegistryEntityCreated a0)
  | (29, [], [Some a0]) => Some (E.RegistryEntityDeleted a0)
  | (30, [Some a0], [Some a1]) => Some (E.EntryAssignedToEntity a0 a1)
  | (31, [Some a0], []) => Some (E.SecretRotated a0)
  | (32, [Some a0], []) => Some (E.RegistryIndexRebuilt a0)
  | (33, [], []) => Some (E.DaemonStarted)
  | (34, [], []) => Some (E.DaemonStopped)
  | (35, [], []) => Some (E.IpcServerStarted)
  | (36, [], []) => Some (E.IpcClientConnected)
  | (37, [Some a0], []) => Some (E.BiometricUnlockRequested (a0 =? 1))
  | _ => None
  end.

Lemma event_of_raw ev : event_of (raw_event ev) = Some ev.
Proof.
  destruct ev; simpl; repeat match goal with b : bool |- _ => destruct b | o : CustodyAuditOperation |- _ => destruct o end; done.
Qed.

#[export] Instance op_eq_dec : EqDecision CustodyAuditOperation.
Proof. solve_decision. Defined.
#[export] Instance event_eq_dec : EqDecision E.AuditEventType.
Proof. solve_decision. Defined.
#[export] Instance chain_eq_dec : EqDecision AuditChain.
Proof. solve_decision. Defined.
#[export] Instance entry_eq_dec : EqDecision AuditEntry.
Proof. solve_decision. Defined.
#[export] Instance event_countable : Countable E.AuditEventType := inj_countable raw_event event_of event_of_raw.

Definition raw_chain (c : AuditChain) := (ac_v c, ac_seq c, ac_prev c, ac_hash c, ac_sealed c).
Definition chain_of (r : Z * Z * string * string * bool) : AuditChain :=
  let '(v, sq, p, h, sl) := r in {| ac_v := v; ac_seq := sq; ac_prev := p; ac_hash := h; ac_sealed := sl |}.
#[export] Instance chain_countable : Countable AuditChain.
Proof. refine (inj_countable' raw_chain chain_of _). by intros []. Defined.

Definition raw_entry (e : AuditEntry) :=
  (ae_timestamp e, ae_event_type e, ae_severity e, ae_context e, ae_pid e, ae_tid e, ae_chain e).
Definition entry_of (r : Z * E.AuditEventType * Z * string * option Z * option Z * option AuditChain) : AuditEntry :=
  let '(ts, ev, sv, cx, p, t, c) := r in
  {| ae_timestamp := ts; ae_event_type := ev; ae_severity := sv; ae_context := cx; ae_pid := p; ae_tid := t; ae_chain := c |}.
#[export] Instance entry_countable : Countable AuditEntry.
Proof. refine (inj_countable' raw_entry entry_of _). by intros []. Defined.

Fixpoint digits (p : positive) : string :=
  match p with
  | xH => "}"
  | xO p => String "0" (digits p)
  | xI p => String "1" (digits p)
  end.
Fixpoint undigits (s : string) : option positive :=
  match s with
  | EmptyString => None
  | String a s =>
    if Ascii.eqb a "0" then xO <$> undigits s
    else if Ascii.eqb a "1" then xI <$> undigits s
    else if Ascii.eqb a "}" && is_empty s then Some xH else None
  end.

Lemma undigits_digits p : undigits (digits p) = Some p.
Proof. induction p as [p IH|p IH|]; simpl; [by rewrite IH..|done]. Qed.

Definition seq_ok (e : AuditEntry) : bool :=
  match ae_chain e with Some c => (0 <=? ac_seq c) && (ac_seq c <? 2 ^ 64) | None => true end.

#[export] Instance audit_json : SerdeJson AuditEntry := {|
  to_json e := String "{" (digits (encode e));
  from_json s :=
    match s with
    | String a s => if Ascii.eqb a "{" then p ← undigits s; e ← decode p; if seq_ok e then Some e else None else None
    | EmptyString => None
    end;
|}.

Definition digit (a : ascii) : bool := Ascii.eqb a "0" || Ascii.eqb a "1" || Ascii.eqb a "}".

Lemma digits_chars p : all_chars digit (digits p) = true.
Proof. induction p as [p IH|p IH|]; simpl; done. Qed.

Lemma digit_plain a : digit a = true -> (32 <=? code a) = true.
Proof. revert a. apply implb_intro. by_chars. Qed.

Lemma digits_utf8 s : all_chars digit s = true -> utf8 (as_bytes s) = true.
Proof.
  induction s as [|a s IH]; [done|]. cbn [all_chars]. intros [Ha Hs]%andb_true_iff.
  change (as_bytes (String a s)) with (byte_of_ascii a :: as_bytes s). cbn [utf8].
  assert (between 0 0x7F (byte_of_ascii a) = true) as ->; [|auto]. revert a Ha. apply implb_intro. by_chars.
Qed.

Lemma digits_end p : exists s, digits p = s +:+ "}".
Proof.
  induction p as [p [s IH]|p [s IH]|]; [exists (String "1" s)|exists (String "0" s)|by exists ""]; simpl; by rewrite IH.
Qed.

Lemma undigits_cut p : forall s r, digits p = s +:+ r -> r <> "" -> undigits s = None.
Proof.
  induction p as [p IH|p IH|]; intros s r E Hr; (destruct s as [|a s]; [done|]); simpl in E; injection E as <- E; simpl.
  1,2: by rewrite (IH s r).
  destruct s; [by destruct r|done].
Qed.

#[export] Instance audit_json_laws : AuditJsonLaws.
Proof.
  split.
  - intros e Hu. cbn. rewrite undigits_digits. cbn. rewrite decode_encode. cbn.
    unfold seq_ok. destruct (ae_chain e) as [c|] eqn:Ec; [|done]. destruct (Hu c Ec) as [? ?].
    destruct ((0 <=? ac_seq c) && (ac_seq c <? 2 ^ 64)) eqn:E; [done|]. apply andb_false_iff in E as [E|E]; propify; lia.
  - intros e. cbn [to_json audit_json]. change (utf8 (x7b :: as_bytes (digits (encode e))) = true).
    cbn [utf8]. apply digits_utf8, digits_chars.
  - intros e. cbn [to_json audit_json all_chars]. change (32 <=? code "{") with true. simpl.
    eapply all_chars_impl; [apply digit_plain|apply digits_chars].
  - intros e. cbn. destruct (digits_end (encode e)) as [s ->]. by exists s.
  - intros e p r E Hr. cbn in E |- *. destruct p as [|a p]; [done|]. simpl in E. injection E as <- E. simpl.
    by rewrite (undigits_cut _ _ _ E Hr).
  - intros s e E c Ec. cbn in E. destruct s as [|a s]; [done|]. destruct (Ascii.eqb a "{"); [|done].
    destruct (undigits s); [|done]. cbn in E. destruct (decode p) as [e'|]; [|done]. cbn in E.
    destruct (seq_ok e') eqn:Hs; [|done]. injection E as ->. unfold seq_ok in Hs. rewrite Ec in Hs. propify. done.
Qed.

Import Concrete.

(** Lower-case hexadecimal that accepts only its own output. *)
#[export] Instance hexlower : HexLower := {|
  hexlower_encode := Concrete.hex;
  hexlower_decode s := b ← Concrete.unhex s; if String.eqb (Concrete.hex b) s then Some b else None;
|}.
#[export] Instance hexlower_laws : HexLowerLaws.
Proof.
  split.
  - intros b. cbn. change (Concrete.unhex (Concrete.hex b)) with (hex_decode (hex_encode b)).
    rewrite hex_decode_encode. cbn. by rewrite String.eqb_refl.
  - intros s b. cbn. destruct (Concrete.unhex s) as [x|]; [|done]. cbn.
    destruct (String.eqb_spec (Concrete.hex x) s) as [E|]; [|done]. by intros [= <-].
  - intros b. cbn. induction b as [|x b IH]; [done|]. simpl. rewrite IH. lia.
Qed.
#[export] Instance hmac_laws : HmacLaws.
Proof. intros k m. apply Concrete.checksum_length. Qed.

(** ** A run *)

Definition demo_policy : AuditPolicy := sanitized {| max_file_bytes := 0; max_files := 2 |}.
Definition demo_keys : AuditKeys := {| id_key := [x01]; chain_key := [x02] |}.
Definition tiny : AuditPolicy := {| max_file_bytes := 1; max_files := 1 |}.

(** An unlock logged while locked, then a sealed one. *)
Definition demo_log (p : AuditPolicy) (n : Z) (keys : option AuditKeys) (d : Dir) : result Abnormal Dir :=
  log p n 7 d (E.VaultUnlocked true) "u" keys.

Definition demo_dir : Dir := Eval vm_compute in
  match demo_log demo_policy 1 None (with_policy ∅) ≫= demo_log demo_policy 2 (Some demo_keys) with
  | Ok d => d | Err _ => ∅ end.

Definition demo_entries : list AuditEntry := Eval vm_compute in dir_entries demo_dir.
Definition demo_report : result Abnormal AuditVerifyReport := Eval vm_compute in verify_audit_chain demo_dir (Some [x02]).
Definition demo_file : bytes := Eval vm_compute in default [] (demo_dir !! rotated_sibling 1).

Definition the_report (r : result Abnormal AuditVerifyReport) : AuditVerifyReport :=
  match r with Ok r => r | Err _ => empty_report [] end.

Lemma demo_report_ok : verify_audit_chain demo_dir (Some [x02]) = Ok (the_report demo_report).
Proof. vm_compute. reflexivity. Qed.

Lemma tail_scan_exact_witness :
  exists d path content, d !! path = Some content /\ utf8 content = true /\
    last_chained_record_in_file d path = last_chained_in_buffer content false.
Proof.
  exists demo_dir, (rotated_sibling 1), demo_file.
  assert (demo_dir !! rotated_sibling 1 = Some demo_file) as Ed by (vm_compute; reflexivity).
  assert (utf8 demo_file = true) as Hu by (vm_compute; reflexivity).
  split; [exact Ed|]. split; [exact Hu|]. exact (tail_scan_exact demo_dir (rotated_sibling 1) demo_file Ed Hu).
Defined.

Definition entry_at (n : nat) : AuditEntry := nth n demo_entries (entry_for 0 0 E.VaultLocked "" None).

Lemma audit_tamper_evident_witness :
  chained [entry_at 0] `suffix_of` chained [entry_at 0] \/ chained [entry_at 0] `suffix_of` chained [entry_at 0] \/
  chain_collision [x02] (chained [entry_at 0]) (chained [entry_at 0]).
Proof.
  assert (dir_entries demo_dir = [entry_at 0] ++ entry_at 1 :: []) as Ee by (vm_compute; reflexivity).
  refine (audit_tamper_evident [x02] demo_dir demo_dir (the_report demo_report) (the_report demo_report)
    [entry_at 0] (entry_at 1) [] [entry_at 0] [] demo_report_ok _ demo_report_ok _ Ee Ee _).
  - vm_compute. reflexivity.
  - vm_compute. reflexivity.
  - intros E. apply (f_equal (fun o => match o with Some _ => true | None => false end)) in E. vm_compute in E. congruence.
Defined.

(** An unlock, then an append that a crash cuts after its first byte. *)
Lemma audit_log_survives_witness :
  exists d logged line, rtc (audit_step demo_policy demo_keys) (∅, [], []) (d, logged, [(line, 1%nat)]) /\ logged <> [] /\
    is_ok (log demo_policy 3 7 d (E.VaultUnlocked true) "u" (Some demo_keys)) = true /\
    (stripped <$> chained (dir_entries d)) `suffix_of` logged /\ chained (dir_entries d) <> [].
Proof.
  assert (legacy_dir demo_policy ∅) as Hl.
  { split; [|constructor]. split; [intros f z [x Hx]; done|]. split; [done|]. intros i c _ Hc. done. }
  assert (1 <= max_files demo_policy)%nat as H1f by (vm_compute; lia).
  assert (Z.of_nat (max_files demo_policy) < 2 ^ 64) as H2f by (vm_compute; reflexivity).
  destruct (audit_log_survives demo_policy demo_keys H1f H2f ∅ ∅ [] [] Hl (rtc_refl _ _)) as [(? & ? & []%not_elem_of_nil & _)|[Hok _]].
  specialize (Hok 1 7 (E.VaultUnlocked true) "u" (Some demo_keys) (or_intror eq_refl)).
  destruct (log demo_policy 1 7 ∅ (E.VaultUnlocked true) "u" (Some demo_keys)) as [d|] eqn:Ed; [|discriminate Hok].
  assert (rtc (audit_step demo_policy demo_keys) (∅, [], []) (d, [] ++ [entry_for 1 7 (E.VaultUnlocked true) "u" (Some demo_keys)], [])) as Hr.
  { apply rtc_once. apply step_log; [by right|exact Ed]. }
  destruct (audit_log_survives demo_policy demo_keys H1f H2f ∅ _ _ _ Hl Hr) as [(? & ? & []%not_elem_of_nil & _)|[Hok2 _]].
  specialize (Hok2 2 7 (E.VaultUnlocked true) "u" None (or_introl eq_refl)). unfold log, append_entry in Hok2.
  destruct (recover_chain_head d) as [[prev sq]|] eqn:Eh; [|discriminate Hok2].
  cbn [mbind result_bind] in Hok2.
  destruct (chain_entry (entry_for 2 7 (E.VaultUnlocked true) "u" None) None prev sq) as [e|] eqn:Ee; [|discriminate Hok2].
  clear Hok Hok2. destruct (line_braces e) as [s Es].
  assert (1 < String.length (to_json e))%nat as Hlen by (rewrite Es, <- as_bytes_length, !as_bytes_app, !length_app;
    change (length (as_bytes "{")) with 1%nat; change (length (as_bytes "}")) with 1%nat; lia).
  assert (utf8 (take 1 (as_bytes (to_json e))) = true) as Hu by (rewrite Es; reflexivity).
  eexists _, _, (to_json e).
  match goal with |- ?run /\ _ => assert run as Hrun end.
  { eapply rtc_r; [exact Hr|]. eapply step_crash; [by left|exact Eh|exact Ee|lia]. }
  split; [exact Hrun|]. split; [discriminate|].
  destruct (audit_log_survives demo_policy demo_keys H1f H2f ∅ _ _ _ Hl Hrun) as [(line & m & Hin & Hbad)|(Hok & Hs & Hne & _)].
  - exfalso. apply list_elem_of_singleton in Hin. apply pair_equal_spec in Hin as [-> ->].
    destruct Hbad as [Hbad|Hbad]; [rewrite <- Hbad in Hlen; destruct (Nat.lt_irrefl _ Hlen)|congruence].
  - split; [apply Hok; by right|]. split; [exact Hs|]. apply Hne. discriminate.
Defined.

(** ** Runs that break the chain *)

Definition big : AuditPolicy := AuditPolicy_default.

(** The bytes of the record that would be appended. *)
Definition next_record (n : Z) (d : Dir) : bytes :=
  match recover_chain_head d ≫= (fun h => chain_entry (entry_for n 7 E.VaultCreated "" None) None h.1 h.2) with
  | Ok e => as_bytes (to_json e) | Err _ => [] end.

Definition first_log : Dir := match log big 1 7 ∅ E.VaultCreated "" None with Ok d => d | Err _ => ∅ end.

(** A crash that loses only the newline of a record. *)
Definition cut_log : Dir :=
  <[AUDIT_LOG_FILE_NAME := default [] (first_log !! AUDIT_LOG_FILE_NAME) ++ next_record 2 first_log]> first_log.

(** The next append neither counts the record before the crash nor drops it:
    both get the number 2, and the log does not verify any more. *)
Lemma cut_at_newline :
  (d ← log big 3 7 cut_log E.VaultCreated "" None; r ← verify_audit_chain d None; Ok (rp_outcome r)) =
    Ok (Failed AUDIT_LOG_FILE_NAME 3 (Some 2) (SequenceGap 3 2)).
Proof. vm_compute. reflexivity. Qed.

(** A digest of the wrong length panics the next append. *)
Definition short_digest : AuditEntry :=
  with_chain (entry_for 1 7 E.VaultCreated "" None)
    (Some {| ac_v := 1; ac_seq := 1; ac_prev := ""; ac_hash := "00"; ac_sealed := false |}).

Lemma short_digest_panics event context keys :
  log big 2 7 {[ AUDIT_LOG_FILE_NAME := as_bytes (to_json short_digest) ++ [x0a] ]} event context keys = Err Panics.
Proof. unfold log, append_entry. replace (recover_chain_head _) with (@Err Abnormal (bytes * Z) Panics) by (vm_compute; reflexivity). done. Qed.
