(* ===== verification/ServiceGrants.v ===== *)
(** * Service grants ([daemon/service_grants.rs])

    A grant binds a service (a client id and a token) to one vault entry and a
    set of its fields.  The store of grants is one file: a JSON document in an
    envelope with an HMAC under a key derived from the vault's data key.

    The file is [None] when it does not exist; its permissions, the symbolic
    link test and the temporary file of the publication are left out.  Token
    bytes, UUIDs and the time are arguments. *)

From S2P Require Import Prelude Text ThirdParty Envelope CoreError.
From Stdlib Require Import ZArith Lia Strings.String Strings.Ascii Strings.Byte.
From stdpp Require Import base list option strings numbers gmap.
From S2P Require Import Text.
Open Scope Z_scope.

(** [hex::encode] writes two characters for a byte. *)
Class HexLength `{Sha256} : Prop := hex_encode_length : forall b, String.length (hex_encode b) = (2 * length b)%nat.

Definition PENDING_TOKEN_HASH : string := "pending-enrollment".
Definition SERVICE_TOKEN_PREFIX : string := "sps_".
Definition MAX_STORE_BYTES : Z := 1024 * 1024.
Definition STORE_DOMAIN : bytes := as_bytes "sentinelpass-service-grants-envelope-v2" ++ [x00].
Definition STORE_KEY_INFO : bytes := as_bytes "sentinelpass-service-grants-integrity-v2".

Inductive ServiceField := Username | Password | Title.
#[global] Instance ServiceField_eq_dec : EqDecision ServiceField.
Proof. solve_decision. Defined.

Definition field_as_str (f : ServiceField) : string :=
  match f with Username => "username" | Password => "password" | Title => "title" end.

Record ServiceGrant := {
  policy_version : Z;
  grant_id : Uuid;
  client_id : string;
  entry_id : Z;
  fields : list ServiceField;
  expires_at : option Z;
  revoked_at : option Z;
  created_at : Z;
  client_token_hash : string;
  required_exe_sha256 : option (list string);
  registration_key_fingerprint : option string;
}.
#[global] Instance ServiceGrant_eq_dec : EqDecision ServiceGrant.
Proof. solve_decision. Defined.

(** [ServiceGrantStore]: the map, whose [values()] the code iterates over. *)
Abbreviation ServiceGrantStore := (gmap Uuid ServiceGrant).
Definition values (s : ServiceGrantStore) : list ServiceGrant := (map_to_list s).*2.

Record AuthenticatedStore := { format_version : Z; payload : string; store_mac : string }.

(** [RawStore] and [StoreFile], the document in the payload. *)
Record RawStore := { raw_grants : list ServiceGrant }.

Definition set_token_hash (g : ServiceGrant) (h : string) : ServiceGrant :=
  {| policy_version := policy_version g; grant_id := grant_id g; client_id := client_id g; entry_id := entry_id g;
     fields := fields g; expires_at := expires_at g; revoked_at := revoked_at g; created_at := created_at g;
     client_token_hash := h; required_exe_sha256 := required_exe_sha256 g;
     registration_key_fingerprint := registration_key_fingerprint g |}.

Definition set_revoked_at (g : ServiceGrant) (at_ : Z) : ServiceGrant :=
  {| policy_version := policy_version g; grant_id := grant_id g; client_id := client_id g; entry_id := entry_id g;
     fields := fields g; expires_at := expires_at g; revoked_at := Some at_; created_at := created_at g;
     client_token_hash := client_token_hash g; required_exe_sha256 := required_exe_sha256 g;
     registration_key_fingerprint := registration_key_fingerprint g |}.

Definition lower_hex (s : string) : bool := all_chars (fun a => is_ascii_hexdigit a && negb (is_ascii_uppercase a)) s.

Section ServiceGrants.
Context `{Sha256, HexDecode, Hmac, SerdeBytes AuthenticatedStore, SerdeJson RawStore}.

(** ** The authenticated file *)

Definition from_dek (dek : bytes) : Res bytes :=
  ok_or (hkdf_expand dek STORE_KEY_INFO 32) (InvalidInput "grant key derivation failed").

Definition grants_mac (key : bytes) (p : string) : bytes := hmac_sha256 key (STORE_DOMAIN ++ as_bytes p).

Definition seal_payload (p : string) (key : bytes) : Res bytes :=
  let envelope := {| format_version := 2; payload := p; store_mac := hex_encode (grants_mac key p) |} in
  let b := to_vec envelope in
  _ ← err_if (MAX_STORE_BYTES <? Z.of_nat (length b)) (InvalidInput "grant store too large");
  Ok b.

Definition store_invalid : PasswordManagerError :=
  InvalidInput "grant store authentication failed; unsigned legacy stores require owner re-issuance".

Definition open_payload (b : bytes) (key : bytes) : Res string :=
  envelope ← ok_or (from_slice b) store_invalid;
  _ ← err_if (negb (format_version envelope =? 2) || negb (String.length (store_mac envelope) =? 64)%nat) store_invalid;
  mac ← ok_or (hex_decode (store_mac envelope)) store_invalid;
  _ ← err_if (negb (bool_decide (grants_mac key (payload envelope) = mac))) store_invalid;
  Ok (payload envelope).

(** The loop that builds the map, refusing a second grant of an id. *)
Fixpoint collect (s : ServiceGrantStore) (gs : list ServiceGrant) : Res ServiceGrantStore :=
  match gs with
  | [] => Ok s
  | g :: gs =>
    match s !! grant_id g with
    | Some _ => Err (InvalidInput "service grant store failed closed: duplicate grant id")
    | None => collect (<[grant_id g := g]> s) gs
    end
  end.

Fixpoint check_versions (gs : list ServiceGrant) : Res unit :=
  match gs with
  | [] => Ok tt
  | g :: gs =>
    if negb (policy_version g =? 1)
    then Err (InvalidInput ("service grant store failed closed: unknown policy_version " +:+ i64_display (policy_version g)))
    else check_versions gs
  end.

Definition load_from_path (file : option bytes) (key : bytes) : Res ServiceGrantStore :=
  match file with
  | None => Ok ∅
  | Some b =>
    _ ← err_if (MAX_STORE_BYTES <? Z.of_nat (length b)) (InvalidInput "invalid grant store file");
    p ← open_payload b key;
    raw ← ok_or (from_json p) (InvalidInput "service grant store failed closed (schema violation)");
    s ← collect ∅ (raw_grants raw);
    _ ← check_versions (values s);
    Ok s
  end.

(** [save_to_path_with_sync]: the file afterwards and the result; the rename
    has happened when only the sync of the directory fails. *)
Definition save_to_path (s : ServiceGrantStore) (file : option bytes) (key : bytes) (sync_parent : bool)
    : option bytes * Res unit :=
  match seal_payload (to_json {| raw_grants := values s |}) key with
  | Err e => (file, Err e)
  | Ok body =>
    (Some body,
     err_if (negb sync_parent)
       (InvalidInput "grant store published but durability unconfirmed; inspect before retrying"))
  end.

(** ** The grants *)

Definition token_digest (token : string) : string := hex_encode (sha256 (as_bytes token)).

Definition grant_matches (g : ServiceGrant) (client : string) (entry : Z) (field : ServiceField) (now : Z) : bool :=
  String.eqb (client_id g) client && (entry_id g =? entry) &&
  match revoked_at g with None => true | Some _ => false end &&
  match expires_at g with None => true | Some e => now <? e end &&
  bool_decide (field ∈ fields g) && negb (String.eqb (client_token_hash g) PENDING_TOKEN_HASH).

Definition token_matches (g : ServiceGrant) (token : string) : bool :=
  (String.length (client_token_hash g) =? length (sha256 (as_bytes token)) * 2)%nat &&
  String.eqb (token_digest token) (client_token_hash g).

Definition authorize (s : ServiceGrantStore) (client token : string) (entry : Z) (field : ServiceField) (now : Z)
    : option ServiceGrant :=
  if String.eqb token PENDING_TOKEN_HASH then None
  else
    List.find (fun g => token_matches g token)
      (List.filter (fun g => grant_matches g client entry field now) (values s)).

(** [format!("{SERVICE_TOKEN_PREFIX}{}", hex::encode(token_bytes))]. *)
Definition service_token (token_bytes : bytes) : string := SERVICE_TOKEN_PREFIX +:+ hex_encode token_bytes.

Definition mint_grant (s : ServiceGrantStore) (new_id : Uuid) (token_bytes : bytes) (now : Z) (client : string) (entry : Z)
    (fs : list ServiceField) (expires : option Z) (pins : option (list string)) (fingerprint : option string)
    : result string (ServiceGrantStore * ServiceGrant * string) :=
  _ ← err_if (match fs with [] => true | _ => false end) "a grant must name at least one field";
  _ ← match fingerprint with
      | Some f => err_if (negb (String.length f =? 40)%nat || negb (lower_hex f))
                    "registration key fingerprint must be exactly 40 lowercase hex characters (OpenPGP v4)"
      | None => Ok tt
      end;
  _ ← match pins with
      | Some pins => err_if (existsb (fun pin => negb (String.length pin =? 64)%nat || negb (lower_hex pin)) pins)
                       "executable pins must be exactly 64 lowercase hex characters (SHA-256)"
      | None => Ok tt
      end;
  let token := service_token token_bytes in
  let token_hash := match fingerprint with Some _ => PENDING_TOKEN_HASH | None => token_digest token end in
  let grant := {| policy_version := 1; grant_id := new_id; client_id := client; entry_id := entry; fields := fs;
                  expires_at := expires; revoked_at := None; created_at := now; client_token_hash := token_hash;
                  required_exe_sha256 := pins; registration_key_fingerprint := fingerprint |} in
  Ok (<[new_id := grant]> s, grant, token).

Definition required_exe_policy (g : ServiceGrant) : list string := default [] (required_exe_sha256 g).

Definition rotate_token (s : ServiceGrantStore) (id : Uuid) (token_bytes : bytes) : ServiceGrantStore * option string :=
  match s !! id with
  | Some g =>
    match revoked_at g with
    | None => let token := service_token token_bytes in
              (<[id := set_token_hash g (token_digest token)]> s, Some token)
    | Some _ => (s, None)
    end
  | None => (s, None)
  end.

Definition revoke (s : ServiceGrantStore) (id : Uuid) (now : Z) : ServiceGrantStore * bool :=
  match s !! id with
  | Some g => (<[id := set_revoked_at g now]> s, true)
  | None => (s, false)
  end.

(** ** Facts *)

Lemma elem_of_values s g : g ∈ values s <-> exists i, s !! i = Some g.
Proof.
  unfold values. rewrite list_elem_of_fmap. split.
  - intros ([i x] & -> & Hx%elem_of_map_to_list). eauto.
  - intros [i Hi]. exists (i, g). by rewrite elem_of_map_to_list.
Qed.

(** The document's grants are stored under their own id, at version 1. *)
Definition well_keyed (s : ServiceGrantStore) : Prop :=
  map_Forall (fun i g => grant_id g = i /\ policy_version g = 1) s.

Lemma check_versions_ok gs : check_versions gs = Ok tt <-> Forall (fun g => policy_version g = 1) gs.
Proof.
  induction gs as [|g gs IH]; simpl; [done|]. destruct (policy_version g =? 1) eqn:E; propify; simpl.
  - rewrite IH, Forall_cons. tauto.
  - rewrite Forall_cons. naive_solver.
Qed.

Lemma collect_keyed gs : forall s s',
  collect s gs = Ok s' -> map_Forall (fun i g => grant_id g = i) s -> map_Forall (fun i g => grant_id g = i) s'.
Proof.
  induction gs as [|g gs IH]; simpl; intros s s' E Hs; [by simplify_eq|].
  destruct (s !! grant_id g); [done|]. apply (IH _ _ E). by apply map_Forall_insert_2.
Qed.

Lemma collect_list l : forall s,
  (forall i g, (i, g) ∈ l -> grant_id g = i /\ s !! i = None) -> NoDup l.*1 ->
  collect s l.*2 = Ok (list_to_map l ∪ s).
Proof.
  induction l as [|[i g] l IH]; intros s Hl Hnd; simpl.
  - by rewrite (left_id_L ∅ (∪)).
  - apply NoDup_cons in Hnd as [Hi Hnd]. destruct (Hl i g) as [Hg Hs]; [constructor|]. rewrite Hg, Hs.
    rewrite IH; [|intros j h Hj|done].
    + f_equal. rewrite <- insert_union_l, <- insert_union_r; [done|]. by apply not_elem_of_list_to_map.
    + destruct (Hl j h) as [? ?]; [by constructor|]. split; [done|]. rewrite lookup_insert_ne; [done|].
      intros <-. apply Hi. apply list_elem_of_fmap. by exists (i, h).
Qed.

Lemma collect_values s : well_keyed s -> collect ∅ (values s) = Ok s.
Proof.
  intros Hs. unfold values. rewrite collect_list.
  - by rewrite list_to_map_to_list, (right_id_L ∅ (∪)).
  - intros i g Hg%elem_of_map_to_list. split; [by apply (Hs i g)|apply lookup_empty].
  - apply NoDup_fst_map_to_list.
Qed.

Lemma load_well_keyed file key s : load_from_path file key = Ok s -> well_keyed s.
Proof.
  destruct file as [b|]; simpl; [|intros [= <-]; apply map_Forall_empty].
  intros E. result_inv. subst.
  assert (map_Forall (fun i g => grant_id g = i) s) as Hk by (eapply collect_keyed; [eassumption|apply map_Forall_empty]).
  match goal with Hc : check_versions _ = Ok ?u |- _ => destruct u; rewrite check_versions_ok, Forall_forall in Hc; rename Hc into Hv end.
  intros i g Hi. split; [by apply Hk|]. apply Hv, elem_of_values. eauto.
Qed.

Context `{!Sha256Laws, !HexLength, !HexDecodeLaws, !SerdeBytesLaws AuthenticatedStore, !SerdeJsonLaws RawStore}.

Lemma open_seal p key b : length (grants_mac key p) = 32%nat -> seal_payload p key = Ok b -> open_payload b key = Ok p.
Proof.
  intros Hm. unfold seal_payload, open_payload. intros E. result_inv. subst. rewrite from_slice_to_vec. simpl.
  rewrite hex_encode_length, Hm. simpl. rewrite hex_decode_encode. simpl. by rewrite bool_decide_true.
Qed.

(** A save leaves the file alone, with an error, or publishes the store: what
    was published is loaded. *)
Lemma save_to_path_cases s file key sync file' r :
  (forall p, length (grants_mac key p) = 32%nat) -> well_keyed s ->
  save_to_path s file key sync = (file', r) ->
  (file' = file /\ is_ok r = false) \/ load_from_path file' key = Ok s.
Proof.
  intros Hm Hs. unfold save_to_path. destruct (seal_payload _ key) as [b|] eqn:E; [|intros [= <- <-]; by left].
  intros [= <- _]. right.
  unfold load_from_path. pose proof (open_seal _ _ _ (Hm _) E) as Ho. unfold seal_payload in E. result_inv. subst.
  match goal with Hlt : (_ <? _) = false |- _ => rewrite Hlt end. simpl. rewrite Ho. simpl.
  rewrite from_to_json. simpl. rewrite collect_values by done. simpl.
  assert (check_versions (values s) = Ok tt) as ->; [|done].
  apply check_versions_ok, Forall_forall. intros g [i Hi]%elem_of_values. by apply (Hs i g).
Qed.

(** The grant that authorizes. *)
Lemma authorize_some s client token entry field now g :
  authorize s client token entry field now = Some g ->
  (exists i, s !! i = Some g) /\ client_id g = client /\ entry_id g = entry /\ revoked_at g = None /\
  (forall e, expires_at g = Some e -> now < e) /\ field ∈ fields g /\ client_token_hash g <> PENDING_TOKEN_HASH /\
  client_token_hash g = token_digest token.
Proof.
  unfold authorize. destruct (String.eqb token PENDING_TOKEN_HASH); [done|]. intros [Hin Ht]%List.find_some.
  apply List.filter_In in Hin as [Hin Hm]. apply list_elem_of_In, elem_of_values in Hin.
  unfold grant_matches in Hm. unfold token_matches in Ht. propify.
  repeat match goal with
  | Hs : String.eqb _ _ = true |- _ => apply String.eqb_eq in Hs
  | Hs : String.eqb _ _ = false |- _ => apply String.eqb_neq in Hs
  end.
  split; [done|]. split; [done|]. split; [done|]. split; [by destruct (revoked_at g)|].
  split; [|done]. intros e Ee. rewrite Ee in *. by propify.
Qed.

Lemma token_digest_binds a b : token_digest a = token_digest b -> a = b \/ collision sha256 (as_bytes a) (as_bytes b).
Proof.
  intros E%hex_encode_inj. destruct (decide (as_bytes a = as_bytes b)) as [Ea|Hne]; [left|by right].
  apply (f_equal String.string_of_list_byte) in Ea. unfold as_bytes in Ea. by rewrite !String.string_of_list_byte_of_string in Ea.
Qed.
End ServiceGrants.
