(* ===== verification/StepUp.v ===== *)
(** * Administrative step-up ([daemon/ipc/stepup.rs])

    After the master password was verified, the daemon keeps an approval for
    one operation on one connection, for 60 seconds and one use.  [Instant]s
    count nanoseconds; random bytes are arguments. *)

From S2P Require Import Prelude Text ThirdParty.
From Stdlib Require Import ZArith Lia Strings.String Strings.Byte.
From stdpp Require Import base list option strings numbers gmap.
From S2P Require Import Text.
Open Scope Z_scope.

Definition SECOND : Z := 1000000000.
Definition STEP_UP_TTL : Z := 60 * SECOND.
Definition THROTTLE_AFTER_FAILURES : Z := 5.
Definition THROTTLE_BASE : Z := 60 * SECOND.
Definition THROTTLE_CAP : Z := 600 * SECOND.

Record PendingApproval := {
  pa_connection : Z;
  pa_commitment : bytes;
  pa_expires : Z;
  pa_consumed : bool;
}.

Definition consume (p : PendingApproval) : PendingApproval :=
  {| pa_connection := pa_connection p; pa_commitment := pa_commitment p; pa_expires := pa_expires p; pa_consumed := true |}.

Inductive StepUpDenial :=
| UnknownOrConsumed
| WrongConnection
| Expired
| CommitmentMismatch.

(** [StepUpState] and its [Inner]. *)
Record StepUpState := {
  su_hmac_key : option bytes;
  su_pending : gmap string PendingApproval;
  su_failures : Z;
  su_throttle_until : option Z;
}.

Definition new_stepup : StepUpState :=
  {| su_hmac_key := None; su_pending := ∅; su_failures := 0; su_throttle_until := None |}.

Definition set_pending (st : StepUpState) (p : gmap string PendingApproval) : StepUpState :=
  {| su_hmac_key := su_hmac_key st; su_pending := p; su_failures := su_failures st;
     su_throttle_until := su_throttle_until st |}.

Definition discard (st : StepUpState) (approval_id : string) : StepUpState :=
  set_pending st (delete approval_id (su_pending st)).

(** The key, made on first use. *)
Definition stepup_key (st : StepUpState) (fresh : bytes) : StepUpState * bytes :=
  match su_hmac_key st with
  | Some k => (st, k)
  | None => ({| su_hmac_key := Some fresh; su_pending := su_pending st; su_failures := su_failures st;
                su_throttle_until := su_throttle_until st |}, fresh)
  end.

(** A block of 64 bytes [p] with the key xored into its start. *)
Definition pad (p : Z) (key : bytes) : bytes :=
  ((fun b => byte_of_Z (Z.lxor p (Z_of_byte b))) <$> key) ++ replicate (64 - length key) (byte_of_Z p).

Section StepUp.
Context `{Sha256}.

Definition commitment (key op_bytes : bytes) : bytes :=
  sha256 (pad 0x5c key ++ sha256 (pad 0x36 key ++ op_bytes)).

Definition throttled (st : StepUpState) (now : Z) : option Z :=
  (fun until => Z.max (Z.max (until - now) 0 / SECOND) 1) <$> su_throttle_until st.

Fixpoint escalate (steps : nat) (wait : Z) : Z :=
  match steps with
  | O => wait
  | S steps => escalate steps (Z.min (wait * 2) THROTTLE_CAP)
  end.

Definition record_failure (st : StepUpState) (now : Z) : StepUpState :=
  let failures := Z.min (su_failures st + 1) (2 ^ 32 - 1) in
  {| su_hmac_key := su_hmac_key st; su_pending := su_pending st; su_failures := failures;
     su_throttle_until :=
       if THROTTLE_AFTER_FAILURES <=? failures
       then Some (now + escalate (Z.to_nat (Z.min (failures - THROTTLE_AFTER_FAILURES) 4)) THROTTLE_BASE)
       else su_throttle_until st |}.

Definition record_success (st : StepUpState) : StepUpState :=
  {| su_hmac_key := su_hmac_key st; su_pending := su_pending st; su_failures := 0; su_throttle_until := None |}.

Definition mint (st : StepUpState) (now unix : Z) (fresh_key id_bytes : bytes) (connection : Z) (op_bytes : bytes)
    : StepUpState * (string * Z) :=
  let '(st, key) := stepup_key st fresh_key in
  let id := hex_encode id_bytes in
  let live := filter (fun p : string * PendingApproval => now < pa_expires p.2) (su_pending st) in
  (set_pending st (<[id := {| pa_connection := connection; pa_commitment := commitment key op_bytes;
                              pa_expires := now + STEP_UP_TTL; pa_consumed := false |}]> live),
   (id, unix + 60)).

Definition take_if_valid (st : StepUpState) (now : Z) (fresh_key : bytes) (approval_id : string) (connection : Z)
    (op_bytes : bytes) : StepUpState * result StepUpDenial unit :=
  let '(st, key) := stepup_key st fresh_key in
  match su_pending st !! approval_id with
  | None => (st, Err UnknownOrConsumed)
  | Some p =>
    if pa_consumed p then (st, Err UnknownOrConsumed)
    else if negb (pa_connection p =? connection) then (st, Err WrongConnection)
    else
    let burnt := set_pending st (<[approval_id := consume p]> (su_pending st)) in
    if pa_expires p <=? now then (burnt, Err Expired)
    else if negb (bool_decide (commitment key op_bytes = pa_commitment p)) then (burnt, Err CommitmentMismatch)
    else (burnt, Ok tt)
  end.

(** ** The approvals of a run *)

(** What a run of the daemon did with approvals: an approval was given for an
    operation, or one was accepted. *)
Inductive Approval :=
| Minted (id : string) (connection : Z) (op_bytes : bytes) (at_ : Z)
| Accepted (id : string) (connection : Z) (op_bytes : bytes) (at_ : Z).

Definition minted_ids (h : list Approval) : list string :=
  omap (fun a => match a with Minted id _ _ _ => Some id | _ => None end) h.

(** Every pending approval was given, under the one key of the daemon; one
    that was accepted cannot be accepted again. *)
Record StepUpInv (st : StepUpState) (h : list Approval) : Prop := {
  si_given : forall id p, su_pending st !! id = Some p -> exists op at_ k,
    Minted id (pa_connection p) op at_ ∈ h /\ pa_expires p = at_ + STEP_UP_TTL /\
    su_hmac_key st = Some k /\ pa_commitment p = commitment k op;
  si_once : forall id c op at_, Accepted id c op at_ ∈ h ->
    id ∈ minted_ids h /\ (forall p, su_pending st !! id = Some p -> pa_consumed p = true);
}.

Lemma new_inv : StepUpInv new_stepup [].
Proof. split; [intros id p Hp; done|intros ???? Ha; by apply elem_of_nil in Ha]. Qed.

Lemma elem_of_minted id h : id ∈ minted_ids h <-> exists c op at_, Minted id c op at_ ∈ h.
Proof.
  unfold minted_ids. rewrite list_elem_of_omap. split.
  - intros ([i c op t|i c op t] & Hi & E); simplify_eq; eauto.
  - intros (c & op & t & Hi). by exists (Minted id c op t).
Qed.

(** A state with no approval that [st] has not, none of them less used. *)
Lemma StepUpInv_sub st st' h :
  StepUpInv st h ->
  (forall k, su_hmac_key st = Some k -> su_hmac_key st' = Some k) ->
  (forall id p', su_pending st' !! id = Some p' -> exists p, su_pending st !! id = Some p /\
     pa_connection p' = pa_connection p /\ pa_commitment p' = pa_commitment p /\ pa_expires p' = pa_expires p /\
     (pa_consumed p = true -> pa_consumed p' = true)) ->
  StepUpInv st' h.
Proof.
  intros [Hg Ho] Hk Hs. split.
  - intros id p' Hp'. destruct (Hs id p' Hp') as (p & Hp & -> & -> & -> & _).
    destruct (Hg id p Hp) as (op & t & k & Hm & He & Hkey & Hc). exists op, t, k. auto.
  - intros id c op t Ha. destruct (Ho id c op t Ha) as [Hm Hc]. split; [done|].
    intros p' Hp'. destruct (Hs id p' Hp') as (p & Hp & _ & _ & _ & Himp). eauto.
Qed.

Lemma stepup_key_spec st fresh :
  let '(st', k) := stepup_key st fresh in
  su_hmac_key st' = Some k /\ (forall k', su_hmac_key st = Some k' -> k' = k) /\ su_pending st' = su_pending st /\
  su_failures st' = su_failures st /\ su_throttle_until st' = su_throttle_until st.
Proof. unfold stepup_key. destruct (su_hmac_key st) as [k|] eqn:E; simpl; repeat split; congruence. Qed.

Lemma stepup_key_inv st fresh h : StepUpInv st h -> StepUpInv (stepup_key st fresh).1 h.
Proof.
  intros Hi. pose proof (stepup_key_spec st fresh) as Hs. destruct (stepup_key st fresh) as [st' k].
  destruct Hs as (Hk & Hsame & Hp & _). simpl. eapply StepUpInv_sub; [exact Hi| |].
  - intros k' E. by rewrite (Hsame k' E).
  - intros id p. rewrite Hp. eauto 10.
Qed.

Lemma mint_inv st h now unix fresh id_bytes c op :
  StepUpInv st h -> hex_encode id_bytes ∉ minted_ids h ->
  StepUpInv (mint st now unix fresh id_bytes c op).1 (h ++ [Minted (hex_encode id_bytes) c op now]).
Proof.
  intros Hi Hf. unfold mint. pose proof (stepup_key_spec st fresh) as Hs. pose proof (stepup_key_inv st fresh h Hi) as Hi'.
  destruct (stepup_key st fresh) as [st' k]. destruct Hs as (Hk & _). simpl in *. destruct Hi' as [Hg Ho]. split.
  - intros id p. simpl. intros [[<- <-]|[Hne [Hp _]%map_lookup_filter_Some]]%lookup_insert_Some.
    + exists op, now, k. rewrite elem_of_app, list_elem_of_singleton. simpl. auto.
    + destruct (Hg id p Hp) as (op' & t & k' & Hm & Hrest). exists op', t, k'. rewrite elem_of_app. auto.
  - intros id c' op' t Ha. apply elem_of_app in Ha as [Ha|Ha]; [|by apply list_elem_of_singleton in Ha].
    destruct (Ho id c' op' t Ha) as [Hm Hc]. unfold minted_ids in *. rewrite omap_app, elem_of_app. split; [by left|].
    intros p. simpl. intros [[<- <-]|[Hne [Hp _]%map_lookup_filter_Some]]%lookup_insert_Some; [by destruct Hf|eauto].
Qed.

Lemma burn_inv st h id p :
  StepUpInv st h -> su_pending st !! id = Some p ->
  StepUpInv (set_pending st (<[id := consume p]> (su_pending st))) h.
Proof.
  intros Hi Hp. eapply StepUpInv_sub; [exact Hi|done|]. intros i p'. simpl.
  intros [[<- <-]|[Hne Hp']]%lookup_insert_Some; eauto 10.
Qed.

(** The outcome of a use: an accepted approval was given on this connection,
    less than its lifetime ago, for this operation (up to a hash collision),
    and was not accepted before. *)
Definition commitment_collision (k a b : bytes) : Prop :=
  collision sha256 (pad 0x36 k ++ a) (pad 0x36 k ++ b) \/
  collision sha256 (pad 0x5c k ++ sha256 (pad 0x36 k ++ a)) (pad 0x5c k ++ sha256 (pad 0x36 k ++ b)).

Lemma commitment_binds k a b : commitment k a = commitment k b -> a = b \/ commitment_collision k a b.
Proof.
  intros E. unfold commitment_collision, collision. destruct (decide (a = b)) as [|Hne]; [by left|right].
  destruct (decide (sha256 (pad 0x36 k ++ a) = sha256 (pad 0x36 k ++ b))) as [E1|E1].
  - left. split; [|done]. intros E2%app_inv_head. done.
  - right. split; [|exact E]. intros E2%app_inv_head. done.
Qed.

Lemma take_inv st h now fresh id c op st' r :
  StepUpInv st h -> take_if_valid st now fresh id c op = (st', r) ->
  match r with
  | Err _ => StepUpInv st' h
  | Ok _ =>
    StepUpInv st' (h ++ [Accepted id c op now]) /\
    (exists op' at_ k, Minted id c op' at_ ∈ h /\ now < at_ + STEP_UP_TTL /\
       (op' = op \/ commitment_collision k op op')) /\
    (forall c' op' t, Accepted id c' op' t ∉ h)
  end.
Proof.
  intros Hi. unfold take_if_valid. pose proof (stepup_key_spec st fresh) as Hs. pose proof (stepup_key_inv st fresh h Hi) as Hi'.
  destruct (stepup_key st fresh) as [st1 k]. destruct Hs as (Hk & _). simpl in Hi'.
  destruct (su_pending st1 !! id) as [p|] eqn:Ep; [|intros [= <- <-]; done].
  destruct (pa_consumed p) eqn:Ec; [intros [= <- <-]; done|].
  destruct (pa_connection p =? c) eqn:Econ; simpl; [|intros [= <- <-]; done]. propify.
  destruct (pa_expires p <=? now) eqn:Ee; simpl; [intros [= <- <-]; by apply burn_inv|]. propify.
  destruct (bool_decide (commitment k op = pa_commitment p)) eqn:Eco; simpl; [|intros [= <- <-]; by apply burn_inv].
  propify. intros [= <- <-].
  pose proof (burn_inv _ _ _ _ Hi' Ep) as Hb. destruct (si_given _ _ Hi' _ _ Ep) as (op' & t & k' & Hm & Het & Hkk & Hcm).
  rewrite Hk in Hkk. injection Hkk as <-. rewrite Econ in Hm.
  assert (id ∈ minted_ids h) as Hmi by (apply elem_of_minted; eauto).
  split; [|split].
  - destruct Hb as [Hg Ho]. split.
    + intros i q Hq. destruct (Hg i q Hq) as (op2 & t2 & k2 & Hm2 & Hrest). exists op2, t2, k2. rewrite elem_of_app. auto.
    + intros i c2 op2 t2 Ha. unfold minted_ids. rewrite omap_app. simpl. rewrite app_nil_r. fold (minted_ids h).
      apply elem_of_app in Ha as [Ha|Ha]; [eauto|]. apply list_elem_of_singleton in Ha. simplify_eq. split; [done|].
      intros q. simpl. rewrite lookup_insert_eq. by intros [= <-].
  - exists op', t, k. split; [done|]. split; [lia|]. rewrite Hcm in Eco. apply commitment_binds in Eco as [->|]; auto.
  - intros c2 op2 t2 Ha. destruct (si_once _ _ Hi' _ _ _ _ Ha) as [_ Hcon]. rewrite (Hcon p Ep) in Ec. done.
Qed.

(** A set throttle is never lifted by the clock. *)
Lemma throttled_forever st now u : su_throttle_until st = Some u -> exists s, throttled st now = Some s /\ 1 <= s.
Proof. intros E. unfold throttled. rewrite E. eexists. split; [done|]. lia. Qed.
End StepUp.
