(* ===== verification/ServiceAccess.v ===== *)
(** * Service access at the daemon ([daemon/ipc/server.rs], [daemon/enrollment.rs],
      [daemon/exe_policy.rs])

    The requests that let a service read a secret: the owner's step-up, the
    creation and revocation of grants, enrollment with an OpenPGP key, and the
    retrieval.  A handler takes the daemon's state and returns the new state,
    the audit events it logs and the reply.

    The vault is what the handlers use of it ([Vault]); other operations reach
    the application service and are one reply here.  A retrieval and an
    enrollment wait for other tasks: a retrieval is given the vault it finds
    after the wait, and an enrollment is two handlers, before and after the
    signature was checked. *)

From S2P Require Import Prelude Text ThirdParty Envelope CoreError AuditLog ServiceGrants StepUp.
From Stdlib Require Import ZArith Lia Strings.String Strings.Ascii Strings.Byte.
From stdpp Require Import base list option strings numbers gmap.
From S2P Require Import Text ServiceGrants.
Open Scope Z_scope.

(** ** Programs and crates the handlers call *)

(** [gpg]: whether the key imports into the isolated keyring, and the status
    output of a verification that succeeds. *)
Class Gpg := {
  gpg_import : string -> bool;
  gpg_verify : string -> bytes -> string -> option string;   (* key, transcript, signature *)
}.

(** [chrono::DateTime::from_timestamp] of whole seconds, in nanoseconds. *)
Class ChronoTime := { from_timestamp : Z -> option Z }.

(** The digest of a process's executable, from [/proc]. *)
Class ProcExe := { resolve_exe_digest : Z -> option string }.

(** ** Enrollment ([enrollment.rs]) *)

Definition ENROLLMENT_TTL : Z := 300 * SECOND.
Definition DOMAIN_SEPARATOR : string := "sentinelpass/service-enrollment/v1".

Record EnrollmentChallenge := {
  ch_nonce : string;
  ch_client_id : string;
  ch_grant_id : Uuid;
  ch_transcript : bytes;
  ch_expires : Z;
}.

(** The transcript, a JSON document. *)
Record Transcript := {
  tr_client_id : string;
  tr_entry_id : Z;
  tr_grant_id : string;
  tr_exe_policy_sha256 : option string;
  tr_expires_at : option Z;
  tr_fields : list string;
  tr_nonce : string;
  tr_protocol : string;
  tr_fingerprint : string;
}.

Definition take_challenge (chs : gmap string EnrollmentChallenge) (now : Z) (nonce : string)
    : gmap string EnrollmentChallenge * option EnrollmentChallenge :=
  match chs !! nonce with
  | None => (chs, None)
  | Some c => (delete nonce chs, if ch_expires c <=? now then None else Some c)
  end.

(** [str::split_whitespace]. *)
Fixpoint split_ws (fuel : nat) (word b : bytes) : list bytes :=
  let flush := match word with [] => [] | _ => [reverse word] end in
  match fuel with
  | O => flush
  | S fuel =>
    match List.find (fun w => starts_with w b) whitespace with
    | Some w => flush ++ split_ws fuel [] (drop (length w) b)
    | None => match b with
              | [] => flush
              | x :: b => split_ws fuel (x :: word) b
              end
    end
  end.
Definition split_whitespace (s : string) : list string :=
  String.string_of_list_byte <$> split_ws (S (length (as_bytes s))) [] (as_bytes s).

Fixpoint read_status (ls : list string) (expected_fingerprint : string) : result string unit :=
  match ls with
  | [] => Err "gpg did not report a valid signature status"
  | line :: ls =>
    let bad :=
      if String.prefix "[GNUPG:] BADSIG" line then Err "signature does not match the transcript"
      else if String.prefix "[GNUPG:] ERRSIG" line then Err "signature verification error"
      else if String.prefix "[GNUPG:] NO_PUBKEY" line then Err "client public key not available in isolated keyring"
      else read_status ls expected_fingerprint in
    if String.prefix "[GNUPG:] VALIDSIG " line then
      match split_whitespace line with
      | _ :: _ :: fingerprint :: _ =>
        if eq_ignore_ascii_case fingerprint expected_fingerprint then Ok tt
        else Err "signing key fingerprint mismatch"
      | _ => bad
      end
    else bad
  end.

(** ** Executable policy ([exe_policy.rs]) *)

Inductive ExePolicyResult := NotRequired | Matched | Mismatch | EvidenceUnavailable.

(** ** Requests and replies *)

(** The operations the service of the vault answers, by name. *)
Module K.
Inductive OpKind :=
  | VaultCreate | VaultStatus | EntryAdd | EntryGet | EntryList | EntryUpdate | EntryDelete | TotpAdd | TotpCode
  | TotpMetadata | TotpRemove | SshKeyAdd | SshKeyList | SshKeyGet | SshKeyDelete | RegistryOverview
  | RegistrySweep | EntityList | EntityAdd | EntityDelete | EntryAssign | EntryUnassign | EntryMarkRotated
  | EntrySetExpiresAt | HealthReport | AuditVerify | BiometricStatusGet | BiometricEnable | BiometricDisable
  | ExportAll | ImportEntries | SyncInit | SyncDisable | SyncDeviceList | SyncDeviceRevoke | SyncStatus | SyncNow
  | SyncDeadLetterList | SyncMigrateClaim | SyncMigrateAuthoritative | SyncConflictList | SyncConflictResolve
  | SyncDeadLetterPurge | SyncPairStart | SyncPairJoin.
End K.

(** [VaultOp]: the operations of service access in full, the others by their
    name and their document. *)
Inductive VaultOp :=
| ServiceGetSecret (client_id : string) (entry_id : Z) (field token : string)
| ServiceGrantCreate (client_id : string) (entry_id : Z) (fields : list string) (expires_at : option Z)
    (required_exe_sha256 : option (list string)) (registration_key_fingerprint : option string)
| ServiceGrantRevoke (grant_id : string)
| ServiceEnrollmentBegin (client_id : string)
| ServiceEnrollmentComplete (client_id nonce signature_armored client_public_key : string)
| OtherOp (kind : K.OpKind) (document : bytes).

Definition kind_requires_step_up (k : K.OpKind) : bool :=
  match k with
  | K.EntryAdd | K.EntryUpdate | K.EntryDelete | K.TotpAdd | K.TotpRemove | K.SshKeyAdd | K.SshKeyDelete
  | K.RegistrySweep | K.EntityAdd | K.EntityDelete | K.EntryAssign | K.EntryUnassign | K.EntryMarkRotated
  | K.EntrySetExpiresAt | K.BiometricEnable | K.BiometricDisable | K.ExportAll | K.ImportEntries | K.SyncInit
  | K.SyncDisable | K.SyncDeviceRevoke | K.SyncNow | K.SyncMigrateClaim | K.SyncMigrateAuthoritative
  | K.SyncConflictResolve | K.SyncDeadLetterPurge | K.SyncPairStart | K.SyncPairJoin => true
  | K.VaultCreate | K.VaultStatus | K.EntryGet | K.EntryList | K.TotpCode | K.TotpMetadata | K.SshKeyList
  | K.SshKeyGet | K.RegistryOverview | K.EntityList | K.HealthReport | K.AuditVerify | K.BiometricStatusGet
  | K.SyncDeviceList | K.SyncStatus | K.SyncDeadLetterList | K.SyncConflictList => false
  end.

Definition requires_admin_step_up (op : VaultOp) : bool :=
  match op with
  | ServiceGrantCreate _ _ _ _ _ _ | ServiceGrantRevoke _ | ServiceEnrollmentBegin _ => true
  | ServiceGetSecret _ _ _ _ | ServiceEnrollmentComplete _ _ _ _ => false
  | OtherOp kind _ => kind_requires_step_up kind
  end.

Definition grant_admin (op : VaultOp) : bool :=
  match op with
  | ServiceGrantCreate _ _ _ _ _ _ | ServiceGrantRevoke _ | ServiceEnrollmentBegin _ => true
  | _ => false
  end.

Inductive Reply :=
| Report (status : string) (value : option string)
| PendingEnrollment (grant_id : Uuid)
| Created (grant_id : Uuid) (client_token : string)
| Challenge (nonce : string) (transcript : bytes)
| Enrolled (grant_id : Uuid) (client_token : string)
| StepUpRequired (denial : option StepUpDenial)
| StepUpReceipt (approval_id : string) (expires_at_unix : Z)
| StepUpDenied (retry_after_secs : option Z)
| Waiting
| Dispatched.

(** What the handlers use of an unlocked vault: the data key, and the user
    name, password and title of an entry. *)
Record Vault := { v_dek : bytes; v_get_entry : Z -> Res (string * string * string) }.

(** An enrollment whose signature is being checked. *)
Record Verification := {
  vf_challenge : EnrollmentChallenge;
  vf_client : string;
  vf_key : string;
  vf_signature : string;
  vf_fingerprint : string;
}.

Record Daemon := {
  dm_stepup : StepUpState;
  dm_file : option bytes;
  dm_challenges : gmap string EnrollmentChallenge;
  dm_vault : option Vault;
  dm_verifying : list Verification;
}.

Definition set_stepup (d : Daemon) (s : StepUpState) : Daemon :=
  {| dm_stepup := s; dm_file := dm_file d; dm_challenges := dm_challenges d; dm_vault := dm_vault d;
     dm_verifying := dm_verifying d |}.
Definition set_file (d : Daemon) (f : option bytes) : Daemon :=
  {| dm_stepup := dm_stepup d; dm_file := f; dm_challenges := dm_challenges d; dm_vault := dm_vault d;
     dm_verifying := dm_verifying d |}.
Definition set_challenges (d : Daemon) (c : gmap string EnrollmentChallenge) : Daemon :=
  {| dm_stepup := dm_stepup d; dm_file := dm_file d; dm_challenges := c; dm_vault := dm_vault d;
     dm_verifying := dm_verifying d |}.
Definition set_vault (d : Daemon) (v : option Vault) : Daemon :=
  {| dm_stepup := dm_stepup d; dm_file := dm_file d; dm_challenges := dm_challenges d; dm_vault := v;
     dm_verifying := dm_verifying d |}.
Definition set_verifying (d : Daemon) (l : list Verification) : Daemon :=
  {| dm_stepup := dm_stepup d; dm_file := dm_file d; dm_challenges := dm_challenges d; dm_vault := dm_vault d;
     dm_verifying := l |}.

(** The sources of a request: clocks, random bytes, whether the directory
    sync succeeds, and the process of the peer. *)
Record Env := {
  en_now : Z;            (* Instant *)
  en_utc : Z;            (* DateTime<Utc>, nanoseconds *)
  en_id : Uuid;
  en_bytes : bytes;
  en_key : bytes;
  en_sync : bool;
  en_connection : Z;
  en_pid : option Z;
}.

Abbreviation Out := (Daemon * list E.AuditEventType * Reply)%type.

Definition parse_field (f : string) : option ServiceField :=
  if String.eqb f "username" then Some Username
  else if String.eqb f "password" then Some Password
  else if String.eqb f "title" then Some Title
  else None.

Fixpoint parse_fields (fs : list string) : option (list ServiceField) :=
  match fs with
  | [] => Some []
  | f :: fs => x ← parse_field f; xs ← parse_fields fs; Some (x :: xs)
  end.

Definition access_event (client : string) (entry : Z) (field : ServiceField) (purpose : string) : E.AuditEventType :=
  E.ExternalSecretAccess (Some client) ("entry:" +:+ i64_display entry) (Some (field_as_str field)) (Some purpose) false.

Definition enrollment_event (client purpose : string) (success : bool) : E.AuditEventType :=
  E.ExternalSecretAccess (Some client) "enrollment" None (Some purpose) success.

Section ServiceAccess.
Context `{Sha256, HexDecode, Hmac, UuidText, SerdeBytes AuthenticatedStore, SerdeJson RawStore, SerdeBytes VaultOp,
          SerdeBytes Transcript, Gpg, ChronoTime, ProcExe}.

Definition check_policy (pins : list string) (pid : option Z) : ExePolicyResult :=
  match pins with
  | [] => NotRequired
  | _ =>
    match pid with
    | None => EvidenceUnavailable
    | Some pid =>
      match resolve_exe_digest pid with
      | Some digest =>
        if existsb (fun pin => (String.length pin =? String.length digest)%nat && String.eqb pin digest) pins
        then Matched else Mismatch
      | None => EvidenceUnavailable
      end
    end
  end.

Definition verify_signature (client_public_key : string) (transcript : bytes) (signature expected_fingerprint : string)
    : result string unit :=
  if negb (gpg_import client_public_key) then Err "cannot import client public key"
  else
    match gpg_verify client_public_key transcript signature with
    | None => Err "gpg verification failed"
    | Some status => read_status (lines status) expected_fingerprint
    end.

Definition service_grant_store_key (d : Daemon) : option bytes :=
  v ← dm_vault d; match from_dek (v_dek v) with Ok k => Some k | Err _ => None end.

(** [service_get_secret]; [after] is the vault found after the executable was
    checked. *)
Definition service_get_secret (d : Daemon) (en : Env) (after : option Vault) (client : string) (entry : Z)
    (field token : string) : list E.AuditEventType * Reply :=
  match service_grant_store_key d with
  | None => ([], Report "locked" None)
  | Some key =>
    match parse_field field with
    | None => ([], Report "denied" None)
    | Some field =>
      match load_from_path (dm_file d) key with
      | Err _ => ([access_event client entry field "service_get:grant_store_rejected"], Report "denied" None)
      | Ok store =>
        match authorize store client token entry field (en_utc en) with
        | None => ([access_event client entry field "service_get:denied"], Report "denied" None)
        | Some grant =>
          match check_policy (required_exe_policy grant) (en_pid en) with
          | Mismatch => ([access_event client entry field "service_get:exe_mismatch"], Report "denied" None)
          | EvidenceUnavailable =>
            ([access_event client entry field "service_get:exe_unavailable"], Report "denied" None)
          | NotRequired | Matched =>
            ([E.CredentialViewed entry],
             match after with
             | None => Report "locked" None
             | Some v =>
               match v_get_entry v entry with
               | Ok (username, password, title) =>
                 Report "authorized"
                   (Some (match field with Username => username | Password => password | Title => title end))
               | Err (NotFound _) => Report "not_found" None
               | Err _ => Report "denied" None
               end
             end)
          end
        end
      end
    end
  end.

Definition service_grant_create (d : Daemon) (en : Env) (client : string) (entry : Z) (fields : list string)
    (expires : option Z) (pins : option (list string)) (fingerprint : option string) : Out :=
  match service_grant_store_key d with
  | None => (d, [], Report "locked" None)
  | Some key =>
    match parse_fields fields with
    | None | Some [] => (d, [], Report "denied" None)
    | Some fs =>
      let expiry := expires ≫= from_timestamp in
      if match expires, expiry with Some _, None => true | _, _ => false end then (d, [], Report "denied" None)
      else
      match load_from_path (dm_file d) key with
      | Err _ => (d, [], Report "denied" None)
      | Ok store =>
        match mint_grant store (en_id en) (en_bytes en) (en_utc en) client entry fs expiry pins fingerprint with
        | Err _ => (d, [], Report "denied" None)
        | Ok (store, grant, token) =>
          let '(file, saved) := save_to_path store (dm_file d) key (en_sync en) in
          let d := set_file d file in
          match saved with
          | Err _ => (d, [], Report "store_error" None)
          | Ok _ =>
            (d, [E.CredentialModified entry],
             match registration_key_fingerprint grant with
             | Some _ => PendingEnrollment (grant_id grant)
             | None => Created (grant_id grant) token
             end)
          end
        end
      end
    end
  end.

Definition service_grant_revoke (d : Daemon) (en : Env) (grant_id_str : string) : Out :=
  match service_grant_store_key d with
  | None => (d, [], Report "locked" None)
  | Some key =>
    match uuid_parse_str grant_id_str with
    | None => (d, [], Report "denied" None)
    | Some id =>
      match load_from_path (dm_file d) key with
      | Err _ => (d, [], Report "denied" None)
      | Ok store =>
        let '(store, found) := revoke store id (en_utc en) in
        if negb found then (d, [], Report "not_found" None)
        else
          let '(file, saved) := save_to_path store (dm_file d) key (en_sync en) in
          let d := set_file d file in
          match saved with
          | Ok _ => (d, [E.CredentialModified 0], Report "revoked" None)
          | Err _ => (d, [], Report "store_error" None)
          end
      end
    end
  end.

(** [EnrollmentState::begin]. *)
Definition begin_challenge (chs : gmap string EnrollmentChallenge) (en : Env) (client : string) (grant : ServiceGrant)
    : gmap string EnrollmentChallenge * (string * bytes) :=
  let nonce := hex_encode (en_bytes en) in
  let transcript := to_vec {|
    tr_client_id := client; tr_entry_id := entry_id grant; tr_grant_id := uuid_to_string (grant_id grant);
    tr_exe_policy_sha256 := String.concat "," <$> required_exe_sha256 grant;
    tr_expires_at := (fun e => e / SECOND) <$> expires_at grant; tr_fields := field_as_str <$> fields grant;
    tr_nonce := nonce; tr_protocol := DOMAIN_SEPARATOR;
    tr_fingerprint := default "" (registration_key_fingerprint grant) |} in
  let live := filter (fun c : string * EnrollmentChallenge => en_now en < ch_expires c.2) chs in
  (<[nonce := {| ch_nonce := nonce; ch_client_id := client; ch_grant_id := grant_id grant; ch_transcript := transcript;
                 ch_expires := en_now en + ENROLLMENT_TTL |}]> live,
   (nonce, transcript)).

Definition service_enrollment_begin (d : Daemon) (en : Env) (client : string) : Out :=
  match service_grant_store_key d with
  | None => (d, [], Report "locked" None)
  | Some key =>
    match load_from_path (dm_file d) key with
    | Err _ => (d, [enrollment_event client "enrollment:begin_store_unavailable" false], Report "denied" None)
    | Ok store =>
      match List.find (fun g => String.eqb (client_id g) client &&
                          match revoked_at g with None => true | Some _ => false end &&
                          match registration_key_fingerprint g with Some _ => true | None => false end) (values store) with
      | None => (d, [enrollment_event client "enrollment:begin_no_pending_grant" false], Report "denied" None)
      | Some grant =>
        let '(chs, (nonce, transcript)) := begin_challenge (dm_challenges d) en client grant in
        (set_challenges d chs, [enrollment_event client "enrollment:challenge_minted" true], Challenge nonce transcript)
      end
    end
  end.

(** [service_enrollment_complete], up to the wait for [gpg] ... *)
Definition service_enrollment_complete (d : Daemon) (en : Env) (client nonce signature key_text : string) : Out :=
  let '(chs, taken) := take_challenge (dm_challenges d) (en_now en) nonce in
  let d := set_challenges d chs in
  match taken with
  | None => (d, [], Report "denied" None)
  | Some challenge =>
    if negb (String.eqb (ch_client_id challenge) client) then (d, [], Report "denied" None)
    else
    match service_grant_store_key d with
    | None => (d, [], Report "locked" None)
    | Some key =>
      match load_from_path (dm_file d) key with
      | Err _ => (d, [], Report "denied" None)
      | Ok store =>
        match store !! ch_grant_id challenge with
        | None => (d, [], Report "not_found" None)
        | Some grant =>
          let v := {| vf_challenge := challenge; vf_client := client; vf_key := key_text; vf_signature := signature;
                      vf_fingerprint := default "" (registration_key_fingerprint grant) |} in
          (set_verifying d (dm_verifying d ++ [v]), [], Waiting)
        end
      end
    end
  end.

(** ... and after it. *)
Definition enrollment_verified (d : Daemon) (en : Env) (v : Verification) : Out :=
  let challenge := vf_challenge v in
  match verify_signature (vf_key v) (ch_transcript challenge) (vf_signature v) (vf_fingerprint v) with
  | Err _ => (d, [enrollment_event (vf_client v) "enrollment:verification_failed" false], Report "denied" None)
  | Ok _ =>
    match service_grant_store_key d with
    | None => (d, [], Report "locked" None)
    | Some key =>
      match load_from_path (dm_file d) key with
      | Err _ => (d, [], Report "denied" None)
      | Ok store =>
        match store !! ch_grant_id challenge with
        | None => (d, [], Report "not_found" None)
        | Some grant =>
          match revoked_at grant with
          | Some _ =>
            (d, [enrollment_event (vf_client v) "enrollment:revoked_during_verify" false], Report "denied" None)
          | None =>
            match rotate_token store (ch_grant_id challenge) (en_bytes en) with
            | (_, None) => (d, [], Report "not_found" None)
            | (store, Some token) =>
              let '(file, saved) := save_to_path store (dm_file d) key (en_sync en) in
              let d := set_file d file in
              match saved with
              | Err _ => (d, [], Report "store_error" None)
              | Ok _ =>
                (d, [E.CredentialModified (match store !! ch_grant_id challenge with Some g => entry_id g | None => 0 end)],
                 Enrolled (ch_grant_id challenge) token)
              end
            end
          end
        end
      end
    end
  end.

(** [dispatch_service_call]. *)
Definition dispatch_service_call (d : Daemon) (en : Env) (after : option Vault) (op : VaultOp) : Out :=
  match op with
  | ServiceGetSecret client entry field token =>
    let '(audit, reply) := service_get_secret d en after client entry field token in (d, audit, reply)
  | ServiceGrantCreate client entry fields expires pins fingerprint =>
    service_grant_create d en client entry fields expires pins fingerprint
  | ServiceGrantRevoke id => service_grant_revoke d en id
  | ServiceEnrollmentBegin client => service_enrollment_begin d en client
  | ServiceEnrollmentComplete client nonce signature key => service_enrollment_complete d en client nonce signature key
  | OtherOp _ _ => (d, [], Dispatched)
  end.

(** [IpcMessage::ServiceCall]. *)
Definition service_call (d : Daemon) (en : Env) (require_stepup : bool) (after : option Vault) (op : VaultOp)
    (stepup_approval : option string) : Out :=
  if grant_admin op || (require_stepup && requires_admin_step_up op) then
    match stepup_approval with
    | None => (d, [], StepUpRequired None)
    | Some approval =>
      let '(st, r) := take_if_valid (dm_stepup d) (en_now en) (en_key en) approval (en_connection en) (to_vec op) in
      let d := set_stepup d st in
      match r with
      | Err denial => (d, [], StepUpRequired (Some denial))
      | Ok _ => dispatch_service_call d en after op
      end
    end
  else dispatch_service_call d en after op.

(** [IpcMessage::StepUpAuthorize]; [opened] is whether [VaultManager::open]
    succeeds with the password. *)
Definition step_up_authorize (d : Daemon) (en : Env) (unix : Z) (maintenance opened : bool) (op : VaultOp) : Daemon * Reply :=
  match throttled (dm_stepup d) (en_now en) with
  | Some retry_after => (d, StepUpDenied (Some retry_after))
  | None =>
    if maintenance then (d, StepUpDenied None)
    else match dm_vault d with
    | None => (d, StepUpDenied None)
    | Some _ =>
      if opened then
        let '(st, (id, expires)) :=
          mint (record_success (dm_stepup d)) (en_now en) unix (en_key en) (en_bytes en) (en_connection en) (to_vec op) in
        (set_stepup d st, StepUpReceipt id expires)
      else
        let st := record_failure (dm_stepup d) (en_now en) in
        (set_stepup d st, StepUpDenied (throttled st (en_now en)))
    end
  end.
End ServiceAccess.
