(* ===== verification/ServiceFacts.v ===== *)
(** * Service access: a secret leaves the daemon only with the owner's consent

    A run of the daemon locks and unlocks the vault, verifies passwords for
    step-up, serves calls and finishes enrollments, in any order.  Its trace
    keeps what happened; the grants in the file are always the ones the trace
    explains ([Good]). *)

From S2P Require Import Prelude Text ThirdParty Envelope CoreError AuditLog AuditFacts ServiceGrants StepUp ServiceAccess.
From Stdlib Require Import ZArith Lia Strings.String Strings.Ascii Strings.Byte.
From stdpp Require Import base list option strings numbers gmap.
From S2P Require Import Text ServiceGrants.
Open Scope Z_scope.

(** What happened. *)
Inductive Ev :=
| EvMinted (password id : string) (connection : Z) (op_bytes : bytes) (at_ : Z)
| EvAccepted (id : string) (connection : Z) (op_bytes : bytes) (at_ : Z)
| EvCreate (op : VaultOp) (grant : Uuid) (token_bytes : bytes)
| EvToken (v : Verification) (token_bytes : bytes)
| EvRevoked (grant : Uuid).

Definition approval_of (e : Ev) : option Approval :=
  match e with
  | EvMinted _ id c op t => Some (Minted id c op t)
  | EvAccepted id c op t => Some (Accepted id c op t)
  | _ => None
  end.
Definition approvals (h : list Ev) : list Approval := omap approval_of h.

Definition accepted_ids (h : list Ev) : list string :=
  omap (fun a => match a with Accepted id _ _ _ => Some id | _ => None end) (approvals h).

Definition created_ids (h : list Ev) : list Uuid :=
  omap (fun e => match e with EvCreate _ g _ => Some g | _ => None end) h.

Section ServiceFacts.
Context `{Sha256, HexDecode, Hmac, UuidText, SerdeBytes AuthenticatedStore, SerdeJson RawStore, SerdeBytes VaultOp,
          SerdeBytes Transcript, Gpg, ChronoTime, ProcExe}.
(** The vault's data key, the passwords that open it, the daemon's profile. *)
Context (DEK key : bytes) (opens : string -> bool) (require_stepup : bool).

(** The part of a call after the gate. *)
Definition gated (op : VaultOp) : bool := grant_admin op || (require_stepup && requires_admin_step_up op).

Definition gate (d : Daemon) (en : Env) (op : VaultOp) (approval : option string) : option (Daemon * list Ev) :=
  if gated op then
    match approval with
    | None => None
    | Some id =>
      match take_if_valid (dm_stepup d) (en_now en) (en_key en) id (en_connection en) (to_vec op) with
      | (st, Ok _) => Some (set_stepup d st, [EvAccepted id (en_connection en) (to_vec op) (en_now en)])
      | (_, Err _) => None
      end
    end
  else Some (d, []).

Definition op_events (en : Env) (op : VaultOp) (r : Reply) : list Ev :=
  match op, r with
  | ServiceGrantCreate _ _ _ _ _ _, _ => [EvCreate op (en_id en) (en_bytes en)]
  | ServiceGrantRevoke id, Report "revoked" _ =>
    match uuid_parse_str id with Some g => [EvRevoked g] | None => [] end
  | _, _ => []
  end.

Definition call_events (d : Daemon) (en : Env) (op : VaultOp) (approval : option string) (r : Reply) : list Ev :=
  match gate d en op approval with
  | Some (_, ev) => ev ++ op_events en op r
  | None => []
  end.

Inductive daemon_step : Daemon * list Ev -> Daemon * list Ev -> Prop :=
| s_unlock d h v : v_dek v = DEK -> daemon_step (d, h) (set_vault d (Some v), h)
| s_lock d h : daemon_step (d, h) (set_vault d None, h)
| s_discard d h id : daemon_step (d, h) (set_stepup d (discard (dm_stepup d) id), h)
| s_authorize d h en unix maintenance pw op d' r :
    hex_encode (en_bytes en) ∉ minted_ids (approvals h) ->
    step_up_authorize d en unix maintenance (opens pw) op = (d', r) ->
    daemon_step (d, h) (d', h ++ match r with
                                 | StepUpReceipt id _ => [EvMinted pw id (en_connection en) (to_vec op) (en_now en)]
                                 | _ => [] end)
| s_call d h en after op approval d' audit r :
    en_id en ∉ created_ids h ->
    service_call d en require_stepup after op approval = (d', audit, r) ->
    daemon_step (d, h) (d', h ++ call_events d en op approval r)
| s_verified d h en v a b d' audit r :
    dm_verifying d = a ++ v :: b ->
    enrollment_verified (set_verifying d (a ++ b)) en v = (d', audit, r) ->
    daemon_step (d, h)
      (d', h ++ match verify_signature (vf_key v) (ch_transcript (vf_challenge v)) (vf_signature v) (vf_fingerprint v) with
                | Ok _ => [EvToken v (en_bytes en)]
                | Err _ => [] end).

Definition daemon_start : Daemon :=
  {| dm_stepup := new_stepup; dm_file := None; dm_challenges := ∅; dm_vault := None; dm_verifying := [] |}.

(** The owner consented to an operation: an approval given to a password that
    opens the vault, for this operation, was accepted. *)
Definition consented (h : list Ev) (op : VaultOp) : Prop :=
  exists pw id c at_ op' at' k, EvAccepted id c (to_vec op) at_ ∈ h /\ EvMinted pw id c op' at' ∈ h /\ opens pw = true /\
    at_ < at' + STEP_UP_TTL /\ (op' = to_vec op \/ commitment_collision k (to_vec op) op').

(** A grant that the trace explains. *)
Definition explained (h : list Ev) (gid : Uuid) (g : ServiceGrant) : Prop :=
  exists fs expires tb,
    let op := ServiceGrantCreate (client_id g) (entry_id g) fs expires (required_exe_sha256 g) (registration_key_fingerprint g) in
    EvCreate op gid tb ∈ h /\ parse_fields fs = Some (fields g) /\ expires_at g = (expires ≫= from_timestamp) /\
    (client_token_hash g = PENDING_TOKEN_HASH \/
     (registration_key_fingerprint g = None /\ client_token_hash g = token_digest (service_token tb)) \/
     (exists v tb', EvToken v tb' ∈ h /\ ch_grant_id (vf_challenge v) = gid /\ client_token_hash g = token_digest (service_token tb'))).

(** The grant of an enrollment, whose fingerprint the signature is checked for. *)
Definition enrolls (s : ServiceGrantStore) (v : Verification) : Prop :=
  exists g, s !! ch_grant_id (vf_challenge v) = Some g /\ vf_fingerprint v = default "" (registration_key_fingerprint g).

Definition verified_event (v : Verification) : Prop :=
  verify_signature (vf_key v) (ch_transcript (vf_challenge v)) (vf_signature v) (vf_fingerprint v) = Ok tt.

Record GoodStore (s : ServiceGrantStore) (h : list Ev) (waiting : list Verification) : Prop := {
  gs_grants : forall gid g, s !! gid = Some g -> explained h gid g;
  gs_revoked : forall gid, EvRevoked gid ∈ h -> exists g, s !! gid = Some g /\ revoked_at g <> None;
  gs_waiting : forall v, v ∈ waiting -> enrolls s v;
  gs_tokens : forall v tb, EvToken v tb ∈ h -> enrolls s v /\ verified_event v;
}.

Record Good (d : Daemon) (h : list Ev) (s : ServiceGrantStore) : Prop := {
  go_load : load_from_path (dm_file d) key = Ok s;
  go_vault : forall v, dm_vault d = Some v -> v_dek v = DEK;
  go_stepup : StepUpInv (dm_stepup d) (approvals h);
  go_once : NoDup (accepted_ids h);
  go_accepted : forall id c op at_, EvAccepted id c op at_ ∈ h -> exists pw op' at' k,
    EvMinted pw id c op' at' ∈ h /\ at_ < at' + STEP_UP_TTL /\ (op' = op \/ commitment_collision k op op');
  go_minted : forall pw id c op at_, EvMinted pw id c op at_ ∈ h -> opens pw = true;
  go_created : forall op gid tb, EvCreate op gid tb ∈ h -> exists id c at_, EvAccepted id c (to_vec op) at_ ∈ h;
  go_store : GoodStore s h (dm_verifying d);
}.

(** ** Growing a trace *)

Lemma explained_app h h' gid g : explained h gid g -> explained (h ++ h') gid g.
Proof.
  intros (fs & ex & tb & Hc & Hf & He & Ht). exists fs, ex, tb. simpl in *. rewrite !elem_of_app. split; [by left|].
  split; [done|]. split; [done|]. destruct Ht as [?|[?|(v & tb' & Hv & Hrest)]]; [by left|by right; left|].
  right; right. exists v, tb'. rewrite elem_of_app. tauto.
Qed.

(** Events that concern approvals only. *)
Definition approval_event (e : Ev) : Prop :=
  match e with EvMinted _ _ _ _ _ | EvAccepted _ _ _ _ => True | _ => False end.

Lemma GoodStore_approvals s h h' w : Forall approval_event h' -> GoodStore s h w -> GoodStore s (h ++ h') w.
Proof.
  intros Hh [Hg Hr Hw Ht]. rewrite Forall_forall in Hh. split; [|intros gid [Hin|Hin]%elem_of_app|done|intros v tb [Hin|Hin]%elem_of_app];
    eauto using explained_app; by apply Hh in Hin.
Qed.

Lemma approvals_app a b : approvals (a ++ b) = approvals a ++ approvals b.
Proof. apply omap_app. Qed.

Lemma accepted_ids_app a b : accepted_ids (a ++ b) = accepted_ids a ++ accepted_ids b.
Proof. unfold accepted_ids. by rewrite approvals_app, omap_app. Qed.

Context (HK : from_dek DEK = Ok key).
Context `{!Sha256Laws, !HexLength, !HexDecodeLaws, !HmacLaws, !SerdeBytesLaws AuthenticatedStore, !SerdeJsonLaws RawStore}.

Lemma store_key_good d h s k : Good d h s -> service_grant_store_key d = Some k -> k = key.
Proof.
  intros Hd. unfold service_grant_store_key. destruct (dm_vault d) as [v|] eqn:Ev; [|done]. simpl.
  rewrite (go_vault _ _ _ Hd v Ev), HK. by intros [= <-].
Qed.

Lemma start_good : Good daemon_start [] ∅.
Proof.
  split; [done|done|apply new_inv|constructor|intros ???? Hin|intros ????? Hin|intros ??? Hin|]; try by apply elem_of_nil in Hin.
  split; [intros gid g Hg|intros gid Hin|intros v Hin|intros v tb Hin]; try by apply elem_of_nil in Hin.
  by rewrite lookup_empty in Hg.
Qed.

(** ** The gate *)

Lemma service_call_gate d en after op approval d' audit r :
  service_call d en require_stepup after op approval = (d', audit, r) ->
  (gate d en op approval = None /\ exists st, d' = set_stepup d st /\
     (st = dm_stepup d \/ exists id e, take_if_valid (dm_stepup d) (en_now en) (en_key en) id (en_connection en) (to_vec op) = (st, Err e))) \/
  (exists d1 ev, gate d en op approval = Some (d1, ev) /\ dispatch_service_call d1 en after op = (d', audit, r)).
Proof.
  unfold service_call, gate, gated. destruct (grant_admin op || _); [|right; eauto].
  destruct approval as [id|]; [|intros [= <- _ _]; left; split; [done|]; exists (dm_stepup d); destruct d; eauto].
  destruct (take_if_valid _ _ _ _ _ _) as [st [u|e]] eqn:Et; intros E; [right; eauto|].
  injection E as <- _ _. left. split; [done|]. exists st. eauto.
Qed.

Lemma Good_stepup d h s st ev :
  Good d h s -> StepUpInv st (approvals (h ++ ev)) -> NoDup (accepted_ids (h ++ ev)) -> Forall approval_event ev ->
  (forall id c op at_, EvAccepted id c op at_ ∈ ev -> exists pw op' at' k,
    EvMinted pw id c op' at' ∈ h /\ at_ < at' + STEP_UP_TTL /\ (op' = op \/ commitment_collision k op op')) ->
  (forall pw id c op at_, EvMinted pw id c op at_ ∈ ev -> opens pw = true) ->
  Good (set_stepup d st) (h ++ ev) s.
Proof.
  intros [Hl Hv _ _ Ha Hm Hc Hs] Hst Hnd He Hacc Hmin. split; [done|done|done|done| | | |by apply GoodStore_approvals].
  - intros id c op t Hin. apply elem_of_app in Hin as [Hin|Hin]; [destruct (Ha _ _ _ _ Hin) as (pw & op' & t' & k & Hin' & Hrest)
      |destruct (Hacc _ _ _ _ Hin) as (pw & op' & t' & k & Hin' & Hrest)]; exists pw, op', t', k; rewrite elem_of_app; auto.
  - intros pw id c op t [Hin|Hin]%elem_of_app; eauto.
  - intros op gid tb [Hin|Hin]%elem_of_app; [|rewrite Forall_forall in He; by apply He in Hin].
    destruct (Hc _ _ _ Hin) as (id & c & t & Hin'). exists id, c, t. rewrite elem_of_app. auto.
Qed.

Lemma gate_good d h s en op approval d1 ev :
  Good d h s -> gate d en op approval = Some (d1, ev) -> Good d1 (h ++ ev) s /\
  dm_file d1 = dm_file d /\ dm_vault d1 = dm_vault d /\ dm_verifying d1 = dm_verifying d /\
  (grant_admin op = true -> exists id c t, EvAccepted id c (to_vec op) t ∈ ev).
Proof.
  intros Hd. unfold gate, gated. destruct (grant_admin op || _) eqn:Eg.
  - destruct approval as [id|]; [|done]. destruct (take_if_valid _ _ _ _ _ _) as [st [[]|]] eqn:Et; [|done].
    intros [= <- <-]. pose proof (take_inv _ _ _ _ _ _ _ _ _ (go_stepup _ _ _ Hd) Et) as (Hi & (op' & t & k & Hm & Ht & Hop) & Hno).
    split; [|repeat split; intros _; eexists _, _, _; constructor]. apply Good_stepup; [done|by rewrite approvals_app| | | |].
    + rewrite accepted_ids_app. apply NoDup_app. split; [apply Hd|]. split; [|apply NoDup_singleton].
      intros i Hi1 Hi2. apply list_elem_of_singleton in Hi2 as ->. unfold accepted_ids in Hi1.
      apply list_elem_of_omap in Hi1 as ([|i c' o t'] & Hin & E); simplify_eq. by apply Hno in Hin.
    + by constructor.
    + intros id' c' op2 t' Hin. apply list_elem_of_singleton in Hin. simplify_eq.
      unfold approvals in Hm. apply list_elem_of_omap in Hm as ([pw i c o a| | | |] & Hin & E); simplify_eq/=.
      exists pw, op', t, k. done.
    + intros pw id' c' op2 t' Hin. by apply list_elem_of_singleton in Hin.
  - intros [= <- <-]. rewrite app_nil_r. split; [done|]. do 3 (split; [done|]). intros Ha. by rewrite Ha in Eg.
Qed.

(** ** The store *)

Lemma good_keyed d h s : Good d h s -> well_keyed s.
Proof. intros Hd. eapply load_well_keyed, Hd. Qed.

Lemma mac_length k p : length (grants_mac k p) = 32%nat.
Proof. apply hmac_length. Qed.

(** Publishing a store that the trace explains. *)
Lemma Good_save d h s s' sync file r :
  Good d h s -> GoodStore s' h (dm_verifying d) -> well_keyed s' ->
  save_to_path s' (dm_file d) key sync = (file, r) ->
  exists s2, Good (set_file d file) h s2 /\ (is_ok r = true -> s2 = s').
Proof.
  intros Hd Hs' Hk E. destruct (save_to_path_cases s' (dm_file d) key sync file r (mac_length key) Hk E) as [[-> Hr]|Hl].
  - exists s. split; [destruct Hd; by split|]. by rewrite Hr.
  - exists s'. split; [|done]. destruct Hd; by split.
Qed.

(** Extending the trace with an event of the store. *)
Lemma Good_event d h s e :
  Good d h s -> approval_of e = None ->
  (forall op gid tb, e = EvCreate op gid tb -> exists id c t, EvAccepted id c (to_vec op) t ∈ h) ->
  (forall v tb, e = EvToken v tb -> enrolls s v /\ verified_event v) ->
  (forall gid, e = EvRevoked gid -> exists g, s !! gid = Some g /\ revoked_at g <> None) ->
  Good d (h ++ [e]) s.
Proof.
  intros [Hl Hv Hst Hnd Ha Hm Hc [Hg Hr Hw Ht]] Hn Hcr Htk Hrv.
  assert (forall x, x ∈ h ++ [e] -> x ∈ h \/ x = e) as Hin by (intros x; rewrite elem_of_app, list_elem_of_singleton; done).
  assert (approvals (h ++ [e]) = approvals h) as Hap by (rewrite approvals_app; simpl; rewrite Hn; by rewrite app_nil_r).
  split; [done|done|by rewrite Hap|unfold accepted_ids; by rewrite Hap| | | |].
  - intros id c op t [Hx|<-]%Hin; [|done]. destruct (Ha _ _ _ _ Hx) as (pw & op' & t' & k & Hm' & Hrest).
    exists pw, op', t', k. rewrite elem_of_app. auto.
  - intros pw id c op t [Hx|<-]%Hin; [eauto|done].
  - intros op gid tb [Hx|Ex]%Hin; [destruct (Hc _ _ _ Hx) as (id & c & t & Hi)|destruct (Hcr op gid tb) as (id & c & t & Hi); [done|]];
      exists id, c, t; rewrite elem_of_app; auto.
  - split; [intros; by apply explained_app, Hg| |done|].
    + intros gid [Hx|Ex]%Hin; eauto.
    + intros v tb [Hx|Ex]%Hin; eauto.
Qed.

(** The grant under [gid] becomes [g']: it keeps its fingerprint and is not
    less revoked. *)
Lemma GoodStore_update s h w gid g g' :
  GoodStore s h w -> s !! gid = Some g -> explained h gid g' ->
  registration_key_fingerprint g' = registration_key_fingerprint g ->
  (revoked_at g <> None -> revoked_at g' <> None) -> GoodStore (<[gid := g']> s) h w.
Proof.
  intros [Hg Hr Hw Ht] Hs He Hf Hrv.
  assert (forall v, enrolls s v -> enrolls (<[gid := g']> s) v) as Hen.
  { intros v (x & Hx & Ex). unfold enrolls. destruct (decide (ch_grant_id (vf_challenge v) = gid)) as [E|Hne].
    - exists g'. rewrite E in *. rewrite lookup_insert_eq. split; [done|]. rewrite Hf. congruence.
    - exists x. by rewrite lookup_insert_ne. }
  split.
  - intros i x [[<- <-]|[_ Hx]]%lookup_insert_Some; eauto.
  - intros i Hi. destruct (Hr i Hi) as (x & Hx & Hn). destruct (decide (i = gid)) as [->|Hne].
    + exists g'. rewrite lookup_insert_eq. split; [done|]. apply Hrv. congruence.
    + exists x. by rewrite lookup_insert_ne.
  - eauto.
  - intros v tb Hv. destruct (Ht v tb Hv). eauto.
Qed.

Lemma GoodStore_insert s h w gid g :
  GoodStore s h w -> s !! gid = None -> explained h gid g -> GoodStore (<[gid := g]> s) h w.
Proof.
  intros [Hg Hr Hw Ht] Hs He.
  assert (forall i x, s !! i = Some x -> <[gid := g]> s !! i = Some x) as Hl.
  { intros i x Hx. rewrite lookup_insert_ne; [done|]. intros ->. congruence. }
  assert (forall v, enrolls s v -> enrolls (<[gid := g]> s) v) as Hen by (intros v (x & Hx & Ex); exists x; eauto).
  split.
  - intros i x [[<- <-]|[_ Hx]]%lookup_insert_Some; eauto.
  - intros i Hi. destruct (Hr i Hi) as (x & Hx & Hn). eauto.
  - eauto.
  - intros v tb Hv. destruct (Ht v tb Hv). eauto.
Qed.

Lemma well_keyed_insert s gid g :
  well_keyed s -> grant_id g = gid -> policy_version g = 1 -> well_keyed (<[gid := g]> s).
Proof. intros Hs Hg Hp. apply map_Forall_insert_2; done. Qed.

Lemma fresh_grant d h s gid : Good d h s -> gid ∉ created_ids h -> s !! gid = None.
Proof.
  intros Hd Hf. destruct (s !! gid) as [g|] eqn:E; [|done]. destruct Hf.
  destruct (gs_grants _ _ _ (go_store _ _ _ Hd) gid g E) as (fs & ex & tb & Hc & _).
  unfold created_ids. apply list_elem_of_omap. eexists. split; [exact Hc|done].
Qed.

(** ** The handlers *)

(** Changes the store does not see. *)
Lemma Good_frame d d' h s :
  Good d h s -> dm_file d' = dm_file d -> dm_stepup d' = dm_stepup d ->
  (forall v, dm_vault d' = Some v -> v_dek v = DEK) -> (forall v, v ∈ dm_verifying d' -> enrolls s v) -> Good d' h s.
Proof.
  intros [Hl Hv Hst Hnd Ha Hm Hc [Hg Hr Hw Ht]] Hf Hs Hv' Hw'. split; rewrite ?Hf, ?Hs; done.
Qed.

Lemma create_good d h s en client entry fs expires pins fp d' audit r :
  let op := ServiceGrantCreate client entry fs expires pins fp in
  Good d h s -> en_id en ∉ created_ids h -> (exists id c t, EvAccepted id c (to_vec op) t ∈ h) ->
  service_grant_create d en client entry fs expires pins fp = (d', audit, r) ->
  exists s', Good d' (h ++ [EvCreate op (en_id en) (en_bytes en)]) s'.
Proof.
  intros op Hd Hf Hacc E. pose proof (fresh_grant _ _ _ _ Hd Hf) as Hnone.
  assert (Good d (h ++ [EvCreate op (en_id en) (en_bytes en)]) s) as Hd1.
  { apply Good_event; [done|done| |done|done]. intros ??? [= <- <- <-]. done. }
  assert (forall d2, d2 = d -> exists s', Good d2 (h ++ [EvCreate op (en_id en) (en_bytes en)]) s') as Hsame by (intros d2 ->; eauto).
  unfold service_grant_create in E. destruct (service_grant_store_key d) as [k|] eqn:Ek; [|injection E as <- _ _; auto].
  rewrite (store_key_good _ _ _ _ Hd Ek), (go_load _ _ _ Hd) in E.
  destruct (parse_fields fs) as [[|f0 fl]|] eqn:Ef; try (injection E as <- _ _; auto; fail). cbv zeta in E.
  match type of E with (if ?b then _ else _) = _ => destruct b end; [injection E as <- _ _; auto|].
  destruct (mint_grant s _ _ _ _ _ _ _ _ _) as [[[s1 g] tok]|] eqn:Em; [|injection E as <- _ _; auto].
  destruct (save_to_path s1 (dm_file d) key (en_sync en)) as [file saved] eqn:Es.
  unfold mint_grant in Em. result_inv. simplify_eq.
  edestruct (Good_save d (h ++ [EvCreate op (en_id en) (en_bytes en)]) s) as (s2 & Hg2 & _); [done| | |exact Es|].
  - apply GoodStore_insert; [apply Hd1|done|]. exists fs, expires, (en_bytes en). cbn.
    rewrite elem_of_app, list_elem_of_singleton. split; [by right|]. split; [done|]. split; [done|].
    destruct fp; [by left|right; left; done].
  - apply well_keyed_insert; [by eapply good_keyed|done|done].
  - destruct saved; injection E as <- _ _; eauto.
Qed.

Lemma explained_hash h gid g hash :
  explained h gid g ->
  (exists v tb, EvToken v tb ∈ h /\ ch_grant_id (vf_challenge v) = gid /\ hash = token_digest (service_token tb)) ->
  explained h gid (set_token_hash g hash).
Proof. intros (fs & ex & tb & Hc & Hf & He & _) Hh. exists fs, ex, tb. simpl in *. do 3 (split; [done|]). right; right. done. Qed.

Lemma explained_revoked h gid g at_ : explained h gid g -> explained h gid (set_revoked_at g at_).
Proof. done. Qed.

Lemma revoke_good d h s en idstr d' audit r :
  Good d h s -> service_grant_revoke d en idstr = (d', audit, r) ->
  exists s', Good d' (h ++ op_events en (ServiceGrantRevoke idstr) r) s'.
Proof.
  intros Hd E. assert (Good d (h ++ []) s) as Hd0 by by rewrite app_nil_r.
  unfold service_grant_revoke in E. destruct (service_grant_store_key d) as [k|] eqn:Ek; [|injection E as <- _ <-; eauto].
  rewrite (store_key_good _ _ _ _ Hd Ek), (go_load _ _ _ Hd) in E. unfold op_events.
  destruct (uuid_parse_str idstr) as [gid|] eqn:Eu; [|injection E as <- _ <-; eauto].
  unfold revoke in E. destruct (s !! gid) as [g|] eqn:Eg; [|injection E as <- _ <-; eauto]. simpl in E.
  destruct (save_to_path _ (dm_file d) key (en_sync en)) as [file saved] eqn:Es.
  edestruct (Good_save d h s) as (s2 & Hg2 & Heq); [done| | |exact Es|].
  - eapply GoodStore_update; [apply Hd|done| |done|done]. apply explained_revoked. by eapply gs_grants; [apply Hd|].
  - apply well_keyed_insert; [by eapply good_keyed| |]; by apply (good_keyed _ _ _ Hd gid g).
  - destruct saved; injection E as <- _ <-; [|rewrite app_nil_r; eauto].
    exists s2. apply Good_event; [done|done|done|done|]. intros ? [= <-]. rewrite (Heq eq_refl), lookup_insert_eq.
    eexists. split; [done|]. done.
Qed.

Lemma verified_good d h s en v d' audit r :
  Good d h s -> enrolls s v -> enrollment_verified d en v = (d', audit, r) ->
  exists s', Good d' (h ++ match verify_signature (vf_key v) (ch_transcript (vf_challenge v)) (vf_signature v) (vf_fingerprint v) with
                           | Ok _ => [EvToken v (en_bytes en)] | Err _ => [] end) s'.
Proof.
  intros Hd Hen E. unfold enrollment_verified in E.
  destruct (verify_signature _ _ _ _) as [[]|] eqn:Ev; [|injection E as <- _ _; rewrite app_nil_r; eauto].
  assert (Good d (h ++ [EvToken v (en_bytes en)]) s) as Hd1.
  { apply Good_event; [done|done|done| |done]. intros ?? [= <- <-]. done. }
  destruct (service_grant_store_key d) as [k|] eqn:Ek; [|injection E as <- _ _; eauto].
  rewrite (store_key_good _ _ _ _ Hd Ek), (go_load _ _ _ Hd) in E.
  destruct (s !! ch_grant_id (vf_challenge v)) as [g|] eqn:Eg; [|injection E as <- _ _; eauto].
  destruct (revoked_at g) eqn:Er; [injection E as <- _ _; eauto|].
  unfold rotate_token in E. rewrite Eg, Er in E.
  destruct (save_to_path _ (dm_file d) key (en_sync en)) as [file saved] eqn:Es.
  edestruct (Good_save d (h ++ [EvToken v (en_bytes en)]) s) as (s2 & Hg2 & _); [done| | |exact Es|].
  - eapply GoodStore_update; [apply Hd1|done| |done|done]. apply explained_hash; [by eapply gs_grants; [apply Hd1|]|].
    exists v, (en_bytes en). rewrite elem_of_app, list_elem_of_singleton. auto.
  - apply well_keyed_insert; [by eapply good_keyed| |]; by apply (good_keyed _ _ _ Hd _ g Eg).
  - destruct saved; injection E as <- _ _; eauto.
Qed.

Lemma begin_good d h s en client d' audit r :
  Good d h s -> service_enrollment_begin d en client = (d', audit, r) -> Good d' h s.
Proof.
  intros Hd E. unfold service_enrollment_begin in E. repeat case_match; simplify_eq; try done;
    (eapply Good_frame; [exact Hd|done|done|apply Hd|apply (gs_waiting _ _ _ (go_store _ _ _ Hd))]).
Qed.

Lemma complete_good d h s en client nonce sig kt d' audit r :
  Good d h s -> service_enrollment_complete d en client nonce sig kt = (d', audit, r) -> Good d' h s.
Proof.
  intros Hd E. unfold service_enrollment_complete in E. destruct (take_challenge _ _ _) as [chs taken].
  assert (Good (set_challenges d chs) h s) as Hd1.
  { eapply Good_frame; [exact Hd|done|done|apply Hd|apply (gs_waiting _ _ _ (go_store _ _ _ Hd))]. }
  destruct taken as [c|]; [|by injection E as <- _ _]. destruct (negb _); [by injection E as <- _ _|].
  destruct (service_grant_store_key _) as [k|] eqn:Ek; [|by injection E as <- _ _].
  rewrite (store_key_good _ _ _ _ Hd1 Ek) in E. rewrite (go_load _ _ _ Hd1) in E.
  destruct (s !! ch_grant_id c) as [g|] eqn:Eg; [|by injection E as <- _ _]. injection E as <- _ _.
  eapply Good_frame; [exact Hd1|done|done|apply Hd1|]. intros v [Hv|Hv]%elem_of_app.
  - by apply (gs_waiting _ _ _ (go_store _ _ _ Hd)).
  - apply list_elem_of_singleton in Hv as ->. exists g. done.
Qed.

Lemma dispatch_good d h s en after op d' audit r :
  Good d h s -> en_id en ∉ created_ids h ->
  (grant_admin op = true -> exists id c t, EvAccepted id c (to_vec op) t ∈ h) ->
  dispatch_service_call d en after op = (d', audit, r) -> exists s', Good d' (h ++ op_events en op r) s'.
Proof.
  intros Hd Hf Ha E. destruct op; cbn [dispatch_service_call op_events] in E |- *.
  - destruct (service_get_secret _ _ _ _ _ _ _). simplify_eq. rewrite app_nil_r. eauto.
  - eapply create_good; eauto.
  - by eapply revoke_good.
  - rewrite app_nil_r. eauto using begin_good.
  - rewrite app_nil_r. eauto using complete_good.
  - simplify_eq. rewrite app_nil_r. eauto.
Qed.

(** ** Runs *)

Lemma authorize_good d h s en unix maintenance pw op d' r :
  Good d h s -> hex_encode (en_bytes en) ∉ minted_ids (approvals h) ->
  step_up_authorize d en unix maintenance (opens pw) op = (d', r) ->
  Good d' (h ++ match r with
                | StepUpReceipt id _ => [EvMinted pw id (en_connection en) (to_vec op) (en_now en)]
                | _ => [] end) s.
Proof.
  intros Hd Hf E. unfold step_up_authorize in E.
  assert (Good d (h ++ []) s) as Hd0 by by rewrite app_nil_r.
  destruct (throttled _ _); [by injection E as <- <-|]. destruct maintenance; [by injection E as <- <-|].
  destruct (dm_vault d); [|by injection E as <- <-].
  assert (forall st, su_hmac_key st = su_hmac_key (dm_stepup d) -> su_pending st = su_pending (dm_stepup d) ->
    StepUpInv st (approvals h)) as Hsame.
  { intros st Hk Hp. eapply StepUpInv_sub; [apply Hd|by rewrite Hk|]. intros id p. rewrite Hp. eauto 10. }
  destruct (opens pw) eqn:Eo.
  - destruct (mint _ _ _ _ _ _ _) as [st [id ex]] eqn:Em. injection E as <- <-.
    pose proof (mint_inv (record_success (dm_stepup d)) (approvals h) (en_now en) unix (en_key en) (en_bytes en)
      (en_connection en) (to_vec op) (Hsame (record_success (dm_stepup d)) eq_refl eq_refl) Hf) as Hi.
    rewrite Em in Hi. unfold mint in Em. destruct (stepup_key _ _). injection Em as _ <- _.
    apply Good_stepup; [done|by rewrite approvals_app|rewrite accepted_ids_app, app_nil_r; apply Hd|by constructor| |].
    + intros ???? Hin. by apply list_elem_of_singleton in Hin.
    + intros ????? Hin. apply list_elem_of_singleton in Hin. by simplify_eq.
  - injection E as <- <-. apply Good_stepup; [done| |rewrite app_nil_r; apply Hd|constructor| |]; try (intros; by match goal with Hin : _ ∈ [] |- _ => apply elem_of_nil in Hin end).
    rewrite app_nil_r. by apply Hsame.
Qed.

Lemma created_ids_app a b : created_ids (a ++ b) = created_ids a ++ created_ids b.
Proof. apply omap_app. Qed.

Lemma gate_events d en op approval d1 ev : gate d en op approval = Some (d1, ev) -> created_ids ev = [].
Proof. unfold gate. repeat case_match; intros; by simplify_eq. Qed.

Lemma daemon_step_good st st' s : Good st.1 st.2 s -> daemon_step st st' -> exists s', Good st'.1 st'.2 s'.
Proof.
  intros Hd Hst. destruct Hst as [d h v Hv|d h|d h id|d h en unix mt pw op d' r Hf E|d h en after op ap d' au r Hf E|d h en v a b d' au r Ev E]; simpl in *.
  - exists s. eapply Good_frame; [exact Hd|done|done|by intros ? [= <-]|apply (gs_waiting _ _ _ (go_store _ _ _ Hd))].
  - exists s. eapply Good_frame; [exact Hd|done|done|done|apply (gs_waiting _ _ _ (go_store _ _ _ Hd))].
  - exists s. rewrite <- (app_nil_r h). apply Good_stepup; [done| |rewrite app_nil_r; apply Hd|constructor| |];
      try (intros; by match goal with Hin : _ ∈ [] |- _ => apply elem_of_nil in Hin end).
    rewrite app_nil_r. eapply StepUpInv_sub; [apply Hd|done|]. intros i p. simpl.
    intros [_ Hp]%lookup_delete_Some. eauto 10.
  - exists s. by eapply authorize_good.
  - unfold call_events. destruct (service_call_gate _ _ _ _ _ _ _ _ E) as [(-> & st & -> & Hst)|(d1 & ev & Eg & Ed)].
    + exists s. apply Good_stepup; [done| |rewrite app_nil_r; apply Hd|constructor| |];
        try (intros; by match goal with Hin : _ ∈ [] |- _ => apply elem_of_nil in Hin end).
      rewrite app_nil_r. destruct Hst as [->|(id & e & Et)]; [apply Hd|].
      exact (take_inv _ _ _ _ _ _ _ _ _ (go_stepup _ _ _ Hd) Et).
    + rewrite Eg. destruct (gate_good _ _ _ _ _ _ _ _ Hd Eg) as (Hd1 & _ & _ & _ & Ha).
      rewrite app_assoc. eapply dispatch_good; [exact Hd1| | |exact Ed].
      * rewrite created_ids_app, (gate_events _ _ _ _ _ _ Eg), app_nil_r. done.
      * intros Hadm. destruct (Ha Hadm) as (id & c & t & Hin). exists id, c, t. rewrite elem_of_app. auto.
  - eapply verified_good; [|apply (gs_waiting _ _ _ (go_store _ _ _ Hd)); rewrite Ev; apply elem_of_app; right; constructor|exact E].
    eapply Good_frame; [exact Hd|done|done|apply Hd|]. simpl. intros x Hx. apply (gs_waiting _ _ _ (go_store _ _ _ Hd)).
    rewrite Ev, elem_of_app, elem_of_cons. apply elem_of_app in Hx. tauto.
Qed.

Lemma daemon_run_good st s st' : Good st.1 st.2 s -> rtc daemon_step st st' -> exists s', Good st'.1 st'.2 s'.
Proof.
  intros Hg Hr. revert s Hg. induction Hr as [st|st st1 st' Hs _ IH]; intros s Hg; [eauto|].
  destruct (daemon_step_good _ _ _ Hg Hs) as [s1 Hg1]. eauto.
Qed.

Lemma parse_field_inj a b f : parse_field a = Some f -> parse_field b = Some f -> a = b.
Proof. unfold parse_field. repeat case_match; intros; simplify_eq; repeat match goal with E : String.eqb _ _ = true |- _ => apply String.eqb_eq in E end; congruence. Qed.

Lemma parse_fields_in fs l field f : parse_fields fs = Some l -> parse_field field = Some f -> f ∈ l -> field ∈ fs.
Proof.
  revert l. induction fs as [|x fs IH]; simpl; intros l E Ef Hin; [simplify_eq; by apply elem_of_nil in Hin|].
  destruct (parse_field x) as [y|] eqn:Ex; [|done]. simpl in E. destruct (parse_fields fs) as [ys|]; [|done].
  simpl in E. injection E as <-. apply elem_of_cons in Hin as [->|Hin].
  - rewrite (parse_field_inj _ _ _ Ef Ex). constructor.
  - constructor. eauto.
Qed.

(** C17. A secret leaves the daemon only with the owner's consent: when a
    retrieval is authorized after any run, the owner's password approved, on one
    connection and within 60 seconds, the creation of a grant for this client,
    entry and field; the grant was not revoked since and has not expired; the
    token was issued for it, and for a grant with a fingerprint only after a
    signature of the registered key over the challenge; and the executable
    satisfies the grant's policy.  Otherwise two operations, or two tokens, have
    the same digest. *)
Theorem service_secret_release d h en after client entry field token audit value :
  rtc daemon_step (daemon_start, []) (d, h) ->
  service_get_secret d en after client entry field token = (audit, Report "authorized" (Some value)) ->
  exists gid fs expires pins fp tb,
    let op := ServiceGrantCreate client entry fs expires pins fp in
    EvCreate op gid tb ∈ h /\ consented h op /\ field ∈ fs /\ (EvRevoked gid ∉ h) /\
    (forall e, (expires ≫= from_timestamp) = Some e -> en_utc en < e) /\
    (check_policy (default [] pins) (en_pid en) = NotRequired \/ check_policy (default [] pins) (en_pid en) = Matched) /\
    exists issued, (token = service_token issued \/ collision sha256 (as_bytes token) (as_bytes (service_token issued))) /\
      ((fp = None /\ issued = tb) \/
       (exists v, EvToken v issued ∈ h /\ ch_grant_id (vf_challenge v) = gid /\
          verify_signature (vf_key v) (ch_transcript (vf_challenge v)) (vf_signature v) (default "" fp) = Ok tt)).
Proof.
  intros Hr E. destruct (daemon_run_good (daemon_start, []) ∅ _ start_good Hr) as [s Hd]. simpl in Hd. clear Hr.
  unfold service_get_secret in E. destruct (service_grant_store_key d) as [k|] eqn:Ek; [|done].
  rewrite (store_key_good _ _ _ _ Hd Ek), (go_load _ _ _ Hd) in E.
  destruct (parse_field field) as [f|] eqn:Ef; [|done].
  destruct (authorize s client token entry f (en_utc en)) as [g|] eqn:Ea; [|done].
  apply authorize_some in Ea as ([gid Hg] & <- & <- & Hrv & Hex & Hfl & Hnp & Hh).
  destruct (gs_grants _ _ _ (go_store _ _ _ Hd) gid g Hg) as (fs & ex & tb & Hc & Hfs & Hexp & Htok).
  exists gid, fs, ex, (required_exe_sha256 g), (registration_key_fingerprint g), tb. simpl in *.
  split; [done|]. split; [|split; [|split; [|split; [|split]]]].
  - destruct (go_created _ _ _ Hd _ _ _ Hc) as (id & c & t & Hacc).
    destruct (go_accepted _ _ _ Hd _ _ _ _ Hacc) as (pw & op' & t' & k' & Hm & Ht & Hop).
    exists pw, id, c, t, op', t', k'. pose proof (go_minted _ _ _ Hd _ _ _ _ _ Hm). done.
  - by eapply parse_fields_in.
  - intros Hin. destruct (gs_revoked _ _ _ (go_store _ _ _ Hd) _ Hin) as (g' & Hg' & Hn). congruence.
  - rewrite <- Hexp. exact Hex.
  - unfold required_exe_policy in E. destruct (check_policy _ _); auto; done.
  - destruct Htok as [Hp|[[Hfp Ht]|(v & tb' & Hv & Hgid & Ht)]]; [done| |].
    + exists tb. split; [apply token_digest_binds; congruence|]. by left.
    + exists tb'. split; [apply token_digest_binds; congruence|]. right. exists v. split; [done|]. split; [done|].
      destruct (gs_tokens _ _ _ (go_store _ _ _ Hd) _ _ Hv) as [(g' & Hg' & Hfp) Hver].
      rewrite Hgid, Hg in Hg'. injection Hg' as <-. by rewrite <- Hfp.
Qed.

(** C18. A step-up approval is good for one use: in every run no approval is
    accepted twice, and each accepted one was given less than 60 seconds
    before, on the same connection, to a password that opens the vault, and for
    the same operation unless two operations have one digest. *)
Theorem approval_single_use d h :
  rtc daemon_step (daemon_start, []) (d, h) ->
  NoDup (accepted_ids h) /\
  forall id c op at_, EvAccepted id c op at_ ∈ h -> exists pw op' at' k,
    EvMinted pw id c op' at' ∈ h /\ opens pw = true /\ at_ < at' + STEP_UP_TTL /\
    (op' = op \/ commitment_collision k op op').
Proof.
  intros Hr. destruct (daemon_run_good (daemon_start, []) ∅ _ start_good Hr) as [s Hd]. split; [apply Hd|].
  intros id c op t Ha. destruct (go_accepted _ _ _ Hd _ _ _ _ Ha) as (pw & op' & t' & k & Hm & Ht & Hop).
  exists pw, op', t', k. pose proof (go_minted _ _ _ Hd _ _ _ _ _ Hm). done.
Qed.

(** ** The throttle *)

Lemma dispatch_stepup d en after op d' audit r :
  dispatch_service_call d en after op = (d', audit, r) -> dm_stepup d' = dm_stepup d.
Proof.
  destruct op; cbn [dispatch_service_call]; intros E.
  - destruct (service_get_secret _ _ _ _ _ _ _). by simplify_eq.
  - unfold service_grant_create in E. repeat case_match; by simplify_eq.
  - unfold service_grant_revoke in E. repeat case_match; by simplify_eq.
  - unfold service_enrollment_begin in E. repeat case_match; by simplify_eq.
  - unfold service_enrollment_complete in E. repeat case_match; by simplify_eq.
  - by simplify_eq.
Qed.

Lemma take_throttle st now fresh id c op : su_throttle_until (take_if_valid st now fresh id c op).1 = su_throttle_until st.
Proof.
  unfold take_if_valid. pose proof (stepup_key_spec st fresh) as Hs. destruct (stepup_key st fresh) as [st1 k].
  destruct Hs as (_ & _ & _ & _ & Ht). rewrite <- Ht. repeat case_match; done.
Qed.

Lemma throttle_kept st st' u :
  daemon_step st st' -> su_throttle_until (dm_stepup st.1) = Some u -> su_throttle_until (dm_stepup st'.1) = Some u.
Proof.
  intros Hst Hu. destruct Hst as [d h v Hv|d h|d h id|d h en unix mt pw op d' r Hf E|d h en after op ap d' au r Hf E|d h en v a b d' au r Ev E]; simpl in *; try done.
  - unfold step_up_authorize, throttled in E. rewrite Hu in E. simpl in E. by injection E as <- _.
  - unfold service_call in E. destruct (grant_admin op || _); [|by rewrite (dispatch_stepup _ _ _ _ _ _ _ E)].
    destruct ap as [id|]; [|by injection E as <- _ _].
    pose proof (take_throttle (dm_stepup d) (en_now en) (en_key en) id (en_connection en) (to_vec op)) as Ht.
    destruct (take_if_valid _ _ _ _ _ _) as [st1 [x|x]]; simpl in Ht.
    + rewrite (dispatch_stepup _ _ _ _ _ _ _ E). simpl. congruence.
    + injection E as <- _ _. simpl. congruence.
  - unfold enrollment_verified in E. repeat case_match; by simplify_eq.
Qed.

(** Once five passwords were wrong, no password is tried any more: whatever
    happens and however long one waits, a step-up is refused and changes
    nothing. *)
Lemma throttle_never_lifts st st' u en unix maintenance opened op :
  rtc daemon_step st st' -> su_throttle_until (dm_stepup st.1) = Some u ->
  exists secs, step_up_authorize st'.1 en unix maintenance opened op = (st'.1, StepUpDenied (Some secs)) /\ 1 <= secs.
Proof.
  intros Hr Hu. assert (su_throttle_until (dm_stepup st'.1) = Some u) as Hu'.
  { induction Hr as [|? ? ? Hs _ IH]; eauto using throttle_kept. }
  destruct (throttled_forever _ (en_now en) u Hu') as (secs & Ht & Hs). exists secs.
  unfold step_up_authorize. by rewrite Ht.
Qed.
End ServiceFacts.
