(* ===== verification/ServiceDemo.v ===== *)
(** * Service access: a concrete daemon

    Codecs for the documents, a run in which the owner creates a grant and the
    service reads a password, and the witnesses of the theorems. *)

From S2P Require Import Prelude Text ThirdParty Envelope CoreError AuditLog AuditFacts AuditDemo EntriesDemo ServiceGrants StepUp ServiceAccess ServiceFacts.
From Stdlib Require Import ZArith Lia Strings.String Strings.Ascii Strings.Byte.
From stdpp Require Import base list option strings numbers gmap.
From S2P Require Import Text ServiceGrants.
Import Concrete.
Open Scope Z_scope.

#[export] Instance hex_length_inst : HexLength.
Proof. intros b. cbn [hex_encode sha256_inst]. induction b as [|x b IH]; [done|]. simpl. rewrite IH. lia. Qed.

(** ** Codecs *)

#[export] Instance flat_field : Flat ServiceField :=
  flat_via (fun f => match f with Username => Some true | Password => Some false | Title => None end)
    (fun o => match o with Some true => Username | Some false => Password | None => Title end)
    (fun f => match f with Username => eq_refl | Password => eq_refl | Title => eq_refl end).

Definition Uuid_of_Z (z : Z) : Uuid := from_u128 (Z.to_N z).
Lemma Uuid_of_Z_id u : Uuid_of_Z (Z.of_N (as_u128 u)) = u.
Proof.
  apply as_u128_inj. unfold Uuid_of_Z. rewrite N2Z.id. cbn. apply N.mod_small, as_u128_bound.
Qed.
#[export] Instance flat_uuid : Flat Uuid := flat_via (fun u => Z.of_N (as_u128 u)) Uuid_of_Z Uuid_of_Z_id.

#[export] Instance flat_grant : Flat ServiceGrant :=
  flat_via
    (fun g => (policy_version g, grant_id g, client_id g, entry_id g, fields g, expires_at g, revoked_at g, created_at g,
               client_token_hash g, required_exe_sha256 g, registration_key_fingerprint g))
    (fun '(v, i, c, e, fs, x, r, t, h, p, f) =>
       {| policy_version := v; grant_id := i; client_id := c; entry_id := e; fields := fs; expires_at := x; revoked_at := r;
          created_at := t; client_token_hash := h; required_exe_sha256 := p; registration_key_fingerprint := f |})
    (fun g => match g with Build_ServiceGrant _ _ _ _ _ _ _ _ _ _ _ => eq_refl end).

#[export] Instance flat_envelope : Flat AuthenticatedStore :=
  flat_via (fun a => (format_version a, payload a, store_mac a))
    (fun '(v, p, m) => {| format_version := v; payload := p; store_mac := m |})
    (fun a => match a with Build_AuthenticatedStore _ _ _ => eq_refl end).

#[export] Instance flat_transcript : Flat Transcript :=
  flat_via (fun t => (tr_client_id t, tr_entry_id t, tr_grant_id t, tr_exe_policy_sha256 t, tr_expires_at t, tr_fields t,
                      tr_nonce t, tr_protocol t, tr_fingerprint t))
    (fun '(c, e, g, x, t, fs, n, p, f) =>
       {| tr_client_id := c; tr_entry_id := e; tr_grant_id := g; tr_exe_policy_sha256 := x; tr_expires_at := t;
          tr_fields := fs; tr_nonce := n; tr_protocol := p; tr_fingerprint := f |})
    (fun t => match t with Build_Transcript _ _ _ _ _ _ _ _ _ => eq_refl end).

#[export] Instance raw_store_json : SerdeJson RawStore := {|
  to_json r := string_of_list_byte (put (raw_grants r));
  from_json s := match take_one (list_byte_of_string s) with Some (gs, []) => Some {| raw_grants := gs |} | _ => None end |}.
#[export] Instance raw_store_json_laws : SerdeJsonLaws RawStore.
Proof.
  intros [gs]. cbn [to_json from_json raw_store_json raw_grants]. rewrite list_byte_of_string_of_list_byte.
  pose proof (take_put gs []) as E. rewrite app_nil_r in E. by rewrite E.
Qed.

Definition kinds : list K.OpKind :=
  [K.VaultCreate; K.VaultStatus; K.EntryAdd; K.EntryGet; K.EntryList; K.EntryUpdate; K.EntryDelete;
   K.TotpAdd; K.TotpCode; K.TotpMetadata; K.TotpRemove; K.SshKeyAdd; K.SshKeyList; K.SshKeyGet;
   K.SshKeyDelete; K.RegistryOverview; K.RegistrySweep; K.EntityList; K.EntityAdd; K.EntityDelete;
   K.EntryAssign; K.EntryUnassign; K.EntryMarkRotated; K.EntrySetExpiresAt; K.HealthReport; K.AuditVerify;
   K.BiometricStatusGet; K.BiometricEnable; K.BiometricDisable; K.ExportAll; K.ImportEntries; K.SyncInit;
   K.SyncDisable; K.SyncDeviceList; K.SyncDeviceRevoke; K.SyncStatus; K.SyncNow; K.SyncDeadLetterList;
   K.SyncMigrateClaim; K.SyncMigrateAuthoritative; K.SyncConflictList; K.SyncConflictResolve;
   K.SyncDeadLetterPurge; K.SyncPairStart; K.SyncPairJoin].
Definition kind_index (k : K.OpKind) : nat :=
  match k with
  | K.VaultCreate => 0%nat
  | K.VaultStatus => 1%nat
  | K.EntryAdd => 2%nat
  | K.EntryGet => 3%nat
  | K.EntryList => 4%nat
  | K.EntryUpdate => 5%nat
  | K.EntryDelete => 6%nat
  | K.TotpAdd => 7%nat
  | K.TotpCode => 8%nat
  | K.TotpMetadata => 9%nat
  | K.TotpRemove => 10%nat
  | K.SshKeyAdd => 11%nat
  | K.SshKeyList => 12%nat
  | K.SshKeyGet => 13%nat
  | K.SshKeyDelete => 14%nat
  | K.RegistryOverview => 15%nat
  | K.RegistrySweep => 16%nat
  | K.EntityList => 17%nat
  | K.EntityAdd => 18%nat
  | K.EntityDelete => 19%nat
  | K.EntryAssign => 20%nat
  | K.EntryUnassign => 21%nat
  | K.EntryMarkRotated => 22%nat
  | K.EntrySetExpiresAt => 23%nat
  | K.HealthReport => 24%nat
  | K.AuditVerify => 25%nat
  | K.BiometricStatusGet => 26%nat
  | K.BiometricEnable => 27%nat
  | K.BiometricDisable => 28%nat
  | K.ExportAll => 29%nat
  | K.ImportEntries => 30%nat
  | K.SyncInit => 31%nat
  | K.SyncDisable => 32%nat
  | K.SyncDeviceList => 33%nat
  | K.SyncDeviceRevoke => 34%nat
  | K.SyncStatus => 35%nat
  | K.SyncNow => 36%nat
  | K.SyncDeadLetterList => 37%nat
  | K.SyncMigrateClaim => 38%nat
  | K.SyncMigrateAuthoritative => 39%nat
  | K.SyncConflictList => 40%nat
  | K.SyncConflictResolve => 41%nat
  | K.SyncDeadLetterPurge => 42%nat
  | K.SyncPairStart => 43%nat
  | K.SyncPairJoin => 44%nat
  end.
Definition kind_of (n : nat) : K.OpKind := nth n kinds K.VaultStatus.
Lemma kind_of_index k : kind_of (kind_index k) = k.
Proof. by destruct k. Qed.

(** Operations: the number of the constructor, its texts and its numbers. *)
Definition raw_op (op : VaultOp) : Z * list string * list (option Z) * option (list string) * option string * bytes :=
  match op with
  | ServiceGetSecret c e f t => (0, [c; f; t], [Some e], None, None, [])
  | ServiceGrantCreate c e fs x p f => (1, c :: fs, [Some e; x], p, f, [])
  | ServiceGrantRevoke g => (2, [g], [], None, None, [])
  | ServiceEnrollmentBegin c => (3, [c], [], None, None, [])
  | ServiceEnrollmentComplete c n s k => (4, [c; n; s; k], [], None, None, [])
  | OtherOp k doc => (5 + Z.of_nat (kind_index k), [], [], None, None, doc)
  end.
Definition op_of_raw (r : Z * list string * list (option Z) * option (list string) * option string * bytes) : VaultOp :=
  match r with
  | (0, [c; f; t], [Some e], _, _, _) => ServiceGetSecret c e f t
  | (1, c :: fs, [Some e; x], p, f, _) => ServiceGrantCreate c e fs x p f
  | (2, [g], _, _, _, _) => ServiceGrantRevoke g
  | (3, [c], _, _, _, _) => ServiceEnrollmentBegin c
  | (4, [c; n; s; k], _, _, _, _) => ServiceEnrollmentComplete c n s k
  | (z, _, _, _, _, doc) => OtherOp (kind_of (Z.to_nat (z - 5))) doc
  end.
Lemma op_of_raw_op op : op_of_raw (raw_op op) = op.
Proof. by destruct op as [| | | | |[]]. Qed.
#[export] Instance flat_op : Flat VaultOp := flat_via raw_op op_of_raw op_of_raw_op.

(** A [gpg] that accepts every key and signature, and reports one key. *)
#[export] Instance demo_gpg : Gpg := {| gpg_import _ := true; gpg_verify _ _ _ := Some "[GNUPG:] VALIDSIG ab" |}.
#[export] Instance demo_time : ChronoTime := {| from_timestamp s := Some (s * SECOND) |}.
#[export] Instance demo_proc : ProcExe := {| resolve_exe_digest _ := None |}.

(** Five wrong passwords engage the throttle. *)
Lemma five_failures now :
  su_throttle_until (Nat.iter 5 (fun st => record_failure st now) new_stepup) = Some (now + THROTTLE_BASE).
Proof. reflexivity. Qed.

(** ** A run *)

Definition demo_dek : bytes := [x01].
Definition demo_key : bytes := match from_dek demo_dek with Ok k => k | Err _ => [] end.
Lemma demo_key_ok : from_dek demo_dek = Ok demo_key.
Proof. unfold demo_key. destruct (from_dek demo_dek) eqn:E; [done|]. vm_compute in E. congruence. Qed.
Definition demo_opens (pw : string) : bool := String.eqb pw "pw".
Definition demo_vault : Vault := {| v_dek := demo_dek; v_get_entry _ := Ok ("u", "secret", "t") |}.
Definition demo_env (b : Byte.byte) : Env :=
  {| en_now := 0; en_utc := 0; en_id := from_u128 7; en_bytes := [b]; en_key := [x05]; en_sync := true;
     en_connection := 3; en_pid := None |}.
Definition demo_op : VaultOp := ServiceGrantCreate "svc" 9 ["password"] None None None.

Definition demo_unlocked : Daemon := set_vault daemon_start (Some demo_vault).
Definition demo_approved : Daemon * Reply := step_up_authorize demo_unlocked (demo_env x02) 0 false (demo_opens "pw") demo_op.
Definition demo_approval : option string := match demo_approved.2 with StepUpReceipt id _ => Some id | _ => None end.
Definition demo_created : Daemon * list E.AuditEventType * Reply :=
  service_call demo_approved.1 (demo_env x03) false (Some demo_vault) demo_op demo_approval.
Definition demo_token : string := match demo_created.2 with Created _ t => t | _ => "" end.

Definition demo_trace : list Ev :=
  ([] ++ match demo_approved.2 with
         | StepUpReceipt id _ => [EvMinted "pw" id 3 (to_vec demo_op) 0]
         | _ => [] end) ++ call_events false demo_approved.1 (demo_env x03) demo_op demo_approval demo_created.2.

Lemma demo_run : rtc (daemon_step demo_dek demo_opens false) (daemon_start, []) (demo_created.1.1, demo_trace).
Proof.
  eapply rtc_l; [exact (s_unlock demo_dek demo_opens false daemon_start [] demo_vault eq_refl)|].
  eapply rtc_l.
  { refine (s_authorize demo_dek demo_opens false demo_unlocked [] (demo_env x02) 0 false "pw" demo_op
      demo_approved.1 demo_approved.2 _ _); [apply not_elem_of_nil|apply surjective_pairing]. }
  eapply rtc_l; [|apply rtc_refl].
  refine (s_call demo_dek demo_opens false _ _ (demo_env x03) (Some demo_vault) demo_op demo_approval
    demo_created.1.1 demo_created.1.2 demo_created.2 _ _).
  - refine (bool_decide_unpack _ _). vm_compute. exact I.
  - fold demo_created. destruct demo_created as [[? ?] ?]. reflexivity.
Qed.

Lemma service_secret_release_witness :
  service_get_secret demo_created.1.1 (demo_env x04) (Some demo_vault) "svc" 9 "password" demo_token =
    ([E.CredentialViewed 9], Report "authorized" (Some "secret")) /\
  exists gid fs expires pins fp tb,
    EvCreate (ServiceGrantCreate "svc" 9 fs expires pins fp) gid tb ∈ demo_trace /\
    consented demo_opens demo_trace (ServiceGrantCreate "svc" 9 fs expires pins fp).
Proof.
  assert (service_get_secret demo_created.1.1 (demo_env x04) (Some demo_vault) "svc" 9 "password" demo_token =
    ([E.CredentialViewed 9], Report "authorized" (Some "secret"))) as E by (vm_compute; reflexivity).
  split; [exact E|].
  destruct (service_secret_release demo_dek demo_key demo_opens false demo_key_ok demo_created.1.1 demo_trace (demo_env x04)
    (Some demo_vault) "svc" 9 "password" demo_token [E.CredentialViewed 9] "secret" demo_run E)
    as (gid & fs & ex & pins & fp & tb & Hc & Hco & _).
  exists gid, fs, ex, pins, fp, tb. split; [exact Hc|exact Hco].
Defined.

Lemma approval_single_use_witness : NoDup (accepted_ids demo_trace) /\ accepted_ids demo_trace <> [].
Proof.
  split.
  - exact (proj1 (approval_single_use demo_dek demo_key demo_opens false demo_key_ok demo_created.1.1 demo_trace demo_run)).
  - intros E. apply (f_equal (@length string)) in E. vm_compute in E. congruence.
Defined.
