(* ===== verification/Session.v ===== *)
(** * The session protocol of the daemon's socket ([sentinelpass-protocol]:
      [transport/mod.rs], [transport/unix.rs], [session.rs], [connection.rs],
      [envelope.rs], [client.rs]; [daemon/ipc/server.rs], [run_connection])

    Length-prefixed messages on a byte stream, the handshake, sealed frames with
    a counter per direction, and the two ends that exchange envelopes over them.
    The content of a message and the handler behind the daemon are parameters.
    A stream is the bytes still to be read; a read that finds too few of them
    ends with [Io] (end of file) or [Timeout], here [Io]. *)

From S2P Require Import Prelude Text ThirdParty SyncWire.
From Stdlib Require Import ZArith Lia Strings.String Strings.Ascii Strings.Byte.
From stdpp Require Import base list option strings numbers.
From S2P Require Import Text.
Open Scope Z_scope.

(** ** Messages on a stream *)

Definition MAX_MESSAGE_SIZE : Z := 65536.

Inductive TransportError :=
| ConnectionFailed (msg : string)
| Io
| MessageTooLarge (size max : Z)
| InvalidFormat (msg : string)
| Encryption (msg : string)
| Decryption (msg : string)
| Closed
| Timeout
| OtherTransport (msg : string).

Abbreviation TransportResult A := (result TransportError A).

Definition read_message (stream : bytes) : TransportResult (bytes * bytes) :=
  if (length stream <? 4)%nat then Err Io
  else
  let n := of_be_bytes (take 4 stream) in
  if (n =? 0) || (MAX_MESSAGE_SIZE <? n) then Err (MessageTooLarge n MAX_MESSAGE_SIZE)
  else
  let rest := drop 4 stream in
  if Z.of_nat (length rest) <? n then Err Io
  else Ok (take (Z.to_nat n) rest, drop (Z.to_nat n) rest).

(** What [write_message] puts on the stream; the length is cast to [u32]
    before it is checked. *)
Definition write_message (data : bytes) : TransportResult bytes :=
  let n := Z.of_nat (length data) mod 2 ^ 32 in
  if MAX_MESSAGE_SIZE <? n then Err (MessageTooLarge (Z.of_nat (length data)) MAX_MESSAGE_SIZE)
  else Ok (to_be_bytes 4 n ++ data).

(** ** The session ([session.rs]) *)

Definition SESSION_PROTO_VERSION : Z := 1.
Definition AAD_MAGIC : bytes := as_bytes "SPIS".

Record SessionHello := { sh_v : Z; sh_cr : string }.
Record SessionAccept := { sa_v : Z; sa_sr : string }.

Inductive Direction := ClientToServer | ServerToClient.
#[global] Instance Direction_eq_dec : EqDecision Direction.
Proof. solve_decision. Defined.

Definition opposite (d : Direction) : Direction :=
  match d with ClientToServer => ServerToClient | ServerToClient => ClientToServer end.
Definition direction_tag (d : Direction) : Z := match d with ClientToServer => 1 | ServerToClient => 2 end.
Definition direction_info (d : Direction) : string :=
  match d with
  | ClientToServer => "sentinelpass-ipc v1 client-to-server"
  | ServerToClient => "sentinelpass-ipc v1 server-to-client"
  end.

Record DirectionState := { ds_key : bytes; ds_direction : Direction; ds_counter : Z }.

Definition new_direction (key : bytes) (d : Direction) : DirectionState :=
  {| ds_key := key; ds_direction := d; ds_counter := 0 |}.
Definition set_counter (s : DirectionState) (c : Z) : DirectionState :=
  {| ds_key := ds_key s; ds_direction := ds_direction s; ds_counter := c |}.

Definition next_counter (s : DirectionState) : TransportResult DirectionState :=
  if ds_counter s =? 2 ^ 64 - 1 then Err (OtherTransport "session counter exhausted")
  else Ok (set_counter s (ds_counter s + 1)).

Definition accept_counter (s : DirectionState) (counter : Z) : TransportResult DirectionState :=
  if counter <=? ds_counter s then Err (OtherTransport "rejected frame")
  else Ok (set_counter s counter).

(** [to_le_bytes] of an integer of [n] bytes. *)
Definition le_bytes (n : nat) (z : Z) : bytes := rev (to_be_bytes n z).

Definition frame_aad (d : Direction) (proto counter : Z) : bytes :=
  AAD_MAGIC ++ le_bytes 2 proto ++ [byte_of_Z (direction_tag d)] ++ le_bytes 8 counter.

Definition counter_nonce (counter : Z) : bytes := replicate 4 x00 ++ to_be_bytes 8 counter.

(** The counter a frame carries. *)
Definition frame_counter (frame : bytes) : Z := of_be_bytes (drop 4 (take 12 frame)).

Record SessionCrypto := { sc_send : DirectionState; sc_recv : DirectionState }.

(** [Hkdf::<Sha256>::new(Some(salt), key)] and [expand(info, out)]. *)
Class HkdfSalted := hkdf_salted : bytes -> bytes -> bytes -> Z -> option bytes.  (* salt, key, info, length *)

Section Session.
Context `{Sha256, HexDecode, HkdfSalted, Aead, SerdeBytes SessionHello, SerdeBytes SessionAccept}.

Definition token_material (token : string) : bytes :=
  match hex_decode (trim token) with
  | Some b => if (length b =? 32)%nat then b else sha256 (as_bytes (trim token))
  | None => sha256 (as_bytes (trim token))
  end.

Definition derive_directional_keys (token : string) (client_random server_random : bytes) : TransportResult (bytes * bytes) :=
  let expand d := ok_or (hkdf_salted (client_random ++ server_random) (token_material token) (as_bytes (direction_info d)) 32)
                    (OtherTransport "hkdf expand failed") in
  c2s ← expand ClientToServer;
  s2c ← expand ServerToClient;
  Ok (c2s, s2c).

Definition crypto_client (c2s s2c : bytes) : SessionCrypto :=
  {| sc_send := new_direction c2s ClientToServer; sc_recv := new_direction s2c ServerToClient |}.
Definition crypto_server (c2s s2c : bytes) : SessionCrypto :=
  {| sc_send := new_direction s2c ServerToClient; sc_recv := new_direction c2s ClientToServer |}.

Definition session_seal (s : SessionCrypto) (plaintext : bytes) : SessionCrypto * TransportResult bytes :=
  match next_counter (sc_send s) with
  | Err e => (s, Err e)
  | Ok send =>
    let counter := ds_counter send in
    let nonce := counter_nonce counter in
    let aad := frame_aad (ds_direction send) SESSION_PROTO_VERSION counter in
    ({| sc_send := send; sc_recv := sc_recv s |},
     match gcm_encrypt (ds_key send) nonce aad plaintext with
     | Some c => Ok (nonce ++ c)
     | None => Err (OtherTransport "session seal failed")
     end)
  end.

Definition session_open (s : SessionCrypto) (frame : bytes) : SessionCrypto * TransportResult bytes :=
  let len := Z.of_nat (length frame) in
  if (len <=? 12) || (MAX_MESSAGE_SIZE + 16 <? len) then (s, Err (OtherTransport "session frame out of bounds"))
  else
  let nonce := take 12 frame in
  let counter := frame_counter frame in
  match accept_counter (sc_recv s) counter with
  | Err e => (s, Err e)
  | Ok recv =>
    let aad := frame_aad (ds_direction recv) SESSION_PROTO_VERSION counter in
    ({| sc_send := sc_send s; sc_recv := recv |},
     match gcm_decrypt (ds_key recv) nonce aad (drop 12 frame) with
     | Some p => Ok p
     | None => Err (OtherTransport "session frame failed authentication (wrong key, direction, or tampered)")
     end)
  end.

Definition is_session_hello (first_frame : bytes) : bool :=
  match from_slice first_frame with
  | Some hello => (sh_v hello =? SESSION_PROTO_VERSION) && (String.length (sh_cr hello) =? 64)%nat
  | None => false
  end.

Definition parse_hello (frame : bytes) : TransportResult SessionHello :=
  hello ← ok_or (from_slice frame) (OtherTransport "invalid SessionHello");
  _ ← err_if (negb (sh_v hello =? SESSION_PROTO_VERSION)) (OtherTransport "unsupported session protocol");
  _ ← err_if (negb (String.length (sh_cr hello) =? 64)%nat)
        (OtherTransport "SessionHello client random must be 32 hex bytes");
  Ok hello.

Definition parse_accept (frame : bytes) : TransportResult SessionAccept :=
  accept ← ok_or (from_slice frame) (OtherTransport "invalid SessionAccept");
  _ ← err_if (negb (sa_v accept =? SESSION_PROTO_VERSION)) (OtherTransport "unsupported session protocol");
  _ ← err_if (negb (String.length (sa_sr accept) =? 64)%nat)
        (OtherTransport "SessionAccept server random must be 32 hex bytes");
  Ok accept.

Definition new_hello (cr : bytes) : SessionHello := {| sh_v := SESSION_PROTO_VERSION; sh_cr := hex_encode cr |}.
Definition new_accept (sr : bytes) : SessionAccept := {| sa_v := SESSION_PROTO_VERSION; sa_sr := hex_encode sr |}.

(** [hex::decode_to_slice] into 32 bytes. *)
Definition decode_to_slice (s : string) : option bytes :=
  b ← hex_decode s; if (length b =? 32)%nat then Some b else None.

Definition client_random_of (hello : SessionHello) : TransportResult bytes :=
  ok_or (decode_to_slice (sh_cr hello)) (OtherTransport "invalid client random").
Definition server_random_of (accept : SessionAccept) : TransportResult bytes :=
  ok_or (decode_to_slice (sa_sr accept)) (OtherTransport "invalid server random").

(** ** The connection ([connection.rs]) *)

Inductive IpcConnection := Secured (crypto : SessionCrypto) | Plain.

(** [connect_client]: the hello put on the stream, and what follows the reply. *)
Definition client_hello (cr : bytes) : TransportResult bytes := write_message (to_vec (new_hello cr)).

Definition connect_client (token : string) (cr : bytes) (stream : bytes) : TransportResult (IpcConnection * bytes) :=
  '(reply, rest) ← read_message stream;
  accept ← parse_accept reply;
  server_random ← server_random_of accept;
  '(c2s, s2c) ← derive_directional_keys token cr server_random;
  Ok (Secured (crypto_client c2s s2c), rest).

(** [accept_server]: the connection, the first frame of a plain client, what
    is put on the stream and what is left of it. *)
Definition accept_server (token : string) (plain_window : bool) (sr : bytes) (stream : bytes)
    : TransportResult (IpcConnection * option bytes * bytes * bytes) :=
  '(first, rest) ← read_message stream;
  if is_session_hello first then
    hello ← parse_hello first;
    client_random ← client_random_of hello;
    out ← write_message (to_vec (new_accept sr));
    '(c2s, s2c) ← derive_directional_keys token client_random sr;
    Ok (Secured (crypto_server c2s s2c), None, out, rest)
  else if plain_window then Ok (Plain, Some first, [], rest)
  else Err (OtherTransport "refused LEGACY plaintext IPC session").

Definition send_frame (c : IpcConnection) (envelope_bytes : bytes) : IpcConnection * TransportResult bytes :=
  match c with
  | Secured crypto =>
    let '(crypto, r) := session_seal crypto envelope_bytes in
    (Secured crypto, sealed ← r; write_message sealed)
  | Plain => (c, write_message envelope_bytes)
  end.

Definition recv_frame (c : IpcConnection) (stream : bytes) : IpcConnection * TransportResult (bytes * bytes) :=
  match read_message stream with
  | Err e => (c, Err e)
  | Ok (raw, rest) =>
    match c with
    | Secured crypto =>
      let '(crypto, r) := session_open crypto raw in
      (Secured crypto, p ← r; Ok (p, rest))
    | Plain => (c, Ok (raw, rest))
    end
  end.
End Session.

(** ** The two ends *)

(** [Origin] and [IpcEnvelope]; [M] is the type of messages. *)
Inductive Origin := NativeHost | Cli.

Record IpcEnvelope (M : Type) := {
  ie_token : string;
  ie_client_token : option string;
  ie_origin : option Origin;
  ie_capability : option string;
  ie_message : M;
}.
Arguments Build_IpcEnvelope {M}.
Arguments ie_token {M}. Arguments ie_client_token {M}. Arguments ie_origin {M}. Arguments ie_capability {M}.
Arguments ie_message {M}.

Section Ends.
Context `{Sha256, HexDecode, HkdfSalted, Aead, SerdeBytes SessionHello, SerdeBytes SessionAccept}.
Context {M : Type} `{SerdeBytes M, SerdeBytes (IpcEnvelope M)}.
(** The daemon behind the socket: its state, and [handle_message]. *)
Context {S : Type} (handle_message : S -> IpcEnvelope M -> S * M).

Definition process_frame (auth_token : string) (s : S) (frame : bytes) : S * option bytes :=
  match from_slice frame with
  | Some envelope =>
    if negb (String.eqb (ie_token envelope) auth_token) then (s, None)
    else let '(s, response) := handle_message s envelope in (s, Some (to_vec response))
  | None => (s, None)
  end.

(** The loop of [run_connection] on the bytes that arrive before the peer
    closes: the state of the daemon and the bytes it writes.  Every turn reads
    a message, so the length of the input is enough fuel. *)
Fixpoint serve (fuel : nat) (auth_token : string) (s : S) (c : IpcConnection) (stream : bytes) : S * bytes :=
  match fuel with
  | O => (s, [])
  | Datatypes.S fuel =>
    match recv_frame c stream with
    | (_, Err _) => (s, [])
    | (c, Ok (frame, rest)) =>
      match process_frame auth_token s frame with
      | (s, None) => serve fuel auth_token s c rest
      | (s, Some response) =>
        match send_frame c response with
        | (_, Err _) => (s, [])
        | (c, Ok out) => let '(s, outs) := serve fuel auth_token s c rest in (s, out ++ outs)
        end
      end
    end
  end.

Definition run_connection (auth_token : string) (plain_window : bool) (sr : bytes) (s : S) (stream : bytes) : S * bytes :=
  match accept_server auth_token plain_window sr stream with
  | Err _ => (s, [])
  | Ok (c, first, out, rest) =>
    match first with
    | None => let '(s, outs) := serve (length rest) auth_token s c rest in (s, out ++ outs)
    | Some frame =>
      match process_frame auth_token s frame with
      | (s, None) => let '(s, outs) := serve (length rest) auth_token s c rest in (s, out ++ outs)
      | (s, Some response) =>
        match send_frame c response with
        | (_, Err _) => (s, out)
        | (c, Ok reply) => let '(s, outs) := serve (length rest) auth_token s c rest in (s, out ++ reply ++ outs)
        end
      end
    end
  end.

(** [IpcClient::send_on], the request and the reply. *)
Record IpcClient := {
  cl_auth_token : string;
  cl_client_token : option string;
  cl_origin : option Origin;
  cl_capability : option string;
}.

Definition client_envelope (cl : IpcClient) (msg : M) : IpcEnvelope M :=
  {| ie_token := cl_auth_token cl; ie_client_token := cl_client_token cl; ie_origin := cl_origin cl;
     ie_capability := cl_capability cl; ie_message := msg |}.

Definition client_send (cl : IpcClient) (c : IpcConnection) (msg : M) : IpcConnection * TransportResult bytes :=
  send_frame c (to_vec (client_envelope cl msg)).

Definition client_receive (c : IpcConnection) (stream : bytes) : IpcConnection * TransportResult (option M * bytes) :=
  let '(c, r) := recv_frame c stream in
  (c, '(buffer, rest) ← r; Ok (from_slice buffer, rest)).

(** The requests of a client that keeps its connection, and the replies. *)
Fixpoint client_send_all (cl : IpcClient) (c : IpcConnection) (msgs : list M) : IpcConnection * TransportResult bytes :=
  match msgs with
  | [] => (c, Ok [])
  | msg :: msgs =>
    match client_send cl c msg with
    | (c, Err e) => (c, Err e)
    | (c, Ok out) => let '(c, r) := client_send_all cl c msgs in (c, outs ← r; Ok (out ++ outs))
    end
  end.

Fixpoint client_receive_all (n : nat) (c : IpcConnection) (stream : bytes) : TransportResult (list (option M)) :=
  match n with
  | O => Ok []
  | Datatypes.S n =>
    let '(c, r) := client_receive c stream in
    '(m, rest) ← r;
    ms ← client_receive_all n c rest;
    Ok (m :: ms)
  end.

(** The daemon without a socket. *)
Fixpoint handle_all (s : S) (es : list (IpcEnvelope M)) : S * list M :=
  match es with
  | [] => (s, [])
  | e :: es =>
    let '(s, r) := handle_message s e in
    let '(s, rs) := handle_all s es in (s, r :: rs)
  end.
End Ends.
