(* ===== verification/SessionFacts.v ===== *)
(** * The session protocol: what the two ends can rely on

    Over a stream that loses nothing the socket is transparent: every request
    reaches the daemon once and in order, and every reply comes back.  Against
    a peer that drops, repeats, reorders, reflects and makes up frames, what an
    end accepts is a subsequence of what the other end sealed, unless the
    cipher opens what neither end sealed with it. *)

From S2P Require Import Prelude Text ThirdParty EntriesDemo SyncWire Session.
From Stdlib Require Import ZArith Lia Strings.String Strings.Ascii Strings.Byte.
From stdpp Require Import base list option strings numbers relations.
From S2P Require Import Text.
Open Scope Z_scope.

(** AES-GCM refuses no message the socket can carry, and [hex] doubles a
    length. *)
Class AeadTotal `{Aead} : Prop :=
  gcm_encrypt_total : forall k n a m, Z.of_nat (length m) <= MAX_MESSAGE_SIZE -> is_Some (gcm_encrypt k n a m).
Class HexWidth `{Sha256} : Prop := hex_width : forall b, String.length (hex_encode b) = (2 * length b)%nat.

(** ** Messages *)

Definition length_prefix (d : bytes) : bytes := to_be_bytes 4 (Z.of_nat (length d)).

Lemma write_fits d : Z.of_nat (length d) <= MAX_MESSAGE_SIZE -> write_message d = Ok (length_prefix d ++ d).
Proof.
  unfold write_message, MAX_MESSAGE_SIZE. intros Hd. rewrite Z.mod_small by lia.
  by rewrite (proj2 (Z.ltb_ge _ _)) by lia.
Qed.

Lemma read_written d rest :
  0 < Z.of_nat (length d) <= MAX_MESSAGE_SIZE -> read_message ((length_prefix d ++ d) ++ rest) = Ok (d, rest).
Proof.
  intros Hd. pose proof Hd as Hd'. unfold MAX_MESSAGE_SIZE in Hd'. unfold read_message, length_prefix. rewrite <- app_assoc.
  pose proof (to_be_bytes_length 4 (Z.of_nat (length d))) as E4.
  rewrite length_app, E4, (proj2 (Nat.ltb_ge _ _)) by lia.
  rewrite take_app_length' by done. rewrite drop_app_length' by done. rewrite of_to_be_bytes, Z.mod_small by lia.
  rewrite (proj2 (Z.eqb_neq _ _)) by lia. rewrite (proj2 (Z.ltb_ge MAX_MESSAGE_SIZE _)) by lia. simpl.
  rewrite length_app, (proj2 (Z.ltb_ge _ _)) by lia. rewrite Nat2Z.id.
  by rewrite take_app_length, drop_app_length.
Qed.

(** The cast comes before the check: a message of [2^32 + n] bytes is announced
    as one of [n], and an empty message is written that no reader accepts. *)
Lemma write_truncates d n :
  Z.of_nat (length d) = 2 ^ 32 + n -> 0 <= n <= MAX_MESSAGE_SIZE -> write_message d = Ok (to_be_bytes 4 n ++ d).
Proof.
  unfold write_message, MAX_MESSAGE_SIZE. intros -> Hn.
  replace ((2 ^ 32 + n) mod 2 ^ 32) with n by (rewrite Zplus_mod, Z_mod_same_full, Z.add_0_l, Zmod_mod, Z.mod_small; lia).
  by rewrite (proj2 (Z.ltb_ge _ _)) by lia.
Qed.
Lemma empty_unreadable rest : exists out, write_message [] = Ok out /\
  read_message (out ++ rest) = Err (MessageTooLarge 0 MAX_MESSAGE_SIZE).
Proof. eexists. split; [reflexivity|]. done. Qed.

(** ** One frame *)

Lemma counter_nonce_length c : length (counter_nonce c) = 12%nat.
Proof. unfold counter_nonce. by rewrite length_app, to_be_bytes_length. Qed.

Lemma frame_counter_nonce c rest : 0 <= c < 2 ^ 64 -> frame_counter (counter_nonce c ++ rest) = c.
Proof.
  intros Hc. unfold frame_counter. rewrite take_app_length' by (symmetry; apply counter_nonce_length).
  unfold counter_nonce. rewrite drop_app_length' by done. rewrite of_to_be_bytes. apply Z.mod_small. done.
Qed.

Section Facts.
Context `{Sha256, HexDecode, HkdfSalted, Aead, SerdeBytes SessionHello, SerdeBytes SessionAccept}.

(** The frame of a counter in a direction. *)
Definition is_frame (d : DirectionState) (c : Z) (p f : bytes) : Prop :=
  exists ct, gcm_encrypt (ds_key d) (counter_nonce c) (frame_aad (ds_direction d) SESSION_PROTO_VERSION c) p = Some ct /\
    f = counter_nonce c ++ ct.

Lemma session_seal_ok s p s' f :
  session_seal s p = (s', Ok f) ->
  ds_counter (sc_send s) <> 2 ^ 64 - 1 /\ sc_recv s' = sc_recv s /\
  sc_send s' = set_counter (sc_send s) (ds_counter (sc_send s) + 1) /\
  is_frame (sc_send s) (ds_counter (sc_send s) + 1) p f.
Proof.
  unfold session_seal, next_counter. destruct (ds_counter (sc_send s) =? 2 ^ 64 - 1) eqn:E; propify; [done|].
  cbn [set_counter ds_counter ds_key ds_direction]. intros Hs. injection Hs as <- Hf. simpl. split_and!; try done.
  destruct (gcm_encrypt _ _ _ _) as [ct|] eqn:Ec; [|done]. injection Hf as <-. exists ct. done.
Qed.

Lemma open_frame `{!AeadLaws} s d c p f :
  is_frame d c p f -> 0 <= c < 2 ^ 64 -> Z.of_nat (length f) <= MAX_MESSAGE_SIZE + 16 ->
  ds_key (sc_recv s) = ds_key d -> ds_direction (sc_recv s) = ds_direction d -> ds_counter (sc_recv s) < c ->
  session_open s f = ({| sc_send := sc_send s; sc_recv := set_counter (sc_recv s) c |}, Ok p).
Proof.
  intros (ct & Ec & ->) Hc Hl Hk Hd Hlt. unfold session_open.
  pose proof (gcm_encrypt_length _ _ _ _ _ Ec) as Lc. rewrite length_app, counter_nonce_length in *.
  rewrite (proj2 (Z.leb_gt _ _)) by lia. rewrite (proj2 (Z.ltb_ge _ _)) by lia. cbn [orb]. cbv zeta.
  rewrite frame_counter_nonce by done. unfold accept_counter. rewrite (proj2 (Z.leb_gt _ _)) by lia.
  cbn [set_counter ds_key ds_direction]. rewrite take_app_length', drop_app_length' by (symmetry; apply counter_nonce_length).
  rewrite Hk, Hd. by rewrite (gcm_decrypt_encrypt _ _ _ _ _ Ec).
Qed.

(** ** A hostile wire *)

(** What the two ends did: an end sealed a message in its direction, or opened
    a frame of the other's. *)
Inductive Ev := Sealed (d : Direction) (p f : bytes) | Opened (d : Direction) (p f : bytes).

Definition sealed_in (d : Direction) (e : Ev) : option bytes :=
  match e with Sealed d' p _ => if decide (d' = d) then Some p else None | Opened _ _ _ => None end.
Definition opened_in (d : Direction) (e : Ev) : option bytes :=
  match e with Opened d' p _ => if decide (d' = d) then Some p else None | Sealed _ _ _ => None end.

Record Ends := { en_client : SessionCrypto; en_server : SessionCrypto }.

(** One step: an end seals a message or is handed any frame whatsoever. *)
Inductive wire_step : Ends * list Ev -> Ends * list Ev -> Prop :=
| w_client_seals c s h p c' f :
    session_seal c p = (c', Ok f) ->
    wire_step ({| en_client := c; en_server := s |}, h)
      ({| en_client := c'; en_server := s |}, h ++ [Sealed ClientToServer p f])
| w_server_seals c s h p s' f :
    session_seal s p = (s', Ok f) ->
    wire_step ({| en_client := c; en_server := s |}, h)
      ({| en_client := c; en_server := s' |}, h ++ [Sealed ServerToClient p f])
| w_client_opens c s h f c' r :
    session_open c f = (c', r) ->
    wire_step ({| en_client := c; en_server := s |}, h)
      ({| en_client := c'; en_server := s |}, h ++ match r with Ok p => [Opened ServerToClient p f] | Err _ => [] end)
| w_server_opens c s h f s' r :
    session_open s f = (s', r) ->
    wire_step ({| en_client := c; en_server := s |}, h)
      ({| en_client := c; en_server := s' |}, h ++ match r with Ok p => [Opened ClientToServer p f] | Err _ => [] end).

(** The arguments of the AEAD call by which an end seals or opens a frame in a
    direction: key, nonce, associated data, ciphertext. *)
Definition aead_call (keys : Direction -> bytes) (d : Direction) (f : bytes) : bytes * bytes * bytes * bytes :=
  (keys d, take 12 f, frame_aad d SESSION_PROTO_VERSION (frame_counter f), drop 12 f).

(** A forgery against the cipher: it opened a ciphertext under a key, a nonce
    and associated data for which neither end had sealed it, the receiver
    included. *)
Definition forged (keys : Direction -> bytes) (d : Direction) (h : list Ev) : Prop :=
  exists h1 h2 p f, h = h1 ++ Opened d p f :: h2 /\
    forall d' p' f', Sealed d' p' f' ∈ h1 -> aead_call keys d' f' <> aead_call keys d f.

Lemma forged_app keys d h h' : forged keys d h -> forged keys d (h ++ h').
Proof. intros (h1 & h2 & p & f & -> & Hn). exists h1, (h2 ++ h'), p, f. by rewrite <- app_assoc. Qed.

(** The associated data tell the directions apart. *)
Lemma frame_aad_direction d d' v c v' c' : frame_aad d v c = frame_aad d' v' c' -> d = d'.
Proof.
  unfold frame_aad. intros E. apply (f_equal (fun l => l !! 6%nat)) in E.
  destruct d, d'; [done|by vm_compute in E|by vm_compute in E|done].
Qed.

Section Flows.
Context (keys : Direction -> bytes).

(** One direction of a run: the frames sealed carry the counters 1, 2, ... of
    the sender, and the messages opened come, in order, from those at most the
    counter of the receiver. *)
Record Flow (d : Direction) (send recv : DirectionState) (h : list Ev) : Prop := {
  fl_send : ds_direction send = d;
  fl_recv : ds_direction recv = d;
  fl_send_key : ds_key send = keys d;
  fl_recv_key : ds_key recv = keys d;
  fl_counter : ds_counter send = Z.of_nat (length (omap (sealed_in d) h));
  fl_bound : 0 <= ds_counter recv;
  fl_sent : ds_counter send < 2 ^ 64;
  fl_frames : forall p f, Sealed d p f ∈ h -> exists i : nat,
    omap (sealed_in d) h !! i = Some p /\ is_frame send (Z.of_nat i + 1) p f;
  fl_order : omap (opened_in d) h `sublist_of` take (Z.to_nat (ds_counter recv)) (omap (sealed_in d) h) \/ forged keys d h;
}.

Lemma omap_snoc {A B} (g : A -> option B) l x : omap g (l ++ [x]) = omap g l ++ match g x with Some y => [y] | None => [] end.
Proof. rewrite omap_app. simpl. by destruct (g x). Qed.

Lemma is_frame_counter s c c' p f : is_frame (set_counter s c') c p f <-> is_frame s c p f.
Proof. done. Qed.

(** An event of the other direction. *)
Lemma flow_other d send recv h e :
  Flow d send recv h -> sealed_in d e = None -> opened_in d e = None -> Flow d send recv (h ++ [e]).
Proof.
  intros [A B K K' C D F G O] Es Eo.
  assert (omap (sealed_in d) (h ++ [e]) = omap (sealed_in d) h) as E1 by (by rewrite omap_snoc, Es, app_nil_r).
  assert (omap (opened_in d) (h ++ [e]) = omap (opened_in d) h) as E2 by (by rewrite omap_snoc, Eo, app_nil_r).
  constructor; rewrite ?E1, ?E2; try done.
  - intros p f [Hin|Hin%list_elem_of_singleton]%elem_of_app; [by apply G|]. subst e. simpl in Es. by rewrite decide_True in Es.
  - destruct O as [O|O]; [by left|right; by apply forged_app].
Qed.

Lemma flow_seal d send recv h p f :
  Flow d send recv h -> ds_counter send <> 2 ^ 64 - 1 -> is_frame send (ds_counter send + 1) p f ->
  Flow d (set_counter send (ds_counter send + 1)) recv (h ++ [Sealed d p f]).
Proof.
  intros [A B K K' C D F G O] Hc Hf.
  assert (omap (sealed_in d) (h ++ [Sealed d p f]) = omap (sealed_in d) h ++ [p]) as E1
    by (rewrite omap_snoc; simpl; by rewrite decide_True).
  assert (omap (opened_in d) (h ++ [Sealed d p f]) = omap (opened_in d) h) as E2
    by (by rewrite omap_snoc, app_nil_r).
  constructor; rewrite ?E1, ?E2; cbn [set_counter ds_key ds_direction ds_counter]; try done.
  - rewrite length_app. simpl. lia.
  - lia.
  - intros p' f' [Hin|Hin%list_elem_of_singleton]%elem_of_app.
    + destruct (G _ _ Hin) as (i & Hi & Hfr). exists i. split; [by apply lookup_app_l_Some|by apply is_frame_counter].
    + injection Hin as -> ->. exists (length (omap (sealed_in d) h)). split; [by apply list_lookup_middle|].
      apply is_frame_counter. by rewrite <- C.
  - destruct O as [O|O]; [left|right; by apply forged_app].
    etrans; [exact O|]. rewrite take_app. apply sublist_inserts_r. done.
Qed.

(** The receiver moves on without accepting a message. *)
Lemma flow_skip d send recv h c :
  Flow d send recv h -> ds_counter recv <= c -> Flow d send (set_counter recv c) h.
Proof.
  intros [A B K K' C D F G O] Hc. constructor; cbn [set_counter ds_key ds_direction ds_counter]; try done; [lia|].
  destruct O as [O|O]; [left|by right]. etrans; [exact O|].
  replace (Z.to_nat c) with (Z.to_nat (ds_counter recv) + (Z.to_nat c - Z.to_nat (ds_counter recv)))%nat by lia.
  rewrite <- take_take_drop. apply sublist_inserts_r. done.
Qed.

(** Some end has made the AEAD call of a frame, or none has. *)
Lemma sealed_dec d f (h : list Ev) :
  (exists d' p' f', Sealed d' p' f' ∈ h /\ aead_call keys d' f' = aead_call keys d f) \/
  (forall d' p' f', Sealed d' p' f' ∈ h -> aead_call keys d' f' <> aead_call keys d f).
Proof.
  induction h as [|e h IH]; [right; intros ???; by rewrite elem_of_nil|].
  destruct IH as [(d' & p' & f' & Hin & E)|Hno]; [left; exists d', p', f'; split; [by right|done]|].
  destruct e as [d1 p1 f1|d1 p1 f1].
  2:{ right. intros d' p' f' [?|?]%elem_of_cons; [done|eauto]. }
  destruct (decide (aead_call keys d1 f1 = aead_call keys d f)) as [E|Hne].
  - left. exists d1, p1, f1. split; [left|done].
  - right. intros d' p' f' [[= -> -> ->]|?]%elem_of_cons; [done|eauto].
Qed.

Lemma frame_nonce d c p f : is_frame d c p f -> take 12 f = counter_nonce c.
Proof. intros (ct & _ & ->). apply take_app_length'. symmetry. apply counter_nonce_length. Qed.

Lemma flow_open `{!AeadLaws} d send r s f r' :
  Flow d send (sc_recv s) (r : list Ev) -> session_open s f = r' ->
  sc_send r'.1 = sc_send s /\
  Flow d send (sc_recv r'.1) (r ++ match r'.2 with Ok p => [Opened d p f] | Err _ => [] end).
Proof.
  intros Hf <-. unfold session_open. destruct ((_ <=? 12) || _); [by rewrite app_nil_r|].
  unfold accept_counter. destruct (frame_counter f <=? _) eqn:Ec; [by rewrite app_nil_r|]. propify.
  cbn [set_counter ds_key ds_direction fst snd sc_send sc_recv]. split; [done|].
  assert (Flow d send (set_counter (sc_recv s) (frame_counter f)) r) as Hf' by (apply flow_skip; [done|lia]).
  destruct (gcm_decrypt _ _ _ _) as [p|] eqn:Ed; [|by rewrite app_nil_r].
  pose proof Hf' as [A B K K' C D F G O].
  assert (omap (sealed_in d) (r ++ [Opened d p f]) = omap (sealed_in d) r) as E1 by (by rewrite omap_snoc, app_nil_r).
  assert (omap (opened_in d) (r ++ [Opened d p f]) = omap (opened_in d) r ++ [p]) as E2
    by (rewrite omap_snoc; simpl; by rewrite decide_True).
  constructor; rewrite ?E1, ?E2; try done.
  { intros p' f' [Hin|Hin%list_elem_of_singleton]%elem_of_app; [by apply G|done]. }
  destruct (sealed_dec d f r) as [(d' & p' & f' & Hp & Ecall)|Hno].
  2:{ right. by exists r, [], p, f. }
  assert (d' = d /\ f' = f) as [-> ->].
  { pose proof (f_equal (fun x => x.1.1.2) Ecall) as E1n. pose proof (f_equal (fun x => x.2) Ecall) as E3n. cbn [fst snd aead_call] in *.
    split; [exact (frame_aad_direction _ _ _ _ _ _ (f_equal (fun x => x.1.2) Ecall))|].
    by rewrite <- (take_drop 12 f'), <- (take_drop 12 f), E1n, E3n. }
  destruct (fl_order _ _ _ _ Hf) as [Hs|Hs]; [left|right; by apply forged_app].
  destruct (G _ _ Hp) as (i & Hi & Hfr).
  pose proof (lookup_lt_Some _ _ _ Hi) as Hlt. pose proof (frame_nonce _ _ _ _ Hfr) as En.
  pose proof Hfr as (ct & Ect & Ef). assert (frame_counter f = Z.of_nat i + 1) as Efc.
  { rewrite Ef. apply frame_counter_nonce. lia. }
  assert (p' = p) as ->.
  { apply gcm_decrypt_encrypt in Ect. rewrite Efc, En, Ef, drop_app_length' in Ed by (symmetry; apply counter_nonce_length).
    cbn [set_counter ds_direction ds_key] in *. rewrite B, K', <- K, <- A, Ect in Ed. by injection Ed. }
  cbn [set_counter ds_counter]. rewrite Efc. replace (Z.to_nat (Z.of_nat i + 1)) with (S i) by lia.
  rewrite (take_S_r _ _ _ Hi). apply sublist_app; [|done]. etrans; [exact Hs|].
  replace i with (Z.to_nat (ds_counter (sc_recv s)) + (i - Z.to_nat (ds_counter (sc_recv s))))%nat by lia.
  rewrite <- take_take_drop. apply sublist_inserts_r. done.
Qed.

Definition flows (st : Ends * list Ev) : Prop :=
  Flow ClientToServer (sc_send (en_client st.1)) (sc_recv (en_server st.1)) st.2 /\
  Flow ServerToClient (sc_send (en_server st.1)) (sc_recv (en_client st.1)) st.2.

Lemma flow_other_opened d send recv h (r : TransportResult bytes) f d' :
  Flow d send recv h -> d' <> d -> Flow d send recv (h ++ match r with Ok p => [Opened d' p f] | Err _ => [] end).
Proof.
  intros Hf Hd. destruct r; [|by rewrite app_nil_r]. apply flow_other; [done..|]. simpl. by rewrite decide_False.
Qed.

Lemma wire_step_flows `{!AeadLaws} st st' : wire_step st st' -> flows st -> flows st'.
Proof.
  intros [c s h p c' f E|c s h p s' f E|c s h f c' r E|c s h f s' r E] [F1 F2]; simpl in *.
  - apply session_seal_ok in E as (Hn & Er & Es & Hf). split; simpl; rewrite ?Er, ?Es.
    + by apply flow_seal.
    + apply flow_other; [done| |done]. done.
  - apply session_seal_ok in E as (Hn & Er & Es & Hf). split; simpl; rewrite ?Er, ?Es.
    + apply flow_other; [done| |done]. done.
    + by apply flow_seal.
  - destruct (flow_open _ _ _ _ _ _ F2 E) as [Es Hf]. simpl in *. split; simpl; [|done].
    rewrite Es. by apply flow_other_opened.
  - destruct (flow_open _ _ _ _ _ _ F1 E) as [Es Hf]. simpl in *. split; simpl; [done|].
    rewrite Es. by apply flow_other_opened.
Qed.

Lemma flow_start d : Flow d (new_direction (keys d) d) (new_direction (keys d) d) [].
Proof. constructor; simpl; try done. - intros p f Hin. by apply elem_of_nil in Hin. - by left. Qed.
End Flows.

Definition handshake_done (c2s s2c : bytes) : Ends :=
  {| en_client := crypto_client c2s s2c; en_server := crypto_server c2s s2c |}.
Definition session_keys (c2s s2c : bytes) (d : Direction) : bytes :=
  match d with ClientToServer => c2s | ServerToClient => s2c end.

(** C19. No replay, no reordering, no reflection: whatever the wire drops,
    repeats, reorders, reflects or makes up, and also when both directions have
    the same key, the messages an end of a session accepts are messages the
    other end sealed, in the order it sealed them and each at most once; unless
    the cipher was forged: it opened a ciphertext under a key, a nonce and
    associated data for which neither end, the receiver included, had sealed
    it. *)
Theorem session_in_order `{!AeadLaws} c2s s2c st d :
  rtc wire_step (handshake_done c2s s2c, []) st ->
  omap (opened_in d) st.2 `sublist_of` omap (sealed_in d) st.2 \/ forged (session_keys c2s s2c) d st.2.
Proof.
  intros Hr. set (keys := session_keys c2s s2c). assert (flows keys st) as [F1 F2].
  { refine (rtc_ind_r (fun st => flows keys st) _ _ _ _ Hr);
      [split; [apply (flow_start keys ClientToServer)|apply (flow_start keys ServerToClient)]|]. eauto using wire_step_flows. }
  assert (exists send recv, Flow keys d send recv st.2) as (send & recv & F) by (destruct d; eauto).
  destruct (fl_order _ _ _ _ _ F) as [O|O]; [left|by right]. etrans; [exact O|]. apply sublist_take.
Qed.
End Facts.

(** ** An honest stream *)

Section Transparent.
Context `{Sha256, HexDecode, HkdfSalted, Aead, SerdeBytes SessionHello, SerdeBytes SessionAccept}.
Context `{!HexDecodeLaws, !HexWidth, !AeadLaws, !AeadTotal, !SerdeBytesLaws SessionHello, !SerdeBytesLaws SessionAccept}.
Context {M : Type} `{SerdeBytes M, SerdeBytes (IpcEnvelope M), !SerdeBytesLaws M, !SerdeBytesLaws (IpcEnvelope M)}.
Context {S : Type} (handle_message : S -> IpcEnvelope M -> S * M).

(** The room of a message: a frame adds the nonce and the tag. *)
Definition fits (d : bytes) : Prop := Z.of_nat (length d) + 28 <= MAX_MESSAGE_SIZE.

Definition in_step (send recv : DirectionState) : Prop :=
  ds_key recv = ds_key send /\ ds_direction recv = ds_direction send /\ ds_counter recv = ds_counter send.

Lemma send_recv c d :
  0 <= ds_counter (sc_send c) < 2 ^ 64 - 1 -> fits d ->
  exists c' out, send_frame (Secured c) d = (Secured c', Ok out) /\ sc_recv c' = sc_recv c /\ (0 < length out)%nat /\
    ds_counter (sc_send c') = ds_counter (sc_send c) + 1 /\
    forall s, in_step (sc_send c) (sc_recv s) -> exists s',
      (forall rest, recv_frame (Secured s) (out ++ rest) = (Secured s', Ok (d, rest))) /\ sc_send s' = sc_send s /\
      in_step (sc_send c') (sc_recv s').
Proof.
  intros Hc Hd. unfold fits in Hd. destruct (gcm_encrypt_total (ds_key (sc_send c)) (counter_nonce (ds_counter (sc_send c) + 1))
    (frame_aad (ds_direction (sc_send c)) SESSION_PROTO_VERSION (ds_counter (sc_send c) + 1)) d) as [ct Ect]; [lia|].
  pose proof (gcm_encrypt_length _ _ _ _ _ Ect) as Lc. set (f := counter_nonce (ds_counter (sc_send c) + 1) ++ ct).
  assert (Z.of_nat (length f) = Z.of_nat (length d) + 28) as Lf.
  { unfold f. rewrite length_app, counter_nonce_length, Lc. lia. }
  exists {| sc_send := set_counter (sc_send c) (ds_counter (sc_send c) + 1); sc_recv := sc_recv c |}, (length_prefix f ++ f).
  split.
  { unfold send_frame, session_seal, next_counter. rewrite (proj2 (Z.eqb_neq _ _)) by lia.
    cbn [set_counter ds_key ds_direction ds_counter]. rewrite Ect. cbn [mbind result_bind]. fold f. rewrite write_fits by lia. done. }
  split; [done|]. split; [rewrite length_app; lia|]. split; [done|]. intros s (Hk & Hdir & Hcnt).
  exists {| sc_send := sc_send s; sc_recv := set_counter (sc_recv s) (ds_counter (sc_send c) + 1) |}.
  split; [|split; [done|by split_and!]]. intros rest. unfold recv_frame. rewrite read_written by lia.
  rewrite (open_frame s (sc_send c) (ds_counter (sc_send c) + 1) d f); try done; try lia. by exists ct.
Qed.

Lemma recv_nothing c : recv_frame c [] = (c, Err Io).
Proof. done. Qed.

Lemma client_send_all_recv cl c msgs c' r :
  client_send_all cl (Secured c) msgs = (Secured c', Ok r) -> sc_recv c' = sc_recv c.
Proof.
  revert c c' r. induction msgs as [|m msgs IH]; intros c c' r; [by injection 1 as <- _|].
  cbn [client_send_all]. unfold client_send, send_frame. destruct (session_seal c _) as [c1 [f|]] eqn:E; [|done].
  cbn [mbind result_bind]. destruct (write_message f); [|done]. apply session_seal_ok in E as (_ & E & _).
  destruct (client_send_all cl (Secured c1) msgs) as [c2 [o|]] eqn:Ec; [|done]. intros [= -> _].
  rewrite (IH _ _ _ Ec). done.
Qed.

Lemma exchange cl token msgs : token = cl_auth_token cl -> forall st c s x fuel,
  in_step (sc_send c) (sc_recv s) -> in_step (sc_send s) (sc_recv x) ->
  0 <= ds_counter (sc_send c) -> ds_counter (sc_send c) + Z.of_nat (length msgs) < 2 ^ 64 ->
  0 <= ds_counter (sc_send s) -> ds_counter (sc_send s) + Z.of_nat (length msgs) < 2 ^ 64 ->
  Forall (fun m => fits (to_vec (client_envelope cl m))) msgs ->
  Forall (fun r => fits (to_vec r)) (handle_all handle_message st (client_envelope cl <$> msgs)).2 ->
  (length msgs <= fuel)%nat ->
  exists c' requests out, client_send_all cl (Secured c) msgs = (Secured c', Ok requests) /\ sc_recv c' = sc_recv c /\
    (length msgs <= length requests)%nat /\
    serve handle_message fuel token st (Secured s) requests =
      ((handle_all handle_message st (client_envelope cl <$> msgs)).1, out) /\
    client_receive_all (length msgs) (Secured x) out =
      Ok (Some <$> (handle_all handle_message st (client_envelope cl <$> msgs)).2).
Proof.
  intros ->. induction msgs as [|m msgs IH]; intros st c s x fuel Hcs Hsx B0 B1 B2 B3 Hm Hr Hfuel.
  { exists c, [], []. split; [done|]. split; [done|]. split; [simpl; lia|]. split; [|done]. by destruct fuel. }
  apply Forall_cons in Hm as [Hm Hms]. rewrite fmap_cons in *. cbn [handle_all] in *.
  destruct (handle_message st (client_envelope cl m)) as [st1 r] eqn:Eh.
  destruct (handle_all handle_message st1 (client_envelope cl <$> msgs)) as [st2 rs] eqn:Ea. cbn [fst snd] in Hr |- *.
  apply Forall_cons in Hr as [Hr Hrs]. cbn [length] in *. destruct fuel as [|fuel]; [lia|].
  destruct (send_recv c (to_vec (client_envelope cl m))) as (c1 & out1 & E1 & Rc & Lo & Cc & R1); [lia|done|].
  destruct (R1 s Hcs) as (s1 & Er1 & Es1 & Hcs1).
  destruct (send_recv s1 (to_vec r)) as (s2 & out2 & E2 & Rs & _ & Cs & R2); [rewrite Es1; lia|done|].
  destruct (R2 x ltac:(by rewrite Es1)) as (x1 & Er2 & Ex1 & Hsx1).
  destruct (IH st1 c1 s2 x1 fuel) as (c2 & requests & out & I1 & I2 & I3 & I4 & I5); rewrite ?Ea; rewrite ?Rs; try done;
    rewrite ?Cc, ?Cs, ?Es1; try lia.
  rewrite Ea in I4, I5. cbn [fst snd] in I4, I5.
  exists c2, (out1 ++ requests), (out2 ++ out). split_and!.
  - cbn [client_send_all]. unfold client_send. rewrite E1, I1. done.
  - congruence.
  - rewrite length_app. lia.
  - cbn [serve]. rewrite Er1. unfold process_frame. rewrite from_slice_to_vec.
    cbn [client_envelope ie_token]. rewrite String.eqb_refl. cbn [negb]. fold (client_envelope cl m). rewrite Eh.
    rewrite E2, I4. done.
  - cbn [client_receive_all]. unfold client_receive. rewrite Er2. cbn [mbind result_bind]. rewrite I5.
    cbn [mbind result_bind]. by rewrite from_slice_to_vec.
Qed.

Lemma decode_random b : length b = 32%nat -> decode_to_slice (hex_encode b) = Some b.
Proof. intros Hb. unfold decode_to_slice. rewrite hex_decode_encode. simpl. by rewrite Hb. Qed.

Lemma hello_accepted token window cr sr c2s s2c rest :
  length cr = 32%nat -> derive_directional_keys token cr sr = Ok (c2s, s2c) ->
  0 < Z.of_nat (length (to_vec (new_hello cr))) <= MAX_MESSAGE_SIZE ->
  Z.of_nat (length (to_vec (new_accept sr))) <= MAX_MESSAGE_SIZE ->
  accept_server token window sr ((length_prefix (to_vec (new_hello cr)) ++ to_vec (new_hello cr)) ++ rest) =
    Ok (Secured (crypto_server c2s s2c), None, length_prefix (to_vec (new_accept sr)) ++ to_vec (new_accept sr), rest).
Proof.
  intros Hcr Hk Hh Ha. unfold accept_server. rewrite read_written by done. cbn [mbind result_bind].
  unfold is_session_hello, parse_hello, client_random_of. rewrite from_slice_to_vec.
  cbn [new_hello sh_v sh_cr ok_or mbind result_bind]. rewrite hex_width, Hcr, Z.eqb_refl. cbn -[derive_directional_keys write_message].
  rewrite decode_random by done. cbn -[derive_directional_keys write_message]. rewrite write_fits by done.
  cbn -[derive_directional_keys]. by rewrite Hk.
Qed.

Lemma accept_connects token cr sr c2s s2c rest :
  length sr = 32%nat -> derive_directional_keys token cr sr = Ok (c2s, s2c) ->
  0 < Z.of_nat (length (to_vec (new_accept sr))) <= MAX_MESSAGE_SIZE ->
  connect_client token cr ((length_prefix (to_vec (new_accept sr)) ++ to_vec (new_accept sr)) ++ rest) =
    Ok (Secured (crypto_client c2s s2c), rest).
Proof.
  intros Hsr Hk Ha. unfold connect_client. rewrite read_written by done. cbn [mbind result_bind].
  unfold parse_accept, server_random_of. rewrite from_slice_to_vec. cbn [new_accept sa_v sa_sr ok_or mbind result_bind].
  rewrite hex_width, Hsr, Z.eqb_refl. cbn -[derive_directional_keys]. rewrite decode_random by done.
  cbn -[derive_directional_keys]. by rewrite Hk.
Qed.

(** C20. The socket is transparent: a client and a daemon that share the
    token agree on a session, and every request of the client reaches the
    handler once, in order, and every reply comes back as the daemon gave it, as
    long as the messages fit a frame and fewer than 2^64 are sent. *)
Theorem ipc_transparent cl cr sr c2s s2c window st msgs :
  length cr = 32%nat -> length sr = 32%nat ->
  derive_directional_keys (cl_auth_token cl) cr sr = Ok (c2s, s2c) ->
  0 < Z.of_nat (length (to_vec (new_hello cr))) <= MAX_MESSAGE_SIZE ->
  0 < Z.of_nat (length (to_vec (new_accept sr))) <= MAX_MESSAGE_SIZE ->
  Z.of_nat (length msgs) < 2 ^ 64 ->
  Forall (fun m => fits (to_vec (client_envelope cl m))) msgs ->
  Forall (fun r => fits (to_vec r)) (handle_all handle_message st (client_envelope cl <$> msgs)).2 ->
  exists hello c c' requests out rest,
    client_hello cr = Ok hello /\
    run_connection handle_message (cl_auth_token cl) window sr st (hello ++ requests) =
      ((handle_all handle_message st (client_envelope cl <$> msgs)).1, out) /\
    connect_client (cl_auth_token cl) cr out = Ok (c, rest) /\
    client_send_all cl c msgs = (c', Ok requests) /\
    client_receive_all (length msgs) c' rest = Ok (Some <$> (handle_all handle_message st (client_envelope cl <$> msgs)).2).
Proof.
  intros Hcr Hsr Hk Hh Ha Hn Hm Hr.
  destruct (exchange cl (cl_auth_token cl) msgs eq_refl st (crypto_client c2s s2c) (crypto_server c2s s2c)
    (crypto_client c2s s2c) (length msgs)) as (c1 & requests & _ & Es & _ & Lr & _ & _); simpl; try done; try lia.
  destruct (exchange cl (cl_auth_token cl) msgs eq_refl st (crypto_client c2s s2c) (crypto_server c2s s2c)
    c1 (length requests)) as (c2 & requests' & out & Es' & Rc & _ & Ev & Er); simpl; try done; try lia.
  { apply client_send_all_recv in Es. by rewrite Es. }
  rewrite Es in Es'. injection Es' as <- <-.
  exists (length_prefix (to_vec (new_hello cr)) ++ to_vec (new_hello cr)), (Secured (crypto_client c2s s2c)), (Secured c1),
    requests, ((length_prefix (to_vec (new_accept sr)) ++ to_vec (new_accept sr)) ++ out), out.
  split_and!; [apply write_fits; lia| | |done|done].
  - unfold run_connection. erewrite hello_accepted by (done || lia). by rewrite Ev.
  - by apply accept_connects.
Qed.
End Transparent.

(** ** Witnesses

    Codecs for the documents and a client that talks to a daemon which counts its
    requests. *)

Module Demo.
Import Concrete.

#[export] Instance hkdf_salted_inst : HkdfSalted := fun salt key info n =>
  Some (take (Z.to_nat n) (sha256 (salt ++ key ++ info))).
#[export] Instance hex_width_inst : HexWidth.
Proof. intros b. cbn [hex_encode sha256_inst]. induction b as [|x b IH]; [done|]. simpl. rewrite IH. lia. Qed.
#[export] Instance aead_total_inst : AeadTotal.
Proof. intros k n a m _. eexists. reflexivity. Qed.

#[export] Instance flat_hello : Flat SessionHello :=
  flat_via (fun h => (sh_v h, sh_cr h)) (fun '(v, c) => {| sh_v := v; sh_cr := c |})
    (fun h => match h with Build_SessionHello _ _ => eq_refl end).
#[export] Instance flat_accept : Flat SessionAccept :=
  flat_via (fun a => (sa_v a, sa_sr a)) (fun '(v, s) => {| sa_v := v; sa_sr := s |})
    (fun a => match a with Build_SessionAccept _ _ => eq_refl end).
#[export] Instance flat_origin : Flat Origin :=
  flat_via (fun o => match o with NativeHost => true | Cli => false end) (fun b : bool => if b then NativeHost else Cli)
    (fun o => match o with NativeHost => eq_refl | Cli => eq_refl end).
#[export] Instance flat_ipc {M} `{Flat M} : Flat (IpcEnvelope M) :=
  flat_via (fun e => (ie_token e, ie_client_token e, ie_origin e, ie_capability e, ie_message e))
    (fun '(t, c, o, k, m) => {| ie_token := t; ie_client_token := c; ie_origin := o; ie_capability := k; ie_message := m |})
    (fun e => match e with Build_IpcEnvelope _ _ _ _ _ => eq_refl end).

(** A daemon that answers a text with the number of requests before it. *)
Definition count_requests (n : Z) (e : IpcEnvelope string) : Z * string :=
  (n + 1, i64_display n +:+ ie_message e).

Definition demo_client : IpcClient :=
  {| cl_auth_token := "token"; cl_client_token := None; cl_origin := Some Cli; cl_capability := None |}.
Definition demo_cr : bytes := replicate 32 x01.
Definition demo_sr : bytes := replicate 32 x02.
Definition demo_c2s : bytes := match derive_directional_keys "token" demo_cr demo_sr with Ok k => k.1 | Err _ => [] end.
Definition demo_s2c : bytes := match derive_directional_keys "token" demo_cr demo_sr with Ok k => k.2 | Err _ => [] end.

Lemma ipc_transparent_witness :
  exists hello c c' requests out rest,
    client_hello demo_cr = Ok hello /\
    run_connection count_requests "token" false demo_sr 0 (hello ++ requests) = (2, out) /\
    connect_client "token" demo_cr out = Ok (c, rest) /\
    client_send_all demo_client c ["a"; "b"] = (c', Ok requests) /\
    client_receive_all 2 c' rest = Ok [Some "0a"; Some "1b"].
Proof.
  apply (ipc_transparent count_requests demo_client demo_cr demo_sr demo_c2s demo_s2c false 0 ["a"; "b"]).
  - reflexivity.
  - reflexivity.
  - unfold demo_c2s, demo_s2c. by destruct (derive_directional_keys "token" demo_cr demo_sr) as [[? ?]|] eqn:E.
  - split; vm_compute; congruence.
  - split; vm_compute; congruence.
  - reflexivity.
  - apply Forall_cons. split; [vm_compute; congruence|]. apply Forall_cons. split; [vm_compute; congruence|]. apply Forall_nil. exact I.
  - vm_compute. repeat constructor; congruence.
Defined.

(** ** A wire that repeats and reflects a frame, under one key *)

Definition frame_of (r : SessionCrypto * TransportResult bytes) : bytes := match r.2 with Ok f => f | Err _ => [] end.

Definition wire_c0 : SessionCrypto := crypto_client [x01] [x01].
Definition wire_s0 : SessionCrypto := crypto_server [x01] [x01].
Definition wire_a : SessionCrypto * TransportResult bytes := session_seal wire_c0 [x61].
Definition wire_b : SessionCrypto * TransportResult bytes := session_seal wire_a.1 [x62].
Definition wire_s1 : SessionCrypto * TransportResult bytes := session_open wire_s0 (frame_of wire_a).
Definition wire_s2 : SessionCrypto * TransportResult bytes := session_open wire_s1.1 (frame_of wire_a).
Definition wire_s3 : SessionCrypto * TransportResult bytes := session_open wire_s2.1 (frame_of wire_b).
Definition wire_c1 : SessionCrypto * TransportResult bytes := session_open wire_b.1 (frame_of wire_a).

Definition opened_events (d : Direction) (f : bytes) (r : TransportResult bytes) : list Ev :=
  match r with Ok p => [Opened d p f] | Err _ => [] end.
Definition wire_trace : list Ev :=
  ((((([] ++ [Sealed ClientToServer [x61] (frame_of wire_a)]) ++ [Sealed ClientToServer [x62] (frame_of wire_b)]) ++
   opened_events ClientToServer (frame_of wire_a) wire_s1.2) ++
   opened_events ClientToServer (frame_of wire_a) wire_s2.2) ++
   opened_events ClientToServer (frame_of wire_b) wire_s3.2) ++
   opened_events ServerToClient (frame_of wire_a) wire_c1.2.

Lemma wire_run :
  rtc wire_step (handshake_done [x01] [x01], []) ({| en_client := wire_c1.1; en_server := wire_s3.1 |}, wire_trace).
Proof.
  unfold wire_trace.
  eapply rtc_l; [apply (w_client_seals wire_c0 wire_s0 [] [x61] wire_a.1 (frame_of wire_a)); reflexivity|].
  eapply rtc_l; [apply (w_client_seals wire_a.1 wire_s0 _ [x62] wire_b.1 (frame_of wire_b)); reflexivity|].
  eapply rtc_l; [apply (w_server_opens wire_b.1 wire_s0 _ (frame_of wire_a) wire_s1.1 wire_s1.2); apply surjective_pairing|].
  eapply rtc_l; [apply (w_server_opens wire_b.1 wire_s1.1 _ (frame_of wire_a) wire_s2.1 wire_s2.2); apply surjective_pairing|].
  eapply rtc_l; [apply (w_server_opens wire_b.1 wire_s2.1 _ (frame_of wire_b) wire_s3.1 wire_s3.2); apply surjective_pairing|].
  eapply rtc_l; [apply (w_client_opens wire_b.1 wire_s3.1 _ (frame_of wire_a) wire_c1.1 wire_c1.2); apply surjective_pairing|].
  apply rtc_refl.
Qed.

(** The repetition and the reflection were refused, and the cipher was not
    forged. *)
Lemma wire_trace_is : wire_trace =
  [Sealed ClientToServer [x61] (frame_of wire_a); Sealed ClientToServer [x62] (frame_of wire_b);
   Opened ClientToServer [x61] (frame_of wire_a); Opened ClientToServer [x62] (frame_of wire_b)].
Proof. vm_compute. reflexivity. Qed.
Lemma wire_not_forged keys d : ~ forged keys d wire_trace.
Proof.
  rewrite wire_trace_is. intros (h1 & h2 & p & f & E & Hn).
  destruct h1 as [|e1 [|e2 [|e3 [|e4 h1]]]]; simpl in E.
  - discriminate.
  - discriminate.
  - injection E as <- <- <- <- <- <-. apply (Hn ClientToServer [x61] (frame_of wire_a)); [left|done].
  - injection E as <- <- <- <- <- <- <-. apply (Hn ClientToServer [x62] (frame_of wire_b)); [right; left|done].
  - apply (f_equal length) in E. rewrite !length_cons, length_app in E. simpl in E. lia.
Qed.

Lemma session_in_order_witness :
  omap (opened_in ClientToServer) wire_trace = [[x61]; [x62]] /\
  omap (opened_in ClientToServer) wire_trace `sublist_of` omap (sealed_in ClientToServer) wire_trace /\
  omap (opened_in ServerToClient) wire_trace `sublist_of` omap (sealed_in ServerToClient) wire_trace.
Proof.
  split; [vm_compute; reflexivity|].
  pose proof (fun d => session_in_order [x01] [x01] ({| en_client := wire_c1.1; en_server := wire_s3.1 |}, wire_trace) d wire_run) as G.
  split; [destruct (G ClientToServer) as [O|F]|destruct (G ServerToClient) as [O|F]];
    first [exact O|destruct (wire_not_forged _ _ F)].
Defined.
End Demo.
