(* ===== verification/TotpOps.v ===== *)
(** * Core: one-time codes of entries ([vault/totp_ops.rs])

    The rows of [totp_secrets]: adding a secret to an entry, its metadata, the
    current code and its removal.  The statements of [totp_ops.rs] run in
    autocommit mode and outside the receipts. *)

From S2P Require Import Prelude Text ThirdParty Aad Envelope Keyring CoreError EnvelopeOps KeySlots VaultKeys LocalDb ContentGuard Registry Entries.
From S2P Require Import EntriesFacts Totp.
From Stdlib Require Import ZArith Lia Strings.String Strings.Ascii Strings.Byte.
From stdpp Require Import base list option strings numbers gmap.
From S2P Require Import Text LocalDb Entries Totp.
Open Scope Z_scope.

(** [TotpSecretMetadata], [TotpCode] ([totp.rs]). *)
Record TotpSecretMetadata := {
  md_totp_id : Z;
  md_entry_id : Z;
  md_algorithm : TotpAlgorithm;
  md_digits : Z;
  md_period : Z;
  md_issuer : option string;
  md_account_name : option string;
}.
Record TotpCode := { tc_code : string; tc_seconds_remaining : Z }.

(** ** Statements *)

Definition totp_not_found (entry : Z) : PasswordManagerError := NotFound ("TOTP secret for entry " +:+ i64_display entry).

(** [SELECT .. FROM totp_secrets WHERE entry_id = ?1]; the column is UNIQUE. *)
Definition totp_row (entry : Z) (db : LocalDb) : option TotpRow := List.find (fun r => t_entry_id r =? entry) (totp_secrets db).

(** [row.get::<u8>] and [row.get::<u32>] refuse what does not fit. *)
Definition readable (r : TotpRow) : bool :=
  (0 <=? t_digits r) && (t_digits r <? 2 ^ 8) && (0 <=? t_period r) && (t_period r <? 2 ^ 32).

(** [SELECT sync_id ..] read as a [String]: NULL is an error. *)
Definition existing_sync_id (entry : Z) (db : LocalDb) : Res (option string) :=
  match totp_row entry db with
  | None => Ok None
  | Some r => i ← ok_or (sync_id (t_sync r)) sqlite_error; Ok (Some i)
  end.

(** What the INSERT provides. *)
Record NewTotp := {
  nt_secret : bytes;
  nt_nonce : bytes;
  nt_auth_tag : bytes;
  nt_algorithm : string;
  nt_digits : Z;
  nt_period : Z;
  nt_issuer : option bytes;
  nt_account : option bytes;
  nt_created_at : Z;
  nt_sync_id : string;
}.
(** The columns of the sync protocol that neither branch names keep their
    value, or take the defaults of the schema. *)
Definition default_sync (id : string) : SyncCols := {|
  sync_id := Some id; sync_version := 0; sync_acked_version := 0; sync_state := Pending; last_synced_at := None;
  is_deleted := false; deleted_at := None |}.
Definition totp_of (p : NewTotp) (id entry : Z) (c : SyncCols) : TotpRow := {|
  totp_id := id; t_entry_id := entry; secret_encrypted := nt_secret p; t_nonce := nt_nonce p; t_auth_tag := nt_auth_tag p;
  t_algorithm := nt_algorithm p; t_digits := nt_digits p; t_period := nt_period p; t_issuer := VBlob <$> nt_issuer p;
  t_account_name := VBlob <$> nt_account p; t_created_at := nt_created_at p; t_sync := c |}.

(** [INSERT .. ON CONFLICT(entry_id) DO UPDATE]: the key of the insert is
    allocated in either case; the unique index on [sync_id] may refuse. *)
Definition upsert_totp (entry : Z) (p : NewTotp) (db : LocalDb) : Res LocalDb :=
  let id := autoincrement totp_id (totp_seq db) (totp_secrets db) in
  _ ← err_if (existsb (fun r => has_sync_id (nt_sync_id p) (t_sync r) && negb (t_entry_id r =? entry)) (totp_secrets db)) sqlite_error;
  Ok {| db with totp_seq := id;
    totp_secrets :=
      match totp_row entry db with
      | Some _ => update_where (fun r => t_entry_id r =? entry)
          (fun r => totp_of p (totp_id r) entry {| (t_sync r) with sync_id := Some (nt_sync_id p) |}) (totp_secrets db)
      | None => totp_secrets db ++ [totp_of p id entry (default_sync (nt_sync_id p))]
      end |}.

Section Ops.
Context `{Environment, Chrono, Hmac, Sha256, HexDecode, UuidText, Base64, Aead, Base32, HmacSha1}.
Context `{SerdeBytes AadContext, SerdeBytes EnvelopeDoc, SerdeBytes EntryTuple, SerdeBytes MappingTuple, SerdeBytes TagTuple}.
Context `{SerdeBytes CustodyTuple, SerdeBytes State, SerdeBytes Document}.
Context `{Bincode EncryptedEntry, BincodeSer EncryptedEntry, BincodeSer bytes}.

(** [add_totp_secret]. *)
Definition add_totp_secret (s : Session) (now entry : Z) (secret : string) (algorithm : TotpAlgorithm) (digits period : Z)
    (issuer account_name : option string) : M Z :=
  _ ← require_unlocked s;
  dek ← lift (session_dek s);
  exists_ ← query (fun db => existsb (fun r => entry_id r =? entry) (entries db));
  _ ← fail_if (negb exists_) (entry_not_found entry);
  existing ← query (existing_sync_id entry);
  existing ← lift existing;
  sync_id ← match existing with
            | Some id => mret id
            | None => u ← draw_uuid; mret (uuid_to_string u)
            end;
  normalized ← lift (normalize_secret secret);
  vault_uuid ← lift (vault_uuid_str s);
  let seal p text := seal_field dek vault_uuid sync_id TotpSecret p text (session_epoch s) in
  secret_encrypted ← seal Secret normalized;
  let '(nonce, auth_tag) := zeroed_legacy_v1_columns in
  issuer_blob ← seal_opt (seal TotpIssuer) issuer;
  account_blob ← seal_opt (seal TotpAccount) account_name;
  _ ← execute_res (upsert_totp entry {| nt_secret := secret_encrypted; nt_nonce := nonce; nt_auth_tag := auth_tag;
        nt_algorithm := as_db_value algorithm; nt_digits := digits; nt_period := period; nt_issuer := issuer_blob;
        nt_account := account_blob; nt_created_at := now; nt_sync_id := sync_id |});
  row ← query (totp_row entry);
  r ← lift (ok_or row sqlite_error);
  mret (totp_id r).

(** The row as the readers get it: any failure of the query is NotFound. *)
Definition read_row (entry : Z) : M TotpRow :=
  row ← query (totp_row entry);
  match row with
  | Some r => _ ← fail_if (negb (readable r)) (totp_not_found entry); mret r
  | None => fail (totp_not_found entry)
  end.
Definition row_algorithm (r : TotpRow) : Res TotpAlgorithm :=
  map_err (fun _ => Database (OtherDb ("Invalid TOTP algorithm in database: " +:+ t_algorithm r))) (algorithm_from_str (t_algorithm r)).

(** [get_totp_metadata]. *)
Definition get_totp_metadata (s : Session) (entry : Z) : M TotpSecretMetadata :=
  _ ← require_unlocked s;
  dek ← lift (session_dek s);
  r ← read_row entry;
  algorithm ← lift (row_algorithm r);
  let open p v := open_metadata_text_field dek (session_uuid s) (sync_id (t_sync r)) TotpSecret p v in
  issuer ← lift (open TotpIssuer (t_issuer r));
  account ← lift (open TotpAccount (t_account_name r));
  mret {| md_totp_id := totp_id r; md_entry_id := t_entry_id r; md_algorithm := algorithm; md_digits := t_digits r;
          md_period := t_period r; md_issuer := issuer; md_account_name := account |}.

(** [generate_totp_code] of the vault. *)
Definition stored_secret (s : Session) (dek : bytes) (r : TotpRow) : Res string :=
  if is_envelope_blob (secret_encrypted r) then
    plaintext ← open_object_field dek (session_uuid s) (sync_id (t_sync r)) TotpSecret Secret (secret_encrypted r);
    normalize_secret plaintext
  else decrypt_totp_secret dek (secret_encrypted r) (t_nonce r) (t_auth_tag r).
Definition vault_totp_code (s : Session) (now entry : Z) : M TotpCode :=
  _ ← require_unlocked s;
  dek ← lift (session_dek s);
  r ← read_row entry;
  algorithm ← lift (row_algorithm r);
  secret ← lift (stored_secret s dek r);
  code ← lift (generate_totp_code secret algorithm (t_digits r) (t_period r) now);
  mret {| tc_code := code; tc_seconds_remaining := seconds_remaining (t_period r) now |}.

(** [remove_totp_secret]. *)
Definition remove_totp_secret (s : Session) (entry : Z) : M unit :=
  _ ← require_unlocked s;
  row ← query (totp_row entry);
  _ ← execute (fun db => {| db with totp_secrets := delete_where (fun r => t_entry_id r =? entry) (totp_secrets db) |});
  fail_if (match row with Some _ => false | None => true end) (totp_not_found entry).
End Ops.

(** ** The secret is read back *)

(** The alphabet of Base32 with its padding: a decoder refuses every other
    byte, and nothing decodes to nothing. *)
Definition base32_byte (b : Byte.byte) : bool :=
  ((65 <=? Z_of_byte b) && (Z_of_byte b <=? 90)) || ((50 <=? Z_of_byte b) && (Z_of_byte b <=? 55)) || (Z_of_byte b =? 61).
Class Base32Laws `{Base32} : Prop := {
  base32_nopad_alphabet : forall b d, base32_nopad_decode b = Some d -> forallb base32_byte b = true;
  base32_alphabet : forall b d, base32_decode b = Some d -> forallb base32_byte b = true;
  base32_nopad_nil : base32_nopad_decode [] = Some [];
}.
Definition base32_char (a : ascii) : bool := base32_byte (byte_of_ascii a).

Lemma base32_char_cases a : base32_char a = true ->
  graphic a = true /\ upper_char a = a /\ negb (Ascii.eqb a " " || Ascii.eqb a "-") = true.
Proof.
  destruct a as [b0 b1 b2 b3 b4 b5 b6 b7].
  destruct b0, b1, b2, b3, b4, b5, b6, b7; vm_compute; try discriminate; auto.
Qed.

Lemma normal_form_base32 x : all_chars base32_char x = true -> normal_form x = x.
Proof.
  intros Hx. unfold normal_form. rewrite trim_graphic by (revert Hx; apply all_chars_impl; intros a Ha; by apply base32_char_cases).
  induction x as [|a x IH]; [done|]. cbn [all_chars] in Hx. apply andb_true_iff in Hx as [Ha Hx].
  apply base32_char_cases in Ha as (_ & Hu & Hn). cbn [string_filter]. rewrite Hn.
  unfold to_ascii_uppercase in *. cbn [string_map]. by rewrite Hu, (IH Hx).
Qed.

Lemma utf8_base32 x : all_chars base32_char x = true -> utf8 (as_bytes x) = true.
Proof.
  induction x as [|a x IH]; [done|]. cbn [all_chars]. intros [Ha Hx]%andb_true_iff.
  change (as_bytes (String a x)) with (byte_of_ascii a :: as_bytes x). cbn [utf8].
  assert (between 0 0x7F (byte_of_ascii a) = true) as ->; [|auto]. unfold base32_char, base32_byte, between in *.
  repeat (rewrite orb_true_iff in Ha || rewrite andb_true_iff in Ha). rewrite andb_true_iff. rewrite !Z.leb_le in *. lia.
Qed.

Lemma as_bytes_base32 x : forallb base32_byte (as_bytes x) = true -> all_chars base32_char x = true.
Proof.
  induction x as [|a x IH]; [done|]. change (as_bytes (String a x)) with (byte_of_ascii a :: as_bytes x). cbn [forallb all_chars].
  intros [Ha Hx]%andb_true_iff. by rewrite (IH Hx), andb_true_r.
Qed.

Lemma find_snoc {A} (q : A -> bool) l x : List.find q l = None -> List.find q (l ++ [x]) = if q x then Some x else None.
Proof. intros E. by rewrite find_app, E. Qed.

Lemma upsert_row entry p db db' :
  upsert_totp entry p db = Ok db' ->
  exists id c, sync_id c = Some (nt_sync_id p) /\ totp_row entry db' = Some (totp_of p id entry c) /\
    (forall r, totp_row entry db = Some r -> id = totp_id r /\ c = {| (t_sync r) with sync_id := Some (nt_sync_id p) |}) /\
    forall e, e <> entry -> totp_row e db' = totp_row e db.
Proof.
  unfold upsert_totp. cbv zeta. intros E. apply result_bind_ok in E as (u & _ & [= <-]). unfold totp_row; simpl.
  destruct (List.find _ (totp_secrets db)) as [r|] eqn:Ef.
  - exists (totp_id r), {| (t_sync r) with sync_id := Some (nt_sync_id p) |}. split; [done|].
    rewrite (find_update_same _ _ _ _ r); [|done|intros y Hy; simpl; by rewrite Z.eqb_refl, Hy|exact Ef].
    split; [done|]. split; [by intros r' [= <-]|]. intros e He. apply find_update_other. intros x Hx. propify. simpl.
    rewrite Hx. by rewrite (proj2 (Z.eqb_neq entry e)) by congruence.
  - eexists _, (default_sync (nt_sync_id p)). split; [done|]. rewrite find_snoc by done. simpl. rewrite Z.eqb_refl.
    split; [done|]. split; [done|]. intros e He. rewrite find_app. simpl. rewrite (proj2 (Z.eqb_neq entry e)) by congruence.
    by case_match.
Qed.

Section Facts.
Context `{Environment, Chrono, Hmac, Sha256, HexDecode, UuidText, Base64, Aead, Base32, HmacSha1}.
Context `{SerdeBytes AadContext, SerdeBytes EnvelopeDoc, SerdeBytes EntryTuple, SerdeBytes MappingTuple, SerdeBytes TagTuple}.
Context `{SerdeBytes CustodyTuple, SerdeBytes State, SerdeBytes Document}.
Context `{Bincode EncryptedEntry, BincodeSer EncryptedEntry, BincodeSer bytes}.
Context `{!EnvironmentLaws, !Sha256Laws, !HexDecodeLaws, !UuidTextLaws, !Base64Laws, !AeadLaws, !SerdeBytesLaws AadContext}.
Context `{!SerdeBytesLaws EnvelopeDoc, !EnvelopeJson, !Base32Laws, !TotpHashLaws}.

(** A normalised secret is normalised once more when it is read, which does
    not change what it decodes to. *)
Lemma renormalize secret n :
  normalize_secret secret = Ok n -> exists n', normalize_secret n = Ok n' /\ decode_secret n' = decode_secret n.
Proof.
  intros (key & Hk)%normalize_decodes. assert (Hk' := Hk). unfold decode_secret in Hk. apply result_bind_ok in Hk as (k & Hk & E).
  apply ok_or_ok in Hk. assert (all_chars base32_char (normal_form n) = true) as Ha.
  { apply as_bytes_base32. destruct (base32_nopad_decode _) eqn:En; [by eapply base32_nopad_alphabet|by eapply base32_alphabet]. }
  pose proof (normal_form_base32 _ Ha) as Hn. exists (normal_form n). unfold normalize_secret.
  assert (is_empty (normal_form n) = false) as ->.
  { destruct (normal_form n) eqn:En; [|done]. exfalso. simpl in Hk. rewrite base32_nopad_nil in Hk. injection Hk as <-.
    by apply result_bind_ok in E as (u & Hu%err_if_ok & _). }
  assert (decode_secret (normal_form n) = decode_secret n) as Ed by (unfold decode_secret; by rewrite Hn).
  simpl. rewrite Ed, Hk'. done.
Qed.

Lemma generate_same_decode n n' a d p t :
  decode_secret n' = decode_secret n -> generate_totp_code n' a d p t = generate_totp_code n a d p t.
Proof. intros E. unfold generate_totp_code. by rewrite E. Qed.

(** What adding a secret leaves behind. *)
Lemma add_totp_row s dek v now entry secret a d p iss acc w id w' :
  session_dek s = Ok dek -> session_uuid s = Some v ->
  add_totp_secret s now entry secret a d p iss acc w = (Ok id, w') ->
  exists n sid r, normalize_secret secret = Ok n /\ totp_row entry (w_db w') = Some r /\ totp_id r = id /\
    sync_id (t_sync r) = Some sid /\ t_entry_id r = entry /\ t_algorithm r = as_db_value a /\ t_digits r = d /\ t_period r = p /\
    seals dek v sid TotpSecret (session_epoch s) Secret n (secret_encrypted r) /\
    (exists b, t_issuer r = VBlob <$> b /\ seals_opt dek v sid TotpSecret (session_epoch s) TotpIssuer iss b) /\
    (exists b, t_account_name r = VBlob <$> b /\ seals_opt dek v sid TotpSecret (session_epoch s) TotpAccount acc b) /\
    (forall r0, totp_row entry (w_db w) = Some r0 -> sync_state (t_sync r) = sync_state (t_sync r0)) /\
    forall e, e <> entry -> totp_row e (w_db w') = totp_row e (w_db w).
Proof.
  intros Hd Hv E. unfold add_totp_secret in E. destruct zeroed_legacy_v1_columns as [nonce tag].
  rewrite (M_bind_run _ _ _ _ _ (require_unlocked_run _ _ w Hd)) in E. rewrite Hd in E. unfold vault_uuid_str in E. rewrite Hv in E.
  m_inv.
  repeat match goal with
  | Es : seal_field _ _ _ _ _ _ _ _ = (Ok _, _) |- _ => apply seal_field_ok in Es as [? ?]
  | Es : seal_opt _ _ _ = (Ok _, _) |- _ => apply seal_opt_ok in Es as [? ?]
  | Ex : match ?a with Some _ => _ | None => _ end ?w = (Ok ?i, ?w') |- _ =>
    assert (quiet w w') by (destruct a; m_inv; done); clear Ex
  | Eu : upsert_totp _ _ _ = Ok _ |- _ => apply upsert_row in Eu as (id & c & ? & Erow & Hold & Hother)
  | Eo : ok_or _ _ = Ok _ |- _ => apply ok_or_ok in Eo
  end.
  match goal with
  | Q1 : quiet ?x ?y, Q2 : quiet ?y ?z, Q3 : quiet ?z ?u, Q4 : quiet ?u ?t |- _ =>
    assert (quiet x t) as [Edb _] by (by do 3 (etrans; [eassumption|]))
  end.
  rewrite Erow in *. simplify_eq. rewrite Edb in *. eexists _, _, _. split; [eassumption|]. split; [exact Erow|]. simpl in *.
  split_and!; eauto. intros r0 [_ ->]%Hold. done.
Qed.

(** The row fits the size contracts of the reader. *)
Definition totp_fits (v : string) (epoch : Z) (r : TotpRow) : Prop :=
  (forall sid, sync_id (t_sync r) = Some sid -> contexts_fit v sid TotpSecret epoch) /\ blob_fits (secret_encrypted r) /\
  (forall b, t_issuer r = Some (VBlob b) -> blob_fits b) /\ (forall b, t_account_name r = Some (VBlob b) -> blob_fits b).

Lemma open_metadata_sealed dek v sid epoch p text b :
  seals_opt dek v sid TotpSecret epoch p text b -> contexts_fit v sid TotpSecret epoch ->
  (forall x, text = Some x -> utf8 (as_bytes x) = true) -> (forall x, VBlob <$> b = Some (VBlob x) -> blob_fits x) ->
  open_metadata_text_field dek (Some v) (Some sid) TotpSecret p (VBlob <$> b) = Ok text.
Proof.
  intros Hs C U B. destruct text as [x|], b as [b|]; simpl in Hs; try done. simpl.
  pose proof (seals_envelope _ _ _ _ _ _ _ _ Hs) as He. unfold is_envelope_blob in He. rewrite He.
  by rewrite (seals_open _ _ _ _ _ _ _ _ Hs (U _ eq_refl) C (B _ eq_refl)).
Qed.

Lemma algorithm_db_value a : algorithm_from_str (as_db_value a) = Ok a.
Proof. by destruct a. Qed.

Lemma read_row_run entry w r : totp_row entry (w_db w) = Some r -> readable r = true -> read_row entry w = (Ok r, w).
Proof. intros E Hr. unfold read_row, query, mbind, M_bind. rewrite E, Hr. done. Qed.

Lemma normalized_base32 s0 n0 n : normalize_secret s0 = Ok n0 -> normalize_secret n0 = Ok n -> all_chars base32_char n = true.
Proof.
  intros (key & Hk)%normalize_decodes E. unfold normalize_secret in E. result_inv. subst n.
  unfold decode_secret in Hk. apply result_bind_ok in Hk as (k & Hk%ok_or_ok & _).
  apply as_bytes_base32. destruct (base32_nopad_decode _) eqn:En; [by eapply base32_nopad_alphabet|by eapply base32_alphabet].
Qed.

(** A provisioning URI that is accepted and stored yields its codes.
    After [add_totp_secret] succeeded with the parameters [parse_otpauth_uri]
    read from a URI, the vault generates at every time the code of those
    parameters, of exactly the requested number of digits, with its countdown;
    the metadata reads back as it was in the URI; and the codes of every other
    entry are what they were. *)
Theorem totp_enrolled s dek v now entry uri u w id w' :
  session_dek s = Ok dek -> session_uuid s = Some v -> parse_otpauth_uri uri = Ok u ->
  add_totp_secret s now entry (secret_base32 u) (algorithm u) (digits u) (period u) (issuer u) (account_name u) w = (Ok id, w') ->
  (forall x, issuer u = Some x -> utf8 (as_bytes x) = true) -> (forall x, account_name u = Some x -> utf8 (as_bytes x) = true) ->
  (forall r, totp_row entry (w_db w') = Some r -> totp_fits v (session_epoch s) r) ->
  (forall t, exists code,
     vault_totp_code s t entry w' = (Ok {| tc_code := code; tc_seconds_remaining := seconds_remaining (period u) t |}, w') /\
     generate_totp_code (secret_base32 u) (algorithm u) (digits u) (period u) t = Ok code /\
     Z.of_nat (String.length code) = digits u /\ all_chars is_ascii_digit code = true) /\
  get_totp_metadata s entry w' =
    (Ok {| md_totp_id := id; md_entry_id := entry; md_algorithm := algorithm u; md_digits := digits u; md_period := period u;
           md_issuer := issuer u; md_account_name := account_name u |}, w') /\
  forall t e, e <> entry -> (vault_totp_code s t e w').1 = (vault_totp_code s t e w).1.
Proof.
  intros Hd Hv Hu Ha Ui Ua Hfit.
  destruct (add_totp_row _ _ _ _ _ _ _ _ _ _ _ _ _ _ Hd Hv Ha)
    as (n & sid & r & Hn & Er & Eid & Esid & Een & Ealg & Edig & Eper & Hsec & (bi & Ei & Hi) & (ba & Ea & Hacc) & _ & Hother).
  destruct (Hfit r Er) as (C & Fs & Fi & Fa). specialize (C _ Esid). rewrite Ei in Fi. rewrite Ea in Fa.
  assert (exists s0, normalize_secret s0 = Ok (secret_base32 u)) as [s0 Hs0].
  { revert Hu. unfold parse_otpauth_uri. intros E. repeat (result_inv; case_hyp); result_inv; simplify_eq; simpl; eauto. }
  destruct (parsed_uri_generates uri u 0 Hu) as (Hd68 & Hp & _).
  assert (readable r = true) as Hr.
  { unfold readable. rewrite Edig, Eper. rewrite !andb_true_iff, !Z.leb_le, !Z.ltb_lt. lia. }
  assert (row_algorithm r = Ok (algorithm u)) as Hal by (unfold row_algorithm; by rewrite Ealg, algorithm_db_value).
  split; [|split].
  - intros t. destruct (parsed_uri_generates uri u t Hu) as (_ & _ & code & Hc & Hlen & Hdig). exists code. split; [|done].
    destruct (renormalize _ _ Hn) as (n' & Hn' & Hdec).
    assert (stored_secret s dek r = Ok n') as Hst.
    { unfold stored_secret. rewrite (seals_envelope _ _ _ _ _ _ _ _ Hsec), Hv, Esid.
      rewrite (seals_open _ _ _ _ _ _ _ _ Hsec (utf8_base32 _ (normalized_base32 _ _ _ Hs0 Hn)) C Fs). exact Hn'. }
    assert (generate_totp_code n' (algorithm u) (t_digits r) (t_period r) t = Ok code) as Hg.
    { rewrite Edig, Eper, <- Hc. apply generate_same_decode. rewrite Hdec.
      destruct (renormalize _ _ Hs0) as (n1 & Hn1 & Hd1). congruence. }
    unfold vault_totp_code. rewrite (M_bind_run _ _ _ _ _ (require_unlocked_run _ _ _ Hd)).
    rewrite (M_bind_run _ _ _ _ _ (session_dek_run _ _ _ Hd)), (M_bind_run _ _ _ _ _ (read_row_run _ _ _ Er Hr)).
    unfold lift, mbind, M_bind. rewrite Hal, Hst, Hg, Eper. done.
  - unfold get_totp_metadata. rewrite (M_bind_run _ _ _ _ _ (require_unlocked_run _ _ _ Hd)).
    rewrite (M_bind_run _ _ _ _ _ (session_dek_run _ _ _ Hd)), (M_bind_run _ _ _ _ _ (read_row_run _ _ _ Er Hr)).
    unfold lift, mbind, M_bind. rewrite Hal, Hv, Esid, Ei, Ea.
    rewrite (open_metadata_sealed _ _ _ _ _ _ _ Hi C Ui Fi), (open_metadata_sealed _ _ _ _ _ _ _ Hacc C Ua Fa).
    unfold mret, M_ret. congruence.
  - intros t e He. unfold vault_totp_code. rewrite !(M_bind_run _ _ _ _ _ (require_unlocked_run _ _ _ Hd)).
    rewrite !(M_bind_run _ _ _ _ _ (session_dek_run _ _ _ Hd)). unfold read_row, query, mbind, M_bind. rewrite (Hother _ He).
    destruct (totp_row e (w_db w)) as [r'|]; [|done]. unfold fail_if, lift. destruct (readable r'); [|done]. simpl.
    destruct (row_algorithm r'); [|done]. destruct (stored_secret s dek r'); [|done]. by destruct (generate_totp_code _ _ _ _ _).
Qed.

(** Storing a secret over a row that was pushed leaves it marked as pushed. *)
Lemma readd_stays_synced s dek v now entry secret a d p iss acc w id w' r0 :
  session_dek s = Ok dek -> session_uuid s = Some v -> totp_row entry (w_db w) = Some r0 -> sync_state (t_sync r0) = Synced ->
  add_totp_secret s now entry secret a d p iss acc w = (Ok id, w') ->
  exists r, totp_row entry (w_db w') = Some r /\ sync_state (t_sync r) = Synced.
Proof.
  intros Hd Hv Hrow0 Hs Ha. destruct (add_totp_row _ _ _ _ _ _ _ _ _ _ _ _ _ _ Hd Hv Ha)
    as (n & sid & r & _ & Er & _ & _ & _ & _ & _ & _ & _ & _ & _ & Hold & _).
  exists r. split; [done|]. by rewrite (Hold _ Hrow0).
Qed.

(** A secret another device deleted still yields codes: the reader does not
    look at the tombstone. *)
Lemma code_ignores_tombstone s t entry w r b :
  totp_row entry (w_db w) = Some r ->
  (vault_totp_code s t entry {| w with w_db := {| (w_db w) with totp_secrets := update_where (fun x => t_entry_id x =? entry)
     (fun x => {| x with t_sync := {| (t_sync x) with is_deleted := b |} |}) (totp_secrets (w_db w)) |} |}).1 =
  (vault_totp_code s t entry w).1.
Proof.
  intros E. unfold vault_totp_code. unfold require_unlocked, fail_if, lift, mbind, M_bind.
  destruct (err_if _ VaultLocked); [|done]. destruct (session_dek s) as [dek|]; [|done].
  unfold read_row, totp_row, query, mbind, M_bind in *. simpl in *.
  rewrite (find_update_same _ _ _ _ r); [|done|done|exact E]. rewrite E. unfold readable, row_algorithm, stored_secret; simpl.
  unfold fail_if, lift. destruct (err_if _ _); [|done]. simpl. destruct (map_err _ _); [|done].
  destruct (if is_envelope_blob _ then _ else _); [|done]. by destruct (generate_totp_code _ _ _ _ _).
Qed.
End Facts.
