(* ===== verification/SiteAccess.v ===== *)
(** * Who may ask for autofill, and for which page ([daemon/json_store.rs],
      [daemon/capabilities.rs], [daemon/site_permissions.rs] and the two gates
      of [daemon/ipc/server.rs])

    A store is one JSON file, [None] when it does not exist.  Writing it opens
    and truncates the file in place: the write may not start, or stop after
    some of the bytes.  Permissions and symbolic links are left out; random
    bytes and the time are arguments. *)

From S2P Require Import Prelude Text ThirdParty Envelope CoreError Session DomainTags.
From Stdlib Require Import ZArith Lia Strings.String Strings.Ascii Strings.Byte.
From stdpp Require Import base list option strings numbers sorting.
From S2P Require Import Text DomainTags.
Open Scope Z_scope.

(** [Url::scheme] of a URL that parses. *)
Class UrlScheme := url_scheme : string -> string.

(** ** Stores ([json_store.rs]) *)

(** How the write of a store ends. *)
Inductive StoreIo := StoreWritten | StoreNotOpened | StoreCut (n : nat).

(** [load_json_store]; an unreadable file is not modelled apart from one that
    does not parse. *)
Definition load_json_store {T} `{SerdeBytes T} (dflt : T) (file : option bytes) : Res T :=
  match file with
  | None => Ok dflt
  | Some b => ok_or (from_slice b) (Database Serialization)
  end.

(** [save_json_store]; [to_vec] stands for [to_vec_pretty]. *)
Definition save_json_store {T} `{SerdeBytes T} (value : T) (io : StoreIo) (file : option bytes) : option bytes * Res unit :=
  match io with
  | StoreWritten => (Some (to_vec value), Ok tt)
  | StoreNotOpened => (file, Err IoError)
  | StoreCut n => (Some (take n (to_vec value)), Err IoError)
  end.

(** ** Capabilities ([capabilities.rs]) *)

Definition NATIVE_HOST_AUDIENCE : string := "native-host".

Record Capability := {
  cap_audience : string;
  cap_secret_hash : string;
  cap_issued_at : Z;           (* i64, Unix seconds *)
  cap_expires_at : option Z;
  cap_nonce : string;
}.
Record InstallationCapabilities := { capabilities : list Capability }.
Definition no_capabilities : InstallationCapabilities := {| capabilities := [] |}.
Definition retain_other (audience : string) (l : list Capability) : list Capability :=
  List.filter (fun c => negb (String.eqb (cap_audience c) audience)) l.

Section Capabilities.
Context `{Sha256, HexDecode, SerdeBytes InstallationCapabilities}.

(** [InstallationCapabilities::mint]: the store in memory, the file and the
    secret; the store keeps its change when the write fails. *)
Definition mint_capability (secret_bytes nonce : bytes) (now : Z) (io : StoreIo) (audience : string) (expires_at : option Z)
    (s : InstallationCapabilities) (file : option bytes) : InstallationCapabilities * option bytes * Res string :=
  let secret := hex_encode secret_bytes in
  let s := {| capabilities := retain_other audience (capabilities s) ++
                [{| cap_audience := audience; cap_secret_hash := hex_encode (sha256 (as_bytes secret)); cap_issued_at := now;
                    cap_expires_at := expires_at; cap_nonce := hex_encode nonce |}] |} in
  let '(file, saved) := save_json_store s io file in
  (s, file, saved ≫= fun _ => Ok secret).

(** [InstallationCapabilities::revoke]. *)
Definition revoke_capability (io : StoreIo) (audience : string) (s : InstallationCapabilities) (file : option bytes)
    : InstallationCapabilities * option bytes * Res nat :=
  let s' := {| capabilities := retain_other audience (capabilities s) |} in
  let removed := (length (capabilities s) - length (capabilities s'))%nat in
  if (0 <? removed)%nat
  then let '(file, saved) := save_json_store s' io file in (s', file, saved ≫= fun _ => Ok removed)
  else (s', file, Ok removed).

(** [InstallationCapabilities::verify]. *)
Definition capability_verifies (now : Z) (audience : string) (presented : bytes) (c : Capability) : bool :=
  String.eqb (cap_audience c) audience
  && negb (match cap_expires_at c with Some e => e <=? now | None => false end)
  && match hex_decode (cap_secret_hash c) with
     | Some stored => bool_decide (stored = presented)
     | None => false
     end.
Definition verify_capability (now : Z) (audience : string) (presented : option string) (s : InstallationCapabilities) : bool :=
  match presented with
  | None => false
  | Some p => if is_empty p then false else existsb (capability_verifies now audience (sha256 (as_bytes p))) (capabilities s)
  end.

(** [ensure_native_host_capability]: the store, the secret file and the
    result; the secret file is written in place as well. *)
Definition ensure_native_host_capability (secret_bytes nonce : bytes) (now : Z) (io secret_io : StoreIo)
    (file secret_file : option bytes) : option bytes * option bytes * Res unit :=
  match secret_file with
  | Some _ => (file, secret_file, Ok tt)
  | None =>
    match load_json_store no_capabilities file with
    | Err e => (file, secret_file, Err e)
    | Ok s =>
      let '(_, file, minted) := mint_capability secret_bytes nonce now io NATIVE_HOST_AUDIENCE None s file in
      match minted with
      | Err e => (file, secret_file, Err e)
      | Ok secret =>
        match secret_io with
        | StoreWritten => (file, Some (as_bytes secret), Ok tt)
        | StoreNotOpened => (file, secret_file, Err IoError)
        | StoreCut n => (file, Some (take n (as_bytes secret)), Err IoError)
        end
      end
    end
  end.

(** [load_native_host_capability]. *)
Definition load_native_host_capability (secret_file : option bytes) : option string :=
  text ← secret_file ≫= from_utf8;
  non_empty (trim text).

(** ** The gate of the browser surface ([server.rs]) *)

(** The two environment variables that reopen a migration window. *)
Record LegacyWindows := { allow_legacy_originless : bool; allow_self_asserted_origin : bool }.

Definition browser_surface_allowed_with_store (wins : LegacyWindows) (now : Z) (origin : option Origin) (capability : option string)
    (s : InstallationCapabilities) : bool :=
  verify_capability now NATIVE_HOST_AUDIENCE capability s
  || match origin with
     | Some NativeHost => allow_self_asserted_origin wins
     | None => allow_legacy_originless wins
     | Some Cli => false
     end.
Definition browser_surface_allowed (wins : LegacyWindows) (now : Z) (origin : option Origin) (capability : option string)
    (file : option bytes) : bool :=
  browser_surface_allowed_with_store wins now origin capability
    (match load_json_store no_capabilities file with Ok s => s | Err _ => no_capabilities end).
End Capabilities.

(** ** Site permissions ([site_permissions.rs]) *)

Record SitePermission := { sp_host : string; sp_allow_insecure : bool; sp_granted_at : Z; sp_updated_at : Z }.
Record SitePermissionStore := { permissions : list SitePermission }.
Definition no_permissions : SitePermissionStore := {| permissions := [] |}.

Section Permissions.
Context `{UrlParse, UrlScheme, SerdeBytes SitePermissionStore}.

(** [normalize_grant_host]. *)
Definition normalize_grant_host (value : string) : option string :=
  let trimmed := trim value in
  let candidate := match split_once_str "://" trimmed with Some _ => trimmed | None => "https://" +:+ trimmed end in
  match url_parse candidate with
  | Some host_str =>
    if String.eqb (url_scheme candidate) "https" || String.eqb (url_scheme candidate) "http"
    then host ← trim <$> host_str; if is_empty host then None else normalize_host host
    else normalize_host trimmed
  | None => normalize_host trimmed
  end.

(** [allows_insecure]. *)
Definition allows_insecure (s : SitePermissionStore) (host : string) : bool :=
  match normalize_grant_host host with
  | None => false
  | Some h => existsb (fun p => sp_allow_insecure p && String.eqb (sp_host p) h) (permissions s)
  end.

(** [grant_insecure]: the first permission of the host is refreshed. *)
Fixpoint refresh_permission (now : Z) (host : string) (l : list SitePermission) : option (list SitePermission) :=
  match l with
  | [] => None
  | p :: l =>
    if String.eqb (sp_host p) host
    then Some ({| sp_host := sp_host p; sp_allow_insecure := true; sp_granted_at := sp_granted_at p; sp_updated_at := now |} :: l)
    else cons p <$> refresh_permission now host l
  end.
Definition grant_insecure (now : Z) (io : StoreIo) (host : string) (s : SitePermissionStore) (file : option bytes)
    : SitePermissionStore * option bytes * Res bool :=
  match normalize_grant_host host with
  | None => (s, file, Ok false)
  | Some h =>
    let s := {| permissions := default (permissions s ++ [{| sp_host := h; sp_allow_insecure := true; sp_granted_at := now;
                                                             sp_updated_at := now |}])
                                       (refresh_permission now h (permissions s)) |} in
    let '(file, saved) := save_json_store s io file in
    (s, file, saved ≫= fun _ => Ok true)
  end.

(** [SitePermissionStore::revoke]. *)
Definition revoke_permission (io : StoreIo) (host : string) (s : SitePermissionStore) (file : option bytes)
    : SitePermissionStore * option bytes * Res bool :=
  match normalize_grant_host host with
  | None => (s, file, Ok false)
  | Some h =>
    let s' := {| permissions := List.filter (fun p => negb (String.eqb (sp_host p) h)) (permissions s) |} in
    if (length (permissions s) =? length (permissions s'))%nat then (s', file, Ok false)
    else let '(file, saved) := save_json_store s' io file in (s', file, saved ≫= fun _ => Ok true)
  end.

(** [list]: by time of grant, then host. *)
Definition permission_le (a b : SitePermission) : Prop :=
  sp_granted_at a < sp_granted_at b \/ (sp_granted_at a = sp_granted_at b /\ String.leb (sp_host a) (sp_host b) = true).
#[global] Instance permission_le_dec : RelDecision permission_le.
Proof. intros a b. unfold permission_le. apply _. Defined.
Definition list_permissions (s : SitePermissionStore) : list SitePermission := merge_sort permission_le (permissions s).

(** ** The gate of the page ([server.rs]) *)

(** [autofill_origin_decision_with_store]. *)
Definition origin_unverified : string := "origin-unverified".
Definition insecure_http : string := "insecure-http".
Definition autofill_origin_decision_with_store (page_url : option string) (s : SitePermissionStore) : result string string :=
  raw ← ok_or (raw ← trim <$> page_url; if is_empty raw then None else Some raw) origin_unverified;
  host_str ← ok_or (url_parse raw) origin_unverified;
  insecure ← (if String.eqb (url_scheme raw) "https" then Ok false
              else if String.eqb (url_scheme raw) "http" then Ok true
              else Err origin_unverified);
  let host := default EmptyString (trim <$> host_str) in
  _ ← err_if (is_empty host) origin_unverified;
  let normalized := default (to_ascii_lowercase host) (normalize_host host) in
  _ ← err_if (insecure && negb (allows_insecure s normalized)) insecure_http;
  Ok normalized.
Definition autofill_origin_decision (page_url : option string) (file : option bytes) : result string string :=
  autofill_origin_decision_with_store page_url
    (match load_json_store no_permissions file with Ok s => s | Err _ => no_permissions end).
End Permissions.
