(* ===== verification/ExternalAllow.v ===== *)
(** * Grants of local tools ([external_secret_access.rs])

    The allowlist: which tool may read or write the secret of which domain, and
    the tokens that stand for a tool.  The allowlist is one JSON file, published
    whole ([None] when it does not exist); token bytes and the time, in
    nanoseconds, are arguments. *)

From S2P Require Import Prelude Text ThirdParty Envelope CoreError DomainTags.
From Stdlib Require Import ZArith Lia Strings.String Strings.Ascii Strings.Byte.
From stdpp Require Import base list option strings numbers sorting gmap.
From S2P Require Import Text DomainTags.
Open Scope Z_scope.

(** [base64::engine::general_purpose::URL_SAFE_NO_PAD]. *)
Class Base64Url := base64_url_encode : bytes -> string.

Definition CLIENT_TOKEN_PREFIX : string := "spt_".
Definition CLIENT_TOKEN_BYTES : nat := 32.
Definition MAX_ALLOWLIST_BYTES : Z := 1048576.

(** [ExternalSecretField] ([sentinelpass-protocol/src/message.rs]). *)
Module X.
Inductive ExternalSecretField := Username | Password | Title.
#[global] Instance ExternalSecretField_eq_dec : EqDecision ExternalSecretField.
Proof. solve_decision. Defined.
Definition as_str (f : ExternalSecretField) : string :=
  match f with Username => "username" | Password => "password" | Title => "title" end.
End X.

Record ExternalSecretGrant := {
  xg_client_id : string;
  xg_domain : string;
  xg_field : X.ExternalSecretField;
  xg_expires_at : option Z;
  xg_allow_write : bool;
}.
Record ClientTokenRecord := { ct_token_hash : string; ct_created_at : Z; ct_revoked : bool }.
Inductive ClientTokenStatus := Enforced | Legacy | Revoked.

Record ExternalSecretAllowlist := { xa_grants : list ExternalSecretGrant; xa_client_tokens : gmap string ClientTokenRecord }.
Definition empty_allowlist : ExternalSecretAllowlist := {| xa_grants := []; xa_client_tokens := ∅ |}.

(** [is_expired_at], [matches_scope]. *)
Definition is_expired_at (g : ExternalSecretGrant) (now : Z) : bool :=
  match xg_expires_at g with Some e => e <=? now | None => false end.
Definition matches_scope (client domain : string) (field : X.ExternalSecretField) (g : ExternalSecretGrant) : bool :=
  String.eqb (xg_client_id g) client && String.eqb (xg_domain g) domain && bool_decide (xg_field g = field).

(** [contains(char::is_whitespace)]: the encoding of a white-space character
    starts at a character boundary. *)
Fixpoint contains_whitespace (b : bytes) : bool :=
  match b with
  | [] => false
  | _ :: r => existsb (fun w => starts_with w b) whitespace || contains_whitespace r
  end.

(** [normalize_client_id], [normalize_domain]. *)
Definition id_char (a : ascii) : bool :=
  is_ascii_alphanumeric a || Ascii.eqb a "-" || Ascii.eqb a "_".
Definition normalize_client_id (client : string) : Res string :=
  let value := to_ascii_lowercase (trim client) in
  _ ← err_if (is_empty value || negb (all_chars id_char value))
        (InvalidInput "Client id must contain only ASCII letters, digits, '-' or '_'");
  Ok value.
Definition normalize_domain (domain : string) : Res string :=
  let value := to_ascii_lowercase (trim_end_matches DOT (trim domain)) in
  _ ← err_if (is_empty value || negb (all_chars (fun a => negb (Ascii.eqb a "/")) value) || contains_whitespace (as_bytes value))
        (InvalidInput "Domain must be a non-empty host or service name");
  Ok value.

Section Allowlist.
Context `{Sha256, Base64Url, SerdeBytes ExternalSecretAllowlist}.

(** ** The file (Linux) *)

Definition load_allowlist (file : option bytes) : Res ExternalSecretAllowlist :=
  match file with
  | None => Ok empty_allowlist
  | Some b =>
    _ ← err_if (MAX_ALLOWLIST_BYTES <? Z.of_nat (length b)) (InvalidInput "External secret allowlist");
    ok_or (from_slice b) (Database Serialization)
  end.
Definition save_allowlist (a : ExternalSecretAllowlist) (published : bool) (file : option bytes) : option bytes * Res unit :=
  let contents := to_vec a in
  if MAX_ALLOWLIST_BYTES <? Z.of_nat (length contents) then (file, Err (InvalidInput "External secret allowlist exceeds 1 MiB"))
  else if published then (Some contents, Ok tt) else (file, Err (InvalidInput "External secret allowlist")).

(** ** Grants *)

(** [iter_mut().find(..)] and the replacement. *)
Fixpoint replace_grant (g : ExternalSecretGrant) (l : list ExternalSecretGrant) : option (list ExternalSecretGrant) :=
  match l with
  | [] => None
  | x :: l => if matches_scope (xg_client_id g) (xg_domain g) (xg_field g) x then Some (g :: l) else cons x <$> replace_grant g l
  end.

(** [upsert_grant], of which [allow] and [allow_until] are instances. *)
Definition upsert_grant (client domain : string) (field : X.ExternalSecretField) (expires_at : option Z) (allow_write : bool)
    (a : ExternalSecretAllowlist) : Res (ExternalSecretAllowlist * ExternalSecretGrant) :=
  client ← normalize_client_id client;
  domain ← normalize_domain domain;
  let g := {| xg_client_id := client; xg_domain := domain; xg_field := field; xg_expires_at := expires_at;
              xg_allow_write := allow_write |} in
  Ok ({| a with xa_grants := default (xa_grants a ++ [g]) (replace_grant g (xa_grants a)) |}, g).
Definition allow_until (client domain : string) (field : X.ExternalSecretField) (expires_at : option Z)
    (a : ExternalSecretAllowlist) : Res (ExternalSecretAllowlist * ExternalSecretGrant) :=
  upsert_grant client domain field expires_at false a.

(** [revoke]: the first grant of the scope, by position. *)
Fixpoint remove_grant (client domain : string) (field : X.ExternalSecretField) (l : list ExternalSecretGrant)
    : option (ExternalSecretGrant * list ExternalSecretGrant) :=
  match l with
  | [] => None
  | x :: l => if matches_scope client domain field x then Some (x, l)
              else '(g, l) ← remove_grant client domain field l; Some (g, x :: l)
  end.
Definition revoke_grant (client domain : string) (field : X.ExternalSecretField) (a : ExternalSecretAllowlist)
    : Res (ExternalSecretAllowlist * option ExternalSecretGrant) :=
  client ← normalize_client_id client;
  domain ← normalize_domain domain;
  match remove_grant client domain field (xa_grants a) with
  | None => Ok (a, None)
  | Some (g, l) => Ok ({| a with xa_grants := l |}, Some g)
  end.

(** [revoke_all_for_client]. *)
Definition revoke_all_for_client (client : string) (a : ExternalSecretAllowlist) : Res (ExternalSecretAllowlist * nat) :=
  client ← normalize_client_id client;
  let l := List.filter (fun g => negb (String.eqb (xg_client_id g) client)) (xa_grants a) in
  Ok ({| a with xa_grants := l |}, (length (xa_grants a) - length l)%nat).

(** ** Tokens *)

Definition hash_client_token (token : string) : string := hex_encode (sha256 (as_bytes token)).

(** [mint_client_token], [rotate_client_token], [revoke_client_token]. *)
Definition mint_client_token (b : bytes) (now : Z) (client : string) (a : ExternalSecretAllowlist)
    : Res (ExternalSecretAllowlist * string) :=
  client ← normalize_client_id client;
  let token := CLIENT_TOKEN_PREFIX +:+ base64_url_encode b in
  Ok ({| a with xa_client_tokens := <[client := {| ct_token_hash := hash_client_token token; ct_created_at := now;
                                                   ct_revoked := false |}]> (xa_client_tokens a) |}, token).
Definition rotate_client_token (b : bytes) (now : Z) (client : string) (a : ExternalSecretAllowlist)
    : Res (ExternalSecretAllowlist * string) :=
  normalized ← normalize_client_id client;
  _ ← err_if (bool_decide (xa_client_tokens a !! normalized = None))
        (NotFound ("No client token exists for '" +:+ normalized +:+ "'; use secret allow or token mint"));
  mint_client_token b now client a.
Definition revoke_client_token (client : string) (a : ExternalSecretAllowlist) : Res (ExternalSecretAllowlist * bool) :=
  client ← normalize_client_id client;
  match xa_client_tokens a !! client with
  | None => Ok (a, false)
  | Some r => Ok ({| a with xa_client_tokens := <[client := {| r with ct_revoked := true |}]> (xa_client_tokens a) |}, true)
  end.

(** [token_status]. *)
Definition token_status (client : string) (a : ExternalSecretAllowlist) : ClientTokenStatus :=
  match normalize_client_id client with
  | Err _ => Legacy
  | Ok id => match xa_client_tokens a !! id with
             | None => Legacy
             | Some r => if ct_revoked r then Revoked else Enforced
             end
  end.

(** [verify_client_token]. *)
Definition verify_client_token (client : string) (presented : option string) (a : ExternalSecretAllowlist) : bool :=
  match normalize_client_id client with
  | Err _ => false
  | Ok id =>
    match xa_client_tokens a !! id with
    | None => true
    | Some r =>
      if ct_revoked r then false
      else match presented with
           | None => false
           | Some token => bool_decide (as_bytes (hash_client_token token) = as_bytes (ct_token_hash r))
           end
    end
  end.

(** ** Decisions *)

(** [grants_for_client]: by client, domain and field. *)
Definition str_lt (a b : string) : Prop := String.leb a b = true /\ a <> b.
Definition grant_le (a b : ExternalSecretGrant) : Prop :=
  str_lt (xg_client_id a) (xg_client_id b) \/
  (xg_client_id a = xg_client_id b /\
   (str_lt (xg_domain a) (xg_domain b) \/
    (xg_domain a = xg_domain b /\ String.leb (X.as_str (xg_field a)) (X.as_str (xg_field b)) = true))).
#[global] Instance str_lt_dec : RelDecision str_lt.
Proof. intros a b. unfold str_lt. apply _. Defined.
#[global] Instance grant_le_dec : RelDecision grant_le.
Proof. intros a b. unfold grant_le. apply _. Defined.
Definition grants_for_client (client : option string) (a : ExternalSecretAllowlist) : Res (list ExternalSecretGrant) :=
  client ← match client with
           | None => Ok None
           | Some c => c ← normalize_client_id c; Ok (Some c)
           end;
  Ok (merge_sort grant_le (List.filter (fun g => match client with Some c => String.eqb (xg_client_id g) c | None => true end)
        (xa_grants a))).

(** [is_allowed_at]. *)
Definition is_allowed_at (client domain : string) (field : X.ExternalSecretField) (now : Z) (a : ExternalSecretAllowlist) : bool :=
  match normalize_client_id client, normalize_domain domain with
  | Ok client, Ok domain => existsb (fun g => matches_scope client domain field g && negb (is_expired_at g now)) (xa_grants a)
  | _, _ => false
  end.

(** The condition of [SaveSecret] ([daemon/ipc/server.rs]): its domain is
    compared as it was sent. *)
Definition write_allowed (client domain : string) (presented : option string) (now : Z) (a : ExternalSecretAllowlist) : bool :=
  verify_client_token client presented a
  && existsb (fun g => xg_allow_write g && negb (is_expired_at g now) && String.eqb (xg_domain g) domain)
       (match grants_for_client (Some client) a with Ok l => l | Err _ => [] end).
End Allowlist.
