(* ===== verification/DaemonVault.v ===== *)
(** * The vault in the daemon ([daemon/vault_state.rs])

    Locking, the inactivity timer, and the lookups and writes the daemon makes
    for browsers and local tools.  The manager is the session of an open vault;
    the vault's files are the world its operations run in.

    Opening a vault is an argument of [unlock] (it is modelled in [VaultKeys]).
    The auto-lock task reads the clock once before and once after it waits for
    the manager; a tick that goes through is one step at the second reading,
    since the first has no effect.  The wall clock is read once per call; the
    instants of [tokio] are whole nanoseconds.  The custody sessions and the
    audit keys that a lock drops as well are not part of the state. *)

From S2P Require Import Prelude Text ThirdParty Aad Envelope Keyring CoreError EnvelopeOps KeySlots VaultKeys LocalDb ContentGuard Registry Entries.
From S2P Require Import DomainTags DomainOps Totp TotpOps ExternalAllow.
From Stdlib Require Import ZArith Lia Strings.String Strings.Ascii Strings.Byte.
From stdpp Require Import base list option strings numbers gmap sorting.
From S2P Require Import Text LocalDb Entries Totp TotpOps.
Open Scope Z_scope.

Inductive VaultState := Locked | Unlocked.
#[global] Instance VaultState_eq_dec : EqDecision VaultState.
Proof. solve_decision. Defined.

Record DaemonVault := {
  dv_vault : option Session;
  dv_state : VaultState;
  dv_last_activity : Z;
  dv_inactivity_timeout : Z;
}.

Record CredentialResponse := { cr_username : string; cr_password : string; cr_title : string }.
Record DomainCredentialResponse := { dr_username : string; dr_title : string; dr_domain : string }.

(** ** Locking *)

Definition new_daemon_vault (instant timeout_sec : Z) : DaemonVault :=
  {| dv_vault := None; dv_state := Locked; dv_last_activity := instant; dv_inactivity_timeout := timeout_sec * 1000000000 |}.
Definition record_activity (instant : Z) (dv : DaemonVault) : DaemonVault := {| dv with dv_last_activity := instant |}.
Definition unlock_with_manager (instant : Z) (s : Session) (dv : DaemonVault) : DaemonVault :=
  {| dv with dv_vault := Some s; dv_state := Unlocked; dv_last_activity := instant |}.
Definition lock (dv : DaemonVault) : DaemonVault := {| dv with dv_vault := None; dv_state := Locked |}.
Definition dv_is_unlocked (dv : DaemonVault) : bool := bool_decide (dv_state dv = Unlocked).

(** [unlock] and [unlock_with_biometric]: the error text is that of the cause. *)
Definition unlock (instant : Z) (open : World -> Res Session * World) (dv : DaemonVault) (w : World)
    : Res unit * DaemonVault * World :=
  match open w with
  | (Ok s, w) => (Ok tt, unlock_with_manager instant s dv, w)
  | (Err _, w) => (Err (Database (OtherDb "Failed to unlock vault")), dv, w)
  end.

(** The period of the auto-lock task, and one tick of it. *)
Definition check_interval (timeout : Z) : Z := if timeout =? 0 then 1000000000 else Z.min timeout 5000000000.
Definition auto_lock_tick (instant : Z) (dv : DaemonVault) : DaemonVault :=
  if dv_is_unlocked dv && (dv_inactivity_timeout dv <=? instant - dv_last_activity dv) then lock dv else dv.

(** The shape of the operations: nothing without a manager, otherwise activity
    is recorded and the operation runs. *)
Definition with_vault {A} (locked : Res A) (f : Session -> M A) (instant : Z) (dv : DaemonVault) (w : World)
    : Res A * DaemonVault * World :=
  match dv_vault dv with
  | None => (locked, dv, w)
  | Some s => let '(r, w) := f s w in (r, record_activity instant dv, w)
  end.

(** [usernames_match], and the closure [username_matches]. *)
Definition usernames_match (lhs rhs : string) : bool := eq_ignore_ascii_case (trim lhs) (trim rhs).
Definition username_matches (username : option string) (candidate : string) : bool :=
  match username with None => true | Some want => usernames_match want candidate end.

Definition credential_response (e : Entry) : CredentialResponse :=
  {| cr_username := en_username e; cr_password := en_password e; cr_title := en_title e |}.

(** [sort_by] title and username. *)
Definition credential_le (a b : DomainCredentialResponse) : Prop :=
  str_lt (dr_title a) (dr_title b) \/ (dr_title a = dr_title b /\ String.leb (dr_username a) (dr_username b) = true).
#[global] Instance credential_le_dec : RelDecision credential_le.
Proof. intros a b. unfold credential_le. apply _. Defined.

(** [set_lifecycle_source] ([vault/registry_ops.rs]). *)
Definition set_lifecycle_source (id : Z) (source : string) : M unit :=
  execute (fun db => {| db with entry_lifecycle := partial_alter (fun r => Some match r with
    | Some r => {| r with lc_source := source |}
    | None => {| password_rotated_at := None; expires_at := None; lc_rotation_interval_days_override := None; lc_source := source |}
    end) id (entry_lifecycle db) |}).

Section Lookups.
Context `{Environment, Chrono, Hmac, Sha256, HexDecode, UuidText, Base64, Aead, UrlParse, Base32, HmacSha1}.
Context `{SerdeBytes AadContext, SerdeBytes EnvelopeDoc, SerdeBytes EntryTuple, SerdeBytes MappingTuple, SerdeBytes TagTuple}.
Context `{SerdeBytes CustodyTuple, SerdeBytes State, SerdeBytes Document}.
Context `{Bincode EncryptedEntry, BincodeSer EncryptedEntry, BincodeSer bytes}.

(** The slow path: the entries of the summaries that can be read, in order,
    until one of them yields a result. *)
Fixpoint scan {A} (s : Session) (now : Z) (f : Z -> Entry -> M (option A)) (l : list EntrySummary) : M (option A) :=
  match l with
  | [] => mret None
  | x :: l =>
    r ← try (get_entry s now (es_entry_id x));
    match r with
    | Err _ => scan s now f l
    | Ok e =>
      found ← f (es_entry_id x) e;
      match found with
      | Some a => mret (Some a)
      | None => scan s now f l
      end
    end
  end.
Definition retrievable (l : list EntrySummary) : list EntrySummary :=
  List.filter (fun x => is_retrievable_secret (es_credential_type x)) l.
Definition url_matches (domain : string) (e : Entry) : bool :=
  match en_url e with Some url => domains_match domain url | None => false end.

(** ** Reading *)

(** [get_credential_for_username]. *)
Definition indexed_credential (username : option string) (e : Entry) : bool :=
  is_retrievable_secret (en_credential_type e) && username_matches username (en_username e).
Definition find_credential (now : Z) (domain : string) (username : option string) (s : Session) : M (option CredentialResponse) :=
  indexed ← match normalize_host domain with
            | Some host => l ← domain_lookup s now host; mret (List.find (indexed_credential username) l)
            | None => mret None
            end;
  match indexed with
  | Some e => mret (Some (credential_response e))
  | None =>
    l ← list_entries s;
    scan s now (fun _ e => mret (if url_matches domain e && username_matches username (en_username e)
                                 then Some (credential_response e) else None)) (retrievable l)
  end.
Definition get_credential_for_username (now : Z) (domain : string) (username : option string) (instant : Z)
    : DaemonVault -> World -> Res (option CredentialResponse) * DaemonVault * World :=
  with_vault (Ok None) (find_credential now domain username) instant.
Definition get_credential (now : Z) (domain : string) (instant : Z)
    : DaemonVault -> World -> Res (option CredentialResponse) * DaemonVault * World :=
  get_credential_for_username now domain None instant.

(** [get_totp_code_for_username]: NotFound goes on to the next entry. *)
Definition code_of (s : Session) (now id : Z) : M (option TotpCode) :=
  r ← try (vault_totp_code s now id);
  match r with
  | Ok code => mret (Some code)
  | Err (NotFound _) => mret None
  | Err e => fail e
  end.
Fixpoint first_code (s : Session) (now : Z) (username : option string) (l : list Entry) : M (option TotpCode) :=
  match l with
  | [] => mret None
  | e :: l =>
    if username_matches username (en_username e) then
      match en_entry_id e with
      | Some id =>
        found ← code_of s now id;
        match found with
        | Some code => mret (Some code)
        | None => first_code s now username l
        end
      | None => first_code s now username l
      end
    else first_code s now username l
  end.
Definition find_totp_code (now : Z) (domain : string) (username : option string) (s : Session) : M (option TotpCode) :=
  indexed ← match normalize_host domain with Some host => domain_lookup s now host | None => mret [] end;
  found ← first_code s now username indexed;
  match found, indexed with
  | Some code, _ => mret (Some code)
  | None, _ :: _ => mret None
  | None, [] =>
    l ← list_entries s;
    scan s now (fun id e => if url_matches domain e then code_of s now id else mret None) l
  end.
Definition get_totp_code_for_username (now : Z) (domain : string) (username : option string) (instant : Z)
    : DaemonVault -> World -> Res (option TotpCode) * DaemonVault * World :=
  with_vault (Ok None) (find_totp_code now domain username) instant.

(** [list_domain_credentials]. *)
Definition domain_response (base_domain : string) (e : Entry) : DomainCredentialResponse :=
  {| dr_username := en_username e; dr_title := en_title e; dr_domain := default base_domain (en_url e ≫= normalize_host) |}.
Fixpoint scan_all (s : Session) (now : Z) (p : Entry -> bool) (l : list EntrySummary) : M (list Entry) :=
  match l with
  | [] => mret []
  | x :: l =>
    r ← try (get_entry s now (es_entry_id x));
    rest ← scan_all s now p l;
    mret (match r with Ok e => if p e then e :: rest else rest | Err _ => rest end)
  end.
Definition find_domain_credentials (now : Z) (base_domain : string) (s : Session) : M (list DomainCredentialResponse) :=
  indexed ← match normalize_host base_domain with Some host => domain_lookup s now host | None => mret [] end;
  matching ← match indexed with
             | _ :: _ => mret (List.filter (fun e => is_retrievable_secret (en_credential_type e)) indexed)
             | [] => l ← list_entries s; scan_all s now (url_matches base_domain) (retrievable l)
             end;
  mret (merge_sort credential_le (List.map (domain_response base_domain) matching)).
Definition list_domain_credentials (now : Z) (base_domain : string) (instant : Z)
    : DaemonVault -> World -> Res (list DomainCredentialResponse) * DaemonVault * World :=
  with_vault (Ok []) (find_domain_credentials now base_domain) instant.

(** ** Writing *)

(** [save_credential]. *)
Definition save_credential_in (now : Z) (domain username password : string) (url : option string) (s : Session) : M unit :=
  existing ← (if is_empty (trim username) then mret None
              else l ← list_entries s;
                   scan s now (fun id e => mret (if url_matches domain e && usernames_match (en_username e) username
                                                 then Some id else None)) l);
  match existing with
  | Some id =>
    e ← get_entry s now id;
    _ ← update_entry s now id {| e with en_password := password; en_url := match url with Some u => Some u | None => en_url e end;
                                        en_modified_at := now |};
    mret tt
  | None =>
    _ ← add_entry s now {| en_entry_id := None; en_title := "Credential for " +:+ domain; en_username := username;
          en_password := password; en_url := url; en_notes := None; en_credential_type := CPassword; en_created_at := now;
          en_modified_at := now; en_favorite := false |};
    mret tt
  end.
Definition save_credential (now : Z) (domain username password : string) (url : option string) (instant : Z)
    : DaemonVault -> World -> Res unit * DaemonVault * World :=
  with_vault (Err VaultLocked) (save_credential_in now domain username password url) instant.

(** [save_secret_value]. *)
Definition save_secret_in (now : Z) (domain value : string) (s : Session) : M unit :=
  l ← list_entries s;
  existing ← scan s now (fun id e => mret (if url_matches domain e || domains_match domain (en_title e) then Some id else None)) l;
  match existing with
  | Some id =>
    e ← get_entry s now id;
    _ ← update_entry s now id {| e with en_password := value; en_modified_at := now |};
    _ ← try (set_lifecycle_source id "tool_managed");
    mret tt
  | None =>
    id ← add_entry s now {| en_entry_id := None; en_title := domain; en_username := "api-key"; en_password := value;
           en_url := Some domain; en_notes := None; en_credential_type := CApiKey; en_created_at := now; en_modified_at := now;
           en_favorite := false |};
    _ ← try (set_lifecycle_source id "tool_managed");
    mret tt
  end.
Definition save_secret_value (now : Z) (domain value : string) (instant : Z)
    : DaemonVault -> World -> Res unit * DaemonVault * World :=
  with_vault (Err VaultLocked) (save_secret_in now domain value) instant.
End Lookups.
