(* ===== verification/Browser.v ===== *)
(** * Requests of browsers and local tools ([daemon/ipc/server.rs])

    The arms of [handle_message] that serve the browser extension and the tools
    on the allowlist, and the ones that lock, unlock and inspect the vault, in
    the live mode.  A handler returns the new state, the audit events it logs
    and the response.  The sync arms, the shutdown flag and the service calls
    ([ServiceAccess]) are not among them. *)

From S2P Require Import Prelude Text ThirdParty Aad Envelope Keyring CoreError EnvelopeOps DbWire KeySlots VaultKeys LocalDb ContentGuard Registry Entries.
From S2P Require Import DomainTags DomainOps Totp TotpOps Session AuditLog SiteAccess ExternalAllow DaemonVault.
From Stdlib Require Import ZArith Lia Strings.String Strings.Ascii Strings.Byte.
From stdpp Require Import base list option strings numbers gmap.
From S2P Require Import Text LocalDb Entries Totp TotpOps SiteAccess ExternalAllow DaemonVault.
Open Scope Z_scope.

(** ** Messages ([sentinelpass-protocol/src/message.rs]) *)

Module Msg.
Inductive Request :=
| GetExternalSecret (client_id domain : string) (field : X.ExternalSecretField) (purpose : option string)
| SaveSecret (client_id domain value : string) (purpose : option string)
| DeleteSecret (client_id domain : string)
| GetCredential (domain : string) (page_url username : option string)
| ListDomainCredentials (base_domain : string) (page_url : option string)
| GetTotpCode (domain : string) (page_url username : option string)
| SaveCredential (domain username password : string) (url save_trigger : option string)
| GrantSitePermission (host : string) (allow_insecure : bool)
| RevokeSitePermission (host : string)
| ListSitePermissions
| UnlockVault (master_password : string)
| UnlockVaultBiometric (prompt_reason : option string)
| CheckVault
| LockVault.

Record CredentialSummary := { cs_username : string; cs_title : option string; cs_domain : string }.
Record SitePermissionSummary := { ss_host : string; ss_allow_insecure : bool; ss_granted_at : Z }.

Inductive Response :=
| GetExternalSecretResponse (value : option string) (authorized : bool) (error : option string) (locked : option bool)
| SaveSecretResponse (success : bool) (locked : option bool) (error : option string)
| DeleteSecretResponse (deleted : bool) (locked : option bool) (error : option string)
| GetCredentialResponse (username password title : option string) (locked : option bool) (denied_reason : option string)
| ListDomainCredentialsResponse (credentials : list CredentialSummary) (locked : option bool) (denied_reason : option string)
| GetTotpCodeResponse (code : option string) (seconds_remaining : option Z) (locked : option bool) (denied_reason : option string)
| SaveCredentialResponse (success : bool) (error : option string) (locked : option bool)
| GrantSitePermissionResponse (success : bool) (error : option string)
| RevokeSitePermissionResponse (success removed : bool) (error : option string)
| ListSitePermissionsResponse (permissions : list SitePermissionSummary) (locked : option bool)
| UnlockVaultResponse (success : bool) (error : option string)
| VaultStatusResponse (unlocked : bool) (key_epoch : Z).
End Msg.
Import Msg.

(** What arrives with a request: the fields of the envelope around it. *)
Record Caller := { ca_client_token : option string; ca_origin : option Origin; ca_capability : option string }.

(** ** The server *)

Record Server := {
  sv_vault : DaemonVault;
  sv_world : World;
  sv_capabilities : option bytes;       (* capability_store_path *)
  sv_permissions : option bytes;        (* site_permissions_path *)
  sv_allowlist : option bytes;          (* external_secret_allowlist_path *)
  sv_require_stepup : bool;
}.

(** The clocks, the file system, the two environment variables and the ways to
    open the vault, during one request. *)
Record Ambient := {
  am_instant : Z;                       (* Instant *)
  am_now : Z;                           (* Utc::now().timestamp() *)
  am_utc : Z;                           (* Utc::now(), nanoseconds *)
  am_windows : LegacyWindows;
  am_io : StoreIo;
  am_open : bytes -> World -> Res Session * World;
  am_open_biometric : string -> World -> Res Session * World;
}.

Abbreviation Audit := E.AuditEventType.
Definition access (client : option string) (domain : string) (field purpose : option string) (success : bool) : Audit :=
  E.ExternalSecretAccess client domain field purpose success.

Definition strict_legacy : string :=
  "strict profile: legacy external-secret grants are disabled on this daemon; use exact-entry service grants (`sentinelpass service-grant get`)".
Definition rejected_origin : string := "browser-surface request rejected: non-native origin".

(** [to_string] of an error, whose texts the error type leaves out. *)
Class ErrorText := error_to_string : PasswordManagerError -> string.

Section Handlers.
Context `{Environment, Chrono, Hmac, Sha256, HexDecode, UuidText, Base64, Aead, UrlParse, UrlScheme, Base32, HmacSha1, Base64Url, ErrorText}.
Context `{SerdeBytes AadContext, SerdeBytes EnvelopeDoc, SerdeBytes EntryTuple, SerdeBytes MappingTuple, SerdeBytes TagTuple}.
Context `{SerdeBytes CustodyTuple, SerdeBytes State, SerdeBytes Document}.
Context `{Bincode EncryptedEntry, BincodeSer EncryptedEntry, BincodeSer bytes}.
Context `{Bincode KdfParams, Bincode WrappedKey, Bincode LegacyWrappedKey, Bincode bytes, SerdeBytes NonceDocument, SerdeBytes KdfDocument, SerdeBytes WrapDocument}.
Context `{SerdeBytes InstallationCapabilities, SerdeBytes SitePermissionStore, SerdeBytes ExternalSecretAllowlist}.

Definition surface_allowed (am : Ambient) (ca : Caller) (d : Server) : bool :=
  browser_surface_allowed (am_windows am) (am_now am) (ca_origin ca) (ca_capability ca) (sv_capabilities d).
Definition origin_decision (page_url : option string) (d : Server) : result string string :=
  autofill_origin_decision page_url (sv_permissions d).

(** Run an operation of the vault. *)
Definition run {A} (op : DaemonVault -> World -> Res A * DaemonVault * World) (d : Server) : Res A * Server :=
  let '(r, dv, w) := op (sv_vault d) (sv_world d) in (r, {| d with sv_vault := dv; sv_world := w |}).

(** ** Local tools *)

(** The text of a denial names the client, the domain and the field. *)
Definition not_authorized (client domain field : string) : string :=
  "Client '" +:+ client +:+ "' is not authorized for " +:+ domain +:+ " " +:+ field +:+ ": run 'sentinelpass secret allow "
  +:+ client +:+ " --domain " +:+ domain +:+ " --field " +:+ field +:+ "' and set SENTINELPASS_CLIENT_TOKEN".
Definition no_write_grant (client domain : string) : string :=
  "Client '" +:+ client +:+ "' has no write grant for '" +:+ domain +:+ "': run 'sentinelpass secret allow " +:+ client
  +:+ " --domain " +:+ domain +:+ " --field password --write' and set SENTINELPASS_CLIENT_TOKEN".

Definition secret_field (field : X.ExternalSecretField) (c : CredentialResponse) : string :=
  match field with
  | X.Username => cr_username c
  | X.Password => cr_password c
  | X.Title => cr_title c
  end.

Definition get_external_secret (am : Ambient) (ca : Caller) (client domain : string) (field : X.ExternalSecretField)
    (purpose : option string) (d : Server) : Server * list Audit * Response :=
  if sv_require_stepup d then
    (d, [access (Some client) domain (Some (X.as_str field)) (Some (default "legacy_denied_strict"%string purpose)) false],
     GetExternalSecretResponse None false (Some strict_legacy) None)
  else if negb (dv_is_unlocked (sv_vault d)) then (d, [], GetExternalSecretResponse None true None (Some true))
  else
    let purpose := default "external-secret-access"%string purpose in
    let event success := access (Some client) domain (Some (X.as_str field)) (Some purpose) success in
    match load_allowlist (sv_allowlist d) with
    | Err _ => (d, [], GetExternalSecretResponse None false (Some "Failed to load external secret allowlist"%string) None)
    | Ok a =>
      if verify_client_token client (ca_client_token ca) a && is_allowed_at client domain field (am_utc am) a then
        let '(r, d) := run (get_credential (am_now am) domain (am_instant am)) d in
        match r with
        | Ok (Some c) => (d, [event true], GetExternalSecretResponse (Some (secret_field field c)) true None None)
        | Ok None => (d, [event false], GetExternalSecretResponse None true None None)
        | Err _ => (d, [event false], GetExternalSecretResponse None true (Some "Credential lookup failed"%string) None)
        end
      else (d, [event false], GetExternalSecretResponse None false (Some (not_authorized client domain (X.as_str field))) None)
    end.

Definition save_secret (am : Ambient) (ca : Caller) (client domain value : string) (purpose : option string) (d : Server)
    : Server * list Audit * Response :=
  if sv_require_stepup d then
    (d, [], SaveSecretResponse false None
              (Some "step_up_required: external-tool writes are disabled under the strict profile"%string))
  else
    let purpose := default "external-secret-write"%string purpose in
    let event success := E.ExternalSecretWrite (Some client) domain (Some purpose) success in
    if negb (dv_is_unlocked (sv_vault d)) then (d, [], SaveSecretResponse false (Some true) (Some "vault is locked"%string))
    else if negb (match load_allowlist (sv_allowlist d) with
                  | Ok a => write_allowed client domain (ca_client_token ca) (am_utc am) a
                  | Err _ => false
                  end)
    then (d, [event false], SaveSecretResponse false None (Some (no_write_grant client domain)))
    else
      let '(r, d) := run (save_secret_value (am_now am) domain value (am_instant am)) d in
      match r with
      | Ok _ => (d, [event true], SaveSecretResponse true None None)
      | Err _ => (d, [], SaveSecretResponse false None (Some "Failed to save secret"%string))
      end.

(** ** Autofill *)

Definition get_credential_request (am : Ambient) (ca : Caller) (domain : string) (page_url username : option string) (d : Server)
    : Server * list Audit * Response :=
  let reply := GetCredentialResponse None None None in
  let event success := access None domain None None success in
  if negb (surface_allowed am ca d) then (d, [], reply None None)
  else if negb (dv_is_unlocked (sv_vault d)) then (d, [], reply (Some true) None)
  else
    match origin_decision page_url d with
    | Err reason => (d, [event false], reply None (Some reason))
    | Ok host =>
      let '(r, d) := run (get_credential_for_username (am_now am) host username (am_instant am)) d in
      match r with
      | Ok (Some c) =>
        (d, [event true], GetCredentialResponse (Some (cr_username c)) (Some (cr_password c)) (Some (cr_title c)) None None)
      | Ok None => (d, [event false], reply None None)
      | Err _ => (d, [event false], reply None None)
      end
    end.

Definition list_domain_credentials_request (am : Ambient) (ca : Caller) (base_domain : string) (page_url : option string)
    (d : Server) : Server * list Audit * Response :=
  if negb (surface_allowed am ca d) then (d, [], ListDomainCredentialsResponse [] None None)
  else if negb (dv_is_unlocked (sv_vault d)) then (d, [], ListDomainCredentialsResponse [] (Some true) None)
  else
    match origin_decision page_url d with
    | Err reason => (d, [access None base_domain None None false], ListDomainCredentialsResponse [] None (Some reason))
    | Ok host =>
      let '(r, d) := run (list_domain_credentials (am_now am) host (am_instant am)) d in
      match r with
      | Ok l =>
        (d, [], ListDomainCredentialsResponse
          (List.map (fun c => {| cs_username := dr_username c; cs_title := Some (dr_title c); cs_domain := dr_domain c |}) l) None None)
      | Err _ => (d, [], ListDomainCredentialsResponse [] None None)
      end
    end.

Definition get_totp_request (am : Ambient) (ca : Caller) (domain : string) (page_url username : option string) (d : Server)
    : Server * list Audit * Response :=
  let reply := GetTotpCodeResponse None None in
  if negb (surface_allowed am ca d) then (d, [], reply None None)
  else if negb (dv_is_unlocked (sv_vault d)) then (d, [], reply (Some true) None)
  else
    match origin_decision page_url d with
    | Err reason => (d, [access None domain None None false], reply None (Some reason))
    | Ok host =>
      let '(r, d) := run (get_totp_code_for_username (am_now am) host username (am_instant am)) d in
      match r with
      | Ok (Some c) => (d, [], GetTotpCodeResponse (Some (tc_code c)) (Some (tc_seconds_remaining c)) None None)
      | Ok None => (d, [], reply None None)
      | Err _ => (d, [], reply None None)
      end
    end.

Definition save_credential_request (am : Ambient) (ca : Caller) (domain username password : string) (url : option string)
    (d : Server) : Server * list Audit * Response :=
  if sv_require_stepup d then
    (d, [], SaveCredentialResponse false
              (Some "step_up_required: browser capture is disabled under the strict profile"%string) None)
  else if negb (surface_allowed am ca d) then (d, [], SaveCredentialResponse false (Some rejected_origin) None)
  else if negb (dv_is_unlocked (sv_vault d)) then
    (d, [], SaveCredentialResponse false (Some "vault is locked"%string) (Some true))
  else
    let '(r, d) := run (save_credential (am_now am) domain username password url (am_instant am)) d in
    match r with
    | Ok _ => (d, [], SaveCredentialResponse true None None)
    | Err e => (d, [], SaveCredentialResponse false (Some (error_to_string e)) None)
    end.

(** ** Site permissions *)

Definition loaded_permissions (d : Server) : SitePermissionStore :=
  match load_json_store no_permissions (sv_permissions d) with Ok s => s | Err _ => no_permissions end.

Definition grant_site_permission (am : Ambient) (ca : Caller) (host : string) (allow_insecure : bool) (d : Server)
    : Server * list Audit * Response :=
  if sv_require_stepup d then
    (d, [], GrantSitePermissionResponse false
              (Some "step_up_required: site permission grants are disabled under the strict profile"%string))
  else if negb (surface_allowed am ca d) then (d, [], GrantSitePermissionResponse false (Some rejected_origin))
  else if negb allow_insecure then (d, [], GrantSitePermissionResponse false (Some "grant failed"%string))
  else
    let '(_, file, r) := grant_insecure (am_now am) (am_io am) host (loaded_permissions d) (sv_permissions d) in
    let d := {| d with sv_permissions := file |} in
    match r with
    | Ok true => (d, [], GrantSitePermissionResponse true None)
    | Ok false => (d, [], GrantSitePermissionResponse false (Some "invalid host"%string))
    | Err _ => (d, [], GrantSitePermissionResponse false (Some "grant failed"%string))
    end.

Definition revoke_site_permission (am : Ambient) (ca : Caller) (host : string) (d : Server) : Server * list Audit * Response :=
  if sv_require_stepup d then
    (d, [], RevokeSitePermissionResponse false false
              (Some "step_up_required: site permission changes are disabled under the strict profile"%string))
  else if negb (surface_allowed am ca d) then (d, [], RevokeSitePermissionResponse false false (Some rejected_origin))
  else
    let '(_, file, r) := revoke_permission (am_io am) host (loaded_permissions d) (sv_permissions d) in
    let d := {| d with sv_permissions := file |} in
    match r with
    | Ok removed => (d, [], RevokeSitePermissionResponse true removed None)
    | Err _ => (d, [], RevokeSitePermissionResponse false false (Some "revoke failed"%string))
    end.

Definition list_site_permissions (am : Ambient) (ca : Caller) (d : Server) : Server * list Audit * Response :=
  if negb (surface_allowed am ca d) then (d, [], ListSitePermissionsResponse [] None)
  else (d, [], ListSitePermissionsResponse
          (List.map (fun p => {| ss_host := sp_host p; ss_allow_insecure := sp_allow_insecure p; ss_granted_at := sp_granted_at p |})
             (list_permissions (loaded_permissions d))) None).

(** ** Unlocking *)

Definition unlock_request (am : Ambient) (password : string) (d : Server) : Server * list Audit * Response :=
  if dv_is_unlocked (sv_vault d) then (d, [], UnlockVaultResponse true None)
  else
    let '(r, d) := run (unlock (am_instant am) (am_open am (as_bytes password))) d in
    match r with
    | Ok _ => (d, [], UnlockVaultResponse true None)
    | Err e => (d, [], UnlockVaultResponse false (Some (error_to_string e)))
    end.
Definition unlock_biometric_request (am : Ambient) (prompt : option string) (d : Server) : Server * list Audit * Response :=
  let reason := default "Unlock SentinelPass daemon"%string prompt in
  let '(r, d) := run (unlock (am_instant am) (am_open_biometric am reason)) d in
  match r with
  | Ok _ => (d, [E.BiometricUnlockRequested true], UnlockVaultResponse true None)
  | Err e => (d, [E.BiometricUnlockRequested false], UnlockVaultResponse false (Some (error_to_string e)))
  end.

(** [DaemonVault::key_epoch]. *)
Definition daemon_key_epoch (d : Server) : option Z :=
  match dv_vault (sv_vault d) with
  | None => None
  | Some _ => match load_vault_metadata (metadata (w_db (sv_world d))) with Ok (_, _, e) => Some e | Err _ => None end
  end.

(** [handle_message]. *)
Definition handle_message (am : Ambient) (ca : Caller) (m : Request) (d : Server) : Server * list Audit * Response :=
  match m with
  | GetExternalSecret client domain field purpose => get_external_secret am ca client domain field purpose d
  | SaveSecret client domain value purpose => save_secret am ca client domain value purpose d
  | DeleteSecret _ _ =>
    (d, [], DeleteSecretResponse false None
              (Some "deletion is not supported for external tools; revoke the grant instead"%string))
  | GetCredential domain page_url username => get_credential_request am ca domain page_url username d
  | ListDomainCredentials base_domain page_url => list_domain_credentials_request am ca base_domain page_url d
  | GetTotpCode domain page_url username => get_totp_request am ca domain page_url username d
  | SaveCredential domain username password url _ => save_credential_request am ca domain username password url d
  | GrantSitePermission host allow_insecure => grant_site_permission am ca host allow_insecure d
  | RevokeSitePermission host => revoke_site_permission am ca host d
  | ListSitePermissions => list_site_permissions am ca d
  | UnlockVault password => unlock_request am password d
  | UnlockVaultBiometric prompt => unlock_biometric_request am prompt d
  | CheckVault => (d, [], VaultStatusResponse (dv_is_unlocked (sv_vault d)) (default 0 (daemon_key_epoch d)))
  | LockVault => ({| d with sv_vault := lock (sv_vault d) |}, [], VaultStatusResponse false 0)
  end.
End Handlers.
