(* ===== verification/BrowserFacts.v ===== *)
(** * Requests of browsers and local tools: what may leave the vault *)

From S2P Require Import Prelude Text ThirdParty Aad Envelope Keyring CoreError EnvelopeOps DbWire KeySlots VaultKeys LocalDb ContentGuard ContentFacts.
From S2P Require Import Registry Entries EntriesFacts DomainTags DomainOps DomainFacts Totp TotpOps Session AuditLog SiteAccess ExternalAllow DaemonVault Browser.
From Stdlib Require Import ZArith Lia Strings.String Strings.Ascii Strings.Byte.
From stdpp Require Import base list option strings numbers gmap sorting.
From S2P Require Import Text LocalDb Entries Totp TotpOps SiteAccess ExternalAllow DaemonVault Browser.
Import Msg.
Open Scope Z_scope.

(** ** Operations that only read *)

Class Reads {A} (m : M A) : Prop := reads_world : forall w, (m w).2 = w.

#[global] Instance reads_ret {A} (a : A) : Reads (mret a).
Proof. done. Qed.
#[global] Instance reads_lift {A} (r : Res A) : Reads (lift r).
Proof. done. Qed.
#[global] Instance reads_fail {A} e : Reads (fail (A := A) e).
Proof. done. Qed.
#[global] Instance reads_fail_if b e : Reads (fail_if b e).
Proof. done. Qed.
#[global] Instance reads_query {A} (f : LocalDb -> A) : Reads (query f).
Proof. done. Qed.
#[global] Instance reads_try {A} (m : M A) : Reads m -> Reads (try m).
Proof. intros Hm w. unfold try. specialize (Hm w). by destruct (m w). Qed.
#[global] Instance reads_bind {A B} (m : M A) (k : A -> M B) : Reads m -> (forall a, Reads (k a)) -> Reads (m ≫= k).
Proof.
  intros Hm Hk w. unfold mbind, M_bind. specialize (Hm w). destruct (m w) as [[a|e] w1]; simpl in *; [|done]. subst w1. apply Hk.
Qed.

Lemma reads_run {A} (m : M A) w a w' : Reads m -> m w = (a, w') -> w' = w.
Proof. intros Hm E. specialize (Hm w). by rewrite E in Hm. Qed.

(** Follow the structure of an operation. *)
Ltac reads :=
  repeat (first [ apply reads_bind; [|intros] | apply reads_try | apply _
                | match goal with |- Reads (match ?x with _ => _ end) => destruct x end
                | match goal with |- Reads (let '_ := ?x in _) => destruct x end ]).

Lemma NoDup_key {A B} (g : A -> B) l x y : NoDup (List.map g l) -> x ∈ l -> y ∈ l -> g x = g y -> x = y.
Proof.
  induction l as [|z l IH]; simpl; intros Hn Hx Hy E; [by apply elem_of_nil in Hx|]. inversion_clear Hn as [|? ? Hz Hl].
  assert (forall u, u ∈ l -> g u <> g z) as Hne.
  { intros u Hu Eu. apply Hz. rewrite <- Eu, list_elem_of_In. apply in_map. by apply list_elem_of_In. }
  apply elem_of_cons in Hx as [->|Hx], Hy as [->|Hy]; [done| | |by apply IH]; exfalso; [by apply (Hne y)|by apply (Hne x)].
Qed.

Section Facts.
Context `{Environment, Chrono, Hmac, Sha256, HexDecode, UuidText, Base64, Aead, UrlParse, UrlScheme, Base32, HmacSha1, Base64Url, ErrorText}.
Context `{SerdeBytes AadContext, SerdeBytes EnvelopeDoc, SerdeBytes EntryTuple, SerdeBytes MappingTuple, SerdeBytes TagTuple}.
Context `{SerdeBytes CustodyTuple, SerdeBytes State, SerdeBytes Document}.
Context `{Bincode EncryptedEntry, BincodeSer EncryptedEntry, BincodeSer bytes}.
Context `{Bincode KdfParams, Bincode WrappedKey, Bincode LegacyWrappedKey, Bincode bytes, SerdeBytes NonceDocument, SerdeBytes KdfDocument, SerdeBytes WrapDocument}.
Context `{SerdeBytes InstallationCapabilities, SerdeBytes SitePermissionStore, SerdeBytes ExternalSecretAllowlist}.

#[global] Instance reads_unlocked s : Reads (require_unlocked s).
Proof. done. Qed.
#[global] Instance reads_verify_snapshot dek : Reads (verify_snapshot dek).
Proof. done. Qed.
#[global] Instance reads_verify_row dek r : Reads (verify_row dek r).
Proof. done. Qed.
#[global] Instance reads_decrypt s now r : Reads (decrypt_entry_row s now r).
Proof. unfold decrypt_entry_row. reads. Qed.
#[global] Instance reads_get_entry s now id : Reads (get_entry s now id).
Proof. unfold get_entry. reads. Qed.
#[global] Instance reads_summary s r : Reads (row_to_summary s r).
Proof. unfold row_to_summary. reads. Qed.
#[global] Instance reads_summaries s rows : Reads (summaries s rows).
Proof. induction rows; simpl; reads. Qed.
#[global] Instance reads_list_entries s : Reads (list_entries s).
Proof. unfold list_entries. reads. Qed.
#[global] Instance reads_decrypt_rows s now rows : Reads (decrypt_rows s now rows).
Proof. induction rows; simpl; reads. Qed.
#[global] Instance reads_domain_lookup s now d : Reads (domain_lookup s now d).
Proof. unfold domain_lookup. reads. Qed.
#[global] Instance reads_scan {A} s now (f : Z -> Entry -> M (option A)) l : (forall id e, Reads (f id e)) -> Reads (scan s now f l).
Proof. intros Hf. induction l; simpl; reads. Qed.
#[global] Instance reads_scan_all s now p l : Reads (scan_all s now p l).
Proof. induction l; simpl; reads. Qed.
#[global] Instance reads_find_credential now d u s : Reads (find_credential now d u s).
Proof. unfold find_credential. reads. Qed.
#[global] Instance reads_totp s now id : Reads (vault_totp_code s now id).
Proof. unfold vault_totp_code, read_row. reads. Qed.
#[global] Instance reads_code_of s now id : Reads (code_of s now id).
Proof. unfold code_of. reads. Qed.
#[global] Instance reads_first_code s now u l : Reads (first_code s now u l).
Proof. induction l; simpl; reads. Qed.
#[global] Instance reads_find_totp now d u s : Reads (find_totp_code now d u s).
Proof. unfold find_totp_code. reads. apply reads_scan. intros. reads. Qed.
#[global] Instance reads_find_domain now d s : Reads (find_domain_credentials now d s).
Proof. unfold find_domain_credentials. reads. Qed.

(** ** Where a result of the lookups comes from *)

Lemma scan_ok {A} s now (f : Z -> Entry -> M (option A)) l w a w' :
  (forall id e, Reads (f id e)) -> scan s now f l w = (Ok (Some a), w') ->
  exists x e, x ∈ l /\ get_entry s now (es_entry_id x) w = (Ok e, w) /\ f (es_entry_id x) e w = (Ok (Some a), w).
Proof.
  intros Hf. induction l as [|x l IH]; intros E; [discriminate E|]. cbn [scan] in E.
  apply M_bind_ok in E as (r & w1 & E1 & E). pose proof (reads_run _ _ _ _ _ E1) as ->.
  unfold try in E1. destruct (get_entry s now (es_entry_id x) w) as [r' w2] eqn:Eg. injection E1 as -> ->.
  destruct r as [e|]; [|apply IH in E as (x' & e' & Hx & Hr); exists x', e'; split; [by right|done]].
  apply M_bind_ok in E as (o & w2 & E2 & E). pose proof (reads_run _ _ _ _ _ E2) as ->. destruct o as [a'|].
  - injection E as -> _. exists x, e. split; [by left|]. done.
  - apply IH in E as (x' & e' & Hx & Hr). exists x', e'. split; [by right|done].
Qed.

(** The entry is one of the vault, opened with its keys. *)
Definition in_vault (s : Session) (now : Z) (db : LocalDb) (e : Entry) : Prop :=
  exists r, r ∈ entries db /\ visible r = true /\ open_row s now r = Ok e.

Lemma decrypt_run s now r w e w' : decrypt_entry_row s now r w = (Ok e, w') -> open_row s now r = Ok e.
Proof.
  unfold decrypt_entry_row. intros E. apply M_bind_ok in E as (? & ? & _ & E). apply M_bind_ok in E as (? & ? & _ & E).
  by apply M_lift_ok in E as [? _].
Qed.

Lemma get_raw_visible id db r : get_raw id db = Some r -> r ∈ entries db /\ visible r = true.
Proof. intros [Hr [_ Hv]%andb_true_iff]%find_some. by rewrite list_elem_of_In. Qed.

Lemma get_entry_in s now id w e w' :
  get_entry s now id w = (Ok e, w') ->
  exists r, get_raw id (w_db w) = Some r /\ open_row s now r = Ok e.
Proof.
  unfold get_entry. intros E. apply M_bind_ok in E as (? & w1 & E1 & E). pose proof (reads_run _ _ _ _ _ E1) as ->.
  apply M_bind_ok in E as (dek & w1 & E2 & E). pose proof (reads_run _ _ _ _ _ E2) as ->.
  apply M_bind_ok in E as (? & w1 & E3 & E). pose proof (reads_run _ _ _ _ _ E3) as ->.
  apply M_bind_ok in E as (row & w1 & [-> <-]%M_query_ok & E).
  destruct (get_raw id (w_db w)) as [r|]; [|discriminate E]. exists r. split; [done|]. by apply decrypt_run in E.
Qed.

Lemma decrypt_rows_in s now rows w es w' e :
  decrypt_rows s now rows w = (Ok es, w') -> e ∈ es -> exists r, r ∈ rows /\ open_row s now r = Ok e.
Proof.
  revert w es w'. induction rows as [|r rows IH]; intros w es w' E He; cbn [decrypt_rows] in E.
  - injection E as <- <-. by apply elem_of_nil in He.
  - apply M_bind_ok in E as (e1 & w1 & E1 & E). apply M_bind_ok in E as (l & w2 & E2 & E). injection E as <- <-.
    apply elem_of_cons in He as [->|He]; [exists r; split; [by left|by apply decrypt_run in E1]|].
    destruct (IH _ _ _ E2 He) as (r' & Hr & Ho). exists r'. split; [by right|done].
Qed.

(** An entry the index offers for a host. *)
Definition mapped (s : Session) (db : LocalDb) (host : string) (e : Entry) : Prop :=
  exists dek v h m, session_dek s = Ok dek /\ session_uuid s = Some v /\ normalize_host host ≫= normalize_host = Some h /\
    m ∈ domain_mappings db /\ en_entry_id e = Some (dm_entry_id m) /\ offers dek v h m.

Lemma domain_lookup_in s now q w es w' e :
  domain_lookup s now q w = (Ok es, w') -> e ∈ es ->
  in_vault s now (w_db w) e /\
  exists dek v h m, session_dek s = Ok dek /\ session_uuid s = Some v /\ normalize_host q = Some h /\
    m ∈ domain_mappings (w_db w) /\ en_entry_id e = Some (dm_entry_id m) /\ offers dek v h m.
Proof.
  intros E He. assert (E0 := E). unfold domain_lookup in E.
  apply M_bind_ok in E as (? & w1 & E1 & E). pose proof (reads_run _ _ _ _ _ E1) as ->. clear E1.
  destruct (normalize_host q) as [h|] eqn:Hq; [|injection E as <- <-; by apply elem_of_nil in He].
  apply M_bind_ok in E as (dek & w1 & [Hd <-]%M_lift_ok & E). apply M_bind_ok in E as (v & w1 & [Hv <-]%M_lift_ok & E).
  apply M_bind_ok in E as (k & w1 & [Hk%map_err_ok <-]%M_lift_ok & E). apply M_bind_ok in E as (tags & w1 & [_ <-]%M_lift_ok & E).
  apply M_bind_ok in E as (? & w1 & E1 & E). pose proof (reads_run _ _ _ _ _ E1) as ->. clear E1.
  apply M_bind_ok in E as (db & w1 & [-> <-]%M_query_ok & E). apply M_bind_ok in E as (ids & w1 & [_ <-]%M_lift_ok & E).
  apply ok_or_ok in Hv. split.
  - destruct (decrypt_rows_in _ _ _ _ _ _ _ E He) as (r & Hr & Ho). apply list_elem_of_omap in Hr as (id & _ & [? ?]%get_raw_visible).
    by exists r.
  - destruct (lookup_sound _ _ _ _ _ _ _ _ _ _ _ Hd Hv Hk Hq E0 He) as (m & ? & ? & ?). by exists dek, v, h, m.
Qed.

Lemma summaries_in s rows w l w' x :
  summaries s rows w = (Ok l, w') -> x ∈ l -> exists r, r ∈ rows /\ summary_of s r = Ok x.
Proof.
  revert w l w'. induction rows as [|r rows IH]; intros w l w' E Hx; cbn [summaries] in E.
  - injection E as <- <-. by apply elem_of_nil in Hx.
  - apply M_bind_ok in E as (y & w1 & E1 & E). apply M_bind_ok in E as (l' & w2 & E2 & E). injection E as <- <-.
    apply elem_of_cons in Hx as [->|Hx].
    + exists r. split; [by left|]. unfold row_to_summary in E1. apply M_bind_ok in E1 as (? & ? & _ & E1).
      apply M_bind_ok in E1 as (? & ? & _ & E1). by apply M_lift_ok in E1 as [? _].
    + destruct (IH _ _ _ E2 Hx) as (r' & Hr & Ho). exists r'. split; [by right|done].
Qed.

Lemma list_entries_in s w l w' x :
  list_entries s w = (Ok l, w') -> x ∈ l ->
  exists r, r ∈ entries (w_db w) /\ visible r = true /\ summary_of s r = Ok x.
Proof.
  unfold list_entries. intros E Hx. apply M_bind_ok in E as (? & w1 & E1 & E). pose proof (reads_run _ _ _ _ _ E1) as ->.
  apply M_bind_ok in E as (dek & w1 & E2 & E). pose proof (reads_run _ _ _ _ _ E2) as ->.
  apply M_bind_ok in E as (? & w1 & E3 & E). pose proof (reads_run _ _ _ _ _ E3) as ->.
  apply M_bind_ok in E as (rows & w1 & [-> <-]%M_query_ok & E). apply M_bind_ok in E as (l0 & w1 & E4 & E). injection E as <- <-.
  rewrite merge_sort_Permutation in Hx. destruct (summaries_in _ _ _ _ _ _ E4 Hx) as (r & Hr & Ho).
  unfold list_raw in Hr; simpl in Hr. apply list_elem_of_In, filter_In in Hr as [Hr [Hv _]%andb_true_iff].
  exists r. by rewrite list_elem_of_In.
Qed.

(** A summary and the entry read under its id are of one row, so of one type. *)
Lemma summary_entry_type s now w l w1 x e w2 :
  keys_unique (w_db w) -> list_entries s w = (Ok l, w1) -> x ∈ l -> get_entry s now (es_entry_id x) w = (Ok e, w2) ->
  in_vault s now (w_db w) e /\ en_credential_type e = es_credential_type x.
Proof.
  intros Hu El Hx Eg. destruct (list_entries_in _ _ _ _ _ El Hx) as (r & Hr & Hv & Hs).
  destruct (get_entry_in _ _ _ _ _ _ Eg) as (r' & Hraw & Ho). destruct (get_raw_visible _ _ _ Hraw) as [Hr' Hv'].
  split; [by exists r'|]. apply get_raw_inv in Hraw as (_ & Hid & _).
  assert (entry_id r = es_entry_id x /\ cred_parse (e_credential_type r) = Ok (es_credential_type x)) as [Hidx Hc].
  { unfold summary_of in Hs. result_inv. by simplify_eq. }
  assert (r' = r) as -> by (destruct Hu as [Hu _]; eapply (NoDup_key entry_id); [exact Hu|done|done|congruence]).
  unfold open_row in Ho. result_inv. simplify_eq. simpl. congruence.
Qed.

(** The credential belongs to the host: an entry of the vault with a secret, of
    the requested user, which the index offers for the host or whose address
    matches it. *)
Definition belongs (s : Session) (now : Z) (db : LocalDb) (host : string) (username : option string) (e : Entry) : Prop :=
  in_vault s now db e /\ is_retrievable_secret (en_credential_type e) = true /\ username_matches username (en_username e) = true /\
  (mapped s db host e \/ exists url, en_url e = Some url /\ domains_match host url = true).

Lemma find_credential_in s now host username w c w' :
  keys_unique (w_db w) -> find_credential now host username s w = (Ok (Some c), w') ->
  exists e, c = credential_response e /\ belongs s now (w_db w) host username e.
Proof.
  intros Hu E. unfold find_credential in E. apply M_bind_ok in E as (found & w1 & E1 & E).
  assert (w1 = w) as -> by (eapply reads_run; [|exact E1]; reads).
  destruct found as [e|].
  - injection E as <- _. destruct (normalize_host host) as [h|] eqn:Hh; [|discriminate E1].
    apply M_bind_ok in E1 as (l & w2 & E2 & E1). injection E1 as E1 _. apply find_some in E1 as [Hin [Hr Hm]%andb_true_iff].
    exists e. split; [done|]. destruct (domain_lookup_in _ _ _ _ _ _ _ E2 (proj2 (list_elem_of_In _ _) Hin)) as [Hv (dek & v & h' & m & ? & ? & ? & ?)].
    split_and!; [done|done|done|]. left. exists dek, v, h', m. rewrite Hh. done.
  - apply M_bind_ok in E as (l & w2 & E2 & E). pose proof (reads_run _ _ _ _ _ E2) as ->.
    apply scan_ok in E as (x & e & Hx & Eg & Ef); [|intros; apply _].
    injection Ef as Ef. destruct (_ && _) eqn:Hm; [|discriminate Ef]. injection Ef as <-. apply andb_true_iff in Hm as [Hurl Hm].
    apply list_elem_of_In, filter_In in Hx as [Hx Hr]. destruct (summary_entry_type _ _ _ _ _ _ _ _ Hu E2 (proj2 (list_elem_of_In _ _) Hx) Eg) as [Hv Ht].
    exists e. split; [done|]. split_and!; [done|by rewrite Ht|done|]. right. unfold url_matches in Hurl. destruct (en_url e); [eauto|done].
Qed.

(** ** The gates *)

(** The caller shows the secret of a stored, unexpired capability of the native
    host; or the operator has reopened a migration window. *)
Definition native_host (am : Ambient) (ca : Caller) (d : Server) : Prop :=
  (exists store cap secret, load_json_store no_capabilities (sv_capabilities d) = Ok store /\ cap ∈ capabilities store /\
     cap_audience cap = NATIVE_HOST_AUDIENCE /\ (forall t, cap_expires_at cap = Some t -> am_now am < t) /\
     ca_capability ca = Some secret /\ hex_decode (cap_secret_hash cap) = Some (sha256 (as_bytes secret))) \/
  (ca_origin ca = Some NativeHost /\ allow_self_asserted_origin (am_windows am) = true) \/
  (ca_origin ca = None /\ allow_legacy_originless (am_windows am) = true).

Lemma surface_allowed_ok am ca d : surface_allowed am ca d = true -> native_host am ca d.
Proof.
  unfold surface_allowed, browser_surface_allowed, browser_surface_allowed_with_store. intros [Hc|Ho]%orb_true_iff.
  - left. unfold verify_capability in Hc. destruct (ca_capability ca) as [p|] eqn:Ep; [|done]. destruct (is_empty p); [done|].
    apply existsb_exists in Hc as (c & Hin & Hv). destruct (load_json_store _ _) as [store|] eqn:El; [|done].
    unfold capability_verifies in Hv. rewrite !andb_true_iff in Hv. destruct Hv as [[Ha Hx] Hh].
    exists store, c, p. split_and!; [done|by rewrite list_elem_of_In|by apply String.eqb_eq| |done|].
    + intros t Et. rewrite Et in Hx. propify. lia.
    + destruct (hex_decode _); [|done]. by apply bool_decide_eq_true in Hh as ->.
  - right. destruct (ca_origin ca) as [[]|]; [by left|done|by right].
Qed.

(** The page is on the host: its address has a secure scheme, or a plain one
    the user permitted for exactly this host. *)
Definition page_on (d : Server) (page_url : option string) (host : string) : Prop :=
  exists url h, page_url = Some url /\ url_parse (trim url) = Some (Some h) /\
    host = default (to_ascii_lowercase (trim h)) (normalize_host (trim h)) /\
    (url_scheme (trim url) = "https"%string \/
     (url_scheme (trim url) = "http"%string /\
      exists store p, load_json_store no_permissions (sv_permissions d) = Ok store /\ p ∈ permissions store /\
        sp_allow_insecure p = true /\ normalize_grant_host host = Some (sp_host p))).

Lemma origin_decision_ok page_url d host : origin_decision page_url d = Ok host -> page_on d page_url host.
Proof.
  unfold origin_decision, autofill_origin_decision, autofill_origin_decision_with_store. intros E.
  apply result_bind_ok in E as (raw & Er%ok_or_ok & E). destruct page_url as [url|]; [|done]. simpl in Er.
  destruct (is_empty (trim url)); [done|]. injection Er as <-.
  apply result_bind_ok in E as (hs & Ehs%ok_or_ok & E). apply result_bind_ok in E as (insecure & Esch & E).
  apply result_bind_ok in E as (u & Ene%err_if_ok & E). apply result_bind_ok in E as (u' & Eperm%err_if_ok & E). injection E as <-.
  destruct hs as [h|]; [|done]. simpl in *. exists url, h. split_and!; [done|done|done|].
  destruct (String.eqb _ "https") eqn:E1; [left; by apply String.eqb_eq|].
  destruct (String.eqb _ "http") eqn:E2; [|discriminate Esch]. injection Esch as <-. right. split; [by apply String.eqb_eq|].
  simpl in Eperm. apply negb_false_iff in Eperm. unfold allows_insecure in Eperm. destruct (normalize_grant_host _) as [g|]; [|done].
  apply existsb_exists in Eperm as (p & Hin & [Ha Hh%String.eqb_eq]%andb_true_iff). destruct (load_json_store _ _) as [store|] eqn:El; [|done].
  exists store, p. rewrite list_elem_of_In, Hh. done.
Qed.

(** The daemon holds an open vault. *)
Definition holds (d : Server) (s : Session) : Prop := dv_state (sv_vault d) = Unlocked /\ dv_vault (sv_vault d) = Some s.

Lemma run_reads {A} (locked : Res A) (f : Session -> M A) instant d r d' :
  (forall s, Reads (f s)) -> run (with_vault locked f instant) d = (r, d') ->
  sv_world d' = sv_world d /\ sv_permissions d' = sv_permissions d /\ sv_capabilities d' = sv_capabilities d /\
  sv_allowlist d' = sv_allowlist d /\
  match dv_vault (sv_vault d) with Some s => (f s (sv_world d)).1 = r | None => r = locked end.
Proof.
  intros Hf. unfold run, with_vault. destruct (dv_vault (sv_vault d)) as [s|]; [|by intros [= <- <-]].
  pose proof (Hf s (sv_world d)) as Hw. destruct (f s (sv_world d)) as [r' w']. simpl in *. subst w'. by intros [= <- <-].
Qed.

(** C21. Autofill is bound to the page.  A request for a credential changes
    neither the vault nor a store, and its answer does not depend on the domain
    the caller claims.  A username, password or title is in the answer only
    when the caller is the native host (or a migration window is open), the
    vault is open, the page's address parses and is secure (or the user
    permitted its exact host), and there is an entry of the vault with a
    secret, of the requested user, that belongs to the page's host; the answer
    then holds the texts of that entry, and the release is audited. *)
Theorem autofill_bound am ca domain page_url username d d' audits u p t locked reason :
  keys_unique (w_db (sv_world d)) ->
  handle_message am ca (GetCredential domain page_url username) d = (d', audits, GetCredentialResponse u p t locked reason) ->
  sv_world d' = sv_world d /\ sv_permissions d' = sv_permissions d /\ sv_capabilities d' = sv_capabilities d /\
  (forall claimed, exists audits', handle_message am ca (GetCredential claimed page_url username) d =
     (d', audits', GetCredentialResponse u p t locked reason)) /\
  ((u = None /\ p = None /\ t = None) \/
   exists host s e, native_host am ca d /\ holds d s /\ page_on d page_url host /\
     belongs s (am_now am) (w_db (sv_world d)) host username e /\
     u = Some (en_username e) /\ p = Some (en_password e) /\ t = Some (en_title e) /\ audits = [access None domain None None true]).
Proof.
  intros Hu E. unfold handle_message, get_credential_request in *.
  destruct (surface_allowed am ca d) eqn:Es; simpl in *; [|simplify_eq; split_and!; eauto].
  destruct (dv_is_unlocked (sv_vault d)) eqn:El; simpl in *; [|simplify_eq; split_and!; eauto].
  destruct (origin_decision page_url d) as [host|rs] eqn:Eo; [|simplify_eq; split_and!; eauto].
  destruct (run _ d) as [r d1] eqn:Er. unfold get_credential_for_username in Er.
  destruct (run_reads _ _ _ _ _ _ (fun s => _) Er) as (Hw & Hp & Hc & _ & Hr).
  destruct r as [[c|]|e]; simplify_eq; (split_and!; [done|done|done|eauto|]); [|by left|by left].
  right. destruct (dv_vault (sv_vault d)) as [s|] eqn:Ev; [|done].
  destruct (find_credential _ _ _ s _) as [r w'] eqn:Ef. simpl in Hr. subst r.
  destruct (find_credential_in _ _ _ _ _ _ _ Hu Ef) as (e & -> & Hb). exists host, s, e.
  split_and!; [by apply surface_allowed_ok| |by apply origin_decision_ok|done|done|done|done|done].
  split; [|done]. unfold dv_is_unlocked in El. by apply bool_decide_eq_true in El.
Qed.

(** ** Local tools *)

(** The caller passes for the client: the client has no token record, and then
    anyone does, or the caller shows the token that is current. *)
Definition stands_for (ca : Caller) (a : ExternalSecretAllowlist) (id : string) : Prop :=
  xa_client_tokens a !! id = None \/
  exists r token, xa_client_tokens a !! id = Some r /\ ct_revoked r = false /\ ca_client_token ca = Some token /\
    ct_token_hash r = hash_client_token token.
Definition unexpired (utc : Z) (g : ExternalSecretGrant) : Prop := forall t, xg_expires_at g = Some t -> utc < t.

Lemma verify_client_token_ok ca client a :
  verify_client_token client (ca_client_token ca) a = true -> exists id, normalize_client_id client = Ok id /\ stands_for ca a id.
Proof.
  unfold verify_client_token, stands_for. destruct (normalize_client_id client) as [id|]; [|done]. intros E. exists id. split; [done|].
  destruct (xa_client_tokens a !! id) as [r|] eqn:Er; [|by left]. right. destruct (ct_revoked r) eqn:Ev; [done|].
  destruct (ca_client_token ca) as [token|]; [|done]. apply bool_decide_eq_true, as_bytes_inj in E. exists r, token. auto.
Qed.

Lemma unexpired_ok g utc : is_expired_at g utc = false -> unexpired utc g.
Proof. unfold is_expired_at, unexpired. intros E t Et. rewrite Et in E. propify. lia. Qed.

Lemma is_allowed_ok client domain field utc a id :
  normalize_client_id client = Ok id -> is_allowed_at client domain field utc a = true ->
  exists g dom, normalize_domain domain = Ok dom /\ g ∈ xa_grants a /\ xg_client_id g = id /\ xg_domain g = dom /\ xg_field g = field /\
    unexpired utc g.
Proof.
  intros Hid. unfold is_allowed_at. rewrite Hid. destruct (normalize_domain domain) as [dom|]; [|done].
  intros (g & Hg & [Hm Hx%negb_true_iff]%andb_true_iff)%existsb_exists. unfold matches_scope in Hm.
  rewrite !andb_true_iff in Hm. destruct Hm as [[Hc%String.eqb_eq Hd%String.eqb_eq] Hf%bool_decide_eq_true].
  exists g, dom. rewrite list_elem_of_In. split_and!; auto. by apply unexpired_ok.
Qed.

Lemma write_allowed_ok ca client domain utc a :
  write_allowed client domain (ca_client_token ca) utc a = true ->
  exists id g, normalize_client_id client = Ok id /\ stands_for ca a id /\ g ∈ xa_grants a /\ xg_client_id g = id /\
    xg_domain g = domain /\ xg_allow_write g = true /\ unexpired utc g.
Proof.
  unfold write_allowed. intros [(id & Hid & Hs)%verify_client_token_ok E]%andb_true_iff.
  unfold grants_for_client in E. rewrite Hid in E. simpl in E. apply existsb_exists in E as (g & Hg & E).
  rewrite !andb_true_iff in E. destruct E as [[Hw Hx%negb_true_iff] Hd%String.eqb_eq].
  apply list_elem_of_In in Hg. rewrite merge_sort_Permutation in Hg. apply list_elem_of_In, filter_In in Hg as [Hg Hc%String.eqb_eq].
  exists id, g. rewrite list_elem_of_In. split_and!; auto. by apply unexpired_ok.
Qed.

(** C22. What a local tool may read.  Outside the strict profile and with the
    vault open, a value is released only for a client with an unexpired read
    grant for exactly this field of the domain, in normal form, that was asked
    for; when the client has a token record, only to a caller that shows its
    current, unrevoked token (a client without one is anyone that uses its
    name).  The value is that field of an entry that belongs to the domain.
    The request changes nothing in the vault, and a release is audited. *)
Theorem external_read_bound am ca d client domain field purpose d' audits v auth err locked :
  keys_unique (w_db (sv_world d)) ->
  handle_message am ca (GetExternalSecret client domain field purpose) d =
    (d', audits, GetExternalSecretResponse v auth err locked) ->
  sv_world d' = sv_world d /\
  (v = None \/
   exists a id g s e, sv_require_stepup d = false /\ holds d s /\ load_allowlist (sv_allowlist d) = Ok a /\
     normalize_client_id client = Ok id /\
     (forall r, xa_client_tokens a !! id = Some r -> ct_revoked r = false /\
        exists token, ca_client_token ca = Some token /\ ct_token_hash r = hash_client_token token) /\
     g ∈ xa_grants a /\ xg_client_id g = id /\
     normalize_domain domain = Ok (xg_domain g) /\ xg_field g = field /\ unexpired (am_utc am) g /\
     belongs s (am_now am) (w_db (sv_world d)) domain None e /\ v = Some (secret_field field (credential_response e)) /\
     audits = [access (Some client) domain (Some (X.as_str field)) (Some (default "external-secret-access"%string purpose)) true]).
Proof.
  intros Hu E. unfold handle_message, get_external_secret in E.
  destruct (sv_require_stepup d) eqn:Es; [simplify_eq; auto|]. destruct (dv_is_unlocked (sv_vault d)) eqn:El; simpl in E; [|simplify_eq; auto].
  destruct (load_allowlist (sv_allowlist d)) as [a|] eqn:Ea; [|simplify_eq; auto].
  destruct (verify_client_token _ _ _ && _) eqn:Ev; [|simplify_eq; auto].
  apply andb_true_iff in Ev as [(id & Hid & Hs)%verify_client_token_ok Hal]. destruct (is_allowed_ok _ _ _ _ _ _ Hid Hal) as (g & dom & ? & ? & ? & <- & ? & ?).
  destruct (run _ d) as [r d1] eqn:Er. unfold get_credential, get_credential_for_username in Er.
  destruct (run_reads _ _ _ _ _ _ (fun s => _) Er) as (Hw & _ & _ & _ & Hr).
  destruct r as [[c|]|e]; simplify_eq; (split; [done|]); [|by left|by left].
  right. destruct (dv_vault (sv_vault d)) as [s|] eqn:Edv; [|done].
  destruct (find_credential _ _ _ s _) as [r w'] eqn:Ef. simpl in Hr. subst r.
  destruct (find_credential_in _ _ _ _ _ _ _ Hu Ef) as (e & -> & Hb). exists a, (xg_client_id g), g, s, e.
  unfold dv_is_unlocked in El. apply bool_decide_eq_true in El. split_and!; auto; [by split|].
  intros r Hr. destruct Hs as [Hs|(r' & token & Hr' & ? & ? & ?)]; [congruence|].
  rewrite Hr in Hr'. injection Hr' as <-. eauto.
Qed.

(** A write is accepted, without a token record of the client as well, under an
    unexpired grant that allows writing and names the domain exactly as it was
    sent.  Which entry it then overwrites is not bounded by the grant
    ([tool_overwrites_login]). *)
Lemma external_write_gated am ca d client domain value purpose d' audits r :
  handle_message am ca (SaveSecret client domain value purpose) d = (d', audits, r) ->
  d' = d \/
  exists a id g, sv_require_stepup d = false /\ dv_state (sv_vault d) = Unlocked /\ load_allowlist (sv_allowlist d) = Ok a /\
    normalize_client_id client = Ok id /\ stands_for ca a id /\ g ∈ xa_grants a /\ xg_client_id g = id /\
    xg_domain g = domain /\ xg_allow_write g = true /\ unexpired (am_utc am) g.
Proof.
  intros E. unfold handle_message, save_secret in E.
  destruct (sv_require_stepup d) eqn:Es; [simplify_eq; auto|]. destruct (dv_is_unlocked (sv_vault d)) eqn:El; simpl in E; [|simplify_eq; auto].
  destruct (load_allowlist (sv_allowlist d)) as [a|] eqn:Ea; simpl in E; [|simplify_eq; auto].
  destruct (write_allowed _ _ _ _ _) eqn:Ew; simpl in E; [|simplify_eq; auto]. right.
  destruct (write_allowed_ok _ _ _ _ _ Ew) as (id & g & Hw). exists a, id, g.
  unfold dv_is_unlocked in El. apply bool_decide_eq_true in El. split_and!; auto; apply Hw.
Qed.

(** A code is looked up without the username when the index has no entry for
    the domain. *)
Lemma totp_scan_ignores_username now domain username s w h :
  normalize_host domain = Some h -> domain_lookup s now h w = (Ok [], w) ->
  find_totp_code now domain username s w = find_totp_code now domain None s w.
Proof. intros Hh E. unfold find_totp_code. rewrite Hh. by rewrite !(M_bind_run _ _ _ _ _ E). Qed.
End Facts.

(** ** An idle vault closes *)

(** The requests that use the vault or open it; looking at its status, locking
    it and managing site permissions are none of them. *)
Definition touches (m : Request) : bool :=
  match m with
  | GetExternalSecret _ _ _ _ | SaveSecret _ _ _ _ | GetCredential _ _ _ | ListDomainCredentials _ _ | GetTotpCode _ _ _
  | SaveCredential _ _ _ _ _ | UnlockVault _ | UnlockVaultBiometric _ => true
  | _ => false
  end.

(** The response carries something of the vault's content. *)
Definition releases (r : Response) : bool :=
  match r with
  | GetExternalSecretResponse (Some _) _ _ _ => true
  | GetCredentialResponse (Some _) _ _ _ _ | GetCredentialResponse _ (Some _) _ _ _ | GetCredentialResponse _ _ (Some _) _ _ => true
  | ListDomainCredentialsResponse (_ :: _) _ _ => true
  | GetTotpCodeResponse (Some _) _ _ _ => true
  | _ => false
  end.

Section Idle.
Context `{Environment, Chrono, Hmac, Sha256, HexDecode, UuidText, Base64, Aead, UrlParse, UrlScheme, Base32, HmacSha1, Base64Url, ErrorText}.
Context `{SerdeBytes AadContext, SerdeBytes EnvelopeDoc, SerdeBytes EntryTuple, SerdeBytes MappingTuple, SerdeBytes TagTuple}.
Context `{SerdeBytes CustodyTuple, SerdeBytes State, SerdeBytes Document}.
Context `{Bincode EncryptedEntry, BincodeSer EncryptedEntry, BincodeSer bytes}.
Context `{Bincode KdfParams, Bincode WrappedKey, Bincode LegacyWrappedKey, Bincode bytes, SerdeBytes NonceDocument, SerdeBytes KdfDocument, SerdeBytes WrapDocument}.
Context `{SerdeBytes InstallationCapabilities, SerdeBytes SitePermissionStore, SerdeBytes ExternalSecretAllowlist}.

(** What a request does to the lock and the clock of the vault. *)
Definition clock_step (touched : bool) (instant : Z) (dv dv' : DaemonVault) : Prop :=
  dv_inactivity_timeout dv' = dv_inactivity_timeout dv /\
  (dv_state dv' = Unlocked ->
   (touched = true /\ dv_last_activity dv' = instant) \/ (dv_state dv = Unlocked /\ dv_last_activity dv' = dv_last_activity dv)).

Lemma clock_same b i dv : clock_step b i dv dv.
Proof. split; [done|]. by right. Qed.
Lemma clock_touch dv i : clock_step true i dv (record_activity i dv).
Proof. split; [done|]. by left. Qed.

Lemma with_vault_clock {A} locked (f : Session -> M A) i d r d' :
  run (with_vault locked f i) d = (r, d') -> clock_step true i (sv_vault d) (sv_vault d').
Proof.
  unfold run, with_vault. destruct (dv_vault (sv_vault d)) as [s|]; [destruct (f s (sv_world d)) as [x w]|];
    intros [= <- <-]; [apply clock_touch|apply clock_same].
Qed.

Lemma unlock_clock open i d r d' : run (unlock i open) d = (r, d') -> clock_step true i (sv_vault d) (sv_vault d').
Proof.
  unfold run, unlock. destruct (open (sv_world d)) as [[s|e] w]; intros [= <- <-]; [|apply clock_same]. split; [done|]. by left.
Qed.

(** Decide the branches of a handler. *)
Ltac branches E :=
  repeat (first
    [ match type of E with context [run (with_vault ?l ?f ?i) ?d] =>
        let Er := fresh "Er" in destruct (run (with_vault l f i) d) as [? ?] eqn:Er; apply with_vault_clock in Er end
    | match type of E with context [run (unlock ?i ?o) ?d] =>
        let Er := fresh "Er" in destruct (run (unlock i o) d) as [? ?] eqn:Er; apply unlock_clock in Er end
    | match type of E with context [match ?x with _ => _ end] => destruct x end ]; cbn [negb] in E).

Lemma handle_clock am ca m d d' audits r :
  handle_message am ca m d = (d', audits, r) -> clock_step (touches m) (am_instant am) (sv_vault d) (sv_vault d').
Proof.
  intros E. destruct m; cbn [handle_message touches] in *;
    unfold get_external_secret, save_secret, get_credential_request, list_domain_credentials_request, get_totp_request,
      save_credential_request, grant_site_permission, revoke_site_permission, list_site_permissions, unlock_request,
      unlock_biometric_request, get_credential, get_credential_for_username, save_secret_value, list_domain_credentials,
      get_totp_code_for_username, save_credential in E;
    branches E; simplify_eq; try done; try apply clock_same.
Qed.

Lemma release_unlocked am ca m d d' audits r :
  handle_message am ca m d = (d', audits, r) -> releases r = true -> dv_state (sv_vault d) = Unlocked.
Proof.
  intros E Hr. destruct m; cbn [handle_message] in *;
    unfold get_external_secret, save_secret, get_credential_request, list_domain_credentials_request, get_totp_request,
      save_credential_request, grant_site_permission, revoke_site_permission, list_site_permissions, unlock_request,
      unlock_biometric_request in E;
    unfold dv_is_unlocked in E; destruct (decide (dv_state (sv_vault d) = Unlocked)) as [Hd|Hd];
    [exact Hd|rewrite ?(bool_decide_false _ Hd) in E; branches E; simplify_eq; done..].
Qed.

(** A run of the daemon from a locked vault, with the time of the last tick of
    the auto-lock task (or of the unlock that started it), the time, and the
    requests so far.  While the vault is open, a tick is at most [interval]
    away: [check_interval] plus what the scheduler adds. *)
Inductive idle_run (interval : Z) : Z -> Z -> list (Z * Request) -> Server -> Prop :=
| idle_start t d :
    dv_state (sv_vault d) = Locked -> 0 <= dv_inactivity_timeout (sv_vault d) -> idle_run interval t t [] d
| idle_request tick t h d am ca m d' audits r :
    idle_run interval tick t h d -> t <= am_instant am ->
    (dv_state (sv_vault d) = Unlocked -> am_instant am <= tick + interval) ->
    handle_message am ca m d = (d', audits, r) ->
    idle_run interval (if dv_is_unlocked (sv_vault d) then tick else am_instant am) (am_instant am) ((am_instant am, m) :: h) d'
| idle_tick tick t h d i :
    idle_run interval tick t h d -> t <= i -> (dv_state (sv_vault d) = Unlocked -> i <= tick + interval) ->
    idle_run interval i i h {| d with sv_vault := auto_lock_tick i (sv_vault d) |}.

(** The last use is a request of the run, and the tick did not find it old. *)
Definition recent (tick t : Z) (h : list (Z * Request)) (d : Server) : Prop :=
  0 <= dv_inactivity_timeout (sv_vault d) /\ tick <= t /\
  (dv_state (sv_vault d) = Unlocked ->
   exists m, (dv_last_activity (sv_vault d), m) ∈ h /\ touches m = true /\
     tick <= dv_last_activity (sv_vault d) + dv_inactivity_timeout (sv_vault d)).

Lemma idle_run_recent interval tick t h d : idle_run interval tick t h d -> recent tick t h d.
Proof.
  induction 1 as [t d Hl Ht|tick t h d am ca m d' audits r _ (Ht & Htick & Hrec) Hle Hint E|tick t h d i _ (Ht & Htick & Hrec) Hle Hint].
  - split_and!; [done|lia|]. congruence.
  - destruct (handle_clock _ _ _ _ _ _ _ E) as [Eto Hst]. rewrite <- Eto in Ht. split_and!; [done|destruct (dv_is_unlocked _); lia|].
    intros Hu. destruct (Hst Hu) as [[Htm Ela]|[Hu' Ela]].
    + exists m. rewrite Ela. split; [by left|]. split; [done|]. destruct (dv_is_unlocked _); lia.
    + destruct (Hrec Hu') as (m' & Hin & Htm & Hb). exists m'. rewrite Ela, Eto. split; [by right|]. split; [done|].
      unfold dv_is_unlocked. by rewrite bool_decide_true.
  - unfold recent, auto_lock_tick. simpl. destruct (_ && _) eqn:Eb; simpl; (split; [done|]); (split; [lia|]); [done|]. intros Hu.
    destruct (Hrec Hu) as (m' & Hin & Htm & Hb). exists m'. split_and!; [done|done|].
    unfold dv_is_unlocked in Eb. rewrite bool_decide_true in Eb by done. simpl in Eb. apply Z.leb_gt in Eb. lia.
Qed.

(** C24. An idle vault closes.  In every run of the daemon, a response that
    carries something of the vault's content is given only when a request that
    used or opened the vault was made at most the inactivity timeout and one
    period of the auto-lock task before; reading the status and managing site
    permissions do not keep the vault open. *)
Theorem idle_vault_closes interval tick t h d am ca m d' audits r :
  idle_run interval tick t h d -> t <= am_instant am -> (dv_state (sv_vault d) = Unlocked -> am_instant am <= tick + interval) ->
  handle_message am ca m d = (d', audits, r) -> releases r = true ->
  exists t' m', (t', m') ∈ h /\ touches m' = true /\ am_instant am - t' <= dv_inactivity_timeout (sv_vault d) + interval.
Proof.
  intros Hr Hle Hint E Hrel. pose proof (release_unlocked _ _ _ _ _ _ _ E Hrel) as Hu.
  destruct (idle_run_recent _ _ _ _ _ Hr) as (_ & _ & Hrec). destruct (Hrec Hu) as (m' & Hin & Htm & Hb).
  exists (dv_last_activity (sv_vault d)), m'. split_and!; [done|done|]. specialize (Hint Hu). lia.
Qed.
End Idle.
