(* ===== verification/BrowserDemo.v ===== *)
(** * Requests of browsers and local tools: a concrete daemon

    A vault with one login and its one-time code, a capability, a permission and
    a grant, and the witnesses.  Models no code. *)

From S2P Require Import Prelude Text ThirdParty Aad Envelope CoreDemo Keyring KeyDemo CoreError EnvelopeOps DbWire KeySlots VaultKeys LocalDb.
From S2P Require Import ContentGuard ContentFacts Registry Entries EntriesFacts EntriesDemo DomainTags DomainOps DomainFacts Totp TotpOps Session AuditLog SiteAccess.
From S2P Require Import ExternalAllow DaemonVault Browser BrowserFacts.
From Stdlib Require Import ZArith Lia Strings.String Strings.Ascii Strings.Byte.
From stdpp Require Import base list option strings numbers gmap.
From S2P Require Import Text LocalDb Entries Totp TotpOps SiteAccess ExternalAllow DaemonVault Browser BrowserFacts.
Import Msg.
Import DomainFacts.Demo Totp.Demo.
Open Scope Z_scope.

#[export] Instance scheme_of : UrlScheme := fun s => match split_once_str "://" s with Some (x, _) => x | None => ""%string end.
#[export] Instance base64url : Base64Url := fun b => hex_encode b.
#[export] Instance no_text : ErrorText := fun _ => ""%string.

Lemma symbol32_byte x y : symbol32 x = Some y -> base32_byte x = true.
Proof.
  unfold symbol32, base32_byte. destruct (between 65 90 x) eqn:E1; unfold between in *; [by rewrite E1|].
  destruct ((50 <=? Z_of_byte x) && (Z_of_byte x <=? 55)); [|done]. intros _. by rewrite orb_true_r.
Qed.
Lemma symbols_bytes l : forall k, mapM symbol32 l = Some k -> forallb base32_byte l = true.
Proof.
  induction l as [|x l IH]; intros k E; [done|]. simpl in E. destruct (symbol32 x) eqn:Ex; [|discriminate E]. simpl in E.
  destruct (mapM symbol32 l) eqn:El; [|discriminate E]. simpl. by rewrite (symbol32_byte _ _ Ex), (IH _ eq_refl).
Qed.
Lemma groups_alphabet n : forall b d, (length b <= n)%nat -> groups b = Some d -> forallb base32_byte b = true.
Proof.
  induction n as [|n IH]; intros b d Hn E; [by destruct b; simpl in Hn; [|lia]|].
  destruct b as [|b1 [|b2 [|b3 [|b4 [|b5 [|b6 [|b7 [|b8 rest]]]]]]]]; try discriminate E; [done|].
  cbn [groups] in E. destruct (mapM symbol32 _) as [l|] eqn:El; [|discriminate E]. simpl in E.
  destruct (groups rest) as [out|] eqn:Eg; [|discriminate E].
  assert (forallb base32_byte rest = true) as Hr by (eapply IH; [simpl in Hn; lia|exact Eg]).
  apply symbols_bytes in El. change (b1 :: _) with ([b1; b2; b3; b4; b5; b6; b7; b8] ++ rest). rewrite (forallb_app base32_byte [b1; b2; b3; b4; b5; b6; b7; b8] rest). by rewrite El, Hr.
Qed.
#[export] Instance base32_laws : Base32Laws.
Proof. split; [intros b d; by apply (groups_alphabet (length b))|intros b d; by apply (groups_alphabet (length b))|done]. Qed.

(** ** Codecs *)

#[export] Instance flat_capability : Flat Capability :=
  flat_via (fun c => (cap_audience c, cap_secret_hash c, cap_issued_at c, cap_expires_at c, cap_nonce c))
    (fun '(a, h, i, e, n) => {| cap_audience := a; cap_secret_hash := h; cap_issued_at := i; cap_expires_at := e; cap_nonce := n |})
    (fun c => match c with Build_Capability _ _ _ _ _ => eq_refl end).
#[export] Instance flat_capabilities : Flat InstallationCapabilities :=
  flat_via capabilities (fun l => {| capabilities := l |}) (fun c => match c with Build_InstallationCapabilities _ => eq_refl end).
#[export] Instance flat_permission : Flat SitePermission :=
  flat_via (fun p => (sp_host p, sp_allow_insecure p, sp_granted_at p, sp_updated_at p))
    (fun '(h, a, g, u) => {| sp_host := h; sp_allow_insecure := a; sp_granted_at := g; sp_updated_at := u |})
    (fun p => match p with Build_SitePermission _ _ _ _ => eq_refl end).
#[export] Instance flat_permissions : Flat SitePermissionStore :=
  flat_via permissions (fun l => {| permissions := l |}) (fun p => match p with Build_SitePermissionStore _ => eq_refl end).
#[export] Instance flat_field : Flat X.ExternalSecretField :=
  flat_via (fun f => match f with X.Username => None | X.Password => Some true | X.Title => Some false end)
    (fun o => match o with None => X.Username | Some true => X.Password | Some false => X.Title end)
    (fun f => match f with X.Username => eq_refl | X.Password => eq_refl | X.Title => eq_refl end).
#[export] Instance flat_grant : Flat ExternalSecretGrant :=
  flat_via (fun g => (xg_client_id g, xg_domain g, xg_field g, xg_expires_at g, xg_allow_write g))
    (fun '(c, d, f, e, w) => {| xg_client_id := c; xg_domain := d; xg_field := f; xg_expires_at := e; xg_allow_write := w |})
    (fun g => match g with Build_ExternalSecretGrant _ _ _ _ _ => eq_refl end).
#[export] Instance flat_token : Flat ClientTokenRecord :=
  flat_via (fun r => (ct_token_hash r, ct_created_at r, ct_revoked r))
    (fun '(h, c, r) => {| ct_token_hash := h; ct_created_at := c; ct_revoked := r |})
    (fun r => match r with Build_ClientTokenRecord _ _ _ => eq_refl end).
#[export] Instance flat_tokens : Flat (gmap string ClientTokenRecord) :=
  flat_via (B := list (string * ClientTokenRecord)) map_to_list (fun l => list_to_map l) (fun m => list_to_map_to_list m).
#[export] Instance flat_allowlist : Flat ExternalSecretAllowlist :=
  flat_via (B := list ExternalSecretGrant * gmap string ClientTokenRecord) (fun a => (xa_grants a, xa_client_tokens a))
    (fun '(g, t) => {| xa_grants := g; xa_client_tokens := t |})
    (fun a => match a with Build_ExternalSecretAllowlist _ _ => eq_refl end).

(** ** The daemon *)

Definition demo_caps : InstallationCapabilities := {| capabilities :=
  [{| cap_audience := NATIVE_HOST_AUDIENCE; cap_secret_hash := hex_encode (sha256 (as_bytes "s")); cap_issued_at := 1;
      cap_expires_at := Some 900; cap_nonce := "n" |}] |}.
Definition demo_perms : SitePermissionStore := {| permissions :=
  [{| sp_host := "gist.github.com"; sp_allow_insecure := true; sp_granted_at := 1; sp_updated_at := 1 |}] |}.
Definition demo_allow : ExternalSecretAllowlist := {|
  xa_grants := [{| xg_client_id := "tool"; xg_domain := "github.com"; xg_field := X.Password; xg_expires_at := None; xg_allow_write := true |}];
  xa_client_tokens := {["tool" := {| ct_token_hash := hash_client_token "t"; ct_created_at := 1; ct_revoked := false |}]} |}.

Definition vault_world : World := Eval vm_compute in filled.
Definition demo_vault : DaemonVault := {| dv_vault := Some demo_session; dv_state := Unlocked; dv_last_activity := 5; dv_inactivity_timeout := 300 |}.
Definition demo_server : Server := {|
  sv_vault := demo_vault; sv_world := vault_world; sv_capabilities := Some (to_vec demo_caps); sv_permissions := Some (to_vec demo_perms);
  sv_allowlist := Some (to_vec demo_allow); sv_require_stepup := false |}.
Definition demo_ambient : Ambient := {|
  am_instant := 10; am_now := 200; am_utc := 200; am_windows := {| allow_legacy_originless := false; allow_self_asserted_origin := false |};
  am_io := StoreWritten; am_open _ w := (Ok demo_session, w); am_open_biometric _ w := (Err VaultLocked, w) |}.
Definition host_caller : Caller := {| ca_client_token := None; ca_origin := Some NativeHost; ca_capability := Some "s"%string |}.
Definition tool_caller : Caller := {| ca_client_token := Some "t"%string; ca_origin := Some Cli; ca_capability := None |}.

Lemma demo_keys_unique : keys_unique (w_db vault_world).
Proof. split_and!; (refine (bool_decide_unpack _ _); vm_compute; exact I). Qed.

(** Over plain HTTP, with the permission of the user. *)
Abbreviation page := (Some "http://gist.github.com/login"%string).
Abbreviation answered := (handle_message demo_ambient host_caller (GetCredential "evil.example" page (Some "U "%string)) demo_server).
Lemma answered_eq :
  answered = (answered.1.1, answered.1.2, GetCredentialResponse (Some "u"%string) (Some "p"%string) (Some "t"%string) None None).
Proof. vm_compute. reflexivity. Qed.

Lemma autofill_bound_witness :
  exists host s e, holds demo_server s /\ page_on demo_server page host /\
    belongs s 200 (w_db vault_world) host (Some "U "%string) e /\ Some "p"%string = Some (en_password e).
Proof.
  destruct (autofill_bound demo_ambient host_caller "evil.example" page (Some "U "%string) demo_server _ _ _ _ _ _ _
    demo_keys_unique answered_eq) as (_ & _ & _ & _ & [(E & _)|(host & s & e & _ & Hs & Hp & Hb & _ & E & _)]); [discriminate E|].
  exists host, s, e. auto.
Defined.

(** A tool with a token and a grant. *)
Abbreviation tool_request := (GetExternalSecret "Tool" "github.com" X.Password None).
Abbreviation tool_answered := (handle_message demo_ambient tool_caller tool_request demo_server).
Lemma tool_answered_eq :
  tool_answered = (tool_answered.1.1, tool_answered.1.2, GetExternalSecretResponse (Some "p"%string) true None None).
Proof. vm_compute. reflexivity. Qed.

Lemma external_read_bound_witness :
  exists a id g s e, load_allowlist (sv_allowlist demo_server) = Ok a /\ normalize_client_id "Tool" = Ok id /\
    g ∈ xa_grants a /\ xg_client_id g = id /\ normalize_domain "github.com" = Ok (xg_domain g) /\
    belongs s 200 (w_db vault_world) "github.com" None e /\ Some "p"%string = Some (secret_field X.Password (credential_response e)).
Proof.
  destruct (external_read_bound demo_ambient tool_caller demo_server _ _ _ _ _ _ _ _ _ _ demo_keys_unique tool_answered_eq)
    as (_ & [E|(a & id & g & s & e & _ & _ & Ha & Hid & _ & Hg & Hc & Hd & _ & _ & Hb & E & _)]); [discriminate E|].
  exists a, id, g, s, e. exact (conj Ha (conj Hid (conj Hg (conj Hc (conj Hd (conj Hb E)))))).
Defined.

(** Unlocked, checked once, then asked for a credential. *)
Definition locked_server : Server := {| demo_server with sv_vault := {| demo_vault with dv_vault := None; dv_state := Locked |} |}.
Definition at_instant (i : Z) : Ambient := {| demo_ambient with am_instant := i |}.
Definition opened_server : Server := {| demo_server with sv_vault := {| demo_vault with dv_last_activity := 10 |} |}.

Lemma demo_idle_run : idle_run 5 12 12 [(10, UnlockVault "pw")] opened_server.
Proof.
  apply (idle_tick 5 10 10 [(10, UnlockVault "pw")] opened_server 12); [|lia|simpl; lia].
  apply (idle_request 5 0 0 [] locked_server (at_instant 10) host_caller (UnlockVault "pw") opened_server [] (UnlockVaultResponse true None)).
  - apply idle_start; [reflexivity|simpl; lia].
  - simpl. lia.
  - intros E. discriminate E.
  - reflexivity.
Qed.

Abbreviation late := (handle_message (at_instant 16) host_caller (GetCredential "" page None) opened_server).
Lemma late_eq : late = (late.1.1, late.1.2, GetCredentialResponse (Some "u"%string) (Some "p"%string) (Some "t"%string) None None).
Proof. vm_compute. reflexivity. Qed.

Lemma idle_vault_closes_witness :
  exists t' m', (t', m') ∈ [(10, UnlockVault "pw")] /\ touches m' = true /\ 16 - t' <= 305.
Proof.
  apply (idle_vault_closes 5 12 12 [(10, UnlockVault "pw")] opened_server (at_instant 16) host_caller (GetCredential "" page None) late.1.1 late.1.2
    (GetCredentialResponse (Some "u"%string) (Some "p"%string) (Some "t"%string) None None) demo_idle_run);
    [simpl; lia|simpl; lia|exact late_eq|reflexivity].
Defined.

(** The login gets a one-time code. *)
Abbreviation enrolled := (add_totp_secret demo_session 100 1 (secret_base32 demo_parsed) (algorithm demo_parsed) (digits demo_parsed)
  (period demo_parsed) (issuer demo_parsed) (account_name demo_parsed) vault_world).
Definition enrolled_row : TotpRow := Eval vm_compute in
  match totp_row 1 (w_db enrolled.2) with
  | Some r => r
  | None => totp_of {| nt_secret := []; nt_nonce := []; nt_auth_tag := []; nt_algorithm := ""; nt_digits := 0; nt_period := 0;
                       nt_issuer := None; nt_account := None; nt_created_at := 0; nt_sync_id := "" |} 0 0 (default_sync "")
  end.

Lemma totp_enrolled_witness :
  exists code, vault_totp_code demo_session 59 1 enrolled.2 = (Ok {| tc_code := code; tc_seconds_remaining := 1 |}, enrolled.2) /\
    Z.of_nat (String.length code) = 8.
Proof.
  assert (enrolled = (Ok 1, enrolled.2)) as E.
  { assert (enrolled.1 = Ok 1) as E1 by (vm_compute; reflexivity). rewrite <- E1. apply surjective_pairing. }
  assert (parse_otpauth_uri demo_uri = Ok demo_parsed) as Eu by (vm_compute; reflexivity).
  destruct (totp_enrolled demo_session demo_dek "7" 100 1 demo_uri demo_parsed vault_world 1 enrolled.2 eq_refl eq_refl Eu E) as [Hc _].
  - intros x Hx. vm_compute in Hx. injection Hx as <-. reflexivity.
  - intros x Hx. vm_compute in Hx. injection Hx as <-. reflexivity.
  - assert (totp_row 1 (w_db enrolled.2) = Some enrolled_row) as -> by (vm_compute; reflexivity). intros r [= <-].
    split; [|split; [|split]].
    + intros sid Hs vu ou p Hvu Hou. vm_compute in Hs. injection Hs as <-.
      change "7"%string with (uuid_to_string (from_u128 7)) in Hvu. change (uuid_parse_str (uuid_to_string (from_u128 8)) = Some ou) in Hou.
      rewrite uuid_parse_to_string in Hvu, Hou. injection Hvu as <-. injection Hou as <-.
      destruct p; vm_compute; discriminate.
    + vm_compute. discriminate.
    + intros b Hb. vm_compute in Hb. injection Hb as <-. vm_compute. discriminate.
    + intros b Hb. vm_compute in Hb. injection Hb as <-. vm_compute. discriminate.
  - destruct (Hc 59) as (code & Hv & _ & Hl & _). exists code. split; [exact Hv|exact Hl].
Defined.

(** A write grant for a domain overwrites the password of the first login whose
    address is on a host below it (here before its equality index is built). *)
Definition login_world : World := Eval vm_compute in
  (add_entry demo_session 100 {| demo_entry with en_url := Some "https://a.github.com/"%string |} {| world0 with w_on_disk := false |}).2.
Definition login_server : Server := {| demo_server with sv_world :=
  {| login_world with w_db := {| (w_db login_world) with secret_equality_index := ∅ |} |} |}.
Abbreviation written := (handle_message demo_ambient tool_caller (SaveSecret "tool" "github.com" "x" None) login_server).
Lemma tool_overwrites_login :
  written.2 = SaveSecretResponse true None None /\
  (fun e => (en_username e, en_password e)) <$> (match (get_entry demo_session 200 1 login_world).1 with Ok e => Some e | Err _ => None end) = Some ("u", "p")%string /\
  (fun e => (en_username e, en_password e)) <$> (match (get_entry demo_session 200 1 (sv_world written.1.1)).1 with Ok e => Some e | Err _ => None end) = Some ("u", "x")%string.
Proof. vm_compute. done. Qed.
